(* ===== verification/_CoqProject ===== *)
-Q . S2P
Prelude.v
Blob.v
ArrayFile.v
ArrayLoadSafe.v
RecordIO.v
RecordIOChunk.v
InputSplit.v
InputSplitSound.v
PlanMemory.v
PlanMemorySound.v
PlanMemoryMake.v
ExecutorMemory.v
StdAlgo.v
Floats.v
Sparse.v
Command.v
Text.v
Postoffice.v
Customer.v
TwoBit.v
GradientCompression.v
KeyEncoding.v
KVApp.v
NDArray.v
SparseOps.v
Optimizer.v
Comm.v
KVStoreLocal.v
LocalKeys.v
LocalStoreSpec.v
LocalStoreRefines.v
LocalRowSparse.v
ServerState.v
DistServer.v
RowSparseServer.v
ServerSpec.v
LocalServer.v
DistWorker.v
DistWorkerSpec.v
DataCenter.v
WorkerMerge.v
Hfa.v
Message.v
Resender.v
ResenderSafe.v
Queue.v
DGT.v
Van.v
Barrier.v
EngineVar.v
Engine.v
EngineInv.v
EngineSteps.v
EngineSerial.v
EngineBulk.v
