(* ===== verification/Prelude.v ===== *)
(** * GeoMX in Rocq

    GeoMX trains one model on the machines of several data centers.  It is MXNet with a
    changed key-value store and a changed ps-lite: the workers of a data center push their
    gradients to the servers of the data center, these push sums to the global servers, and
    new weights travel the same way back.  This library models the path of a gradient, the
    engine that orders the operations on it, the arrays it is kept in, the updates made with
    it, the memory plan of the graph that computes it, and the files the data and the weights
    are in, and proves what each part promises to the next.

    ** The program and its model

    Arrays.  [NDArray.v] has arrays as handles to a heap of chunks, so that two variables can
    share storage (src/src/ndarray/ndarray.cc).  [Floats.v] has binary32 and binary64
    arithmetic on SpecFloat and the conversions of C++; [StdAlgo.v] std::sort, std::unique,
    std::lower_bound and the parallel sort of src/src/common/utils.h.  [Sparse.v] and
    [SparseOps.v] have row-sparse and CSR arrays: the format check, conversions
    (src/src/operator/tensor/cast_storage-inl.h), sums of row-sparse arrays
    (src/src/ndarray/ndarray_function.cc, src/src/kvstore/comm.h), retained rows
    (sparse_retain-inl.h) and element-wise operations (elemwise_binary_op-inl.h).
    [Blob.v] has arrays as their memory: chunks of bytes that are allocated, viewed and
    resized (src/include/mxnet/ndarray.h).  [ArrayFile.v] saves and loads them, also in the
    old formats (src/src/ndarray/ndarray.cc); [ArrayLoadSafe.v] loads any bytes.
    [Optimizer.v]: the optimizer operators on dense and row-sparse arrays
    (src/src/operator/optimizer_op-inl.h and optimizer_op.cc).

    Input files.  [RecordIO.v]: RecordIO files (src/3rdparty/dmlc-core/src/recordio.cc);
    [RecordIOChunk.v]: chunks of records read in parts.  [InputSplit.v]: the share of a worker
    in the input files (src/3rdparty/dmlc-core/src/io/input_split_base.cc), with the class
    [Splitter] of its virtual methods and its instance for RecordIO files
    (recordio_split.cc); [InputSplitSound.v] its theorems.

    Memory planning.  [PlanMemory.v]: the pass that puts the values of a graph into shared
    storages (src/3rdparty/tvm/nnvm/src/pass/plan_memory.cc), and runs of a graph with and
    without its plan; [PlanMemorySound.v]: safe plans; [PlanMemoryMake.v]: the planner.
    [ExecutorMemory.v]: the arrays that the graph executor makes from a plan
    (InitDataEntryMemory of src/src/executor/graph_executor.cc).

    The dependency engine (src/src/engine/threaded_engine.h and .cc,
    src/include/mxnet/engine.h, naive_engine.cc).  [EngineVar.v]: the linked queue of a
    variable, its abstract state, and the class [VarQueue] both implement.  [Engine.v]: the
    steps of pushing, running and completing operations, chosen by a schedule.  [EngineInv.v]
    and [EngineSteps.v]: the invariant, step by step.  [EngineSerial.v]: results and
    progress.  [EngineBulk.v]: lists of variables and bulk pushes.

    One machine.  [Comm.v]: [CommCPU] (src/src/kvstore/comm.h), which adds up the arrays of
    several devices and copies a value to them.  [KVStoreLocal.v]: the store of one machine
    (src/src/kvstore/kvstore_local.h, kvstore_utils.cc); [LocalKeys.v], [LocalStoreSpec.v],
    [LocalStoreRefines.v] and [LocalRowSparse.v] have its theorems.

    Messages.  [Command.v]: the packing of request type and element type into one int.
    [Text.v]: numbers as text.  [Postoffice.v] and [Customer.v]: node ids, key ranges,
    heartbeats, request tracking.  [Message.v]: headers and their wire form.  [Queue.v]: the
    priority queue between threads.  [Van.v] and [Barrier.v]: registration at the scheduler
    and barriers, with the nodes and the network as interleaved steps.  [Resender.v] and
    [ResenderSafe.v]: messages sent again over a network that loses them.  [DGT.v]: blocks of
    a push over lossy channels.  All under src/3rdparty/ps-lite.  [KVApp.v]: slicing a request
    among the servers and putting the answers together (kv_app.h).  [KeyEncoding.v]: which
    server gets which part of a key (src/src/kvstore/kvstore_dist.h and
    kvstore_dist_server.h).  [TwoBit.v] and [GradientCompression.v]: compression
    (src/src/kvstore/gradient_compression.cc and -inl.h).

    Workers and servers.  [ServerState.v] and [DistServer.v]: the state and the handlers of
    [KVStoreDistServer] (src/src/kvstore/kvstore_dist_server.h), in the local and the global
    role; [RowSparseServer.v] the handlers of row-sparse keys.  [ServerSpec.v]: a machine that
    says what a synchronous server promises, and the proof that the handlers implement it.
    [LocalServer.v]: a round of a key on a local server.  [Hfa.v]: a fault of hierarchical
    frequency aggregation.  [DistWorker.v]: the worker's store [KVStoreDist]
    (src/src/kvstore/kvstore_dist.h); [DistWorkerSpec.v] what its pushes and pulls send.
    [DataCenter.v]: workers and servers together.  [WorkerMerge.v]: pushes merged on the way
    (TSEngine).

    ** How the code is represented

    A function that can fail returns a [result]: [CheckFailed] for a failed CHECK or a fatal
    log entry, [Undefined] for undefined behaviour, [Blocked] for a wait that nothing ends.
    Code with state is in the monad [st]; handlers collect what they send in an outbox.
    Integers are Z, with [u64], [i32] and the like where the C++ type wraps around, and
    [int_range] where overflow of a signed type is undefined.  Floats are lists of
    [spec_float]; nothing about them is assumed, so sums are sums in a given order.  Threads
    are step relations or schedules (engine, barriers, resender); elsewhere an order of
    arrival is a permutation that the theorem quantifies over.

    Parameters, for code outside src/ or for choices the sources leave open: the optimizer
    ([updater]), std::shuffle, the order std::sort gives equal keys, the order in which
    threads do their tasks, the protobuf serialiser, what fresh memory contains, what the
    operators of a graph compute, and the answers of the servers in [DistWorker.v].  Theorems
    that need a property of one of them state it as a hypothesis, such as "the result of the
    sort is a sorted permutation".

    ** What is shown

    - Servers implement their specification: [sync_server_refines], [sync_round].
    - A round of a data center, from the devices to the global servers and back:
      [data_center_round], [data_center_pull]; with merging on the way: [ts_merge_sums].
    - The engine never fails a check, gives the result of the sequential execution and
      always finishes: [engine_safe], [engine_serializable], [engine_completes],
      [wait_for_var], [bulk_equivalent], [var_queue_refines].
    - The local store is a map: [local_store_refines], [row_sparse_pull],
      [string_key_numbers].
    - Requests are cut and joined without loss: [slicer_partition], [pull_reassembles],
      [default_key_spread], [compressed_key_parts], [row_sparse_spread], [p3_slices].
    - Sparse arrays denote what they should: [check_format], [cast_storage_roundtrip],
      [sparse_sum_equivalent], [rsp_binary_op].
    - Arrays in memory and in files: [slice_is_window], [array_file_roundtrip],
      [load_memory_safe]; updates with sparse gradients: [sgd_mom_sparse].
    - Every record of a file is read once: [recordio_roundtrip], [chunk_parts_partition],
      [recordio_split_partition].
    - A graph computes the same in the memory of its plan, which is large enough:
      [plan_memory_sound], [plan_memory_fits]; the executor's arrays share memory exactly
      as planned: [executor_memory].
    - Compression: [two_bit_roundtrip], [bsc_error_feedback], [bsc_pull_exact],
      [params_roundtrip].
    - Transport: [dgt_delivery], [barrier_safe], [queue_serves_highest],
      [scheduler_assigns_ids], [meta_roundtrip], [request_lifecycle],
      [resender_exactly_once], [resender_delivers], [resender_key_unique].
    - Faults of the code, each as a theorem about the definitions that model it:
      [ts_merge_loses_key], [rowsparse_push_lost], [barrier_lost_answer],
      [hfa_push_carries_nothing], [concurrent_push_deadlock], [inplace_on_ignored_input],
      [two_files_refused], [resender_global_unacknowledged], [adam_std_uninitialized].

    ** Bounds and fuel

    Most loops are bounded by their data ([for_range], [foldM], structural recursion).  Fuel
    bounds the others: [p3_loop] and [dgt_loop] (number of slices or blocks), [merge_rows],
    [bsearch] and [merge_common] (number of rows), [ParallelSortHelper] (length of the list),
    [read_chain] and [detach] (number of queue blocks), [sift_up] and [sift_down] (size of
    the heap), [set_all_done] (the ids of a node table), [decode_byte] (the values in a
    byte), [search_range] (the bits of a match range), [next_record], [chunk_parts],
    [move_parts], [find_head], [seek_begin] and [load_loop] (bytes of the input),
    [read_loop] (two rounds for each file), [next_loop] (a chunk and the next).  The theorems
    about the callers show that the result is reached, not only that it is right when
    reached; [set_all_done] ends when the ids are those of [set_all_done_spec].
    The bounds that theorems assume, at most 2^20 servers, keys with key * 9973 below 2^31,
    values of less than 2^31 bytes, keep the code's int arithmetic from overflowing.

    ** Not modelled

    Sockets, threads and start-up of ps-lite (Van::Start, the zmq van), the scheduling
    decisions of TSEngine and the thread pools of the engine: what they do is a choice of the
    schedule in the step relations.  The GPU paths (CommDevice, .cu files, NCCL), MKL-DNN, and
    the operators other than the optimizers and the sparse ones above, which are numeric
    kernels without a contract to the parts above.  The rest of the graph executor and the
    imperative runtime, which infer shapes, bind arguments by name and push nodes to the
    engine, and the passes of nnvm other than PlanMemory.  The image pipeline behind the
    record files, text input, the profiler, and the C and C++ interfaces, which are I/O,
    wrappers or generated code. *)

From Stdlib Require Export ZArith Lia Bool.
From stdpp Require Export base strings option gmap list.

(** ** Errors

    [CHECK], [LOG(FATAL)] and [CHECK_NOTNULL] of dmlc throw [dmlc::Error], which
    no caller in the modelled code catches: they abort the operation.  Reading or
    writing outside an array, [std::queue::front] on an empty queue and the like
    are undefined behaviour in C++; both are explicit outcomes of the model.  A step
    that would make its thread wait (a spin on a flag, a condition variable) is not
    enabled; its outcome is [Blocked]. *)

Inductive error :=
  | CheckFailed (msg : string)
  | Undefined (what : string)
  | Blocked (what : string).            (* the calling thread waits *)

Inductive result (A : Type) :=
  | Ok (a : A)
  | Err (e : error).
Arguments Ok {A} a.
Arguments Err {A} e.

#[export] Instance error_eq_dec : EqDecision error.
Proof. solve_decision. Defined.
#[export] Instance result_eq_dec `{EqDecision A} : EqDecision (result A).
Proof. solve_decision. Defined.

#[export] Instance result_ret : MRet result := @Ok.
#[export] Instance result_bind : MBind result := fun A B f m =>
  match m with Ok a => f a | Err e => Err e end.
#[export] Instance result_fmap : FMap result := fun A B f m =>
  match m with Ok a => Ok (f a) | Err e => Err e end.

Definition check (b : bool) (msg : string) : result unit :=
  if b then Ok tt else Err (CheckFailed msg).

Definition is_ok {A} (r : result A) : bool :=
  match r with Ok _ => true | Err _ => false end.

Definition of_option {A} (e : error) (o : option A) : result A :=
  match o with Some a => Ok a | None => Err e end.

Lemma check_bind_ok {A} b msg (k : result A) : b = true → (check b msg;; k) = k.
Proof. by intros ->. Qed.

Lemma check_bind_err {A} b msg (k : result A) :
  b = false → (check b msg;; k) = Err (CheckFailed msg).
Proof. by intros ->. Qed.

Lemma bind_Ok_inv {A B} (m : result A) (f : A → result B) b :
  (m ≫= f) = Ok b → ∃ a, m = Ok a ∧ f a = Ok b.
Proof. destruct m as [a|e]; [by exists a | done]. Qed.

Lemma check_inv {A} b msg (k : result A) a :
  (check b msg;; k) = Ok a → b = true ∧ k = Ok a.
Proof. by destruct b. Qed.

(** ** Stateful code

    [st S A] is a computation on a state [S] that may fail. *)
Definition st (S A : Type) : Type := S → result (A * S).

#[export] Instance st_ret {S} : MRet (st S) := fun A a s => Ok (a, s).
#[export] Instance st_bind {S} : MBind (st S) := fun A B f m s =>
  match m s with Ok (a, s') => f a s' | Err e => Err e end.

Definition lift {S A} (r : result A) : st S A := fun s =>
  match r with Ok a => Ok (a, s) | Err e => Err e end.
Definition ensure {S} (b : bool) (msg : string) : st S unit := lift (check b msg).
Definition gets {S A} (f : S → A) : st S A := fun s => Ok (f s, s).
Definition modify {S} (f : S → S) : st S unit := fun s => Ok (tt, f s).
Definition fail {S A} (e : error) : st S A := fun _ => Err e.
Definition when {S} (b : bool) (m : st S unit) : st S unit := if b then m else mret tt.

(** [for (x : l) m(x)] *)
Fixpoint for_each {S A} (m : A → st S unit) (l : list A) : st S unit :=
  match l with
  | [] => mret tt
  | x :: l => m x;; for_each m l
  end.

(** The loop over the indices of a list is the loop over its elements. *)
Lemma for_each_lookup {S A} (f : nat → st S unit) (g : A → st S unit) (l : list A) : ∀ o,
  (∀ i x s, l !! i = Some x → f (o + i) s = g x s) → ∀ s, for_each f (seq o (length l)) s = for_each g l s.
Proof.
  induction l as [|x l IH]; intros o H s; [done|]. simpl. unfold mbind, st_bind. rewrite <- (H 0 x s eq_refl), Nat.add_0_r.
  destruct (f o s) as [[[] s']|e]; [|done]. apply IH. intros i y s0 Hy. rewrite <- (H (Datatypes.S i) y s0 Hy). f_equal. lia.
Qed.

Lemma for_each_fmap {S A B} (h : B → A) (f : A → st S unit) (l : list B) s : for_each f (h <$> l) s = for_each (fun x => f (h x)) l s.
Proof.
  revert s. induction l as [|x l IH]; intros s; [done|]. simpl. unfold mbind, st_bind. destruct (f (h x) s) as [[[] s']|e]; [apply IH|done].
Qed.

(** [for (x : l)] with local variables [b]. *)
Fixpoint fold_st {S A B} (f : B → A → st S B) (b : B) (l : list A) : st S B :=
  match l with
  | [] => mret b
  | x :: l => b' ← f b x; fold_st f b' l
  end.

Lemma fold_st_ok {S A B} (P : list A → B → S → Prop) (f : B → A → st S B) l b s :
  P [] b s →
  (∀ l1 x l2 b s, l = l1 ++ x :: l2 → P l1 b s → ∃ b' s', f b x s = Ok (b', s') ∧ P (l1 ++ [x]) b' s') →
  ∃ b' s', fold_st f b l s = Ok (b', s') ∧ P l b' s'.
Proof.
  intros H0 Hs. assert (∀ l2 l1 b s, l = l1 ++ l2 → P l1 b s → ∃ b' s', fold_st f b l2 s = Ok (b', s') ∧ P l b' s') as H; [|by apply (H l [])].
  induction l2 as [|x l2 IH]; intros l1 b0 s0 Hl HP; [exists b0, s0; by rewrite Hl, app_nil_r|].
  destruct (Hs l1 x l2 b0 s0 Hl HP) as (b1 & s1 & E & HP1). cbn [fold_st].
  destruct (IH (l1 ++ [x]) b1 s1) as (b2 & s2 & E2 & HP2); [by rewrite <- (assoc_L (++))|done|].
  exists b2, s2. split; [|done]. unfold mbind, st_bind. by rewrite E.
Qed.

Lemma st_bind_Ok {S A B} (m : st S A) (f : A → st S B) s a s' :
  m s = Ok (a, s') → (m ≫= f) s = f a s'.
Proof. intros H. unfold mbind, st_bind. by rewrite H. Qed.

Lemma st_bind_inv {S A B} (m : st S A) (f : A → st S B) s b s'' :
  (m ≫= f) s = Ok (b, s'') → ∃ a s', m s = Ok (a, s') ∧ f a s' = Ok (b, s'').
Proof. unfold mbind, st_bind. destruct (m s) as [[a s']|e]; [eauto|done]. Qed.

Lemma ensure_bind {S A} b msg (m : st S A) s : b = true → (ensure b msg;; m) s = m s.
Proof. by intros ->. Qed.

Lemma ensure_fail {S A} b msg (m : st S A) s : b = false → (ensure b msg;; m) s = Err (CheckFailed msg).
Proof. by intros ->. Qed.

Lemma gets_bind {S A B} (f : S → A) (k : A → st S B) s : (gets f ≫= k) s = k (f s) s.
Proof. done. Qed.

Lemma modify_bind {S B} (f : S → S) (k : st S B) s : (modify f;; k) s = k (f s).
Proof. done. Qed.

Lemma lift_bind {S A B} (r : result A) (k : A → st S B) a s : r = Ok a → (lift r ≫= k) s = k a s.
Proof. by intros ->. Qed.

(** Raw array accesses: a read or a write out of range is undefined behaviour. *)
Definition rd {A} (l : list A) (i : nat) : result A :=
  of_option (Undefined "read out of range") (l !! i).
Definition wr {A} (l : list A) (i : nat) (x : A) : result (list A) :=
  if decide (i < length l) then Ok (<[i := x]> l) else Err (Undefined "write out of range").

Lemma rd_ok {A} (l : list A) i x : l !! i = Some x → rd l i = Ok x.
Proof. unfold rd. by intros ->. Qed.

Lemma wr_ok {A} (l : list A) i x : i < length l → wr l i x = Ok (<[i := x]> l).
Proof. intros. unfold wr. by rewrite decide_True. Qed.

Lemma rd_inv {A} (l : list A) i x : rd l i = Ok x → l !! i = Some x.
Proof. unfold rd. destruct (l !! i); naive_solver. Qed.

Lemma wr_inv {A} (l l' : list A) i x :
  wr l i x = Ok l' → i < length l ∧ l' = <[i := x]> l.
Proof. unfold wr. case_decide; naive_solver. Qed.

(** ** Loops

    [for_range lo hi body a] is [for (i = lo; i < hi; i++) a = body(i, a)], where
    the body may fail. *)
Fixpoint for_count {A} (lo n : nat) (body : nat → A → result A) (a : A) : result A :=
  match n with
  | O => Ok a
  | S n => a' ← body lo a; for_count (S lo) n body a'
  end.

Definition for_range {A} (lo hi : nat) (body : nat → A → result A) (a : A) : result A :=
  for_count lo (hi - lo) body a.

(** The loop rule: an invariant kept by every iteration, which also does not
    fail, holds when the loop ends, and the loop does not fail. *)
Lemma for_count_ok {A} (P : nat → A → Prop) n : ∀ lo body a,
  P lo a →
  (∀ i a, lo ≤ i < lo + n → P i a → ∃ a', body i a = Ok a' ∧ P (S i) a') →
  ∃ a', for_count lo n body a = Ok a' ∧ P (lo + n) a'.
Proof.
  induction n as [|n IH]; intros lo body a HP Hstep; simpl.
  - rewrite Nat.add_0_r. eauto.
  - destruct (Hstep lo a) as (a' & Hb & HP'); [lia|done|].
    rewrite Hb. simpl.
    destruct (IH (S lo) body a' HP') as (a'' & He & HP'').
    { intros i a0 Hi. apply Hstep. lia. }
    exists a''. split; [done|]. by replace (lo + S n) with (S lo + n) by lia.
Qed.

Lemma for_range_ok {A} (P : nat → A → Prop) lo hi body a :
  lo ≤ hi →
  P lo a →
  (∀ i a, lo ≤ i < hi → P i a → ∃ a', body i a = Ok a' ∧ P (S i) a') →
  ∃ a', for_range lo hi body a = Ok a' ∧ P hi a'.
Proof.
  intros Hle HP Hstep. unfold for_range.
  destruct (for_count_ok P (hi - lo) lo body a HP) as (a' & E & HP').
  - intros i a0 Hi. apply Hstep. lia.
  - exists a'. split; [done|]. by replace hi with (lo + (hi - lo)) by lia.
Qed.

(** The same rule when the state at every iteration is known. *)
Lemma for_range_trace {A} (f : nat → A) lo hi body a b :
  lo ≤ hi → a = f lo → b = f hi →
  (∀ i, lo ≤ i < hi → body i (f i) = Ok (f (S i))) →
  for_range lo hi body a = Ok b.
Proof.
  intros Hle -> -> Hs.
  destruct (for_range_ok (fun i x => x = f i) lo hi body (f lo)) as (x & E & ->); [done|done| |done].
  intros i x Hi ->. eauto.
Qed.

(** A loop that succeeds has run every iteration successfully. *)
Lemma for_count_inv {A} n : ∀ lo body (a b : A),
  for_count lo n body a = Ok b → ∀ i, lo ≤ i < lo + n → ∃ a' b', body i a' = Ok b'.
Proof.
  induction n as [|n IH]; intros lo body a b H i Hi; simpl in H; [lia|].
  apply bind_Ok_inv in H as (a' & H1 & H2). destruct (decide (i = lo)) as [->|]; [eauto|].
  eapply IH; [exact H2|lia].
Qed.
Lemma for_range_inv {A} lo hi body (a b : A) :
  for_range lo hi body a = Ok b → ∀ i, lo ≤ i < hi → ∃ a' b', body i a' = Ok b'.
Proof. intros H i Hi. eapply for_count_inv; [exact H|lia]. Qed.

Lemma for_range_empty {A} lo hi body (a : A) : hi ≤ lo → for_range lo hi body a = Ok a.
Proof. intros. unfold for_range. by replace (hi - lo) with 0 by lia. Qed.

(** An array [new] being written over [old], cell by cell from the left. *)
Definition sofar {A} (new old : list A) (m : nat) : list A := take m new ++ drop m old.

Lemma length_sofar {A} (new old : list A) m :
  length new = length old → length (sofar new old m) = length old.
Proof. intros. unfold sofar. rewrite length_app, length_take, length_drop. lia. Qed.

Lemma sofar_lookup {A} (new old : list A) m :
  m ≤ length new → sofar new old m !! m = old !! m.
Proof.
  intros. unfold sofar. rewrite lookup_app_r; rewrite length_take; [|lia].
  rewrite lookup_drop. f_equal. lia.
Qed.

Lemma sofar_step {A} (new old : list A) m x :
  length new = length old → new !! m = Some x → <[m := x]> (sofar new old m) = sofar new old (S m).
Proof.
  intros Hlen Hx. pose proof (lookup_lt_Some _ _ _ Hx) as Hi.
  unfold sofar. rewrite insert_app_r_alt; rewrite length_take; [|lia].
  replace (m - m `min` length new) with 0 by lia.
  destruct (drop m old) as [|y d] eqn:Ed.
  { apply (f_equal length) in Ed. rewrite length_drop in Ed. simpl in Ed. lia. }
  simpl. rewrite (take_S_r _ _ _ Hx), <- (assoc_L (++)). simpl. do 2 f_equal.
  replace (S m) with (m + 1) by lia. by rewrite <- drop_drop, Ed.
Qed.

Lemma sofar_0 {A} (new old : list A) : sofar new old 0 = old.
Proof. done. Qed.

Lemma sofar_all {A} (new old : list A) m :
  length new = length old → length old ≤ m → sofar new old m = new.
Proof. intros. unfold sofar. rewrite take_ge, drop_ge by lia. apply app_nil_r. Qed.

(** Pure loops over a vector, and a fallible [for (x : l)]. *)
Fixpoint foldM {A B} (f : B → A → result B) (b : B) (l : list A) : result B :=
  match l with
  | [] => Ok b
  | x :: l => b' ← f b x; foldM f b' l
  end.

Lemma foldM_app {A B} (f : B → A → result B) l1 l2 b :
  foldM f b (l1 ++ l2) = (b' ← foldM f b l1; foldM f b' l2).
Proof. revert b. induction l1 as [|x l1 IH]; intros b; simpl; [done|].
  destruct (f b x); simpl; [apply IH|done].
Qed.

Lemma foldM_ok {A B} (P : list A → B → Prop) (f : B → A → result B) l b :
  P [] b →
  (∀ l1 x b, P l1 b → x ∈ l → ∃ b', f b x = Ok b' ∧ P (l1 ++ [x]) b') →
  ∃ b', foldM f b l = Ok b' ∧ P l b'.
Proof.
  intros H0 Hs.
  assert (∀ l2 l1 b, P l1 b → l2 ⊆ l → ∃ b', foldM f b l2 = Ok b' ∧ P (l1 ++ l2) b') as H.
  { induction l2 as [|x l2 IH]; intros l1 b0 HP Hin; simpl.
    - rewrite app_nil_r. eauto.
    - destruct (Hs l1 x b0) as (b1 & E & HP1); [done|set_solver|].
      rewrite E. simpl. destruct (IH (l1 ++ [x]) b1 HP1) as (b2 & E2 & HP2); [set_solver|].
      exists b2. by rewrite <- (assoc_L (++)) in HP2. }
  destruct (H l [] b H0) as (b' & ? & ?); [done|]. eauto.
Qed.

Lemma foldM_ext {A B} (f g : B → A → result B) l : (∀ b x, x ∈ l → f b x = g b x) → ∀ b, foldM f b l = foldM g b l.
Proof.
  induction l as [|x l IH]; intros H b; simpl; [done|]. rewrite (H b x) by (by left). destruct (g b x); simpl; [|done].
  apply IH. intros b' y Hy. apply H. by right.
Qed.

(** The rule with the position in the list, when the value at each point is known. *)
Lemma foldM_trace {A B} (g : nat → B) (f : B → A → result B) l :
  (∀ i x, l !! i = Some x → f (g i) x = Ok (g (S i))) → foldM f (g 0) l = Ok (g (length l)).
Proof.
  revert g. induction l as [|x l IH]; intros g H; simpl; [done|].
  rewrite (H 0 x eq_refl). simpl. apply (IH (fun i => g (S i))). intros i y Hy. by apply (H (S i)).
Qed.

(** ** Consecutive segments of a list, cut at the positions [p 0], [p 1], ... *)
Definition seg {A} (l : list A) (p : nat → nat) (i : nat) : list A := take (p (S i) - p i) (drop (p i) l).

Lemma length_seg {A} (l : list A) p i :
  p i ≤ p (S i) → p (S i) ≤ length l → length (seg l p i) = p (S i) - p i.
Proof. intros. unfold seg. rewrite length_take, length_drop. lia. Qed.

Lemma mjoin_seq_S {A} (f : nat → list A) m : mjoin (f <$> seq 0 (S m)) = mjoin (f <$> seq 0 m) ++ f m.
Proof. rewrite seq_S, fmap_app, join_app. simpl. by rewrite app_nil_r. Qed.

Lemma mjoin_seg {A} (l : list A) p n :
  p 0 = 0 → (∀ i, i < n → p i ≤ p (S i)) → mjoin (seg l p <$> seq 0 n) = take (p n) l.
Proof.
  intros H0 Hmono. induction n as [|n IH]; [by rewrite H0|].
  rewrite mjoin_seq_S, IH by (intros; apply Hmono; lia). unfold seg.
  specialize (Hmono n ltac:(lia)). rewrite <- (take_drop (p n) (take (p (S n)) l)), take_take, take_drop_commute.
  replace (p n `min` p (S n)) with (p n) by lia. by replace (p n + (p (S n) - p n)) with (p (S n)) by lia.
Qed.

(** ** How many elements of a list satisfy a test *)
Lemma count_set {A} `{EqDecision A} (f g : A → bool) i l :
  NoDup l → i ∈ l → f i = false → g i = true → (∀ j, j ≠ i → f j = g j) →
  length (List.filter g l) = S (length (List.filter f l)).
Proof.
  intros Hl Hi Hf Hg Hfg. induction Hl as [|j l Hj Hl IH]; [by apply not_elem_of_nil in Hi|]. cbn [List.filter].
  destruct (decide (j = i)) as [->|Hne'].
  - rewrite Hf, Hg. cbn [length]. f_equal. f_equal. apply List.filter_ext_in. intros x Hx. symmetry. apply Hfg. intros ->. apply Hj. by apply list_elem_of_In.
  - apply elem_of_cons in Hi as [?|Hi]; [done|]. rewrite (Hfg j) by done. destruct (g j); cbn [length]; rewrite IH by done; done.
Qed.

Lemma count_all {A} (f : A → bool) l : length (List.filter f l) = length l → ∀ i, i ∈ l → f i = true.
Proof.
  induction l as [|j l IH]; [intros _ i Hi; by apply not_elem_of_nil in Hi|]. cbn [List.filter]. pose proof (List.filter_length_le f l).
  destruct (f j) eqn:E; cbn [length]; [|lia]. intros Hl i Hi. apply elem_of_cons in Hi as [->|Hi]; [done|]. apply IH; [lia|done].
Qed.

Lemma count_none {A} (f : A → bool) l : (∀ i, i ∈ l → f i = false) → length (List.filter f l) = 0%nat.
Proof. induction l as [|j l IH]; [done|]. intros H. cbn [List.filter]. rewrite H by (by left). apply IH. intros i Hi. apply H. by right. Qed.

Lemma count_none_inv {A} (f : A → bool) l : length (List.filter f l) = 0%nat → ∀ i, i ∈ l → f i = false.
Proof.
  induction l as [|j l IH]; cbn [List.filter]; [intros _ i Hi; by apply not_elem_of_nil in Hi|]. destruct (f j) eqn:E; [done|].
  intros Hl i Hi. apply elem_of_cons in Hi as [->|Hi]; [done|by apply IH].
Qed.

Lemma count_some {A} (f : A → bool) l : (length (List.filter f l) < length l)%nat → ∃ i, i ∈ l ∧ f i = false.
Proof.
  induction l as [|j l IH]; cbn [List.filter length]; [lia|]. destruct (f j) eqn:E; [|exists j; split; [by left|done]].
  cbn [length]. intros Hl. destruct IH as (i & ? & ?); [lia|]. exists i. split; [by right|done].
Qed.

(** ** Machine integers

    [int] is 32-bit two's complement, [size_t], [uint64_t] and [ps::Key] are
    64-bit unsigned. Conversions between them wrap; signed overflow is undefined
    and theorems that need its absence say so. *)
Local Open Scope Z_scope.

Definition u8 (z : Z) : Z := z mod 2 ^ 8.
Definition u16 (z : Z) : Z := z mod 2 ^ 16.
Definition u32 (z : Z) : Z := z mod 2 ^ 32.
Definition u64 (z : Z) : Z := z mod 2 ^ 64.
Definition i32 (z : Z) : Z := (z + 2 ^ 31) mod 2 ^ 32 - 2 ^ 31.
Definition i64 (z : Z) : Z := (z + 2 ^ 63) mod 2 ^ 64 - 2 ^ 63.
Definition INT_MAX : Z := 2 ^ 31 - 1.

(** [int] arithmetic: overflow is undefined. *)
Definition int_range (z : Z) : result Z :=
  if (- 2 ^ 31 <=? z) && (z <? 2 ^ 31) then Ok z else Err (Undefined "signed overflow").
Definition int_add (a b : Z) : result Z := int_range (a + b).
Definition int_mul (a b : Z) : result Z := int_range (a * b).

Lemma int_range_ok z : - 2 ^ 31 ≤ z < 2 ^ 31 → int_range z = Ok z.
Proof. intros. unfold int_range. by rewrite (proj2 (Z.leb_le _ _)), (proj2 (Z.ltb_lt _ _)) by lia. Qed.

(** An array indexed by a signed integer. *)
Definition rdz {A} (l : list A) (i : Z) : result A :=
  if i <? 0 then Err (Undefined "read out of range") else rd l (Z.to_nat i).

Lemma rdz_ok {A} (l : list A) i x : 0 ≤ i → l !! Z.to_nat i = Some x → rdz l i = Ok x.
Proof. intros Hi Hx. unfold rdz. rewrite (proj2 (Z.ltb_ge _ _)) by lia. by apply rd_ok. Qed.

Lemma rdz_inv {A} (l : list A) i x : rdz l i = Ok x → 0 ≤ i ∧ l !! Z.to_nat i = Some x.
Proof. unfold rdz. destruct (Z.ltb_spec i 0); [done|]. by intros Hx%rd_inv. Qed.

Definition wrz {A} (l : list A) (i : Z) (x : A) : result (list A) :=
  if i <? 0 then Err (Undefined "write out of range") else wr l (Z.to_nat i) x.

Lemma wrz_ok {A} (l : list A) i x : 0 ≤ i < Z.of_nat (length l) → wrz l i x = Ok (<[Z.to_nat i := x]> l).
Proof. intros Hi. unfold wrz. rewrite (proj2 (Z.ltb_ge _ _)) by lia. apply wr_ok. lia. Qed.

Lemma i32_id z : - 2 ^ 31 ≤ z < 2 ^ 31 → i32 z = z.
Proof. intros. unfold i32. rewrite Z.mod_small; lia. Qed.
Lemma u64_id z : 0 ≤ z < 2 ^ 64 → u64 z = z.
Proof. intros. unfold u64. rewrite Z.mod_small; lia. Qed.
Lemma u32_id z : 0 ≤ z < 2 ^ 32 → u32 z = z.
Proof. intros. unfold u32. rewrite Z.mod_small; lia. Qed.
Lemma u8_id z : 0 ≤ z < 2 ^ 8 → u8 z = z.
Proof. intros. unfold u8. rewrite Z.mod_small; lia. Qed.
Lemma u16_id z : 0 ≤ z < 2 ^ 16 → u16 z = z.
Proof. intros. unfold u16. rewrite Z.mod_small; lia. Qed.
Lemma i64_id z : - 2 ^ 63 ≤ z < 2 ^ 63 → i64 z = z.
Proof. intros. unfold i64. rewrite Z.mod_small; lia. Qed.

Lemma u64_range z : 0 ≤ u64 z < 2 ^ 64.
Proof. apply Z.mod_pos_bound. lia. Qed.
Lemma i32_range z : - 2 ^ 31 ≤ i32 z < 2 ^ 31.
Proof. unfold i32. pose proof (Z.mod_pos_bound (z + 2 ^ 31) (2 ^ 32)). lia. Qed.

(** Sum of a list of integers. *)
Definition zsum (l : list Z) : Z := foldr Z.add 0 l.

Lemma zsum_app l1 l2 : zsum (l1 ++ l2) = zsum l1 + zsum l2.
Proof. induction l1 as [|x l1 IH]; simpl; [done|]. rewrite IH. lia. Qed.

(** Differences of consecutive values telescope. *)
Lemma zsum_telescope (f : nat → Z) n : zsum ((fun j => f (S j) - f j) <$> seq 0 n) = f n - f 0%nat.
Proof.
  induction n as [|n IH]; [simpl; lia|]. rewrite seq_S, fmap_app, zsum_app, IH. simpl. lia.
Qed.

(** Little-endian words, as x86 lays them out in memory. *)
Definition le_word (bs : list Z) : Z := foldr (fun b acc => b + 256 * acc) 0 bs.
Fixpoint le_bytes (n : nat) (w : Z) : list Z :=
  match n with O => [] | S n => w mod 256 :: le_bytes n (w / 256) end.

Lemma length_le_bytes n w : length (le_bytes n w) = n.
Proof. revert w. induction n as [|n IH]; intros w; [done|]. cbn. by rewrite IH. Qed.

Lemma le_word_bytes n : ∀ w, le_word (le_bytes n w) = w mod 256 ^ Z.of_nat n.
Proof.
  induction n as [|n IH]; intros w; [by rewrite Z.mod_1_r|]. cbn [le_bytes le_word foldr].
  change (foldr _ _ (le_bytes n (w / 256))) with (le_word (le_bytes n (w / 256))).
  rewrite IH, Nat2Z.inj_succ, Z.pow_succ_r, Z.rem_mul_r by lia. done.
Qed.

Close Scope Z_scope.

(** ** Hints and tactics *)
Create HintDb geomx.
Create Rewrite HintDb geomx.
#[export] Hint Rewrite @length_insert @length_replicate @length_fmap @length_app
  @length_seq @length_take @length_drop length_le_bytes : geomx.
#[export] Hint Resolve rd_ok wr_ok : geomx.

(** Evaluate the sequencing of a [result] computation whose steps are known. *)
Ltac rsimpl := unfold mret, result_ret, mbind, result_bind, check in *; simpl in *.

(** Step over a bind of a known value, leaving the rest of the goal alone. *)
Ltac rstep := cbn [mbind result_bind fst snd].

(** Step over a successful [check]. *)
Ltac chk := rewrite check_bind_ok; [|try done; try lia].

(** Decompose a hypothesis [comp = Ok v] into the success of its steps. *)
Ltac rinv H :=
  repeat match type of H with
  | (check _ _;; _) = Ok _ =>
      let Hc := fresh "Hc" in apply check_inv in H as [Hc H]
  | (_ ≫= _) = Ok _ =>
      let a := fresh "a" in let Ha := fresh "Ha" in
      apply bind_Ok_inv in H as (a & Ha & H)
  end.

(** Decide a closed decidable proposition by evaluation. *)
Ltac by_decision :=
  match goal with |- ?P => apply (bool_decide_unpack P); vm_compute; exact I end.

(** Evaluate every [decide] of a closed proposition in the goal. *)
Ltac eval_decide :=
  repeat match goal with |- context [decide ?P] =>
    first [rewrite (decide_True (P := P)) by by_decision
          |rewrite (decide_False (P := P)) by by_decision] end.

(** Evaluate the tests of single bits of constants. *)
Ltac eval_testbit :=
  repeat match goal with |- context [Z.testbit ?a ?b] =>
    let r := eval vm_compute in (Z.testbit a b) in change (Z.testbit a b) with r end.

(** Linear arithmetic with division and remainder by constants. *)
Ltac divlia := zify; Z.to_euclidean_division_equations; lia.

(** The record [r] with its field [f] replaced by [v]. *)
Ltac set_field r f v :=
  let b := eval red in r in
  match eval pattern f in b with ?g _ => let t := eval cbv beta in (g v) in exact t end.
