(* ===== verification/Blob.v ===== *)
(** * Arrays as memory: chunks, views and their contents

    An [NDArray] of src/include/mxnet/ndarray.h is a shape, a type and a byte offset into a
    chunk that several arrays may share.  This file has the chunks and their allocation, dense
    and sparse, the views [Reshape], [Slice], [At] and [AsArray], and the blocking copies to
    and from memory.  Contents are bytes.  (NDArray.v has the arithmetic, on whole dense
    arrays.)  Sources: src/include/mxnet/ndarray.h, src/src/ndarray/ndarray.cc, [TShape] of
    src/3rdparty/tvm/nnvm/include/nnvm/tuple.h, for a build without CUDA and MKL-DNN. *)

From S2P Require Import Prelude.
Local Open Scope Z_scope.

(** ** Shapes *)
Abbreviation TShape := (list Z).

(** Arithmetic on [dim_t], which is [int64_t]. *)
Definition dim_range (z : Z) : result Z :=
  if (- 2 ^ 63 <=? z) && (z <? 2 ^ 63) then Ok z else Err (Undefined "signed overflow").

(** [TShape::Size] returns the product as [size_t]. *)
Definition Size (shape : TShape) : result Z :=
  size ← foldM (fun size d => dim_range (size * d)) 1 shape; Ok (u64 size).

(** [ProdShape(1, ndim())] *)
Definition row_size (shape : TShape) : result Z := Size (tail shape).

(** [shape[0]]; a shape without dimensions has no such cell. *)
Definition dim0 (shape : TShape) : result Z := of_option (Undefined "first of no dimensions") (head shape).
Definition set_dim0 (d : Z) (shape : TShape) : TShape := match shape with [] => [] | _ :: s => d :: s end.

(** ** Types and devices *)
Definition mshadow_sizeof (type : Z) : result Z :=
  match type with
  | 0 => Ok 4      (* kFloat32 *)
  | 1 => Ok 8      (* kFloat64 *)
  | 2 => Ok 2      (* kFloat16 *)
  | 3 => Ok 1      (* kUint8 *)
  | 4 => Ok 4      (* kInt32 *)
  | 5 => Ok 1      (* kInt8 *)
  | 6 => Ok 8      (* kInt64 *)
  | _ => Err (CheckFailed "Unknown type enum")
  end.
Definition kInt64 : Z := 6.

Definition kCPU : Z := 1.
Definition kGPU : Z := 2.
Definition kCPUPinned : Z := 3.
Definition kCPUShared : Z := 5.

Record Context := { dev_type : Z; dev_id : Z }.
Definition CPU : Context := {| dev_type := kCPU; dev_id := 0 |}.
Definition dev_mask (c : Context) : Z :=
  if (dev_type c =? kCPUPinned) || (dev_type c =? kCPUShared) then kCPU else dev_type c.

(** [NDArrayStorageType] *)
Definition kUndefinedStorage : Z := -1.
Definition kDefaultStorage : Z := 0.
Definition kRowSparseStorage : Z := 1.
Definition kCSRStorage : Z := 2.

Definition num_aux_data (stype : Z) : result nat :=
  if stype =? kDefaultStorage then Ok 0%nat
  else if stype =? kCSRStorage then Ok 2%nat
  else if stype =? kRowSparseStorage then Ok 1%nat
  else Err (CheckFailed "Unknown storage type").

(** ** Memory *)

(** [Storage::Handle]; [None] is the null pointer. *)
Record Handle := { dptr : option (list Z); h_size : Z; h_ctx : Context }.
Definition no_handle : Handle := {| dptr := None; h_size := 0; h_ctx := CPU |}.

(** The memory a handle points to. *)
Definition memory (h : Handle) : list Z := default [] (dptr h).

Record Chunk := {
  shandle : Handle;
  aux_handles : list Handle;
  delay_alloc : bool;
  storage_type : Z;
  aux_types : list Z;
  c_ctx : Context;
  storage_shape : TShape;
  aux_shapes : list TShape
}.
Definition Chunk_eta (c : Chunk) : Chunk := {|
  shandle := shandle c; aux_handles := aux_handles c; delay_alloc := delay_alloc c; storage_type := storage_type c;
  aux_types := aux_types c; c_ctx := c_ctx c; storage_shape := storage_shape c; aux_shapes := aux_shapes c |}.
Definition set_shandle (x : Handle) (c : Chunk) : Chunk := ltac:(set_field (Chunk_eta c) (shandle c) x).
Definition set_aux_handles (x : list Handle) (c : Chunk) : Chunk := ltac:(set_field (Chunk_eta c) (aux_handles c) x).
Definition set_delay_alloc (x : bool) (c : Chunk) : Chunk := ltac:(set_field (Chunk_eta c) (delay_alloc c) x).
Definition set_storage_shape (x : TShape) (c : Chunk) : Chunk := ltac:(set_field (Chunk_eta c) (storage_shape c) x).
Definition set_aux_shapes (x : list TShape) (c : Chunk) : Chunk := ltac:(set_field (Chunk_eta c) (aux_shapes c) x).

(** [set_aux_shape]: the index array gives the number of stored rows or values. *)
Definition set_aux_shape (i : nat) (shape : TShape) (c : Chunk) : result Chunk :=
  l ← wr (aux_shapes c) i shape;
  let c := set_aux_shapes l c in
  if bool_decide (storage_shape c = []) then Ok c
  else if ((storage_type c =? kRowSparseStorage) && (i =? 0)%nat) || ((storage_type c =? kCSRStorage) && (i =? 1)%nat)
  then d ← dim0 shape; Ok (set_storage_shape (set_dim0 d (storage_shape c)) c)
  else Ok c.

(** Array objects, and the chunks they share. *)
Record NDArray := {
  ptr_ : option nat;
  shape_ : TShape;
  byte_offset_ : Z;
  dtype_ : Z;
  reuse_ : bool;
  storage_type_ : Z
}.
Definition NDArray_none : NDArray :=
  {| ptr_ := None; shape_ := []; byte_offset_ := 0; dtype_ := -1; reuse_ := false; storage_type_ := kUndefinedStorage |}.

Record store := { chunks : gmap nat Chunk; next_chunk : nat }.
Definition store_empty : store := {| chunks := ∅; next_chunk := 0 |}.
Definition put_chunk (p : nat) (c : Chunk) (s : store) : store :=
  {| chunks := <[p := c]> (chunks s); next_chunk := next_chunk s |}.

Definition new_chunk (c : Chunk) : st store nat := fun s =>
  Ok (next_chunk s, {| chunks := <[next_chunk s := c]> (chunks s); next_chunk := S (next_chunk s) |}).
Definition get_chunk (p : nat) : st store Chunk := fun s =>
  match chunks s !! p with Some c => Ok (c, s) | None => Err (Undefined "dangling pointer") end.
Definition the_ptr (a : NDArray) : st store nat := lift (of_option (CheckFailed "ptr_ != nullptr") (ptr_ a)).

Section memory.

(** What newly allocated memory holds. *)
Context (uninit : Z → list Z).

(** [Storage::Alloc] *)
Definition Alloc (size : Z) (ctx : Context) : result Handle :=
  if dev_mask ctx =? kCPU then Ok {| dptr := Some (uninit size); h_size := size; h_ctx := ctx |}
  else Err (CheckFailed "Compile with USE_CUDA=1 to enable GPU usage").

(** [Chunk::CheckAndAlloc()] *)
Definition Chunk_CheckAndAlloc (c : Chunk) : result Chunk :=
  if delay_alloc c then h ← Alloc (h_size (shandle c)) (h_ctx (shandle c)); Ok (set_delay_alloc false (set_shandle h c))
  else Ok c.

(** [Chunk::CheckAndAlloc(dbytes)] *)
Definition Chunk_CheckAndAlloc_bytes (dbytes : Z) (c : Chunk) : result Chunk :=
  check (storage_type c =? kDefaultStorage) "CheckAndAlloc(dbytes) is only intended for kDefaultStorage";;
  let dbytes := Z.max dbytes (h_size (shandle c)) in
  if delay_alloc c then h ← Alloc dbytes (h_ctx (shandle c)); Ok (set_delay_alloc false (set_shandle h c))
  else if h_size (shandle c) <? dbytes then h ← Alloc dbytes (h_ctx (shandle c)); Ok (set_shandle h c)
  else Ok c.

Definition bytes_of (shape : TShape) (type : Z) : result Z :=
  size ← Size shape; ts ← mshadow_sizeof type; Ok (u64 (size * ts)).

(** [Chunk(shape, ctx, delay_alloc, dtype)] *)
Definition new_dense (shape : TShape) (ctx : Context) (delay : bool) (dtype : Z) : result Chunk :=
  n ← bytes_of shape dtype;
  let c := {| shandle := {| dptr := None; h_size := n; h_ctx := ctx |}; aux_handles := []; delay_alloc := true;
              storage_type := kDefaultStorage; aux_types := []; c_ctx := ctx; storage_shape := shape; aux_shapes := [] |} in
  if delay then Ok c else Chunk_CheckAndAlloc c.

(** [Chunk::CheckAndAllocAuxData] *)
Definition Chunk_CheckAndAllocAuxData (i : nat) (shape : TShape) (c : Chunk) : result Chunk :=
  check (length shape =? 1)%nat "shape must be 1D in CheckAndAllocAuxData";;
  check (negb (storage_type c =? kUndefinedStorage)) "storage type cannot be kUndefinedStorage in CheckAndAllocAuxData";;
  check (negb (storage_type c =? kDefaultStorage)) "storage type cannot be kDefaultStorage in CheckAndAllocAuxData";;
  let c := set_aux_handles (if (length (aux_handles c) <=? i)%nat then resize (S i) no_handle (aux_handles c) else aux_handles c) c in
  type ← rd (aux_types c) i;
  aux_bytes ← bytes_of shape type;
  h ← rd (aux_handles c) i;
  c ← (if h_size h <? aux_bytes
       then h ← Alloc aux_bytes (c_ctx c); l ← wr (aux_handles c) i h; Ok (set_aux_handles l c)
       else Ok c);
  set_aux_shape i shape c.

(** [Chunk::CheckAndAllocData] *)
Definition Chunk_CheckAndAllocData (shape : TShape) (dtype : Z) (c : Chunk) : result Chunk :=
  check (negb (length (aux_shapes c) =? 0)%nat) "data is expected to be allocated after aux_data";;
  dbytes ← bytes_of shape dtype;
  c ← (if h_size (shandle c) <? dbytes then h ← Alloc dbytes (c_ctx c); Ok (set_shandle h c) else Ok c);
  Ok (set_delay_alloc false (set_storage_shape shape c)).

(** [Chunk::CheckAndAlloc(shape, aux_shapes, dtype)] *)
Definition Chunk_CheckAndAlloc_aux (shape : TShape) (aux : list TShape) (dtype : Z) (c : Chunk) : result Chunk :=
  if storage_type c =? kRowSparseStorage then
    aux_shape ← rd aux 0;
    c ← Chunk_CheckAndAllocAuxData 0 aux_shape c;
    d ← dim0 aux_shape;
    Chunk_CheckAndAllocData (set_dim0 d shape) dtype c
  else if storage_type c =? kCSRStorage then
    indptr ← rd aux 0; idx ← rd aux 1;
    c ← Chunk_CheckAndAllocAuxData 0 indptr c;
    c ← Chunk_CheckAndAllocAuxData 1 idx c;
    Chunk_CheckAndAllocData idx dtype c
  else Err (CheckFailed "Storage type not implemented for CheckAndAlloc").

(** [Chunk(storage_type, storage_shape, ctx, delay_alloc, dtype, aux_types, aux_shapes)] *)
Definition new_sparse (stype : Z) (sshape : TShape) (ctx : Context) (delay : bool) (dtype : Z)
    (types : list Z) (shapes : list TShape) : result Chunk :=
  let c := {| shandle := {| dptr := None; h_size := 0; h_ctx := ctx |}; aux_handles := []; delay_alloc := delay;
              storage_type := stype; aux_types := types; c_ctx := ctx; storage_shape := sshape; aux_shapes := shapes |} in
  c ← for_range 0 (length shapes) (fun i c =>
        shape ← rd (aux_shapes c) i;
        c ← Chunk_CheckAndAllocAuxData i shape c;
        h ← rd (aux_handles c) i;
        l ← wr (aux_handles c) i {| dptr := dptr h; h_size := h_size h; h_ctx := ctx |};
        Ok (set_aux_handles l c)) c;
  if delay then Ok c else Chunk_CheckAndAllocData (storage_shape c) dtype c.

(** [NDArray(shape, ctx, delay_alloc, dtype)] *)
Definition NDArray_dense (shape : TShape) (ctx : Context) (delay : bool) (dtype : Z) : st store NDArray :=
  c ← lift (new_dense shape ctx delay dtype);
  p ← new_chunk c;
  mret {| ptr_ := Some p; shape_ := shape; byte_offset_ := 0; dtype_ := dtype; reuse_ := false; storage_type_ := kDefaultStorage |}.

(** [NDArray(stype, shape, ctx, delay_alloc, dtype, aux_types, aux_shapes, storage_shape)] *)
Definition sparse_defaults (stype : Z) (shape : TShape) (types : list Z) (shapes : list TShape) (sshape : TShape)
    : result (list Z * list TShape * TShape) :=
  types ← (if bool_decide (types = []) && negb (stype =? kDefaultStorage)
           then (if stype =? kRowSparseStorage then Ok [kInt64] else if stype =? kCSRStorage then Ok [kInt64; kInt64] else Err (CheckFailed "Unknown storage type"))
           else Ok types);
  shapes ← (if bool_decide (shapes = []) && negb (stype =? kDefaultStorage)
            then (if stype =? kRowSparseStorage then Ok [[0]] else if stype =? kCSRStorage then Ok [[0]; [0]] else Err (CheckFailed "Unknown storage type"))
            else Ok shapes);
  size ← Size sshape;
  sshape ← (if (size =? 0) && negb (stype =? kDefaultStorage)
            then (if stype =? kRowSparseStorage then idx ← rd shapes 0; d ← dim0 idx; _ ← dim0 shape; Ok (set_dim0 d shape)
                  else if stype =? kCSRStorage then rd shapes 1 else Err (CheckFailed "Unknown storage type"))
            else Ok sshape);
  Ok (types, shapes, sshape).

Definition NDArray_storage (stype : Z) (shape : TShape) (ctx : Context) (delay : bool) (dtype : Z)
    (types : list Z) (shapes : list TShape) (sshape : TShape) : st store NDArray :=
  d ← lift (sparse_defaults stype shape types shapes sshape);
  let '(types, shapes, sshape) := d in
  c ← lift (if stype =? kDefaultStorage then new_dense shape ctx delay dtype
            else new_sparse stype sshape ctx delay dtype types shapes);
  p ← new_chunk c;
  mret {| ptr_ := Some p; shape_ := shape; byte_offset_ := 0; dtype_ := dtype; reuse_ := false; storage_type_ := stype |}.

(** ** Access to the contents *)

(** A [TBlob]: memory of a chunk from an offset on, with a shape and a type. *)
Record TBlob := { b_memory : list Z; b_offset : Z; b_shape : TShape; b_type : Z }.

(** The [n] bytes from the start of a blob; the null pointer has none. *)
Definition blob_read (b : TBlob) (n : Z) : result (list Z) :=
  if (0 <=? n) && (b_offset b + n <=? Z.of_nat (length (b_memory b)))
  then Ok (take (Z.to_nat n) (drop (Z.to_nat (b_offset b)) (b_memory b)))
  else Err (Undefined "read out of range").

Definition splice (off : nat) (bs mem : list Z) : list Z := take off mem ++ bs ++ drop (off + length bs) mem.

(** [ctx()] *)
Definition array_ctx (a : NDArray) : st store Context :=
  p ← the_ptr a; c ← get_chunk p; mret (h_ctx (shandle c)).

(** [data()]: [CheckAndAlloc] and [SetTBlob]. *)
Definition data (a : NDArray) : st store TBlob :=
  p ← the_ptr a;
  c ← get_chunk p;
  c ← lift (if storage_type_ a =? kDefaultStorage then Chunk_CheckAndAlloc c else Ok c);
  modify (put_chunk p c);;
  if storage_type_ a =? kDefaultStorage
  then mret {| b_memory := memory (shandle c); b_offset := byte_offset_ a; b_shape := shape_ a; b_type := dtype_ a |}
  else if (storage_type_ a =? kCSRStorage) || (storage_type_ a =? kRowSparseStorage) then
    ensure (byte_offset_ a =? 0) "byte_offset_ == 0";;
    mret {| b_memory := memory (shandle c); b_offset := 0; b_shape := storage_shape c; b_type := dtype_ a |}
  else fail (CheckFailed "unknown storage type").

(** [aux_data(i)] *)
Definition aux_data (i : nat) (a : NDArray) : st store TBlob :=
  ensure (negb (storage_type_ a =? kDefaultStorage)) "aux_shape() is not intended for kDefaultStorage.";;
  p ← the_ptr a;
  c ← get_chunk p;
  shape ← lift (rd (aux_shapes c) i);
  type ← lift (rd (aux_types c) i);
  lift (mshadow_sizeof type);;
  h ← lift (rd (aux_handles c) i);
  ensure ((storage_type_ a =? kRowSparseStorage) || (storage_type_ a =? kCSRStorage)) "Unexpected storage type";;
  mret {| b_memory := memory h; b_offset := 0; b_shape := shape; b_type := type |}.

(** ** Views *)
Definition Reshape (shape : TShape) (a : NDArray) : result NDArray :=
  check (negb (bool_decide (ptr_ a = None))) "NDArray is not initialized";;
  n ← Size (shape_ a);
  m ← Size shape;
  check (m <=? n) "NDArray.Reshape: target shape size is larger current shape";;
  if bool_decide (shape_ a = shape) then Ok a
  else check (storage_type_ a =? kDefaultStorage) "storage_type() == kDefaultStorage";;
    Ok {| ptr_ := ptr_ a; shape_ := shape; byte_offset_ := byte_offset_ a; dtype_ := dtype_ a; reuse_ := false;
          storage_type_ := storage_type_ a |}.

Definition Slice (begin end_ : Z) (a : NDArray) : result NDArray :=
  check (negb (bool_decide (ptr_ a = None))) "NDArray is empty";;
  check (begin <=? end_) "Invalid slicing range";;
  d ← dim0 (shape_ a);
  check (end_ <=? d) "Slice end index out of range";;
  check (storage_type_ a =? kDefaultStorage) "storage_type() == kDefaultStorage";;
  len ← row_size (shape_ a);
  ts ← mshadow_sizeof (dtype_ a);
  d ← dim_range (end_ - begin);
  Ok {| ptr_ := ptr_ a; shape_ := set_dim0 d (shape_ a); byte_offset_ := u64 (byte_offset_ a + u64 begin * len * ts);
        dtype_ := dtype_ a; reuse_ := false; storage_type_ := storage_type_ a |}.

Definition At (idx : Z) (a : NDArray) : result NDArray :=
  check (storage_type_ a =? kDefaultStorage) "Storage type doesn't support At()";;
  next ← dim_range (idx + 1);
  ret ← Slice idx next a;
  if (1 <? length (shape_ a))%nat then Reshape (tail (shape_ a)) ret else Ok ret.

Definition IsView (a : NDArray) : st store bool :=
  if negb (storage_type_ a =? kDefaultStorage) then mret false
  else if reuse_ a then mret false
  else p ← the_ptr a; c ← get_chunk p; mret ((0 <? byte_offset_ a) || negb (bool_decide (shape_ a = storage_shape c))).

Definition AsArray (shape : TShape) (dtype : Z) (a : NDArray) : st store NDArray :=
  ensure (storage_type_ a =? kDefaultStorage) "AsArray is intended only for kDefaultStorage.";;
  p ← the_ptr a;
  c ← get_chunk p;
  n ← lift (bytes_of shape dtype);
  ensure (n <=? h_size (shandle c)) "NDArray.AsArray: target memory size is bigger";;
  v ← IsView a;
  ensure (negb v) "!IsView()";;
  mret {| ptr_ := ptr_ a; shape_ := shape; byte_offset_ := byte_offset_ a; dtype_ := dtype; reuse_ := true;
          storage_type_ := storage_type_ a |}.

(** ** Copies from and to the memory of the caller *)
Definition SyncCopyFromCPU (bs : list Z) (size : Z) (a : NDArray) : st store unit :=
  n ← lift (Size (shape_ a));
  ensure (n =? size) "Memory size do not match";;
  ctx ← array_ctx a;
  ensure (dev_mask ctx =? kCPU) "GPU is not enabled";;
  dst ← data a;
  ts ← lift (mshadow_sizeof (dtype_ a));
  m ← lift (Size (b_shape dst));
  ensure (n =? m) "copying size mismatch";;
  p ← the_ptr a;
  c ← get_chunk p;
  if (Z.of_nat (length bs) <? n * ts) || (Z.of_nat (length (memory (shandle c))) <? b_offset dst + n * ts)
  then fail (Undefined "access out of range")
  else modify (put_chunk p (set_shandle {| dptr := Some (splice (Z.to_nat (b_offset dst)) (take (Z.to_nat (n * ts)) bs) (memory (shandle c)));
                                           h_size := h_size (shandle c); h_ctx := h_ctx (shandle c) |} c)).

Definition SyncCopyToCPU (size : Z) (a : NDArray) : st store (list Z) :=
  n ← lift (Size (shape_ a));
  ensure (n =? size) "Memory size do not match";;
  ctx ← array_ctx a;
  ensure (dev_mask ctx =? kCPU) "GPU is not enabled";;
  src ← data a;
  ts ← lift (mshadow_sizeof (dtype_ a));
  m ← lift (Size (b_shape src));
  ensure (m =? n) "copying size mismatch";;
  lift (blob_read src (n * ts)).

End memory.

(** ** Sizes without overflow *)
Definition prod (shape : TShape) : Z := foldr Z.mul 1 shape.

(** No product of dimensions overflows, whichever of them are left out. *)
Definition shape_ok (shape : TShape) : Prop := Forall (fun d => 0 ≤ d) shape ∧ prod (Z.max 1 <$> shape) < 2 ^ 63.

Lemma prod_cons d shape : prod (d :: shape) = d * prod shape.
Proof. done. Qed.

Lemma prod_pos shape : 1 ≤ prod (Z.max 1 <$> shape).
Proof. induction shape as [|d shape IH]; [done|]. rewrite fmap_cons, prod_cons. generalize (Z.le_max_l 1 d). generalize (Z.max 1 d). nia. Qed.

Lemma prod_le shape : Forall (fun d => 0 ≤ d) shape → 0 ≤ prod shape ≤ prod (Z.max 1 <$> shape).
Proof.
  induction 1 as [|d shape Hd _ IH]; [done|]. rewrite fmap_cons, !prod_cons. pose proof (prod_pos shape).
  split; [apply Z.mul_nonneg_nonneg; lia|]. apply Z.mul_le_mono_nonneg; lia.
Qed.

Lemma dim_range_ok z : - 2 ^ 63 ≤ z < 2 ^ 63 → dim_range z = Ok z.
Proof. intros. unfold dim_range. by rewrite (proj2 (Z.leb_le _ _)), (proj2 (Z.ltb_lt _ _)) by lia. Qed.

Lemma size_loop shape : ∀ acc, 0 ≤ acc → Forall (fun d => 0 ≤ d) shape → Z.max 1 acc * prod (Z.max 1 <$> shape) < 2 ^ 63 →
  foldM (fun size d => dim_range (size * d)) acc shape = Ok (acc * prod shape).
Proof.
  induction shape as [|d shape IH]; intros acc Ha Hs Hb; [by rewrite Z.mul_1_r|]. cbn [foldM]. rewrite prod_cons.
  apply Forall_cons in Hs as [Hd Hs]. rewrite fmap_cons, prod_cons in Hb. pose proof (prod_pos shape).
  pose proof (Z.mul_nonneg_nonneg _ _ Ha Hd). rewrite Z.mul_assoc in Hb.
  assert (Z.max 1 (acc * d) * prod (Z.max 1 <$> shape) < 2 ^ 63) as Hb'.
  { eapply Z.le_lt_trans; [|exact Hb]. apply Z.mul_le_mono_nonneg_r; [lia|].
    apply Z.max_lub; [apply (Z.mul_le_mono_nonneg 1 _ 1); lia|apply Z.mul_le_mono_nonneg; lia]. }
  assert (Z.max 1 (acc * d) < 2 ^ 63).
  { eapply Z.le_lt_trans; [|exact Hb']. rewrite <- (Z.mul_1_r (Z.max 1 (acc * d))) at 1. apply Z.mul_le_mono_nonneg_l; lia. }
  rewrite dim_range_ok by lia. rstep. rewrite IH; [by rewrite Z.mul_assoc|done|done|done].
Qed.

Lemma Size_ok shape : shape_ok shape → Size shape = Ok (prod shape).
Proof.
  intros [Hp Hb]. unfold Size. rewrite size_loop; [|done|done|by rewrite Z.max_id, Z.mul_1_l]. rstep. rewrite Z.mul_1_l, u64_id; [done|].
  pose proof (prod_le shape Hp). lia.
Qed.

Lemma shape_ok_tail d shape : shape_ok (d :: shape) → shape_ok shape ∧ 0 ≤ d.
Proof.
  intros [[Hd Hp]%Forall_cons Hb]. rewrite fmap_cons, prod_cons in Hb. pose proof (prod_pos shape).
  assert (1 * prod (Z.max 1 <$> shape) ≤ Z.max 1 d * prod (Z.max 1 <$> shape)) by (apply Z.mul_le_mono_nonneg_r; lia). split; [split; [done|lia]|done].
Qed.

Lemma shape_ok_shrink d d' shape : shape_ok (d :: shape) → 0 ≤ d' ≤ d → shape_ok (d' :: shape).
Proof.
  intros [[Hd Hp]%Forall_cons Hb] Hd'. rewrite fmap_cons, prod_cons in Hb. pose proof (prod_pos shape).
  split; [apply Forall_cons; split; [lia|done]|]. rewrite fmap_cons, prod_cons.
  assert (Z.max 1 d' * prod (Z.max 1 <$> shape) ≤ Z.max 1 d * prod (Z.max 1 <$> shape)) by (apply Z.mul_le_mono_nonneg_r; lia). lia.
Qed.

Lemma shape_ok_dim d shape : shape_ok (d :: shape) → d < 2 ^ 63.
Proof.
  intros [_ Hp]. rewrite fmap_cons, prod_cons in Hp. pose proof (prod_pos shape). apply (Z.le_lt_trans _ (Z.max 1 d * 1)); [lia|].
  eapply Z.le_lt_trans; [|exact Hp]. apply Z.mul_le_mono_nonneg_l; lia.
Qed.

Lemma sizeof_range type ts : mshadow_sizeof type = Ok ts → 1 ≤ ts ≤ 8.
Proof. unfold mshadow_sizeof. destruct type as [|p|p]; [by intros [= <-]| |done]. repeat (destruct p as [p|p|]; try done); by intros [= <-]. Qed.

(** ** Views of dense arrays *)

(** [a] is a dense array on allocated memory of the machine, with all of its elements inside. *)
Record dense_at (s : store) (a : NDArray) (p : nat) (c : Chunk) (mem : list Z) (ts : Z) : Prop := {
  dense_ptr : ptr_ a = Some p;
  dense_chunk : chunks s !! p = Some c;
  dense_type : storage_type_ a = kDefaultStorage;
  dense_alloc : delay_alloc c = false;
  dense_memory : dptr (shandle c) = Some mem;
  dense_cpu : dev_mask (h_ctx (shandle c)) = kCPU;
  dense_shape : shape_ok (shape_ a);
  dense_sizeof : mshadow_sizeof (dtype_ a) = Ok ts;
  dense_offset : 0 ≤ byte_offset_ a;
  dense_inside : byte_offset_ a + prod (shape_ a) * ts ≤ Z.of_nat (length mem);
  dense_addressable : Z.of_nat (length mem) < 2 ^ 64
}.

(** The bytes of the elements, in row-major order. *)
Definition contents (mem : list Z) (ts : Z) (a : NDArray) : list Z :=
  take (Z.to_nat (prod (shape_ a) * ts)) (drop (Z.to_nat (byte_offset_ a)) mem).

Definition with_memory (mem : list Z) (c : Chunk) : Chunk :=
  set_shandle {| dptr := Some mem; h_size := h_size (shandle c); h_ctx := h_ctx (shandle c) |} c.

Lemma put_chunk_id p c s : chunks s !! p = Some c → put_chunk p c s = s.
Proof. intros H. unfold put_chunk. rewrite insert_id by done. by destruct s. Qed.

Lemma length_splice off bs mem : (off + length bs ≤ length mem)%nat → length (splice off bs mem) = length mem.
Proof. intros. unfold splice. rewrite !length_app, length_take, length_drop. lia. Qed.

(** The part of a spliced memory that covers the new bytes. *)
Lemma splice_window o n off bs mem : (o ≤ off)%nat → (off + length bs ≤ o + n)%nat → (o + n ≤ length mem)%nat →
  take n (drop o (splice off bs mem)) = splice (off - o) bs (take n (drop o mem)).
Proof.
  intros H1 H2 H3. apply list_eq. intros i. unfold splice.
  destruct (decide (i < n)%nat) as [Hi|Hi].
  - rewrite lookup_take_lt, lookup_drop by done. destruct (decide (o + i < off)%nat) as [Ho|Ho].
    { rewrite !lookup_app_l by (rewrite length_take, ?length_take, ?length_drop; lia). rewrite !lookup_take_lt, lookup_drop by lia. done. }
    rewrite !(lookup_app_r (take _ _)) by (rewrite length_take, ?length_take, ?length_drop; lia).
    rewrite !length_take, length_drop. replace (o + i - off `min` length mem)%nat with (o + i - off)%nat by lia.
    replace (i - (off - o) `min` (n `min` (length mem - o)))%nat with (o + i - off)%nat by lia.
    destruct (decide (o + i - off < length bs)%nat) as [Hb|Hb]; [by rewrite !lookup_app_l by done|].
    rewrite !lookup_app_r, !lookup_drop by lia. rewrite lookup_take_lt, lookup_drop by lia. f_equal. lia.
  - rewrite !lookup_ge_None_2; [done| |]; rewrite ?length_app, ?length_take, ?length_drop; [|rewrite !length_app, length_take, length_drop; lia].
    rewrite ?length_app, ?length_take, ?length_drop, ?length_take, ?length_drop. lia.
Qed.

Section views.
Context (uninit : Z → list Z).

Lemma data_run s a p c mem ts : dense_at s a p c mem ts →
  data uninit a s = Ok ({| b_memory := mem; b_offset := byte_offset_ a; b_shape := shape_ a; b_type := dtype_ a |}, s).
Proof.
  intros []. unfold data, the_ptr. rewrite (lift_bind _ _ p) by (by rewrite dense_ptr0).
  rewrite (st_bind_Ok _ _ _ c s) by (unfold get_chunk; by rewrite dense_chunk0). rewrite dense_type0. cbn [Z.eqb].
  unfold Chunk_CheckAndAlloc. rewrite dense_alloc0. rewrite (lift_bind _ _ c) by done.
  rewrite modify_bind, put_chunk_id by done. unfold memory. rewrite dense_memory0. done.
Qed.

Lemma read_run s a p c mem ts : dense_at s a p c mem ts →
  SyncCopyToCPU uninit (prod (shape_ a)) a s = Ok (contents mem ts a, s).
Proof.
  intros Ha. pose proof (data_run _ _ _ _ _ _ Ha) as Hd. destruct Ha. pose proof (prod_le _ (proj1 dense_shape0)). pose proof (sizeof_range _ _ dense_sizeof0).
  unfold SyncCopyToCPU. rewrite (lift_bind _ _ (prod (shape_ a))) by (by apply Size_ok). rewrite ensure_bind by apply Z.eqb_refl.
  unfold array_ctx, the_ptr. rewrite (st_bind_Ok _ _ _ (h_ctx (shandle c)) s).
  2:{ rewrite (lift_bind _ _ p) by (by rewrite dense_ptr0). unfold get_chunk. unfold mbind at 1, st_bind. by rewrite dense_chunk0. }
  rewrite ensure_bind by (by rewrite dense_cpu0). rewrite (st_bind_Ok _ _ _ _ _ Hd). rewrite (lift_bind _ _ ts) by done. cbn [b_shape].
  rewrite (lift_bind _ _ (prod (shape_ a))) by (by apply Size_ok). rewrite ensure_bind by apply Z.eqb_refl.
  unfold blob_read, lift. cbn [b_offset b_memory]. rewrite (proj2 (Z.leb_le _ _)), (proj2 (Z.leb_le _ _)) by nia. done.
Qed.

Lemma write_run s a p c mem ts bs : dense_at s a p c mem ts → length bs = Z.to_nat (prod (shape_ a) * ts) →
  SyncCopyFromCPU uninit bs (prod (shape_ a)) a s = Ok (tt, put_chunk p (with_memory (splice (Z.to_nat (byte_offset_ a)) bs mem) c) s).
Proof.
  intros Ha Hbs. pose proof (data_run _ _ _ _ _ _ Ha) as Hd. destruct Ha. pose proof (prod_le _ (proj1 dense_shape0)). pose proof (sizeof_range _ _ dense_sizeof0).
  unfold SyncCopyFromCPU. rewrite (lift_bind _ _ (prod (shape_ a))) by (by apply Size_ok). rewrite ensure_bind by apply Z.eqb_refl.
  unfold array_ctx, the_ptr. rewrite (st_bind_Ok _ _ _ (h_ctx (shandle c)) s).
  2:{ rewrite (lift_bind _ _ p) by (by rewrite dense_ptr0). unfold get_chunk. unfold mbind at 1, st_bind. by rewrite dense_chunk0. }
  rewrite ensure_bind by (by rewrite dense_cpu0). rewrite (st_bind_Ok _ _ _ _ _ Hd). rewrite (lift_bind _ _ ts) by done. cbn [b_shape b_offset].
  rewrite (lift_bind _ _ (prod (shape_ a))) by (by apply Size_ok). rewrite ensure_bind by apply Z.eqb_refl.
  rewrite (lift_bind _ _ p) by (by rewrite dense_ptr0). rewrite (st_bind_Ok _ _ _ c s) by (unfold get_chunk; by rewrite dense_chunk0).
  unfold memory. rewrite dense_memory0. cbn [default]. rewrite (proj2 (Z.ltb_ge _ _)), (proj2 (Z.ltb_ge _ _)) by (cbn [from_option id]; nia).
  cbn [orb]. rewrite take_ge by lia. done.
Qed.

Lemma rows_inside b e d r ts : 0 ≤ b ≤ e → e ≤ d → 0 ≤ r → 1 ≤ ts → 0 ≤ b * r * ts ∧ 0 ≤ (e - b) * r * ts ∧ b * r * ts + (e - b) * r * ts ≤ d * r * ts.
Proof. intros. assert (0 ≤ r * ts) by nia. rewrite <- !Z.mul_assoc. nia. Qed.

(** [Slice] is a view of the rows [begin] to [end]. *)
Lemma Slice_run s a p c mem ts d rest b e : dense_at s a p c mem ts → shape_ a = d :: rest → 0 ≤ b ≤ e → e ≤ d →
  Slice b e a = Ok {| ptr_ := ptr_ a; shape_ := (e - b) :: rest; byte_offset_ := byte_offset_ a + b * prod rest * ts;
                      dtype_ := dtype_ a; reuse_ := false; storage_type_ := kDefaultStorage |}.
Proof.
  intros [] Hs Hb He. rewrite Hs in *. destruct (shape_ok_tail _ _ dense_shape0) as [Hrest Hd]. pose proof (prod_le _ (proj1 Hrest)).
  pose proof (sizeof_range _ _ dense_sizeof0). pose proof (shape_ok_dim _ _ dense_shape0).
  rewrite prod_cons in dense_inside0.
  unfold Slice. rewrite Hs, dense_ptr0, dense_type0. chk. chk. cbn [dim0 head of_option]. rstep. chk. chk.
  unfold row_size. cbn [tail]. rewrite Size_ok by done. rstep. rewrite dense_sizeof0. rstep. rewrite dim_range_ok by lia. rstep. cbn [set_dim0].
  destruct (rows_inside b e d (prod rest) ts) as (? & ? & ?); try lia.
  rewrite (u64_id b) by lia. rewrite u64_id by lia. done.
Qed.

Lemma Slice_dense s a p c mem ts d rest b e v : dense_at s a p c mem ts → shape_ a = d :: rest → 0 ≤ b ≤ e → e ≤ d → Slice b e a = Ok v →
  dense_at s v p c mem ts ∧ contents mem ts v = take (Z.to_nat ((e - b) * prod rest * ts)) (drop (Z.to_nat (b * prod rest * ts)) (contents mem ts a)).
Proof.
  intros Ha Hs Hb He E. rewrite (Slice_run _ _ _ _ _ _ _ _ _ _ Ha Hs Hb He) in E. injection E as <-. destruct Ha. rewrite Hs in *.
  destruct (shape_ok_tail _ _ dense_shape0) as [Hrest Hd]. pose proof (prod_le _ (proj1 Hrest)). pose proof (sizeof_range _ _ dense_sizeof0).
  rewrite prod_cons in dense_inside0.
  destruct (rows_inside b e d (prod rest) ts) as (? & ? & ?); try lia. split.
  - constructor; try done; cbn [shape_ byte_offset_]; [apply (shape_ok_shrink d); [done|lia]|lia|]. rewrite prod_cons. lia.
  - unfold contents. cbn [shape_ byte_offset_]. rewrite Hs, !prod_cons. rewrite skipn_firstn_comm, take_take, drop_drop. f_equal; [|f_equal]; lia.
Qed.

(** [Reshape] is a view of the first elements. *)
Lemma Reshape_dense s a p c mem ts shape v : dense_at s a p c mem ts → shape_ok shape → prod shape ≤ prod (shape_ a) → Reshape shape a = Ok v →
  dense_at s v p c mem ts ∧ shape_ v = shape ∧ contents mem ts v = take (Z.to_nat (prod shape * ts)) (contents mem ts a).
Proof.
  intros Ha Hs Hle E. destruct Ha. pose proof (sizeof_range _ _ dense_sizeof0). pose proof (prod_le _ (proj1 dense_shape0)). pose proof (prod_le _ (proj1 Hs)).
  assert (prod shape * ts ≤ prod (shape_ a) * ts) by (apply Z.mul_le_mono_nonneg_r; lia).
  unfold Reshape in E. rewrite dense_ptr0, dense_type0 in E. cbn [bool_decide negb] in E. rewrite check_bind_ok in E by done.
  rewrite Size_ok, Size_ok in E by done. cbn [mbind result_bind] in E. rewrite check_bind_ok in E by (by apply Z.leb_le). case_bool_decide as Hsh.
  - injection E as <-. split; [by constructor|]. split; [done|]. rewrite <- Hsh. unfold contents. by rewrite take_take, Nat.min_id.
  - cbn [Z.eqb] in E. rewrite check_bind_ok in E by done. injection E as <-. split; [constructor; try done; cbn [shape_ byte_offset_]; lia|]. split; [done|].
    unfold contents. cbn [shape_ byte_offset_]. rewrite take_take. f_equal. lia.
Qed.

Lemma Reshape_total s a p c mem ts shape : dense_at s a p c mem ts → shape_ok shape → prod shape ≤ prod (shape_ a) → is_ok (Reshape shape a) = true.
Proof.
  intros [] Hs Hle. unfold Reshape. rewrite dense_ptr0, dense_type0. chk. rewrite !Size_ok by done. rstep. chk. case_bool_decide; [done|]. by chk.
Qed.

(** [At] is a view of one row. *)
Lemma At_dense s a p c mem ts d rest i : dense_at s a p c mem ts → shape_ a = d :: rest → 0 ≤ i < d → ∃ v,
  At i a = Ok v ∧ dense_at s v p c mem ts ∧ shape_ v = (if bool_decide (rest = []) then [1] else rest) ∧
  contents mem ts v = take (Z.to_nat (prod rest * ts)) (drop (Z.to_nat (i * prod rest * ts)) (contents mem ts a)).
Proof.
  intros Ha Hs Hi. pose proof (Slice_run _ _ _ _ _ _ _ _ i (i + 1) Ha Hs ltac:(lia) ltac:(lia)) as E. set (r := {| ptr_ := _ |}) in E.
  destruct (Slice_dense _ _ _ _ _ _ _ _ i (i + 1) r Ha Hs ltac:(lia) ltac:(lia) E) as [Hr Hc]. replace (i + 1 - i) with 1 in Hc by lia. rewrite Z.mul_1_l in Hc.
  destruct (shape_ok_tail d rest) as [Hrest Hd]; [rewrite <- Hs; apply (dense_shape _ _ _ _ _ _ Ha)|].
  pose proof (shape_ok_dim d rest ltac:(rewrite <- Hs; apply (dense_shape _ _ _ _ _ _ Ha))). unfold At.
  rewrite (dense_type _ _ _ _ _ _ Ha), check_bind_ok, dim_range_ok by (done || lia). rstep. rewrite E. rstep. rewrite Hs. cbn [length tail].
  destruct rest as [|d' rest]; [cbn [length Nat.ltb Nat.leb]; exists r; split; [done|]; split; [done|]; split; [|done]; unfold r; cbn [shape_]; f_equal; lia|].
  cbn [length Nat.ltb Nat.leb]. set (shape := d' :: rest) in *. assert (prod shape ≤ prod (shape_ r)).
  { unfold r. cbn [shape_]. rewrite prod_cons. replace (i + 1 - i) with 1 by lia. lia. }
  pose proof (Reshape_total _ _ _ _ _ _ _ Hr Hrest H0) as Ht. destruct (Reshape shape r) as [v|] eqn:Ev; [|done].
  destruct (Reshape_dense _ _ _ _ _ _ _ _ Hr Hrest H0 Ev) as (Hv & Hsh & Hcv). exists v. split; [done|]. split; [done|]. split; [done|].
  rewrite Hcv, Hc, take_take. f_equal. lia.
Qed.

(** A slice of an array is a window into the same memory.  Slicing rows [b] to [e] of a
    dense array inside its memory succeeds; reading the slice gives these rows of the array,
    and writing to it changes these rows of the array, the other rows and all other memory
    staying as they are. *)
Theorem slice_is_window s a p c mem ts d rest b e : dense_at s a p c mem ts → shape_ a = d :: rest → 0 ≤ b ≤ e → e ≤ d →
  let row := prod rest * ts in
  ∃ v, Slice b e a = Ok v ∧ shape_ v = (e - b) :: rest ∧
    SyncCopyToCPU uninit (prod (shape_ v)) v s = Ok (take (Z.to_nat ((e - b) * row)) (drop (Z.to_nat (b * row)) (contents mem ts a)), s) ∧
    ∀ bs, length bs = Z.to_nat ((e - b) * row) → ∃ s',
      SyncCopyFromCPU uninit bs (prod (shape_ v)) v s = Ok (tt, s') ∧
      SyncCopyToCPU uninit (prod (shape_ a)) a s' = Ok (splice (Z.to_nat (b * row)) bs (contents mem ts a), s') ∧
      next_chunk s' = next_chunk s ∧ ∀ q, q ≠ p → chunks s' !! q = chunks s !! q.
Proof.
  intros Ha Hs Hb He row. pose proof (Slice_run _ _ _ _ _ _ _ _ _ _ Ha Hs Hb He) as E.
  destruct (Slice_dense _ _ _ _ _ _ _ _ _ _ _ Ha Hs Hb He E) as [Hv Hc]. set (v := {| ptr_ := _ |}) in *. exists v. split; [done|]. split; [done|].
  unfold row. rewrite !Z.mul_assoc. split; [by rewrite (read_run _ _ _ _ _ _ Hv), Hc|]. intros bs Hbs.
  assert (prod (shape_ v) * ts = (e - b) * prod rest * ts) as Hn by (unfold v; cbn [shape_]; by rewrite prod_cons).
  rewrite (write_run _ _ _ _ _ _ bs Hv) by (by rewrite Hn). eexists. split; [done|]. cbn [next_chunk put_chunk chunks].
  split; [|split; [done|intros q Hq; by rewrite lookup_insert_ne]].
  destruct (rows_inside b e d (prod rest) ts) as (? & ? & ?); try done.
  { destruct (shape_ok_tail d rest) as [Hr _]; [rewrite <- Hs; apply (dense_shape _ _ _ _ _ _ Ha)|]. apply (prod_le _ (proj1 Hr)). }
  { apply (sizeof_range _ _ (dense_sizeof _ _ _ _ _ _ Ha)). }
  pose proof (dense_inside _ _ _ _ _ _ Ha) as Hin. pose proof (dense_offset _ _ _ _ _ _ Ha) as Ho. rewrite Hs, prod_cons in Hin.
  set (mem' := splice _ bs mem). assert (length mem' = length mem) as Hl by (apply length_splice; unfold v; cbn [byte_offset_]; lia).
  erewrite (read_run _ a p (with_memory mem' c) mem' ts).
  - unfold contents, mem', v. cbn [byte_offset_]. rewrite Hs, prod_cons. rewrite splice_window by lia. do 2 f_equal. f_equal. lia.
  - destruct Ha. constructor; try done; [apply lookup_insert_eq|by rewrite Hl|by rewrite Hl].
Qed.

End views.

(** A 3 by 2 array of bytes; rows 1 and 2 are sliced. *)
Definition w_chunk : Chunk := {|
  shandle := {| dptr := Some [1; 2; 3; 4; 5; 6]; h_size := 6; h_ctx := CPU |}; aux_handles := []; delay_alloc := false;
  storage_type := kDefaultStorage; aux_types := []; c_ctx := CPU; storage_shape := [3; 2]; aux_shapes := [] |}.
Definition w_blob_store : store := {| chunks := {[0%nat := w_chunk]}; next_chunk := 1 |}.
Definition w_array : NDArray :=
  {| ptr_ := Some 0%nat; shape_ := [3; 2]; byte_offset_ := 0; dtype_ := 3; reuse_ := false; storage_type_ := kDefaultStorage |}.

Lemma w_array_dense : dense_at w_blob_store w_array 0 w_chunk [1; 2; 3; 4; 5; 6] 1.
Proof. constructor; try done. split; [|done]. apply Forall_cons; split; [done|]. apply Forall_cons; split; [done|]. by apply Forall_nil. Qed.

Lemma slice_is_window_witness : ∃ v, Slice 1 3 w_array = Ok v ∧ shape_ v = [2; 2] ∧
  SyncCopyToCPU (fun n => replicate (Z.to_nat n) 0) 4 v w_blob_store = Ok ([3; 4; 5; 6], w_blob_store).
Proof.
  destruct (slice_is_window (fun n => replicate (Z.to_nat n) 0) _ _ _ _ _ _ 3 [2] 1 3 w_array_dense eq_refl ltac:(done) ltac:(done)) as (v & E & Hs & Hr & _).
  exists v. split; [exact E|]. split; [exact Hs|]. rewrite Hs in Hr. exact Hr.
Defined.
