(* ===== verification/ArrayFile.v ===== *)
(** * Files of arrays

    [NDArray::Save] and [NDArray::Load] of src/src/ndarray/ndarray.cc, for one array and for a
    list of arrays with names, with the shapes of src/3rdparty/tvm/nnvm/include/nnvm/tuple.h,
    [Context] of src/include/mxnet/base.h and the handlers of
    src/3rdparty/dmlc-core/include/dmlc/serializer.h they use, on a little-endian machine.
    What is saved is loaded again, dense or sparse. *)

From S2P Require Import Prelude Blob.
Local Open Scope Z_scope.

(** ** Streams

    A [dmlc::Stream] being read is the bytes not yet read.  A loader that returns [false]
    has no result. *)
Definition loader (A : Type) : Type := store * list Z → result (option A * (store * list Z)).
#[export] Instance loader_ret : MRet loader := fun A a s => Ok (Some a, s).
#[export] Instance loader_bind : MBind loader := fun A B f m s =>
  match m s with Ok (Some a, s') => f a s' | Ok (None, s') => Ok (None, s') | Err e => Err e end.

(** [Read(ptr, size)], and [return false] when it gives fewer bytes. *)
Definition read (size : Z) : loader (list Z) := fun '(s, strm) =>
  if (0 <=? size) && (size <=? Z.of_nat (length strm)) then Ok (Some (take (Z.to_nat size) strm), (s, drop (Z.to_nat size) strm))
  else Ok (None, (s, [])).

(** A computation on the arrays. *)
Definition on_arrays {A} (m : st store A) : loader A := fun '(s, strm) =>
  match m s with Ok (a, s') => Ok (Some a, (s', strm)) | Err e => Err e end.

Definition read_word (n : nat) : loader Z := bs ← read (Z.of_nat n); mret (le_word bs).

(** The [k] words of [n] bytes in [bs]. *)
Fixpoint words (n k : nat) (bs : list Z) : list Z :=
  match k with O => [] | S k => le_word (take n bs) :: words n k (drop n bs) end.

(** ** Parts of an array *)
Definition TShape_Save (shape : TShape) : list Z :=
  le_bytes 4 (u32 (Z.of_nat (length shape))) ++ mjoin (le_bytes 8 <$> shape).
Definition TShape_Load : loader TShape :=
  ndim ← read_word 4;
  bs ← read (8 * ndim);
  mret (i64 <$> words 8 (Z.to_nat ndim) bs).

Definition Context_Save (c : Context) : list Z := le_bytes 4 (dev_type c) ++ le_bytes 4 (dev_id c).
Definition Context_Load : loader Context :=
  t ← read_word 4; i ← read_word 4; mret {| dev_type := i32 t; dev_id := i32 i |}.

Definition NDARRAY_V1_MAGIC : Z := 0xF993fac8.
Definition NDARRAY_V2_MAGIC : Z := 0xF993fac9.

Section files.
Context (uninit : Z → list Z).

(** ** Saving *)

(** One round of the first loop over the auxiliary arrays: type and shape. *)
Definition save_aux_type (a : NDArray) (acc : list Z) (i : nat) : st store (list Z) :=
  p ← the_ptr a; c ← get_chunk p;
  type ← lift (rd (aux_types c) i);
  shape ← lift (rd (aux_shapes c) i);
  mret (acc ++ le_bytes 4 type ++ TShape_Save shape).

(** One round of the second loop: the contents. *)
Definition save_aux_data (a : NDArray) (acc : list Z) (i : nat) : st store (list Z) :=
  blob ← aux_data i a;
  p ← the_ptr a; c ← get_chunk p;
  type ← lift (rd (aux_types c) i);
  ts ← lift (mshadow_sizeof type);
  size ← lift (Size (b_shape blob));
  bs ← lift (blob_read blob (u64 (ts * size)));
  mret (acc ++ bs).

Definition Save (a : NDArray) : st store (list Z) :=
  let stype := storage_type_ a in
  nad ← lift (num_aux_data stype);
  sshape ← (if (0 <? nad)%nat then p ← the_ptr a; c ← get_chunk p; mret (TShape_Save (storage_shape c)) else mret []);
  let head := le_bytes 4 NDARRAY_V2_MAGIC ++ le_bytes 4 stype ++ sshape ++ TShape_Save (shape_ a) in
  if bool_decide (ptr_ a = None) then mret head else
  ctx ← array_ctx a;
  ensure (dev_mask ctx =? kCPU) "GPU is not enabled";;
  save_data ← data uninit a;
  let type_flag := b_type save_data in
  aux ← fold_st (save_aux_type a) [] (seq 0 nad);
  ts ← lift (mshadow_sizeof type_flag);
  size ← lift (Size (b_shape save_data));
  bs ← lift (blob_read save_data (u64 (ts * size)));
  aux_bs ← fold_st (save_aux_data a) [] (seq 0 nad);
  mret (head ++ Context_Save ctx ++ le_bytes 4 type_flag ++ aux ++ bs ++ aux_bs).

(** ** Loading *)

(** [Read(blob.dptr_, n)]: the bytes arrive in the memory of the array. *)
Definition fill_data (a : NDArray) (bs : list Z) : st store unit :=
  p ← the_ptr a; c ← get_chunk p;
  if (length (memory (shandle c)) <? length bs)%nat then fail (Undefined "write out of range")
  else modify (put_chunk p (set_shandle {| dptr := Some (splice 0 bs (memory (shandle c)));
                                           h_size := h_size (shandle c); h_ctx := h_ctx (shandle c) |} c)).
Definition fill_aux (i : nat) (a : NDArray) (bs : list Z) : st store unit :=
  p ← the_ptr a; c ← get_chunk p;
  h ← lift (rd (aux_handles c) i);
  if (length (memory h) <? length bs)%nat then fail (Undefined "write out of range")
  else l ← lift (wr (aux_handles c) i {| dptr := Some (splice 0 bs (memory h)); h_size := h_size h; h_ctx := h_ctx h |});
    modify (put_chunk p (set_aux_handles l c)).

(** [LegacyTShapeLoad]: a magic number that is none is the number of dimensions, and the
    dimensions have 32 bits. *)
Definition LegacyTShapeLoad (magic : Z) : loader TShape :=
  if magic =? NDARRAY_V1_MAGIC then TShape_Load
  else bs ← read (4 * magic); mret (words 4 (Z.to_nat magic) bs).

Definition LegacyLoad (magic : Z) : loader NDArray :=
  shape ← LegacyTShapeLoad magic;
  if bool_decide (shape = []) then mret NDArray_none else
  ctx ← Context_Load;
  type_flag ← read_word 4;
  let type_flag := i32 type_flag in
  temp ← on_arrays (NDArray_dense uninit shape CPU false type_flag);
  blob ← on_arrays (data uninit temp);
  ts ← on_arrays (lift (mshadow_sizeof type_flag));
  size ← on_arrays (lift (Size shape));
  bs ← read (u64 (ts * size));
  on_arrays (fill_data temp bs);;
  mret temp.

(** One round of the loop that reads types and shapes of the auxiliary arrays. *)
Definition load_aux_type : loader (Z * TShape) :=
  t ← read_word 4; shape ← TShape_Load; mret (i32 t, shape).

Fixpoint load_n {A} (m : loader A) (n : nat) : loader (list A) :=
  match n with O => mret [] | S n => x ← m; l ← load_n m n; mret (x :: l) end.

Definition load_aux_data (temp : NDArray) (i : nat) : loader unit :=
  blob ← on_arrays (aux_data i temp);
  ts ← on_arrays (lift (mshadow_sizeof (b_type blob)));
  size ← on_arrays (lift (Size (b_shape blob)));
  bs ← read (u64 (ts * size));
  on_arrays (fill_aux i temp bs).

Fixpoint load_each (m : nat → loader unit) (l : list nat) : loader unit :=
  match l with [] => mret tt | i :: l => m i;; load_each m l end.

Definition Load : loader NDArray :=
  magic ← read_word 4;
  if negb (magic =? NDARRAY_V2_MAGIC) then LegacyLoad magic else
  stype ← read_word 4;
  let stype := i32 stype in
  nad ← on_arrays (lift (num_aux_data stype));
  sshape ← (if (0 <? nad)%nat then TShape_Load else mret []);
  shape ← TShape_Load;
  if bool_decide (shape = []) then mret NDArray_none else
  ctx ← Context_Load;
  type_flag ← read_word 4;
  let type_flag := i32 type_flag in
  aux ← load_n load_aux_type nad;
  temp ← on_arrays (if (nad =? 0)%nat then NDArray_dense uninit shape CPU false type_flag
                    else NDArray_storage uninit stype shape CPU false type_flag aux.*1 aux.*2 sshape);
  blob ← on_arrays (data uninit temp);
  ts ← on_arrays (lift (mshadow_sizeof type_flag));
  size ← on_arrays (lift (Size (b_shape blob)));
  bs ← read (u64 (ts * size));
  on_arrays (fill_data temp bs);;
  load_each (load_aux_data temp) (seq 0 nad);;
  mret temp.

(** ** Lists of arrays *)
Definition kMXAPINDArrayListMagic : Z := 0x112.

(** [Write(vector)]: the number of elements and the elements. *)
Definition save_string (name : list Z) : list Z := le_bytes 8 (Z.of_nat (length name)) ++ name.
Definition load_string : loader (list Z) := n ← read_word 8; read n.

Definition SaveList (arrays : list NDArray) (names : list (list Z)) : st store (list Z) :=
  bs ← fold_st (fun acc a => b ← Save a; mret (acc ++ b)) [] arrays;
  mret (le_bytes 8 kMXAPINDArrayListMagic ++ le_bytes 8 0 ++
        le_bytes 8 (Z.of_nat (length arrays)) ++ bs ++
        le_bytes 8 (Z.of_nat (length names)) ++ mjoin (save_string <$> names)).

(** [CHECK(fi->Read(...))] *)
Definition must {A} (m : loader A) : loader A := fun s =>
  match m s with Ok (None, _) => Err (CheckFailed "Invalid NDArray file format") | r => r end.

Definition LoadList : loader (list NDArray * list (list Z)) :=
  header ← must (read_word 8);
  reserved ← must (read_word 8);
  on_arrays (ensure (header =? kMXAPINDArrayListMagic) "Invalid NDArray file format");;
  arrays ← must (n ← read_word 8; load_n Load (Z.to_nat n));
  keys ← must (n ← read_word 8; load_n load_string (Z.to_nat n));
  on_arrays (ensure ((length keys =? 0)%nat || (length keys =? length arrays)%nat) "Invalid NDArray file format");;
  mret (arrays, keys).

End files.

(** ** The value of an array

    What an array denotes, wherever its bytes are: for a sparse array, the stored values and
    the auxiliary arrays with their types and shapes. *)
Record Value := {
  v_stype : Z; v_shape : TShape; v_dtype : Z; v_sshape : TShape; v_data : list Z;
  v_aux : list (Z * TShape * list Z)
}.
Definition aux_type (x : Z * TShape * list Z) : Z := x.1.1.
Definition aux_shape (x : Z * TShape * list Z) : TShape := x.1.2.
Definition aux_bytes (x : Z * TShape * list Z) : list Z := x.2.

(** [n] elements of a type take the bytes [bs]. *)
Definition fits (n type : Z) (bs : list Z) : Prop :=
  ∃ ts, mshadow_sizeof type = Ok ts ∧ Z.of_nat (length bs) = n * ts ∧ n * ts < 2 ^ 64.

Definition aux_ok (x : Z * TShape * list Z) : Prop :=
  ∃ n, aux_shape x = [n] ∧ 0 ≤ n < 2 ^ 63 ∧ fits n (aux_type x) (aux_bytes x).

(** The auxiliary array of the indices, whose length is the number of stored values. *)
Definition idx_of (stype : Z) : nat := if stype =? kCSRStorage then 1 else 0.

Record value_ok (v : Value) : Prop := {
  value_shape : shape_ok (v_shape v);
  value_sshape : shape_ok (v_sshape v);
  value_dims : v_shape v ≠ [];
  value_ndim : Z.of_nat (length (v_shape v)) < 2 ^ 32;
  value_data : fits (prod (v_sshape v)) (v_dtype v) (v_data v);
  value_aux : Forall aux_ok (v_aux v);
  value_stype : num_aux_data (v_stype v) = Ok (length (v_aux v));
  value_storage :
    if v_stype v =? kDefaultStorage then v_sshape v = v_shape v
    else ∃ x n, v_aux v !! idx_of (v_stype v) = Some x ∧ aux_shape x = [n] ∧
      v_sshape v = if v_stype v =? kCSRStorage then [n] else n :: tail (v_shape v)
}.

(** The handle [h] points to memory that starts with [bs]. *)
Definition backs (h : Handle) (bs : list Z) : Prop := bs `prefix_of` memory h.

(** Array [a] has the value [v]. *)
Record has_value (s : store) (a : NDArray) (p : nat) (c : Chunk) (v : Value) : Prop := {
  hv_ptr : ptr_ a = Some p;
  hv_chunk : chunks s !! p = Some c;
  hv_cpu : dev_mask (h_ctx (shandle c)) = kCPU;
  hv_stype : storage_type_ a = v_stype v;
  hv_shape : shape_ a = v_shape v;
  hv_dtype : dtype_ a = v_dtype v;
  hv_data : if v_stype v =? kDefaultStorage
            then delay_alloc c = false ∧ 0 ≤ byte_offset_ a ≤ Z.of_nat (length (memory (shandle c))) ∧
              v_data v `prefix_of` drop (Z.to_nat (byte_offset_ a)) (memory (shandle c))
            else byte_offset_ a = 0 ∧ storage_shape c = v_sshape v ∧ backs (shandle c) (v_data v);
  hv_aux_types : v_stype v =? kDefaultStorage = false → aux_types c = aux_type <$> v_aux v;
  hv_aux_shapes : v_stype v =? kDefaultStorage = false → aux_shapes c = aux_shape <$> v_aux v;
  hv_aux_handles : v_stype v =? kDefaultStorage = false → Forall2 (fun h x => backs h (aux_bytes x)) (aux_handles c) (v_aux v)
}.

(** The bytes of a saved array. *)
Definition encode (ctx : Context) (v : Value) : list Z :=
  le_bytes 4 NDARRAY_V2_MAGIC ++ le_bytes 4 (v_stype v) ++
  (if (0 <? length (v_aux v))%nat then TShape_Save (v_sshape v) else []) ++
  TShape_Save (v_shape v) ++ Context_Save ctx ++ le_bytes 4 (v_dtype v) ++
  mjoin ((fun x => le_bytes 4 (aux_type x) ++ TShape_Save (aux_shape x)) <$> v_aux v) ++
  v_data v ++ mjoin (aux_bytes <$> v_aux v).

(** ** Saving writes the encoding *)
Lemma prefix_read mem off bs shape type : 0 ≤ off ≤ Z.of_nat (length mem) → bs `prefix_of` drop (Z.to_nat off) mem →
  blob_read {| b_memory := mem; b_offset := off; b_shape := shape; b_type := type |} (Z.of_nat (length bs)) = Ok bs.
Proof.
  intros Ho [k Hk]. unfold blob_read. cbn [b_memory b_offset]. pose proof (f_equal length Hk) as Hlen. rewrite length_drop, length_app in Hlen.
  rewrite (proj2 (Z.leb_le _ _)), (proj2 (Z.leb_le _ _)) by lia. cbn [andb]. by rewrite Hk, Nat2Z.id, take_app_length.
Qed.

(** The bytes of [n] elements are counted without overflow. *)
Lemma fits_bytes n type bs ts : 0 ≤ n → fits n type bs → mshadow_sizeof type = Ok ts → u64 (ts * n) = Z.of_nat (length bs).
Proof. intros Hn (ts' & E & Hl & Hb) E'. rewrite E in E'. injection E' as <-. pose proof (sizeof_range _ _ E). rewrite u64_id by nia. lia. Qed.

Section save.
Context (uninit : Z → list Z) (s : store) (a : NDArray) (p : nat) (c : Chunk) (v : Value).
Hypothesis Hv : value_ok v.
Hypothesis Ha : has_value s a p c v.

Lemma the_chunk {B} (k : Chunk → st store B) : (p ← the_ptr a; c ← get_chunk p; k c) s = k c s.
Proof.
  unfold the_ptr. rewrite (lift_bind _ _ p) by (by rewrite (hv_ptr _ _ _ _ _ Ha)).
  apply st_bind_Ok. unfold get_chunk. by rewrite (hv_chunk _ _ _ _ _ Ha).
Qed.

(** The blob of the contents, which the store already has. *)
Lemma saved_data : ∃ blob, data uninit a s = Ok (blob, s) ∧ b_type blob = v_dtype v ∧ b_shape blob = v_sshape v ∧
  blob_read blob (Z.of_nat (length (v_data v))) = Ok (v_data v).
Proof.
  destruct Hv, Ha. unfold data. unfold the_ptr. rewrite (lift_bind _ _ p) by (by rewrite hv_ptr0).
  rewrite (st_bind_Ok _ _ _ c s) by (unfold get_chunk; by rewrite hv_chunk0). rewrite hv_stype0, hv_shape0, hv_dtype0.
  destruct (v_stype v =? kDefaultStorage) eqn:Ed.
  - destruct hv_data0 as (Hd & Ho & Hp). unfold Chunk_CheckAndAlloc. rewrite Hd. rewrite (lift_bind _ _ c) by done.
    rewrite modify_bind, put_chunk_id by done. eexists. split; [done|]. split; [done|]. split; [by rewrite value_storage0|]. by apply prefix_read.
  - destruct hv_data0 as (Ho & Hs & Hp). rewrite (lift_bind _ _ c), modify_bind, put_chunk_id by done.
    assert ((v_stype v =? kCSRStorage) || (v_stype v =? kRowSparseStorage) = true) as ->.
    { unfold num_aux_data in value_stype0. rewrite Ed in value_stype0. destruct (v_stype v =? kCSRStorage); [done|]. by destruct (v_stype v =? kRowSparseStorage). }
    rewrite Ho, Hs. rewrite ensure_bind by done. eexists. split; [done|]. split; [done|]. split; [done|]. apply prefix_read; [lia|done].
Qed.

Lemma fold_st_run {A B} (f : B → A → st store B) (g : nat → B) l : (∀ i x, l !! i = Some x → f (g i) x s = Ok (g (S i), s)) →
  fold_st f (g 0%nat) l s = Ok (g (length l), s).
Proof.
  revert g. induction l as [|x l IH]; intros g H; [done|]. cbn [fold_st]. rewrite (st_bind_Ok _ _ _ _ _ (H 0%nat x eq_refl)).
  apply (IH (fun i => g (S i))). intros i y Hy. by apply (H (S i)).
Qed.

(** A fold over the auxiliary arrays that appends a part of each. *)
Lemma fold_aux (f : list Z → nat → st store (list Z)) (part : Z * TShape * list Z → list Z) :
  (∀ acc i x, v_aux v !! i = Some x → f acc i s = Ok (acc ++ part x, s)) →
  fold_st f [] (seq 0 (length (v_aux v))) s = Ok (mjoin (part <$> v_aux v), s).
Proof.
  intros H. pose proof (fold_st_run f (fun i => mjoin (part <$> take i (v_aux v))) (seq 0 (length (v_aux v)))) as E.
  cbv beta in E. change (mjoin (part <$> take 0 (v_aux v))) with (@nil Z) in E. rewrite E; [by rewrite length_seq, take_ge by lia|].
  intros i x [-> Hi]%lookup_seq. cbn [Nat.add]. destruct (lookup_lt_is_Some_2 (v_aux v) i Hi) as [y Hy].
  rewrite (H _ _ y Hy), (take_S_r _ _ _ Hy), fmap_app, join_app. cbn. by rewrite app_nil_r.
Qed.

Lemma not_default i x : v_aux v !! i = Some x → v_stype v =? kDefaultStorage = false.
Proof.
  intros Hx. pose proof (value_stype _ Hv) as E. unfold num_aux_data in E. destruct (v_stype v =? kDefaultStorage); [|done].
  injection E as E. destruct (v_aux v); done.
Qed.

Lemma saved_type acc i x : v_aux v !! i = Some x →
  save_aux_type a acc i s = Ok (acc ++ le_bytes 4 (aux_type x) ++ TShape_Save (aux_shape x), s).
Proof.
  intros Hx. pose proof (not_default i x Hx) as Hn. unfold save_aux_type. rewrite the_chunk. destruct Ha.
  rewrite (lift_bind _ _ (aux_type x)) by (apply rd_ok; by rewrite hv_aux_types0, list_lookup_fmap, Hx by done).
  rewrite (lift_bind _ _ (aux_shape x)) by (apply rd_ok; by rewrite hv_aux_shapes0, list_lookup_fmap, Hx by done). done.
Qed.

Lemma aux_data_run i x : v_aux v !! i = Some x → ∃ h, aux_handles c !! i = Some h ∧ backs h (aux_bytes x) ∧
  aux_data i a s = Ok ({| b_memory := memory h; b_offset := 0; b_shape := aux_shape x; b_type := aux_type x |}, s).
Proof.
  intros Hx. pose proof (not_default i x Hx) as Hn. pose proof (@the_chunk TBlob) as Hc. destruct Ha. destruct Hv.
  destruct (Forall2_lookup_r _ _ _ _ _ (hv_aux_handles0 Hn) Hx) as (h & Hh & Hb). exists h. split; [done|]. split; [done|].
  pose proof (Forall_lookup_1 _ _ _ _ value_aux0 Hx) as (n & Hs & Hr & ts & Ht & _).
  unfold aux_data. rewrite ensure_bind by (by rewrite hv_stype0, Hn). rewrite Hc.
  rewrite (lift_bind _ _ (aux_shape x)) by (apply rd_ok; by rewrite hv_aux_shapes0, list_lookup_fmap, Hx by done).
  rewrite (lift_bind _ _ (aux_type x)) by (apply rd_ok; by rewrite hv_aux_types0, list_lookup_fmap, Hx by done).
  rewrite (lift_bind _ _ ts) by done. rewrite (lift_bind _ _ h) by (by apply rd_ok). rewrite ensure_bind; [done|].
  rewrite hv_stype0. unfold num_aux_data in value_stype0. rewrite Hn in value_stype0. destruct (v_stype v =? kCSRStorage); [by rewrite orb_true_r|].
  by destruct (v_stype v =? kRowSparseStorage).
Qed.

Lemma saved_aux acc i x : v_aux v !! i = Some x → save_aux_data a acc i s = Ok (acc ++ aux_bytes x, s).
Proof.
  intros Hx. destruct (aux_data_run i x Hx) as (h & Hh & Hb & E). pose proof (not_default i x Hx) as Hn.
  pose proof (Forall_lookup_1 _ _ _ _ (value_aux _ Hv) Hx) as (n & Hs & Hr & Hf). destruct Hf as (ts & Ht & Hf). unfold save_aux_data.
  rewrite (st_bind_Ok _ _ _ _ _ E), the_chunk.
  rewrite (lift_bind _ _ (aux_type x)) by (apply rd_ok; by rewrite (hv_aux_types _ _ _ _ _ Ha), list_lookup_fmap, Hx by done).
  rewrite (lift_bind _ _ ts) by done. cbn [b_shape]. rewrite Hs. rewrite (lift_bind _ _ n).
  2:{ unfold Size. cbn [foldM]. rewrite dim_range_ok by lia. rstep. by rewrite Z.mul_1_l, u64_id by lia. }
  rewrite (lift_bind _ _ (aux_bytes x)); [done|]. rewrite (fits_bytes n (aux_type x) (aux_bytes x) ts); [|lia|by exists ts|done].
  apply prefix_read; [lia|done].
Qed.

Lemma Save_run : Save uninit a s = Ok (encode (h_ctx (shandle c)) v, s).
Proof.
  destruct saved_data as (blob & Hd & Hty & Hsh & Hbr). unfold Save. rewrite (hv_stype _ _ _ _ _ Ha), (hv_shape _ _ _ _ _ Ha).
  rewrite (lift_bind _ _ (length (v_aux v))) by apply (value_stype _ Hv).
  rewrite (st_bind_Ok _ _ _ (if (0 <? length (v_aux v))%nat then TShape_Save (v_sshape v) else []) s).
  2:{ destruct (v_aux v) as [|x l] eqn:El; [done|]. cbn [length Nat.ltb Nat.leb]. rewrite the_chunk.
      pose proof (not_default 0 x ltac:(by rewrite El)) as Hn. pose proof (hv_data _ _ _ _ _ Ha) as Hda. rewrite Hn in Hda. destruct Hda as (_ & -> & _). done. }
  rewrite bool_decide_eq_false_2 by (by rewrite (hv_ptr _ _ _ _ _ Ha)). unfold array_ctx. rewrite (st_bind_Ok _ _ _ (h_ctx (shandle c)) s) by apply the_chunk.
  rewrite ensure_bind by (by rewrite (hv_cpu _ _ _ _ _ Ha)). rewrite (st_bind_Ok _ _ _ _ _ Hd).
  rewrite (st_bind_Ok _ _ _ _ _ (fold_aux _ _ saved_type)). rewrite Hty, Hsh. destruct (value_data _ Hv) as (ts & Ht & Hf).
  rewrite (lift_bind _ _ ts) by done. rewrite (lift_bind _ _ (prod (v_sshape v))) by (apply Size_ok, (value_sshape _ Hv)).
  rewrite (lift_bind _ _ (v_data v)). 2:{ rewrite (fits_bytes (prod (v_sshape v)) (v_dtype v) (v_data v) ts); [done| |by exists ts|done]. apply (prod_le _ (proj1 (value_sshape _ Hv))). }
  rewrite (st_bind_Ok _ _ _ _ _ (fold_aux _ _ saved_aux)). unfold encode, mret, st_ret. do 2 f_equal. by rewrite <- !(assoc_L (++)).
Qed.
End save.

(** ** Loading reads the encoding *)

(** [m] consumes exactly [bs] and returns [x]. *)
Definition reads {A} (m : loader A) (bs : list Z) (x : A) : Prop := ∀ s rest, m (s, bs ++ rest) = Ok (Some x, (s, rest)).

Lemma loader_step {A B} (m : loader A) (f : A → loader B) s x s' : m s = Ok (Some x, s') → (m ≫= f) s = f x s'.
Proof. intros H. unfold mbind, loader_bind. by rewrite H. Qed.

Lemma arrays_step {A B} (m : st store A) (f : A → loader B) s strm x s' : m s = Ok (x, s') → (on_arrays m ≫= f) (s, strm) = f x (s', strm).
Proof. intros H. apply loader_step. unfold on_arrays. by rewrite H. Qed.

Lemma lifted_step {A B} (r : result A) (f : A → loader B) s strm x : r = Ok x → (on_arrays (lift r) ≫= f) (s, strm) = f x (s, strm).
Proof. intros H. apply arrays_step. unfold lift. by rewrite H. Qed.

Lemma reads_bind {A B} (m : loader A) (f : A → loader B) bs1 bs2 x y : reads m bs1 x → reads (f x) bs2 y → reads (m ≫= f) (bs1 ++ bs2) y.
Proof. intros H1 H2 s rest. rewrite <- (assoc_L (++)), (loader_step _ _ _ _ _ (H1 s _)). apply H2. Qed.

Lemma reads_ret {A} (x : A) : reads (mret x) [] x.
Proof. by intros s rest. Qed.

Lemma reads_map {A B} (m : loader A) (f : A → B) bs x : reads m bs x → reads (y ← m; mret (f y)) bs (f x).
Proof. intros H. rewrite <- (app_nil_r bs). eapply reads_bind; [done|apply reads_ret]. Qed.

Lemma reads_read bs : reads (read (Z.of_nat (length bs))) bs bs.
Proof.
  intros s rest. unfold read. rewrite (proj2 (Z.leb_le _ _)), (proj2 (Z.leb_le _ _)) by (rewrite ?length_app; lia). cbn [andb].
  by rewrite Nat2Z.id, take_app_length, drop_app_length.
Qed.

Lemma reads_word n w : reads (read_word n) (le_bytes n w) (w mod 256 ^ Z.of_nat n).
Proof. rewrite <- le_word_bytes. apply reads_map. rewrite <- (length_le_bytes n w) at 1. apply reads_read. Qed.

Lemma reads_int z : - 2 ^ 31 ≤ z < 2 ^ 31 → ∃ w, reads (read_word 4) (le_bytes 4 z) w ∧ i32 w = z.
Proof.
  intros Hz. exists (z mod 256 ^ 4). split; [apply reads_word|]. unfold i32. change (256 ^ 4) with (2 ^ 32).
  rewrite Zplus_mod_idemp_l, Z.mod_small; lia.
Qed.

Lemma words_join n ws : words n (length ws) (mjoin (le_bytes n <$> ws)) = (fun w => w mod 256 ^ Z.of_nat n) <$> ws.
Proof.
  induction ws as [|w ws IH]; [done|]. cbn [length words]. rewrite fmap_cons. change (mjoin (?a :: ?b)) with (a ++ mjoin b).
  rewrite take_app_length', drop_app_length' by (by rewrite length_le_bytes). by rewrite IH, le_word_bytes.
Qed.

Lemma length_words_join n ws : length (mjoin (le_bytes n <$> ws)) = (n * length ws)%nat.
Proof. induction ws as [|w ws IH]; [cbn; lia|]. rewrite fmap_cons. change (mjoin (?a :: ?b)) with (a ++ mjoin b). rewrite length_app, IH, length_le_bytes. cbn. lia. Qed.

Lemma shape_ok_dims shape : shape_ok shape → Forall (fun d => 0 ≤ d < 2 ^ 63) shape.
Proof.
  induction shape as [|d shape IH]; intros H; [done|]. pose proof (shape_ok_dim _ _ H). destruct (shape_ok_tail _ _ H) as [? ?].
  apply Forall_cons. split; [lia|by apply IH].
Qed.

Lemma reads_shape shape : Forall (fun d => 0 ≤ d < 2 ^ 63) shape → Z.of_nat (length shape) < 2 ^ 32 → reads TShape_Load (TShape_Save shape) shape.
Proof.
  intros Hd Hn. unfold TShape_Load, TShape_Save. rewrite u32_id by lia. eapply reads_bind; [apply reads_word|].
  change (256 ^ Z.of_nat 4) with (2 ^ 32). rewrite Z.mod_small, Nat2Z.id by lia.
  assert (i64 <$> words 8 (length shape) (mjoin (le_bytes 8 <$> shape)) = shape) as E.
  { rewrite words_join, <- list_fmap_compose. rewrite <- (list_fmap_id shape) at 2. apply list_fmap_ext. intros i d Hi. cbn.
    pose proof (Forall_lookup_1 _ _ _ _ Hd Hi) as Hr. cbn in Hr. rewrite Z.mod_small, i64_id; [done|lia|]. change (256 ^ Z.of_nat 8) with (2 ^ 64). lia. }
  replace (8 * Z.of_nat (length shape)) with (Z.of_nat (length (mjoin (le_bytes 8 <$> shape)))) by (rewrite length_words_join; lia).
  pose proof (reads_map _ (fun bs => i64 <$> words 8 (length shape) bs) _ _ (reads_read (mjoin (le_bytes 8 <$> shape)))) as H. cbv beta in H. by rewrite E in H.
Qed.

Lemma reads_context ctx : - 2 ^ 31 ≤ dev_type ctx < 2 ^ 31 → - 2 ^ 31 ≤ dev_id ctx < 2 ^ 31 → reads Context_Load (Context_Save ctx) ctx.
Proof.
  intros H1 H2. destruct (reads_int _ H1) as (t & Ht & Et). destruct (reads_int _ H2) as (i & Hi & Ei). unfold Context_Load, Context_Save.
  eapply reads_bind; [done|]. destruct ctx as [ty id]. cbn in *. rewrite <- Et, <- Ei at 1. subst. apply (reads_map _ (fun i => {| dev_type := i32 t; dev_id := i32 i |})). done.
Qed.

Lemma sizeof_type type ts : mshadow_sizeof type = Ok ts → 0 ≤ type ≤ 6.
Proof. unfold mshadow_sizeof. destruct type as [|p|p]; [lia| |done]. repeat (destruct p as [p|p|]; try done; try lia). Qed.

Lemma reads_n {A B} (m : loader A) (enc : B → list Z) (dec : B → A) l : Forall (fun x => reads m (enc x) (dec x)) l → reads (load_n m (length l)) (mjoin (enc <$> l)) (dec <$> l).
Proof.
  induction 1 as [|x l Hx _ IH]; [apply reads_ret|]. cbn [length load_n]. rewrite !fmap_cons. change (mjoin (?a :: ?b)) with (a ++ mjoin b).
  eapply reads_bind; [done|]. by apply (reads_map _ (fun l => dec x :: l)).
Qed.

Lemma reads_aux_types l : Forall aux_ok l →
  reads (load_n load_aux_type (length l)) (mjoin ((fun x => le_bytes 4 (aux_type x) ++ TShape_Save (aux_shape x)) <$> l)) ((fun x => (aux_type x, aux_shape x)) <$> l).
Proof.
  intros Hl. apply reads_n. eapply Forall_impl; [done|]. intros x (n & Hs & Hn & ts & Ht & _). pose proof (sizeof_type _ _ Ht).
  destruct (reads_int (aux_type x)) as (t & Hr & Et); [lia|]. unfold load_aux_type. eapply reads_bind; [done|]. rewrite <- Et.
  apply (reads_map _ (fun s => (i32 t, s))). rewrite Hs. apply reads_shape; [|done]. by apply Forall_singleton.
Qed.

Section load.
Context (uninit : Z → list Z).
Hypothesis uninit_size : ∀ n, 0 ≤ n → length (uninit n) = Z.to_nat n.

(** The store with one more chunk. *)
Definition add_chunk (s : store) (c : Chunk) : store := {| chunks := <[next_chunk s := c]> (chunks s); next_chunk := S (next_chunk s) |}.

Lemma put_add_chunk s c c' : put_chunk (next_chunk s) c' (add_chunk s c) = add_chunk s c'.
Proof. unfold put_chunk, add_chunk. cbn. by rewrite insert_insert_eq. Qed.

(** Memory for [bs], before and after they arrive. *)
Definition fresh_for (bs : list Z) : Handle :=
  if (0 <? length bs)%nat then {| dptr := Some (uninit (Z.of_nat (length bs))); h_size := Z.of_nat (length bs); h_ctx := CPU |} else no_handle.
Definition handle_of (bs : list Z) : Handle := {| dptr := Some bs; h_size := Z.of_nat (length bs); h_ctx := CPU |}.

Lemma memory_fresh bs : length (memory (fresh_for bs)) = length bs.
Proof.
  unfold fresh_for. destruct (Nat.ltb_spec 0 (length bs)); cbn; [rewrite uninit_size; lia|lia].
Qed.

Lemma fresh_fields bs : h_size (fresh_for bs) = Z.of_nat (length bs) ∧ h_ctx (fresh_for bs) = CPU.
Proof. unfold fresh_for. destruct (Nat.ltb_spec 0 (length bs)); cbn; [done|]. split; [lia|done]. Qed.

Lemma splice_all bs mem : length mem = length bs → splice 0 bs mem = bs.
Proof. intros H. unfold splice. cbn. rewrite drop_ge by lia. apply app_nil_r. Qed.

(** The chunk of a loaded array: data read or not, the first [i] auxiliary arrays read. *)
Definition loading (v : Value) (h : Handle) (i : nat) : Chunk := {|
  shandle := h;
  aux_handles := ((fun x => handle_of (aux_bytes x)) <$> take i (v_aux v)) ++ ((fun x => fresh_for (aux_bytes x)) <$> drop i (v_aux v));
  delay_alloc := false; storage_type := v_stype v; aux_types := aux_type <$> v_aux v; c_ctx := CPU;
  storage_shape := v_sshape v; aux_shapes := aux_shape <$> v_aux v |}.
Definition array_of (p : nat) (v : Value) : NDArray :=
  {| ptr_ := Some p; shape_ := v_shape v; byte_offset_ := 0; dtype_ := v_dtype v; reuse_ := false; storage_type_ := v_stype v |}.

Lemma bytes_of_ok shape type bs : shape_ok shape → fits (prod shape) type bs → bytes_of shape type = Ok (Z.of_nat (length bs)).
Proof.
  intros Hs Hf. unfold bytes_of. rewrite Size_ok by done. rstep. pose proof Hf as (ts & Ht & _). rewrite Ht. rstep.
  rewrite Z.mul_comm, (fits_bytes _ _ _ _ (proj1 (prod_le _ (proj1 Hs))) Hf Ht). done.
Qed.

Lemma shape_ok_1 n : 0 ≤ n < 2 ^ 63 → shape_ok [n] ∧ prod [n] = n.
Proof. intros. split; [split; [apply Forall_singleton; lia|]|]; cbn; lia. Qed.

(** *** Making the array *)
Lemma dense_run s v : value_ok v → v_stype v = kDefaultStorage →
  ∃ h, NDArray_dense uninit (v_shape v) CPU false (v_dtype v) s = Ok (array_of (next_chunk s) v, add_chunk s (loading v h 0)) ∧
    length (memory h) = length (v_data v) ∧ h_size h = Z.of_nat (length (v_data v)) ∧ h_ctx h = CPU.
Proof.
  intros [] Hd. rewrite Hd in *. cbn [num_aux_data Z.eqb kDefaultStorage] in *. injection value_stype0 as Haux. symmetry in Haux. apply nil_length_inv in Haux.
  exists {| dptr := Some (uninit (Z.of_nat (length (v_data v)))); h_size := Z.of_nat (length (v_data v)); h_ctx := CPU |}. split.
  - unfold NDArray_dense, new_dense. rewrite value_storage0 in value_data0. rewrite (bytes_of_ok _ _ (v_data v)) by done. rstep.
    cbn. unfold loading, array_of. rewrite Haux, Hd, value_storage0. done.
  - cbn. split; [|done]. rewrite uninit_size; lia.
Qed.

(** The chunk while the auxiliary arrays are being allocated. *)
Definition making (v : Value) (i : nat) : Chunk := {|
  shandle := {| dptr := None; h_size := 0; h_ctx := CPU |};
  aux_handles := (fun x => fresh_for (aux_bytes x)) <$> take i (v_aux v);
  delay_alloc := false; storage_type := v_stype v; aux_types := aux_type <$> v_aux v; c_ctx := CPU;
  storage_shape := v_sshape v; aux_shapes := aux_shape <$> v_aux v |}.

Lemma set_aux_shape_same v c i x : value_ok v → v_stype v =? kDefaultStorage = false → v_aux v !! i = Some x →
  aux_shapes c = aux_shape <$> v_aux v → storage_type c = v_stype v → storage_shape c = v_sshape v → set_aux_shape i (aux_shape x) c = Ok c.
Proof.
  intros [] Hn Hx Hs Ht Hss. unfold set_aux_shape. rewrite Hs. pose proof (lookup_lt_Some _ _ _ Hx) as Hi. rewrite wr_ok by (by rewrite length_fmap). rstep.
  rewrite list_insert_id by (by rewrite list_lookup_fmap, Hx). assert (set_aux_shapes (aux_shape <$> v_aux v) c = c) as -> by (destruct c; cbn in *; by subst).
  rewrite Hn in value_storage0. destruct value_storage0 as (y & n & Hy & Hny & Hsh). rewrite Hss, Ht, bool_decide_eq_false_2 by (rewrite Hsh; by destruct (v_stype v =? kCSRStorage)).
  destruct (_ || _) eqn:Eo; [|done]. assert (i = idx_of (v_stype v)) as ->.
  { unfold idx_of. destruct (v_stype v =? kCSRStorage) eqn:Ec; [|by destruct (v_stype v =? kRowSparseStorage), i].
    apply Z.eqb_eq in Ec. rewrite Ec in Eo. cbn in Eo. by apply Nat.eqb_eq in Eo. }
  rewrite Hx in Hy. injection Hy as ->. rewrite Hny. cbn [dim0 head of_option]. rstep. f_equal.
  assert (set_dim0 n (v_sshape v) = v_sshape v) as -> by (rewrite Hsh; by destruct (v_stype v =? kCSRStorage)). destruct c; cbn in *; by subst.
Qed.

Lemma alloc_aux v i x : value_ok v → v_stype v =? kDefaultStorage = false → v_aux v !! i = Some x →
  Chunk_CheckAndAllocAuxData uninit i (aux_shape x) (making v i) = Ok (making v (S i)).
Proof.
  intros Hv Hn Hx. pose proof (lookup_lt_Some _ _ _ Hx) as Hi. pose proof (Forall_lookup_1 _ _ _ _ (value_aux _ Hv) Hx) as (n & Hs & Hr & Hf).
  destruct (shape_ok_1 n Hr) as [Hok Hp]. unfold Chunk_CheckAndAllocAuxData. cbn [storage_type making aux_handles aux_types c_ctx].
  rewrite check_bind_ok by (by rewrite Hs). rewrite check_bind_ok.
  2:{ pose proof (value_stype _ Hv) as E. destruct (Z.eqb_spec (v_stype v) kUndefinedStorage) as [E'|]; [|done]. by rewrite E' in E. }
  rewrite check_bind_ok by (by rewrite Hn). rewrite (length_fmap _ (take i (v_aux v))), length_take, Nat.min_l, (proj2 (Nat.leb_le i i)) by lia.
  set (hs := (fun x => fresh_for (aux_bytes x)) <$> take i (v_aux v)). assert (length hs = i) as Hl by (unfold hs; rewrite length_fmap, length_take; lia).
  rewrite (rd_ok _ _ (aux_type x)) by (cbn; by rewrite list_lookup_fmap, Hx). rstep. rewrite (bytes_of_ok _ _ (aux_bytes x)); [|by rewrite Hs|by rewrite Hs, Hp].
  rstep. cbn [set_aux_handles aux_handles]. rewrite resize_ge by lia. rewrite Hl. replace (S i - i)%nat with 1%nat by lia. cbn [replicate].
  rewrite (rd_ok _ _ no_handle) by (by rewrite lookup_app_r, Hl, Nat.sub_diag by lia). rstep. cbn [h_size no_handle].
  set (c' := making v (S i)). assert (aux_handles c' = hs ++ [fresh_for (aux_bytes x)]) as Hc'.
  { unfold c', making, hs. cbn [aux_handles]. by rewrite (take_S_r _ _ _ Hx), fmap_app. }
  assert (c' = set_aux_handles (hs ++ [fresh_for (aux_bytes x)]) (making v i)) as Hset by (by rewrite <- Hc').
  match goal with |- (?m ≫= _) = _ => assert (m = Ok c') as -> end.
  { clear Hc'. unfold fresh_for in Hset. destruct (Z.ltb_spec 0 (Z.of_nat (length (aux_bytes x)))), (Nat.ltb_spec 0 (length (aux_bytes x))); try lia.
    - cbn [Alloc]. unfold Alloc. cbn [dev_mask CPU]. cbn. rewrite wr_ok by (rewrite length_app, Hl; cbn; lia). cbn [mbind result_bind].
      f_equal. rewrite insert_app_r_alt, Hl, Nat.sub_diag by lia. rewrite Hset. done.
    - by rewrite Hset. }
  rstep. by apply (set_aux_shape_same v).
Qed.

Lemma new_sparse_run v : value_ok v → v_stype v =? kDefaultStorage = false →
  new_sparse uninit (v_stype v) (v_sshape v) CPU false (v_dtype v) (aux_type <$> v_aux v) (aux_shape <$> v_aux v) = Ok (loading v (fresh_for (v_data v)) 0).
Proof.
  intros Hv Hn. unfold new_sparse. change {| shandle := _ |} with (making v 0). rewrite length_fmap.
  rewrite (for_range_trace (making v) _ _ _ _ (making v (length (v_aux v)))); [|lia|done|done|].
  - rstep. cbn [storage_shape making]. unfold Chunk_CheckAndAllocData. cbn [aux_shapes making shandle h_size c_ctx].
    rewrite check_bind_ok. 2:{ pose proof (value_storage _ Hv) as E. rewrite Hn in E. destruct E as (y & n & Hy & _). rewrite length_fmap. by destruct (v_aux v). }
    rewrite (bytes_of_ok _ _ (v_data v)) by apply Hv. rstep. unfold fresh_for at 1.
    destruct (Z.ltb_spec 0 (Z.of_nat (length (v_data v)))), (Nat.ltb_spec 0 (length (v_data v))); try lia; cbn; unfold making, loading; by rewrite (firstn_all (v_aux v)).
  - intros i [_ Hi]. destruct (lookup_lt_is_Some_2 (v_aux v) i Hi) as [x Hx]. cbn [aux_shapes making].
    rewrite (rd_ok _ _ (aux_shape x)) by (by rewrite list_lookup_fmap, Hx). rstep. rewrite (alloc_aux v i x) by done. rstep. cbn [aux_handles making].
    assert (((fun x => fresh_for (aux_bytes x)) <$> take (S i) (v_aux v)) !! i = Some (fresh_for (aux_bytes x))) as Hh by (rewrite list_lookup_fmap, lookup_take_lt, Hx by lia; done).
    rewrite (rd_ok _ _ _ Hh). rstep. rewrite wr_ok by (by eapply lookup_lt_Some). rstep. destruct (fresh_fields (aux_bytes x)) as [_ Hctx]. rewrite <- Hctx.
    assert ({| dptr := dptr (fresh_for (aux_bytes x)); h_size := h_size (fresh_for (aux_bytes x)); h_ctx := h_ctx (fresh_for (aux_bytes x)) |} = fresh_for (aux_bytes x)) as -> by (by destruct (fresh_for (aux_bytes x))).
    rewrite list_insert_id by done. done.
Qed.

Lemma storage_run s v : value_ok v → v_stype v =? kDefaultStorage = false →
  NDArray_storage uninit (v_stype v) (v_shape v) CPU false (v_dtype v) (aux_type <$> v_aux v) (aux_shape <$> v_aux v) (v_sshape v) s =
  Ok (array_of (next_chunk s) v, add_chunk s (loading v (fresh_for (v_data v)) 0)).
Proof.
  intros Hv Hn. unfold NDArray_storage. pose proof (value_storage _ Hv) as E. rewrite Hn in E. destruct E as (y & n & Hy & Hny & Hsh).
  rewrite (lift_bind _ _ (aux_type <$> v_aux v, aux_shape <$> v_aux v, v_sshape v)).
  - rewrite Hn. rewrite (lift_bind _ _ _ _ (new_sparse_run v Hv Hn)). done.
  - unfold sparse_defaults. rewrite !bool_decide_eq_false_2 by (by destruct (v_aux v)). cbn [andb mbind result_bind].
    rewrite Size_ok by apply (value_sshape _ Hv). rstep. destruct (prod (v_sshape v) =? 0); [|done]. rewrite Hn. cbn [andb negb].
    pose proof (value_stype _ Hv) as E. unfold num_aux_data in E. rewrite Hn in E. unfold idx_of in Hy.
    destruct (v_stype v =? kCSRStorage) eqn:Ec.
    + apply Z.eqb_eq in Ec. rewrite Ec. cbn [Z.eqb kRowSparseStorage kCSRStorage Pos.eqb]. rewrite (rd_ok _ _ [n]); [rstep; by rewrite Hsh|by rewrite list_lookup_fmap, Hy, <- Hny].
    + destruct (v_stype v =? kRowSparseStorage); [|done]. rewrite (rd_ok _ _ [n]) by (by rewrite list_lookup_fmap, Hy, <- Hny). rstep. cbn [dim0 head of_option]. rstep.
      pose proof (value_dims _ Hv) as Hd. rewrite Hsh. by destruct (v_shape v).
Qed.

(** *** Filling it *)
Lemma loading_chunk {B} s v c (k : nat → Chunk → st store B) :
  (p ← the_ptr (array_of (next_chunk s) v); c ← get_chunk p; k p c) (add_chunk s c) = k (next_chunk s) c (add_chunk s c).
Proof. apply (st_bind_Ok (get_chunk (next_chunk s))). unfold get_chunk. cbn. by rewrite lookup_insert_eq. Qed.

Lemma loading_data s v h : value_ok v → ∃ blob,
  data uninit (array_of (next_chunk s) v) (add_chunk s (loading v h 0)) = Ok (blob, add_chunk s (loading v h 0)) ∧ b_shape blob = v_sshape v.
Proof.
  intros Hv. unfold data. rewrite loading_chunk. cbn [storage_type_ array_of byte_offset_].
  rewrite (lift_bind _ _ (loading v h 0)) by (by destruct (v_stype v =? kDefaultStorage)). rewrite modify_bind, put_add_chunk.
  pose proof (value_storage _ Hv) as Hs. pose proof (value_stype _ Hv) as Ht. unfold num_aux_data in Ht. destruct (v_stype v =? kDefaultStorage); [by eexists|].
  destruct (v_stype v =? kCSRStorage); [by eexists|]. destruct (v_stype v =? kRowSparseStorage); [by eexists|done].
Qed.

Lemma fill_data_run s v h : length (memory h) = length (v_data v) → h_size h = Z.of_nat (length (v_data v)) → h_ctx h = CPU →
  fill_data (array_of (next_chunk s) v) (v_data v) (add_chunk s (loading v h 0)) = Ok (tt, add_chunk s (loading v (handle_of (v_data v)) 0)).
Proof.
  intros Hl Hsz Hc. unfold fill_data. rewrite loading_chunk. cbn [shandle loading]. rewrite Hl, Nat.ltb_irrefl, splice_all, Hsz, Hc by done.
  unfold modify. by rewrite put_add_chunk.
Qed.

Lemma load_aux_run s v h i x rest : value_ok v → v_stype v =? kDefaultStorage = false → v_aux v !! i = Some x →
  load_aux_data (array_of (next_chunk s) v) i (add_chunk s (loading v h i), aux_bytes x ++ rest) = Ok (Some tt, (add_chunk s (loading v h (S i)), rest)).
Proof.
  intros Hv Hn Hx. pose proof (lookup_lt_Some _ _ _ Hx) as Hi. pose proof (Forall_lookup_1 _ _ _ _ (value_aux _ Hv) Hx) as (n & Hs & Hr & Hf).
  pose proof Hf as (ts & Ht & _). destruct (shape_ok_1 n Hr) as [Hok Hp].
  set (done := (fun x => handle_of (aux_bytes x)) <$> take i (v_aux v)). assert (length done = i) as Hl by (unfold done; rewrite length_fmap, length_take; lia).
  assert (aux_handles (loading v h i) = done ++ fresh_for (aux_bytes x) :: ((fun x => fresh_for (aux_bytes x)) <$> drop (S i) (v_aux v))) as Hh.
  { unfold loading. cbn [aux_handles]. fold done. by rewrite (drop_S _ _ _ Hx), fmap_cons. }
  assert (aux_handles (loading v h i) !! i = Some (fresh_for (aux_bytes x))) as Hhi by (rewrite Hh, lookup_app_r, Hl, Nat.sub_diag by lia; done).
  unfold load_aux_data. set (blob := {| b_memory := memory (fresh_for (aux_bytes x)); b_offset := 0; b_shape := aux_shape x; b_type := aux_type x |}).
  rewrite (arrays_step _ _ _ _ blob (add_chunk s (loading v h i))).
  2:{ unfold aux_data. cbn [storage_type_ array_of]. rewrite ensure_bind by (by rewrite Hn). rewrite loading_chunk. cbn [aux_shapes aux_types loading].
      rewrite (lift_bind _ _ (aux_shape x)) by (apply rd_ok; by rewrite list_lookup_fmap, Hx). rewrite (lift_bind _ _ (aux_type x)) by (apply rd_ok; by rewrite list_lookup_fmap, Hx).
      rewrite (lift_bind _ _ ts) by done. rewrite (lift_bind _ _ (fresh_for (aux_bytes x))) by (by apply rd_ok). rewrite ensure_bind; [done|].
      pose proof (value_stype _ Hv) as E. unfold num_aux_data in E. rewrite Hn in E. destruct (v_stype v =? kCSRStorage); [by rewrite orb_true_r|]. by destruct (v_stype v =? kRowSparseStorage). }
  cbn [b_type b_shape blob]. rewrite (lifted_step _ _ _ _ _ Ht), Hs, (lifted_step _ _ _ _ _ (Size_ok _ Hok)), Hp.
  rewrite (fits_bytes n (aux_type x) (aux_bytes x) ts) by (done || lia). rewrite (loader_step _ _ _ _ _ (reads_read (aux_bytes x) _ rest)).
  unfold on_arrays, fill_aux. rewrite loading_chunk. rewrite (lift_bind _ _ (fresh_for (aux_bytes x))) by (by apply rd_ok).
  rewrite memory_fresh, Nat.ltb_irrefl, splice_all by apply memory_fresh. destruct (fresh_fields (aux_bytes x)) as [-> ->].
  rewrite (lift_bind _ _ (<[i:=handle_of (aux_bytes x)]> (aux_handles (loading v h i)))) by (apply wr_ok; by eapply lookup_lt_Some).
  unfold modify. rewrite put_add_chunk. do 4 f_equal. rewrite Hh, insert_app_r_alt, Hl, Nat.sub_diag by lia. cbn [insert list_insert].
  change (loading v h (S i)) with (set_aux_handles (aux_handles (loading v h (S i))) (loading v h i)). f_equal. unfold loading. cbn [aux_handles].
  rewrite (take_S_r _ _ _ Hx), fmap_app. fold done. by rewrite <- (assoc_L (++)).
Qed.

Lemma load_each_run s v h rest : value_ok v → v_stype v =? kDefaultStorage = false → ∀ k i, (i + k)%nat = length (v_aux v) →
  load_each (load_aux_data (array_of (next_chunk s) v)) (seq i k) (add_chunk s (loading v h i), mjoin (aux_bytes <$> drop i (v_aux v)) ++ rest) =
  Ok (Some tt, (add_chunk s (loading v h (length (v_aux v))), rest)).
Proof.
  intros Hv Hn. induction k as [|k IH]; intros i Hi; [rewrite drop_ge, Nat.add_0_r in * by lia; by subst|].
  destruct (lookup_lt_is_Some_2 (v_aux v) i ltac:(lia)) as [x Hx]. cbn [seq load_each]. rewrite (drop_S _ _ _ Hx), fmap_cons.
  change (mjoin (?a :: ?b)) with (a ++ mjoin b). rewrite <- (assoc_L (++)). rewrite (loader_step _ _ _ _ _ (load_aux_run s v h i x _ Hv Hn Hx)).
  apply IH. lia.
Qed.

(** *** The whole array *)
Definition loaded (v : Value) : Chunk := loading v (handle_of (v_data v)) (length (v_aux v)).

Lemma stype_range v : value_ok v → 0 ≤ v_stype v ≤ 2.
Proof.
  intros Hv. pose proof (value_stype _ Hv) as E. unfold num_aux_data in E.
  destruct (Z.eqb_spec (v_stype v) kDefaultStorage) as [->|]; [done|]. destruct (Z.eqb_spec (v_stype v) kCSRStorage) as [->|]; [done|].
  destruct (Z.eqb_spec (v_stype v) kRowSparseStorage) as [->|]; [done|done].
Qed.

Lemma reads_sshape v : value_ok v →
  reads (if (0 <? length (v_aux v))%nat then TShape_Load else mret []) (if (0 <? length (v_aux v))%nat then TShape_Save (v_sshape v) else [])
    (if (0 <? length (v_aux v))%nat then v_sshape v else []).
Proof.
  intros Hv. destruct (0 <? length (v_aux v))%nat eqn:El; [|apply reads_ret]. apply reads_shape; [apply shape_ok_dims, Hv|].
  pose proof (value_ndim _ Hv). pose proof (value_dims _ Hv). pose proof (value_storage _ Hv) as Hs. destruct (v_stype v =? kDefaultStorage); [by rewrite Hs|].
  destruct Hs as (x & n & _ & _ & ->). destruct (v_stype v =? kCSRStorage); [done|]. destruct (v_shape v); [done|]. cbn in *. lia.
Qed.

Lemma make_run s v : value_ok v → ∃ h,
  (if (length (v_aux v) =? 0)%nat then NDArray_dense uninit (v_shape v) CPU false (v_dtype v)
   else NDArray_storage uninit (v_stype v) (v_shape v) CPU false (v_dtype v) (aux_type <$> v_aux v) (aux_shape <$> v_aux v)
          (if (0 <? length (v_aux v))%nat then v_sshape v else [])) s =
  Ok (array_of (next_chunk s) v, add_chunk s (loading v h 0)) ∧
  length (memory h) = length (v_data v) ∧ h_size h = Z.of_nat (length (v_data v)) ∧ h_ctx h = CPU.
Proof.
  intros Hv. destruct (v_stype v =? kDefaultStorage) eqn:Ed.
  - apply Z.eqb_eq in Ed. pose proof (value_stype _ Hv) as E. rewrite Ed in E. injection E as <-. by apply dense_run.
  - pose proof (value_storage _ Hv) as E. rewrite Ed in E. destruct E as (x & n & Hx & _). exists (fresh_for (v_data v)).
    assert (0 < length (v_aux v))%nat as Hl by (apply lookup_lt_Some in Hx; lia). rewrite (proj2 (Nat.eqb_neq _ _)), (proj2 (Nat.ltb_lt _ _)) by lia.
    split; [by apply storage_run|]. split; [apply memory_fresh|]. apply fresh_fields.
Qed.

Lemma Load_run s ctx v rest : value_ok v → - 2 ^ 31 ≤ dev_type ctx < 2 ^ 31 → - 2 ^ 31 ≤ dev_id ctx < 2 ^ 31 →
  Load uninit (s, encode ctx v ++ rest) = Ok (Some (array_of (next_chunk s) v), (add_chunk s (loaded v), rest)).
Proof.
  intros Hv Hc1 Hc2. unfold encode, Load. rewrite <- !(assoc_L (++)). rewrite (loader_step _ _ _ _ _ (reads_word 4 _ s _)). cbn [negb].
  change (NDARRAY_V2_MAGIC mod 256 ^ Z.of_nat 4 =? NDARRAY_V2_MAGIC) with true. cbn [negb].
  destruct (reads_int (v_stype v)) as (t & Ht & Et); [pose proof (stype_range _ Hv); lia|]. rewrite (loader_step _ _ _ _ _ (Ht s _)), Et.
  rewrite (lifted_step _ _ _ _ _ (value_stype _ Hv)).
  rewrite (loader_step _ _ _ _ _ (reads_sshape v Hv s _)).
  rewrite (loader_step _ _ _ _ _ (reads_shape (v_shape v) (shape_ok_dims _ (value_shape _ Hv)) (value_ndim _ Hv) s _)).
  rewrite bool_decide_eq_false_2 by apply Hv. rewrite (loader_step _ _ _ _ _ (reads_context ctx Hc1 Hc2 s _)).
  destruct (value_data _ Hv) as (ts & Hts & Hf). pose proof (sizeof_type _ _ Hts). destruct (reads_int (v_dtype v)) as (d & Hd & Edt); [lia|].
  rewrite (loader_step _ _ _ _ _ (Hd s _)), Edt. rewrite (loader_step _ _ _ _ _ (reads_aux_types _ (value_aux _ Hv) s _)).
  rewrite <- !list_fmap_compose. change (fst ∘ (fun x => (aux_type x, aux_shape x))) with aux_type. change (snd ∘ (fun x => (aux_type x, aux_shape x))) with aux_shape.
  destruct (make_run s v Hv) as (h & Em & Hl & Hsz & Hctx). rewrite (arrays_step _ _ _ _ _ _ Em).
  destruct (loading_data s v h Hv) as (blob & Ebl & Hsh). rewrite (arrays_step _ _ _ _ _ _ Ebl), (lifted_step _ _ _ _ _ Hts), Hsh.
  rewrite (lifted_step _ _ _ _ _ (Size_ok _ (value_sshape _ Hv))).
  rewrite (fits_bytes (prod (v_sshape v)) (v_dtype v) (v_data v) ts); [|apply (prod_le _ (proj1 (value_sshape _ Hv)))|by exists ts|done].
  rewrite (loader_step _ _ _ _ _ (reads_read (v_data v) _ _)).
  rewrite (arrays_step _ _ _ _ _ _ (fill_data_run s v h Hl Hsz Hctx)).
  rewrite (loader_step _ _ _ tt (add_chunk s (loaded v), rest)); [done|]. destruct (v_stype v =? kDefaultStorage) eqn:Ed.
  - apply Z.eqb_eq in Ed. pose proof (value_stype _ Hv) as E. rewrite Ed in E. injection E as Ea. symmetry in Ea. apply nil_length_inv in Ea. unfold loaded. rewrite Ea. done.
  - rewrite <- (drop_0 (v_aux v)) at 2. by apply load_each_run.
Qed.

Lemma loaded_value s v : value_ok v → has_value (add_chunk s (loaded v)) (array_of (next_chunk s) v) (next_chunk s) (loaded v) v.
Proof.
  intros Hv. constructor; try done.
  - cbn. by rewrite lookup_insert_eq.
  - cbn. destruct (v_stype v =? kDefaultStorage); (split; [done|]); [split; [lia|]; by rewrite drop_0|]. split; [done|]. by unfold backs.
  - intros _. cbn. rewrite take_ge, drop_ge by lia. cbn. rewrite app_nil_r. apply Forall2_fmap_l, Forall_Forall2_diag, Forall_forall. intros x _. unfold backs. cbn. done.
Qed.

End load.

(** ** Lists of arrays *)
Section lists.
Context (uninit : Z → list Z).
Hypothesis uninit_size : ∀ n, 0 ≤ n → length (uninit n) = Z.to_nat n.

Definition ctx_ok (ctx : Context) : Prop := - 2 ^ 31 ≤ dev_type ctx < 2 ^ 31 ∧ - 2 ^ 31 ≤ dev_id ctx < 2 ^ 31.

(** An array that can be saved, and its value. *)
Definition savable (s : store) (a : NDArray) (v : Value) : Prop :=
  value_ok v ∧ ∃ p c, has_value s a p c v ∧ ctx_ok (h_ctx (shandle c)).

Fixpoint add_all (s : store) (vs : list Value) : store :=
  match vs with [] => s | v :: vs => add_all (add_chunk s (loaded uninit v)) vs end.

Fixpoint arrays_from (p : nat) (vs : list Value) : list NDArray :=
  match vs with [] => [] | v :: vs => array_of p v :: arrays_from (S p) vs end.

Lemma load_all (l : list (Context * Value)) rest : Forall (fun x => ctx_ok x.1 ∧ value_ok x.2) l → ∀ s,
  load_n (Load uninit) (length l) (s, mjoin ((fun x => encode x.1 x.2) <$> l) ++ rest) = Ok (Some (arrays_from (next_chunk s) l.*2), (add_all s l.*2, rest)).
Proof.
  induction 1 as [|[ctx v] l [[Hc1 Hc2] Hv] _ IH]; intros s; [done|]. cbn [length load_n]. rewrite !fmap_cons. change (mjoin (?a :: ?b)) with (a ++ mjoin b).
  rewrite <- (assoc_L (++)). cbn [fst snd] in *. rewrite (loader_step _ _ _ _ _ (Load_run uninit uninit_size s ctx v _ Hv Hc1 Hc2)). by rewrite (loader_step _ _ _ _ _ (IH _)).
Qed.

Lemma add_all_old vs : ∀ s p, (p < next_chunk s)%nat → chunks (add_all s vs) !! p = chunks s !! p.
Proof.
  induction vs as [|v vs IH]; intros s p Hp; [done|]. cbn [add_all]. rewrite IH by (cbn; lia). cbn. rewrite lookup_insert_ne by lia. done.
Qed.

Lemma add_all_values vs : Forall value_ok vs → ∀ s,
  Forall2 (fun a v => ∃ p c, has_value (add_all s vs) a p c v ∧ h_ctx (shandle c) = CPU) (arrays_from (next_chunk s) vs) vs.
Proof.
  induction 1 as [|v vs Hv _ IH]; intros s; [done|]. cbn [arrays_from add_all]. apply Forall2_cons. split; [|apply (IH (add_chunk s (loaded uninit v)))].
  exists (next_chunk s), (loaded uninit v). split; [|done]. destruct (loaded_value uninit s v Hv). constructor; try done.
  rewrite add_all_old by (cbn; lia). cbn. by rewrite lookup_insert_eq.
Qed.

Lemma arrays_from_ptr vs : ∀ p a, a ∈ arrays_from p vs → ∃ q, ptr_ a = Some q ∧ (p ≤ q)%nat.
Proof.
  induction vs as [|v vs IH]; intros p a Ha; cbn in Ha; [by apply not_elem_of_nil in Ha|]. apply elem_of_cons in Ha as [->|Ha]; [by exists p|].
  destruct (IH _ _ Ha) as (q & ? & ?). exists q. split; [done|lia].
Qed.

Lemma arrays_from_nodup vs : ∀ p, NoDup (ptr_ <$> arrays_from p vs).
Proof.
  induction vs as [|v vs IH]; intros p; cbn; constructor; [|apply IH]. intros (a & E & Ha)%list_elem_of_fmap.
  destruct (arrays_from_ptr _ _ _ Ha) as (q & E' & ?). rewrite E' in E. injection E as ->. lia.
Qed.

Lemma save_all s : ∀ arrays vs acc, Forall2 (savable s) arrays vs → ∃ l : list (Context * Value), l.*2 = vs ∧ Forall (fun x => ctx_ok x.1 ∧ value_ok x.2) l ∧
  fold_st (fun acc a => b ← Save uninit a; mret (acc ++ b)) acc arrays s = Ok (acc ++ mjoin ((fun x => encode x.1 x.2) <$> l), s).
Proof.
  intros arrays vs acc H. revert acc. induction H as [|a v arrays vs (Hv & p & c & Ha & Hc) _ IH]; intros acc.
  - exists []. split; [done|]. split; [done|]. cbn. by rewrite app_nil_r.
  - destruct (IH (acc ++ encode (h_ctx (shandle c)) v)) as (l & <- & Hl & E). exists ((h_ctx (shandle c), v) :: l). split; [done|].
    split; [by apply Forall_cons|]. cbn [fold_st]. rewrite (st_bind_Ok _ _ _ (acc ++ encode (h_ctx (shandle c)) v) s).
    2:{ rewrite (st_bind_Ok _ _ _ _ _ (Save_run uninit s a p c v Hv Ha)). done. }
    rewrite E, fmap_cons. change (mjoin (?a :: ?b)) with (a ++ mjoin b). by rewrite <- (assoc_L (++)).
Qed.

Lemma must_ok {A B} (m : loader A) (f : A → loader B) s x s' : m s = Ok (Some x, s') → (must m ≫= f) s = f x s'.
Proof. intros H. apply loader_step. unfold must. by rewrite H. Qed.

Lemma reads_count {A} (n : nat) (m : Z → loader A) bs x : Z.of_nat n < 2 ^ 64 → ∀ s rest,
  m (Z.of_nat n) (s, bs) = Ok (Some x, rest) → (k ← read_word 8; m k) (s, le_bytes 8 (Z.of_nat n) ++ bs) = Ok (Some x, rest).
Proof.
  intros Hn s rest H. rewrite (loader_step _ _ _ _ _ (reads_word 8 _ s bs)). change (256 ^ Z.of_nat 8) with (2 ^ 64). by rewrite Z.mod_small by lia.
Qed.

Lemma reads_names names : Forall (fun n => Z.of_nat (length n) < 2 ^ 64) names → reads (load_n load_string (length names)) (mjoin (save_string <$> names)) names.
Proof.
  intros H. rewrite <- (list_fmap_id names) at 3. apply reads_n. eapply Forall_impl; [done|]. intros n Hn s rest. cbn beta in Hn. unfold save_string, load_string.
  rewrite <- (assoc_L (++)). apply reads_count; [done|]. apply reads_read.
Qed.

End lists.

(** C16: A file of arrays can be read back.  Saving a list of dense or sparse arrays, with names
    or without, succeeds and leaves the arrays alone; loading the file gives arrays with the
    same values (shape, type, storage type, contents, auxiliary arrays) on the CPU, each with
    memory of its own, and the names, and leaves what follows in the stream. *)
Theorem array_file_roundtrip uninit s arrays vs names rest s0 :
  (∀ n, 0 ≤ n → length (uninit n) = Z.to_nat n) →
  Forall2 (savable s) arrays vs → names = [] ∨ length names = length arrays →
  Forall (fun n => Z.of_nat (length n) < 2 ^ 64) names → Z.of_nat (length arrays) < 2 ^ 64 →
  ∃ bs arrays' s', SaveList uninit arrays names s = Ok (bs, s) ∧
    LoadList uninit (s0, bs ++ rest) = Ok (Some (arrays', names), (s', rest)) ∧
    Forall2 (fun a v => ∃ p c, has_value s' a p c v ∧ h_ctx (shandle c) = CPU) arrays' vs ∧
    NoDup (ptr_ <$> arrays') ∧ ∀ p, (p < next_chunk s0)%nat → chunks s' !! p = chunks s0 !! p.
Proof.
  intros Hun Ha Hn Hnl Hal. destruct (save_all uninit s arrays vs [] Ha) as (l & <- & Hl & E).
  assert (length l = length arrays) as Hlen by (apply Forall2_length in Ha; by rewrite length_fmap in Ha).
  eexists _, (arrays_from (next_chunk s0) l.*2), (add_all uninit s0 l.*2). split; [unfold SaveList; by rewrite (st_bind_Ok _ _ _ _ _ E)|]. split.
  - unfold LoadList. rewrite <- !(assoc_L (++)). rewrite (must_ok _ _ _ _ _ (reads_word 8 _ s0 _)), (must_ok _ _ _ _ _ (reads_word 8 _ s0 _)).
    rewrite (arrays_step _ _ _ _ tt s0) by done. cbn [app]. erewrite must_ok.
    2:{ apply reads_count; [done|]. rewrite Nat2Z.id, <- Hlen. by apply load_all. }
    erewrite must_ok; [|apply reads_count; [destruct Hn as [->| ->]; [done|done]|]; rewrite Nat2Z.id; by apply reads_names].
    rewrite (arrays_step _ _ _ _ tt (add_all uninit s0 l.*2)); [done|]. unfold ensure, lift, check.
    assert (length (arrays_from (next_chunk s0) l.*2) = length arrays) as ->.
    { rewrite <- Hlen. clear. generalize (next_chunk s0). induction l as [|x l IH]; intros p; cbn; [done|]. by rewrite IH. }
    destruct Hn as [->| ->]; [done|]. by rewrite Nat.eqb_refl, orb_true_r.
  - split; [|split; [apply arrays_from_nodup|intros p Hp; by apply add_all_old]]. apply add_all_values. apply Forall_fmap.
    eapply Forall_impl; [done|]. by intros x [_ ?].
Qed.

(** A dense array of bytes, the second row of a larger one, and a row-sparse array with two of
    its four rows stored. *)
Definition w_rsp_chunk : Chunk := {|
  shandle := handle_of [7; 8; 9; 9]; aux_handles := [handle_of (le_bytes 8 0 ++ le_bytes 8 3 ++ le_bytes 8 5)];
  delay_alloc := false; storage_type := kRowSparseStorage; aux_types := [kInt64]; c_ctx := CPU; storage_shape := [2; 1]; aux_shapes := [[2]] |}.
Definition w_file_store : store := {| chunks := <[1%nat := w_rsp_chunk]> {[0%nat := w_chunk]}; next_chunk := 2 |}.
Definition w_row : NDArray :=
  {| ptr_ := Some 0%nat; shape_ := [2]; byte_offset_ := 2; dtype_ := 3; reuse_ := false; storage_type_ := kDefaultStorage |}.
Definition w_rsp : NDArray :=
  {| ptr_ := Some 1%nat; shape_ := [4; 1]; byte_offset_ := 0; dtype_ := 5; reuse_ := false; storage_type_ := kRowSparseStorage |}.
Definition w_row_value : Value :=
  {| v_stype := kDefaultStorage; v_shape := [2]; v_dtype := 3; v_sshape := [2]; v_data := [3; 4]; v_aux := [] |}.
Definition w_rsp_value : Value :=
  {| v_stype := kRowSparseStorage; v_shape := [4; 1]; v_dtype := 5; v_sshape := [2; 1]; v_data := [7; 8];
     v_aux := [(kInt64, [2], le_bytes 8 0 ++ le_bytes 8 3)] |}.

Ltac shape_known := split; [repeat (apply Forall_cons; split; [done|]); by apply Forall_nil|done].

Lemma w_row_savable : savable w_file_store w_row w_row_value.
Proof.
  split; [constructor; try done; try shape_known; by exists 1|]. exists 0%nat, w_chunk. split; [|by split; split].
  constructor; try done. split; [done|]. split; [done|]. by exists [5; 6].
Qed.

Lemma w_rsp_savable : savable w_file_store w_rsp w_rsp_value.
Proof.
  split.
  - constructor; try done; try shape_known; [by exists 1| |].
    + apply Forall_singleton. exists 2. split; [done|]. split; [done|]. by exists 8.
    + exists (kInt64, [2], le_bytes 8 0 ++ le_bytes 8 3), 2. done.
  - exists 1%nat, w_rsp_chunk. split; [|by split; split]. constructor; try done.
    + split; [done|]. split; [done|]. by exists [9; 9].
    + intros _. apply Forall2_cons. split; [by exists (le_bytes 8 5)|]. by apply Forall2_nil.
Qed.

Lemma array_file_roundtrip_witness : ∃ bs arrays' s',
  SaveList (fun n => replicate (Z.to_nat n) 0) [w_row; w_rsp] [[97]; [98; 99]] w_file_store = Ok (bs, w_file_store) ∧
  LoadList (fun n => replicate (Z.to_nat n) 0) (store_empty, bs ++ []) = Ok (Some (arrays', [[97]; [98; 99]]), (s', [])) ∧
  Forall2 (fun a v => ∃ p c, has_value s' a p c v ∧ h_ctx (shandle c) = CPU) arrays' [w_row_value; w_rsp_value].
Proof.
  destruct (array_file_roundtrip (fun n => replicate (Z.to_nat n) 0) w_file_store [w_row; w_rsp] [w_row_value; w_rsp_value] [[97]; [98; 99]] [] store_empty)
    as (bs & arrays' & s' & E1 & E2 & Hv & _).
  - intros n _. apply length_replicate.
  - apply Forall2_cons. split; [exact w_row_savable|]. apply Forall2_cons. split; [exact w_rsp_savable|]. by apply Forall2_nil.
  - by right.
  - apply Forall_cons; split; [done|]. apply Forall_cons; split; [done|]. by apply Forall_nil.
  - done.
  - exists bs, arrays', s'. split; [exact E1|]. split; [exact E2|]. exact Hv.
Defined.

(** An array without dimensions has one element, and saving it writes that element, but
    [Load] takes the empty shape for an array that is none and leaves the context, the type
    and the element in the stream, where the next array of a list is expected. *)
Definition w_scalar_store : store := {| chunks := {[0%nat :=
  {| shandle := handle_of [42]; aux_handles := []; delay_alloc := false; storage_type := kDefaultStorage; aux_types := [];
     c_ctx := CPU; storage_shape := []; aux_shapes := [] |}]}; next_chunk := 1 |}.
Definition w_scalar : NDArray :=
  {| ptr_ := Some 0%nat; shape_ := []; byte_offset_ := 0; dtype_ := 3; reuse_ := false; storage_type_ := kDefaultStorage |}.

Lemma scalar_not_loaded uninit : ∃ bs bs', Save uninit w_scalar w_scalar_store = Ok (bs, w_scalar_store) ∧
  Load uninit (store_empty, bs) = Ok (Some NDArray_none, (store_empty, le_bytes 4 kCPU ++ le_bytes 4 0 ++ le_bytes 4 3 ++ [42])) ∧
  SaveList uninit [w_scalar; w_scalar] [] w_scalar_store = Ok (bs', w_scalar_store) ∧
  LoadList uninit (store_empty, bs') = Err (CheckFailed "Unknown type enum").
Proof. eexists _, _. split; [by vm_compute|]. split; [by vm_compute|]. split; [by vm_compute|]. by vm_compute. Qed.
