(* ===== verification/ArrayLoadSafe.v ===== *)
(** * Loading arbitrary bytes

    [NDArray::Load] of src/src/ndarray/ndarray.cc on a stream that need not come from [Save]:
    whatever the bytes, it does not access memory outside the arrays it makes. *)

From S2P Require Import Prelude Blob ArrayFile.
Local Open Scope Z_scope.

(** The error of a load is a failed check, an overflow of a product of dimensions, or the
    first dimension of a shape that has none. *)
Definition benign (e : error) : Prop :=
  match e with
  | CheckFailed _ => True
  | Undefined w => w = "signed overflow"%string ∨ w = "first of no dimensions"%string
  | Blocked _ => False
  end.

Definition safe {A} (r : result A) (Q : A → Prop) : Prop := match r with Ok a => Q a | Err e => benign e end.
Definition safe_load {A} (P : store → Prop) (m : loader A) (Q : A → store → Prop) : Prop := ∀ s strm, P s →
  match m (s, strm) with Ok (Some a, (s', _)) => Q a s' | Ok (None, _) => True | Err e => benign e end.

Lemma safe_bind {A B} (m : result A) (f : A → result B) P Q : safe m P → (∀ a, P a → safe (f a) Q) → safe (m ≫= f) Q.
Proof. destruct m as [a|e]; [|done]. intros Ha Hf. by apply Hf. Qed.

Lemma safe_check {B} b msg (k : result B) Q : (b = true → safe k Q) → safe (check b msg;; k) Q.
Proof. destruct b; cbn; [auto|done]. Qed.

Lemma safe_impl {A} (m : result A) (P Q : A → Prop) : safe m P → (∀ a, P a → Q a) → safe m Q.
Proof. destruct m; cbn; auto. Qed.

Lemma load_bind {A B} P R (m : loader A) (f : A → loader B) Q : safe_load P m R → (∀ a, safe_load (R a) (f a) Q) → safe_load P (m ≫= f) Q.
Proof.
  intros Hm Hf s strm Hs. specialize (Hm s strm Hs). unfold mbind, loader_bind. destruct (m (s, strm)) as [[[a|] [s' strm']]|e]; [|done|done]. by apply Hf.
Qed.

Lemma load_ret {A} P (a : A) : safe_load P (mret a) (fun b s => b = a ∧ P s).
Proof. by intros s strm Hs. Qed.

Lemma load_weaken {A} P (m : loader A) (Q R : A → store → Prop) : safe_load P m Q → (∀ a s, Q a s → R a s) → safe_load P m R.
Proof. intros H HR s strm Hs. specialize (H s strm Hs). destruct (m (s, strm)) as [[[a|] [s' ?]]|e]; auto. Qed.

Lemma load_read P n : safe_load P (read n) (fun bs s => P s ∧ Z.of_nat (length bs) = n).
Proof.
  intros s strm Hs. unfold read. destruct (Z.leb_spec 0 n), (Z.leb_spec n (Z.of_nat (length strm))); cbn; try done. split; [done|].
  rewrite length_take. lia.
Qed.

Lemma load_word P n : safe_load P (read_word n) (fun _ => P).
Proof. eapply load_bind; [apply load_read|]. intros bs s strm [Hs _]. done. Qed.

Lemma load_shape P : safe_load P TShape_Load (fun _ => P).
Proof. eapply load_bind; [apply load_word|]. intros n. eapply load_bind; [apply load_read|]. intros bs s strm [Hs _]. done. Qed.

Lemma load_context P : safe_load P Context_Load (fun _ => P).
Proof. eapply load_bind; [apply load_word|]. intros t. eapply load_bind; [apply load_word|]. intros i s strm Hs. done. Qed.

(** A failing computation that does not change the arrays. *)
Lemma load_lift {A} P (r : result A) Q : safe r Q → safe_load P (on_arrays (lift r)) (fun a s => P s ∧ Q a).
Proof. intros Hr s strm Hs. unfold on_arrays, lift. by destruct r. Qed.

Lemma load_many {A} P (m : loader A) : safe_load P m (fun _ => P) → ∀ n, safe_load P (load_n m n) (fun l s => P s ∧ length l = n).
Proof.
  intros Hm. induction n as [|n IH]; [by intros s strm Hs|]. cbn [load_n]. eapply load_bind; [done|]. intros x. eapply load_bind; [done|].
  intros l s strm [Hs Hl]. cbn. by rewrite Hl.
Qed.

Section safety.
Context (uninit : Z → list Z).
Hypothesis uninit_size : ∀ n, 0 ≤ n → length (uninit n) = Z.to_nat n.

Lemma safe_Size shape : safe (Size shape) (fun n => Size shape = Ok n ∧ 0 ≤ n < 2 ^ 64).
Proof.
  assert (∀ acc, safe (foldM (fun size d => dim_range (size * d)) acc shape) (fun _ => True)) as H.
  { induction shape as [|d l IH]; intros acc; [done|]. cbn [foldM]. eapply (safe_bind _ _ (fun _ => True)); [|intros; apply IH].
    unfold dim_range. case_match; [done|]. by left. }
  unfold Size. specialize (H 1). destruct (foldM _ 1 shape); cbn in *; [|done]. split; [done|apply u64_range].
Qed.

Lemma safe_sizeof type : safe (mshadow_sizeof type) (fun ts => mshadow_sizeof type = Ok ts).
Proof.
  destruct (mshadow_sizeof type) as [ts|e] eqn:E; [done|]. unfold mshadow_sizeof in E.
  destruct type as [|p|p]; [done| |by injection E as <-]. destruct p as [[[]|[]|]|[[]|[]|]|]; try done; by injection E as <-.
Qed.

Lemma safe_bytes shape type : safe (bytes_of shape type) (fun n => bytes_of shape type = Ok n ∧ 0 ≤ n).
Proof.
  destruct (bytes_of shape type) as [n|e] eqn:E.
  - split; [done|]. unfold bytes_of in E. rinv E. injection E as <-. apply u64_range.
  - cbn. pose proof (safe_Size shape) as H1. pose proof (safe_sizeof type) as H2. unfold bytes_of in E. destruct (Size shape); cbn in *; [|by injection E as <-].
    destruct (mshadow_sizeof type); cbn in *; [done|by injection E as <-].
Qed.

(** The bytes a blob of that shape and type is read into fit into the memory. *)
Definition covers (h : Handle) (shape : TShape) (type : Z) : Prop := ∃ n, bytes_of shape type = Ok n ∧ n ≤ Z.of_nat (length (memory h)).

Lemma covers_count h shape type size ts : covers h shape type → Size shape = Ok size → mshadow_sizeof type = Ok ts →
  u64 (ts * size) ≤ Z.of_nat (length (memory h)).
Proof. intros (n & E & Hn) E1 E2. unfold bytes_of in E. rewrite E1, E2 in E. injection E as <-. by rewrite Z.mul_comm. Qed.

Lemma safe_alloc n : 0 ≤ n → ∃ h, Alloc uninit n CPU = Ok h ∧ h_size h = n ∧ length (memory h) = Z.to_nat n.
Proof. intros Hn. eexists. split; [done|]. split; [done|]. cbn. by apply uninit_size. Qed.

(** *** Chunks under construction *)
Record built (types : list Z) (shapes : list TShape) (i : nat) (c : Chunk) : Prop := {
  built_types : aux_types c = types;
  built_shapes : aux_shapes c = shapes;
  built_ctx : c_ctx c = CPU;
  built_handle : shandle c = {| dptr := None; h_size := 0; h_ctx := CPU |};
  built_count : length (aux_handles c) = i;
  built_aux : ∀ j h shape type, aux_handles c !! j = Some h → shapes !! j = Some shape → types !! j = Some type → covers h shape type
}.

Lemma safe_set_aux_shape types shapes i c shape : built types shapes (S i) c → shapes !! i = Some shape → length shape = 1%nat →
  safe (set_aux_shape i shape c) (built types shapes (S i)).
Proof.
  intros Hb Hs Hl. destruct Hb. unfold set_aux_shape. rewrite built_shapes0. rewrite wr_ok by (by eapply lookup_lt_Some). rstep.
  rewrite list_insert_id by done. destruct shape as [|d []]; try done. case_bool_decide; [by constructor|]. case_match; by constructor.
Qed.

Lemma safe_alloc_aux types shapes i c shape : built types shapes i c → shapes !! i = Some shape → length types = length shapes →
  safe (Chunk_CheckAndAllocAuxData uninit i shape c) (built types shapes (S i)).
Proof.
  intros Hb Hs Hlen. unfold Chunk_CheckAndAllocAuxData. apply safe_check. intros Hl%Nat.eqb_eq. apply safe_check. intros _. apply safe_check. intros _.
  destruct (lookup_lt_is_Some_2 types i) as [type Ht]; [rewrite Hlen; by eapply lookup_lt_Some|].
  destruct Hb. rewrite built_count0, (proj2 (Nat.leb_le i i)) by lia. change (aux_types (set_aux_handles ?l c)) with (aux_types c). change (aux_handles (set_aux_handles ?l c)) with l. rewrite built_types0. rewrite (rd_ok _ _ _ Ht). rstep.
  eapply safe_bind; [apply safe_bytes|]. intros n [Hn Hn0]. change (aux_handles (set_aux_handles ?l c)) with l. rewrite resize_ge by lia. replace (S i - length (aux_handles c))%nat with 1%nat by lia. cbn [replicate].
  rewrite (rd_ok _ _ no_handle) by (by rewrite lookup_app_r, built_count0, Nat.sub_diag by lia). rstep. cbn [h_size no_handle].
  match goal with |- safe (?m ≫= _) _ => assert (∃ h, m = Ok (set_aux_handles (aux_handles c ++ [h]) c) ∧ covers h shape type) as (h & -> & Hh) end.
  { destruct (Z.ltb_spec 0 n).
    - destruct (safe_alloc n Hn0) as (h & E & Hsz & Hm). exists h. change (c_ctx (set_aux_handles ?l c)) with (c_ctx c). rewrite built_ctx0, E. rstep. rewrite wr_ok by (rewrite length_app; cbn; lia). rstep.
      rewrite insert_app_r_alt, built_count0, Nat.sub_diag by lia. split; [by destruct c|]. exists n. split; [done|lia].
    - exists no_handle. split; [by destruct c|]. exists n. split; [done|]. cbn. lia. }
  rstep. apply safe_set_aux_shape; [|done|done]. constructor; try done; cbn [aux_handles set_aux_handles].
  - rewrite length_app, built_count0. cbn. lia.
  - intros j h' shape' type' Hj Hs' Ht'. apply lookup_app_Some in Hj as [Hj|[Hj1 Hj2]]; [by eapply built_aux0|].
    apply list_lookup_singleton_Some in Hj2 as [Hj2 <-]. assert (j = i) as -> by lia. rewrite Hs in Hs'. rewrite Ht in Ht'. injection Hs' as <-. by injection Ht' as <-.
Qed.

(** A finished chunk: the memory has room for what its shapes say. *)
Definition finished (shape : TShape) (dtype : Z) (nad : nat) (c : Chunk) : Prop :=
  delay_alloc c = false ∧ covers (shandle c) shape dtype ∧ length (aux_shapes c) = nad ∧
  ∀ i aux, aux_shapes c !! i = Some aux → ∃ type h, aux_types c !! i = Some type ∧ aux_handles c !! i = Some h ∧ covers h aux type.

Lemma safe_dense shape dtype : safe (new_dense uninit shape CPU false dtype) (finished shape dtype 0).
Proof.
  unfold new_dense. eapply safe_bind; [apply safe_bytes|]. intros n [Hn Hn0]. cbn. split; [done|]. split; [|done]. exists n. split; [done|]. cbn. rewrite uninit_size; lia.
Qed.

Lemma safe_loop {A} (P : nat → A → Prop) body n a : P 0%nat a → (∀ i a, (i < n)%nat → P i a → safe (body i a) (P (S i))) → safe (for_range 0 n body a) (P n).
Proof.
  intros H0 Hs. unfold for_range. rewrite Nat.sub_0_r. assert (∀ k i a, (i + k)%nat = n → P i a → safe (for_count i k body a) (P n)) as H; [|by apply H].
  induction k as [|k IH]; intros i a' Hi Ha; cbn; [by replace n with i by lia|]. eapply safe_bind; [apply Hs; [lia|done]|]. intros b Hb. apply IH; [lia|done].
Qed.

Lemma safe_sparse stype sshape dtype types shapes : length types = length shapes →
  safe (new_sparse uninit stype sshape CPU false dtype types shapes) (fun c => finished (storage_shape c) dtype (length shapes) c).
Proof.
  intros Hlen. unfold new_sparse. eapply safe_bind.
  - apply (safe_loop (built types shapes)); [by constructor|]. intros i c Hi Hb. destruct (lookup_lt_is_Some_2 shapes i Hi) as [shape Hs].
    rewrite (rd_ok _ _ shape) by (by rewrite (built_shapes _ _ _ _ Hb)). rstep. eapply safe_bind; [by eapply safe_alloc_aux|]. intros c' []. 
    destruct (lookup_lt_is_Some_2 (aux_handles c') i) as [h Hh]; [lia|]. rewrite (rd_ok _ _ _ Hh). rstep. rewrite wr_ok by lia. rstep. cbn. constructor; try done.
    + cbn. by rewrite length_insert.
    + cbn. intros j h' shape' type' Hj Hs' Ht'. apply list_lookup_insert_Some in Hj as [(-> & <- & _)|[_ Hj]]; [|by eapply built_aux0].
      destruct (built_aux0 _ _ _ _ Hh Hs' Ht') as (n & ? & ?). by exists n.
  - intros c []. cbn beta. unfold Chunk_CheckAndAllocData. apply safe_check. intros _. eapply safe_bind; [apply safe_bytes|]. intros n [Hn Hn0]. rewrite built_handle0, built_ctx0.
    cbn [h_size]. match goal with |- safe (?m ≫= _) _ => assert (∃ h, m = Ok (set_shandle h c) ∧ n ≤ Z.of_nat (length (memory h))) as (h & -> & Hm) end.
    { destruct (Z.ltb_spec 0 n); [|exists (shandle c); split; [by destruct c|lia]]. destruct (safe_alloc n Hn0) as (h & -> & _ & Hm). exists h. split; [done|lia]. }
    unfold mbind, result_bind, safe, finished, set_delay_alloc, set_storage_shape, set_shandle. cbn. split; [done|]. split; [by exists n|]. rewrite built_shapes0. split; [done|]. intros i aux Hi. pose proof (lookup_lt_Some _ _ _ Hi) as Hl.
    destruct (lookup_lt_is_Some_2 types i) as [type Ht]; [lia|]. destruct (lookup_lt_is_Some_2 (aux_handles c) i) as [h' Hh]; [lia|].
    exists type, h'. split; [by rewrite built_types0|]. split; [done|]. by eapply built_aux0.
Qed.

(** *** Arrays *)
Record in_memory (nad : nat) (a : NDArray) (p : nat) (c : Chunk) (s : store) : Prop := {
  im_ptr : ptr_ a = Some p;
  im_chunk : chunks s !! p = Some c;
  im_offset : byte_offset_ a = 0;
  im_stype : num_aux_data (storage_type_ a) = Ok nad;
  im_chunk_ok : finished (if storage_type_ a =? kDefaultStorage then shape_ a else storage_shape c) (dtype_ a) nad c
}.
Definition array_in_memory (nad : nat) (a : NDArray) (s : store) : Prop := ∃ p c, in_memory nad a p c s.

Lemma sparse_type stype nad : num_aux_data stype = Ok nad → stype =? kDefaultStorage = false → (stype =? kRowSparseStorage) || (stype =? kCSRStorage) = true ∧ (0 < nad)%nat.
Proof.
  unfold num_aux_data. intros E Hn. rewrite Hn in E. destruct (stype =? kCSRStorage); [injection E as <-; rewrite orb_true_r; split; [done|lia]|].
  destruct (stype =? kRowSparseStorage); [injection E as <-; split; [done|lia]|done].
Qed.

Lemma safe_defaults stype shape types shapes sshape nad : num_aux_data stype = Ok nad → stype =? kDefaultStorage = false → length types = nad → length shapes = nad →
  safe (sparse_defaults stype shape types shapes sshape) (fun d => d.1.1 = types ∧ d.1.2 = shapes).
Proof.
  intros E Hn Ht Hs. destruct (sparse_type _ _ E Hn) as [_ Hp]. unfold sparse_defaults. rewrite !bool_decide_eq_false_2 by (intros ->; cbn in *; lia). cbn [andb mbind result_bind].
  eapply safe_bind; [apply safe_Size|]. intros n _. eapply (safe_bind _ _ (fun _ => True)); [|done]. destruct (n =? 0); [|done]. rewrite Hn. cbn [andb negb].
  unfold num_aux_data in E. rewrite Hn in E. destruct (stype =? kRowSparseStorage) eqn:Er.
  - destruct shapes as [|[|d l] shapes]; [cbn in Hs; lia|by right|]. cbn. destruct shape; [by right|done].
  - destruct (stype =? kCSRStorage); [|done]. injection E as <-. by destruct shapes as [|? [|? ?]].
Qed.

Lemma load_make P stype shape dtype types shapes sshape nad : num_aux_data stype = Ok nad → length types = nad → length shapes = nad →
  safe_load P (on_arrays (if (nad =? 0)%nat then NDArray_dense uninit shape CPU false dtype
                          else NDArray_storage uninit stype shape CPU false dtype types shapes sshape))
    (fun a s => array_in_memory nad a s ∧ dtype_ a = dtype ∧ shape_ a = shape ∧ storage_type_ a = stype).
Proof.
  intros E Ht Hs s strm _. destruct (stype =? kDefaultStorage) eqn:Ed.
  - apply Z.eqb_eq in Ed. rewrite Ed in E. injection E as <-. cbn [Nat.eqb]. unfold on_arrays, NDArray_dense. pose proof (safe_dense shape dtype) as H.
    unfold lift, mbind, st_bind. destruct (new_dense uninit shape CPU false dtype) as [c|e]; [|done]. cbn. split; [|done]. exists (next_chunk s), c. constructor; try done. cbn. by rewrite lookup_insert_eq.
  - destruct (sparse_type _ _ E Ed) as [_ Hp]. rewrite (proj2 (Nat.eqb_neq _ _)) by lia. unfold on_arrays, NDArray_storage.
    pose proof (safe_defaults stype shape types shapes sshape nad E Ed Ht Hs) as Hd. unfold lift at 1, mbind, st_bind.
    destruct (sparse_defaults _ _ _ _ _) as [[[types' shapes'] sshape']|e]; [|done]. destruct Hd as [Hd1 Hd2]. cbn [fst snd] in Hd1, Hd2. subst types' shapes'. rewrite Ed.
    pose proof (safe_sparse stype sshape' dtype types shapes ltac:(lia)) as H. unfold lift. destruct (new_sparse _ _ _ _ _ _ _ _) as [c|e]; [|done]. cbn.
    split; [|done]. exists (next_chunk s), c. constructor; try done; [cbn; by rewrite lookup_insert_eq|]. cbn [storage_type_ dtype_]. rewrite Ed, <- Hs. exact H.
Qed.

(** The blob of the contents has room for the bytes that are read. *)
Lemma load_data nad a : safe_load (array_in_memory nad a) (on_arrays (data uninit a))
  (fun blob s => ∃ p c, in_memory nad a p c s ∧ covers (shandle c) (b_shape blob) (dtype_ a) ∧ (nad = 0%nat → b_shape blob = shape_ a)).
Proof.
  intros s strm (p & c & Hm). pose proof Hm as []. destruct im_chunk_ok0 as (Hd & Hcov & _). unfold on_arrays, data, the_ptr. rewrite (lift_bind _ _ p) by (by rewrite im_ptr0).
  rewrite (st_bind_Ok _ _ _ c s) by (unfold get_chunk; by rewrite im_chunk0). destruct (storage_type_ a =? kDefaultStorage) eqn:Ed.
  - unfold Chunk_CheckAndAlloc. rewrite Hd, (lift_bind _ _ c), modify_bind, put_chunk_id by done. cbn. exists p, c. done.
  - rewrite (lift_bind _ _ c), modify_bind, put_chunk_id by done. destruct (sparse_type _ _ im_stype0 Ed) as [Hs _]. rewrite orb_comm, Hs, ensure_bind by (by rewrite im_offset0).
    cbn. exists p, c. split; [done|]. split; [done|]. intros ->. destruct (sparse_type _ _ im_stype0 Ed). lia.
Qed.

Lemma load_fill nad a p c bs : Z.of_nat (length bs) ≤ Z.of_nat (length (memory (shandle c))) →
  safe_load (in_memory nad a p c) (on_arrays (fill_data a bs)) (fun _ => array_in_memory nad a).
Proof.
  intros Hl s strm []. unfold on_arrays, fill_data, the_ptr. rewrite (lift_bind _ _ p) by (by rewrite im_ptr0). rewrite (st_bind_Ok _ _ _ c s) by (unfold get_chunk; by rewrite im_chunk0).
  rewrite (proj2 (Nat.ltb_ge _ _)) by lia. cbn. eexists p, _. constructor; [done|apply lookup_insert_eq|done|done|].
  destruct im_chunk_ok0 as (Hd & (n & Hn & Hle) & Hr). split; [done|]. split; [|done]. exists n. cbn [storage_shape shandle set_shandle] in *. split; [done|]. cbn. by rewrite length_splice by (cbn; lia).
Qed.

Lemma load_aux_blob nad a p c i : storage_type_ a =? kDefaultStorage = false → (i < nad)%nat →
  safe_load (in_memory nad a p c) (on_arrays (aux_data i a)) (fun blob s => in_memory nad a p c s ∧
    ∃ h, aux_handles c !! i = Some h ∧ covers h (b_shape blob) (b_type blob)).
Proof.
  intros Hn Hi s strm Hm. pose proof Hm as []. destruct im_chunk_ok0 as (Hd & Hcov & Hlen & Hall). destruct (lookup_lt_is_Some_2 (aux_shapes c) i) as [shape Hs]; [lia|].
  destruct (Hall i shape Hs) as (type & h & Ht & Hh & Hc). unfold on_arrays, aux_data. rewrite ensure_bind by (by rewrite Hn). unfold the_ptr.
  rewrite (lift_bind _ _ p) by (by rewrite im_ptr0). rewrite (st_bind_Ok _ _ _ c s) by (unfold get_chunk; by rewrite im_chunk0).
  rewrite (lift_bind _ _ shape) by (by apply rd_ok). rewrite (lift_bind _ _ type) by (by apply rd_ok).
  pose proof Hc as (n & E & _). unfold bytes_of in E. rinv E. rewrite (lift_bind _ _ _ _ Ha0). rewrite (lift_bind _ _ h) by (by apply rd_ok).
  destruct (sparse_type _ _ im_stype0 Hn) as [Hty _]. rewrite ensure_bind by done. cbn. split; [done|]. by exists h.
Qed.

Lemma load_fill_aux nad a p c i h bs : aux_handles c !! i = Some h → Z.of_nat (length bs) ≤ Z.of_nat (length (memory h)) →
  safe_load (in_memory nad a p c) (on_arrays (fill_aux i a bs)) (fun _ => array_in_memory nad a).
Proof.
  intros Hh Hl s strm []. destruct im_chunk_ok0 as (Hd & Hcov & Hlen & Hall). unfold on_arrays, fill_aux, the_ptr.
  rewrite (lift_bind _ _ p) by (by rewrite im_ptr0). rewrite (st_bind_Ok _ _ _ c s) by (unfold get_chunk; by rewrite im_chunk0).
  rewrite (lift_bind _ _ h) by (by apply rd_ok). rewrite (proj2 (Nat.ltb_ge _ _)) by lia. rewrite (lift_bind _ _ _ _ (wr_ok _ _ _ (lookup_lt_Some _ _ _ Hh))). cbn.
  eexists p, _. constructor; [done|apply lookup_insert_eq|done|done|]. split; [done|]. split; [done|]. split; [done|]. cbn. intros j shape' Hj.
  destruct (Hall j shape' Hj) as (type' & h' & Ht' & Hh' & Hc'). exists type'. destruct (decide (j = i)) as [->|Hne].
  - eexists. split; [done|]. split; [by rewrite list_lookup_insert_eq by (by eapply lookup_lt_Some)|]. rewrite Hh in Hh'. injection Hh' as <-. destruct Hc' as (m & Hm & Hml).
    exists m. split; [done|]. cbn. by rewrite length_splice by (cbn; lia).
  - exists h'. split; [done|]. split; [by rewrite list_lookup_insert_ne|done].
Qed.

(** Reading [n] elements of a type into memory that covers them. *)
Lemma load_counted {A} P h shape type (k : list Z → loader A) Q : covers h shape type →
  (∀ bs, Z.of_nat (length bs) ≤ Z.of_nat (length (memory h)) → safe_load P (k bs) Q) →
  safe_load P (ts ← on_arrays (lift (mshadow_sizeof type)); size ← on_arrays (lift (Size shape)); bs ← read (u64 (ts * size)); k bs) Q.
Proof.
  intros Hc Hk. eapply load_bind; [apply load_lift, safe_sizeof|]. intros ts. eapply load_bind; [apply load_lift, safe_Size|]. intros size.
  eapply load_bind; [apply load_read|]. intros bs s strm [[[HP Hts] [Hsz _]] Hbs]. apply Hk; [|done]. rewrite Hbs. by apply (covers_count _ _ _ _ _ Hc).
Qed.

Lemma load_aux nad a i : storage_type_ a =? kDefaultStorage = false → (i < nad)%nat →
  safe_load (array_in_memory nad a) (load_aux_data a i) (fun _ => array_in_memory nad a).
Proof.
  intros Hn Hi s strm (p & c & Hm). revert s strm Hm. change (safe_load (in_memory nad a p c) (load_aux_data a i) (fun _ => array_in_memory nad a)).
  eapply load_bind; [by apply load_aux_blob|]. intros blob s strm (Hm & h & Hh & Hc). revert s strm Hm.
  apply (load_counted (in_memory nad a p c) h); [done|]. intros bs Hbs. by apply (load_fill_aux nad a p c i h).
Qed.

Lemma load_each_aux nad a : storage_type_ a =? kDefaultStorage = false → ∀ l, Forall (fun i => (i < nad)%nat) l →
  safe_load (array_in_memory nad a) (load_each (load_aux_data a) l) (fun _ => array_in_memory nad a).
Proof.
  intros Hn. induction 1 as [|i l Hi _ IH]; [by intros s strm Hs|]. cbn [load_each]. eapply load_bind; [by apply load_aux|]. intros []. done.
Qed.

(** The part of [Load] from the blob of the contents on. *)
Lemma load_contents {A} nad a (k : loader A) Q : safe_load (array_in_memory nad a) k Q → safe_load (array_in_memory nad a)
  (blob ← on_arrays (data uninit a); ts ← on_arrays (lift (mshadow_sizeof (dtype_ a))); size ← on_arrays (lift (Size (b_shape blob)));
   bs ← read (u64 (ts * size)); on_arrays (fill_data a bs);; k) Q.
Proof.
  intros Hk. eapply load_bind; [apply load_data|]. intros blob s strm (p & c & Hm & Hc & _). revert s strm Hm.
  apply (load_counted (in_memory nad a p c) (shandle c)); [done|]. intros bs Hbs. eapply load_bind; [by apply (load_fill nad a p c)|]. by intros [].
Qed.

(** The array a load returns: none, or one whose memory has room for its contents. *)
Definition good_array (a : NDArray) (s : store) : Prop := a = NDArray_none ∨ ∃ nad, array_in_memory nad a s.

Lemma load_legacy magic : safe_load (fun _ => True) (LegacyLoad uninit magic) good_array.
Proof.
  unfold LegacyLoad. eapply (load_bind _ (fun _ _ => True)).
  { unfold LegacyTShapeLoad. destruct (magic =? NDARRAY_V1_MAGIC); [apply load_shape|]. eapply load_bind; [apply load_read|]. by intros bs s strm _. }
  intros shape. case_bool_decide; [intros s strm _; by left|]. eapply load_bind; [apply load_context|]. intros ctx. eapply load_bind; [apply load_word|]. intros type.
  eapply load_bind; [apply (load_make _ kDefaultStorage shape (i32 type) [] [] [] 0); done|]. intros a s strm (Hm & Hd & Hs & Hst). rewrite <- Hd, <- Hs. revert s strm Hm.
  eapply load_bind; [apply load_data|]. intros blob s strm (p & c & Hm & Hc & Hb). rewrite <- Hb by done. revert s strm Hm.
  apply (load_counted (in_memory 0 a p c) (shandle c)); [done|]. intros bs Hbs. eapply load_bind; [by apply (load_fill 0 a p c)|].
  intros [] s strm Hm. cbn. right. by exists 0%nat.
Qed.

Lemma load_array : safe_load (fun _ => True) (Load uninit) good_array.
Proof.
  unfold Load. eapply load_bind; [apply load_word|]. intros magic. destruct (negb _); [apply load_legacy|]. eapply load_bind; [apply load_word|]. intros stype.
  eapply (load_bind _ (fun nad s => True ∧ num_aux_data (i32 stype) = Ok nad)).
  { apply load_lift. unfold num_aux_data. repeat (case_match; [done|]). done. }
  intros nad. eapply (load_bind _ (fun _ s => num_aux_data (i32 stype) = Ok nad)).
  { destruct (0 <? nad)%nat; intros s strm [_ H]; [|done]. revert s strm H. apply load_shape. }
  intros sshape. eapply load_bind; [apply load_shape|]. intros shape. case_bool_decide; [intros s strm _; by left|].
  eapply load_bind; [apply load_context|]. intros ctx. eapply load_bind; [apply load_word|]. intros type. eapply load_bind.
  { apply load_many. unfold load_aux_type. eapply load_bind; [apply load_word|]. intros t. eapply load_bind; [apply load_shape|]. by intros sh s strm Hs. }
  intros aux s strm [Hn Hl]. assert (True) as H' by done. revert s strm H'. change (safe_load (fun _ => True)
    (temp ← on_arrays (if (nad =? 0)%nat then NDArray_dense uninit shape CPU false (i32 type) else NDArray_storage uninit (i32 stype) shape CPU false (i32 type) aux.*1 aux.*2 sshape);
     blob ← on_arrays (data uninit temp); ts ← on_arrays (lift (mshadow_sizeof (i32 type))); size ← on_arrays (lift (Size (b_shape blob)));
     bs ← read (u64 (ts * size)); on_arrays (fill_data temp bs);; load_each (load_aux_data temp) (seq 0 nad);; mret temp) good_array).
  eapply load_bind; [apply (load_make _ (i32 stype) shape (i32 type) aux.*1 aux.*2 sshape nad); [done|by rewrite length_fmap|by rewrite length_fmap]|].
  intros a s strm (Hm & Hd & Hs & Hst). rewrite <- Hd. revert s strm Hm. apply load_contents. eapply (load_bind _ (fun _ => array_in_memory nad a)).
  - destruct (i32 stype =? kDefaultStorage) eqn:Ed.
    + apply Z.eqb_eq in Ed. rewrite Ed in Hn. injection Hn as <-. by intros s strm Hm.
    + apply load_each_aux; [by rewrite Hst|]. apply Forall_forall. intros i Hi%elem_of_seq. lia.
  - intros [] s strm Hm. right. by exists nad.
Qed.

Lemma load_must {A} P (m : loader A) Q : safe_load P m Q → safe_load P (must m) Q.
Proof. intros H s strm Hs. specialize (H s strm Hs). unfold must. by destruct (m (s, strm)) as [[[a|] [s' strm']]|e]. Qed.

Lemma load_list : safe_load (fun _ => True) (LoadList uninit) (fun _ _ => True).
Proof.
  unfold LoadList. eapply load_bind; [apply load_must, load_word|]. intros header. eapply load_bind; [apply load_must, load_word|]. intros reserved.
  eapply (load_bind _ (fun _ _ => True)); [intros s strm _; by destruct (header =? kMXAPINDArrayListMagic)|]. intros _.
  eapply (load_bind _ (fun _ _ => True)).
  { apply load_must. eapply load_bind; [apply load_word|]. intros n. eapply load_weaken; [apply load_many; eapply load_weaken; [apply load_array|done]|done]. }
  intros arrays. eapply (load_bind _ (fun _ _ => True)).
  { apply load_must. eapply load_bind; [apply load_word|]. intros n. eapply load_weaken; [apply load_many|done].
    eapply load_bind; [apply load_word|]. intros k. eapply load_weaken; [apply load_read|done]. }
  intros keys. eapply (load_bind _ (fun _ _ => True)); [|by intros [] s strm _]. intros s strm _. unfold on_arrays, ensure, lift, check. by destruct (_ || _).
Qed.

End safety.

(** C15: Loading is memory safe on any input.  Whatever the bytes of the stream, [NDArray::Load]
    and the loader of lists do not read or write outside the memory they allocate: they
    return an array whose memory has room for its contents and auxiliary arrays, report a
    truncated stream, fail a check, or overflow the product of the dimensions in the file, or
    take the first dimension of an index array that has none. *)
Theorem load_memory_safe uninit s strm : (∀ n, 0 ≤ n → length (uninit n) = Z.to_nat n) →
  match Load uninit (s, strm) with Ok (Some a, (s', _)) => good_array a s' | Ok (None, _) => True | Err e => benign e end ∧
  match LoadList uninit (s, strm) with Ok _ => True | Err e => benign e end.
Proof.
  intros Hun. split; [by apply load_array|]. pose proof (load_list uninit Hun s strm I) as H. by destruct (LoadList uninit (s, strm)) as [[[a|] [s' ?]]|e].
Qed.

(** A sparse array whose index array has no dimensions. *)
Definition w_bad_file : list Z :=
  le_bytes 4 NDARRAY_V2_MAGIC ++ le_bytes 4 kRowSparseStorage ++ TShape_Save [0] ++ TShape_Save [4] ++ Context_Save CPU ++ le_bytes 4 3 ++
  le_bytes 4 kInt64 ++ TShape_Save [].

Lemma load_memory_safe_witness : Load (fun n => replicate (Z.to_nat n) 0) (store_empty, w_bad_file) = Err (Undefined "first of no dimensions"%string) ∧
  benign (Undefined "first of no dimensions"%string).
Proof.
  destruct (load_memory_safe (fun n => replicate (Z.to_nat n) 0) store_empty w_bad_file) as [H _]; [intros n _; apply length_replicate|].
  split; [vm_compute; reflexivity|]. vm_compute in H. vm_compute. exact H.
Defined.
