(* ===== verification/RecordIO.v ===== *)
(** * RecordIO files

    Training data is stored in RecordIO files: src/3rdparty/dmlc-core/src/recordio.cc and
    include/dmlc/recordio.h.  A record is written behind a magic number and a word with its
    length, padded to four bytes; where the magic number occurs in the data, the record is cut
    there into several parts, so that readers can look for the start of a record anywhere in a
    file.  Contents are bytes, words are little-endian; the stream of a writer is what it has
    written, the stream of a reader what it has not read yet. *)

From S2P Require Import Prelude.
Local Open Scope Z_scope.

(** ** The format *)
Definition kMagic : Z := 0xced7230a.
Definition magic : list Z := le_bytes 4 kMagic.

Definition EncodeLRec (cflag length : Z) : Z := Z.lor (u32 (Z.shiftl cflag 29)) length.
Definition DecodeFlag (rec : Z) : Z := Z.land (Z.shiftr rec 29) 7.
Definition DecodeLength (rec : Z) : Z := Z.land rec (2 ^ 29 - 1).

(** [((n + 3U) >> 2U) << 2U] *)
Definition upper_align (n : nat) : nat := ((n + 3) / 4 * 4)%nat.

(** ** Writing *)
Definition WriteRecord (buf : list Z) : result (list Z * nat) :=
  let len := length buf in
  check (Z.of_nat len <? 2 ^ 29) "RecordIO only accept record less than 2^29 bytes";;
  s ← for_range 0 (len / 4) (fun w '(out, dptr, except_counter) =>
        let i := (4 * w)%nat in
        if bool_decide (take 4 (drop i buf) = magic) then
          let lrec := EncodeLRec (if (dptr =? 0)%nat then 1 else 2) (Z.of_nat (i - dptr)) in
          Ok (out ++ magic ++ le_bytes 4 lrec ++ take (i - dptr) (drop dptr buf), (i + 4)%nat, S except_counter)
        else Ok (out, dptr, except_counter)) ([], 0%nat, 0%nat);
  let '(out, dptr, except_counter) := s in
  let lrec := EncodeLRec (if negb (dptr =? 0)%nat then 3 else 0) (Z.of_nat (len - dptr)) in
  Ok (out ++ magic ++ le_bytes 4 lrec ++ drop dptr buf ++ replicate (upper_align len - len) 0, except_counter).

(** The writer: several records into one stream. *)
Fixpoint write_records (rs : list (list Z)) : result (list Z) :=
  match rs with
  | [] => Ok []
  | r :: rs => w ← WriteRecord r; bs ← write_records rs; Ok (w.1 ++ bs)
  end.

(** ** Reading a stream *)
Record RecordIOReader := { stream_ : list Z; end_of_stream_ : bool }.

(** The loop of NextRecord; [None] when the stream ends. *)
Fixpoint next_record (fuel : nat) (strm rec : list Z) : result (option (list Z) * RecordIOReader) :=
  match fuel with
  | O => Err (Blocked "reading parts of a record")
  | S fuel =>
      let header := take 8 strm in
      let strm := drop 8 strm in
      if (length header =? 0)%nat then Ok (None, {| stream_ := strm; end_of_stream_ := true |}) else
      check (length header =? 8)%nat "Inavlid RecordIO File";;
      check (le_word (take 4 header) =? kMagic) "Invalid RecordIO File";;
      let cflag := DecodeFlag (le_word (drop 4 header)) in
      let len := Z.to_nat (DecodeLength (le_word (drop 4 header))) in
      let data := take (upper_align len) strm in
      check (length data =? upper_align len)%nat "Invalid RecordIO File upper_align";;
      let strm := drop (upper_align len) strm in
      let rec := rec ++ take len data in
      if (cflag =? 0) || (cflag =? 3) then Ok (Some rec, {| stream_ := strm; end_of_stream_ := false |})
      else next_record fuel strm (rec ++ magic)
  end.

(** Every part of a record takes at least eight bytes. *)
Definition NextRecord (r : RecordIOReader) : result (option (list Z) * RecordIOReader) :=
  if end_of_stream_ r then Ok (None, r) else next_record (S (length (stream_ r))) (stream_ r) [].

Fixpoint read_records (fuel : nat) (r : RecordIOReader) : result (list (list Z)) :=
  match fuel with
  | O => Err (Blocked "reading records")
  | S fuel =>
      x ← NextRecord r;
      match x.1 with
      | Some rec => recs ← read_records fuel x.2; Ok (rec :: recs)
      | None => Ok []
      end
  end.
Definition read_file (bs : list Z) : result (list (list Z)) := read_records (S (length bs)) {| stream_ := bs; end_of_stream_ := false |}.

(** ** Reading parts of a chunk in memory *)
Definition word_at (m : list Z) (p : nat) : result Z :=
  if (p + 4 <=? length m)%nat then Ok (le_word (take 4 (drop p m))) else Err (Undefined "read out of range").

(** FindNextRecordIOHead, for an aligned chunk: the loop over the words [p] with
    [p + 1 < pend]. *)
Fixpoint find_head (fuel : nat) (m : list Z) (p end_ : nat) : result nat :=
  match fuel with
  | O => Err (Blocked "looking for a record")
  | S fuel =>
      if (p + 4 <? end_)%nat then
        w ← word_at m p;
        if w =? kMagic then
          w' ← word_at m (p + 4);
          if (DecodeFlag w' =? 0) || (DecodeFlag w' =? 1) then Ok p else find_head fuel m (p + 4) end_
        else find_head fuel m (p + 4) end_
      else Ok end_
  end.
Definition FindNextRecordIOHead (m : list Z) (begin end_ : nat) : result nat :=
  check (begin mod 4 =? 0)%nat "begin & 3 == 0";;
  check (end_ mod 4 =? 0)%nat "end & 3 == 0";;
  find_head (S (end_ - begin)) m begin end_.

Record RecordIOChunkReader := { chunk : list Z; pbegin_ : nat; pend_ : nat }.

Definition new_chunk_reader (m : list Z) (part_index num_parts : nat) : result RecordIOChunkReader :=
  if (num_parts =? 0)%nat then Err (Undefined "division by zero") else
  let size := length m in
  let nstep := upper_align ((size + num_parts - 1) / num_parts) in
  b ← FindNextRecordIOHead m (size `min` (nstep * part_index)) size;
  e ← FindNextRecordIOHead m (size `min` (nstep * (part_index + 1))) size;
  Ok {| chunk := m; pbegin_ := b; pend_ := e |}.

(** The parts of a record that was cut. *)
Fixpoint chunk_parts (fuel : nat) (m : list Z) (p pend : nat) (temp : list Z) : result (list Z * nat) :=
  match fuel with
  | O => Err (Blocked "reading parts of a record")
  | S fuel =>
      check (p + 8 <=? pend)%nat "pbegin_ + 2 * sizeof(uint32_t) <= pend_";;
      w ← word_at m p;
      check (w =? kMagic) "p[0] == kMagic";;
      w' ← word_at m (p + 4);
      let cflag := DecodeFlag w' in
      let clen := Z.to_nat (DecodeLength w') in
      if (length m <? p + 8 + clen)%nat then Err (Undefined "read out of range") else
      let temp := temp ++ take clen (drop (p + 8) m) in
      let p := (p + 8 + upper_align clen)%nat in
      if cflag =? 3 then Ok (temp, p) else chunk_parts fuel m p pend (temp ++ magic)
  end.

Definition NextChunkRecord (r : RecordIOChunkReader) : result (option (list Z) * RecordIOChunkReader) :=
  if (pend_ r <=? pbegin_ r)%nat then Ok (None, r) else
  w ← word_at (chunk r) (pbegin_ r);
  check (w =? kMagic) "p[0] == kMagic";;
  w' ← word_at (chunk r) (pbegin_ r + 4);
  let cflag := DecodeFlag w' in
  let clen := Z.to_nat (DecodeLength w') in
  if cflag =? 0 then
    let p := (pbegin_ r + 8 + upper_align clen)%nat in
    check (p <=? pend_ r)%nat "Invalid RecordIO Format";;
    Ok (Some (take clen (drop (pbegin_ r + 8) (chunk r))), {| chunk := chunk r; pbegin_ := p; pend_ := pend_ r |})
  else
    check (cflag =? 1) "Invalid RecordIO Format";;
    x ← chunk_parts (S (length (chunk r))) (chunk r) (pbegin_ r) (pend_ r) [];
    Ok (Some x.1, {| chunk := chunk r; pbegin_ := x.2; pend_ := pend_ r |}).

Fixpoint read_part (fuel : nat) (r : RecordIOChunkReader) : result (list (list Z)) :=
  match fuel with
  | O => Err (Blocked "reading records")
  | S fuel =>
      x ← NextChunkRecord r;
      match x.1 with
      | Some rec => recs ← read_part fuel x.2; Ok (rec :: recs)
      | None => Ok []
      end
  end.
Definition read_chunk_part (m : list Z) (part_index num_parts : nat) : result (list (list Z)) :=
  r ← new_chunk_reader m part_index num_parts; read_part (S (length m)) r.

(** ** The words of the format *)
Lemma lrec_sum f n : 0 ≤ f ≤ 3 → 0 ≤ n < 2 ^ 29 → DecodeFlag (EncodeLRec f n) = f ∧ DecodeLength (EncodeLRec f n) = n ∧ 0 ≤ EncodeLRec f n < 2 ^ 31.
Proof.
  intros Hf Hn. unfold EncodeLRec, DecodeFlag, DecodeLength. assert (u32 (Z.shiftl f 29) = Z.shiftl f 29) as -> by (rewrite u32_id; [done|rewrite Z.shiftl_mul_pow2 by lia; lia]).
  change (2 ^ 29 - 1) with (Z.ones 29). change 7 with (Z.ones 3). rewrite !Z.land_ones by lia. rewrite Z.shiftr_lor, Z.shiftr_shiftl_l by lia. rewrite Z.sub_diag, Z.shiftl_0_r.
  rewrite (Z.shiftr_div_pow2 n 29), (Z.div_small n) by lia. rewrite Z.lor_0_r, (Z.mod_small f) by lia. split; [done|].
  assert (Z.lor (Z.shiftl f 29) n mod 2 ^ 29 = n) as Hm.
  { rewrite <- Z.land_ones, Z.land_lor_distr_l, !Z.land_ones by lia. rewrite Z.shiftl_mul_pow2, Z.mod_mul by lia. cbn. by rewrite Z.mod_small by lia. }
  split; [done|]. assert (Z.lor (Z.shiftl f 29) n / 2 ^ 29 = f) as Hd by (rewrite <- Z.shiftr_div_pow2, Z.shiftr_lor, Z.shiftr_shiftl_l, Z.sub_diag, Z.shiftl_0_r, (Z.shiftr_div_pow2 n), Z.div_small, Z.lor_0_r by lia; done).
  pose proof (Z.div_mod (Z.lor (Z.shiftl f 29) n) (2 ^ 29) ltac:(lia)). lia.
Qed.

Lemma length_magic : length magic = 4%nat.
Proof. done. Qed.
Lemma word_magic : le_word magic = kMagic.
Proof. done. Qed.
Lemma word_lrec f n : 0 ≤ f ≤ 3 → 0 ≤ n < 2 ^ 29 → le_word (le_bytes 4 (EncodeLRec f n)) = EncodeLRec f n.
Proof. intros Hf Hn. rewrite le_word_bytes. destruct (lrec_sum f n Hf Hn) as (_ & _ & H). apply Z.mod_small. lia. Qed.

Lemma le_bytes_word bs : Forall (fun b => 0 ≤ b < 256) bs → le_bytes (length bs) (le_word bs) = bs.
Proof.
  induction 1 as [|b bs Hb _ IH]; [done|]. cbn [length le_bytes le_word foldr]. fold (le_word bs). rewrite (Z.mul_comm 256), Z.mod_add, Z.mod_small by lia.
  by rewrite Z.div_add, Z.div_small, Z.add_0_l, IH by lia.
Qed.
Lemma word_is_magic bs : length bs = 4%nat → Forall (fun b => 0 ≤ b < 256) bs → le_word bs = kMagic → bs = magic.
Proof. intros Hl Hb Hw. rewrite <- (le_bytes_word bs Hb), Hl, Hw. done. Qed.

Lemma upper_align_ge n : (n ≤ upper_align n < n + 4)%nat.
Proof. unfold upper_align. pose proof (Nat.div_mod (n + 3) 4). pose proof (Nat.mod_upper_bound (n + 3) 4). lia. Qed.
Lemma upper_align_mul n : upper_align (4 * n) = (4 * n)%nat.
Proof. unfold upper_align. rewrite (Nat.mul_comm 4 n), Nat.div_add_l by lia. cbn. lia. Qed.
Lemma upper_align_add n t : upper_align (4 * n + t) = (4 * n + upper_align t)%nat.
Proof. unfold upper_align. replace (4 * n + t + 3)%nat with (n * 4 + (t + 3))%nat by lia. rewrite Nat.div_add_l by lia. lia. Qed.

(** ** Data as blocks of four bytes *)
Abbreviation blocks := (list (list Z)).
Definition aligned (bl : blocks) : Prop := Forall (fun b => length b = 4%nat) bl.

Lemma blocks_cons b (bl : blocks) : mjoin (b :: bl) = b ++ mjoin bl.
Proof. done. Qed.
Lemma length_blocks bl : aligned bl → length (mjoin bl) = (4 * length bl)%nat.
Proof. induction 1 as [|b bl Hb _ IH]; [done|]. rewrite blocks_cons, length_app, IH. cbn. lia. Qed.
Lemma drop_blocks bl t d : aligned bl → (d ≤ length bl)%nat → drop (4 * d) (mjoin bl ++ t) = mjoin (drop d bl) ++ t.
Proof.
  intros Hbl Hd. rewrite <- (take_drop d bl) at 1. rewrite join_app, <- (assoc_L (++)). apply drop_app_length'. rewrite length_blocks by (by apply Forall_take). rewrite length_take. lia.
Qed.
Lemma take_blocks bl t d : aligned bl → (d ≤ length bl)%nat → take (4 * d) (mjoin bl ++ t) = mjoin (take d bl).
Proof.
  intros Hbl Hd. rewrite <- (take_drop d bl) at 1. rewrite join_app, <- (assoc_L (++)). apply take_app_length'. rewrite length_blocks by (by apply Forall_take). rewrite length_take. lia.
Qed.
Lemma split_blocks (buf : list Z) : ∃ bl t, buf = mjoin bl ++ t ∧ aligned bl ∧ (length t < 4)%nat.
Proof.
  remember (length buf) as n eqn:Hn. revert buf Hn. induction (lt_wf n) as [n _ IH]. intros buf Hn. destruct (decide (n < 4)%nat) as [Hlt|Hge]; [exists [], buf; repeat split; [by constructor|lia]|].
  destruct (IH (n - 4)%nat ltac:(lia) (drop 4 buf)) as (bl & t & Heq & Hbl & Ht); [rewrite length_drop; lia|]. exists (take 4 buf :: bl), t. repeat split; [|by constructor; [rewrite length_take; lia|]|done].
  rewrite blocks_cons. rewrite <- (assoc_L (++)), <- Heq. by rewrite take_drop.
Qed.

(** ** What is written *)
Definition padding (t : list Z) : list Z := replicate (upper_align (length t) - length t) 0.

(** A part with flag [f]: the blocks [acc] and the rest [t] of the data. *)
Definition piece (f : Z) (acc : blocks) (t : list Z) : list Z :=
  magic ++ le_bytes 4 (EncodeLRec f (Z.of_nat (length (mjoin acc ++ t)))) ++ mjoin acc ++ t ++ padding t.

(** The rest of a record: [acc] is the part so far, [bl] the blocks to come. *)
Fixpoint emit (first : bool) (acc bl : blocks) (t : list Z) : list Z :=
  match bl with
  | [] => piece (if first then 0 else 3) acc t
  | b :: bl => if bool_decide (b = magic) then piece (if first then 1 else 2) acc [] ++ emit false [] bl t
               else emit first (acc ++ [b]) bl t
  end.

Lemma WriteRecord_emit bl t : aligned bl → (length t < 4)%nat → Z.of_nat (length (mjoin bl ++ t)) < 2 ^ 29 →
  ∃ n, WriteRecord (mjoin bl ++ t) = Ok (emit true [] bl t, n).
Proof.
  intros Hbl Ht Hlen. pose proof (length_blocks bl Hbl) as Hlb. assert (length (mjoin bl ++ t) / 4 = length bl)%nat as Hdiv.
  { rewrite length_app, Hlb, (Nat.mul_comm 4), Nat.div_add_l, Nat.div_small by lia. lia. }
  unfold WriteRecord. rewrite Hdiv. rewrite check_bind_ok by (by apply Z.ltb_lt).
  match goal with |- context [for_range 0 (length bl) ?body ?s0] =>
    destruct (for_range_ok (fun w (s : list Z * nat * nat) => let '(out, dptr, _) := s in ∃ d, (d ≤ w)%nat ∧ dptr = (4 * d)%nat ∧
      out ++ emit (dptr =? 0)%nat (take (w - d) (drop d bl)) (drop w bl) t = emit true [] bl t) 0 (length bl) body s0) as ([[out dptr] n] & -> & d & Hd & -> & Hout) end; [lia|by exists 0%nat| |].
  - intros w [[out dptr] n] Hw (d & Hd & -> & Hout). destruct (lookup_lt_is_Some_2 bl w) as [b Hb]; [lia|]. rewrite (drop_S _ _ _ Hb) in Hout.
    assert (take 4 (drop (4 * w) (mjoin bl ++ t)) = b) as ->.
    { rewrite drop_blocks by (done || lia). rewrite (drop_S _ _ _ Hb). rewrite blocks_cons. rewrite <- (assoc_L (++)). apply take_app_length'. by rewrite (Forall_lookup_1 _ _ _ _ Hbl Hb). }
    cbn [emit] in Hout. case_bool_decide as Hm.
    + eexists. split; [reflexivity|]. exists (S w). split; [lia|]. split; [lia|]. rewrite Nat.sub_diag, take_0. replace ((4 * w + 4 =? 0)%nat) with false by (symmetry; apply Nat.eqb_neq; lia).
      rewrite <- Hout, <- (assoc_L (++)). f_equal. unfold piece at 1, padding. cbn [length]. rewrite app_nil_r. replace (4 * w - 4 * d)%nat with (4 * (w - d))%nat by lia.
      rewrite drop_blocks by (done || lia). rewrite take_blocks by ((by apply Forall_drop) || (rewrite length_drop; lia)). rewrite length_blocks by (by apply Forall_take, Forall_drop).
      rewrite length_take, length_drop. replace ((w - d) `min` (length bl - d))%nat with (w - d)%nat by lia. change (replicate (upper_align 0 - 0) 0) with (@nil Z). rewrite ?app_nil_r, <- ?(assoc_L (++)). done.
    + eexists. split; [reflexivity|]. exists d. split; [lia|]. split; [done|]. rewrite <- Hout. do 2 f_equal. replace (S w - d)%nat with (S (w - d)) by lia. apply take_S_r. rewrite lookup_drop. rewrite <- Hb. f_equal. lia.
  - rstep. exists n. rewrite (drop_ge bl (length bl)), (take_ge (drop d bl)) in Hout by (rewrite ?length_drop; lia). rewrite <- Hout. cbn [emit]. unfold piece, padding. rewrite drop_blocks by (done || lia).
    assert (length (mjoin bl ++ t) - 4 * d = length (mjoin (drop d bl) ++ t))%nat as ->.
    { rewrite !length_app, Hlb, (length_blocks (drop d bl)), length_drop by (by apply Forall_drop). lia. }
    assert (upper_align (length (mjoin bl ++ t)) - length (mjoin bl ++ t) = upper_align (length t) - length t)%nat as ->.
    { rewrite length_app, Hlb, upper_align_add. lia. }
    rewrite <- !(assoc_L (++)). by destruct (4 * d =? 0)%nat.
Qed.

(** ** Reading it back *)
Lemma length_padded t : length (t ++ padding t) = upper_align (length t).
Proof. unfold padding. rewrite length_app, length_replicate. pose proof (upper_align_ge (length t)). lia. Qed.

Lemma length_piece f acc t : aligned acc → length (piece f acc t) = (8 + 4 * length acc + upper_align (length t))%nat.
Proof. intros Ha. unfold piece. rewrite !length_app, length_le_bytes, length_blocks, length_magic by done. pose proof (length_padded t). rewrite length_app in H. lia. Qed.

Lemma aligned_snoc acc b : aligned acc → length b = 4%nat → aligned (acc ++ [b]).
Proof. intros Ha Hb. apply Forall_app. split; [done|]. by constructor. Qed.

Lemma length_emit bl t : ∀ first acc, aligned acc → aligned bl → (8 + 4 * length acc + 4 * length bl ≤ length (emit first acc bl t))%nat.
Proof.
  induction bl as [|b bl IH]; intros first acc Ha Hbl; cbn [emit length]; [rewrite length_piece by done; lia|]. apply Forall_cons in Hbl as [Hb Hbl]. case_bool_decide.
  - rewrite length_app, length_piece by done. specialize (IH false [] ltac:(by constructor) Hbl). cbn in IH. lia.
  - specialize (IH first (acc ++ [b]) (aligned_snoc _ _ Ha Hb) Hbl). rewrite length_app in IH. cbn in IH. lia.
Qed.

(** The words of a part. *)
Lemma piece_header f acc t rest : take 8 (piece f acc t ++ rest) = magic ++ le_bytes 4 (EncodeLRec f (Z.of_nat (length (mjoin acc ++ t)))).
Proof. unfold piece. rewrite <- !(assoc_L (++)), (assoc_L (++) magic). apply take_app_length'. by rewrite length_app, length_le_bytes. Qed.
Lemma piece_body f acc t rest : drop 8 (piece f acc t ++ rest) = mjoin acc ++ t ++ padding t ++ rest.
Proof. unfold piece. rewrite <- !(assoc_L (++)), (assoc_L (++) magic). apply drop_app_length'. by rewrite length_app, length_le_bytes. Qed.

Lemma data_align acc t : aligned acc → upper_align (length (mjoin acc ++ t)) = length (mjoin acc ++ t ++ padding t).
Proof. intros Ha. rewrite !length_app, length_blocks, upper_align_add by done. pose proof (length_padded t). rewrite length_app in H. lia. Qed.

Lemma next_piece fuel f acc t rest rec : 0 ≤ f ≤ 3 → aligned acc → Z.of_nat (length (mjoin acc ++ t)) < 2 ^ 29 →
  next_record (S fuel) (piece f acc t ++ rest) rec =
  if (f =? 0) || (f =? 3) then Ok (Some (rec ++ mjoin acc ++ t), {| stream_ := rest; end_of_stream_ := false |})
  else next_record fuel rest ((rec ++ mjoin acc ++ t) ++ magic).
Proof.
  intros Hf Ha Hlen. cbn [next_record]. rewrite piece_header, piece_body. set (lrec := EncodeLRec f _). assert (length (magic ++ le_bytes 4 lrec) = 8%nat) as H8 by (by rewrite length_app, length_le_bytes).
  rewrite H8. cbn [Nat.eqb]. rewrite check_bind_ok by done. rewrite check_bind_ok by (by rewrite take_app_length'). rewrite drop_app_length' by done. unfold lrec. rewrite word_lrec by (done || lia).
  destruct (lrec_sum f _ Hf (conj (Nat2Z.is_nonneg _) Hlen)) as (-> & -> & _). rewrite Nat2Z.id, (data_align _ _ Ha).
  assert (∀ r, mjoin acc ++ t ++ padding t ++ r = (mjoin acc ++ t ++ padding t) ++ r) as -> by (intros r; by rewrite <- !(assoc_L (++))).
  rewrite take_app_length, drop_app_length. rewrite check_bind_ok by apply Nat.eqb_refl. rewrite (assoc_L (++) (mjoin acc)), take_app_length. done.
Qed.

Lemma next_emit bl t rest : (length t < 4)%nat → ∀ first acc rec fuel, aligned acc → aligned bl → Z.of_nat (length (mjoin acc ++ mjoin bl ++ t)) < 2 ^ 29 → (length bl < fuel)%nat →
  next_record fuel (emit first acc bl t ++ rest) rec = Ok (Some (rec ++ mjoin acc ++ mjoin bl ++ t), {| stream_ := rest; end_of_stream_ := false |}).
Proof.
  intros Ht. induction bl as [|b bl IH]; intros first acc rec fuel Ha Hbl Hlen Hfuel; (destruct fuel as [|fuel]; [lia|]); cbn [emit].
  - rewrite next_piece by (done || by destruct first). by destruct first.
  - apply Forall_cons in Hbl as [Hb Hbl]. rewrite blocks_cons in Hlen. case_bool_decide as Hm.
    + rewrite <- (assoc_L (++)), next_piece; [|by destruct first|done|rewrite !length_app in *; cbn; lia]. replace (((if first then 1 else 2) =? 0) || _) with false by (by destruct first). cbn match.
      rewrite IH; [|by constructor|done|rewrite !length_app in *; cbn; lia|cbn in Hfuel; lia]. rewrite blocks_cons, Hm. cbn [mjoin list_join app]. rewrite app_nil_r, <- !(assoc_L (++)). done.
    + rewrite IH; [|by apply aligned_snoc|done|rewrite join_app, !length_app in *; cbn; rewrite app_nil_r; lia|cbn in Hfuel; lia].
      rewrite blocks_cons, join_app, <- !(assoc_L (++)). cbn [mjoin list_join app]. by rewrite app_nil_r.
Qed.

(** What a record is stored as. *)
Definition stored (r : list Z) (bs : list Z) : Prop :=
  ∃ bl t, r = mjoin bl ++ t ∧ aligned bl ∧ (length t < 4)%nat ∧ bs = emit true [] bl t ∧ Z.of_nat (length r) < 2 ^ 29.

Lemma write_stored r : Z.of_nat (length r) < 2 ^ 29 → ∃ bs n, WriteRecord r = Ok (bs, n) ∧ stored r bs.
Proof.
  intros Hlen. destruct (split_blocks r) as (bl & t & -> & Hbl & Ht). destruct (WriteRecord_emit bl t Hbl Ht Hlen) as [n Hw]. exists (emit true [] bl t), n. split; [done|]. by exists bl, t.
Qed.

Lemma stored_length r bs : stored r bs → (8 ≤ length bs)%nat.
Proof. intros (bl & t & _ & Hbl & _ & -> & _). pose proof (length_emit bl t true [] ltac:(by constructor) Hbl). lia. Qed.

Lemma next_stored r bs rest : stored r bs → NextRecord {| stream_ := bs ++ rest; end_of_stream_ := false |} = Ok (Some r, {| stream_ := rest; end_of_stream_ := false |}).
Proof.
  intros (bl & t & -> & Hbl & Ht & -> & Hlen). unfold NextRecord. cbn [end_of_stream_ stream_]. rewrite (next_emit bl t rest Ht); [done|by constructor|done|done|].
  pose proof (length_emit bl t true [] ltac:(by constructor) Hbl). rewrite length_app. lia.
Qed.

(** The records of a file. *)
Inductive file : list (list Z) → list Z → Prop :=
  | file_nil : file [] []
  | file_cons r bs rs rest : stored r bs → file rs rest → file (r :: rs) (bs ++ rest).

Lemma write_file rs : Forall (fun r => Z.of_nat (length r) < 2 ^ 29) rs → ∃ bs, write_records rs = Ok bs ∧ file rs bs.
Proof.
  induction 1 as [|r rs Hr _ IH]; [exists []; split; [done|constructor]|]. destruct IH as (bs & Hbs & Hf). destruct (write_stored r Hr) as (w & n & Hw & Hs).
  exists (w ++ bs). cbn [write_records]. rewrite Hw. rstep. rewrite Hbs. split; [done|by constructor].
Qed.

Lemma read_file_ok rs bs : file rs bs → ∀ fuel, (length bs < fuel)%nat → read_records fuel {| stream_ := bs; end_of_stream_ := false |} = Ok rs.
Proof.
  induction 1 as [|r bs rs rest Hs _ IH]; intros fuel Hfuel; (destruct fuel as [|fuel]; [lia|]); cbn [read_records]; [done|].
  rewrite (next_stored r bs rest Hs). rstep. rewrite length_app in Hfuel. pose proof (stored_length _ _ Hs). rewrite IH by lia. done.
Qed.

(** C24: Whatever bytes the records contain, the magic number included, a file of records
    reads back as the same records in the same order: writing and reading succeed for records
    of less than 2^29 bytes. *)
Theorem recordio_roundtrip (rs : list (list Z)) : Forall (fun r => Z.of_nat (length r) < 2 ^ 29) rs →
  ∃ bs, write_records rs = Ok bs ∧ read_file bs = Ok rs.
Proof. intros Hrs. destruct (write_file rs Hrs) as (bs & Hw & Hf). exists bs. split; [done|]. apply (read_file_ok rs bs Hf). lia. Qed.

(** A record with the magic number in it, and one of five bytes. *)
Definition w_records : list (list Z) := [[1; 2; 3; 4] ++ magic ++ magic ++ [5; 6]; [1; 2; 3; 4; 5]].
Lemma recordio_roundtrip_witness : ∃ bs, write_records w_records = Ok bs ∧ read_file bs = Ok w_records.
Proof. apply (recordio_roundtrip w_records). by_decision. Defined.
