(* ===== verification/RecordIOChunk.v ===== *)
(** * Reading a chunk of records in parts

    RecordIOChunkReader (src/3rdparty/dmlc-core/src/recordio.cc) reads one part of a chunk of
    records in memory, so that several threads can decode it: a part starts at the first
    record head at or after its first byte.  No head is found inside a record, because the
    magic number occurs there only before a flag of two or three; the parts of a chunk are
    therefore its records, each once and in order. *)

From S2P Require Import Prelude RecordIO.
Local Open Scope Z_scope.
(** ** The words of a chunk *)
Abbreviation bytes := (Forall (fun b => 0 ≤ b < 256)).

(** Words where no record starts. *)
Inductive quiet : list Z → Prop :=
  | quiet_nil : quiet []
  | quiet_data b s : length b = 4%nat → le_word b ≠ kMagic → quiet s → quiet (b ++ s)
  | quiet_part l s : length l = 4%nat → le_word l ≠ kMagic → 2 ≤ DecodeFlag (le_word l) → quiet s → quiet (magic ++ l ++ s).

Lemma quiet_words s : quiet s → ∃ k, length s = (4 * k)%nat.
Proof. induction 1 as [|b s Hb _ _ [k Hk]|l s Hl _ _ _ [k Hk]]; [by exists 0%nat|exists (S k)|exists (S (S k))]; rewrite !length_app, ?length_magic; lia. Qed.

Lemma quiet_drop k : ∀ s, quiet s → quiet (drop (4 * k) s).
Proof.
  induction k as [|k IH]; intros s Hs; [done|]. replace (4 * S k)%nat with (4 + 4 * k)%nat by lia. rewrite <- drop_drop. destruct Hs as [|b s Hb Hw Hs|l s Hl Hw Hf Hs].
  - apply (IH []). constructor.
  - rewrite drop_app_length' by done. by apply IH.
  - rewrite drop_app_length' by done. apply IH. by constructor.
Qed.

Lemma quiet_blocks acc s : aligned acc → Forall bytes acc → Forall (fun b => b ≠ magic) acc → quiet s → quiet (mjoin acc ++ s).
Proof.
  intros Ha Hb Hm Hs. induction acc as [|b acc IH]; [done|]. apply Forall_cons in Ha as [? ?], Hb as [? ?], Hm as [? ?]. rewrite blocks_cons, <- (assoc_L (++)). apply quiet_data; [done| |by apply IH].
  intros Hw. by eapply word_is_magic in Hw.
Qed.

(** The last byte of a padded block is zero, the magic number's is not. *)
Lemma quiet_padded t : (length t < 4)%nat → bytes t → quiet (t ++ padding t).
Proof.
  intros Ht Hb. destruct t as [|a t]; [constructor|]. rewrite <- (app_nil_r (_ ++ _)). apply quiet_data; [| |constructor].
  - rewrite length_padded. cbn in *. destruct t as [|b [|c [|]]]; cbn in *; done || lia.
  - apply Forall_cons in Hb as [Ha Hb]. destruct t as [|b [|c [|]]]; cbn in Ht; [| | |lia]; repeat (apply Forall_cons in Hb as [? Hb]); unfold kMagic; cbn; lia.
Qed.

Lemma lrec_not_magic f n : 0 ≤ f ≤ 3 → 0 ≤ n < 2 ^ 29 → le_word (le_bytes 4 (EncodeLRec f n)) ≠ kMagic.
Proof. intros Hf Hn. rewrite word_lrec by done. destruct (lrec_sum f n Hf Hn) as (_ & _ & ?). unfold kMagic. lia. Qed.

(** A record starts with the magic number and a flag of zero or one, and no other record
    seems to start inside it. *)
Lemma emit_head bl t : (length t < 4)%nat → bytes t → aligned bl → Forall bytes bl → ∀ first acc, aligned acc → Forall bytes acc → Forall (fun b => b ≠ magic) acc →
  Z.of_nat (length (mjoin acc ++ mjoin bl ++ t)) < 2 ^ 29 →
  ∃ l s, emit first acc bl t = magic ++ l ++ s ∧ length l = 4%nat ∧ le_word l ≠ kMagic ∧ 0 ≤ DecodeFlag (le_word l) ≤ 3 ∧ (DecodeFlag (le_word l) <=? 1 = first) ∧ quiet s.
Proof.
  intros Ht Hbt. induction bl as [|b bl IH]; intros Hbl Hbb first acc Ha Hba Hm Hlen; cbn [emit].
  - exists (le_bytes 4 (EncodeLRec (if first then 0 else 3) (Z.of_nat (length (mjoin acc ++ t))))), (mjoin acc ++ t ++ padding t).
    assert (0 ≤ (if first then 0 else 3) ≤ 3) as Hf by (by destruct first). cbn [mjoin list_join app] in Hlen. assert (0 ≤ Z.of_nat (length (mjoin acc ++ t)) < 2 ^ 29) as Hn by (split; [apply Nat2Z.is_nonneg|done]).
    split; [done|]. split; [apply length_le_bytes|]. split; [by apply lrec_not_magic|]. rewrite word_lrec by done. destruct (lrec_sum _ _ Hf Hn) as (-> & _ & _).
    split; [done|]. split; [by destruct first|]. apply quiet_blocks; try done. by apply quiet_padded.
  - apply Forall_cons in Hbl as [Hb Hbl], Hbb as [Hbytes Hbb]. rewrite blocks_cons, !length_app in Hlen. case_bool_decide as Hmag.
    + destruct (IH Hbl Hbb false [] ltac:(by constructor) ltac:(by constructor) ltac:(by constructor)) as (l & s & -> & Hl & Hw & Hfl & Hfirst & Hq); [rewrite !length_app; cbn; lia|].
      exists (le_bytes 4 (EncodeLRec (if first then 1 else 2) (Z.of_nat (length (mjoin acc ++ []))))), (mjoin acc ++ magic ++ l ++ s).
      assert (0 ≤ (if first then 1 else 2) ≤ 3) as Hf by (by destruct first). assert (0 ≤ Z.of_nat (length (mjoin acc ++ [])) < 2 ^ 29) as Hn by (rewrite app_nil_r; lia).
      split; [unfold piece; by rewrite <- !(assoc_L (++))|]. split; [apply length_le_bytes|]. split; [by apply lrec_not_magic|]. rewrite word_lrec by done. destruct (lrec_sum _ _ Hf Hn) as (-> & _ & _).
      split; [done|]. split; [by destruct first|]. apply quiet_blocks; try done. apply quiet_part; try done. apply Z.leb_gt in Hfirst. lia.
    + destruct (IH Hbl Hbb first (acc ++ [b])) as (l & s & ? & ?); [by apply aligned_snoc| | | |by exists l, s].
      * apply Forall_app. split; [done|]. by constructor.
      * apply Forall_app. split; [done|]. by constructor.
      * rewrite join_app, !length_app. cbn. rewrite app_nil_r. lia.
Qed.

Lemma bytes_blocks bl t : bytes (mjoin bl ++ t) → Forall bytes bl ∧ bytes t.
Proof. rewrite Forall_app. intros [H ?]. split; [|done]. induction bl as [|b bl IH]; [done|]. rewrite blocks_cons, Forall_app in H. destruct H. constructor; [done|by apply IH]. Qed.

Lemma stored_head r bs : stored r bs → bytes r →
  ∃ l s, bs = magic ++ l ++ s ∧ length l = 4%nat ∧ le_word l ≠ kMagic ∧ 0 ≤ DecodeFlag (le_word l) ≤ 1 ∧ quiet s.
Proof.
  intros (bl & t & -> & Hbl & Ht & -> & Hlen) Hb. apply bytes_blocks in Hb as [Hb Hbt].
  destruct (emit_head bl t Ht Hbt Hbl Hb true [] ltac:(by constructor) ltac:(by constructor) ltac:(by constructor) Hlen) as (l & s & -> & Hl & Hw & Hf & Hf1 & Hq).
  exists l, s. apply Z.leb_le in Hf1. repeat split; try done; lia.
Qed.

(** ** Looking for the start of a record *)
Lemma word_at_app pre w s : length w = 4%nat → word_at (pre ++ w ++ s) (length pre) = Ok (le_word w).
Proof. intros Hw. unfold word_at. rewrite !length_app, Hw. rewrite (proj2 (Nat.leb_le _ _)) by lia. by rewrite drop_app_length, take_app_length'. Qed.
Lemma word_at_second pre l s : length l = 4%nat → word_at (pre ++ magic ++ l ++ s) (length pre + 4) = Ok (le_word l).
Proof. intros Hl. rewrite (assoc_L (++) pre). replace (length pre + 4)%nat with (length (pre ++ magic)) by (by rewrite length_app). by apply word_at_app. Qed.

(** From [p], the search stops at [v]. *)
Definition finds (m : list Z) (p v : nat) : Prop := ∀ fuel, (length m - p < fuel)%nat → find_head fuel m p (length m) = Ok v.

Lemma finds_end m : finds m (length m) (length m).
Proof. intros [|fuel] Hf; [lia|]. cbn [find_head]. by rewrite (proj2 (Nat.ltb_ge _ _)) by lia. Qed.

Lemma finds_word m pre w s v : m = pre ++ w ++ s → length w = 4%nat → le_word w ≠ kMagic → finds m (length pre + 4) v → finds m (length pre) v.
Proof.
  intros -> Hw Hm Hv [|fuel] Hf; [lia|]. cbn [find_head]. rewrite !length_app, Hw in *. destruct (Nat.ltb_spec (length pre + 4) (length pre + (4 + length s))) as [Hlt|Hge].
  - rewrite word_at_app by done. rstep. rewrite (proj2 (Z.eqb_neq _ _) Hm). specialize (Hv fuel). rewrite !length_app, Hw in Hv. apply Hv. lia.
  - specialize (Hv (S fuel)). rewrite !length_app, Hw in Hv. rewrite <- Hv by lia. cbn [find_head]. by rewrite (proj2 (Nat.ltb_ge _ _)) by lia.
Qed.

Lemma finds_inner m pre l s v : m = pre ++ magic ++ l ++ s → length l = 4%nat → 2 ≤ DecodeFlag (le_word l) → finds m (length pre + 4) v → finds m (length pre) v.
Proof.
  intros -> Hl Hd Hv [|fuel] Hf; [lia|]. cbn [find_head]. rewrite (proj2 (Nat.ltb_lt _ _)) by (rewrite !length_app, length_magic; lia). rewrite word_at_app by done. rstep. rewrite word_magic, Z.eqb_refl.
  rewrite word_at_second by done. rstep. rewrite !(proj2 (Z.eqb_neq _ _)) by lia. apply Hv. rewrite !length_app, length_magic in *. lia.
Qed.

Lemma finds_start m pre l s : m = pre ++ magic ++ l ++ s → length l = 4%nat → 0 ≤ DecodeFlag (le_word l) ≤ 1 → finds m (length pre) (length pre).
Proof.
  intros -> Hl Hd [|fuel] Hf; [lia|]. cbn [find_head]. rewrite (proj2 (Nat.ltb_lt _ _)) by (rewrite !length_app, length_magic; lia). rewrite word_at_app by done. rstep. rewrite word_magic, Z.eqb_refl.
  rewrite word_at_second by done. rstep. assert (DecodeFlag (le_word l) = 0 ∨ DecodeFlag (le_word l) = 1) as [-> | ->] by lia; done.
Qed.

Lemma finds_quiet s : quiet s → ∀ m pre post v, m = pre ++ s ++ post → finds m (length pre + length s) v → finds m (length pre) v.
Proof.
  induction 1 as [|b s Hb Hw Hs IH|l s Hl Hw Hf Hs IH]; intros m pre post v Hm Hv.
  - by rewrite Nat.add_0_r in Hv.
  - apply (finds_word m pre b (s ++ post)); [by rewrite Hm, <- !(assoc_L (++))|done|done|]. replace (length pre + 4)%nat with (length (pre ++ b)) by (rewrite length_app; lia).
    apply (IH m _ post); [by rewrite Hm, <- !(assoc_L (++))|]. rewrite length_app in *. by rewrite <- Nat.add_assoc.
  - apply (finds_inner m pre l (s ++ post)); [by rewrite Hm, <- !(assoc_L (++))|done|done|]. replace (length pre + 4)%nat with (length (pre ++ magic)) by (by rewrite length_app).
    apply (finds_word m _ l (s ++ post)); [by rewrite Hm, <- !(assoc_L (++))|done|done|]. replace (length (pre ++ magic) + 4)%nat with (length (pre ++ magic ++ l)) by (rewrite !length_app; lia).
    apply (IH m _ post); [by rewrite Hm, <- !(assoc_L (++))|]. rewrite !length_app in *. by rewrite <- !Nat.add_assoc.
Qed.

(** The records of a chunk that start before byte [p]. *)
Fixpoint before (bss : list (list Z)) (p : nat) : nat :=
  match bss with
  | [] => 0
  | bs :: bss => if (0 <? p)%nat then S (before bss (p - length bs)) else 0
  end.

Lemma before_mono bss : ∀ p q, (p ≤ q)%nat → (before bss p ≤ before bss q ≤ length bss)%nat.
Proof.
  induction bss as [|bs bss IH]; intros p q Hpq; cbn [before length]; [done|]. specialize (IH (p - length bs) (q - length bs))%nat.
  destruct (Nat.ltb_spec 0 p), (Nat.ltb_spec 0 q); lia.
Qed.
Lemma before_all bss : Forall (fun bs => 8 ≤ length bs)%nat bss → before bss (length (mjoin bss)) = length bss.
Proof.
  induction 1 as [|bs bss Hbs _ IH]; [done|]. rewrite blocks_cons, length_app. cbn [before length]. rewrite (proj2 (Nat.ltb_lt _ _)) by lia. f_equal.
  by replace (length bs + length (mjoin bss) - length bs)%nat with (length (mjoin bss)) by lia.
Qed.

Abbreviation stores := (Forall2 (fun r bs => stored r bs ∧ bytes r)).

Lemma finds_record m pre r bs post p v : m = pre ++ bs ++ post → stored r bs → bytes r → (0 < 4 * p ≤ length bs)%nat → finds m (length pre + length bs) v → finds m (length pre + 4 * p) v.
Proof.
  intros Hm Hs Hb Hp Hv. destruct (stored_head r bs Hs Hb) as (l & s & Hbs & Hl & Hw & _ & Hq). destruct p as [|p]; [lia|].
  assert (quiet (drop (4 * S p) bs)) as Hd.
  { replace (4 * S p)%nat with (4 + 4 * p)%nat by lia. rewrite <- drop_drop, Hbs, drop_app_length' by done. apply quiet_drop. by constructor. }
  replace (length pre + 4 * S p)%nat with (length (pre ++ take (4 * S p) bs)) by (rewrite length_app, length_take; lia).
  apply (finds_quiet _ Hd m _ post); [by rewrite Hm, <- (assoc_L (++)), (assoc_L (++) (take _ _)), take_drop|].
  rewrite length_app, length_take, length_drop. match goal with |- finds _ ?x _ => by replace x with (length pre + length bs)%nat by lia end.
Qed.

Lemma finds_next m rs bss : stores rs bss → ∀ pre p, m = pre ++ mjoin bss → (4 * p ≤ length (mjoin bss))%nat →
  finds m (length pre + 4 * p) (length pre + length (mjoin (take (before bss (4 * p)) bss))).
Proof.
  induction 1 as [|r bs rs bss [Hs Hb] _ IH]; intros pre p Hm Hp.
  - cbn in Hp. replace (4 * p)%nat with 0%nat by lia. cbn. rewrite Nat.add_0_r. subst m. rewrite app_nil_r. apply finds_end.
  - rewrite blocks_cons in Hm, Hp. rewrite length_app in Hp. cbn [before]. destruct (Nat.ltb_spec 0 (4 * p)) as [Hpos|H0].
    2: { replace (4 * p)%nat with 0%nat by lia. cbn [take mjoin list_join length]. rewrite Nat.add_0_r. destruct (stored_head r bs Hs Hb) as (l & s & -> & Hl & _ & Hf & _). eapply (finds_start m pre l (s ++ mjoin bss)); [|done|done]. by rewrite Hm, <- !(assoc_L (++)). }
    cbn [take]. rewrite blocks_cons, length_app, Nat.add_assoc, <- length_app. assert (m = (pre ++ bs) ++ mjoin bss) as Hm' by (by rewrite <- (assoc_L (++))).
    destruct (decide (4 * p ≤ length bs)%nat) as [Hle|Hgt].
    + apply (finds_record m pre r bs (mjoin bss) p _ Hm Hs Hb ltac:(lia)). specialize (IH (pre ++ bs) 0%nat Hm' ltac:(lia)). rewrite length_app in *. rewrite Nat.mul_0_r, Nat.add_0_r in IH. by replace (4 * p - length bs)%nat with 0%nat by lia.
    + destruct (stored_head r bs Hs Hb) as (l & s & Hbs & Hl & _ & _ & Hq). destruct (quiet_words s Hq) as [k Hk]. assert (length bs = 4 * (2 + k))%nat as Hbl by (rewrite Hbs, !length_app, length_magic; lia).
      specialize (IH (pre ++ bs) (p - (2 + k))%nat Hm' ltac:(lia)). rewrite length_app in *. replace (4 * p - length bs)%nat with (4 * (p - (2 + k)))%nat by lia.
      by replace (length pre + 4 * p)%nat with (length pre + length bs + 4 * (p - (2 + k)))%nat by lia.
Qed.

(** ** Reading a part *)
Lemma piece_split f acc t rest : piece f acc t ++ rest = magic ++ le_bytes 4 (EncodeLRec f (Z.of_nat (length (mjoin acc ++ t)))) ++ (mjoin acc ++ t) ++ padding t ++ rest.
Proof. unfold piece. by rewrite <- !(assoc_L (++)). Qed.

Lemma piece_data pre l x y : length l = 4%nat → take (length x) (drop (length pre + 8) (pre ++ magic ++ l ++ x ++ y)) = x.
Proof.
  intros Hl. replace (pre ++ magic ++ l ++ x ++ y) with ((pre ++ magic ++ l) ++ x ++ y) by (by rewrite <- !(assoc_L (++))). rewrite drop_app_length' by (rewrite !length_app, length_magic; lia). by apply take_app_length.
Qed.

Lemma piece_end f acc t : aligned acc → length (piece f acc t) = (8 + upper_align (length (mjoin acc ++ t)))%nat.
Proof. intros Ha. rewrite length_piece, length_app, length_blocks, upper_align_add by done. lia. Qed.

Lemma chunk_piece fuel m pre f acc t post pend temp : m = pre ++ piece f acc t ++ post → 0 ≤ f ≤ 3 → aligned acc → Z.of_nat (length (mjoin acc ++ t)) < 2 ^ 29 → (length pre + length (piece f acc t) ≤ pend)%nat →
  chunk_parts (S fuel) m (length pre) pend temp =
  if f =? 3 then Ok (temp ++ mjoin acc ++ t, (length pre + length (piece f acc t))%nat)
  else chunk_parts fuel m (length pre + length (piece f acc t)) pend ((temp ++ mjoin acc ++ t) ++ magic).
Proof.
  intros Hm Hf Ha Hlen Hend. rewrite (piece_end f acc t Ha) in *. rewrite piece_split in Hm. set (l := le_bytes 4 _) in Hm. assert (length l = 4%nat) as Hl by apply length_le_bytes.
  assert (le_word l = EncodeLRec f (Z.of_nat (length (mjoin acc ++ t)))) as Hw by (apply word_lrec; [done|split; [apply Nat2Z.is_nonneg|done]]). clearbody l. cbn [chunk_parts]. rewrite check_bind_ok by (apply Nat.leb_le; lia).
  rewrite Hm, word_at_app by done. rstep. rewrite check_bind_ok by done. rewrite word_at_second by done. rstep. rewrite Hw.
  destruct (lrec_sum f _ Hf (conj (Nat2Z.is_nonneg _) Hlen)) as (-> & -> & _). rewrite Nat2Z.id. rewrite (proj2 (Nat.ltb_ge _ _)) by (rewrite !length_app, length_magic; lia).
  rewrite piece_data by done. rewrite <- !Nat.add_assoc. done.
Qed.

Lemma chunk_emit m bl t post pend : (length t < 4)%nat → ∀ acc pre temp fuel, m = pre ++ emit false acc bl t ++ post → aligned acc → aligned bl →
  Z.of_nat (length (mjoin acc ++ mjoin bl ++ t)) < 2 ^ 29 → (length pre + length (emit false acc bl t) ≤ pend)%nat → (length bl < fuel)%nat →
  chunk_parts fuel m (length pre) pend temp = Ok (temp ++ mjoin acc ++ mjoin bl ++ t, (length pre + length (emit false acc bl t))%nat).
Proof.
  intros Ht. induction bl as [|b bl IH]; intros acc pre temp fuel Hm Ha Hbl Hlen Hend Hfuel; (destruct fuel as [|fuel]; [lia|]); cbn [emit] in *.
  - by rewrite (chunk_piece fuel m pre 3 acc t post).
  - apply Forall_cons in Hbl as [Hb Hbl]. rewrite blocks_cons, !length_app in Hlen. cbn [length] in Hfuel. case_bool_decide as Hmag.
    + rewrite <- (assoc_L (++)) in Hm. rewrite length_app in Hend |- *. rewrite (chunk_piece fuel m pre 2 acc [] (emit false [] bl t ++ post)); [|done|done|done|rewrite app_nil_r; lia|lia]. cbn [Z.eqb Pos.eqb].
      rewrite <- length_app. rewrite (IH []); [|by rewrite Hm, <- !(assoc_L (++))|by constructor|done|rewrite !length_app; cbn; lia|rewrite length_app; lia|lia].
      rewrite blocks_cons, Hmag, length_app, !app_nil_r, <- !(assoc_L (++)), Nat.add_assoc. done.
    + rewrite (IH (acc ++ [b])); [|done|by apply aligned_snoc|done|rewrite join_app, !length_app; cbn; rewrite app_nil_r; lia|done|lia].
      rewrite join_app, blocks_cons. cbn [mjoin list_join]. by rewrite app_nil_r, <- !(assoc_L (++)).
Qed.

Lemma emit_cases t bl : ∀ acc, emit true acc bl t = piece 0 (acc ++ bl) t ∨ ∃ a bl', acc ++ bl = a ++ magic :: bl' ∧ emit true acc bl t = piece 1 a [] ++ emit false [] bl' t.
Proof.
  induction bl as [|b bl IH]; intros acc; cbn [emit]; [rewrite app_nil_r; by left|]. case_bool_decide as Hb; [right; exists acc, bl; by rewrite Hb|].
  specialize (IH (acc ++ [b])). by rewrite <- (assoc_L (++)) in IH.
Qed.

Lemma next_chunk m pre r bs post pend : m = pre ++ bs ++ post → stored r bs → (length pre + length bs ≤ pend)%nat →
  NextChunkRecord {| chunk := m; pbegin_ := length pre; pend_ := pend |} = Ok (Some r, {| chunk := m; pbegin_ := length pre + length bs; pend_ := pend |}).
Proof.
  intros Hm Hs Hend. pose proof (stored_length r bs Hs) as H8. destruct Hs as (bl & t & -> & Hbl & Ht & -> & Hlen). unfold NextChunkRecord. cbn [chunk pbegin_ pend_]. rewrite (proj2 (Nat.leb_gt _ _)) by lia.
  destruct (emit_cases t bl []) as [He|(a & bl' & Hsplit & He)]; rewrite He in *.
  - change ([] ++ bl) with bl in *. rewrite (piece_end 0 bl t Hbl) in *. rewrite piece_split in Hm. assert (0 ≤ Z.of_nat (length (mjoin bl ++ t)) < 2 ^ 29) as Hn by (split; [apply Nat2Z.is_nonneg|done]).
    rewrite Hm, word_at_app by done. rstep. rewrite check_bind_ok by done. rewrite word_at_second by apply length_le_bytes. rstep. rewrite word_lrec by (done || lia).
    destruct (lrec_sum 0 _ ltac:(lia) Hn) as (-> & -> & _). rewrite Nat2Z.id. cbn [Z.eqb]. rewrite check_bind_ok by (apply Nat.leb_le; lia). rewrite piece_data by apply length_le_bytes. by rewrite <- Nat.add_assoc.
  - change ([] ++ bl) with bl in Hsplit. subst bl. apply Forall_app in Hbl as [Ha Hbl]. apply Forall_cons in Hbl as [_ Hbl]. rewrite join_app, blocks_cons in *. rewrite <- (assoc_L (++)) in Hm.
    assert (Z.of_nat (length (mjoin a ++ [])) < 2 ^ 29 ∧ Z.of_nat (length (mjoin bl' ++ t)) < 2 ^ 29) as [Hla Hlb] by (rewrite app_nil_r, !length_app in *; lia).
    pose proof Hm as Hm'. rewrite piece_split in Hm'. rewrite Hm' at 1. rewrite word_at_app by done. rstep. rewrite check_bind_ok by done. rewrite Hm' at 1. rewrite word_at_second by apply length_le_bytes. rstep. rewrite word_lrec by (done || (split; [apply Nat2Z.is_nonneg|done])).
    destruct (lrec_sum 1 _ ltac:(lia) (conj (Nat2Z.is_nonneg _) Hla)) as (-> & _ & _). cbn [Z.eqb Pos.eqb]. rewrite check_bind_ok by done.
    rewrite length_app in Hend |- *. rewrite (chunk_piece _ m pre 1 a [] (emit false [] bl' t ++ post)); [|done|done|done|done|lia]. cbn [Z.eqb Pos.eqb]. rewrite <- length_app.
    rewrite (chunk_emit m bl' t post pend Ht []); [|by rewrite Hm, <- !(assoc_L (++))|by constructor|done|done|rewrite length_app; lia|].
    + rstep. cbn [fst snd mjoin list_join app]. by rewrite app_nil_r, length_app, <- !(assoc_L (++)), Nat.add_assoc.
    + pose proof (length_emit bl' t false [] ltac:(by constructor) Hbl). rewrite Hm, !length_app. lia.
Qed.

Lemma read_part_ok m rs bss : stores rs bss → ∀ pre post fuel, m = pre ++ mjoin bss ++ post → (length rs < fuel)%nat →
  read_part fuel {| chunk := m; pbegin_ := length pre; pend_ := length pre + length (mjoin bss) |} = Ok rs.
Proof.
  induction 1 as [|r bs rs bss [Hs Hb] _ IH]; intros pre post fuel Hm Hfuel; (destruct fuel as [|fuel]; [lia|]); cbn [read_part].
  - unfold NextChunkRecord. cbn [pend_ pbegin_]. by rewrite (proj2 (Nat.leb_le _ _)) by (cbn; lia).
  - rewrite blocks_cons in *. rewrite <- (assoc_L (++)) in Hm. rewrite (next_chunk m pre r bs (mjoin bss ++ post) _ Hm Hs) by (rewrite length_app; lia). rstep. cbn [fst snd].
    rewrite length_app, Nat.add_assoc, <- length_app. cbn [length] in Hfuel. rewrite (IH (pre ++ bs) post); [done|by rewrite Hm, <- !(assoc_L (++))|lia].
Qed.

Lemma join_slices {A} (l : list A) (f : nat → nat) n : f 0%nat = 0%nat → (∀ k, f k ≤ f (S k))%nat →
  mjoin ((fun k => take (f (S k) - f k) (drop (f k) l)) <$> seq 0 n) = take (f n) l.
Proof.
  intros H0 Hmono. induction n as [|n IH]; [by rewrite H0|]. rewrite seq_S, fmap_app, join_app, IH. cbn [fmap list_fmap mjoin list_join Nat.add]. rewrite app_nil_r.
  rewrite take_take_drop. f_equal. specialize (Hmono n). lia.
Qed.

Lemma file_stores rs m : file rs m → Forall bytes rs → ∃ bss, m = mjoin bss ∧ stores rs bss.
Proof.
  induction 1 as [|r bs rs rest Hs _ IH]; intros Hb; [by exists []|]. apply Forall_cons in Hb as [Hb Hbs]. destruct (IH Hbs) as (bss & -> & Hst). exists (bs :: bss). split; [done|]. by constructor.
Qed.

Lemma stores_words rs bss : stores rs bss → Forall (fun bs => 8 ≤ length bs)%nat bss ∧ (∃ w, length (mjoin bss) = 4 * w)%nat.
Proof.
  induction 1 as [|r bs rs bss [Hs Hb] _ [IH [w Hw]]]; [split; [constructor|by exists 0%nat]|]. split; [constructor; [by eapply stored_length|done]|].
  destruct (stored_head r bs Hs Hb) as (l & s & -> & Hl & _ & _ & Hq). destruct (quiet_words s Hq) as [k Hk]. exists (2 + k + w)%nat. rewrite blocks_cons, !length_app, length_magic. lia.
Qed.

Lemma FindNext_ok rs bss p : stores rs bss → (4 * p ≤ length (mjoin bss))%nat →
  FindNextRecordIOHead (mjoin bss) (4 * p) (length (mjoin bss)) = Ok (length (mjoin (take (before bss (4 * p)) bss))).
Proof.
  intros Hst Hp. destruct (stores_words rs bss Hst) as [_ [w Hw]]. unfold FindNextRecordIOHead. rewrite check_bind_ok by (by rewrite Nat.mul_comm, Nat.Div0.mod_mul). rewrite check_bind_ok by (by rewrite Hw, Nat.mul_comm, Nat.Div0.mod_mul).
  apply (finds_next (mjoin bss) rs bss Hst [] p eq_refl Hp). cbn [length]. lia.
Qed.

(** The records that start before part [k] of [n]. *)
Definition boundary (bss : list (list Z)) (n k : nat) : nat :=
  before bss (length (mjoin bss) `min` (upper_align ((length (mjoin bss) + n - 1) / n) * k)).

Lemma new_chunk_ok rs bss n k : stores rs bss → (0 < n)%nat →
  new_chunk_reader (mjoin bss) k n = Ok {| chunk := mjoin bss; pbegin_ := length (mjoin (take (boundary bss n k) bss)); pend_ := length (mjoin (take (boundary bss n (k + 1)) bss)) |}.
Proof.
  intros Hst Hn. destruct (stores_words rs bss Hst) as [_ [w Hw]]. unfold new_chunk_reader. rewrite (proj2 (Nat.eqb_neq _ _)) by lia. unfold boundary. set (size := length (mjoin bss)) in *.
  assert (∀ j, ∃ q, size `min` (upper_align ((size + n - 1) / n) * j) = 4 * q ∧ 4 * q ≤ size)%nat as Hq.
  { intros j. unfold upper_align. exists (w `min` (((size + n - 1) / n + 3) / 4 * j))%nat. lia. }
  destruct (Hq k) as (q & -> & Hle), (Hq (k + 1)%nat) as (q' & -> & Hle'). unfold size. rewrite (FindNext_ok rs) by done. rstep. by rewrite (FindNext_ok rs) by done.
Qed.

Lemma boundary_mono bss n k : (boundary bss n k ≤ boundary bss n (S k) ≤ length bss)%nat.
Proof. apply before_mono. nia. Qed.
Lemma boundary_last rs bss n : stores rs bss → (0 < n)%nat → boundary bss n n = length bss.
Proof.
  intros Hst Hn. unfold boundary. rewrite Nat.min_l; [by apply before_all, (stores_words rs)|]. set (size := length _). pose proof (upper_align_ge ((size + n - 1) / n)). pose proof (Nat.div_mod (size + n - 1) n ltac:(lia)).
  pose proof (Nat.mod_upper_bound (size + n - 1) n ltac:(lia)). nia.
Qed.

Lemma read_chunk_part_ok rs bss n k : stores rs bss → (0 < n)%nat →
  read_chunk_part (mjoin bss) k n = Ok (take (boundary bss n (S k) - boundary bss n k) (drop (boundary bss n k) rs)).
Proof.
  intros Hst Hn. unfold read_chunk_part. rewrite (new_chunk_ok rs) by done. rstep. rewrite Nat.add_1_r. pose proof (boundary_mono bss n k) as Hb. set (i := boundary bss n k) in *. set (j := boundary bss n (S k)) in *.
  assert (take j bss = take i bss ++ take (j - i) (drop i bss)) as -> by (rewrite take_take_drop; f_equal; lia). rewrite join_app, length_app.
  assert (stores (take (j - i) (drop i rs)) (take (j - i) (drop i bss))) as Hs by (by apply Forall2_take, Forall2_drop).
  apply (read_part_ok _ _ _ Hs _ (mjoin (drop (j - i) (drop i bss)))); [by rewrite <- !join_app, take_drop, take_drop|].
  pose proof (Forall2_length _ _ _ Hst). destruct (stores_words rs bss Hst) as [H8 _]. assert (length bss ≤ length (mjoin bss))%nat; [|rewrite length_take, length_drop; lia].
  clear -H8. induction H8; [done|]. rewrite blocks_cons, length_app. cbn. lia.
Qed.

(** However many parts a chunk of records is cut into, reading the parts one after the
    other reads every record exactly once and in order: each part is the records that start
    in its range of bytes, also where the data contains the magic number. *)
Theorem chunk_parts_partition (rs : list (list Z)) (n : nat) : (0 < n)%nat → Forall (fun r => Z.of_nat (length r) < 2 ^ 29) rs → Forall bytes rs →
  ∃ m parts, write_records rs = Ok m ∧ Forall2 (fun k part => read_chunk_part m k n = Ok part) (seq 0 n) parts ∧ mjoin parts = rs.
Proof.
  intros Hn Hlen Hb. destruct (write_file rs Hlen) as (m & Hw & Hf). destruct (file_stores rs m Hf Hb) as (bss & -> & Hst). exists (mjoin bss), ((fun k => take (boundary bss n (S k) - boundary bss n k) (drop (boundary bss n k) rs)) <$> seq 0 n).
  split; [done|]. split.
  - apply Forall2_fmap_r, Forall_Forall2_diag, Forall_forall. intros k _. by apply read_chunk_part_ok.
  - rewrite join_slices; [rewrite (boundary_last rs bss n Hst Hn)| |intros k; apply boundary_mono].
    + rewrite <- (Forall2_length _ _ _ Hst). apply firstn_all.
    + unfold boundary. rewrite Nat.mul_0_r, Nat.min_0_r. by destruct bss.
Qed.
Lemma chunk_parts_partition_witness : ∃ m parts, write_records w_records = Ok m ∧ Forall2 (fun k part => read_chunk_part m k 3 = Ok part) (seq 0 3) parts ∧ mjoin parts = w_records.
Proof. apply (chunk_parts_partition w_records 3); by_decision. Defined.
