(* ===== verification/InputSplit.v ===== *)
(** * Reading a share of the input files

    Every worker reads its share of the training data: InputSplitBase cuts the bytes of the
    input files into as many ranges as there are workers, moves both ends of a range to the
    next start of a record, and reads the range in chunks of whole records
    (src/3rdparty/dmlc-core/src/io/input_split_base.cc).  How records are found is left to
    virtual methods; RecordIOSplitter (src/3rdparty/dmlc-core/src/io/recordio_split.cc)
    implements them for RecordIO files.

    Files are their bytes, in the order the split reads them; an open stream is a file and a
    position, and reading it returns as many bytes as there are up to the number asked for. *)

From S2P Require Import Prelude RecordIO RecordIOChunk.
Local Open Scope Z_scope.

(** ** Chunks and splits *)

(** [data] holds the bytes read, [num_words] is the size of the vector. *)
Record Chunk := { data : list Z; cbegin : nat; cend : nat; num_words : nat }.

Record InputSplitBase := {
  files_ : list (list Z);
  offset_begin_ : nat; offset_end_ : nat; offset_curr_ : nat;
  fs_ : option (nat * nat);
  file_ptr_ : nat; file_ptr_end_ : nat;
  overflow_ : list Z;
  tmp_chunk_ : Chunk;
  buffer_size_ : nat }.

(** The methods of a kind of records: the bytes before the next record of a stream, the start
    of the last record in a buffer, and the next record of a chunk. *)
Class Splitter := {
  align_bytes : nat;
  SeekRecordBegin : list Z → result nat;
  FindLastRecordBegin : list Z → result nat;
  ExtractNextRecord : Chunk → result (option (list Z) * Chunk) }.

Definition file_offset_ (files : list (list Z)) : list nat := (fun i => sum_list (length <$> take i files)) <$> seq 0 (S (length files)).
Definition upper_bound (l : list nat) (x : nat) : nat := length (List.filter (fun y => (y <=? x)%nat) l).

Section Split.
Context `{Splitter}.

(** The constructor and Init; files of no bytes are left out before. *)
Definition Init (files : list (list Z)) (buffer_size : nat) : result InputSplitBase :=
  check (negb (length files =? 0)%nat) "Cannot find any files that matches the URI pattern";;
  check (forallb (fun f => (length f mod align_bytes =? 0)%nat) files) "file do not align";;
  Ok {| files_ := files; offset_begin_ := 0; offset_end_ := 0; offset_curr_ := 0; fs_ := None; file_ptr_ := 0; file_ptr_end_ := 0;
        overflow_ := []; tmp_chunk_ := {| data := []; cbegin := 0; cend := 0; num_words := S buffer_size |}; buffer_size_ := buffer_size |}.

Definition BeforeFirst (s : InputSplitBase) : result InputSplitBase :=
  if (offset_end_ s <=? offset_begin_ s)%nat then Ok s else
  let fp := (upper_bound (file_offset_ (files_ s)) (offset_begin_ s) - 1)%nat in
  start ← rd (file_offset_ (files_ s)) fp;
  f ← rd (files_ s) fp;
  Ok {| files_ := files_ s; offset_begin_ := offset_begin_ s; offset_end_ := offset_end_ s; offset_curr_ := offset_begin_ s;
        fs_ := Some (fp, (offset_begin_ s - start)%nat); file_ptr_ := fp; file_ptr_end_ := file_ptr_end_ s;
        overflow_ := []; tmp_chunk_ := {| data := []; cbegin := 0; cend := 0; num_words := num_words (tmp_chunk_ s) |}; buffer_size_ := buffer_size_ s |}.

(** Opening file [ptr] at [offset], which is past its [start], and moving to the next record. *)
Definition seek_record (files : list (list Z)) (offset start ptr : nat) : result nat :=
  f ← rd files ptr;
  n ← SeekRecordBegin (drop (offset - start) f);
  Ok (offset + n)%nat.

(** The exact ends of a range. *)
Definition exact_end (files : list (list Z)) (offset_end file_ptr_end : nat) : result nat :=
  start ← rd (file_offset_ files) file_ptr_end;
  if (offset_end =? start)%nat then Ok offset_end else
  check (start <? offset_end)%nat "offset_end_ > file_offset_[file_ptr_end_]";;
  check (file_ptr_end <? length files)%nat "file_ptr_end_ < files_.size()";;
  seek_record files offset_end start file_ptr_end.
Definition exact_begin (files : list (list Z)) (offset_begin file_ptr : nat) : result nat :=
  start ← rd (file_offset_ files) file_ptr;
  if (offset_begin =? start)%nat then Ok offset_begin else seek_record files offset_begin start file_ptr.

Definition ResetPartition (rank nsplit : nat) (s : InputSplitBase) : result InputSplitBase :=
  if (nsplit =? 0)%nat then Err (Undefined "division by zero") else
  let ntotal := sum_list (length <$> files_ s) in
  let nstep := ((ntotal + nsplit - 1) / nsplit)%nat in
  let nstep := ((nstep + align_bytes - 1) / align_bytes * align_bytes)%nat in
  let offset_begin := ((nstep * rank) `min` ntotal)%nat in
  let offset_end := ((nstep * (rank + 1)) `min` ntotal)%nat in
  let s := {| files_ := files_ s; offset_begin_ := offset_begin; offset_end_ := offset_end; offset_curr_ := offset_begin;
              fs_ := fs_ s; file_ptr_ := file_ptr_ s; file_ptr_end_ := file_ptr_end_ s;
              overflow_ := overflow_ s; tmp_chunk_ := tmp_chunk_ s; buffer_size_ := buffer_size_ s |} in
  if (offset_begin =? offset_end)%nat then Ok s else
  let file_ptr := (upper_bound (file_offset_ (files_ s)) offset_begin - 1)%nat in
  let file_ptr_end := (upper_bound (file_offset_ (files_ s)) offset_end - 1)%nat in
  offset_end ← exact_end (files_ s) offset_end file_ptr_end;
  offset_begin ← exact_begin (files_ s) offset_begin file_ptr;
  BeforeFirst {| files_ := files_ s; offset_begin_ := offset_begin; offset_end_ := offset_end; offset_curr_ := offset_curr_ s;
                 fs_ := Some (file_ptr, 0%nat); file_ptr_ := file_ptr; file_ptr_end_ := file_ptr_end;
                 overflow_ := overflow_ s; tmp_chunk_ := tmp_chunk_ s; buffer_size_ := buffer_size_ s |}.

Definition set_curr (curr : nat) (fs : option (nat * nat)) (ptr : nat) (s : InputSplitBase) : InputSplitBase := {|
  files_ := files_ s; offset_begin_ := offset_begin_ s; offset_end_ := offset_end_ s; offset_curr_ := curr; fs_ := fs; file_ptr_ := ptr;
  file_ptr_end_ := file_ptr_end_ s; overflow_ := overflow_ s; tmp_chunk_ := tmp_chunk_ s; buffer_size_ := buffer_size_ s |}.
Definition set_overflow (o : list Z) (s : InputSplitBase) : InputSplitBase := {|
  files_ := files_ s; offset_begin_ := offset_begin_ s; offset_end_ := offset_end_ s; offset_curr_ := offset_curr_ s; fs_ := fs_ s; file_ptr_ := file_ptr_ s;
  file_ptr_end_ := file_ptr_end_ s; overflow_ := o; tmp_chunk_ := tmp_chunk_ s; buffer_size_ := buffer_size_ s |}.
Definition set_chunk (c : Chunk) (s : InputSplitBase) : InputSplitBase := {|
  files_ := files_ s; offset_begin_ := offset_begin_ s; offset_end_ := offset_end_ s; offset_curr_ := offset_curr_ s; fs_ := fs_ s; file_ptr_ := file_ptr_ s;
  file_ptr_end_ := file_ptr_end_ s; overflow_ := overflow_ s; tmp_chunk_ := c; buffer_size_ := buffer_size_ s |}.

(** The loop of Read: a newline is inserted where a file ends. *)
Fixpoint read_loop (fuel nleft : nat) (acc : list Z) (fs : nat * nat) (s : InputSplitBase) : result (list Z * InputSplitBase) :=
  match fuel with
  | O => Err (Blocked "reading files")
  | S fuel =>
      f ← rd (files_ s) fs.1;
      let bs := take nleft (drop fs.2 f) in
      let n := length bs in
      let nleft := (nleft - n)%nat in
      let acc := acc ++ bs in
      let fs := (fs.1, fs.2 + n)%nat in
      let s := set_curr (offset_curr_ s + n) (Some fs) (file_ptr_ s) s in
      if (nleft =? 0)%nat then Ok (acc, s)
      else if (n =? 0)%nat then
        let acc := acc ++ [10] in
        let nleft := (nleft - 1)%nat in
        next ← rd (file_offset_ (files_ s)) (file_ptr_ s + 1);
        check (offset_curr_ s =? next)%nat "file offset not calculated correctly";;
        if (length (files_ s) <=? file_ptr_ s + 1)%nat then Ok (acc, s)
        else read_loop fuel nleft acc (file_ptr_ s + 1, 0)%nat (set_curr (offset_curr_ s) (Some (file_ptr_ s + 1, 0)%nat) (file_ptr_ s + 1) s)
      else read_loop fuel nleft acc fs s
  end.

(** Two rounds for every file that is left. *)
Definition Read (size : nat) (s : InputSplitBase) : result (list Z * InputSplitBase) :=
  match fs_ s with
  | None => Ok ([], s)
  | Some fs =>
      if (offset_end_ s <=? offset_begin_ s)%nat then Ok ([], s) else
      let num_extra_eol := Z.of_nat (length (files_ s)) - Z.of_nat (file_ptr_ s) - 1 in
      let size := if (offset_end_ s <? offset_curr_ s + size)%nat
                  then Z.to_nat (u64 (Z.of_nat (offset_end_ s) - Z.of_nat (offset_curr_ s) + num_extra_eol)) else size in
      if (size =? 0)%nat then Ok ([], s) else read_loop (2 * length (files_ s) + 2) size [] fs s
  end.

(** [None] when nothing is left, else the bytes of the chunk: none if the buffer is too small
    for a record. *)
Definition ReadChunk (max_size : nat) (s : InputSplitBase) : result (option (list Z) * InputSplitBase) :=
  if (max_size <=? length (overflow_ s))%nat then Ok (Some [], s) else
  let o := overflow_ s in
  x ← Read (max_size - length o) (set_overflow [] s);
  let buf := o ++ x.1 in
  if (length buf =? 0)%nat then Ok (None, x.2)
  else if negb (length buf =? max_size)%nat then Ok (Some buf, x.2)
  else
    bend ← FindLastRecordBegin buf;
    Ok (Some (take bend buf), set_overflow (drop bend buf) x.2).

Fixpoint load_loop (fuel words : nat) (s : InputSplitBase) : result (option (list Z) * nat * InputSplitBase) :=
  match fuel with
  | O => Err (Blocked "loading a chunk")
  | S fuel =>
      x ← ReadChunk ((words - 1) * 4) s;
      match x.1 with
      | None => Ok (None, words, x.2)
      | Some [] => load_loop fuel (words * 2) x.2
      | Some buf => Ok (Some buf, words, x.2)
      end
  end.

(** Chunk::Load: the vector is doubled until it holds a record, at most as often as there are
    bytes. *)
Definition Load (s : InputSplitBase) : result (bool * InputSplitBase) :=
  x ← load_loop (S (S (sum_list (length <$> files_ s)))) (S (buffer_size_ s)) s;
  let '(buf, words, s) := x in
  match (buf : option (list Z)) with
  | None => Ok (false, set_chunk {| data := data (tmp_chunk_ s); cbegin := cbegin (tmp_chunk_ s); cend := cend (tmp_chunk_ s); num_words := words |} s)
  | Some buf => Ok (true, set_chunk {| data := buf; cbegin := 0; cend := length buf; num_words := words |} s)
  end.

(** A chunk that was loaded has a record: the loop runs at most twice. *)
Fixpoint next_loop (fuel : nat) (s : InputSplitBase) : result (option (list Z) * InputSplitBase) :=
  match fuel with
  | O => Err (Blocked "reading records")
  | S fuel =>
      x ← ExtractNextRecord (tmp_chunk_ s);
      let s := set_chunk x.2 s in
      match x.1 with
      | Some r => Ok (Some r, s)
      | None => y ← Load s; if (y.1 : bool) then next_loop fuel y.2 else Ok (None, y.2)
      end
  end.
Definition NextRecord (s : InputSplitBase) : result (option (list Z) * InputSplitBase) := next_loop 2 s.

Fixpoint read_all (fuel : nat) (s : InputSplitBase) : result (list (list Z)) :=
  match fuel with
  | O => Err (Blocked "reading records")
  | S fuel =>
      x ← NextRecord s;
      match x.1 with
      | Some r => rs ← read_all fuel x.2; Ok (r :: rs)
      | None => Ok []
      end
  end.

(** The records of one part: a splitter is made, and read until it ends. *)
Definition new_splitter (files : list (list Z)) (buffer_size rank nsplit : nat) : result InputSplitBase :=
  s ← Init files buffer_size; ResetPartition rank nsplit s.
Definition read_split (files : list (list Z)) (buffer_size rank nsplit : nat) : result (list (list Z)) :=
  s ← new_splitter files buffer_size rank nsplit; read_all (S (sum_list (length <$> files))) s.
End Split.

(** ** RecordIO files *)
Definition starts_record (lrec : Z) : bool := (DecodeFlag lrec =? 0) || (DecodeFlag lrec =? 1).

Fixpoint seek_begin (fuel : nat) (fi : list Z) (nstep : nat) : result nat :=
  match fuel with
  | O => Err (Blocked "looking for a record")
  | S fuel =>
      let v := take 4 fi in
      if (length v =? 0)%nat then Ok nstep
      else if negb (length v =? 4)%nat then Err (Undefined "a word read in part")
      else if le_word v =? kMagic then
        let lrec := take 4 (drop 4 fi) in
        check (negb (length lrec =? 0)%nat) "invalid record io format";;
        if negb (length lrec =? 4)%nat then Err (Undefined "a word read in part")
        else if starts_record (le_word lrec) then Ok (nstep + 8 - 8)%nat
        else seek_begin fuel (drop 8 fi) (nstep + 8)
      else seek_begin fuel (drop 4 fi) (nstep + 4)
  end.
Definition RecordIO_SeekRecordBegin (fi : list Z) : result nat := seek_begin (S (length fi)) fi 0.

(** The words of a buffer from word [w] down. *)
Fixpoint find_last (w : nat) (buf : list Z) : result nat :=
  match w with
  | O => Ok 0%nat
  | S w' =>
      v ← word_at buf (4 * w);
      lrec ← word_at buf (4 * w + 4);
      if (v =? kMagic) && starts_record lrec then Ok (4 * w)%nat else find_last w' buf
  end.
Definition RecordIO_FindLastRecordBegin (buf : list Z) : result nat :=
  check (length buf mod 4 =? 0)%nat "end & 3 == 0";;
  check (8 <=? length buf)%nat "p >= pbegin + 2";;
  find_last (length buf / 4 - 2) buf.

(** [memcpy] and [memmove] into a buffer. *)
Definition store (m : list Z) (p : nat) (bs : list Z) : list Z := take p m ++ bs ++ drop (p + length bs) m.

(** The parts of a record that was cut are moved together: the record is [size] bytes from
    [dptr]. *)
Fixpoint move_parts (fuel : nat) (m : list Z) (begin end_ dptr size : nat) : result (list Z * nat * nat) :=
  match fuel with
  | O => Err (Blocked "moving parts of a record")
  | S fuel =>
      check (begin + 8 <=? end_)%nat "chunk->begin + 2 * sizeof(uint32_t) <= chunk->end";;
      v ← word_at m begin;
      check (v =? kMagic) "p[0] == kMagic";;
      lrec ← word_at m (begin + 4);
      let cflag := DecodeFlag lrec in
      let clen := Z.to_nat (DecodeLength lrec) in
      let m := store m (dptr + size) magic in
      let size := (size + 4)%nat in
      if (length m <? begin + 8 + clen)%nat then Err (Undefined "read out of range") else
      let m := store m (dptr + size) (take clen (drop (begin + 8) m)) in
      let size := (size + clen)%nat in
      let begin := (begin + 8 + upper_align clen)%nat in
      if cflag =? 3 then Ok (m, begin, size) else move_parts fuel m begin end_ dptr size
  end.

Definition RecordIO_ExtractNextRecord (c : Chunk) : result (option (list Z) * Chunk) :=
  if (cbegin c =? cend c)%nat then Ok (None, c) else
  check (cbegin c + 8 <=? cend c)%nat "Invalid RecordIO Format";;
  check (cbegin c mod 4 =? 0)%nat "chunk->begin & 3 == 0";;
  check (cend c mod 4 =? 0)%nat "chunk->end & 3 == 0";;
  lrec ← word_at (data c) (cbegin c + 4);
  let cflag := DecodeFlag lrec in
  let clen := Z.to_nat (DecodeLength lrec) in
  let dptr := (cbegin c + 8)%nat in
  let begin := (cbegin c + 8 + upper_align clen)%nat in
  check (begin <=? cend c)%nat "Invalid RecordIO Format";;
  if cflag =? 0 then Ok (Some (take clen (drop dptr (data c))), {| data := data c; cbegin := begin; cend := cend c; num_words := num_words c |})
  else
    check (cflag =? 1) "Invalid RecordIO Format";;
    x ← move_parts (S (length (data c))) (data c) begin (cend c) dptr clen;
    let '(m, begin, size) := x in
    Ok (Some (take size (drop dptr m)), {| data := m; cbegin := begin; cend := cend c; num_words := num_words c |}).

#[export] Instance RecordIOSplitter : Splitter := {|
  align_bytes := 4; SeekRecordBegin := RecordIO_SeekRecordBegin; FindLastRecordBegin := RecordIO_FindLastRecordBegin;
  ExtractNextRecord := RecordIO_ExtractNextRecord |}.
