(* ===== verification/InputSplitSound.v ===== *)
(** * The parts of a RecordIO file

    The records that the readers of a RecordIO file get, for any number of readers, are those
    of the file, each once and in order; and two files are not read at all. *)

From S2P Require Import Prelude RecordIO RecordIOChunk InputSplit.
Local Open Scope Z_scope.

(** ** Looking for a record in a stream *)
Definition seeks (fi : list Z) (n v : nat) : Prop := ∀ fuel, (length fi < fuel)%nat → seek_begin fuel fi n = Ok v.

Lemma seeks_nil n : seeks [] n n.
Proof. intros [|fuel] Hf; [cbn in Hf; lia|]. done. Qed.

Lemma seeks_word w s n v : length w = 4%nat → le_word w ≠ kMagic → seeks s (n + 4) v → seeks (w ++ s) n v.
Proof.
  intros Hw Hm Hs [|fuel] Hf; [lia|]. cbn [seek_begin]. rewrite take_app_length', Hw by done. cbn [Nat.eqb negb]. rewrite (proj2 (Z.eqb_neq _ _) Hm), drop_app_length' by done. apply Hs. rewrite length_app in Hf. lia.
Qed.
Lemma seeks_inner l s n v : length l = 4%nat → 2 ≤ DecodeFlag (le_word l) → seeks s (n + 8) v → seeks (magic ++ l ++ s) n v.
Proof.
  intros Hl Hd Hs [|fuel] Hf; [lia|]. cbn [seek_begin]. rewrite take_app_length', length_magic by done. cbn [Nat.eqb negb]. rewrite word_magic, Z.eqb_refl, drop_app_length', take_app_length', Hl by done. cbn [Nat.eqb negb]. rewrite check_bind_ok by done.
  unfold starts_record. rewrite !(proj2 (Z.eqb_neq _ _)) by lia. cbn [orb]. rewrite (assoc_L (++)), drop_app_length' by (by rewrite length_app, Hl). apply Hs. rewrite !length_app in Hf. lia.
Qed.
Lemma starts_record_head l : 0 ≤ DecodeFlag l ≤ 1 → starts_record l = true.
Proof. intros Hd. unfold starts_record. assert (DecodeFlag l = 0 ∨ DecodeFlag l = 1) as [-> | ->] by lia; done. Qed.
Lemma seeks_start l s n : length l = 4%nat → 0 ≤ DecodeFlag (le_word l) ≤ 1 → seeks (magic ++ l ++ s) n n.
Proof.
  intros Hl Hd [|fuel] Hf; [lia|]. cbn [seek_begin]. rewrite take_app_length', length_magic by done. cbn [Nat.eqb negb]. rewrite word_magic, Z.eqb_refl, drop_app_length', take_app_length', Hl by done. cbn [Nat.eqb negb]. rewrite check_bind_ok by done.
  rewrite starts_record_head by done. f_equal. lia.
Qed.

Lemma seeks_quiet s : quiet s → ∀ post n v, seeks post (n + length s) v → seeks (s ++ post) n v.
Proof.
  induction 1 as [|b s Hb Hw Hs IH|l s Hl Hw Hf Hs IH]; intros post n v Hv.
  - by rewrite Nat.add_0_r in Hv.
  - rewrite <- (assoc_L (++)). apply seeks_word; [done|done|]. apply IH. rewrite length_app, Hb in Hv. by rewrite <- Nat.add_assoc.
  - rewrite <- !(assoc_L (++)). apply seeks_inner; [done|done|]. apply IH. rewrite !length_app, Hl, length_magic in Hv. by rewrite <- Nat.add_assoc.
Qed.

(** The distance from byte [p] of a chunk to the next record. *)
Definition ahead (bss : list (list Z)) (p : nat) : nat := (length (mjoin (take (before bss p) bss)) - p)%nat.

Lemma seeks_next rs bss : stores rs bss → ∀ p n, (4 * p ≤ length (mjoin bss))%nat →
  seeks (drop (4 * p) (mjoin bss)) n (n + ahead bss (4 * p)) ∧ (4 * p ≤ length (mjoin (take (before bss (4 * p)) bss)))%nat.
Proof.
  unfold ahead. induction 1 as [|r bs rs bss [Hs Hb] _ IH]; intros p n Hp.
  - cbn in Hp. replace (4 * p)%nat with 0%nat by lia. cbn. rewrite Nat.add_0_r. split; [apply seeks_nil|done].
  - rewrite blocks_cons in Hp |- *. rewrite length_app in Hp. cbn [before]. destruct (stored_head r bs Hs Hb) as (l & s & Hbs & Hl & Hw & Hf & Hq).
    destruct (Nat.ltb_spec 0 (4 * p)) as [Hpos|H0].
    2: { replace (4 * p)%nat with 0%nat by lia. cbn [take mjoin list_join length drop]. rewrite Nat.add_0_r, Hbs, <- !(assoc_L (++)). split; [by apply seeks_start|lia]. }
    cbn [take]. rewrite blocks_cons, length_app. destruct (decide (4 * p ≤ length bs)%nat) as [Hle|Hgt].
    + destruct (IH 0%nat (n + (length bs - 4 * p))%nat ltac:(lia)) as [IH0 _]. rewrite Nat.mul_0_r, drop_0, Nat.sub_0_r in IH0. replace (4 * p - length bs)%nat with 0%nat by lia. split; [|lia].
      rewrite drop_app_le by done. apply seeks_quiet.
      * destruct p as [|p]; [lia|]. replace (4 * S p)%nat with (4 + 4 * p)%nat by lia. rewrite <- drop_drop, Hbs, drop_app_length' by done. apply quiet_drop. by constructor.
      * rewrite length_drop. match goal with |- seeks _ _ ?x => match type of IH0 with seeks _ _ ?y => by replace x with y by lia end end.
    + destruct (quiet_words s Hq) as [k Hk]. assert (length bs = 4 * (2 + k))%nat as Hbl by (rewrite Hbs, !length_app, length_magic; lia).
      destruct (IH (p - (2 + k))%nat n ltac:(lia)) as [IHs IHl]. replace (4 * p - length bs)%nat with (4 * (p - (2 + k)))%nat by lia. split; [|lia].
      rewrite drop_app_ge by lia. replace (4 * p - length bs)%nat with (4 * (p - (2 + k)))%nat by lia. match goal with |- seeks _ _ ?x => match type of IHs with seeks _ _ ?y => by replace x with y by lia end end.
Qed.

Lemma SeekRecordBegin_ok rs bss p : stores rs bss → (4 * p ≤ length (mjoin bss))%nat →
  (n ← RecordIO_SeekRecordBegin (drop (4 * p) (mjoin bss)); Ok (4 * p + n)%nat) = Ok (length (mjoin (take (before bss (4 * p)) bss))).
Proof.
  intros Hst Hp. destruct (seeks_next rs bss Hst p 0 Hp) as [Hs Hle]. unfold RecordIO_SeekRecordBegin. rewrite (Hs (S (length (drop (4 * p) (mjoin bss))))) by lia. rstep. f_equal. unfold ahead. lia.
Qed.

(** ** Looking for the last record of a buffer *)
Lemma head_boundary rs bss w lrec : stores rs bss → word_at (mjoin bss) (4 * w) = Ok kMagic → word_at (mjoin bss) (4 * w + 4) = Ok lrec → starts_record lrec = true →
  ∃ k, (4 * w)%nat = length (mjoin (take k bss)).
Proof.
  intros Hst Hw Hl Hd. unfold word_at in Hl. destruct (Nat.leb_spec (4 * w + 4 + 4) (length (mjoin bss))) as [Hle|]; [|done].
  pose proof (finds_next (mjoin bss) rs bss Hst [] w eq_refl ltac:(lia) (S (length (mjoin bss))) ltac:(cbn; lia)) as Hf. cbn [length Nat.add] in Hf. cbn [find_head] in Hf.
  rewrite (proj2 (Nat.ltb_lt _ _)) in Hf by lia. rewrite Hw in Hf. cbn [mbind result_bind] in Hf. rewrite Z.eqb_refl in Hf. unfold word_at in Hf at 1. rewrite (proj2 (Nat.leb_le _ _)) in Hf by lia. rewrite Hl in Hf. cbn [mbind result_bind] in Hf.
  unfold starts_record in Hd. rewrite Hd in Hf. injection Hf as Hf. by exists (before bss (4 * w)).
Qed.

Lemma word_at_take n m p x : word_at (take n m) p = Ok x → word_at m p = Ok x.
Proof.
  unfold word_at. rewrite length_take. destruct (Nat.leb_spec (p + 4) (n `min` length m)) as [Hle|]; [|done]. rewrite (proj2 (Nat.leb_le _ _)) by lia. intros [= <-]. do 2 f_equal.
  rewrite skipn_firstn_comm, take_take. by replace (4 `min` (n - p))%nat with 4%nat by lia.
Qed.

Lemma FindLast_ok rs bss q : stores rs bss → (2 ≤ q)%nat → (4 * q ≤ length (mjoin bss))%nat → ∃ k, RecordIO_FindLastRecordBegin (take (4 * q) (mjoin bss)) = Ok (length (mjoin (take k bss))) ∧ (length (mjoin (take k bss)) ≤ 4 * q)%nat.
Proof.
  intros Hst Hq Hle. set (B := take (4 * q) (mjoin bss)). assert (length B = 4 * q)%nat as HB by (unfold B; rewrite length_take; lia). unfold RecordIO_FindLastRecordBegin. rewrite HB.
  rewrite check_bind_ok by (by rewrite Nat.mul_comm, Nat.Div0.mod_mul). rewrite check_bind_ok by (apply Nat.leb_le; lia). replace (4 * q / 4)%nat with q by (rewrite Nat.mul_comm, Nat.div_mul; lia).
  assert (∀ w, (w + 2 ≤ q)%nat → ∃ k, find_last w B = Ok (length (mjoin (take k bss))) ∧ (length (mjoin (take k bss)) ≤ 4 * q)%nat) as H; [|by apply H; lia].
  induction w as [|w IH]; intros Hw; [exists 0%nat; split; [done|apply Nat.le_0_l]|]. cbn [find_last]. destruct (word_at B (4 * S w)) as [v|] eqn:Hv; [|unfold word_at in Hv; rewrite HB, (proj2 (Nat.leb_le _ _)) in Hv by lia; done].
  destruct (word_at B (4 * S w + 4)) as [lrec|] eqn:Hl; [|unfold word_at in Hl; rewrite HB, (proj2 (Nat.leb_le _ _)) in Hl by lia; done]. cbn [mbind result_bind].
  destruct (Z.eqb_spec v kMagic) as [->|]; [|apply IH; lia]. destruct (starts_record lrec) eqn:Hd; cbn [andb]; [|apply IH; lia].
  destruct (head_boundary rs bss (S w) lrec Hst) as [k Hk]; [by eapply word_at_take|by eapply word_at_take|done|]. exists k. rewrite <- Hk. split; [done|lia].
Qed.

(** ** Taking a record from a chunk *)
Lemma store_app X R bs : store (X ++ R) (length X) bs = X ++ bs ++ drop (length bs) R.
Proof. unfold store. rewrite take_app_length. do 2 f_equal. rewrite <- drop_drop. by rewrite drop_app_length. Qed.

(** One more part is moved behind the [rec] bytes so far, over the gap [g]. *)
Lemma move_piece fuel A rec g f acc t rest pend : 0 ≤ f ≤ 3 → aligned acc → Z.of_nat (length (mjoin acc ++ t)) < 2 ^ 29 →
  let m := A ++ rec ++ g ++ piece f acc t ++ rest in
  let rec' := rec ++ magic ++ mjoin acc ++ t in
  (length (A ++ rec ++ g ++ piece f acc t) ≤ pend)%nat →
  ∃ g', length (A ++ rec' ++ g') = length (A ++ rec ++ g ++ piece f acc t) ∧
  move_parts (S fuel) m (length (A ++ rec ++ g)) pend (length A) (length rec) =
  if f =? 3 then Ok (A ++ rec' ++ g' ++ rest, length (A ++ rec' ++ g'), length rec')
  else move_parts fuel (A ++ rec' ++ g' ++ rest) (length (A ++ rec' ++ g')) pend (length A) (length rec').
Proof.
  intros Hf Ha Hlen m rec' Hend. set (x := mjoin acc ++ t) in *. set (l := le_bytes 4 (EncodeLRec f (Z.of_nat (length x)))). assert (length l = 4%nat) as Hl by apply length_le_bytes.
  assert (le_word l = EncodeLRec f (Z.of_nat (length x))) as Hw by (apply word_lrec; [done|split; [apply Nat2Z.is_nonneg|done]]). pose proof (piece_end f acc t Ha) as Hpl. fold x in Hpl. pose proof (upper_align_ge (length x)) as Hup.
  assert (piece f acc t = magic ++ l ++ x ++ padding t) as Hp by (unfold piece, l, x; by rewrite <- !(assoc_L (++))). assert (length (padding t) = upper_align (length x) - length x)%nat as Hpad by (rewrite Hp, !length_app, Hl, length_magic in Hpl; lia).
  assert (m = (A ++ rec ++ g) ++ magic ++ l ++ x ++ padding t ++ rest) as Hm by (unfold m; rewrite Hp, <- !(assoc_L (++)); done). rewrite !length_app in Hend.
  set (g1 := drop 4 (g ++ magic ++ l)). assert (length g1 = length g + 4)%nat as Hg1 by (unfold g1; rewrite length_drop, !length_app, Hl, length_magic; lia).
  set (g2 := drop (length x) (g1 ++ x)). assert (length g2 = length g + 4)%nat as Hg2 by (unfold g2; rewrite length_drop, !length_app; lia).
  assert (store m (length A + length rec) magic = (A ++ rec ++ magic) ++ g1 ++ x ++ padding t ++ rest) as Hs1.
  { replace m with ((A ++ rec) ++ (g ++ magic ++ l) ++ x ++ padding t ++ rest) by (by rewrite Hm, <- !(assoc_L (++))). rewrite <- length_app, store_app, length_magic. rewrite drop_app_le by (rewrite !length_app, Hl; cbn; lia). fold g1. by rewrite <- !(assoc_L (++)). }
  assert (store ((A ++ rec ++ magic) ++ g1 ++ x ++ padding t ++ rest) (length A + (length rec + 4)) x = A ++ rec' ++ (g2 ++ padding t) ++ rest) as Hs2.
  { replace (length A + (length rec + 4))%nat with (length (A ++ rec ++ magic)) by (by rewrite !length_app). rewrite store_app. rewrite (assoc_L (++) g1 x), drop_app_le by (rewrite length_app; lia). fold g2. unfold rec'. fold x. by rewrite <- !(assoc_L (++)). }
  exists (g2 ++ padding t). split; [unfold rec'; rewrite !length_app; fold x; rewrite Hpl, Hpad, Hg2, length_magic; lia|].
  cbn [move_parts]. rewrite check_bind_ok by (apply Nat.leb_le; rewrite !length_app; lia). rewrite Hm at 1. rewrite word_at_app by done. rstep. rewrite check_bind_ok by done. rewrite Hm at 1. rewrite word_at_second by done. rstep. rewrite Hw.
  destruct (lrec_sum f _ Hf (conj (Nat2Z.is_nonneg _) Hlen)) as (-> & -> & _). rewrite Nat2Z.id, Hs1. rewrite (proj2 (Nat.ltb_ge _ _)) by (rewrite !length_app, length_magic, Hg1; lia).
  replace (length (A ++ rec ++ g) + 8)%nat with (length ((A ++ rec ++ magic) ++ g1)) by (rewrite !length_app, length_magic, Hg1; lia). rewrite (assoc_L (++) (A ++ rec ++ magic)), drop_app_length, take_app_length, <- (assoc_L (++) (A ++ rec ++ magic)), Hs2.
  replace (length ((A ++ rec ++ magic) ++ g1) + upper_align (length x))%nat with (length (A ++ rec' ++ g2 ++ padding t)) by (unfold rec'; rewrite !length_app; fold x; rewrite Hpad, Hg2, Hg1, length_magic; lia).
  replace (length rec + 4 + length x)%nat with (length rec') by (unfold rec'; rewrite !length_app; fold x; rewrite length_magic; lia). done.
Qed.

Lemma move_emit rest pend bl t : (length t < 4)%nat → ∀ A rec g acc fuel, aligned acc → aligned bl → Z.of_nat (length (mjoin acc ++ mjoin bl ++ t)) < 2 ^ 29 →
  (length (A ++ rec ++ g ++ emit false acc bl t) ≤ pend)%nat → (length bl < fuel)%nat →
  let rec' := rec ++ magic ++ mjoin acc ++ mjoin bl ++ t in
  ∃ g', length (A ++ rec' ++ g') = length (A ++ rec ++ g ++ emit false acc bl t) ∧
  move_parts fuel (A ++ rec ++ g ++ emit false acc bl t ++ rest) (length (A ++ rec ++ g)) pend (length A) (length rec) = Ok (A ++ rec' ++ g' ++ rest, length (A ++ rec' ++ g'), length rec').
Proof.
  intros Ht. induction bl as [|b bl IH]; intros A rec g acc fuel Ha Hbl Hlen Hend Hfuel; (destruct fuel as [|fuel]; [lia|]); cbn [emit] in *.
  - destruct (move_piece fuel A rec g 3 acc t rest pend ltac:(lia) Ha Hlen Hend) as (g' & Hl & ->). by exists g'.
  - apply Forall_cons in Hbl as [Hb Hbl]. rewrite blocks_cons, !length_app in Hlen. cbn [length] in Hfuel. case_bool_decide as Hmag.
    + destruct (move_piece fuel A rec g 2 acc [] (emit false [] bl t ++ rest) pend ltac:(lia) Ha) as (g1 & Hl1 & Hm1); [rewrite app_nil_r; lia|rewrite !length_app in *; lia|].
      rewrite <- (assoc_L (++) (piece 2 acc [])), Hm1. cbn [Z.eqb Pos.eqb]. destruct (IH A (rec ++ magic ++ mjoin acc ++ []) g1 [] fuel) as (g2 & Hl2 & Hm2); [by constructor|done|rewrite !length_app; cbn; lia|rewrite !length_app in *; lia|lia|].
      exists g2. rewrite Hm2. rewrite Hmag, blocks_cons. cbn [mjoin list_join app] in *. rewrite !app_nil_r, <- !(assoc_L (++)) in *. split; [rewrite !length_app in *; lia|done].
    + destruct (IH A rec g (acc ++ [b]) (S fuel)) as (g' & Hl & Hm); [by apply aligned_snoc|done|rewrite join_app, !length_app; cbn; rewrite app_nil_r; lia|done|lia|].
      exists g'. rewrite Hm. rewrite join_app, blocks_cons in *. cbn [mjoin list_join] in *. rewrite !app_nil_r, <- !(assoc_L (++)) in *. by split.
Qed.

Lemma Extract_ok G bs rest r words : stored r bs → (length G mod 4 = 0)%nat → (length (G ++ bs ++ rest) mod 4 = 0)%nat →
  ∃ G', length G' = length (G ++ bs) ∧
  RecordIO_ExtractNextRecord {| data := G ++ bs ++ rest; cbegin := length G; cend := length (G ++ bs ++ rest); num_words := words |} =
  Ok (Some r, {| data := G' ++ rest; cbegin := length G'; cend := length (G' ++ rest); num_words := words |}).
Proof.
  intros Hs HG Hend. pose proof (stored_length r bs Hs) as H8. destruct Hs as (bl & t & -> & Hbl & Ht & -> & Hlen). unfold RecordIO_ExtractNextRecord. cbn [data cbegin cend num_words].
  rewrite (proj2 (Nat.eqb_neq _ _)) by (rewrite !length_app; lia). rewrite check_bind_ok by (apply Nat.leb_le; rewrite !length_app; lia). rewrite check_bind_ok by (by rewrite HG). rewrite check_bind_ok by (by rewrite Hend).
  destruct (emit_cases t bl []) as [He|(a & bl' & Hsplit & He)]; rewrite He in *.
  - change ([] ++ bl) with bl in *. assert (length (piece 0 bl t) = (8 + upper_align (length (mjoin bl ++ t)))%nat) as Hpe by (by apply piece_end). exists (G ++ piece 0 bl t). split; [done|].
    rewrite piece_split. rewrite word_at_second by apply length_le_bytes. rstep. rewrite word_lrec by (done || (split; [apply Nat2Z.is_nonneg|done])). destruct (lrec_sum 0 _ ltac:(lia) (conj (Nat2Z.is_nonneg _) Hlen)) as (-> & -> & _). rewrite Nat2Z.id.
    rewrite check_bind_ok by (apply Nat.leb_le; rewrite <- piece_split, !length_app, Hpe, !length_app; lia). cbn [Z.eqb]. rewrite piece_data by apply length_le_bytes. rewrite <- piece_split, <- (assoc_L (++)).
    by replace (length G + 8 + upper_align (length (mjoin bl ++ t)))%nat with (length (G ++ piece 0 bl t)) by (rewrite length_app, Hpe; lia).
  - change ([] ++ bl) with bl in Hsplit. subst bl. apply Forall_app in Hbl as [Ha Hbl]. apply Forall_cons in Hbl as [_ Hbl]. rewrite join_app, blocks_cons in *.
    assert (Z.of_nat (length (mjoin a ++ [])) < 2 ^ 29 ∧ Z.of_nat (length (mjoin bl' ++ t)) < 2 ^ 29) as [Hla Hlb] by (rewrite app_nil_r, !length_app in *; lia).
    set (l := le_bytes 4 (EncodeLRec 1 (Z.of_nat (length (mjoin a ++ []))))). assert (length l = 4%nat) as Hll by apply length_le_bytes.
    assert (G ++ (piece 1 a [] ++ emit false [] bl' t) ++ rest = (G ++ magic ++ l) ++ mjoin a ++ [] ++ emit false [] bl' t ++ rest) as Hd by (rewrite <- (assoc_L (++) (piece 1 a [])), piece_split; fold l; by rewrite app_nil_r, <- !(assoc_L (++))).
    assert (G ++ (piece 1 a [] ++ emit false [] bl' t) ++ rest = G ++ magic ++ l ++ mjoin a ++ emit false [] bl' t ++ rest) as Hd' by (rewrite Hd, <- !(assoc_L (++)); done).
    assert (length (mjoin a) = 4 * length a)%nat as Hla4 by (by apply length_blocks).
    destruct (move_emit rest (length (G ++ (piece 1 a [] ++ emit false [] bl' t) ++ rest)) bl' t Ht (G ++ magic ++ l) (mjoin a) [] [] (S (length (G ++ (piece 1 a [] ++ emit false [] bl' t) ++ rest)))) as (g & Hg & Hmove); [by constructor|done|done| | |].
    { rewrite Hd, !length_app. cbn [length]. lia. }
    { pose proof (length_emit bl' t false [] ltac:(by constructor) Hbl). rewrite !length_app. lia. }
    exists ((G ++ magic ++ l) ++ (mjoin a ++ magic ++ mjoin bl' ++ t) ++ g). cbn [mjoin list_join app] in Hg. split; [rewrite Hg, !length_app, length_piece, Hll, length_magic by done; cbn; lia|].
    assert (le_word l = EncodeLRec 1 (Z.of_nat (length (mjoin a ++ [])))) as Hw by (apply word_lrec; [done|split; [apply Nat2Z.is_nonneg|done]]).
    rewrite Hd' at 1. rewrite word_at_second by done. rstep. rewrite Hw. destruct (lrec_sum 1 _ ltac:(lia) (conj (Nat2Z.is_nonneg _) Hla)) as (-> & -> & _). rewrite Nat2Z.id, app_nil_r, Hla4, upper_align_mul.
    rewrite check_bind_ok by (apply Nat.leb_le; rewrite Hd, !length_app, Hll, length_magic; lia). cbn [Z.eqb Pos.eqb]. rewrite check_bind_ok by done.
    replace (length G + 8)%nat with (length (G ++ magic ++ l)) by (rewrite !length_app, Hll, length_magic; lia). replace (length (G ++ magic ++ l) + 4 * length a)%nat with (length ((G ++ magic ++ l) ++ mjoin a ++ [])) by (rewrite app_nil_r, (length_app (G ++ _)), Hla4; lia). rewrite <- Hla4.
    assert (length (G ++ (piece 1 a [] ++ emit false [] bl' t) ++ rest) = length (((G ++ magic ++ l) ++ (mjoin a ++ magic ++ mjoin bl' ++ t) ++ g) ++ rest)) as Hc by (rewrite (length_app ((G ++ magic ++ l) ++ (mjoin a ++ magic ++ mjoin bl' ++ t) ++ g) rest), Hg, Hd, !length_app; cbn [length]; lia).
    rewrite Hd at 2. rewrite Hmove. rstep. rewrite Hc. change (mjoin ([] : blocks) ++ mjoin bl' ++ t) with (mjoin bl' ++ t). rewrite drop_app_length, take_app_length. by rewrite <- !(assoc_L (++)).
Qed.

(** ** Reading a range of a file *)
Definition slice (m : list Z) (b e : nat) : list Z := take (e - b) (drop b m).
#[local] Arguments slice _ _ _ : simpl never.

(** A split of one file [m] that still has the bytes of [bss] to load. *)
Record ready (m : list Z) (s : InputSplitBase) (bss : list (list Z)) : Prop := {
  rd_files : files_ s = [m];
  rd_stream : fs_ s = Some (0, offset_curr_ s)%nat;
  rd_ptr : file_ptr_ s = 0%nat;
  rd_range : (offset_begin_ s < offset_end_ s)%nat;
  rd_curr : (offset_curr_ s ≤ offset_end_ s ≤ length m)%nat;
  rd_size : Z.of_nat (length m) < 2 ^ 64;
  rd_buffer : (2 ≤ buffer_size_ s)%nat;
  rd_over : (length (overflow_ s) ≤ offset_curr_ s)%nat;
  rd_left : overflow_ s ++ slice m (offset_curr_ s) (offset_end_ s) = mjoin bss }.

(** As many bytes as are asked for. *)
Lemma read_last fuel nleft acc i p s f : files_ s !! i = Some f → (nleft ≤ length f - p)%nat →
  read_loop (S fuel) nleft acc (i, p) s = Ok (acc ++ take nleft (drop p f), set_curr (offset_curr_ s + nleft) (Some (i, p + nleft)%nat) (file_ptr_ s) s).
Proof.
  intros Hf Hn. cbn [read_loop fst snd]. unfold rd. rewrite Hf. cbn [of_option mbind result_bind]. rewrite length_take, length_drop, Nat.min_l by lia. by rewrite Nat.sub_diag.
Qed.

Lemma Read_ok m s bss size : ready m s bss → (0 < size)%nat → Read size (set_overflow [] s) =
  Ok (take size (slice m (offset_curr_ s) (offset_end_ s)),
      let c := (offset_curr_ s + size `min` (offset_end_ s - offset_curr_ s))%nat in set_curr c (Some (0, c)%nat) 0 (set_overflow [] s)).
Proof.
  intros [Hf Hs Hp Hr Hc Hz _ _ _] Hsize. destruct s as [files b e c fs ptr ptre o ch bs]. cbn [files_ fs_ file_ptr_ offset_begin_ offset_end_ offset_curr_] in *. subst files fs ptr. unfold Read, set_overflow.
  cbn [files_ fs_ file_ptr_ offset_begin_ offset_end_ offset_curr_ file_ptr_end_ overflow_ tmp_chunk_ buffer_size_]. rewrite (proj2 (Nat.leb_gt _ _) Hr).
  set (size' := if (e <? c + size)%nat then _ else size). assert (size' = size `min` (e - c))%nat as Hs'.
  { unfold size'. destruct (Nat.ltb_spec e (c + size)) as [Hlt|Hge]; [|lia]. cbn [length]. rewrite u64_id by lia. lia. }
  assert (take size (slice m c e) = take size' (drop c m)) as -> by (unfold slice; rewrite take_take, Hs'; done). rewrite <- Hs'. destruct (Nat.eqb_spec size' 0) as [H0|Hne].
  - rewrite H0, Nat.add_0_r. done.
  - change (2 * length [m] + 2)%nat with 4%nat. by rewrite (read_last _ _ _ 0 _ _ m) by (done || lia).
Qed.

Lemma take_slice m c e n o D : o ++ slice m c e = D → (length o ≤ n)%nat → o ++ take (n - length o) (slice m c e) = take n D.
Proof. intros <- Hn. by rewrite take_app_ge by lia. Qed.

Lemma slice_rest m c e n : (c ≤ e ≤ length m)%nat → slice m (c + n `min` (e - c)) e = drop n (slice m c e).
Proof.
  intros Hc. unfold slice. rewrite skipn_firstn_comm, drop_drop. destruct (Nat.le_ge_cases n (e - c)) as [Hle|Hge].
  - rewrite Nat.min_l by done. f_equal. lia.
  - rewrite Nat.min_r by done. by replace (e - (c + (e - c)))%nat with 0%nat by lia; replace (e - c - n)%nat with 0%nat by lia.
Qed.

Lemma ReadChunk_ok m s rs bss q : ready m s bss → stores rs bss → bss ≠ [] → (2 ≤ q)%nat →
  ∃ k s', ReadChunk (4 * q) s = Ok (Some (mjoin (take k bss)), s') ∧ ready m s' (drop k bss) ∧ tmp_chunk_ s' = tmp_chunk_ s ∧ ((length (mjoin bss) < 4 * q)%nat → mjoin (take k bss) ≠ []).
Proof.
  intros Hrd Hst Hne Hq. pose proof Hrd as [Hf Hs Hp Hr Hc Hz Hb Ho Hleft]. unfold ReadChunk. destruct (Nat.leb_spec (4 * q) (length (overflow_ s))) as [Hle|Hgt].
  { exists 0%nat, s. split; [done|]. split; [done|]. split; [done|]. rewrite <- Hleft, length_app. lia. }
  rewrite (Read_ok m s bss) by (done || lia). rstep. cbn [fst snd]. rewrite (take_slice m _ _ (4 * q) (overflow_ s) (mjoin bss)) by (done || lia).
  assert (mjoin bss ≠ []) as Hne'. { destruct bss as [|bs bss]; [done|]. destruct (stores_words _ _ Hst) as [H8 _]. apply Forall_cons in H8 as [H8 _]. rewrite blocks_cons. destruct bs; [cbn in H8; lia|done]. }
  assert (length (take (4 * q) (mjoin bss)) ≠ 0)%nat as Hn0 by (rewrite length_take; destruct (mjoin bss); [done|cbn; lia]). rewrite (proj2 (Nat.eqb_neq _ _) Hn0).
  set (c := (offset_curr_ s + _)%nat). assert (slice m c (offset_end_ s) = drop (4 * q - length (overflow_ s)) (slice m (offset_curr_ s) (offset_end_ s))) as Hrest by (by apply slice_rest).
  assert (drop (4 * q) (mjoin bss) = slice m c (offset_end_ s)) as Hdrop by (rewrite Hrest, <- Hleft, drop_app_ge by lia; done).
  assert (c ≤ offset_end_ s)%nat as Hce by (unfold c; lia). destruct (Nat.eqb_spec (length (take (4 * q) (mjoin bss))) (4 * q)) as [Heq|Hneq]; cbn [negb].
  - assert (4 * q ≤ length (mjoin bss))%nat as Hlong by (rewrite length_take in Heq; lia). destruct (FindLast_ok rs bss q Hst Hq Hlong) as (k & HF & Hk). cbn [FindLastRecordBegin RecordIOSplitter]. rewrite HF. rstep.
    exists k. eexists. assert (mjoin bss = mjoin (take k bss) ++ mjoin (drop k bss)) as Hjoin by (by rewrite <- join_app, take_drop).
    assert (take (length (mjoin (take k bss))) (take (4 * q) (mjoin bss)) = mjoin (take k bss)) as -> by (rewrite take_take, Nat.min_l by done; rewrite Hjoin at 1; apply take_app_length).
    split; [done|]. split; [|split; [done|lia]]. split; cbn; try done; [lia| |].
    { rewrite length_drop, length_take. pose proof Hlong as Hlong'. rewrite <- Hleft, length_app in Hlong. unfold slice in Hlong. rewrite length_take, length_drop in Hlong. unfold c. lia. }
    rewrite <- Hdrop. rewrite Hjoin at 1 2. rewrite take_app_ge by done. rewrite drop_app_length, drop_app_ge by done. by rewrite take_drop.
  - assert (length (mjoin bss) < 4 * q)%nat as Hshort by (rewrite length_take in Hneq; lia). exists (length bss). eexists. rewrite firstn_all, take_ge by lia. split; [done|]. split; [|split; [done|done]].
    split; cbn; try done; [lia|lia|]. by rewrite <- Hdrop, drop_ge, skipn_all by lia.
Qed.

Lemma load_loop_ok m rs : ∀ fuel words s bss, ready m s bss → stores rs bss → bss ≠ [] → (3 ≤ words)%nat → (length (mjoin bss) + 2 ≤ fuel + 4 * (words - 1))%nat → (0 < fuel)%nat →
  ∃ k words' s', load_loop fuel words s = Ok (Some (mjoin (take k bss)), words', s') ∧ ready m s' (drop k bss) ∧ tmp_chunk_ s' = tmp_chunk_ s ∧ mjoin (take k bss) ≠ [].
Proof.
  induction fuel as [|fuel IH]; intros words s bss Hrd Hst Hne Hw Hfuel Hpos; [lia|]. cbn [load_loop]. replace ((words - 1) * 4)%nat with (4 * (words - 1))%nat by lia.
  destruct (ReadChunk_ok m s rs bss (words - 1) Hrd Hst Hne ltac:(lia)) as (k & s' & -> & Hrd' & Hch & Hbig). rstep. cbn [fst snd]. destruct (mjoin (take k bss)) as [|x l] eqn:Hk; [|exists k, words, s'; rewrite Hk; done].
  assert (k = 0 ∨ k ≠ 0)%nat as [->|Hk0] by lia.
  - rewrite drop_0 in Hrd'. assert (4 * (words - 1) ≤ length (mjoin bss))%nat by (destruct (Nat.le_gt_cases (4 * (words - 1)) (length (mjoin bss))) as [?|Hlt]; [done|by destruct (Hbig Hlt)]).
    destruct (IH (words * 2)%nat s' bss Hrd' Hst Hne) as (k' & w' & s'' & H1 & H2 & H3 & H4); [lia|lia|lia|]. exists k', w', s''. by rewrite <- Hch.
  - destruct bss as [|bs bss]; [done|]. destruct k as [|k]; [done|]. destruct (stores_words _ _ Hst) as [H8 _]. apply Forall_cons in H8 as [H8 _]. cbn [take] in Hk. rewrite blocks_cons in Hk. destruct bs; [cbn in H8; lia|done].
Qed.

(** The chunk in memory has the bytes of [bss] left. *)
Definition chunk_left (c : Chunk) (bss : list (list Z)) : Prop :=
  ∃ G, data c = G ++ mjoin bss ∧ cbegin c = length G ∧ cend c = length (G ++ mjoin bss) ∧ (length G mod 4 = 0)%nat.

Lemma words_mod n w : n = (4 * w)%nat → (n mod 4 = 0)%nat.
Proof. intros ->. by rewrite Nat.mul_comm, Nat.Div0.mod_mul. Qed.

Lemma mod_words n : (n mod 4 = 0)%nat → ∃ w, n = (4 * w)%nat.
Proof. intros H. exists (n / 4)%nat. pose proof (Nat.div_mod n 4 ltac:(lia)). lia. Qed.

Lemma Extract_left c r bs rs bss : stores (r :: rs) (bs :: bss) → chunk_left c (bs :: bss) →
  ∃ c', RecordIO_ExtractNextRecord c = Ok (Some r, c') ∧ chunk_left c' bss.
Proof.
  intros Hst (G & Hd & Hb & He & HG). destruct c as [d b e w]. cbn [data cbegin cend] in *. subst d b e. rewrite blocks_cons. destruct (mod_words _ HG) as [g Hg]. destruct (stores_words _ _ Hst) as [_ [k Hk]]. rewrite blocks_cons in Hk.
  apply Forall2_cons in Hst as [[Hs Hbytes] Hst]. destruct (stores_words _ _ Hst) as [_ [k' Hk']]. destruct (Extract_ok G bs (mjoin bss) r w Hs HG) as (G' & HG' & ->); [apply (words_mod _ (g + k)); rewrite length_app; lia|].
  eexists. split; [done|]. exists G'. split; [done|]. split; [done|]. split; [done|]. cbn [cbegin]. rewrite length_app in Hk. apply (words_mod _ (g + k - k')). rewrite HG', length_app. lia.
Qed.

Lemma Extract_none c : chunk_left c [] → RecordIO_ExtractNextRecord c = Ok (None, c).
Proof. intros (G & _ & Hb & He & _). unfold RecordIO_ExtractNextRecord. rewrite Hb, He, app_nil_r, Nat.eqb_refl. done. Qed.

(** What is left to read: [bss1] of the chunk, [bss2] of the file. *)
Definition reading (m : list Z) (s : InputSplitBase) (bss1 bss2 : list (list Z)) : Prop :=
  ready m s bss2 ∧ chunk_left (tmp_chunk_ s) bss1.

Lemma ready_chunk m s bss c : ready m s bss → ready m (set_chunk c s) bss.
Proof. intros [? ? ? ? ? ? ? ? ?]. by split. Qed.

Lemma next_in_chunk m s r bs rs bss1 bss2 fuel : stores (r :: rs) (bs :: bss1) → reading m s (bs :: bss1) bss2 →
  ∃ s', next_loop (S fuel) s = Ok (Some r, s') ∧ reading m s' bss1 bss2.
Proof.
  intros Hst (Hrd & Hc). destruct (Extract_left _ r bs rs bss1 Hst Hc) as (c' & He & Hc'). cbn [next_loop ExtractNextRecord RecordIOSplitter]. rewrite He. rstep. cbn [fst snd]. eexists. split; [done|]. split; [by apply ready_chunk|done].
Qed.

Lemma Load_ok m s rs bss : ready m s bss → stores rs bss → bss ≠ [] →
  ∃ k s', Load s = Ok (true, s') ∧ reading m s' (take k bss) (drop k bss) ∧ take k bss ≠ [].
Proof.
  intros Hrd Hst Hne. unfold Load. destruct (load_loop_ok m rs (S (S (sum_list (length <$> files_ s)))) (S (buffer_size_ s)) s bss Hrd Hst Hne) as (k & w & s' & -> & Hrd' & Hch & Hnil); [|pose proof (rd_buffer _ _ _ Hrd)|lia|].
  { pose proof (rd_buffer _ _ _ Hrd). lia. }
  { destruct Hrd as [Hf _ _ _ Hc _ _ Ho Hl]. rewrite Hf, <- Hl. cbn. rewrite length_app. unfold slice. rewrite length_take, length_drop. lia. }
  rstep. exists k. eexists. split; [done|]. split; [|by intros Hk; rewrite Hk in Hnil]. split; [by apply ready_chunk|]. by exists [].
Qed.

Lemma Load_none m s : ready m s [] → ∃ s', Load s = Ok (false, s').
Proof.
  intros Hrd. pose proof Hrd as [Hf Hs Hp Hr Hc Hz Hb Ho Hl]. change (mjoin []) with ([] : list Z) in Hl. apply app_eq_nil in Hl as [Hov Hsl]. unfold Load. cbn [load_loop]. unfold ReadChunk. rewrite Hov. cbn [length]. rewrite (proj2 (Nat.leb_gt _ _)) by lia.
  rewrite (Read_ok m s []) by (done || lia). rstep. cbn [fst]. rewrite Hsl, take_nil. cbn. by eexists.
Qed.

(** The next record, from the chunk or from a chunk that is loaded. *)
Lemma NextRecord_ok m s r rs rs1 rs2 bss1 bss2 : reading m s bss1 bss2 → stores rs1 bss1 → stores rs2 bss2 → rs1 ++ rs2 = r :: rs →
  ∃ s' rs1' rs2' bss1' bss2', NextRecord s = Ok (Some r, s') ∧ reading m s' bss1' bss2' ∧ stores rs1' bss1' ∧ stores rs2' bss2' ∧ rs1' ++ rs2' = rs.
Proof.
  intros Hrd H1 H2 Hrs. unfold NextRecord. destruct rs1 as [|r1 rs1].
  - apply Forall2_nil_inv_l in H1 as ->. cbn in Hrs. subst rs2. destruct Hrd as [Hrd Hc]. cbn [next_loop ExtractNextRecord RecordIOSplitter]. rewrite (Extract_none _ Hc). rstep. cbn [fst snd].
    assert (bss2 ≠ []) as Hne by (intros ->; by apply Forall2_nil_inv_r in H2). destruct (Load_ok m (set_chunk (tmp_chunk_ s) s) (r :: rs) bss2 (ready_chunk _ _ _ _ Hrd) H2 Hne) as (k & s1 & -> & Hrd1 & Hk). rstep. cbn [fst snd].
    destruct k as [|k]; [done|]. destruct bss2 as [|bs bss2]; [done|]. apply Forall2_cons in H2 as [Hr H2]. cbn [take drop] in Hrd1. assert (stores (r :: take k rs) (bs :: take k bss2)) as Hst by (constructor; [done|by apply Forall2_take]).
    destruct (next_in_chunk m s1 r bs (take k rs) (take k bss2) (drop k bss2) 0 Hst Hrd1) as (s' & Hn & Hrd'). exists s', (take k rs), (drop k rs), (take k bss2), (drop k bss2). split; [done|]. split; [done|]. split; [by apply Forall2_take|]. split; [by apply Forall2_drop|]. apply take_drop.
  - cbn in Hrs. injection Hrs as -> <-. destruct bss1 as [|bs bss1]; [by apply Forall2_nil_inv_r in H1|]. destruct (next_in_chunk m s r bs rs1 bss1 bss2 1 H1 Hrd) as (s' & Hn & Hrd'). apply Forall2_cons in H1 as [_ H1]. by exists s', rs1, rs2, bss1, bss2.
Qed.

Lemma NextRecord_none m s : reading m s [] [] → ∃ s', NextRecord s = Ok (None, s').
Proof.
  intros [Hrd Hc]. unfold NextRecord. cbn [next_loop ExtractNextRecord RecordIOSplitter]. rewrite (Extract_none _ Hc). rstep. cbn [fst snd]. destruct (Load_none m (set_chunk (tmp_chunk_ s) s) (ready_chunk _ _ _ _ Hrd)) as (s' & ->). by eexists.
Qed.

Lemma read_all_ok m : ∀ rs s rs1 rs2 bss1 bss2 fuel, reading m s bss1 bss2 → stores rs1 bss1 → stores rs2 bss2 → rs1 ++ rs2 = rs → (length rs < fuel)%nat → read_all fuel s = Ok rs.
Proof.
  induction rs as [|r rs IH]; intros s rs1 rs2 bss1 bss2 fuel Hrd H1 H2 Hrs Hfuel; (destruct fuel as [|fuel]; [lia|]); cbn [read_all].
  - apply app_eq_nil in Hrs as [-> ->]. apply Forall2_nil_inv_l in H1 as ->, H2 as ->. destruct (NextRecord_none m s Hrd) as (s' & ->). done.
  - destruct (NextRecord_ok m s r rs rs1 rs2 bss1 bss2 Hrd H1 H2 Hrs) as (s' & rs1' & rs2' & bss1' & bss2' & -> & Hrd' & H1' & H2' & Hrs'). rstep. cbn [fst snd]. cbn [length] in Hfuel. rewrite (IH s' rs1' rs2' bss1' bss2'); (done || lia).
Qed.

(** ** The parts of a file *)
Lemma read_nothing s fuel : chunk_left (tmp_chunk_ s) [] → overflow_ s = [] → fs_ s = None ∨ (offset_end_ s ≤ offset_begin_ s)%nat → (1 ≤ buffer_size_ s)%nat → read_all (S fuel) s = Ok [].
Proof.
  intros Hc Ho Hfs Hb. cbn [read_all]. unfold NextRecord. cbn [next_loop ExtractNextRecord RecordIOSplitter]. rewrite (Extract_none _ Hc). rstep. cbn [fst snd]. unfold Load. cbn [load_loop buffer_size_ set_chunk]. unfold ReadChunk. cbn [overflow_ set_chunk]. rewrite Ho. cbn [length].
  rewrite (proj2 (Nat.leb_gt _ _)) by lia. assert (∀ n, Read n (set_overflow [] (set_chunk (tmp_chunk_ s) s)) = Ok ([], set_overflow [] (set_chunk (tmp_chunk_ s) s))) as ->; [|done].
  intros n. unfold Read. cbn [fs_ set_overflow set_chunk offset_end_ offset_begin_]. destruct Hfs as [-> | Hle]; [done|]. destruct (fs_ s); [|done]. by rewrite (proj2 (Nat.leb_le _ _) Hle).
Qed.

Lemma upper_bound_one m x : (x ≤ length m)%nat → (0 < length m)%nat → upper_bound (file_offset_ [m]) x = if (x =? length m)%nat then 2%nat else 1%nat.
Proof.
  intros Hx Hm. unfold upper_bound, file_offset_. cbn. rewrite Nat.add_0_r. destruct (Nat.eqb_spec x (length m)) as [->|Hne]; [by rewrite Nat.leb_refl|]. by rewrite (proj2 (Nat.leb_gt _ _)) by lia.
Qed.
Lemma file_offset_one m i : rd (file_offset_ [m]) i = match i with O => Ok 0%nat | 1%nat => Ok (length m) | _ => rd (file_offset_ [m]) i end.
Proof. destruct i as [|[|i]]; [done| |done]. unfold file_offset_. cbn. by rewrite Nat.add_0_r. Qed.

Lemma seek_ok rs bss q : stores rs bss → (4 * q ≤ length (mjoin bss))%nat → seek_record [mjoin bss] (4 * q) 0 0 = Ok (length (mjoin (take (before bss (4 * q)) bss))).
Proof. intros Hst Hq. unfold seek_record. cbn [rd lookup list_lookup of_option mbind result_bind]. rewrite Nat.sub_0_r. apply (SeekRecordBegin_ok rs bss q Hst Hq). Qed.

(** The records of part [k] of [n]. *)
Definition part {A} (bss : list (list Z)) (n k : nat) (l : list A) : list A := take (boundary bss n (S k) - boundary bss n k) (drop (boundary bss n k) l).

Lemma part_bytes bss n k : mjoin (take (boundary bss n (S k)) bss) = mjoin (take (boundary bss n k) bss) ++ mjoin (part bss n k bss).
Proof. rewrite <- join_app. unfold part. f_equal. rewrite take_take_drop. f_equal. pose proof (boundary_mono bss n k). lia. Qed.

Lemma stores_nil rs bss : stores rs bss → length (mjoin bss) = 0%nat → bss = [].
Proof. intros Hst H0. destruct bss as [|bs bss]; [done|]. destruct (stores_words _ _ Hst) as [H8 _]. apply Forall_cons in H8 as [H8 _]. rewrite blocks_cons, length_app in H0. lia. Qed.

Lemma stores_size rs bss : stores rs bss → (length rs ≤ length (mjoin bss))%nat.
Proof.
  induction 1 as [|r bs rs bss [Hs _] _ IH]; [done|]. rewrite blocks_cons, length_app. pose proof (stored_length r bs Hs). cbn [length]. lia.
Qed.

Lemma part_stores rs bss n k : stores rs bss → stores (part bss n k rs) (part bss n k bss).
Proof. intros Hst. unfold part. by apply Forall2_take, Forall2_drop. Qed.

(** Moving an end of a range that is not the end of the file. *)
Lemma BeforeFirst_ok rs bss n k s0 : stores rs bss → (0 < length (mjoin bss))%nat → Z.of_nat (length (mjoin bss)) < 2 ^ 64 → (2 ≤ buffer_size_ s0)%nat → files_ s0 = [mjoin bss] →
  offset_begin_ s0 = length (mjoin (take (boundary bss n k) bss)) → offset_end_ s0 = length (mjoin (take (boundary bss n (S k)) bss)) → chunk_left (tmp_chunk_ s0) [] → overflow_ s0 = [] →
  ∃ s, BeforeFirst s0 = Ok s ∧ buffer_size_ s = buffer_size_ s0 ∧ chunk_left (tmp_chunk_ s) [] ∧ overflow_ s = [] ∧
  ((part bss n k bss = [] ∧ (offset_end_ s ≤ offset_begin_ s)%nat) ∨ ready (mjoin bss) s (part bss n k bss)).
Proof.
  intros Hst Hpos Hz Hb Hf Hbeg Hend Hc Ho. unfold BeforeFirst. rewrite part_bytes, length_app in Hend. assert (offset_end_ s0 ≤ length (mjoin bss))%nat as Hle.
  { rewrite Hend, <- length_app, <- part_bytes. assert (length (mjoin bss) = length (mjoin (take (boundary bss n (S k)) bss)) + length (mjoin (drop (boundary bss n (S k)) bss)))%nat by (by rewrite <- length_app, <- join_app, take_drop). lia. }
  destruct (Nat.leb_spec (offset_end_ s0) (offset_begin_ s0)) as [He|He].
  - exists s0. split; [done|]. split; [done|]. split; [done|]. split; [done|]. left. split; [|done]. apply (stores_nil _ _ (part_stores rs bss n k Hst)). lia.
  - rewrite Hf, upper_bound_one by lia. rewrite (proj2 (Nat.eqb_neq _ _)) by lia. cbn [Nat.sub]. rewrite file_offset_one. cbn [mbind result_bind]. eexists. split; [done|]. cbn. split; [done|]. split; [by exists []|]. split; [done|]. right. split; cbn; try done; [by rewrite Nat.sub_0_r|lia|lia|].
    unfold slice. rewrite Hbeg. rewrite Hend. replace (length (mjoin (take (boundary bss n k) bss)) + length (mjoin (part bss n k bss)) - length (mjoin (take (boundary bss n k) bss)))%nat with (length (mjoin (part bss n k bss))) by lia.
    assert (mjoin bss = mjoin (take (boundary bss n k) bss) ++ mjoin (part bss n k bss) ++ mjoin (drop (boundary bss n (S k)) bss)) as Hm by (rewrite (assoc_L (++)), <- part_bytes, <- join_app, take_drop; done).
    rewrite Hm at 1. rewrite drop_app_length. apply take_app_length.
Qed.

Lemma exact_end_ok rs bss q : stores rs bss → (0 < 4 * q ≤ length (mjoin bss))%nat →
  exact_end [mjoin bss] (4 * q) (upper_bound (file_offset_ [mjoin bss]) (4 * q) - 1) = Ok (length (mjoin (take (before bss (4 * q)) bss))).
Proof.
  intros Hst Hq. rewrite upper_bound_one by lia. unfold exact_end. destruct (Nat.eqb_spec (4 * q) (length (mjoin bss))) as [He|Hne]; cbn [Nat.sub]; rewrite file_offset_one; cbn [mbind result_bind].
  - rewrite He, Nat.eqb_refl. destruct (stores_words rs bss Hst) as [H8 _]. by rewrite before_all, firstn_all by done.
  - rewrite (proj2 (Nat.eqb_neq (4 * q) 0)) by lia. rewrite check_bind_ok by (apply Nat.ltb_lt; lia). rewrite check_bind_ok by done. apply (seek_ok rs); [done|lia].
Qed.
Lemma exact_begin_ok rs bss q : stores rs bss → (4 * q < length (mjoin bss))%nat →
  exact_begin [mjoin bss] (4 * q) (upper_bound (file_offset_ [mjoin bss]) (4 * q) - 1) = Ok (length (mjoin (take (before bss (4 * q)) bss))).
Proof.
  intros Hst Hq. rewrite upper_bound_one by lia. unfold exact_begin. rewrite (proj2 (Nat.eqb_neq (4 * q) _)) by lia. cbn [Nat.sub]. rewrite file_offset_one. cbn [mbind result_bind].
  destruct (Nat.eqb_spec (4 * q) 0) as [->|Hne]; [by destruct bss|]. apply (seek_ok rs); [done|lia].
Qed.

Lemma reset_ready rs bss n k bs s0 : stores rs bss → bss ≠ [] → (0 < n)%nat → (2 ≤ bs)%nat → Z.of_nat (length (mjoin bss)) < 2 ^ 64 → Init [mjoin bss] bs = Ok s0 →
  ∃ s, ResetPartition k n s0 = Ok s ∧ buffer_size_ s = bs ∧ chunk_left (tmp_chunk_ s) [] ∧ overflow_ s = [] ∧
  ((part bss n k bss = [] ∧ (fs_ s = None ∨ (offset_end_ s ≤ offset_begin_ s)%nat)) ∨ ready (mjoin bss) s (part bss n k bss)).
Proof.
  intros Hst Hne Hn Hbs Hz Hinit. assert (0 < length (mjoin bss))%nat as Hpos by (destruct (Nat.eq_dec (length (mjoin bss)) 0%nat) as [H0|]; [by apply (stores_nil rs) in H0|lia]).
  unfold Init in Hinit. apply check_inv in Hinit as [_ Hinit]. apply check_inv in Hinit as [_ [= <-]]. unfold ResetPartition. rewrite (proj2 (Nat.eqb_neq n 0)) by lia. cbn [files_ tmp_chunk_ overflow_ fs_ buffer_size_ file_ptr_ file_ptr_end_ align_bytes RecordIOSplitter].
  change (sum_list (length <$> [mjoin bss])) with (length (mjoin bss) + 0)%nat. rewrite Nat.add_0_r. set (nstep := ((_ + 4 - 1) / 4 * 4)%nat). destruct (stores_words rs bss Hst) as [H8 [w Hw]].
  assert (∀ j, boundary bss n j = before bss ((nstep * j) `min` length (mjoin bss)))%nat as Hbd by (intros j; unfold boundary; rewrite (Nat.min_comm (length (mjoin bss))); unfold nstep, upper_align; repeat f_equal; lia).
  assert (∀ j, ∃ q, (nstep * j) `min` length (mjoin bss) = 4 * q)%nat as Hq by (intros j; unfold nstep; rewrite Hw; exists ((((4 * w + n - 1) / n + 4 - 1) / 4 * j) `min` w)%nat; lia).
  destruct (Hq k) as [q Hqk], (Hq (k + 1)%nat) as [q' Hqk']. pose proof (Hbd k) as Hb0. pose proof (Hbd (S k)) as Hb1. rewrite <- Nat.add_1_r in Hb1 at 2. rewrite Hqk in Hb0. rewrite Hqk' in Hb1.
  rewrite Hqk, Hqk'. assert (4 * q ≤ length (mjoin bss) ∧ 4 * q' ≤ length (mjoin bss) ∧ 4 * q ≤ 4 * q')%nat as (Hlq & Hlq' & Hmono) by (rewrite <- Hqk, <- Hqk'; split; [lia|]; split; [lia|]; nia).
  destruct (Nat.eqb_spec (4 * q) (4 * q')) as [Heq|Hneq].
  - eexists. split; [done|]. split; [done|]. split; [by exists []|]. split; [done|]. left. split; [|by left]. unfold part. rewrite Hb0, Hb1, Heq, Nat.sub_diag. done.
  - rewrite (exact_end_ok rs) by (done || lia). rstep. rewrite (exact_begin_ok rs) by (done || lia). rstep. rewrite <- Hb0, <- Hb1.
    match goal with |- context [BeforeFirst ?s0] => destruct (BeforeFirst_ok rs bss n k s0) as (s & -> & H1 & H2 & H3 & H4); try done; [by exists []|] end.
    exists s. split; [done|]. split; [done|]. split; [done|]. split; [done|]. destruct H4 as [[? ?]|?]; [left; split; [done|by right]|by right].
Qed.

Lemma read_split_ok rs bss n k bs : stores rs bss → bss ≠ [] → (0 < n)%nat → (2 ≤ bs)%nat → Z.of_nat (length (mjoin bss)) < 2 ^ 64 → read_split [mjoin bss] bs k n = Ok (part bss n k rs).
Proof.
  intros Hst Hne Hn Hbs Hz. unfold read_split, new_splitter. destruct (stores_words rs bss Hst) as [_ [w Hw]]. pose proof (part_stores rs bss n k Hst) as Hpart.
  destruct (Init [mjoin bss] bs) as [s0|] eqn:Hinit; [|unfold Init in Hinit; cbn [length Nat.eqb negb forallb align_bytes RecordIOSplitter] in Hinit; by rewrite (words_mod _ w Hw) in Hinit]. rstep.
  destruct (reset_ready rs bss n k bs s0 Hst Hne Hn Hbs Hz Hinit) as (s & -> & Hb & Hc & Ho & [[Hnil Hfs]|Hrd]); rstep.
  - rewrite Hnil in Hpart. apply Forall2_nil_inv_r in Hpart as ->. apply read_nothing; (done || lia).
  - apply (read_all_ok (mjoin bss) (part bss n k rs) s [] (part bss n k rs) [] (part bss n k bss)); try done.
    change (sum_list (length <$> [mjoin bss])) with (length (mjoin bss) + 0)%nat. pose proof (stores_size rs bss Hst). unfold part. rewrite length_take, length_drop. lia.
Qed.

Lemma write_records_file rs : ∀ m, write_records rs = Ok m → file rs m.
Proof.
  induction rs as [|r rs IH]; intros m H; cbn [write_records] in H; [injection H as <-; constructor|]. apply bind_Ok_inv in H as ([w n] & Hw & H). apply bind_Ok_inv in H as (bs & Hbs & [= <-]).
  constructor; [|by apply IH]. assert (Z.of_nat (length r) < 2 ^ 29) as Hlen by (unfold WriteRecord in Hw; apply check_inv in Hw as [Hlt _]; by apply Z.ltb_lt in Hlt).
  destruct (write_stored r Hlen) as (w' & n' & Hw' & Hs). rewrite Hw in Hw'. by injection Hw' as -> ->.
Qed.

(** C6: However many readers share a RecordIO file, and however small their buffers are, the
    records they read one after the other are those of the file, each once and in order: a
    part never starts or ends inside a record, records that do not fit the buffer make it
    grow, and records that contain the magic number are put together again. *)
Theorem recordio_split_partition (rs : list (list Z)) (m : list Z) (n buffer_size : nat) :
  write_records rs = Ok m → rs ≠ [] → Forall bytes rs → Z.of_nat (length m) < 2 ^ 64 → (0 < n)%nat → (2 ≤ buffer_size)%nat →
  ∃ parts, Forall2 (fun k part => read_split [m] buffer_size k n = Ok part) (seq 0 n) parts ∧ mjoin parts = rs.
Proof.
  intros Hw Hne Hb Hz Hn Hbs. destruct (file_stores rs m (write_records_file rs m Hw) Hb) as (bss & -> & Hst). assert (bss ≠ []) as Hne' by (intros ->; by apply Forall2_nil_inv_r in Hst).
  exists ((fun k => part bss n k rs) <$> seq 0 n). split.
  - apply Forall2_fmap_r, Forall_Forall2_diag, Forall_forall. intros k _. by apply read_split_ok.
  - unfold part. rewrite (join_slices rs (boundary bss n) n); [|unfold boundary; rewrite Nat.mul_0_r, Nat.min_0_r; by destruct bss|intros k; apply boundary_mono].
    rewrite (boundary_last rs bss n Hst Hn), <- (Forall2_length _ _ _ Hst). apply firstn_all.
Qed.
Definition w_file : list Z := Eval vm_compute in match write_records w_records with Ok m => m | Err _ => [] end.
Lemma recordio_split_partition_witness : ∃ parts, Forall2 (fun k part => read_split [w_file] 2 k 3 = Ok part) (seq 0 3) parts ∧ mjoin parts = w_records.
Proof. apply (recordio_split_partition w_records w_file 3 2); by_decision. Defined.

(** ** Two files *)

Section TwoFiles.
Context (f1 f2 : list Z) (a b buffer_size : nat).
Context (Hf1 : length f1 = (4 * a)%nat) (Hf2 : length f2 = (4 * b)%nat) (Ha : (0 < a)%nat) (Hb : (0 < b)%nat).
Context (Hfit : (4 * (a + b) < 4 * buffer_size)%nat) (Hword : Z.of_nat (4 * buffer_size) < 2 ^ 64).

Definition two_files (curr : nat) (fs : nat * nat) (o : list Z) : InputSplitBase := {|
  files_ := [f1; f2]; offset_begin_ := 0; offset_end_ := 4 * (a + b); offset_curr_ := curr; fs_ := Some fs; file_ptr_ := fs.1; file_ptr_end_ := 2;
  overflow_ := o; tmp_chunk_ := {| data := []; cbegin := 0; cend := 0; num_words := S buffer_size |}; buffer_size_ := buffer_size |}.

Lemma two_offsets : file_offset_ [f1; f2] = [0; 4 * a; 4 * (a + b)]%nat.
Proof. change (file_offset_ [f1; f2]) with [0; length f1 + 0; length f1 + (length f2 + 0)]%nat. rewrite Hf1, Hf2, !Nat.add_0_r. by replace (4 * a + 4 * b)%nat with (4 * (a + b))%nat by lia. Qed.

Lemma two_new : new_splitter [f1; f2] buffer_size 0 1 = Ok (two_files 0 (0, 0)%nat []).
Proof.
  assert (∀ (f : list Z) k, length f = (4 * k)%nat → (length f mod 4 =? 0)%nat = true) as Hmod by (intros f k ->; by rewrite Nat.mul_comm, Nat.Div0.mod_mul).
  unfold new_splitter, Init. cbn [forallb align_bytes RecordIOSplitter]. rewrite (Hmod f1 a Hf1), (Hmod f2 b Hf2). rewrite !check_bind_ok by done. cbn [mbind result_bind]. unfold ResetPartition. cbn [Nat.eqb files_ align_bytes RecordIOSplitter].
  assert (sum_list (length <$> [f1; f2]) = 4 * (a + b))%nat as -> by (cbn; unfold id; lia). replace ((4 * (a + b) + 1 - 1) / 1)%nat with (4 * (a + b))%nat by (rewrite Nat.div_1_r; lia).
  replace ((4 * (a + b) + 4 - 1) / 4 * 4)%nat with (4 * (a + b))%nat by (replace (4 * (a + b) + 4 - 1)%nat with ((a + b) * 4 + 3)%nat by lia; rewrite Nat.div_add_l by lia; change (3 / 4)%nat with 0%nat; lia).
  rewrite Nat.mul_0_r, Nat.add_0_l, Nat.mul_1_r, Nat.min_id. rewrite (proj2 (Nat.eqb_neq _ _)) by lia. rewrite !two_offsets.
  assert (upper_bound [0; 4 * a; 4 * (a + b)]%nat 0 = 1%nat) as Hu0 by (unfold upper_bound; cbn [List.filter Nat.leb]; rewrite !(proj2 (Nat.leb_gt _ _)) by lia; done).
  assert (upper_bound [0; 4 * a; 4 * (a + b)]%nat (4 * (a + b)) = 3%nat) as Hu2 by (unfold upper_bound; cbn [List.filter]; rewrite !(proj2 (Nat.leb_le _ _)) by lia; done).
  cbn [Nat.min]. rewrite Hu0, Hu2. cbn [Nat.sub].
  assert (exact_end [f1; f2] (4 * (a + b)) 2 = Ok (4 * (a + b))%nat) as -> by (unfold exact_end; rewrite two_offsets; cbn [rd lookup list_lookup of_option mbind result_bind]; by rewrite (Nat.eqb_refl (4 * (a + b)))).
  assert (exact_begin [f1; f2] 0 0 = Ok 0%nat) as -> by (unfold exact_begin; by rewrite two_offsets). cbn [mbind result_bind].
  unfold BeforeFirst. cbn [offset_begin_ offset_end_ files_]. rewrite (proj2 (Nat.leb_gt _ _)) by lia. by rewrite two_offsets, Hu0.
Qed.

(** Reading the rest of a file. *)
Lemma read_some fuel nleft acc i p s f : files_ s !! i = Some f → (0 < length f - p < nleft)%nat →
  read_loop (S fuel) nleft acc (i, p) s = read_loop fuel (nleft - (length f - p)) (acc ++ drop p f) (i, length f) (set_curr (offset_curr_ s + (length f - p)) (Some (i, length f)) (file_ptr_ s) s).
Proof.
  intros Hf Hn. cbn [read_loop fst snd]. unfold rd. rewrite Hf. cbn [of_option mbind result_bind]. rewrite (take_ge (drop p f)) by (rewrite length_drop; lia). rewrite length_drop. rewrite !(proj2 (Nat.eqb_neq _ _)) by lia. by replace (p + (length f - p))%nat with (length f) by lia.
Qed.
(** A newline and the next file. *)
Lemma read_newline fuel nleft acc i s f : files_ s !! i = Some f → file_ptr_ s = i → (i + 1 < length (files_ s))%nat → (0 < nleft)%nat → rd (file_offset_ (files_ s)) (i + 1) = Ok (offset_curr_ s) →
  read_loop (S fuel) nleft acc (i, length f) s = read_loop fuel (nleft - 1) (acc ++ [10]) (i + 1, 0)%nat (set_curr (offset_curr_ s) (Some (i + 1, 0)%nat) (i + 1) s).
Proof.
  intros Hf Hp Hl Hn Ho. cbn [read_loop fst snd]. assert (rd (files_ s) i = Ok f) as -> by (unfold rd; by rewrite Hf). cbn [mbind result_bind]. rewrite drop_ge by lia. rewrite take_nil. cbn [length]. rewrite !Nat.add_0_r, Nat.sub_0_r, app_nil_r. rewrite (proj2 (Nat.eqb_neq nleft 0)) by lia. cbn [Nat.eqb].
  cbn [files_ file_ptr_ set_curr offset_curr_]. rewrite Hp, Ho. cbn [mbind result_bind]. rewrite check_bind_ok by apply Nat.eqb_refl. by rewrite (proj2 (Nat.leb_gt _ _)) by lia.
Qed.
Lemma two_read o : Read (4 * buffer_size) (set_overflow o (two_files 0 (0, 0)%nat o)) = Ok (f1 ++ [10] ++ f2, set_overflow o (two_files (4 * (a + b)) (1, 4 * b)%nat o)).
Proof.
  unfold Read. cbn [fs_ two_files offset_end_ offset_begin_ offset_curr_ files_ file_ptr_ fst set_overflow]. rewrite (proj2 (Nat.leb_gt _ _)) by lia. rewrite (proj2 (Nat.ltb_lt _ _)) by lia.
  replace (Z.to_nat (u64 _)) with (S (4 * (a + b))) by (cbn [length]; rewrite u64_id by lia; lia). rewrite (proj2 (Nat.eqb_neq _ _)) by lia. change (2 * length [f1; f2] + 2)%nat with 6%nat.
  rewrite (read_some _ _ _ 0 0 _ f1) by (done || lia). rewrite (read_newline _ _ _ 0 _ f1); [|done|done|cbn; lia|lia|change (rd (file_offset_ [f1; f2]) 1 = Ok (0 + (length f1 - 0))%nat); rewrite two_offsets, Hf1, Nat.sub_0_r; done].
  rewrite (read_last _ _ _ 1 _ _ f2) by (done || (cbn; lia)). rewrite !drop_0. replace (S (4 * (a + b)) - (length f1 - 0) - 1)%nat with (length f2) by lia. rewrite firstn_all. cbn [app]. rewrite <- (assoc_L (++)). unfold two_files, set_curr, set_overflow. cbn. rewrite Hf1, Hf2. do 2 f_equal. f_equal. lia.
Qed.

Lemma two_load : ∃ s, Load (two_files 0 (0, 0)%nat []) = Ok (true, s) ∧ tmp_chunk_ s = {| data := f1 ++ [10] ++ f2; cbegin := 0; cend := length (f1 ++ [10] ++ f2); num_words := S buffer_size |}.
Proof.
  unfold Load. cbn [load_loop]. change (buffer_size_ (two_files 0 (0, 0)%nat [])) with buffer_size. replace ((S buffer_size - 1) * 4)%nat with (4 * buffer_size)%nat by lia.
  unfold ReadChunk. change (overflow_ (two_files 0 (0, 0)%nat [])) with ([] : list Z). cbn [length]. rewrite (proj2 (Nat.leb_gt _ _)) by lia. rewrite Nat.sub_0_r, two_read. cbn [mbind result_bind fst snd app].
  assert (length (f1 ++ 10%Z :: f2) = 4 * (a + b) + 1)%nat as Hl by (rewrite length_app; cbn [length]; lia). rewrite (proj2 (Nat.eqb_neq (length (f1 ++ 10 :: f2)) 0)) by lia. rewrite (proj2 (Nat.eqb_neq (length (f1 ++ 10 :: f2)) (4 * buffer_size))) by lia. cbn [negb mbind result_bind fst snd].
  destruct f1 as [|x l]; [cbn in Hf1; lia|]. by eexists.
Qed.

Lemma two_next : NextRecord (two_files 0 (0, 0)%nat []) = Err (CheckFailed "chunk->end & 3 == 0").
Proof.
  unfold NextRecord. cbn [next_loop ExtractNextRecord RecordIOSplitter]. assert (RecordIO_ExtractNextRecord (tmp_chunk_ (two_files 0 (0, 0)%nat [])) = Ok (None, tmp_chunk_ (two_files 0 (0, 0)%nat []))) as -> by done. cbn [mbind result_bind fst snd].
  change (set_chunk (tmp_chunk_ (two_files 0 (0, 0)%nat [])) (two_files 0 (0, 0)%nat [])) with (two_files 0 (0, 0)%nat []). destruct two_load as (s & -> & Hc). cbn [mbind result_bind fst snd]. rewrite Hc. clear Hc. unfold RecordIO_ExtractNextRecord. cbn [cbegin cend data].
  assert (length (f1 ++ [10%Z] ++ f2) = 4 * (a + b) + 1)%nat as -> by (rewrite !length_app; cbn [length]; lia). rewrite (proj2 (Nat.eqb_neq 0 _)) by lia. rewrite check_bind_ok by (apply Nat.leb_le; lia). rewrite check_bind_ok by done.
  replace ((4 * (a + b) + 1) mod 4)%nat with 1%nat by (rewrite (Nat.mul_comm 4), Nat.add_comm, Nat.Div0.mod_add; done). done.
Qed.
End TwoFiles.

