(* ===== verification/PlanMemory.v ===== *)
(** * Memory planning of computation graphs

    The pass PlanMemory of src/3rdparty/tvm/nnvm/src/pass/plan_memory.cc, which the executors
    run before a graph: it gives every result of a node a storage, so that results that are
    not needed any more share it with later ones, and lets an operator write its output over
    an input where that is allowed.  The file has the planner, its allocator and a definition
    of what running a graph in planned memory means; PlanMemorySound.v proves that it computes
    what the graph computes with separate memory for every result.

    Nodes are numbered in topological order and results, called entries, by their node and
    position, as [IndexedGraph] of nnvm/graph.h does.  What the attributes of an operator
    (FInplaceOption, FInplaceIdentity, FIgnoreInputs) return for a node is part of the node.
    Node numbers and reference counts do not wrap around: a graph has fewer than 2^31 uses. *)

From S2P Require Import Prelude Blob.
Local Open Scope Z_scope.

(** ** Graphs *)

(** [NodeEntry]: a node and the position among its outputs. *)
Abbreviation NodeEntry := (nat * nat)%type.

Record INode := {
  is_variable : bool;
  n_inputs : list NodeEntry;
  num_inputs : nat;
  num_outputs : nat;
  finplace_option : option (list (nat * nat));      (* (input, output) *)
  finplace_identity : option (list bool);
  fignore_inputs : option (list nat)
}.

Record Graph := {
  nodes : list INode;
  g_outputs : list NodeEntry;
  shape_vec : list TShape;
  dtype_vec : list Z;
  device_vec : option (list Z)
}.

(** [entry_rptr_]: the entries of a node follow those of the nodes before it. *)
Definition entry_rptr (g : Graph) (nid : nat) : nat := sum_list (num_outputs <$> take nid (nodes g)).
Definition entry_id (g : Graph) (e : NodeEntry) : nat := (entry_rptr g e.1 + e.2)%nat.
Definition num_node_entries (g : Graph) : nat := entry_rptr g (length (nodes g)).

(** ** The allocator *)
Definition kBadStorageID : Z := -1.
Definition kExternalStorageID : Z := -2.
Definition kDynamicStorageID : Z := -3.

Record StorageEntry := { device_id : Z; max_bytes : Z; released_by_node : nat }.

(** [free_] is a multimap from sizes to storages, in the order of the sizes. *)
Record GraphAllocator := {
  match_range_ : Z;
  free_ : list (Z * nat);
  data_ : list StorageEntry;
  node_color_ : list Z
}.

(** Positions and insertion of [std::multimap]. *)
Fixpoint map_lower_bound {A} (k : Z) (m : list (Z * A)) : nat :=
  match m with [] => 0 | (k', _) :: m => if k' <? k then S (map_lower_bound k m) else 0 end.
Fixpoint map_upper_bound {A} (k : Z) (m : list (Z * A)) : nat :=
  match m with [] => 0 | (k', _) :: m => if k' <=? k then S (map_upper_bound k m) else 0 end.
Definition map_insert {A} (k : Z) (x : A) (m : list (Z * A)) : list (Z * A) :=
  take (map_upper_bound k m) m ++ (k, x) :: drop (map_upper_bound k m) m.

Definition Alloc (dev_id size : Z) (a : GraphAllocator) : Z * GraphAllocator :=
  (Z.of_nat (length (data_ a)),
   {| match_range_ := match_range_ a; free_ := free_ a; node_color_ := node_color_ a;
      data_ := data_ a ++ [{| device_id := dev_id; max_bytes := size; released_by_node := 0 |}] |}).

(** May node [node_id] on device [dev_id] use the free storage [id]? *)
Definition usable (dev_id : Z) (node_id : nat) (a : GraphAllocator) (id : nat) : result bool :=
  e ← rd (data_ a) id;
  if negb (device_id e =? dev_id) then Ok false
  else if bool_decide (node_color_ a = []) then Ok true
  else c ← rd (node_color_ a) (released_by_node e); c' ← rd (node_color_ a) node_id; Ok (c =? c').

(** [for (it = mid; it != end; ++it)] and [for (it = mid; it != begin;) { --it; ... }];
    [l] is what lies ahead of the iterator. *)
Fixpoint scan_up {A} (ok : A → result bool) (it end_ : nat) (l : list (Z * A)) : result (option nat) :=
  if (it =? end_)%nat then Ok None
  else match l with
       | [] => Err (Undefined "iterator past the end")
       | (_, x) :: l => b ← ok x; if b : bool then Ok (Some it) else scan_up ok (S it) end_ l
       end.
Fixpoint scan_down {A} (ok : A → result bool) (it begin : nat) (l : list (Z * A)) : result (option nat) :=
  if (it =? begin)%nat then Ok None
  else match l with
       | [] => Err (Undefined "iterator before the beginning")
       | (_, x) :: l => b ← ok x; if b : bool then Ok (Some (it - 1)%nat) else scan_down ok (it - 1) begin l
       end.

(** Take the free storage at [it]. *)
Definition take_free (it : nat) (size : Z) (a : GraphAllocator) : result (Z * GraphAllocator) :=
  p ← rd (free_ a) it;
  e ← rd (data_ a) p.2;
  Ok (Z.of_nat p.2,
      {| match_range_ := match_range_ a; free_ := delete it (free_ a); node_color_ := node_color_ a;
         data_ := <[p.2 := {| device_id := device_id e; max_bytes := Z.max size (max_bytes e);
                              released_by_node := released_by_node e |}]> (data_ a) |}).

Definition Request (dev_id : Z) (shape : TShape) (node_id : nat) (a : GraphAllocator) : result (Z * GraphAllocator) :=
  if bool_decide (shape = []) then Ok (kBadStorageID, a) else
  n ← Size shape;
  let size := u64 (n * 4) in
  if match_range_ a =? 0 then Ok (Alloc dev_id size a) else
  let begin := map_lower_bound (size / match_range_ a) (free_ a) in
  let mid := map_lower_bound size (free_ a) in
  let end_ := map_upper_bound (u64 (size * match_range_ a)) (free_ a) in
  up ← scan_up (usable dev_id node_id a) mid end_ (drop mid (free_ a));
  match up with
  | Some it => take_free it size a
  | None =>
      down ← scan_down (usable dev_id node_id a) mid begin (reverse (take mid (free_ a)));
      match down with
      | Some it => take_free it size a
      | None => Ok (Alloc dev_id size a)
      end
  end.

Definition Release (id : Z) (node_id : nat) (a : GraphAllocator) : result GraphAllocator :=
  check (negb (id =? kBadStorageID)) "id != kBadStorageID";;
  if (id =? kExternalStorageID) || (id =? kDynamicStorageID) then Ok a else
  e ← rdz (data_ a) id;
  data ← wrz (data_ a) id {| device_id := device_id e; max_bytes := max_bytes e; released_by_node := node_id |};
  Ok {| match_range_ := match_range_ a; free_ := map_insert (max_bytes e) (Z.to_nat id) (free_ a);
        node_color_ := node_color_ a; data_ := data |}.

Definition TotalAllocBytes (a : GraphAllocator) : Z := foldl (fun total e => u64 (total + max_bytes e)) 0 (data_ a).

(** ** Planning *)
Record plan := {
  storage : list Z;
  storage_inplace_index : list Z;
  storage_ref_count : list Z;
  allocator : GraphAllocator;
  num_not_allocated : Z
}.
Definition plan_eta (p : plan) : plan := {|
  storage := storage p; storage_inplace_index := storage_inplace_index p; storage_ref_count := storage_ref_count p;
  allocator := allocator p; num_not_allocated := num_not_allocated p |}.
Definition set_storage (x : list Z) (p : plan) : plan := ltac:(set_field (plan_eta p) (storage p) x).
Definition set_inplace_index (x : list Z) (p : plan) : plan := ltac:(set_field (plan_eta p) (storage_inplace_index p) x).
Definition set_ref_count (x : list Z) (p : plan) : plan := ltac:(set_field (plan_eta p) (storage_ref_count p) x).
Definition set_allocator (x : GraphAllocator) (p : plan) : plan := ltac:(set_field (plan_eta p) (allocator p) x).
Definition set_not_allocated (x : Z) (p : plan) : plan := ltac:(set_field (plan_eta p) (num_not_allocated p) x).

Definition GetDTypeSize (type_flag : Z) : result Z :=
  if (type_flag =? 3) || (type_flag =? 5) then Ok 1
  else if (type_flag =? 2) || (type_flag =? 7) || (type_flag =? 8) then Ok 2
  else if (type_flag =? 0) || (type_flag =? 4) || (type_flag =? 9) then Ok 4
  else if (type_flag =? 1) || (type_flag =? 6) || (type_flag =? 10) then Ok 8
  else Err (CheckFailed "unknown type_flag").

Section plan.
Context (g : Graph) (entry_ref_count : list Z).

Definition ignored (node : INode) : list nat := default [] (fignore_inputs node).
Definition ignore_all_inputs (node : INode) : bool :=
  match fignore_inputs node with Some l => (length l =? num_inputs node)%nat | None => false end.

(** Do the two entries have the same number of bytes? *)
Definition same_bytes (eid_out eid_in : nat) : result bool :=
  s ← rd (shape_vec g) eid_out; s' ← rd (shape_vec g) eid_in;
  n ← Size s; n' ← Size s';
  if negb (n =? n') then Ok false else
  t ← rd (dtype_vec g) eid_out; t' ← rd (dtype_vec g) eid_in;
  if t =? t' then Ok true else b ← GetDTypeSize t; b' ← GetDTypeSize t'; Ok (b =? b').

(** One pair of the inplace option. *)
Definition try_inplace (nid : nat) (node : INode) (pair : nat * nat) (identity : bool) (s : list bool * plan)
    : result (list bool * plan) :=
  let '(taken, p) := s in
  let eid_out := entry_id g (nid, pair.2) in
  e ← rd (n_inputs node) pair.1;
  let eid_in := entry_id g e in
  sid_out ← rd (storage p) eid_out;
  sid_in ← rd (storage p) eid_in;
  t ← rd taken pair.1;
  if (t : bool) || negb (sid_out =? kBadStorageID) || (sid_in <? 0) then Ok s else
  count ← rdz (storage_ref_count p) sid_in;
  if negb (((count =? 1) && negb (ignore_all_inputs node)) || identity) then Ok s else
  refs ← rd entry_ref_count eid_out;
  if refs <=? 0 then Ok s else
  same ← same_bytes eid_out eid_in;
  if negb (same : bool) then Ok s else
  taken ← wr taken pair.1 true;
  storage' ← wr (storage p) eid_out sid_in;
  count' ← wrz (storage_ref_count p) sid_in (count + refs);
  index' ← wr (storage_inplace_index p) eid_out (Z.of_nat pair.1);
  Ok (taken, set_inplace_index index' (set_ref_count count' (set_storage storage' p))).

Definition plan_inplace (nid : nat) (node : INode) (p : plan) : result plan :=
  match finplace_option node with
  | None => Ok p
  | Some pairs =>
      identity ← (match finplace_identity node with
                  | Some identity => check (length identity =? length pairs)%nat "FInplaceOption and FInplaceIdentity returned vectors of different size";; Ok identity
                  | None => Ok (replicate (length pairs) false)
                  end);
      r ← for_range 0 (length pairs) (fun ipair s => kv ← rd pairs ipair; id ← rd identity ipair; try_inplace nid node kv id s)
            (replicate (length (n_inputs node)) false, p);
      Ok r.2
  end.

(** The outputs that need storage, by size. *)
Definition collect_output (nid : nat) (p : plan) (index : nat) (eids : list (Z * nat)) : result (list (Z * nat)) :=
  let eid := entry_id g (nid, index) in
  sid ← rd (storage p) eid;
  if negb (sid =? kBadStorageID) then Ok eids else
  shape ← rd (shape_vec g) eid;
  esize ← (if bool_decide (shape = []) then Ok 0 else Size shape);
  Ok (map_insert esize eid eids).

Definition request_output (nid : nat) (dev_id : Z) (p : plan) (eid : nat) : result plan :=
  shape ← rd (shape_vec g) eid;
  r ← Request dev_id shape nid (allocator p);
  let '(sid, a) := r in
  count ← (if 0 <=? sid then refs ← rd entry_ref_count eid; wrz (storage_ref_count p) sid refs else Ok (storage_ref_count p));
  storage' ← wr (storage p) eid sid;
  Ok (set_allocator a (set_ref_count count (set_storage storage' p))).

Definition plan_outputs (nid : nat) (node : INode) (p : plan) : result plan :=
  dev_id ← (match device_vec g with Some v => rd v nid | None => Ok 0 end);
  eids ← for_range 0 (num_outputs node) (fun index eids => collect_output nid p index eids) [];
  foldM (request_output nid dev_id) p (reverse (snd <$> eids)).

Definition free_input (nid : nat) (node : INode) (i : nat) (p : plan) : result plan :=
  if bool_decide (i ∈ ignored node) then Ok p else
  e ← rd (n_inputs node) i;
  sid ← rd (storage p) (entry_id g e);
  if sid <? 0 then Ok p else
  count ← rdz (storage_ref_count p) sid;
  counts ← wrz (storage_ref_count p) sid (count - 1);
  let p := set_ref_count counts p in
  if count - 1 =? 0 then a ← Release sid nid (allocator p); Ok (set_allocator a p) else Ok p.

Definition free_output (nid : nat) (index : nat) (p : plan) : result plan :=
  let eid := entry_id g (nid, index) in
  sid ← rd (storage p) eid;
  p ← (if 0 <=? sid then
         count ← rdz (storage_ref_count p) sid;
         if count =? 0 then
           a ← Release sid nid (allocator p);
           index' ← wr (storage_inplace_index p) eid (-2);
           Ok (set_inplace_index index' (set_allocator a p))
         else Ok p
       else Ok p);
  Ok (if sid =? kBadStorageID then set_not_allocated (num_not_allocated p + 1) p else p).

(** One iteration of AllocMemory. *)
Definition plan_node (nid : nat) (p : plan) : result plan :=
  node ← rd (nodes g) nid;
  if is_variable node then Ok p else
  p ← plan_inplace nid node p;
  p ← plan_outputs nid node p;
  p ← for_range 0 (length (n_inputs node)) (fun i p => free_input nid node i p) p;
  for_range 0 (num_outputs node) (fun index p => free_output nid index p) p.

Definition AllocMemory (node_range : nat * nat) (storage inplace : list Z) (a : GraphAllocator) : result plan :=
  for_range node_range.1 node_range.2 plan_node
    {| storage := storage; storage_inplace_index := inplace; storage_ref_count := replicate (num_node_entries g) 0;
       allocator := a; num_not_allocated := 0 |}.
End plan.

(** ** The pass *)
Definition bump (d : Z) (counts : list Z) (eid : nat) : result (list Z) := n ← rd counts eid; wr counts eid (n + d).

Definition count_node (g : Graph) (counts : list Z) (node : INode) : result (list Z) :=
  if is_variable node then Ok counts else
  counts ← foldM (bump 1) counts (entry_id g <$> n_inputs node);
  foldM (fun counts i => e ← rd (n_inputs node) i; bump (-1) counts (entry_id g e)) counts (ignored node).

Definition count_refs (g : Graph) : result (list Z) :=
  counts ← foldM (count_node g) (replicate (num_node_entries g) 0) (nodes g);
  foldM (bump 1) counts (entry_id g <$> g_outputs g).

(** The loop over the match ranges, which keeps the plan that needs least memory. *)
Fixpoint search_range (fuel : nat) (max_match_range match_range : Z) (try : Z → result plan)
    (best : option plan) (min_allocated_bytes : Z) : result (option plan) :=
  match fuel with
  | O => Err (Blocked "search of the match range")
  | S fuel =>
      if max_match_range <? match_range then Ok best else
      p ← try match_range;
      let bytes := TotalAllocBytes (allocator p) in
      let '(best, min_allocated_bytes) := if bytes <? min_allocated_bytes then (Some p, bytes) else (best, min_allocated_bytes) in
      if max_match_range =? 0 then Ok best
      else search_range fuel max_match_range (u64 (match_range * 2)) try best min_allocated_bytes
  end.

(** The attributes of the graph that are set before the pass. *)
Record PlanArgs := {
  a_node_range : option (nat * nat);
  a_ref_count : option (list Z);
  a_storage : option (list Z);
  a_max_match_range : Z;          (* NNVM_EXEC_MATCH_RANGE *)
  a_auto_search : bool;           (* NNVM_AUTO_SEARCH_MATCH_RANGE *)
  a_node_color : list Z           (* what ColorNodeGroup gives; empty for NNVM_EXEC_NUM_TEMP = 1 *)
}.

Definition PlanMemory (g : Graph) (args : PlanArgs) : result (option plan) :=
  let node_range := default (0%nat, length (nodes g)) (a_node_range args) in
  refs ← (match a_ref_count args with Some refs => Ok refs | None => count_refs g end);
  let storage0 := default (replicate (num_node_entries g) (-1)) (a_storage args) in
  let min_match_range := if a_auto_search args then 1 else a_max_match_range args in
  search_range 65 (a_max_match_range args) min_match_range
    (fun match_range =>
       AllocMemory g refs node_range storage0 (replicate (num_node_entries g) (-1))
         {| match_range_ := match_range; free_ := []; data_ := []; node_color_ := a_node_color args |})
    None (2 ^ 64 - 1).

(** ** Running a graph *)
Section run.
Context {V : Type} (g : Graph) (sem : nat → list V → nat → V).

(** Every entry has its own memory. *)
Definition node_entries (nid : nat) (node : INode) : list nat := (fun k => entry_id g (nid, k)) <$> seq 0 (num_outputs node).

Definition write_entries (val : nat → V) (nid : nat) (node : INode) (env : nat → V) : nat → V := fun e =>
  if bool_decide (e ∈ node_entries nid node) then val (e - entry_rptr g nid)%nat else env e.

Definition run_node (nid : nat) (node : INode) (env : nat → V) : nat → V :=
  if is_variable node then env
  else write_entries (sem nid ((fun e => env (entry_id g e)) <$> n_inputs node)) nid node env.

Fixpoint run_from (nid : nat) (l : list INode) (env : nat → V) : nat → V :=
  match l with [] => env | node :: l => run_from (S nid) l (run_node nid node env) end.
Definition run_graph (env : nat → V) : nat → V := run_from 0 (nodes g) env.

(** With a plan, entries are in the storage they are given; an entry without storage has
    memory of its own. *)
Inductive cell := Own (e : nat) | Pool (sid : nat).
#[export] Instance cell_eq_dec : EqDecision cell.
Proof. solve_decision. Defined.

Context (sids : list Z).
Definition cell_of (e : nat) : cell :=
  match sids !! e with Some z => if 0 <=? z then Pool (Z.to_nat z) else Own e | None => Own e end.

(** An operator may write output [k] while it reads its inputs.  The memory of an input that
    it does not ignore may only be overwritten where the operator allows that, or with what
    the memory holds already. *)
Definition pair_identity (node : INode) (ipair : nat) : bool := default false (finplace_identity node ≫= (.!! ipair)).
Definition may_share (nid : nat) (node : INode) (i k : nat) : bool :=
  match finplace_option node with
  | None => false
  | Some pairs =>
      bool_decide ((i, k) ∈ pairs)
      || existsb (fun ipair => match pairs !! ipair with
                               | Some (i', k') =>
                                   (k' =? k)%nat && pair_identity node ipair
                                   && bool_decide (cell_of <$> (entry_id g <$> n_inputs node !! i') = Some (cell_of (entry_id g (nid, k))))
                               | None => false
                               end) (seq 0 (length pairs))
  end.
Definition clobbers (nid : nat) (node : INode) (i k : nat) : bool :=
  negb (bool_decide (i ∈ ignored node))
  && bool_decide (cell_of <$> (entry_id g <$> n_inputs node !! i) = Some (cell_of (entry_id g (nid, k))))
  && negb (may_share nid node i k).

Definition write_cells (val : nat → V) (nid : nat) (node : INode) (mem : cell → V) : cell → V :=
  foldl (fun mem k => fun c => if bool_decide (c = cell_of (entry_id g (nid, k))) then val k else mem c) mem (seq 0 (num_outputs node)).

Definition run_planned_node (nid : nat) (node : INode) (mem : cell → V) : result (cell → V) :=
  if is_variable node then Ok mem else
  if existsb (fun i => existsb (fun k => clobbers nid node i k) (seq 0 (num_outputs node))) (seq 0 (length (n_inputs node)))
  then Err (Undefined "input overwritten while it is read") else
  Ok (write_cells (sem nid ((fun e => mem (cell_of (entry_id g e))) <$> n_inputs node)) nid node mem).

Fixpoint run_planned_from (nid : nat) (l : list INode) (mem : cell → V) : result (cell → V) :=
  match l with [] => Ok mem | node :: l => mem ← run_planned_node nid node mem; run_planned_from (S nid) l mem end.
Definition run_planned (mem : cell → V) : result (cell → V) := run_planned_from 0 (nodes g) mem.
End run.
