(* ===== verification/PlanMemorySound.v ===== *)
(** * The memory plan is sound

    What makes a plan safe: the storage of an output of a node holds nothing that is still
    needed, or it holds an input whose last use this is and which the operator may overwrite,
    or an input that it copies.  Running a graph in the memory of a safe plan gives the
    results of the graph with memory of its own for every entry.  PlanMemoryMake.v shows that
    the planner makes safe plans. *)

From S2P Require Import Prelude Blob PlanMemory.
Local Open Scope Z_scope.
Local Arguments entry_id _ _ : simpl never.
Local Arguments entry_rptr _ _ : simpl never.

(** ** Counting *)
Definition occ (f : nat → bool) (l : list nat) : nat := length (List.filter f l).

Lemma occ_of_app f l l' : occ f (l ++ l') = (occ f l + occ f l')%nat.
Proof. unfold occ. by rewrite List.filter_app, length_app. Qed.
Lemma occ_of_cons f e l : occ f (e :: l) = ((if f e then 1 else 0) + occ f l)%nat.
Proof. unfold occ. cbn. by destruct (f e). Qed.
Lemma occ_zero f l : occ f l = 0%nat → ∀ e, e ∈ l → f e = false.
Proof. apply count_none_inv. Qed.
Lemma occ_of_none f l : (∀ e, e ∈ l → f e = false) → occ f l = 0%nat.
Proof. apply count_none. Qed.
Lemma occ_pos f l e : e ∈ l → f e = true → (0 < occ f l)%nat.
Proof. intros He Hf. destruct (decide (occ f l = 0%nat)) as [H|]; [|lia]. pose proof (occ_zero f l H e He). congruence. Qed.
Lemma occ_ext f h l : (∀ e, e ∈ l → f e = h e) → occ f l = occ h l.
Proof. intros H. unfold occ. f_equal. apply List.filter_ext_in. intros e He. apply H. by apply list_elem_of_In. Qed.

(** The uses of entry [e] in [l], and of the entries in storage [s]. *)
Definition uses (e : nat) (l : list nat) : nat := occ (fun e' => (e' =? e)%nat) l.
Definition on (s : nat) (st : list Z) (l : list nat) : nat := occ (fun e => bool_decide (st !! e = Some (Z.of_nat s))) l.

Lemma uses_zero e l : uses e l = 0%nat → e ∉ l.
Proof. intros H He. pose proof (occ_zero _ _ H e He) as Hn. cbn in Hn. by rewrite Nat.eqb_refl in Hn. Qed.
Lemma uses_none e l : e ∉ l → uses e l = 0%nat.
Proof. intros H. apply occ_of_none. intros e' He'. apply Nat.eqb_neq. by intros ->. Qed.
Lemma uses_pos e l : (0 < uses e l)%nat ↔ e ∈ l.
Proof.
  split.
  - intros H. destruct (decide (e ∈ l)) as [|Hn]; [done|]. rewrite uses_none in H by done. lia.
  - intros He. apply (occ_pos _ _ e He). apply Nat.eqb_refl.
Qed.

Lemma on_zero s st l e : on s st l = 0%nat → e ∈ l → st !! e ≠ Some (Z.of_nat s).
Proof. intros H He Hs. pose proof (occ_zero _ _ H e He) as Hn. cbn in Hn. by rewrite bool_decide_eq_true_2 in Hn. Qed.
Lemma on_pos s st l e : e ∈ l → st !! e = Some (Z.of_nat s) → (0 < on s st l)%nat.
Proof. intros He Hs. apply (occ_pos _ _ e He). by apply bool_decide_eq_true_2. Qed.

(** Only entry [e] is in storage [s], and it is used once. *)
Lemma on_one s st l e : on s st l = 1%nat → e ∈ l → st !! e = Some (Z.of_nat s) →
  uses e l = 1%nat ∧ ∀ e', e' ∈ l → st !! e' = Some (Z.of_nat s) → e' = e.
Proof.
  unfold on, uses. induction l as [|x l IH]; [done|]. rewrite !occ_of_cons. intros H He Hs. case_bool_decide as Hx.
  - assert (on s st l = 0%nat) as H0 by (unfold on; lia). apply elem_of_cons in He as [->|He]; [|by destruct (on_zero _ _ _ e H0 He)]. rewrite Nat.eqb_refl. split.
    + assert (occ (fun e' => (e' =? x)%nat) l = 0%nat) as ->; [|done]. apply uses_none. intros Hin. by destruct (on_zero _ _ _ x H0 Hin).
    + intros e' [->|He']%elem_of_cons Hs'; [done|]. by destruct (on_zero _ _ _ e' H0 He').
  - apply elem_of_cons in He as [->|He]; [done|]. destruct (IH ltac:(lia) He Hs) as [H1 H2]. split.
    + destruct (Nat.eqb_spec x e) as [->|]; [done|]. lia.
    + intros e' [->|He']%elem_of_cons Hs'; [done|]. by apply H2.
Qed.

(** Giving a storage to an entry that had none. *)
Lemma on_assign s o st l z : st !! o = Some z → z ≠ Z.of_nat s → on s (<[o := Z.of_nat s]> st) l = (on s st l + uses o l)%nat.
Proof.
  intros Ho Hz. unfold on, uses. induction l as [|x l IH]; [done|]. rewrite !occ_of_cons, IH. destruct (Nat.eqb_spec x o) as [->|Hne].
  - rewrite list_lookup_insert_eq by (by apply lookup_lt_Some in Ho). rewrite bool_decide_eq_true_2, bool_decide_eq_false_2 by congruence. lia.
  - rewrite list_lookup_insert_ne by done. lia.
Qed.
Lemma on_assign_ne s o st l z z' : st !! o = Some z → z ≠ Z.of_nat s → z' ≠ Z.of_nat s → on s (<[o := z']> st) l = on s st l.
Proof.
  intros Ho Hz Hz'. apply occ_ext. intros e _. apply bool_decide_ext. destruct (decide (e = o)) as [->|Hne].
  - rewrite list_lookup_insert_eq, Ho by (by apply lookup_lt_Some in Ho). split; intros; simplify_eq.
  - by rewrite list_lookup_insert_ne.
Qed.

(** ** Graphs for which a plan is made *)
Section graph.
Context (g : Graph).
Abbreviation N := (num_node_entries g).
Abbreviation rptr := (entry_rptr g).

Record node_ok (nid : nat) (node : INode) : Prop := {
  no_inputs : ∀ e, e ∈ n_inputs node → (e.1 < nid)%nat ∧ ∃ src, nodes g !! e.1 = Some src ∧ (e.2 < num_outputs src)%nat;
  no_num : num_inputs node = length (n_inputs node);
  no_ignored : NoDup (ignored node) ∧ ∀ i, i ∈ ignored node → (i < length (n_inputs node))%nat;
  no_pairs : ∀ pairs ip i k, finplace_option node = Some pairs → pairs !! ip = Some (i, k) →
    (i < length (n_inputs node))%nat ∧ (k < num_outputs node)%nat ∧
    (i ∉ ignored node ∨ ignore_all_inputs node = true ∧ pair_identity node ip = false);
  no_identity : ∀ pairs l, finplace_option node = Some pairs → finplace_identity node = Some l → length l = length pairs
}.

Record graph_ok : Prop := {
  go_nodes : ∀ nid node, nodes g !! nid = Some node → node_ok nid node;
  go_outputs : ∀ e, e ∈ g_outputs g → ∃ src, nodes g !! e.1 = Some src ∧ (e.2 < num_outputs src)%nat;
  go_shapes : length (shape_vec g) = N ∧ Forall shape_ok (shape_vec g);
  go_dtypes : length (dtype_vec g) = N ∧ Forall (fun t => is_ok (GetDTypeSize t) = true) (dtype_vec g);
  go_devices : ∀ v, device_vec g = Some v → length v = length (nodes g)
}.

Lemma rptr_S nid node : nodes g !! nid = Some node → rptr (S nid) = (rptr nid + num_outputs node)%nat.
Proof. intros H. unfold entry_rptr. rewrite (take_S_r _ _ _ H), fmap_app, sum_list_with_app. cbn. lia. Qed.

Lemma rptr_step nid : (rptr nid ≤ rptr (S nid))%nat.
Proof.
  destruct (nodes g !! nid) as [node|] eqn:H; [rewrite (rptr_S _ _ H); lia|]. apply lookup_ge_None in H. unfold entry_rptr. by rewrite !take_ge by lia.
Qed.
Lemma rptr_mono a b : (a ≤ b)%nat → (rptr a ≤ rptr b)%nat.
Proof. induction 1 as [|b _ IH]; [done|]. pose proof (rptr_step b). lia. Qed.

(** Entries of existing nodes. *)
Definition is_entry (e : NodeEntry) : Prop := ∃ src, nodes g !! e.1 = Some src ∧ (e.2 < num_outputs src)%nat.

Lemma entry_lt e nid : is_entry e → (e.1 < nid)%nat → (entry_id g e < rptr nid)%nat.
Proof. intros (src & Hs & Hk) Hlt. unfold entry_id. pose proof (rptr_mono (S e.1) nid ltac:(lia)). rewrite (rptr_S _ _ Hs) in H. lia. Qed.
Lemma entry_bound e : is_entry e → (entry_id g e < N)%nat.
Proof. intros He. apply entry_lt; [done|]. destruct He as (src & Hs & _). by apply lookup_lt_Some in Hs. Qed.

(** ** The uses to come *)

(** The inputs from position [i] on that are not ignored. *)
Definition live_input (node : INode) (i : nat) : option nat :=
  if bool_decide (i ∈ ignored node) then None else entry_id g <$> n_inputs node !! i.
Definition live_from (node : INode) (i : nat) : list nat := omap (live_input node) (seq i (length (n_inputs node) - i)).
Definition live (node : INode) : list nat := if is_variable node then [] else live_from node 0.

(** The entries that the nodes from [nid] on read, and the results of the graph. *)
Definition pend (nid : nat) : list nat := mjoin (live <$> drop nid (nodes g)) ++ (entry_id g <$> g_outputs g).

Lemma pend_S nid node : nodes g !! nid = Some node → pend nid = live node ++ pend (S nid).
Proof. intros H. unfold pend. rewrite (drop_S _ _ _ H). cbn. by rewrite <- (assoc_L (++)). Qed.

Lemma live_from_S node i : (i < length (n_inputs node))%nat → live_from node i = option_list (live_input node i) ++ live_from node (S i).
Proof.
  intros Hi. unfold live_from. replace (length (n_inputs node) - i)%nat with (S (length (n_inputs node) - S i)) by lia. rewrite <- cons_seq. cbn. by destruct (live_input node i).
Qed.
Lemma live_from_end node i : (length (n_inputs node) ≤ i)%nat → live_from node i = [].
Proof. intros Hi. unfold live_from. by replace (length (n_inputs node) - i)%nat with 0%nat by lia. Qed.

Lemma elem_of_live_from node i e : e ∈ live_from node i ↔ ∃ j, (i ≤ j)%nat ∧ live_input node j = Some e.
Proof.
  unfold live_from. rewrite list_elem_of_omap. split.
  - intros (j & Hj & He). apply elem_of_seq in Hj. exists j. split; [lia|done].
  - intros (j & Hj & He). exists j. split; [|done]. apply elem_of_seq. unfold live_input in He. case_bool_decide; [done|].
    destruct (n_inputs node !! j) eqn:Hn; [|done]. apply lookup_lt_Some in Hn. lia.
Qed.

(** Two positions read the same entry. *)
Lemma live_twice node i j e : is_variable node = false → i ≠ j → live_input node i = Some e → live_input node j = Some e → (2 ≤ uses e (live node))%nat.
Proof.
  intros Hv Hne Hi Hj. unfold live. rewrite Hv. assert (∀ a b, (a < b)%nat → live_input node a = Some e → live_input node b = Some e → (2 ≤ uses e (live_from node 0))%nat) as H.
  { intros a b Hab Ha Hb. unfold live_from, uses. rewrite Nat.sub_0_r. assert (b < length (n_inputs node))%nat as Hlt.
    { unfold live_input in Hb. case_bool_decide; [done|]. destruct (n_inputs node !! b) eqn:Hn; [|done]. by apply lookup_lt_Some in Hn. }
    replace (length (n_inputs node)) with (b + (length (n_inputs node) - b))%nat by lia. rewrite seq_app, omap_app, occ_of_app.
    assert (0 < uses e (omap (live_input node) (seq 0 b)))%nat by (apply uses_pos, list_elem_of_omap; exists a; split; [apply elem_of_seq; lia|done]).
    assert (0 < uses e (omap (live_input node) (seq (0 + b) (length (n_inputs node) - b))))%nat by (apply uses_pos, list_elem_of_omap; exists b; split; [apply elem_of_seq; lia|done]).
    unfold uses in *. lia. }
  destruct (decide (i < j)%nat); [by apply (H i j)|apply (H j i); [lia|done|done]].
Qed.

Hypothesis Hg : graph_ok.

Lemma live_lt nid node e : nodes g !! nid = Some node → e ∈ live node → (e < rptr nid)%nat.
Proof.
  intros Hn He. unfold live in He. destruct (is_variable node); [by apply not_elem_of_nil in He|]. apply elem_of_live_from in He as (j & _ & Hj). unfold live_input in Hj.
  case_bool_decide; [done|]. destruct (n_inputs node !! j) as [x|] eqn:Hx; [|done]. injection Hj as <-. apply list_elem_of_lookup_2 in Hx.
  destruct (no_inputs _ _ (go_nodes Hg _ _ Hn) x Hx) as [Hlt Hent]. by apply entry_lt.
Qed.

Lemma pend_lt nid e : e ∈ pend nid → (e < N)%nat.
Proof.
  unfold pend. intros [He|He]%elem_of_app.
  - apply list_elem_of_join in He as (l & He & Hl). apply list_elem_of_fmap in Hl as (node & -> & Hn). apply list_elem_of_lookup in Hn as [j Hj]. rewrite lookup_drop in Hj.
    pose proof (live_lt _ _ _ Hj He). pose proof (lookup_lt_Some _ _ _ Hj). pose proof (rptr_mono (nid + j) (length (nodes g)) ltac:(lia)). unfold num_node_entries. lia.
  - apply list_elem_of_fmap in He as (x & -> & Hx). apply entry_bound. exact (go_outputs Hg x Hx).
Qed.

(** Entries of a node are used after it. *)
Lemma uses_later e nid : (rptr nid ≤ e)%nat → ∀ n, (n ≤ nid)%nat → uses e (pend n) = uses e (pend nid).
Proof.
  intros He n Hn. induction Hn as [|nid Hn IH]; [done|]. rewrite IH by (pose proof (rptr_step nid); lia).
  destruct (nodes g !! nid) as [node|] eqn:H.
  - rewrite (pend_S _ _ H). unfold uses at 1. rewrite occ_of_app. fold (uses e (live node)). rewrite uses_none; [done|]. intros Hin. pose proof (live_lt _ _ _ H Hin). pose proof (rptr_step nid). lia.
  - unfold pend. apply lookup_ge_None in H. by rewrite !drop_ge by lia.
Qed.

(** ** Safe plans *)
Section safe.
Context (sids : list Z).

(** How output [k] of a node may use storage [s]. *)
Definition fate (nid : nat) (node : INode) (k s : nat) : Prop :=
  let o := entry_id g (nid, k) in
  (∀ e, e ∈ pend nid ∨ e ∈ node_entries g nid node → (e < rptr (S nid))%nat → sids !! e = Some (Z.of_nat s) → e = o) ∨
  ∃ pairs ip i ein, finplace_option node = Some pairs ∧ pairs !! ip = Some (i, k) ∧ live_input node i = Some ein ∧
    sids !! ein = Some (Z.of_nat s) ∧ o ∈ pend nid ∧
    (pair_identity node ip = true ∨
     uses ein (pend nid) = 1%nat ∧ ∀ e, e ∈ pend nid → (e < rptr (S nid))%nat → sids !! e = Some (Z.of_nat s) → e = o ∨ e = ein).

Definition safe_until (n : nat) : Prop :=
  ∀ nid node k s, (nid < n)%nat → nodes g !! nid = Some node → is_variable node = false → (k < num_outputs node)%nat →
  sids !! entry_id g (nid, k) = Some (Z.of_nat s) → fate nid node k s.

Lemma cell_own e e' : cell_of sids e = Own e' → e = e'.
Proof. unfold cell_of. destruct (sids !! e) as [z|]; [destruct (0 <=? z)|]; congruence. Qed.
Lemma cell_pool e s : cell_of sids e = Pool s ↔ sids !! e = Some (Z.of_nat s).
Proof.
  unfold cell_of. destruct (sids !! e) as [z|]; [|split; done]. destruct (Z.leb_spec 0 z); split; intros; simplify_eq; try done; [by rewrite Z2Nat.id|by rewrite Nat2Z.id|lia].
Qed.
Lemma cell_shared e e' : e ≠ e' → cell_of sids e = cell_of sids e' → ∃ s, sids !! e = Some (Z.of_nat s) ∧ sids !! e' = Some (Z.of_nat s).
Proof.
  intros Hne Hc. destruct (cell_of sids e) as [x|s] eqn:E; [|exists s; split; by apply cell_pool].
  apply cell_own in E as <-. symmetry in Hc. by apply cell_own in Hc.
Qed.

Lemma live_input_lt nid node i e : nodes g !! nid = Some node → live_input node i = Some e → (e < rptr nid)%nat.
Proof.
  intros Hn He. unfold live_input in He. case_bool_decide; [done|]. destruct (n_inputs node !! i) as [x|] eqn:Hx; [|done]. injection He as <-. apply list_elem_of_lookup_2 in Hx.
  destruct (no_inputs _ _ (go_nodes Hg _ _ Hn) x Hx) as [Hlt Hent]. by apply entry_lt.
Qed.
Lemma live_input_pend nid node i e : nodes g !! nid = Some node → is_variable node = false → live_input node i = Some e → e ∈ live node ∧ e ∈ pend nid.
Proof.
  intros Hn Hv He. assert (e ∈ live node) as Hl by (unfold live; rewrite Hv; apply elem_of_live_from; exists i; split; [lia|done]).
  split; [done|]. rewrite (pend_S _ _ Hn). apply elem_of_app. by left.
Qed.

(** No output overwrites an input that is still read. *)
Lemma safe_no_clobber nid node i k : safe_until (S nid) → nodes g !! nid = Some node → is_variable node = false →
  (k < num_outputs node)%nat → clobbers g sids nid node i k = false.
Proof.
  intros Hsafe Hn Hv Hk. unfold clobbers. case_bool_decide as Hig; [done|]. cbn [negb andb]. case_bool_decide as Hc; [|done]. cbn [andb].
  destruct (n_inputs node !! i) as [x|] eqn:Hx; [|done]. cbn in Hc. injection Hc as Hc. set (e := entry_id g x) in *. set (o := entry_id g (nid, k)) in *.
  assert (live_input node i = Some e) as Hle by (unfold live_input; rewrite bool_decide_eq_false_2, Hx by done; done).
  pose proof (live_input_lt _ _ _ _ Hn Hle) as Hlt. assert (rptr nid ≤ o)%nat as Ho by (unfold o, entry_id; cbn [fst snd]; lia).
  destruct (cell_shared e o ltac:(lia) Hc) as (s & Hse & Hso). apply negb_false_iff. unfold may_share. destruct (live_input_pend _ _ _ _ Hn Hv Hle) as [_ Hpe].
  destruct (Hsafe nid node k s (le_n _) Hn Hv Hk Hso) as [Hf|(pairs & ip & i' & ein & -> & Hip & Hle' & Hsin & Hpo & [Hid|[Hone Hall]])].
  - specialize (Hf e (or_introl Hpe)). pose proof (rptr_step nid). specialize (Hf ltac:(lia) Hse). rewrite Hf in Hlt. unfold entry_id in Hlt. cbn [fst snd] in Hlt. lia.
  - apply orb_true_intro. right. apply existsb_exists. exists ip. split; [apply in_seq; apply lookup_lt_Some in Hip; lia|]. rewrite Hip, Nat.eqb_refl, Hid. cbn.
    apply bool_decide_eq_true_2. unfold live_input in Hle'. case_bool_decide; [done|]. destruct (n_inputs node !! i') as [x'|]; [|done]. cbn in *. injection Hle' as Hle'. rewrite Hle'. apply (f_equal Some).
    fold o. apply cell_pool in Hsin, Hso. congruence.
  - apply orb_true_intro. left. apply bool_decide_eq_true_2. pose proof (rptr_step nid). destruct (Hall e Hpe ltac:(lia) Hse) as [He|He]; [rewrite He in Hlt; unfold entry_id in Hlt; cbn [fst snd] in Hlt; lia|]. rewrite He in Hle.
    destruct (decide (i = i')) as [->|Hne]; [by apply list_elem_of_lookup_2 in Hip|]. pose proof (live_twice node i i' _ Hv Hne Hle Hle') as H2.
    rewrite (pend_S _ _ Hn) in Hone. unfold uses in *. rewrite occ_of_app in Hone. lia.
Qed.

(** ** Running with a safe plan *)
Context {V : Type} (sem : nat → list V → nat → V).
Hypothesis sem_ignores : ∀ nid node vs vs' k, nodes g !! nid = Some node → length vs = length vs' →
  (∀ i, i ∉ ignored node → vs !! i = vs' !! i) → sem nid vs k = sem nid vs' k.
Hypothesis sem_identity : ∀ nid node pairs ip i k vs v, nodes g !! nid = Some node → finplace_option node = Some pairs → pairs !! ip = Some (i, k) →
  pair_identity node ip = true → vs !! i = Some v → sem nid vs k = v.

Lemma write_cells_spec (val : nat → V) nid node mem c :
  (∃ k, (k < num_outputs node)%nat ∧ cell_of sids (entry_id g (nid, k)) = c ∧ write_cells g sids val nid node mem c = val k) ∨
  (∀ k, (k < num_outputs node)%nat → cell_of sids (entry_id g (nid, k)) ≠ c) ∧ write_cells g sids val nid node mem c = mem c.
Proof.
  unfold write_cells. induction (num_outputs node) as [|n IH]; [right; split; [lia|done]|]. rewrite seq_S, foldl_app. cbn. case_bool_decide as Hc; [left; exists n; split; [lia|done]|].
  destruct IH as [(k & Hk & Hck & IH)|[Hk IH]]; [left; exists k; split; [lia|done]|]. right. split; [|done]. intros k Hlt. destruct (decide (k = n)) as [->|]; [congruence|apply Hk; lia].
Qed.

(** The values that are still needed are in their storage. *)
Record agree (n : nat) (env : nat → V) (mem : cell → V) : Prop := {
  ag_pend : ∀ e, e ∈ pend n → (e < rptr n)%nat → mem (cell_of sids e) = env e;
  ag_own : ∀ e, (rptr n ≤ e)%nat → mem (Own e) = env e
}.

Lemma elem_of_node_entries nid node e : e ∈ node_entries g nid node ↔ (rptr nid ≤ e < rptr nid + num_outputs node)%nat.
Proof.
  unfold node_entries. rewrite list_elem_of_fmap. unfold entry_id. cbn [fst snd]. split.
  - intros (k & -> & Hk). apply elem_of_seq in Hk. lia.
  - intros He. exists (e - rptr nid)%nat. split; [lia|]. apply elem_of_seq. lia.
Qed.

(** What an in-place output that copies its input holds. *)
Lemma identity_value nid node pairs ip i k ein env (vs := (fun e => env (entry_id g e)) <$> n_inputs node) :
  nodes g !! nid = Some node → finplace_option node = Some pairs → pairs !! ip = Some (i, k) → pair_identity node ip = true →
  live_input node i = Some ein → sem nid vs k = env ein.
Proof.
  intros Hn Hp Hip Hid Hl. apply (sem_identity nid node pairs ip i); try done. unfold vs. rewrite list_lookup_fmap. unfold live_input in Hl. case_bool_decide; [done|].
  destruct (n_inputs node !! i) as [x|]; [|done]. cbn in *. by injection Hl as ->.
Qed.

(** The storage of output [k] is the one of a needed entry [e]: they hold the same value. *)
Lemma written_needed nid node k e env mem (vs := (fun x => env (entry_id g x)) <$> n_inputs node) :
  safe_until (S nid) → nodes g !! nid = Some node → is_variable node = false → agree nid env mem → (k < num_outputs node)%nat → e ∈ pend (S nid) → (e < rptr (S nid))%nat →
  cell_of sids (entry_id g (nid, k)) = cell_of sids e → sem nid vs k = run_node g sem nid node env e.
Proof.
  intros Hsafe Hn Hv [Hag _] Hk He Hlt Hc. unfold run_node. rewrite Hv. unfold write_entries. subst vs. set (o := entry_id g (nid, k)) in *.
  destruct (decide (e = o)) as [->|Hne].
  { rewrite bool_decide_eq_true_2; [|apply elem_of_node_entries; unfold o, entry_id; cbn [fst snd]; lia]. unfold o, entry_id. cbn [fst snd]. f_equal. lia. }
  destruct (cell_shared o e (not_eq_sym Hne) Hc) as (s & Hso & Hse). assert (e ∈ pend nid) as Hpe by (rewrite (pend_S _ _ Hn); apply elem_of_app; by right).
  assert (∀ i ein, live_input node i = Some ein → sids !! ein = Some (Z.of_nat s) → mem (Pool s) = env ein) as Hval.
  { intros i ein Hl Hs. rewrite <- (Hag ein); [by rewrite (proj2 (cell_pool _ _) Hs)|apply (live_input_pend _ _ _ _ Hn Hv Hl)|by apply (live_input_lt _ _ _ _ Hn Hl)]. }
  destruct (Hsafe nid node k s (le_n _) Hn Hv Hk Hso) as [Hf|(pairs & ip & i & ein & Hp & Hip & Hl & Hsin & Hpo & Hor)]; [by destruct Hne; apply Hf; [left|..]|]. fold o in Hpo.
  pose proof (live_input_lt _ _ _ _ Hn Hl) as Hinlt. assert (rptr nid ≤ o)%nat as Ho by (unfold o, entry_id; cbn [fst snd]; lia).
  assert (o < rptr (S nid))%nat as Ho' by (rewrite (rptr_S _ _ Hn); unfold o, entry_id; cbn [fst snd]; lia).
  destruct Hor as [Hid|[Hone Hall]].
  - rewrite (identity_value nid node pairs ip i k ein env) by done. case_bool_decide as Hin.
    + apply elem_of_node_entries in Hin. assert (e = entry_id g (nid, (e - rptr nid)%nat)) as Hek by (unfold entry_id; cbn [fst snd]; lia). rewrite Hek in Hse.
      destruct (Hsafe nid node (e - rptr nid)%nat s (le_n _) Hn Hv ltac:(lia) Hse) as [Hf|(pairs' & ip' & i' & ein' & Hp' & Hip' & Hl' & Hsin' & _ & [Hid'|[_ Hall']])].
      * specialize (Hf o (or_introl Hpo) Ho' Hso). congruence.
      * rewrite (identity_value nid node pairs' ip' i' _ ein' env) by done. rewrite <- (Hval i ein), <- (Hval i' ein') by done. done.
      * pose proof (live_input_lt _ _ _ _ Hn Hl'). destruct (Hall' o Hpo Ho' Hso) as [?| ->]; [congruence|lia].
    + rewrite <- (Hval i ein) by done. rewrite <- (Hag e Hpe); [by rewrite (proj2 (cell_pool _ _) Hse)|]. rewrite elem_of_node_entries, <- (rptr_S _ _ Hn) in Hin. lia.
  - destruct (Hall e Hpe Hlt Hse) as [?| ->]; [done|]. destruct (live_input_pend _ _ _ _ Hn Hv Hl) as [Hll _]. rewrite (pend_S _ _ Hn) in Hone. unfold uses in Hone. rewrite occ_of_app in Hone.
    apply uses_pos in Hll, He. unfold uses in *. lia.
Qed.

Lemma run_planned_node_ok nid node env mem : safe_until (S nid) → nodes g !! nid = Some node →
  (is_variable node = true → ∀ e, e ∈ node_entries g nid node → cell_of sids e = Own e) → agree nid env mem →
  ∃ mem', run_planned_node g sem sids nid node mem = Ok mem' ∧ agree (S nid) (run_node g sem nid node env) mem'.
Proof.
  intros Hsafe Hn Hvar Hag. unfold run_planned_node. pose proof (rptr_S _ _ Hn) as HS. destruct (is_variable node) eqn:Hv.
  { exists mem. split; [done|]. unfold run_node. rewrite Hv. destruct Hag as [Hag Hown]. split.
    - intros e He Hlt. assert (pend nid = pend (S nid)) as Hp by (rewrite (pend_S _ _ Hn); unfold live; by rewrite Hv). destruct (decide (e < rptr nid)%nat) as [Hlt'|Hge].
      + apply Hag; [by rewrite Hp|done].
      + rewrite (Hvar eq_refl) by (apply elem_of_node_entries; lia). apply Hown. lia.
    - intros e He. apply Hown. lia. }
  assert (existsb (fun i => existsb (fun k => clobbers g sids nid node i k) (seq 0 (num_outputs node))) (seq 0 (length (n_inputs node))) = false) as ->.
  { apply not_true_is_false. intros (i & _ & (k & Hk & Hc)%existsb_exists)%existsb_exists. apply in_seq in Hk. by rewrite (safe_no_clobber nid node i k Hsafe Hn Hv) in Hc by lia. }
  eexists. split; [done|]. set (vs := (fun e => env (entry_id g e)) <$> n_inputs node). set (vs' := (fun e => mem (cell_of sids (entry_id g e))) <$> n_inputs node).
  assert (∀ k, sem nid vs' k = sem nid vs k) as Hsem.
  { intros k. apply (sem_ignores nid node); [done|by unfold vs, vs'; rewrite !length_fmap|]. intros i Hi. unfold vs, vs'. rewrite !list_lookup_fmap. destruct (n_inputs node !! i) as [x|] eqn:Hx; [|done]. cbn. f_equal.
    assert (live_input node i = Some (entry_id g x)) as Hl by (unfold live_input; rewrite bool_decide_eq_false_2, Hx by done; done).
    apply (ag_pend _ _ _ Hag); [apply (live_input_pend _ _ _ _ Hn Hv Hl)|by apply (live_input_lt _ _ _ _ Hn Hl)]. }
  split.
  - intros e He Hlt. destruct (write_cells_spec (sem nid vs') nid node mem (cell_of sids e)) as [(k & Hk & Hc & ->)|[Hk ->]].
    + rewrite Hsem. by apply (written_needed nid node k e env mem).
    + destruct (decide (e < rptr nid)%nat) as [Hlt'|Hge].
      * unfold run_node. rewrite Hv. unfold write_entries. rewrite bool_decide_eq_false_2 by (rewrite elem_of_node_entries; lia).
        apply (ag_pend _ _ _ Hag); [rewrite (pend_S _ _ Hn); apply elem_of_app; by right|done].
      * destruct (Hk (e - rptr nid)%nat ltac:(lia)). f_equal. unfold entry_id. cbn [fst snd]. lia.
  - intros e He. unfold run_node. rewrite Hv. unfold write_entries. rewrite bool_decide_eq_false_2 by (rewrite elem_of_node_entries; lia).
    destruct (write_cells_spec (sem nid vs') nid node mem (Own e)) as [(k & Hk & Hc & _)|[_ ->]]; [|apply (ag_own _ _ _ Hag); lia].
    apply cell_own in Hc. unfold entry_id in Hc. cbn [fst snd] in Hc. lia.
Qed.

(** A safe plan computes the results of the graph. *)
Lemma run_planned_ok env mem : safe_until (length (nodes g)) →
  (∀ nid node e, nodes g !! nid = Some node → is_variable node = true → e ∈ node_entries g nid node → cell_of sids e = Own e) →
  (∀ e, mem (Own e) = env e) →
  ∃ mem', run_planned g sem sids mem = Ok mem' ∧ ∀ e, e ∈ g_outputs g → mem' (cell_of sids (entry_id g e)) = run_graph g sem env (entry_id g e).
Proof.
  intros Hsafe Hvar Hmem. unfold run_planned, run_graph.
  assert (∀ l nid env mem, l = drop nid (nodes g) → agree nid env mem → ∃ mem', run_planned_from g sem sids nid l mem = Ok mem' ∧ agree (nid + length l) (run_from g sem nid l env) mem') as H.
  { induction l as [|node l IH]; intros nid env0 mem0 Hl Hag; cbn [run_planned_from run_from length]; [rewrite Nat.add_0_r; eauto|].
    assert (nodes g !! nid = Some node) as Hn by (rewrite <- (Nat.add_0_r nid), <- lookup_drop, <- Hl; done).
    destruct (run_planned_node_ok nid node env0 mem0) as (mem1 & -> & Hag1); [|done|by intros; eapply Hvar|done|].
    { intros nid' node' k s Hlt. apply Hsafe. apply lookup_lt_Some in Hn. lia. }
    rstep. replace (nid + S (length l))%nat with (S nid + length l)%nat by lia. apply IH; [|done]. rewrite (drop_S _ _ _ Hn) in Hl. by injection Hl. }
  destruct (H (nodes g) 0%nat env mem eq_refl) as (mem' & Hrun & Hag); [split; [intros e _ He; change (e < 0)%nat in He; lia|intros e _; apply Hmem]|].
  exists mem'. split; [done|]. intros e He. apply (ag_pend _ _ _ Hag); [|cbn [plus]; by apply entry_bound, (go_outputs Hg)].
  unfold pend. apply elem_of_app. right. by apply list_elem_of_fmap_2.
Qed.
End safe.
End graph.
