(* ===== verification/PlanMemoryMake.v ===== *)
(** * PlanMemory makes safe plans

    The invariant of the planner and the theorems on the pass.  At every node, the reference
    count of a storage is the number of uses to come of the entries in it, and a free storage
    has none. *)

From S2P Require Import Prelude Blob PlanMemory PlanMemorySound.
Local Open Scope Z_scope.
Local Arguments entry_id _ _ : simpl never.
Local Arguments entry_rptr _ _ : simpl never.

(** ** The allocator *)
Lemma map_lower_mono {A} k k' (m : list (Z * A)) : k ≤ k' → (map_lower_bound k m ≤ map_lower_bound k' m)%nat.
Proof. intros H. induction m as [|[x a] m IH]; cbn; [lia|]. destruct (Z.ltb_spec x k), (Z.ltb_spec x k'); lia. Qed.
Lemma map_lower_upper {A} k k' (m : list (Z * A)) : k ≤ k' → (map_lower_bound k m ≤ map_upper_bound k' m)%nat.
Proof. intros H. induction m as [|[x a] m IH]; cbn; [lia|]. destruct (Z.ltb_spec x k), (Z.leb_spec x k'); lia. Qed.
Lemma map_lower_le {A} k (m : list (Z * A)) : (map_lower_bound k m ≤ length m)%nat.
Proof. induction m as [|[x a] m IH]; cbn; [lia|]. destruct (x <? k); lia. Qed.
Lemma map_upper_le {A} k (m : list (Z * A)) : (map_upper_bound k m ≤ length m)%nat.
Proof. induction m as [|[x a] m IH]; cbn; [lia|]. destruct (x <=? k); lia. Qed.
Lemma map_insert_perm {A} k (x : A) m : map_insert k x m ≡ₚ (k, x) :: m.
Proof. unfold map_insert. rewrite <- Permutation_middle. by rewrite take_drop. Qed.

Lemma scan_up_ok {A} (ok : A → result bool) end_ l : ∀ it, (∀ p, p ∈ l → ∃ b, ok p.2 = Ok b) → (it ≤ end_ ≤ it + length l)%nat →
  ∃ r, scan_up ok it end_ l = Ok r ∧ ∀ j, r = Some j → (it ≤ j < end_)%nat.
Proof.
  induction l as [|[k x] l IH]; intros it Hok Hit; cbn in *; (destruct (Nat.eqb_spec it end_); [by exists None|]); [lia|].
  destruct (Hok (k, x)) as [b Hb]; [by left|]. cbn in Hb. rewrite Hb. rstep. destruct b; [exists (Some it); split; [done|]; intros j [= <-]; lia|].
  destruct (IH (S it)) as (r & Hr & Hj); [intros p Hp; apply Hok; by right|lia|]. exists r. split; [done|]. intros j Hj'. specialize (Hj j Hj'). lia.
Qed.
Lemma scan_down_ok {A} (ok : A → result bool) begin l : ∀ it, (∀ p, p ∈ l → ∃ b, ok p.2 = Ok b) → (begin ≤ it)%nat → (it - begin ≤ length l)%nat →
  ∃ r, scan_down ok it begin l = Ok r ∧ ∀ j, r = Some j → (begin ≤ j < it)%nat.
Proof.
  induction l as [|[k x] l IH]; intros it Hok Hit Hl; cbn in *; (destruct (Nat.eqb_spec it begin); [by exists None|]); [lia|].
  destruct (Hok (k, x)) as [b Hb]; [by left|]. cbn in Hb. rewrite Hb. rstep. destruct b; [exists (Some (it - 1)%nat); split; [done|]; intros j [= <-]; lia|].
  destruct (IH (it - 1)%nat) as (r & Hr & Hj); [intros p Hp; apply Hok; by right|lia|lia|]. exists r. split; [done|]. intros j Hj'. specialize (Hj j Hj'). lia.
Qed.

Lemma elem_of_delete {A} (l : list A) i x y : NoDup l → l !! i = Some x → y ∈ delete i l ↔ y ∈ l ∧ y ≠ x.
Proof.
  intros Hnd Hi. rewrite <- (take_drop_middle l i x Hi) in Hnd |- * at 2. rewrite delete_take_drop. apply NoDup_app in Hnd as (_ & H1 & [H2 _]%NoDup_cons).
  rewrite !elem_of_app, elem_of_cons. split.
  - intros [H|H]; (split; [by auto|]); intros ->; [|done]. apply (H1 x H). by left.
  - intros [[H|[->|H]] Hne]; auto. done.
Qed.

Lemma fmap_delete {A B} (f : A → B) (i : nat) (l : list A) : f <$> delete i l = delete i (f <$> l).
Proof. rewrite !delete_take_drop, fmap_app, fmap_take, fmap_drop. done. Qed.

(** The sizes of storages do not shrink. *)
Definition grown (d d' : list StorageEntry) : Prop := ∀ s en, d !! s = Some en → ∃ en', d' !! s = Some en' ∧ max_bytes en ≤ max_bytes en'.

Lemma grown_insert d s en en' : d !! s = Some en → max_bytes en ≤ max_bytes en' → grown d (<[s := en']> d).
Proof.
  intros Hs Hle x ex Hx. destruct (decide (x = s)) as [->|Hne].
  - exists en'. rewrite list_lookup_insert_eq by (by apply lookup_lt_Some in Hs). split; [done|]. by simplify_eq.
  - exists ex. by rewrite list_lookup_insert_ne.
Qed.

Lemma zsum_perm l l' : l ≡ₚ l' → zsum l = zsum l'.
Proof. unfold zsum. induction 1; cbn; lia. Qed.

(** The memory of all storages. *)
Definition total (d : list StorageEntry) : Z := zsum (max_bytes <$> d).

Lemma total_insert d s en en' : d !! s = Some en → total (<[s := en']> d) = total d - max_bytes en + max_bytes en'.
Proof.
  intros Hs. unfold total. rewrite <- (take_drop_middle d s en Hs) at 2. rewrite insert_take_drop by (by apply lookup_lt_Some in Hs).
  rewrite !fmap_app, !fmap_cons, !zsum_app. cbn [zsum foldr]. fold (zsum (max_bytes <$> drop (S s) d)). lia.
Qed.

Section alloc.
Context (colors : list Z) (mr : Z) (nn : nat).
Hypothesis colors_ok : colors = [] ∨ length colors = nn.
Hypothesis mr_ok : 0 ≤ mr.

Definition is_free (a : GraphAllocator) (s : nat) : Prop := s ∈ snd <$> free_ a.

Record alloc_ok (a : GraphAllocator) : Prop := {
  ao_range : match_range_ a = mr;
  ao_color : node_color_ a = colors;
  ao_nodup : NoDup (snd <$> free_ a);
  ao_free : ∀ s, is_free a s → (s < length (data_ a))%nat;
  ao_released : ∀ s en, data_ a !! s = Some en → (released_by_node en < nn)%nat;
  ao_bytes : ∀ s en, data_ a !! s = Some en → 0 ≤ max_bytes en ∧ (4 | max_bytes en)
}.

Lemma usable_ok a dev nid id : alloc_ok a → (nid < nn)%nat → (id < length (data_ a))%nat → ∃ b, usable dev nid a id = Ok b.
Proof.
  intros Ha Hn Hid. unfold usable. destruct (lookup_lt_is_Some_2 _ _ Hid) as [en Hen]. rewrite (rd_ok _ _ _ Hen). rstep. case_match; [eauto|].
  rewrite (ao_color _ Ha). case_bool_decide as Hc; [eauto|]. destruct colors_ok as [?|Hl]; [done|].
  destruct (lookup_lt_is_Some_2 colors (released_by_node en)) as [c Hc1]; [rewrite Hl; by apply (ao_released _ Ha id)|].
  destruct (lookup_lt_is_Some_2 colors nid) as [c' Hc2]; [lia|]. rewrite (rd_ok _ _ _ Hc1), (rd_ok _ _ _ Hc2). rstep. eauto.
Qed.

(** What a request returns: a storage that was free, or a new one, large enough. *)
Definition requested (size : Z) (a : GraphAllocator) (s : nat) (a' : GraphAllocator) : Prop :=
  alloc_ok a' ∧
  (is_free a s ∧ length (data_ a') = length (data_ a) ∨ s = length (data_ a) ∧ length (data_ a') = S (length (data_ a))) ∧
  (∀ x, is_free a' x ↔ is_free a x ∧ x ≠ s) ∧ grown (data_ a) (data_ a') ∧ total (data_ a') ≤ total (data_ a) + size ∧ ∃ en, data_ a' !! s = Some en ∧ size ≤ max_bytes en.

Lemma Alloc_ok dev size a : alloc_ok a → (0 < nn)%nat → 0 ≤ size → (4 | size) → ∃ s a', Alloc dev size a = (Z.of_nat s, a') ∧ requested size a s a'.
Proof.
  intros Ha Hn H0 Hdiv. unfold Alloc. eexists _, _. split; [reflexivity|]. destruct Ha as [H1 H2 H3 H4 H5 H6]. repeat split; cbn; try done.
  - intros s Hs. specialize (H4 s Hs). rewrite length_app. cbn. lia.
  - intros s en [Hs|[_ Hs]]%lookup_app_Some; [by apply (H5 s)|]. apply list_lookup_singleton_Some in Hs as [_ <-]. cbn. lia.
  - apply lookup_app_Some in H as [Hs|[_ Hs]]; [by apply (H6 s)|]. by apply list_lookup_singleton_Some in Hs as [_ <-].
  - apply lookup_app_Some in H as [Hs|[_ Hs]]; [by apply (H6 s)|]. by apply list_lookup_singleton_Some in Hs as [_ <-].
  - right. split; [done|]. rewrite length_app. cbn. lia.
  - intros ->. specialize (H4 _ H). lia.
  - by intros [? _].
  - intros s en Hs. exists en. split; [by apply lookup_app_l_Some|done].
  - unfold total. rewrite fmap_app, zsum_app. cbn. lia.
  - eexists. split; [by rewrite lookup_app_r, Nat.sub_diag|done].
Qed.

Lemma take_free_ok it size a : alloc_ok a → (it < length (free_ a))%nat → 0 ≤ size → (4 | size) → ∃ s a', take_free it size a = Ok (Z.of_nat s, a') ∧ requested size a s a'.
Proof.
  intros Ha Hit H0 Hdiv. destruct (lookup_lt_is_Some_2 _ _ Hit) as [[k s] Hp]. unfold take_free. rewrite (rd_ok _ _ _ Hp). rstep.
  assert (is_free a s) as Hs by (apply (list_elem_of_fmap_2' _ _ (k, s)); [by apply list_elem_of_lookup_2 in Hp|done]).
  destruct (lookup_lt_is_Some_2 (data_ a) s) as [en Hen]; [by apply (ao_free _ Ha)|]. rewrite (rd_ok _ _ _ Hen). rstep. eexists s, _. split; [reflexivity|].
  assert (∀ x, x ∈ snd <$> delete it (free_ a) ↔ is_free a x ∧ x ≠ s) as Hdel.
  { intros x. rewrite fmap_delete. apply elem_of_delete; [apply Ha|]. by rewrite list_lookup_fmap, Hp. }
  destruct Ha as [H1 H2 H3 H4 H5 H6]. split; [|split; [|split; [done|split; [|split]]]].
  - split; cbn; try done.
    + rewrite fmap_delete. eapply sublist_NoDup; [exact H3|apply sublist_delete].
    + intros x Hx. rewrite length_insert. apply H4. by apply Hdel.
    + intros x ex Hx. apply list_lookup_insert_Some in Hx as [(-> & <- & _)|[_ Hx]]; [|by apply (H5 x)]. cbn. by eapply H5.
    + intros x ex Hx. apply list_lookup_insert_Some in Hx as [(_ & <- & _)|[_ Hx]]; [|by apply (H6 x)]. cbn. destruct (H6 s en Hen). split; [lia|]. by destruct (Z.max_spec size (max_bytes en)) as [[_ ->]|[_ ->]].
  - left. split; [done|]. cbn. by rewrite length_insert.
  - cbn. apply (grown_insert _ _ en); [done|]. cbn. lia.
  - cbn [data_]. rewrite (total_insert _ _ en) by done. cbn [max_bytes]. destruct (H6 s en Hen). lia.
  - cbn. rewrite list_lookup_insert_eq by (by apply lookup_lt_Some in Hen). eexists. split; [done|]. cbn. lia.
Qed.

Lemma Request_ok dev sh nid a : alloc_ok a → (nid < nn)%nat → shape_ok sh → 4 * prod sh * Z.max 1 mr < 2 ^ 64 →
  sh = [] ∧ Request dev sh nid a = Ok (-1, a) ∨ ∃ s a', Request dev sh nid a = Ok (Z.of_nat s, a') ∧ requested (4 * prod sh) a s a'.
Proof.
  intros Ha Hn Hsh Hsize. unfold Request. case_bool_decide as He; [by left|]. right. rewrite Size_ok by done. rstep.
  assert (0 ≤ prod sh) as Hpos by apply prod_le, Hsh. assert (4 | 4 * prod sh) as Hdiv by apply Z.divide_factor_l. assert (4 * prod sh ≤ 4 * prod sh * Z.max 1 mr) as Hle by (rewrite <- (Z.mul_1_r (4 * prod sh)) at 1; apply Z.mul_le_mono_nonneg_l; lia).
  rewrite (Z.mul_comm (prod sh) 4), (u64_id (4 * prod sh)) by lia. rewrite (ao_range _ Ha).
  destruct (Z.eqb_spec mr 0) as [->|Hmr]; [destruct (Alloc_ok dev (4 * prod sh) a Ha ltac:(lia) ltac:(lia) Hdiv) as (s & a' & -> & Hr); eauto|].
  rewrite (u64_id (4 * prod sh * mr)) by (rewrite Z.max_r in Hsize by lia; lia).
  set (begin := map_lower_bound (4 * prod sh / mr) (free_ a)). set (mid := map_lower_bound (4 * prod sh) (free_ a)). set (end_ := map_upper_bound _ _).
  assert (begin ≤ mid)%nat by (apply map_lower_mono; apply Z.div_le_upper_bound; [lia|]; rewrite <- (Z.mul_1_l (4 * prod sh)) at 1; apply Z.mul_le_mono_nonneg_r; lia).
  assert (mid ≤ end_)%nat by (apply map_lower_upper; rewrite <- (Z.mul_1_r (4 * prod sh)) at 1; apply Z.mul_le_mono_nonneg_l; lia).
  assert (end_ ≤ length (free_ a))%nat by apply map_upper_le. assert (∀ p, p ∈ free_ a → ∃ b, usable dev nid a p.2 = Ok b) as Hus.
  { intros p Hp. apply usable_ok; [done|done|]. apply (ao_free _ Ha). by apply list_elem_of_fmap_2. }
  destruct (scan_up_ok (usable dev nid a) end_ (drop mid (free_ a)) mid) as (r & -> & Hr); [intros p Hp; apply Hus; rewrite <- (take_drop mid (free_ a)); apply elem_of_app; by right|rewrite length_drop; lia|]. rstep.
  destruct r as [it|]; [destruct (take_free_ok it (4 * prod sh) a Ha) as (s & a' & -> & Hq); [specialize (Hr it eq_refl); lia|lia|done|eauto]|].
  destruct (scan_down_ok (usable dev nid a) begin (reverse (take mid (free_ a))) mid) as (r & -> & Hr'); [|lia|rewrite length_reverse, length_take; lia|].
  { intros p Hp. apply Hus. rewrite elem_of_reverse in Hp. rewrite <- (take_drop mid (free_ a)). apply elem_of_app. by left. }
  rstep. destruct r as [it|]; [destruct (take_free_ok it (4 * prod sh) a Ha) as (s & a' & -> & Hq); [specialize (Hr' it eq_refl); lia|lia|done|eauto]|].
  destruct (Alloc_ok dev (4 * prod sh) a Ha ltac:(lia) ltac:(lia) Hdiv) as (s & a' & -> & Hq). eauto.
Qed.

Lemma Release_ok s nid a : alloc_ok a → (s < length (data_ a))%nat → ¬ is_free a s → (nid < nn)%nat →
  ∃ a', Release (Z.of_nat s) nid a = Ok a' ∧ alloc_ok a' ∧ (∀ x, is_free a' x ↔ is_free a x ∨ x = s) ∧
    length (data_ a') = length (data_ a) ∧ grown (data_ a) (data_ a') ∧ total (data_ a') = total (data_ a).
Proof.
  intros Ha Hs Hnf Hn. unfold Release, kBadStorageID, kExternalStorageID, kDynamicStorageID. destruct (Z.eqb_spec (Z.of_nat s) (-1)); [lia|]. chk.
  destruct (Z.eqb_spec (Z.of_nat s) (-2)); [lia|]. destruct (Z.eqb_spec (Z.of_nat s) (-3)); [lia|]. cbn [orb].
  destruct (lookup_lt_is_Some_2 _ _ Hs) as [en Hen]. rewrite (rdz_ok _ _ en) by (lia || by rewrite Nat2Z.id). rstep. rewrite wrz_ok by lia. rstep. rewrite Nat2Z.id.
  eexists. split; [reflexivity|]. assert (∀ x, x ∈ snd <$> map_insert (max_bytes en) s (free_ a) ↔ is_free a x ∨ x = s) as Hins.
  { intros x. rewrite map_insert_perm, fmap_cons, elem_of_cons. unfold is_free. tauto. }
  destruct Ha as [H1 H2 H3 H4 H5 H6]. split; [|split; [done|split; [by cbn; rewrite length_insert|split]]].
  - split; cbn; try done.
    + rewrite map_insert_perm, fmap_cons. by apply NoDup_cons.
    + intros x Hx. rewrite length_insert. apply Hins in Hx as [Hx| ->]; [by apply H4|done].
    + intros x ex Hx. apply list_lookup_insert_Some in Hx as [(-> & <- & _)|[_ Hx]]; [done|by apply (H5 x)].
    + intros x ex Hx. apply list_lookup_insert_Some in Hx as [(_ & <- & _)|[_ Hx]]; [exact (H6 s en Hen)|by apply (H6 x)].
  - cbn. by apply (grown_insert _ _ en).
  - cbn [data_]. rewrite (total_insert _ _ en) by done. cbn [max_bytes]. lia.
Qed.
End alloc.

(** ** The invariant *)
Section planner.
Context (g : Graph) (refs st0 : list Z) (colors : list Z) (mr : Z).
Abbreviation N := (num_node_entries g).
Abbreviation rptr := (entry_rptr g).
Abbreviation pend := (pend g).
Abbreviation aok := (alloc_ok colors mr (length (nodes g))).

Hypothesis Hg : graph_ok g.
Hypothesis colors_ok : colors = [] ∨ length colors = length (nodes g).
Hypothesis mr_ok : 0 ≤ mr.
Hypothesis Hsizes : Forall (fun sh => 4 * prod sh * Z.max 1 mr < 2 ^ 64) (shape_vec g).
Hypothesis Hrefs : ∀ e, (e < N)%nat → refs !! e = Some (Z.of_nat (uses e (pend 0))).
Hypothesis Hst0 : length st0 = N ∧ Forall (fun z => z < 0) st0.

Abbreviation data p := (data_ (allocator p)).

(** The uses to come are [L]; at most [hi] storages exist, with at most [B] bytes. *)
Record base (L : list nat) (hi : nat) (B : Z) (p : plan) : Prop := {
  b_storage : length (storage p) = N;
  b_index : length (storage_inplace_index p) = N;
  b_counts : length (storage_ref_count p) = N;
  b_alloc : aok (allocator p);
  b_bound : ∀ e z, storage p !! e = Some z → z < Z.of_nat (length (data p));
  b_data : (length (data p) ≤ hi ≤ N)%nat;
  b_ref : ∀ s, (s < length (data p))%nat → storage_ref_count p !! s = Some (Z.of_nat (on s (storage p) L));
  b_zero : ∀ s, is_free (allocator p) s → on s (storage p) L = 0%nat;
  b_size : ∀ e s, storage p !! e = Some (Z.of_nat s) → ∃ sh en, shape_vec g !! e = Some sh ∧ data p !! s = Some en ∧ 4 * prod sh ≤ max_bytes en;
  b_total : total (data p) ≤ B
}.

(** The bytes of an entry, as the planner counts them, and of the first [n] entries. *)
Definition entry_bytes (e : nat) : Z := 4 * prod (default [] (shape_vec g !! e)).
Definition bytes_until (n : nat) : Z := zsum (entry_bytes <$> seq 0 n).

Lemma shape_of e : (e < N)%nat → ∃ sh, shape_vec g !! e = Some sh ∧ shape_ok sh ∧ 4 * prod sh * Z.max 1 mr < 2 ^ 64.
Proof.
  intros He. destruct (go_shapes _ Hg) as [Hl Ha]. destruct (lookup_lt_is_Some_2 (shape_vec g) e) as [sh Hsh]; [lia|]. exists sh.
  split; [done|]. split; [by apply (Forall_lookup_1 _ _ _ _ Ha Hsh)|by apply (Forall_lookup_1 _ _ _ _ Hsizes Hsh)].
Qed.

Lemma same_bytes_ok e e' : (e < N)%nat → (e' < N)%nat → ∃ b, same_bytes g e e' = Ok b ∧
  (b = true → ∀ sh sh', shape_vec g !! e = Some sh → shape_vec g !! e' = Some sh' → prod sh = prod sh').
Proof.
  intros He He'. destruct (shape_of e He) as (sh & Hsh & Hok & _), (shape_of e' He') as (sh' & Hsh' & Hok' & _). unfold same_bytes.
  rewrite (rd_ok _ _ _ Hsh), (rd_ok _ _ _ Hsh'). rstep. rewrite !Size_ok by done. rstep. destruct (Z.eqb_spec (prod sh) (prod sh')) as [Heq|]; [|by exists false].
  destruct (go_dtypes _ Hg) as [Hdl Hda]. destruct (lookup_lt_is_Some_2 (dtype_vec g) e) as [t Ht]; [lia|]. destruct (lookup_lt_is_Some_2 (dtype_vec g) e') as [t' Ht']; [lia|]. cbn [negb].
  pose proof (Forall_lookup_1 _ _ _ _ Hda Ht) as H1. pose proof (Forall_lookup_1 _ _ _ _ Hda Ht') as H2. cbn in H1, H2.
  rewrite (rd_ok _ _ _ Ht), (rd_ok _ _ _ Ht'). rstep. destruct (GetDTypeSize t), (GetDTypeSize t'); try done. rstep.
  assert (∀ sh1 sh1', shape_vec g !! e = Some sh1 → shape_vec g !! e' = Some sh1' → prod sh1 = prod sh1') by (intros; by simplify_eq).
  case_match; eexists; split; try done.
Qed.

(** Giving storage [s] to the entry [o], with the uses of [o] counted. *)
Lemma base_assign L hi B p o s n idx : base L hi B p → storage p !! o = Some (-1) → (s < length (data p))%nat → ¬ is_free (allocator p) s →
  n = Z.of_nat (on s (storage p) L + uses o L) → length idx = N →
  (∃ sh en, shape_vec g !! o = Some sh ∧ data p !! s = Some en ∧ 4 * prod sh ≤ max_bytes en) →
  base L hi B (set_inplace_index idx (set_ref_count (<[s := n]> (storage_ref_count p)) (set_storage (<[o := Z.of_nat s]> (storage p)) p))).
Proof.
  intros [] Ho Hs Hf -> Hidx Hfit. split; cbn; rewrite ?length_insert; try done.
  - intros e z [(_ & <- & _)|[_ Hz]]%list_lookup_insert_Some; [lia|by eapply b_bound0].
  - intros s' Hs'. destruct (decide (s' = s)) as [->|Hne].
    + rewrite list_lookup_insert_eq by lia. by rewrite (on_assign _ _ _ _ (-1)) by (done || lia).
    + rewrite list_lookup_insert_ne by done. rewrite (on_assign_ne _ _ _ _ (-1)) by (done || lia). by apply b_ref0.
  - intros s' Hs'. assert (s' ≠ s) by (by intros ->). rewrite (on_assign_ne _ _ _ _ (-1)) by (done || lia). by apply b_zero0.
  - intros e s' [(<- & Heq & _)|[_ Hz]]%list_lookup_insert_Some; [|by apply b_size0]. by replace s' with s by lia.
Qed.

(** ** Planning a node *)
Section node.
Context (nid : nat) (node : INode) (stn : list Z).
Hypothesis Hnode : nodes g !! nid = Some node.
Hypothesis Hvar : is_variable node = false.
Abbreviation out k := (entry_id g (nid, k)).
Abbreviation outputs := (node_entries g nid node).

Lemma out_lt k : (k < num_outputs node)%nat → (rptr nid ≤ out k < rptr (S nid))%nat ∧ (out k < N)%nat ∧ out k ∈ outputs.
Proof.
  intros Hk. pose proof (rptr_S _ _ _ Hnode). pose proof (rptr_mono g (S nid) (length (nodes g)) ltac:(apply lookup_lt_Some in Hnode; lia)).
  rewrite elem_of_node_entries. unfold num_node_entries, entry_id. cbn [fst snd]. lia.
Qed.
Lemma out_inj k k' : out k = out k' → k = k'.
Proof. unfold entry_id. cbn [fst snd]. lia. Qed.
Lemma outputs_out e : e ∈ outputs → ∃ k, (k < num_outputs node)%nat ∧ e = out k.
Proof. rewrite elem_of_node_entries. intros He. exists (e - rptr nid)%nat. unfold entry_id. cbn [fst snd]. lia. Qed.
Lemma nid_lt : (nid < length (nodes g))%nat.
Proof. by apply lookup_lt_Some in Hnode. Qed.

(** Output [k] shares its storage with an input. *)
Definition shared (st : list Z) (taken : list bool) (k s : nat) : Prop :=
  ∃ pairs ip i ein, finplace_option node = Some pairs ∧ pairs !! ip = Some (i, k) ∧ live_input g node i = Some ein ∧
    st !! ein = Some (Z.of_nat s) ∧ out k ∈ pend nid ∧ taken !! i = Some true ∧
    (pair_identity node ip = true ∨
     uses ein (pend nid) = 1%nat ∧ ∀ e, e ∈ pend nid → st !! e = Some (Z.of_nat s) → e = out k ∨ e = ein).

Record mid1 (taken : list bool) (p : plan) : Prop := {
  m1_base : base (pend nid) (rptr nid) (bytes_until (rptr nid)) p;
  m1_taken : length taken = length (n_inputs node);
  m1_same : ∀ e, e ∉ outputs → storage p !! e = stn !! e;
  m1_shared : ∀ k s, (k < num_outputs node)%nat → storage p !! out k = Some (Z.of_nat s) → shared (storage p) taken k s
}.

(** Other outputs keep their fate when output [k] overwrites input [i]. *)
Lemma shared_assign p taken k i ein s k' s' pairs ip : mid1 taken p → (k < num_outputs node)%nat → storage p !! out k = Some (-1) →
  finplace_option node = Some pairs → pairs !! ip = Some (i, k) → live_input g node i = Some ein → storage p !! ein = Some (Z.of_nat s) →
  taken !! i = Some false → (pair_identity node ip = true ∨ on s (storage p) (pend nid) = 1%nat) → k' ≠ k →
  shared (storage p) taken k' s' → shared (<[out k := Z.of_nat s]> (storage p)) (<[i := true]> taken) k' s'.
Proof.
  intros Hm Hk Hok Hp Hip Hl Hein Hi Hor Hne (pairs' & ip' & i' & ein' & Hp' & Hip' & Hl' & Hein' & Hpk & Ht & Hor').
  assert (i' ≠ i) as Hii by (intros ->; congruence). assert (ein' ≠ out k) as Hei.
  { pose proof (live_input_lt g Hg _ _ _ _ Hnode Hl'). pose proof (out_lt k Hk). lia. }
  exists pairs', ip', i', ein'. rewrite list_lookup_insert_ne by done. rewrite list_lookup_insert_ne by done. repeat split; try done.
  destruct Hor' as [?|[Hone Hall]]; [by left|]. right. split; [done|]. intros e He [(<- & Heq & _)|[_ Hs]]%list_lookup_insert_Some; [|by apply Hall]. assert (s = s') as <- by lia. exfalso.
  destruct (live_input_pend g _ _ _ _ Hnode Hvar Hl) as [_ Hpe]. destruct (live_input_pend g _ _ _ _ Hnode Hvar Hl') as [_ Hpe'].
  destruct (Hall ein Hpe Hein) as [Hx|Hx].
  - pose proof (live_input_lt g Hg _ _ _ _ Hnode Hl). rewrite Hx in H. unfold entry_id in H. cbn [fst snd] in H. lia.
  - subst ein'. destruct Hor as [_|Hon]; [|].
    + pose proof (live_twice g node i i' ein Hvar ltac:(congruence) Hl Hl') as H2. rewrite (pend_S _ _ _ Hnode) in Hone. unfold uses in *. rewrite occ_of_app in Hone. lia.
    + pose proof (live_twice g node i i' ein Hvar ltac:(congruence) Hl Hl') as H2. rewrite (pend_S _ _ _ Hnode) in Hone. unfold uses in *. rewrite occ_of_app in Hone. lia.
Qed.

Lemma try_inplace_ok taken p pairs ip i k : mid1 taken p → finplace_option node = Some pairs → pairs !! ip = Some (i, k) →
  ∃ taken' p', try_inplace g refs nid node (i, k) (pair_identity node ip) (taken, p) = Ok (taken', p') ∧ mid1 taken' p'.
Proof.
  intros Hm Hp Hip. destruct (no_pairs _ _ _ (go_nodes _ Hg _ _ Hnode) _ _ _ _ Hp Hip) as (Hi & Hk & Hign). destruct (out_lt k Hk) as (Ho & HoN & Hoo). unfold try_inplace. cbn [fst snd].
  destruct (lookup_lt_is_Some_2 _ _ Hi) as [x Hx]. rewrite (rd_ok _ _ _ Hx). rstep.
  destruct (no_inputs _ _ _ (go_nodes _ Hg _ _ Hnode) x ltac:(by apply list_elem_of_lookup_2 in Hx)) as [Hxl Hxe]. pose proof (entry_lt g _ _ Hxe Hxl) as Hin. pose proof (entry_bound g _ Hxe) as HinN.
  pose proof (m1_base _ _ Hm) as Hb. destruct (lookup_lt_is_Some_2 (storage p) (out k)) as [zo Hzo]; [by rewrite (b_storage _ _ _ _ Hb)|]. rewrite (rd_ok _ _ _ Hzo). rstep.
  destruct (lookup_lt_is_Some_2 (storage p) (entry_id g x)) as [zi Hzi]; [by rewrite (b_storage _ _ _ _ Hb)|]. rewrite (rd_ok _ _ _ Hzi). rstep.
  destruct (lookup_lt_is_Some_2 taken i) as [t Ht]; [by rewrite (m1_taken _ _ Hm)|]. rewrite (rd_ok _ _ _ Ht). rstep.
  destruct (t || negb (zo =? kBadStorageID) || (zi <? 0)) eqn:Hguard; [eauto|]. apply orb_false_iff in Hguard as [[-> Hzo']%orb_false_iff Hzi'%Z.ltb_ge].
  apply negb_false_iff, Z.eqb_eq in Hzo'. subst zo. assert (∃ s, zi = Z.of_nat s) as [s ->] by (exists (Z.to_nat zi); lia). pose proof (b_bound _ _ _ _ Hb _ _ Hzi) as Hs.
  rewrite (rdz_ok _ _ (Z.of_nat (on s (storage p) (pend nid)))) by (lia || (rewrite Nat2Z.id; apply (b_ref _ _ _ _ Hb); lia)). rstep.
  destruct (negb _) eqn:Hcond; [eauto|]. apply negb_false_iff in Hcond. rewrite (rd_ok _ _ _ (Hrefs _ HoN)). rstep. rewrite (uses_later g Hg (out k) nid) by lia.
  destruct (Z.leb_spec (Z.of_nat (uses (out k) (pend nid))) 0) as [|Hu]; [eauto|].
  destruct (same_bytes_ok (out k) (entry_id g x) HoN HinN) as (b & -> & Hsame). rstep. destruct b; cbn [negb]; [|eauto].
  assert (i ∉ ignored node) as Hni.
  { destruct Hign as [?|[Hall Hid]]; [done|]. rewrite Hall, Hid, andb_false_r in Hcond. done. }
  assert (live_input g node i = Some (entry_id g x)) as Hl by (unfold live_input; rewrite bool_decide_eq_false_2, Hx by done; done).
  destruct (live_input_pend g _ _ _ _ Hnode Hvar Hl) as [_ Hpe].
  rewrite (wr_ok taken) by (rewrite (m1_taken _ _ Hm); done). rstep. rewrite (wr_ok (storage p)) by (by rewrite (b_storage _ _ _ _ Hb)). rstep.
  rewrite wrz_ok by (rewrite (b_counts _ _ _ _ Hb); pose proof (b_data _ _ _ _ Hb); lia). rstep. rewrite Nat2Z.id. rewrite wr_ok by (by rewrite (b_index _ _ _ _ Hb)). rstep. eexists _, _. split; [reflexivity|].
  assert (pair_identity node ip = true ∨ on s (storage p) (pend nid) = 1%nat) as Hor.
  { apply orb_true_iff in Hcond as [[Hc _]%andb_true_iff|?]; [right|by left]. apply Z.eqb_eq in Hc. lia. }
  split; cbn.
  - apply base_assign; try done; [lia| |lia|by rewrite length_insert, (b_index _ _ _ _ Hb)|].
    + intros Hf. by apply (on_zero _ _ _ _ (b_zero _ _ _ _ Hb _ Hf) Hpe).
    + destruct (b_size _ _ _ _ Hb _ _ Hzi) as (sh' & en & Hsh' & Hen & Hle). destruct (shape_of (out k) HoN) as (sh & Hsh & _). exists sh, en. split; [done|]. split; [done|]. by rewrite (Hsame eq_refl _ _ Hsh Hsh').
  - by rewrite length_insert, (m1_taken _ _ Hm).
  - intros e He. rewrite list_lookup_insert_ne by (by intros <-). by apply (m1_same _ _ Hm).
  - intros k' s' Hk' [(Heq & Hs' & _)|[Hne Hs']]%list_lookup_insert_Some.
    + apply out_inj in Heq as <-. assert (s' = s) as -> by lia. exists pairs, ip, i, (entry_id g x). rewrite list_lookup_insert_eq by (rewrite (m1_taken _ _ Hm); done).
      rewrite list_lookup_insert_ne by lia. repeat split; try done; [apply uses_pos; lia|]. destruct Hor as [?|Hon]; [by left|]. right.
      destruct (on_one _ _ _ _ Hon Hpe Hzi) as [Hone Hall]. split; [done|]. intros e He [(<- & _)|[_ Hse]]%list_lookup_insert_Some; [by left|]. right. by apply Hall.
    + assert (k' ≠ k) by (by intros ->). apply (shared_assign p taken k i (entry_id g x) s k' s' pairs ip); try done. by apply (m1_shared _ _ Hm).
Qed.

Lemma plan_inplace_ok p : base (pend nid) (rptr nid) (bytes_until (rptr nid)) p → storage p = stn → (∀ e, e ∈ outputs → stn !! e = st0 !! e) →
  ∃ taken p', plan_inplace g refs nid node p = Ok p' ∧ mid1 taken p'.
Proof.
  intros Hb Hst Hout. assert (mid1 (replicate (length (n_inputs node)) false) p) as Hm.
  { split; [done|by rewrite length_replicate|by rewrite Hst|]. intros k s Hk Hs. destruct (out_lt k Hk) as (_ & _ & Ho). rewrite Hst, (Hout _ Ho) in Hs.
    pose proof (Forall_lookup_1 _ _ _ _ (proj2 Hst0) Hs). cbn in *. lia. }
  unfold plan_inplace. destruct (finplace_option node) as [pairs|] eqn:Hp; [|eauto].
  set (identity := match finplace_identity node with Some l => l | None => replicate (length pairs) false end).
  assert (∀ ip, (ip < length pairs)%nat → identity !! ip = Some (pair_identity node ip)) as Hid.
  { intros ip Hip. unfold identity, pair_identity. destruct (finplace_identity node) as [l|] eqn:Hl; cbn; [|by rewrite lookup_replicate_2].
    pose proof (no_identity _ _ _ (go_nodes _ Hg _ _ Hnode) _ _ Hp Hl). destruct (lookup_lt_is_Some_2 l ip) as [b Hb']; [lia|]. by rewrite Hb'. }
  assert (match finplace_identity node with
          | Some identity => check (length identity =? length pairs)%nat "FInplaceOption and FInplaceIdentity returned vectors of different size";; Ok identity
          | None => Ok (replicate (length pairs) false)
          end = Ok identity) as ->.
  { unfold identity. destruct (finplace_identity node) as [l|] eqn:Hl; [|done]. by rewrite (no_identity _ _ _ (go_nodes _ Hg _ _ Hnode) _ _ Hp Hl), Nat.eqb_refl. }
  rstep. destruct (for_range_ok (fun _ s => mid1 s.1 s.2) 0 (length pairs)
    (fun ipair s => kv ← rd pairs ipair; id ← rd identity ipair; try_inplace g refs nid node kv id s) (replicate (length (n_inputs node)) false, p)) as ([taken' p'] & -> & Hm'); [lia|done| |].
  - intros ip [taken q] Hip Hq. destruct (lookup_lt_is_Some_2 pairs ip) as [[i k] Hik]; [lia|]. rewrite (rd_ok _ _ _ Hik). rstep. rewrite (rd_ok _ _ _ (Hid ip ltac:(lia))). rstep.
    destruct (try_inplace_ok taken q pairs ip i k Hq Hp Hik) as (t' & q' & -> & Hq'). by exists (t', q').
  - rstep. eauto.
Qed.

(** After the requests for the outputs [l]. *)
Record mid2 (l : list nat) (p : plan) : Prop := {
  m2_base : base (pend nid) (rptr nid + length l) (bytes_until (rptr nid) + zsum (entry_bytes <$> l)) p;
  m2_same : ∀ e, e ∉ outputs → storage p !! e = stn !! e;
  m2_fate : ∀ k s, (k < num_outputs node)%nat → storage p !! out k = Some (Z.of_nat s) → fate g (storage p) nid node k s ∧ ¬ is_free (allocator p) s
}.

Lemma mid1_mid2 taken p : mid1 taken p → mid2 [] p.
Proof.
  intros Hm. pose proof (m1_base _ _ Hm) as Hb. split; [cbn; by rewrite Nat.add_0_r, Z.add_0_r|apply Hm|]. intros k s Hk Hs.
  destruct (m1_shared _ _ Hm k s Hk Hs) as (pairs & ip & i & ein & Hp & Hip & Hl & Hein & Hpk & _ & Hor). split.
  - right. exists pairs, ip, i, ein. repeat split; try done. destruct Hor as [?|[? Hall]]; [by left|right]. split; [done|]. intros e He _. by apply Hall.
  - intros Hf. by apply (on_zero _ _ _ _ (b_zero _ _ _ _ Hb _ Hf) Hpk).
Qed.

(** A fate does not depend on an output that is put elsewhere. *)
Lemma fate_assign st o s k' s' : o ∈ outputs → s ≠ s' → fate g st nid node k' s' → fate g (<[o := Z.of_nat s]> st) nid node k' s'.
Proof.
  intros Ho Hne. assert (∀ e, <[o := Z.of_nat s]> st !! e = Some (Z.of_nat s') → st !! e = Some (Z.of_nat s')) as Hst by (intros e [(_ & ? & _)|[_ ?]]%list_lookup_insert_Some; [lia|done]).
  intros [Hf|(pairs & ip & i & ein & Hp & Hip & Hl & Hein & Hpk & Hor)].
  - left. intros e He Hlt Hs. apply Hf; [done|done|by apply Hst].
  - right. exists pairs, ip, i, ein. pose proof (live_input_lt g Hg _ _ _ _ Hnode Hl). apply elem_of_node_entries in Ho. rewrite list_lookup_insert_ne by lia.
    repeat split; try done. destruct Hor as [?|[? Hall]]; [by left|right]. split; [done|]. intros e He Hlt Hs. apply Hall; [done|done|by apply Hst].
Qed.

(** Putting output [k] into a storage that a request returned. *)
Lemma mid2_request l p k s a' sh : mid2 l p → (rptr nid + S (length l) ≤ rptr (S nid))%nat → (k < num_outputs node)%nat → storage p !! out k = Some (-1) →
  shape_vec g !! out k = Some sh → requested colors mr (length (nodes g)) (4 * prod sh) (allocator p) s a' →
  mid2 (out k :: l) (set_allocator a' (set_ref_count (<[s := Z.of_nat (uses (out k) (pend nid))]> (storage_ref_count p)) (set_storage (<[out k := Z.of_nat s]> (storage p)) p))).
Proof.
  intros [Hb Hsame Hfate] Hj Hk Hok Hsh (Ha' & Hs & Hfree & Hgrown & Htot & en & Hen & Hle). destruct (out_lt k Hk) as (Ho & HoN & Hoo). pose proof nid_lt as Hn.
  pose proof (rptr_mono g (S nid) (length (nodes g)) ltac:(lia)) as HN. fold N in HN.
  assert (on s (storage p) (pend nid) = 0%nat ∧ ∀ k', (k' < num_outputs node)%nat → storage p !! out k' ≠ Some (Z.of_nat s)) as [Hon Hnew].
  { destruct Hs as [[Hf _]|[-> _]].
    - split; [by apply (b_zero _ _ _ _ Hb)|]. intros k' Hk' Hs'. by destruct (Hfate k' s Hk' Hs').
    - split; [|intros k' _ Hs'; pose proof (b_bound _ _ _ _ Hb _ _ Hs'); lia]. apply occ_of_none. intros e _. apply bool_decide_eq_false_2. intros He. pose proof (b_bound _ _ _ _ Hb _ _ He). lia. }
  assert (s < length (data_ a'))%nat as Hlt by (by apply lookup_lt_Some in Hen). assert (length (data p) ≤ length (data_ a') ≤ S (length (data p)))%nat as Hlen by lia.
  assert (∀ s', storage_ref_count p !! s' = Some (Z.of_nat (on s' (storage p) (pend nid))) ∨ s' = s ∨ ¬ (s' < length (data_ a'))%nat) as Hcnt.
  { intros s'. destruct (decide (s' = s)); [by auto|]. destruct (decide (s' < length (data p))%nat); [left; by apply (b_ref _ _ _ _ Hb)|]. right. right. lia. }
  destruct Hb as [H1 H2 H3 H4 H5 H6 H7 H8 H9 H10]. split; [split|..]; cbn; rewrite ?length_insert; try done.
  - intros e z [(_ & <- & _)|[_ Hz]]%list_lookup_insert_Some; [lia|]. specialize (H5 e z Hz). lia.
  - cbn in *. lia.
  - intros s' Hs'. destruct (decide (s' = s)) as [->|Hne].
    + rewrite list_lookup_insert_eq by lia. by rewrite (on_assign _ _ _ _ (-1)), Hon by (done || lia).
    + rewrite list_lookup_insert_ne by done. rewrite (on_assign_ne _ _ _ _ (-1)) by (done || lia). destruct (Hcnt s') as [?|[?|?]]; done.
  - intros s' [Hs' Hne]%Hfree. rewrite (on_assign_ne _ _ _ _ (-1)) by (done || lia). by apply H8.
  - intros e s' [(<- & Heq & _)|[_ Hz]]%list_lookup_insert_Some.
    + replace s' with s by lia. eauto.
    + destruct (H9 e s' Hz) as (sh' & en' & Hsh' & Hen' & Hle'). destruct (Hgrown _ _ Hen') as (en'' & Hen'' & Hle''). exists sh', en''. repeat split; [done|done|lia].
  - assert (entry_bytes (out k) = 4 * prod sh) as -> by (unfold entry_bytes; by rewrite Hsh). unfold zsum in *. cbn in *. lia.
  - intros e He. rewrite list_lookup_insert_ne by (by intros <-). by apply Hsame.
  - intros k' s' Hk' [(Heq & Hs' & _)|[Hne Hs']]%list_lookup_insert_Some.
    + apply out_inj in Heq as <-. assert (s' = s) as -> by lia. split; [|by rewrite Hfree; intros [_ ?]]. left. intros e He _ [(<- & _)|[_ Hse]]%list_lookup_insert_Some; [done|]. exfalso.
      destruct He as [He|He]; [by apply (on_zero _ _ _ _ Hon He)|]. apply outputs_out in He as (k' & Hk'' & ->). by apply (Hnew k').
    + destruct (Hfate k' s' Hk' Hs') as [Hf Hnf]. assert (s ≠ s') by (intros ->; by apply (Hnew k')). split; [by apply fate_assign|]. rewrite Hfree. by intros [? _].
Qed.

Lemma request_output_ok dev l p k : mid2 l p → (rptr nid + S (length l) ≤ rptr (S nid))%nat → (k < num_outputs node)%nat → storage p !! out k = Some (-1) →
  ∃ p', request_output g refs nid dev p (out k) = Ok p' ∧ mid2 (out k :: l) p' ∧ ∀ e, e ≠ out k → storage p' !! e = storage p !! e.
Proof.
  intros Hm Hj Hk Hok. pose proof (m2_base _ _ Hm) as Hb. destruct (out_lt k Hk) as (Ho & HoN & Hoo). pose proof nid_lt as Hn. unfold request_output.
  destruct (shape_of (out k) HoN) as (sh & Hsh & Hshok & Hsize). rewrite (rd_ok _ _ _ Hsh). rstep.
  pose proof (rptr_mono g (S nid) (length (nodes g)) ltac:(lia)) as HN. fold N in HN.
  destruct (Request_ok colors mr (length (nodes g)) colors_ok mr_ok dev sh nid (allocator p) (b_alloc _ _ _ _ Hb) Hn Hshok Hsize) as [[-> ->]|(s & a' & -> & Hreq)]; rstep.
  - rewrite wr_ok by (by rewrite (b_storage _ _ _ _ Hb)). rstep. rewrite list_insert_id by done. eexists. split; [reflexivity|]. split; [|done].
    destruct Hm as [[H1 H2 H3 H4 H5 H6 H7 H8 H9 H10] Hm2 Hm3]. split; [split|..]; try done; [cbn in *; lia|]. assert (0 ≤ entry_bytes (out k)) by (unfold entry_bytes; rewrite Hsh; cbn; lia).
    unfold zsum in *. cbn in *. lia.
  - rewrite (proj2 (Z.leb_le _ _)) by lia. rewrite (rd_ok _ _ _ (Hrefs _ HoN)). rstep. rewrite (uses_later g Hg (out k) nid) by lia.
    assert (s < length (storage_ref_count p))%nat as Hs.
    { destruct Hreq as (_ & Hs & _). rewrite (b_counts _ _ _ _ Hb). pose proof (b_data _ _ _ _ Hb). destruct Hs as [[Hf _]|[-> _]]; [pose proof (ao_free _ _ _ _ (b_alloc _ _ _ _ Hb) s Hf)|]; lia. }
    rewrite wrz_ok by lia. rstep. rewrite Nat2Z.id, wr_ok by (by rewrite (b_storage _ _ _ _ Hb)). rstep. eexists. split; [reflexivity|]. split; [by apply mid2_request with sh|].
    intros e He. cbn. by rewrite list_lookup_insert_ne.
Qed.

(** The outputs without storage, each once. *)
Lemma collect_ok p : mid2 [] p → ∃ eids, for_range 0 (num_outputs node) (fun index eids => collect_output g nid p index eids) [] = Ok eids ∧
  NoDup (snd <$> eids) ∧ (length eids ≤ num_outputs node)%nat ∧ ∀ e, e ∈ snd <$> eids → ∃ k, (k < num_outputs node)%nat ∧ e = out k ∧ storage p !! e = Some (-1).
Proof.
  intros Hm. pose proof (m2_base _ _ Hm) as Hb.
  destruct (for_range_ok (fun n eids => NoDup (snd <$> eids) ∧ (length eids ≤ n)%nat ∧ ∀ e, e ∈ snd <$> eids → ∃ k, (k < n)%nat ∧ e = out k ∧ storage p !! e = Some (-1)) 0 (num_outputs node)
    (fun index eids => collect_output g nid p index eids) []) as (eids & Heq & H); [lia| | |eauto].
  - repeat split; [apply NoDup_nil_2|cbn; lia|]. intros e He. by apply not_elem_of_nil in He.
  - intros n eids Hn (Hnd & Hl & Hall). destruct (out_lt n ltac:(lia)) as (Ho & HoN & Hoo). unfold collect_output.
    destruct (lookup_lt_is_Some_2 (storage p) (out n)) as [z Hz]; [by rewrite (b_storage _ _ _ _ Hb)|]. rewrite (rd_ok _ _ _ Hz). rstep.
    assert (∀ e, e ∈ snd <$> eids → ∃ k, (k < S n)%nat ∧ e = out k ∧ storage p !! e = Some (-1)) as Hall' by (intros e He; destruct (Hall e He) as (k & ? & ?); exists k; split; [lia|done]).
    destruct (Z.eqb_spec z kBadStorageID) as [->|]; cbn [negb]; [|exists eids; repeat split; [done|lia|done]].
    destruct (shape_of (out n) HoN) as (sh & Hsh & Hshok & _). rewrite (rd_ok _ _ _ Hsh). rstep. assert (∃ sz, (if bool_decide (sh = []) then Ok 0 else Size sh) = Ok sz) as [sz ->] by (case_bool_decide; [eauto|rewrite Size_ok by done; eauto]).
    rstep. eexists. split; [reflexivity|]. rewrite map_insert_perm, fmap_cons. cbn [snd]. repeat split.
    + apply NoDup_cons. split; [|done]. intros Hin. destruct (Hall _ Hin) as (k & Hk & Heq & _). apply out_inj in Heq. lia.
    + cbn. lia.
    + intros e He. rewrite map_insert_perm, fmap_cons, elem_of_cons in He. destruct He as [->|He]; [exists n; repeat split; [lia|done]|by apply Hall'].
Qed.

Lemma plan_outputs_ok p : mid2 [] p → ∃ p' l, plan_outputs g refs nid node p = Ok p' ∧ mid2 l p' ∧ NoDup l ∧ l ⊆ outputs.
Proof.
  intros Hm. unfold plan_outputs. assert (∃ dev, match device_vec g with Some v => rd v nid | None => Ok 0 end = Ok dev) as [dev ->].
  { destruct (device_vec g) as [v|] eqn:Hv; [|eauto]. pose proof (go_devices _ Hg v Hv). destruct (lookup_lt_is_Some_2 v nid) as [d Hd]; [rewrite H; apply nid_lt|]. exists d. by apply rd_ok. }
  rstep. destruct (collect_ok p Hm) as (eids & -> & Hnd & Hlen & Hall). rstep.
  assert (∀ l l' p, NoDup l → (length l' + length l ≤ num_outputs node)%nat → mid2 l' p → (∀ e, e ∈ l → ∃ k, (k < num_outputs node)%nat ∧ e = out k ∧ storage p !! e = Some (-1)) →
    ∃ p', foldM (request_output g refs nid dev) p l = Ok p' ∧ mid2 (reverse l ++ l') p') as H.
  { induction l as [|e l IH]; intros l' q Hnd' Hj Hq Hl; cbn [foldM length]; [eauto|]. apply NoDup_cons in Hnd' as [He Hnd'].
    destruct (Hl e ltac:(by left)) as (k & Hk & -> & Hst). destruct (request_output_ok dev l' q k Hq) as (q' & -> & Hq' & Hsame); [rewrite (rptr_S _ _ _ Hnode); cbn in Hj; lia|done|done|].
    rstep. rewrite reverse_cons, <- (assoc_L (++)). apply IH; [done|cbn in *; lia|done|]. intros e' He'. destruct (Hl e' ltac:(by right)) as (k' & Hk' & Heq & Hst').
    exists k'. split; [done|]. split; [done|]. rewrite Hsame; [done|]. by intros ->. }
  destruct (H (reverse (snd <$> eids)) [] p) as (p' & Heq & Hm'); [by rewrite reverse_Permutation|rewrite length_reverse, length_fmap; cbn; lia|done|intros e He; apply Hall; by rewrite elem_of_reverse in He|].
  rewrite reverse_involutive, app_nil_r in Hm'. exists p', (snd <$> eids). split; [done|]. split; [done|]. split; [done|]. intros e He. destruct (Hall e He) as (k & Hk & -> & _). by apply out_lt.
Qed.

(** ** Releasing storages *)
Section release.
Context (st2 : list Z).
Hypothesis Hfate : ∀ k s, (k < num_outputs node)%nat → st2 !! out k = Some (Z.of_nat s) → fate g st2 nid node k s.

(** The outputs from [k0] on that nobody uses have not been released. *)
Definition unreleased (k0 : nat) (p : plan) : Prop :=
  ∀ k s, (k0 ≤ k < num_outputs node)%nat → st2 !! out k = Some (Z.of_nat s) → out k ∉ pend nid → ¬ is_free (allocator p) s.

Record mid3 (L : list nat) (k0 : nat) (p : plan) : Prop := {
  m3_base : base L (rptr (S nid)) (bytes_until (rptr (S nid))) p;
  m3_storage : storage p = st2;
  m3_unreleased : unreleased k0 p
}.

(** Releasing a storage whose count is down to zero. *)
Lemma base_release L hi B p s : base L hi B p → (s < length (data p))%nat → on s (storage p) L = 0%nat → ¬ is_free (allocator p) s →
  ∃ a', Release (Z.of_nat s) nid (allocator p) = Ok a' ∧ base L hi B (set_allocator a' p) ∧ ∀ x, is_free a' x ↔ is_free (allocator p) x ∨ x = s.
Proof.
  intros [H1 H2 H3 H4 H5 H6 H7 H8 H9 H10] Hs Hon Hf. destruct (Release_ok colors mr (length (nodes g)) colors_ok s nid (allocator p) H4 Hs Hf nid_lt) as (a' & Heq & Ha & Hfree & Hlen & Hgrown & Htot).
  exists a'. split; [done|]. split; [|done]. split; cbn; rewrite ?Hlen, ?Htot; try done.
  - intros x [Hx| ->]%Hfree; [by apply H8|done].
  - intros e x Hx. destruct (H9 e x Hx) as (sh & en & Hsh & Hen & Hle). destruct (Hgrown _ _ Hen) as (en' & Hen' & Hle'). exists sh, en'. repeat split; [done|done|lia].
Qed.

(** One use of entry [e] less. *)
Lemma base_use L hi B p e z : base (e :: L) hi B p → storage p !! e = Some z →
  z < 0 ∧ base L hi B p ∨
  ∃ s, z = Z.of_nat s ∧ (s < length (data p))%nat ∧ ¬ is_free (allocator p) s ∧
    storage_ref_count p !! s = Some (Z.of_nat (S (on s (storage p) L))) ∧
    base L hi B (set_ref_count (<[s := Z.of_nat (on s (storage p) L)]> (storage_ref_count p)) p).
Proof.
  intros [H1 H2 H3 H4 H5 H6 H7 H8 H9 H10] Hz. assert (∀ s, on s (storage p) (e :: L) = ((if bool_decide (z = Z.of_nat s) then 1 else 0) + on s (storage p) L)%nat) as Hon.
  { intros s. unfold on. rewrite occ_of_cons, Hz. do 2 f_equal. by repeat case_bool_decide; simplify_eq. }
  destruct (decide (z < 0)) as [Hneg|Hpos].
  - left. split; [done|]. split; try done.
    + intros s Hs. rewrite (H7 s Hs), Hon, bool_decide_eq_false_2 by lia. done.
    + intros s Hs. specialize (H8 s Hs). rewrite Hon in H8. lia.
  - right. assert (∃ s, z = Z.of_nat s) as [s ->] by (exists (Z.to_nat z); lia). specialize (H5 e _ Hz) as Hlt. pose proof (Hon s) as Hs. rewrite bool_decide_eq_true_2 in Hs by done.
    exists s. split; [done|]. split; [lia|]. split; [intros Hf; specialize (H8 s Hf); lia|]. split; [rewrite H7 by lia; by rewrite Hs|]. split; cbn; rewrite ?length_insert; try done.
    + intros s' Hs'. destruct (decide (s' = s)) as [->|Hne]; [by rewrite list_lookup_insert_eq by lia|]. rewrite list_lookup_insert_ne by done. rewrite (H7 s' Hs'), Hon, bool_decide_eq_false_2 by lia. done.
    + intros s' Hs'. specialize (H8 s' Hs'). rewrite Hon in H8. lia.
Qed.

Lemma free_input_ok i p : (i < length (n_inputs node))%nat → mid3 (live_from g node i ++ pend (S nid)) 0 p →
  ∃ p', free_input g nid node i p = Ok p' ∧ mid3 (live_from g node (S i) ++ pend (S nid)) 0 p'.
Proof.
  intros Hi [Hb Hst Hun]. unfold free_input. rewrite (live_from_S _ _ _ Hi), <- (assoc_L (++)) in Hb. unfold live_input in Hb. case_bool_decide as Hig; [by exists p|].
  destruct (lookup_lt_is_Some_2 _ _ Hi) as [x Hx]. rewrite (rd_ok _ _ _ Hx). rewrite Hx in Hb. cbn in Hb. rstep. set (e := entry_id g x) in *.
  assert (live_input g node i = Some e) as Hl by (unfold live_input; rewrite bool_decide_eq_false_2, Hx by done; done).
  pose proof (live_input_lt g Hg _ _ _ _ Hnode Hl) as Hlt. destruct (live_input_pend g _ _ _ _ Hnode Hvar Hl) as [_ Hpe].
  destruct (lookup_lt_is_Some_2 (storage p) e) as [z Hz]; [rewrite (b_storage _ _ _ _ Hb); by apply (pend_lt g Hg nid)|]. rewrite (rd_ok _ _ _ Hz). rstep.
  destruct (base_use _ _ _ _ _ _ Hb Hz) as [[Hneg Hb']|(s & -> & Hs & Hnf & Hcnt & Hb')]; [rewrite (proj2 (Z.ltb_lt _ _)) by lia; by exists p|].
  rewrite (proj2 (Z.ltb_ge _ _)) by lia. erewrite (rdz_ok _ (Z.of_nat s)) by (lia || (rewrite Nat2Z.id; exact Hcnt)). rstep.
  rewrite wrz_ok by (rewrite (b_counts _ _ _ _ Hb); pose proof (b_data _ _ _ _ Hb); lia). rstep. rewrite Nat2Z.id. set (n := on s (storage p) (live_from g node (S i) ++ pend (S nid))) in *.
  replace (Z.of_nat (S n) - 1) with (Z.of_nat n) by lia. destruct (Z.eqb_spec (Z.of_nat n) 0) as [H0|H0].
  - destruct (base_release _ _ _ _ s Hb') as (a' & Heq & Hb'' & Hfree); [done|cbn; fold n; lia|done|]. cbn in Heq. cbn. rewrite Heq. rstep. eexists. split; [reflexivity|]. split; [exact Hb''|done|].
    intros k s' Hk Hs' Hpk. cbn. rewrite Hfree. cbn. intros [Hf| ->]; [by apply (Hun k s')|]. destruct (Hfate k s ltac:(lia) Hs') as [Hf|(? & ? & ? & ? & _ & _ & _ & _ & ? & _)]; [|done].
    rewrite Hst in Hz. pose proof (rptr_step g nid). specialize (Hf e (or_introl Hpe) ltac:(lia) Hz). rewrite Hf in Hlt. unfold entry_id in Hlt. cbn [fst snd] in Hlt. lia.
  - eexists. split; [reflexivity|]. by split.
Qed.

Lemma free_output_ok k p : (k < num_outputs node)%nat → mid3 (pend (S nid)) k p → ∃ p', free_output g nid k p = Ok p' ∧ mid3 (pend (S nid)) (S k) p'.
Proof.
  intros Hk [Hb Hst Hun]. destruct (out_lt k Hk) as (Ho & HoN & Hoo). unfold free_output. destruct (lookup_lt_is_Some_2 (storage p) (out k)) as [z Hz]; [by rewrite (b_storage _ _ _ _ Hb)|].
  rewrite (rd_ok _ _ _ Hz). rstep. assert (∀ q n, mid3 (pend (S nid)) (S k) q → mid3 (pend (S nid)) (S k) (set_not_allocated n q)) as Hna by (intros q n [[] ? ?]; split; [split|..]; done).
  assert (∃ q, (if 0 <=? z then
    count ← rdz (storage_ref_count p) z;
    if count =? 0 then a ← Release z nid (allocator p); index' ← wr (storage_inplace_index p) (out k) (-2); Ok (set_inplace_index index' (set_allocator a p)) else Ok p
    else Ok p) = Ok q ∧ mid3 (pend (S nid)) (S k) q) as (q & -> & Hq); [|rstep; eexists; split; [reflexivity|]; case_match; [by apply Hna|done]].
  assert (mid3 (pend (S nid)) (S k) p) as Hp by (split; [done|done|]; intros k' s Hk'; apply Hun; lia).
  destruct (Z.leb_spec 0 z) as [Hpos|]; [|by exists p]. assert (∃ s, z = Z.of_nat s) as [s ->] by (exists (Z.to_nat z); lia). pose proof (b_bound _ _ _ _ Hb _ _ Hz) as Hs.
  rewrite (rdz_ok _ (Z.of_nat s) (Z.of_nat (on s (storage p) (pend (S nid))))) by (lia || (rewrite Nat2Z.id; apply (b_ref _ _ _ _ Hb); lia)). rstep. destruct (Z.eqb_spec (Z.of_nat (on s (storage p) (pend (S nid)))) 0) as [H0|]; [|by exists p].
  assert (out k ∉ pend nid) as Hpk.
  { rewrite (pend_S _ _ _ Hnode). intros [Hin|Hin]%elem_of_app; [pose proof (live_lt g Hg _ _ _ Hnode Hin); lia|]. apply (on_zero s (storage p) (pend (S nid)) (out k)); [lia|done|done]. }
  rewrite Hst in Hz. destruct (base_release _ _ _ _ s Hb) as (a' & -> & Hb' & Hfree); [lia|lia|apply (Hun k s); [lia|done|done]|]. rstep.
  rewrite wr_ok by (by rewrite (b_index _ _ _ _ Hb)). rstep. eexists. split; [reflexivity|]. split; [|done|].
  - destruct Hb' as [H1 H2 H3 H4 H5 H6 H7 H8 H9 H10]. split; cbn in *; rewrite ?length_insert; done.
  - intros k' s' Hk' Hs' Hpk'. cbn. rewrite Hfree. intros [Hf| ->]; [by apply (Hun k' s'); [lia|..]|].
    destruct (Hfate k s Hk Hz) as [Hf|(? & ? & ? & ? & _ & _ & _ & _ & ? & _)]; [|done]. destruct (out_lt k' ltac:(lia)) as (Hlt' & _ & Hin'). specialize (Hf _ (or_intror Hin') ltac:(lia) Hs').
    apply out_inj in Hf. lia.
Qed.
End release.

Record Inv (n : nat) (p : plan) : Prop := {
  i_base : base (pend n) (rptr n) (bytes_until (rptr n)) p;
  i_future : ∀ e, (rptr n ≤ e)%nat → storage p !! e = st0 !! e;
  i_vars : ∀ m nd e, nodes g !! m = Some nd → is_variable nd = true → e ∈ node_entries g m nd → storage p !! e = st0 !! e;
  i_safe : safe_until g (storage p) n
}.

Lemma base_hi L hi hi' B B' p : base L hi B p → (hi ≤ hi' ≤ N)%nat → B ≤ B' → base L hi' B' p.
Proof. intros [] ? ?. split; try done; lia. Qed.

(** A fate depends on the entries up to the node only. *)
Lemma safe_until_ext st st' n : (∀ e, (e < rptr n)%nat → st' !! e = st !! e) → safe_until g st n → safe_until g st' n.
Proof.
  intros Heq Hs m nd k s Hm Hnd Hv Hk Hst. assert (∀ e, (e < rptr (S m))%nat → st' !! e = st !! e) as He by (intros e He; apply Heq; pose proof (rptr_mono g (S m) n ltac:(lia)); lia).
  assert (entry_id g (m, k) < rptr (S m))%nat as Hlt by (rewrite (rptr_S _ _ _ Hnd); unfold entry_id; cbn [fst snd]; lia). rewrite (He _ Hlt) in Hst.
  destruct (Hs m nd k s Hm Hnd Hv Hk Hst) as [Hf|(pairs & ip & i & ein & Hp & Hip & Hl & Hein & Hpk & Hor)].
  - left. intros e Hin Hlt' Hse. apply Hf; [done|done|]. by rewrite <- He.
  - right. exists pairs, ip, i, ein. pose proof (live_input_lt g Hg _ _ _ _ Hnd Hl). pose proof (rptr_step g m). rewrite He by lia. repeat split; try done.
    destruct Hor as [?|[? Hall]]; [by left|right]. split; [done|]. intros e Hin Hlt' Hse. apply Hall; [done|done|]. by rewrite <- He.
Qed.
End node.

Lemma entry_bytes_nonneg e : 0 ≤ entry_bytes e.
Proof.
  unfold entry_bytes. destruct (shape_vec g !! e) as [sh|] eqn:Hsh; [change (0 ≤ 4 * prod sh)|done]. pose proof (Forall_lookup_1 _ _ _ _ (proj2 (go_shapes _ Hg)) Hsh) as [Hd _].
  pose proof (prod_le sh Hd). lia.
Qed.
Lemma bytes_nonneg l : 0 ≤ zsum (entry_bytes <$> l).
Proof. induction l as [|e l IH]; cbn; [lia|]. pose proof (entry_bytes_nonneg e). unfold zsum in *. lia. Qed.

Lemma bytes_node nid node l : nodes g !! nid = Some node → NoDup l → l ⊆ node_entries g nid node →
  bytes_until (rptr nid) + zsum (entry_bytes <$> l) ≤ bytes_until (rptr (S nid)).
Proof.
  intros Hnode Hnd Hl. unfold bytes_until. rewrite (rptr_S _ _ _ Hnode), seq_app, fmap_app, zsum_app. assert (node_entries g nid node = seq (0 + rptr nid) (num_outputs node)) as He.
  { unfold node_entries, entry_id. cbn [fst snd]. etransitivity; [apply (fmap_add_seq (rptr nid) 0)|]. f_equal. lia. }
  rewrite <- He. apply NoDup_submseteq in Hl as [k Hk]%submseteq_Permutation; [|done]. assert (zsum (entry_bytes <$> node_entries g nid node) = zsum (entry_bytes <$> l ++ k)) as ->.
  { apply zsum_perm. by rewrite Hk. }
  rewrite fmap_app, zsum_app. pose proof (bytes_nonneg k). lia.
Qed.

Lemma plan_node_ok nid p : (nid < length (nodes g))%nat → Inv nid p → ∃ p', plan_node g refs nid p = Ok p' ∧ Inv (S nid) p'.
Proof.
  intros Hn [Hb Hfut Hvars Hsafe]. destruct (lookup_lt_is_Some_2 _ _ Hn) as [node Hnode]. unfold plan_node. rewrite (rd_ok _ _ _ Hnode). rstep.
  pose proof (rptr_step g nid) as Hstep. pose proof (rptr_mono g (S nid) (length (nodes g)) ltac:(lia)) as HN. fold N in HN. pose proof (rptr_S _ _ _ Hnode) as HS.
  destruct (is_variable node) eqn:Hv.
  { exists p. split; [done|]. assert (pend nid = pend (S nid)) as Hp by (rewrite (pend_S _ _ _ Hnode); unfold live; by rewrite Hv). split; [|intros; apply Hfut; lia|done|].
    { rewrite <- Hp. apply (base_hi _ (rptr nid) _ (bytes_until (rptr nid))); [done|lia|]. pose proof (bytes_node nid node [] Hnode (NoDup_nil_2) ltac:(set_solver)). cbn in *. lia. }
    intros m nd k s Hm Hnd Hvn. assert (m ≠ nid) by (intros ->; congruence). apply Hsafe; [lia|done|done]. }
  destruct (plan_inplace_ok nid node (storage p) Hnode Hv p Hb eq_refl) as (taken & p1 & -> & Hm1). { intros e He. apply Hfut. apply elem_of_node_entries in He. lia. }
  rstep. destruct (plan_outputs_ok nid node (storage p) Hnode p1 (mid1_mid2 _ _ _ _ _ Hm1)) as (p2 & l & -> & Hm2 & Hndl & Hl). rstep.
  pose proof (fun k s Hk Hs => proj1 (m2_fate _ _ _ _ _ Hm2 k s Hk Hs)) as Hfate.
  assert (mid3 nid node (storage p2) (live_from g node 0 ++ pend (S nid)) 0 p2) as Hm3.
  { split; [|done|].
    - replace (live_from g node 0) with (live g node) by (unfold live; by rewrite Hv). rewrite <- (pend_S _ _ _ Hnode).
      apply (base_hi _ _ _ _ _ _ (m2_base _ _ _ _ _ Hm2)); [|by apply (bytes_node nid node)]. split; [|done]. rewrite HS.
      apply (NoDup_submseteq _ _ Hndl), submseteq_length in Hl. unfold node_entries in Hl. rewrite length_fmap, length_seq in Hl. lia.
    - intros k s Hk Hs _. by apply (m2_fate _ _ _ _ _ Hm2 k s); [lia|]. }
  destruct (for_range_ok (fun i q => mid3 nid node (storage p2) (live_from g node i ++ pend (S nid)) 0 q) 0 (length (n_inputs node)) (fun i p => free_input g nid node i p) p2) as (p3 & -> & Hm4); [lia|done|intros i q Hi Hq; apply (free_input_ok nid node Hnode Hv (storage p2) Hfate); [lia|done]|].
  rstep. rewrite live_from_end in Hm4 by lia. cbn [app] in Hm4.
  destruct (for_range_ok (fun k q => mid3 nid node (storage p2) (pend (S nid)) k q) 0 (num_outputs node) (fun k p => free_output g nid k p) p3) as (p4 & -> & Hm5); [lia|done|intros k q Hk Hq; apply (free_output_ok nid node Hnode (storage p2) Hfate); [lia|done]|].
  exists p4. split; [done|]. destruct Hm5 as [Hb4 Hst4 _]. assert (∀ e, e ∉ node_entries g nid node → storage p4 !! e = storage p !! e) as Hsame by (intros e He; rewrite Hst4; by apply (m2_same _ _ _ _ _ Hm2)).
  split; [done| | |].
  - intros e He. rewrite Hsame by (rewrite elem_of_node_entries; lia). apply Hfut. lia.
  - intros m nd e Hnd Hvn He. rewrite Hsame; [by apply (Hvars m nd)|]. apply elem_of_node_entries in He. rewrite elem_of_node_entries.
    destruct (Nat.lt_trichotomy m nid) as [Hlt|[->|Hgt]]; [|exfalso; congruence|].
    + pose proof (rptr_mono g (S m) nid ltac:(lia)). rewrite (rptr_S _ _ _ Hnd) in *. lia.
    + pose proof (rptr_mono g (S nid) m ltac:(lia)). lia.
  - intros m nd k s Hm Hnd Hvn Hk Hs. destruct (decide (m = nid)) as [->|Hne].
    + simplify_eq. rewrite Hst4 in Hs |- *. by apply Hfate.
    + apply (safe_until_ext (storage p) (storage p4) nid); try done; [|lia]. intros e He. apply Hsame. rewrite elem_of_node_entries. lia.
Qed.

Lemma AllocMemory_ok inplace : length inplace = N →
  ∃ p, AllocMemory g refs (0%nat, length (nodes g)) st0 inplace {| match_range_ := mr; free_ := []; data_ := []; node_color_ := colors |} = Ok p ∧ Inv (length (nodes g)) p.
Proof.
  intros Hidx. apply (for_range_ok (fun n p => Inv n p)); [cbn; lia| |intros n p Hn Hp; apply plan_node_ok; [cbn in Hn; lia|done]].
  destruct Hst0 as [Hl Hneg]. split; [split|..]; cbn; try done.
  - by rewrite length_replicate.
  - split; cbn; try done; [apply NoDup_nil_2|intros s Hs; by apply not_elem_of_nil in Hs].
  - intros e z Hz. pose proof (Forall_lookup_1 _ _ _ _ Hneg Hz). cbn in *. lia.
  - change (rptr 0) with 0%nat. lia.
  - intros s Hs. lia.
  - intros s Hs. by apply not_elem_of_nil in Hs.
  - intros e s Hs. pose proof (Forall_lookup_1 _ _ _ _ Hneg Hs). cbn in *. lia.
  - intros m nd k s Hm. lia.
Qed.
End planner.

(** ** Counting the uses *)
Lemma occ_omap_cons {A} f (h : A → option nat) x l :
  occ f (omap h (x :: l)) = (match h x with Some y => if f y then 1 else 0 | None => 0 end + occ f (omap h l))%nat.
Proof. change (omap h (x :: l)) with (match h x with Some y => y :: omap h l | None => omap h l end). destruct (h x); [apply occ_of_cons|done]. Qed.
Lemma occ_omap_perm {A} f (h : A → option nat) l l' : l ≡ₚ l' → occ f (omap h l) = occ f (omap h l').
Proof. induction 1 as [|x l l' _ IH|x y l|]; rewrite ?occ_omap_cons; lia. Qed.

Lemma bump_all d l : ∀ counts, (∀ e, e ∈ l → (e < length counts)%nat) →
  ∃ counts', foldM (bump d) counts l = Ok counts' ∧ length counts' = length counts ∧ ∀ e z, counts !! e = Some z → counts' !! e = Some (z + d * Z.of_nat (uses e l)).
Proof.
  induction l as [|e l IH]; intros counts Hl; cbn [foldM]; [exists counts; repeat split; try done; intros e z ->; f_equal; cbn; lia|].
  destruct (lookup_lt_is_Some_2 counts e) as [z Hz]; [apply Hl; by left|]. assert (bump d counts e = Ok (<[e := z + d]> counts)) as -> by (unfold bump; rewrite (rd_ok _ _ _ Hz); rstep; apply wr_ok; by apply lookup_lt_Some in Hz). rstep.
  destruct (IH (<[e := z + d]> counts)) as (c & -> & Hlen & Hc); [intros e' He'; rewrite length_insert; apply Hl; by right|]. exists c. rewrite length_insert in Hlen. split; [done|]. split; [done|].
  intros e' z' Hz'. unfold uses. rewrite occ_of_cons. destruct (Nat.eqb_spec e e') as [<-|Hne].
  - rewrite (Hc e (z + d)) by (by rewrite list_lookup_insert_eq by (by apply lookup_lt_Some in Hz)). simplify_eq. f_equal. unfold uses. lia.
  - rewrite (Hc e' z') by (by rewrite list_lookup_insert_ne). done.
Qed.

Section counting.
Context (g : Graph).
Hypothesis Hg : graph_ok g.
Abbreviation N := (num_node_entries g).

Definition input_entry (node : INode) (i : nat) : option nat := entry_id g <$> n_inputs node !! i.

Lemma inputs_omap node : entry_id g <$> n_inputs node = omap (input_entry node) (seq 0 (length (n_inputs node))).
Proof.
  unfold input_entry. assert (∀ (l pre : list NodeEntry), omap (fun i => entry_id g <$> (pre ++ l) !! i) (seq (length pre) (length l)) = entry_id g <$> l) as H; [|by rewrite <- (H (n_inputs node) [])].
  induction l as [|x l IH]; intros pre; [done|]. cbn [length seq omap list_omap]. rewrite list_lookup_middle by done. cbn. f_equal. specialize (IH (pre ++ [x])). rewrite <- (assoc_L (++)), length_app, Nat.add_comm in IH. exact IH.
Qed.

(** The inputs are those that are read and those that are ignored. *)
Lemma uses_inputs node e : NoDup (ignored node) → (∀ i, i ∈ ignored node → (i < length (n_inputs node))%nat) →
  uses e (entry_id g <$> n_inputs node) = (uses e (live_from g node 0) + uses e (omap (input_entry node) (ignored node)))%nat.
Proof.
  intros Hnd Hlt. rewrite inputs_omap. unfold live_from. rewrite Nat.sub_0_r.
  assert (filter (fun i => i ∈ ignored node) (seq 0 (length (n_inputs node))) ≡ₚ ignored node) as Hp.
  { apply NoDup_Permutation; [apply NoDup_filter, NoDup_seq|done|]. intros i. rewrite list_elem_of_filter, elem_of_seq. split; [by intros [? _]|]. intros Hi. split; [done|]. specialize (Hlt i Hi). lia. }
  unfold uses at 3. rewrite <- (occ_omap_perm _ _ _ _ Hp). clear. induction (seq 0 (length (n_inputs node))) as [|i l IH]; [done|]. unfold uses in *. rewrite filter_cons, !occ_omap_cons. unfold live_input at 1. fold (input_entry node i).
  case_bool_decide as Hi; [rewrite decide_True, occ_omap_cons by done|rewrite decide_False by done]; lia.
Qed.

Lemma count_node_ok nid node counts : nodes g !! nid = Some node → length counts = N →
  ∃ counts', count_node g counts node = Ok counts' ∧ length counts' = N ∧ ∀ e z, counts !! e = Some z → counts' !! e = Some (z + Z.of_nat (uses e (live g node))).
Proof.
  intros Hn Hl. unfold count_node, live. destruct (is_variable node); [exists counts; repeat split; try done; intros e z ->; f_equal; cbn; lia|].
  destruct (go_nodes _ Hg _ _ Hn) as [Hin _ [Hnd Hlt] _ _]. assert (∀ x, x ∈ n_inputs node → (entry_id g x < N)%nat) as Hbd by (intros x Hx; apply entry_bound, (Hin x Hx)).
  destruct (bump_all 1 (entry_id g <$> n_inputs node) counts) as (c1 & -> & Hl1 & Hc1); [intros e (x & -> & Hx)%list_elem_of_fmap; rewrite Hl; by apply Hbd|]. rstep.
  assert (∀ l c, (∀ i, i ∈ l → (i < length (n_inputs node))%nat) →
    foldM (fun counts i => e ← rd (n_inputs node) i; bump (-1) counts (entry_id g e)) c l = foldM (bump (-1)) c (omap (input_entry node) l)) as Hign.
  { induction l as [|i l IH]; intros c Hi; [done|]. destruct (lookup_lt_is_Some_2 (n_inputs node) i) as [x Hx]; [apply Hi; by left|]. cbn [foldM omap list_omap]. unfold input_entry at 1. rewrite (rd_ok _ _ _ Hx), Hx. cbn. unfold mbind, result_bind.
    destruct (bump (-1) c (entry_id g x)); [|done]. apply IH. intros j Hj. apply Hi. by right. }
  rewrite Hign by done. destruct (bump_all (-1) (omap (input_entry node) (ignored node)) c1) as (c2 & -> & Hl2 & Hc2).
  { intros e (i & _ & Hi)%list_elem_of_omap. unfold input_entry in Hi. destruct (n_inputs node !! i) as [x|] eqn:Hx; [|done]. injection Hi as <-. rewrite Hl1, Hl. apply Hbd. by apply list_elem_of_lookup_2 in Hx. }
  exists c2. split; [done|]. split; [lia|]. intros e z Hz. rewrite (Hc2 e _ (Hc1 e z Hz)). f_equal. rewrite uses_inputs by done. lia.
Qed.

Lemma count_refs_ok : ∃ refs, count_refs g = Ok refs ∧ ∀ e, (e < N)%nat → refs !! e = Some (Z.of_nat (uses e (pend g 0))).
Proof.
  unfold count_refs. assert (∀ l nid c, l = drop nid (nodes g) → length c = N → ∃ c', foldM (count_node g) c l = Ok c' ∧ length c' = N ∧
    ∀ e z, c !! e = Some z → c' !! e = Some (z + Z.of_nat (uses e (mjoin (live g <$> l))))) as H.
  { induction l as [|node l IH]; intros nid c Hl Hc; cbn [foldM]; [exists c; repeat split; try done; intros e z ->; f_equal; cbn; lia|].
    assert (nodes g !! nid = Some node) as Hn by (rewrite <- (Nat.add_0_r nid), <- lookup_drop, <- Hl; done). destruct (count_node_ok nid node c Hn Hc) as (c1 & -> & Hl1 & Hc1). rstep.
    destruct (IH (S nid) c1) as (c2 & -> & Hl2 & Hc2); [rewrite (drop_S _ _ _ Hn) in Hl; by injection Hl|done|]. exists c2. split; [done|]. split; [done|]. intros e z Hz. rewrite (Hc2 e _ (Hc1 e z Hz)). f_equal.
    change (mjoin (live g <$> node :: l)) with (live g node ++ mjoin (live g <$> l)). unfold uses. rewrite occ_of_app. lia. }
  destruct (H (nodes g) 0%nat (replicate N 0) eq_refl) as (c1 & -> & Hl1 & Hc1); [apply length_replicate|]. rstep.
  destruct (bump_all 1 (entry_id g <$> g_outputs g) c1) as (c2 & -> & Hl2 & Hc2); [intros e (x & -> & Hx)%list_elem_of_fmap; rewrite Hl1; by apply entry_bound, (go_outputs _ Hg)|].
  exists c2. split; [done|]. intros e He. rewrite (Hc2 e (0 + Z.of_nat (uses e (mjoin (live g <$> nodes g))))) by (apply Hc1; by apply lookup_replicate_2). f_equal.
  unfold pend, uses. rewrite drop_0, occ_of_app. lia.
Qed.
End counting.

(** ** The pass *)

(** What the planner relies on: the operators behave as their attributes say. *)
Record op_contract (g : Graph) {V : Type} (sem : nat → list V → nat → V) : Prop := {
  oc_ignores : ∀ nid node vs vs' k, nodes g !! nid = Some node → length vs = length vs' →
    (∀ i, i ∉ ignored node → vs !! i = vs' !! i) → sem nid vs k = sem nid vs' k;
  oc_identity : ∀ nid node pairs ip i k vs v, nodes g !! nid = Some node → finplace_option node = Some pairs → pairs !! ip = Some (i, k) →
    pair_identity node ip = true → vs !! i = Some v → sem nid vs k = v
}.

(** What a call of the pass has: no reference counts or ranges of its own, entries that are
    not planned marked with negative numbers, and sizes within 64 bits. *)
Record args_ok (g : Graph) (args : PlanArgs) : Prop := {
  pa_range : a_node_range args = None;
  pa_refs : a_ref_count args = None;
  pa_storage : ∀ st, a_storage args = Some st → length st = num_node_entries g ∧ Forall (fun z => z < 0) st;
  pa_colors : a_node_color args = [] ∨ length (a_node_color args) = length (nodes g);
  pa_match : 0 ≤ a_max_match_range args < 2 ^ 63;
  pa_auto : a_auto_search args = true → 1 ≤ a_max_match_range args;
  pa_sizes : Forall (fun sh => 4 * prod sh * Z.max 1 (a_max_match_range args) < 2 ^ 64) (shape_vec g)
}.

Definition storage0 (g : Graph) (args : PlanArgs) : list Z := default (replicate (num_node_entries g) (-1)) (a_storage args).

Section pass.
Context (g : Graph) (args : PlanArgs).
Hypothesis Hg : graph_ok g.
Hypothesis Hargs : args_ok g args.

Definition good (p : plan) : Prop := ∃ mr, Inv g (storage0 g args) (a_node_color args) mr (length (nodes g)) p.

Lemma storage0_ok : length (storage0 g args) = num_node_entries g ∧ Forall (fun z => z < 0) (storage0 g args).
Proof.
  unfold storage0. destruct (a_storage args) as [st|] eqn:Hst; [by apply (pa_storage _ _ Hargs)|]. cbn. split; [apply length_replicate|]. by apply Forall_replicate.
Qed.

Lemma try_ok refs mr : (∀ e, (e < num_node_entries g)%nat → refs !! e = Some (Z.of_nat (uses e (pend g 0)))) → 0 ≤ mr ≤ Z.max 1 (a_max_match_range args) →
  ∃ p, AllocMemory g refs (0%nat, length (nodes g)) (storage0 g args) (replicate (num_node_entries g) (-1))
         {| match_range_ := mr; free_ := []; data_ := []; node_color_ := a_node_color args |} = Ok p ∧ good p.
Proof.
  intros Hrefs Hmr. destruct (AllocMemory_ok g refs (storage0 g args) (a_node_color args) mr Hg (pa_colors _ _ Hargs)) with (inplace := replicate (num_node_entries g) (-1)) as (p & Hp & Hi); [lia| |done|apply storage0_ok|apply length_replicate|].
  - eapply Forall_impl; [apply (pa_sizes _ _ Hargs)|]. intros sh Hsh. cbn in Hsh. destruct (decide (0 ≤ prod sh)) as [Hpos|Hneg].
    + eapply Z.le_lt_trans; [|exact Hsh]. apply Z.mul_le_mono_nonneg_l; lia.
    + assert (4 * prod sh * Z.max 1 mr ≤ 0) by (apply Z.mul_nonpos_nonneg; lia). lia.
  - exists p. split; [done|]. by exists mr.
Qed.

(** The reported memory is never the initial minimum, which is odd. *)
Lemma total_less p : good p → TotalAllocBytes (allocator p) < 2 ^ 64 - 1.
Proof.
  intros [mr Hi]. pose proof (ao_bytes _ _ _ _ (b_alloc _ _ _ _ _ _ _ (i_base _ _ _ _ _ _ Hi))) as Hby. unfold TotalAllocBytes.
  assert (∀ d t, (∀ s en, d !! s = Some en → 0 ≤ max_bytes en ∧ (4 | max_bytes en)) → (4 | t) → 0 ≤ t < 2 ^ 64 →
    (4 | foldl (fun total e => u64 (total + max_bytes e)) t d) ∧ 0 ≤ foldl (fun total e => u64 (total + max_bytes e)) t d < 2 ^ 64) as H.
  { induction d as [|e d IH]; intros t Hd Ht Hr; [done|]. cbn. apply IH; [intros s en Hs; by apply (Hd (S s))| |apply u64_range].
    destruct (Hd 0%nat e eq_refl) as [_ Hk]. unfold u64. rewrite Z.mod_eq by lia. apply Z.divide_sub_r; [by apply Z.divide_add_r|]. apply Z.divide_mul_l. by exists (2 ^ 62). }
  destruct (H (data_ (allocator p)) 0) as [[k Hk] Hr]; [done|by exists 0|lia|]. lia.
Qed.

Lemma search_range_S fuel max mr try best min : search_range (S fuel) max mr try best min =
  if max <? mr then Ok best else
  p ← try mr;
  let '(best, min) := if TotalAllocBytes (allocator p) <? min then (Some p, TotalAllocBytes (allocator p)) else (best, min) in
  if max =? 0 then Ok best else search_range fuel max (u64 (mr * 2)) try best min.
Proof. done. Qed.

Lemma search_ok try (Htry : ∀ mr, 0 ≤ mr ≤ Z.max 1 (a_max_match_range args) → ∃ p, try mr = Ok p ∧ good p) fuel : ∀ mr best min, 1 ≤ mr → a_max_match_range args < mr * 2 ^ (Z.of_nat fuel) →
  mr ≤ 2 * a_max_match_range args → (best = None ∧ min = 2 ^ 64 - 1 ∧ mr ≤ a_max_match_range args ∨ ∃ p, best = Some p ∧ good p) →
  ∃ p, search_range (S fuel) (a_max_match_range args) mr try best min = Ok (Some p) ∧ good p.
Proof.
  pose proof (pa_match _ _ Hargs) as Hmax. induction fuel as [|fuel IH]; intros mr best min Hmr Hfuel Hle Hbest.
  - cbn [search_range]. rewrite (proj2 (Z.ltb_lt _ _)) by lia. destruct Hbest as [(_ & _ & ?)|(p & -> & Hp)]; [lia|eauto].
  - rewrite search_range_S. destruct (Z.ltb_spec (a_max_match_range args) mr) as [Hgt|Hin]; [destruct Hbest as [(_ & _ & ?)|(p & -> & Hp)]; [lia|eauto]|].
    destruct (Htry mr ltac:(lia)) as (p & -> & Hp). rstep. rewrite (proj2 (Z.eqb_neq _ _)) by lia. rewrite u64_id by lia.
    assert (∀ b m, (∃ q, b = Some q ∧ good q) → ∃ q, search_range (S fuel) (a_max_match_range args) (mr * 2) try b m = Ok (Some q) ∧ good q) as Hnext.
    { intros b m Hb. apply IH; [lia| |lia|by right]. rewrite Nat2Z.inj_succ, Z.pow_succ_r in Hfuel by lia. lia. }
    destruct (TotalAllocBytes (allocator p) <? min) eqn:Hmin; [apply Hnext; eauto|]. apply Hnext. destruct Hbest as [(_ & -> & _)|?]; [|done].
    apply Z.ltb_ge in Hmin. pose proof (total_less p Hp). lia.
Qed.

Lemma PlanMemory_ok : ∃ p, PlanMemory g args = Ok (Some p) ∧ good p.
Proof.
  unfold PlanMemory. rewrite (pa_range _ _ Hargs), (pa_refs _ _ Hargs). destruct (count_refs_ok g Hg) as (refs & -> & Hrefs). rstep. fold (storage0 g args). cbn [default from_option id].
  pose proof (pa_match _ _ Hargs) as Hmax. pose proof (fun mr => try_ok refs mr Hrefs) as Htry. destruct (Z.eq_dec (a_max_match_range args) 0) as [H0|H0].
  - destruct (a_auto_search args) eqn:Hau; [pose proof (pa_auto _ _ Hargs Hau); lia|]. rewrite search_range_S, H0. change (0 <? 0) with false. cbn match.
    destruct (Htry 0 ltac:(lia)) as (p & -> & Hp). rstep. rewrite (proj2 (Z.ltb_lt _ _) (total_less p Hp)). cbn. eauto.
  - destruct (a_auto_search args).
    + apply (search_ok _ Htry 64); [lia|cbn; lia|lia|left; repeat split; lia].
    + apply (search_ok _ Htry 64); [lia| |lia|left; repeat split; lia]. change (2 ^ Z.of_nat 64) with (2 ^ 64). lia.
Qed.
End pass.



(** A graph of three operators in a row, the second of which may work in place. *)
Definition w_var : INode := {| is_variable := true; n_inputs := []; num_inputs := 0; num_outputs := 1; finplace_option := None; finplace_identity := None; fignore_inputs := None |}.
Definition w_op (inputs : list NodeEntry) (pairs : option (list (nat * nat))) (ignore : option (list nat)) : INode :=
  {| is_variable := false; n_inputs := inputs; num_inputs := length inputs; num_outputs := 1; finplace_option := pairs; finplace_identity := None; fignore_inputs := ignore |}.
Definition w_graph : Graph := {|
  nodes := [w_var; w_op [(0, 0)] None None; w_op [(1, 0)] (Some [(0, 0)]) None; w_op [(2, 0)] None None]%nat;
  g_outputs := [(3, 0)]%nat; shape_vec := replicate 4 [2; 3]; dtype_vec := replicate 4 0; device_vec := None |}.
Definition w_args : PlanArgs :=
  {| a_node_range := None; a_ref_count := None; a_storage := None; a_max_match_range := 16; a_auto_search := false; a_node_color := [] |}.

Lemma w_op_ok nid e pairs : (e.1 < nid)%nat → is_entry w_graph e → pairs = None ∨ pairs = Some [(0, 0)]%nat → node_ok w_graph nid (w_op [e] pairs None).
Proof.
  intros Hlt He Hp. split; [|done|split; [apply NoDup_nil_2|intros i Hi; by apply not_elem_of_nil in Hi]| |done].
  - intros x ->%list_elem_of_singleton. by split.
  - intros l ip i k Hl Hip. cbn in Hl. destruct Hp as [->| ->]; [done|]. injection Hl as <-. destruct ip as [|ip]; [|done]. injection Hip as <- <-. cbn. split; [lia|]. split; [lia|]. left. apply not_elem_of_nil.
Qed.
Lemma w_graph_ok : graph_ok w_graph.
Proof.
  split; [|intros e ->%list_elem_of_singleton; cbn; eauto|split; [done|by_decision]|split; [done|by_decision]|done].
  intros [|[|[|[|nid]]]] node Hn; [..|done]; injection Hn as <-.
  - split; try done; [intros e He; by apply not_elem_of_nil in He|split; [apply NoDup_nil_2|intros i Hi; by apply not_elem_of_nil in Hi]].
  - apply w_op_ok; [cbn; lia|cbn; eexists; eauto|by left].
  - apply w_op_ok; [cbn; lia|cbn; eexists; eauto|by right].
  - apply w_op_ok; [cbn; lia|cbn; eexists; eauto|by left].
Qed.
Lemma w_args_ok : args_ok w_graph w_args.
Proof. split; try done; [by left|]. by_decision. Qed.



(** An operator that ignores its first input only, and may overwrite it: the planner takes the
    count of the input, which is for a later reader, for its own use. *)
Definition w_ignore_graph : Graph := {|
  nodes := [w_var; w_op [(0, 0)] None None; w_op [(1, 0); (0, 0)] (Some [(0, 0)]) (Some [0]); w_op [(1, 0); (2, 0)] None None]%nat;
  g_outputs := [(3, 0)]%nat; shape_vec := replicate 4 [2; 3]; dtype_vec := replicate 4 0; device_vec := None |}.
Definition w_sem (nid : nat) (vs : list Z) (k : nat) : Z :=
  match nid, vs with
  | 1%nat, [x] => x + 1
  | 2%nat, [_; y] => 10 * y
  | 3%nat, [x; y] => x + y
  | _, _ => 0
  end.

