(* ===== verification/ExecutorMemory.v ===== *)
(** * The memory of a graph executor

    [InitDataEntryMemory] of src/src/executor/graph_executor.cc makes the arrays of a graph
    from its memory plan: it takes one array for every storage of the plan, from the pool of
    another executor where one is large enough, and makes the entries views of them.  Entries
    that the caller has bound are left alone; the gradients of the outputs get arrays of their
    own. *)

From stdpp Require Import sorting.
From S2P Require Import Prelude Blob PlanMemory PlanMemorySound PlanMemoryMake.
Local Open Scope Z_scope.

Record PoolEntry := { pool_ctx : Context; bytes : Z; stype : Z }.
Definition no_info : PoolEntry := {| pool_ctx := CPU; bytes := 0; stype := kUndefinedStorage |}.

(** The larger storage goes first. *)
Definition pool_comparator (pool_info : list PoolEntry) (lhs rhs : nat) : bool :=
  bytes (default no_info (pool_info !! rhs)) <? bytes (default no_info (pool_info !! lhs)).

(** The members of an executor, and the attributes of its graph. *)
Record GraphExecutor := {
  graph_ : Graph;
  vstorage : list Z;
  vstorage_type : list Z;
  vctx : list Context;                        (* by node *)
  input_nodes : list nat;
  num_forward_inputs_ : nat;
  head_grad_map_ : gmap nat nat;              (* by node *)
  data_entry_ : list NDArray }.

Definition is_none (a : NDArray) : bool := bool_decide (ptr_ a = None).

Section executor.
Context (uninit : Z → list Z).
(** [std::sort] with a comparison. *)
Context (sort : (nat → nat → bool) → list nat → list nat).
Context (ex : GraphExecutor).
Let g := graph_ ex.

(** The context and the storage type of every entry. *)
Definition set_entry_info (nid i : nat) (x : list Context * list Z) : result (list Context * list Z) :=
  let eid := entry_id g (nid, i) in
  c ← rd (vctx ex) nid;
  ctxs ← wr x.1 eid c;
  t ← rd (vstorage_type ex) nid;
  check (negb (t =? kUndefinedStorage)) "vstorage_type[nid] != kUndefinedStorage";;
  stypes ← wr x.2 eid t;
  Ok (ctxs, stypes).
Definition entry_info : result (list Context * list Z) :=
  for_range 0 (length (nodes g)) (fun nid x =>
    node ← rd (nodes g) nid;
    for_range 0 (num_outputs node) (fun i x => set_entry_info nid i x) x)
    (replicate (num_node_entries g) CPU, replicate (num_node_entries g) kUndefinedStorage).

(** The array of a head gradient. *)
Definition init_head_grad (ctxs : list Context) (entries : list NDArray) (i : nat) : st store (list NDArray) :=
  nid ← lift (rd (input_nodes ex) i);
  oid ← lift (of_option (CheckFailed "head_grad_map_.at") (head_grad_map_ ex !! nid));
  out ← lift (rd (g_outputs g) oid);
  let eid := entry_id g out in
  t ← lift (rd (vstorage_type ex) eid);
  shape ← lift (rd (shape_vec g) eid);
  ensure (negb (length shape =? 0)%nat) "vshape[eid].ndim() != 0";;
  type ← lift (rd (dtype_vec g) eid);
  ensure (negb (type =? -1)) "vdtype[eid] != -1";;
  ctx ← lift (rd ctxs eid);
  nd ← (if negb (t =? kDefaultStorage) then NDArray_storage uninit t shape ctx true type [] [] [] else NDArray_dense uninit shape ctx false type);
  lift (wr entries (entry_id g (nid, 0%nat)) nd).

(** The bytes of each storage. *)
Definition add_to_pool (ctxs : list Context) (stypes : list Z) (entries : list NDArray) (i : nat) (pool : list PoolEntry) : result (list PoolEntry) :=
  e ← rd entries i;
  if negb (is_none e) then Ok pool else
  shape ← rd (shape_vec g) i;
  type ← rd (dtype_vec g) i;
  n ← bytes_of shape type;
  storage_id ← rd (vstorage ex) i;
  if storage_id <? 0 then Ok pool else
  let sid := Z.to_nat storage_id in
  let pool := if (length pool <=? sid)%nat then resize (S sid) no_info pool else pool in
  info ← rd pool sid;
  info ← (if bytes info =? 0 then c ← rd ctxs i; t ← rd stypes i; Ok {| pool_ctx := c; bytes := n; stype := t |}
          else Ok {| pool_ctx := pool_ctx info; bytes := Z.max (bytes info) n; stype := stype info |});
  wr pool sid info.

(** The arrays of another executor by their bytes. *)
Definition free_pool (shared : list NDArray) : result (list (Z * NDArray)) :=
  foldM (fun m nd => n ← bytes_of (shape_ nd) (dtype_ nd); Ok (map_insert n nd m)) [] shared.

(** The first array from position [it] on that is on the device and large enough. *)
Fixpoint find_free (ctx : Context) (n : Z) (it : nat) (l : list (Z * NDArray)) : st store (option nat) :=
  match l with
  | [] => mret None
  | (size, nd) :: l =>
      c ← array_ctx nd;
      if (dev_type c =? dev_type ctx) && (dev_id c =? dev_id ctx) && (n <=? size) then mret (Some it) else find_free ctx n (S it) l
  end.

Record pools := { p_data : list NDArray; p_free : list (Z * NDArray); p_shared : option (list NDArray) }.

Definition alloc_pool (infos : list PoolEntry) (p : pools) (i : nat) : st store pools :=
  info ← lift (rd infos i);
  let start := map_lower_bound (bytes info) (p_free p) in
  found ← find_free (pool_ctx info) (bytes info) start (drop start (p_free p));
  match (found : option nat) with
  | Some it =>
      x ← lift (rd (p_free p) it);
      pool ← lift (wr (p_data p) i x.2);
      mret {| p_data := pool; p_free := delete it (p_free p); p_shared := p_shared p |}
  | None =>
      let nword := u64 (bytes info + 3) / 4 in
      ensure (nword <=? 2 ^ 63 - 1) "nword <= std::numeric_limits<nnvm::dim_t>::max()";;
      nd ← NDArray_dense uninit [nword] (pool_ctx info) true 0;
      pool ← lift (wr (p_data p) i nd);
      mret {| p_data := pool; p_free := p_free p; p_shared := (fun l => l ++ [nd]) <$> p_shared p |}
  end.

(** An entry is a view of the array of its storage. *)
Definition assign_entry (ctxs : list Context) (pool : list NDArray) (entries : list NDArray) (i : nat) : st store (list NDArray) :=
  e ← lift (rd entries i);
  if negb (is_none e) then mret entries else
  storage_id ← lift (rd (vstorage ex) i);
  t ← lift (rd (vstorage_type ex) i);
  shape ← lift (rd (shape_vec g) i);
  type ← lift (rd (dtype_vec g) i);
  nd ← (if t =? kDefaultStorage then
          ensure (0 <=? storage_id) "Do not support runtime shape op yet";;
          src ← lift (of_option (CheckFailed "data_pool_.at") (pool !! Z.to_nat storage_id));
          AsArray shape type src
        else ctx ← lift (rd ctxs i); NDArray_storage uninit t shape ctx true type [] [] []);
  lift (wr entries i nd).

(** The entries, the pool and what the shared pool has become. *)
Definition InitDataEntryMemory (shared_pool : option (list NDArray)) : st store (list NDArray * list NDArray * option (list NDArray)) :=
  ensure (num_node_entries g =? length (shape_vec g))%nat "idx.num_node_entries() == vshape.size()";;
  ensure (num_node_entries g =? length (dtype_vec g))%nat "idx.num_node_entries() == vdtype.size()";;
  ensure (num_node_entries g =? length (vstorage ex))%nat "idx.num_node_entries() == vstorage.size()";;
  ensure (length (data_entry_ ex) =? length (shape_vec g))%nat "data_entry_.size() == vshape.size()";;
  info ← lift entry_info;
  let '(ctxs, stypes) := info in
  entries ← fold_st (init_head_grad ctxs) (data_entry_ ex) (seq (num_forward_inputs_ ex) (length (input_nodes ex) - num_forward_inputs_ ex));
  infos ← lift (for_range 0 (length (shape_vec g)) (fun i pool => add_to_pool ctxs stypes entries i pool) []);
  free ← lift (free_pool (default [] shared_pool));
  let sorted := sort (pool_comparator infos) (seq 0 (length infos)) in
  p ← fold_st (alloc_pool infos) {| p_data := replicate (length infos) NDArray_none; p_free := free; p_shared := shared_pool |} sorted;
  ensure (length (p_data p) =? length infos)%nat "data_pool_.size() == pool_info.size()";;
  entries ← fold_st (assign_entry ctxs (p_data p)) entries (seq 0 (length entries));
  mret (entries, p_data p, p_shared p).
End executor.

(** ** Memory that only grows *)
Definition extends (s s' : store) : Prop :=
  (next_chunk s ≤ next_chunk s')%nat ∧ ∀ p, (p < next_chunk s)%nat → chunks s' !! p = chunks s !! p.
#[export] Instance extends_preorder : PreOrder extends.
Proof.
  split; [done|]. intros s1 s2 s3 [H1 H2] [H3 H4]. split; [lia|]. intros p Hp. rewrite H4 by lia. by apply H2.
Qed.

(** [a] is all of a dense chunk of [size] bytes. *)
Definition whole (s : store) (size : Z) (a : NDArray) : Prop :=
  ∃ p c, ptr_ a = Some p ∧ (p < next_chunk s)%nat ∧ chunks s !! p = Some c ∧ storage_type_ a = kDefaultStorage ∧
    reuse_ a = false ∧ byte_offset_ a = 0 ∧ storage_shape c = shape_ a ∧ bytes_of (shape_ a) (dtype_ a) = Ok size ∧ h_size (shandle c) = size.

(** [a] is an array of this shape and type on memory that holds all of its elements. *)
Definition view_of (s : store) (shape : TShape) (type : Z) (a : NDArray) : Prop :=
  shape_ a = shape ∧ dtype_ a = type ∧ byte_offset_ a = 0 ∧ storage_type_ a = kDefaultStorage ∧
  ∃ p c ts, ptr_ a = Some p ∧ chunks s !! p = Some c ∧ mshadow_sizeof type = Ok ts ∧ prod shape * ts ≤ h_size (shandle c).

Lemma whole_extends s s' size a : extends s s' → whole s size a → whole s' size a.
Proof.
  intros [Hn Hc] (p & c & Hp & Hlt & Hl & H). exists p, c. split_and!; try apply H; [done|lia|]. by rewrite Hc.
Qed.
Lemma view_extends s s' shape type a : extends s s' → (∀ p, ptr_ a = Some p → (p < next_chunk s)%nat) → view_of s shape type a → view_of s' shape type a.
Proof.
  intros [Hn Hc] Hlt (H1 & H2 & H3 & H4 & p & c & ts & Hp & Hl & H). split_and!; try done. exists p, c, ts. split_and!; try apply H; [done|]. rewrite Hc; [done|by apply Hlt].
Qed.

(** A shape and a type whose elements can be addressed. *)
Definition sized (shape : TShape) (type : Z) : Prop := shape_ok shape ∧ ∃ ts, mshadow_sizeof type = Ok ts ∧ prod shape * ts < 2 ^ 63.

Lemma bytes_of_sized shape type ts : shape_ok shape → mshadow_sizeof type = Ok ts → prod shape * ts < 2 ^ 64 → bytes_of shape type = Ok (prod shape * ts).
Proof.
  intros Hs Ht Hb. unfold bytes_of. rewrite Size_ok by done. rstep. rewrite Ht. rstep. rewrite u64_id; [done|].
  pose proof (prod_le shape (proj1 Hs)). pose proof (sizeof_range _ _ Ht). nia.
Qed.

(** ** What an executor needs *)

(** The entries of the head gradients, and the outputs they belong to. *)
Definition head_entry (ex : GraphExecutor) (i : nat) : nat := entry_id (graph_ ex) (input_nodes ex !!! i, 0%nat).
Definition head_indices (ex : GraphExecutor) : list nat := seq (num_forward_inputs_ ex) (length (input_nodes ex) - num_forward_inputs_ ex).
Definition head_output (ex : GraphExecutor) (i : nat) : option nat :=
  oid ← head_grad_map_ ex !! (input_nodes ex !!! i); entry_id (graph_ ex) <$> g_outputs (graph_ ex) !! oid.

(** The entries whose memory is planned. *)
Definition pooled (ex : GraphExecutor) (i : nat) : Prop :=
  (∃ a, data_entry_ ex !! i = Some a ∧ ptr_ a = None) ∧ i ∉ head_entry ex <$> head_indices ex.

(** Dense entries of addressable size on the machine; the plan has a storage for every entry
    that is not bound; bound entries and the arrays of the shared pool are apart. *)
Record executor_ok (ex : GraphExecutor) (shared : list NDArray) (s : store) : Prop := {
  ok_shapes : length (shape_vec (graph_ ex)) = num_node_entries (graph_ ex);
  ok_types : length (dtype_vec (graph_ ex)) = num_node_entries (graph_ ex);
  ok_storage : length (vstorage ex) = num_node_entries (graph_ ex);
  ok_entries : length (data_entry_ ex) = num_node_entries (graph_ ex);
  ok_stypes : vstorage_type ex = replicate (num_node_entries (graph_ ex)) kDefaultStorage;
  ok_nodes : (length (nodes (graph_ ex)) ≤ num_node_entries (graph_ ex))%nat;
  ok_ctx : length (vctx ex) = length (nodes (graph_ ex));
  ok_cpu : Forall (fun c => dev_mask c = kCPU) (vctx ex);
  ok_sized : ∀ i shape type, shape_vec (graph_ ex) !! i = Some shape → dtype_vec (graph_ ex) !! i = Some type → sized shape type;
  ok_planned : ∀ i z, pooled ex i → vstorage ex !! i = Some z → 0 ≤ z;
  ok_heads : ∀ i, i ∈ head_indices ex → (head_entry ex i < num_node_entries (graph_ ex))%nat ∧
    ∃ e, head_output ex i = Some e ∧ (e < num_node_entries (graph_ ex))%nat ∧ shape_vec (graph_ ex) !! e ≠ Some [];
  ok_bound : ∀ i a p, data_entry_ ex !! i = Some a → ptr_ a = Some p → (p < next_chunk s)%nat ∧ Some p ∉ ptr_ <$> shared;
  ok_shared : Forall (fun a => ∃ size, whole s size a) shared;
  ok_distinct : NoDup (ptr_ <$> shared)
}.

Section executor_proofs.
Context (uninit : Z → list Z) (sort : (nat → nat → bool) → list nat → list nat).

Lemma dense_new shape ctx delay type n s : bytes_of shape type = Ok n → (delay = true ∨ dev_mask ctx = kCPU) →
  ∃ a s', NDArray_dense uninit shape ctx delay type s = Ok (a, s') ∧ ptr_ a = Some (next_chunk s) ∧ shape_ a = shape ∧ dtype_ a = type ∧
    next_chunk s' = S (next_chunk s) ∧ extends s s' ∧ whole s' n a.
Proof.
  intros Hn Hd. assert (∃ c, new_dense uninit shape ctx delay type = Ok c ∧ storage_shape c = shape ∧ h_size (shandle c) = n) as (c & Hc & Hs & Hh).
  { unfold new_dense. rewrite Hn. rstep. destruct Hd as [-> | Hd]; [by eexists|]. unfold Chunk_CheckAndAlloc, Blob.Alloc. cbn. rewrite Hd. cbn.
    destruct delay; by eexists. }
  unfold NDArray_dense. rewrite (lift_bind _ _ c) by done. cbn. do 2 eexists. split; [reflexivity|]. cbn. split_and!; try done.
  - split; cbn; [lia|]. intros p Hp. by rewrite lookup_insert_ne by lia.
  - exists (next_chunk s), c. cbn. split_and!; try done; [lia|by rewrite lookup_insert_eq].
Qed.

Lemma AsArray_whole shape type n size a s : whole s size a → bytes_of shape type = Ok n → n ≤ size →
  ∃ b, AsArray shape type a s = Ok (b, s) ∧ ptr_ b = ptr_ a ∧ shape_ b = shape ∧ dtype_ b = type ∧ byte_offset_ b = 0 ∧ storage_type_ b = kDefaultStorage.
Proof.
  intros (p & c & Hp & Hlt & Hc & Ht & Hr & Ho & Hs & Hb & Hh) Hn Hle. unfold AsArray. rewrite ensure_bind by (by rewrite Ht).
  unfold the_ptr. rewrite (lift_bind _ _ p) by (by rewrite Hp). assert (get_chunk p s = Ok (c, s)) as Hg by (unfold get_chunk; by rewrite Hc).
  rewrite (st_bind_Ok _ _ _ _ _ Hg). rewrite (lift_bind _ _ n) by done. rewrite ensure_bind by (apply Z.leb_le; lia).
  rewrite (st_bind_Ok _ _ _ false s).
  - eexists. split; [reflexivity|]. done.
  - unfold IsView, the_ptr. rewrite Ht, Hr. cbn [negb Z.eqb kDefaultStorage]. rewrite (lift_bind _ _ p) by (by rewrite Hp). rewrite (st_bind_Ok _ _ _ _ _ Hg).
    rewrite Ho, Hs. by rewrite bool_decide_true.
Qed.

Context (ex : GraphExecutor) (shared : list NDArray) (s : store) (Hex : executor_ok ex shared s).
Abbreviation g := (graph_ ex).
Abbreviation N := (num_node_entries (graph_ ex)).

Lemma node_entry_lt nid i node : nodes g !! nid = Some node → (i < num_outputs node)%nat → (entry_id g (nid, i) < N)%nat.
Proof.
  intros Hn Hi. unfold entry_id, num_node_entries. cbn [fst snd]. pose proof (lookup_lt_Some _ _ _ Hn).
  pose proof (rptr_mono g (S nid) (length (nodes g)) ltac:(lia)) as Hm. rewrite (rptr_S g _ _ Hn) in Hm. lia.
Qed.

(** *** The entries *)
Definition info_ok (x : list Context * list Z) : Prop :=
  length x.1 = N ∧ length x.2 = N ∧ Forall (fun c => dev_mask c = kCPU) x.1.
Lemma entry_info_ok : ∃ x, entry_info ex = Ok x ∧ info_ok x.
Proof.
  destruct (for_range_ok (fun _ => info_ok) 0 (length (nodes g)) (fun nid x => node ← rd (nodes g) nid; for_range 0 (num_outputs node) (set_entry_info ex nid) x)
    (replicate N CPU, replicate N kUndefinedStorage)) as (x & Hx & Hok); [lia| | |by exists x].
  { split_and!; cbn; [by rewrite length_replicate..|by apply Forall_replicate]. }
  intros nid x Hnid Hok. destruct (lookup_lt_is_Some_2 (nodes g) nid) as [node Hn]; [lia|]. rewrite (rd_ok _ _ _ Hn). rstep.
  apply (for_range_ok (fun _ => info_ok)); [lia|done|]. clear x Hok. intros i [cs ts] Hi (H1 & H2 & H3). cbn in *. pose proof (node_entry_lt nid i node Hn ltac:(lia)).
  destruct Hex. destruct (lookup_lt_is_Some_2 (vctx ex) nid) as [c Hc]; [lia|]. unfold set_entry_info. rewrite (rd_ok _ _ _ Hc). rstep.
  cbn [fst snd]. rewrite wr_ok by lia. rstep. rewrite ok_stypes0, (rd_ok _ _ kDefaultStorage) by (apply lookup_replicate; lia). rstep. cbn [negb Z.eqb].
  rstep. rewrite wr_ok by lia. rstep. eexists. split; [reflexivity|]. split_and!; cbn; [by rewrite length_insert..|]. apply Forall_insert; [done|].
  by apply (Forall_lookup_1 _ _ _ _ ok_cpu0 Hc).
Qed.

(** *** The head gradients *)

(** The entries [E] and the memory [s1] after the head gradients [l]. *)
Record heads_done (l : list nat) (E : list NDArray) (s1 : store) : Prop := {
  h_len : length E = N;
  h_ext : extends s s1;
  h_rest : ∀ i, i ∉ head_entry ex <$> l → E !! i = data_entry_ ex !! i;
  h_view : ∀ i, i ∈ head_entry ex <$> l → ∃ a p k e shape type, E !! i = Some a ∧ ptr_ a = Some p ∧ (next_chunk s ≤ p < next_chunk s1)%nat ∧
    i = head_entry ex k ∧ head_output ex k = Some e ∧ shape_vec g !! e = Some shape ∧ dtype_vec g !! e = Some type ∧ view_of s1 shape type a;
  h_apart : ∀ i j a b, i ∈ head_entry ex <$> l → j ∈ head_entry ex <$> l → E !! i = Some a → E !! j = Some b → ptr_ a = ptr_ b → i = j
}.

Lemma whole_view size shape type ts a b s1 : whole s1 size a → mshadow_sizeof type = Ok ts → prod shape * ts ≤ size →
  ptr_ b = ptr_ a → shape_ b = shape → dtype_ b = type → byte_offset_ b = 0 → storage_type_ b = kDefaultStorage → view_of s1 shape type b.
Proof.
  intros (p & c & Hp & Hlt & Hc & Ht & Hr & Ho & Hs & Hb & Hh) Hts Hle Hpb ? ? ? ?. unfold view_of. split_and!; try done. exists p, c, ts. split_and!; try done; [congruence|lia].
Qed.
Lemma whole_offset size a s1 : whole s1 size a → byte_offset_ a = 0 ∧ storage_type_ a = kDefaultStorage.
Proof. intros (p & c & H). split; apply H. Qed.

Lemma init_head_grad_ok cs l E s1 i : length cs = N → Forall (fun c => dev_mask c = kCPU) cs → i ∈ head_indices ex → heads_done l E s1 →
  ∃ E' s1', init_head_grad uninit ex cs E i s1 = Ok (E', s1') ∧ heads_done (l ++ [i]) E' s1'.
Proof.
  intros Hcs Hcpu Hi [Hlen Hext Hrest Hview Hapart]. destruct Hex. destruct (ok_heads0 i Hi) as (Hd & e & He & Hlt & Hne).
  destruct (lookup_lt_is_Some_2 (shape_vec g) e) as [shape Hshape]; [lia|]. destruct (lookup_lt_is_Some_2 (dtype_vec g) e) as [type Htype]; [lia|].
  destruct (lookup_lt_is_Some_2 cs e) as [c Hc]; [lia|]. destruct (ok_sized0 _ _ _ Hshape Htype) as (Hsh & ts & Hts & Hb).
  pose proof (Forall_lookup_1 _ _ _ _ Hcpu Hc) as Hm. pose proof (bytes_of_sized shape type ts Hsh Hts ltac:(lia)) as Hn.
  destruct (dense_new shape c false type _ s1 Hn (or_intror Hm)) as (a & s2 & Ha & Hp & Hsa & Hta & Hnx & Hex2 & Hw).
  assert (input_nodes ex !! i = Some (input_nodes ex !!! i)) as Hin.
  { apply list_lookup_lookup_total_lt. apply elem_of_seq in Hi. lia. }
  unfold head_output in He. destruct (head_grad_map_ ex !! _) as [oid|] eqn:Ho; [|done]. cbn in He. destruct (g_outputs g !! oid) as [out|] eqn:Hout; [|done]. injection He as <-.
  exists (<[head_entry ex i := a]> E), s2. split.
  - unfold init_head_grad. rewrite (lift_bind _ _ _ _ (rd_ok _ _ _ Hin)), (lift_bind _ _ oid) by (by rewrite Ho).
    rewrite (lift_bind _ _ _ _ (rd_ok _ _ _ Hout)), (lift_bind _ _ kDefaultStorage) by (rewrite ok_stypes0; apply rd_ok; apply lookup_replicate; lia).
    rewrite (lift_bind _ _ _ _ (rd_ok _ _ _ Hshape)). rewrite ensure_bind by (destruct shape; [by rewrite Hshape in Hne|done]).
    rewrite (lift_bind _ _ _ _ (rd_ok _ _ _ Htype)). rewrite ensure_bind by (by destruct type). rewrite (lift_bind _ _ _ _ (rd_ok _ _ _ Hc)).
    cbn [negb Z.eqb kDefaultStorage]. rewrite (st_bind_Ok _ _ _ _ _ Ha). unfold lift. rewrite wr_ok; [done|]. rewrite Hlen. apply Hd.
  - destruct (whole_offset _ _ _ Hw) as [Hoff Hst]. pose proof (whole_view _ shape type ts a a s2 Hw Hts ltac:(done) eq_refl Hsa Hta Hoff Hst) as Hv.
    assert (∀ j, j ∈ head_entry ex <$> l ++ [i] → j ≠ head_entry ex i → j ∈ head_entry ex <$> l) as Hold.
    { intros j Hj Hne'. rewrite fmap_app, elem_of_app in Hj. cbn in Hj. set_solver. }
    assert (∀ j b, j ∈ head_entry ex <$> l → E !! j = Some b → ptr_ b ≠ ptr_ a) as Hfresh.
    { intros j b Hj Hb' Heq. destruct (Hview j Hj) as (a' & p & ? & ? & ? & ? & E1 & E2 & E3 & _). assert (b = a') as -> by congruence. rewrite Hp, E2 in Heq. simplify_eq. lia. }
    split.
    + by rewrite length_insert.
    + by trans s1.
    + intros j Hj. rewrite fmap_app, elem_of_app in Hj. cbn in Hj. rewrite list_lookup_insert_ne by set_solver. apply Hrest. set_solver.
    + intros j Hj. destruct (decide (j = head_entry ex i)) as [->|Hj'].
      * exists a, (next_chunk s1), i, (entry_id g out), shape, type. rewrite list_lookup_insert_eq by (rewrite Hlen; apply Hd). destruct Hext. split_and!; try done; [lia|].
        unfold head_output. rewrite Ho. cbn. by rewrite Hout.
      * destruct (Hview j (Hold j Hj Hj')) as (a' & p & k & e' & sh & ty & E1 & E2 & E3 & E4 & E5 & E6 & E7 & E8).
        exists a', p, k, e', sh, ty. rewrite list_lookup_insert_ne by done. split_and!; try done; [lia..|]. apply (view_extends s1); [done| |done]. intros p'. rewrite E2. intros [= <-]. lia.
    + intros j k b c' Hj Hk. destruct (decide (j = head_entry ex i)) as [->|Hj'], (decide (k = head_entry ex i)) as [->|Hk']; try done;
        rewrite ?list_lookup_insert_eq by (rewrite Hlen; apply Hd); rewrite ?list_lookup_insert_ne by done; intros; simplify_eq.
      * by destruct (Hfresh k c' (Hold k Hk Hk')).
      * by destruct (Hfresh j b (Hold j Hj Hj')).
      * by apply (Hapart j k b c'); auto.
Qed.

Lemma heads_ok cs : length cs = N → Forall (fun c => dev_mask c = kCPU) cs →
  ∃ E s1, fold_st (init_head_grad uninit ex cs) (data_entry_ ex) (head_indices ex) s = Ok (E, s1) ∧ heads_done (head_indices ex) E s1.
Proof.
  intros Hcs Hcpu. apply fold_st_ok.
  - split; [apply Hex|done|done|intros i Hi; by apply elem_of_nil in Hi|intros i j a b Hi; by apply elem_of_nil in Hi].
  - intros l1 x l2 E s1 Hl Hd. apply init_head_grad_ok; [done..| |done]. rewrite Hl. set_solver.
Qed.

Lemma none_pooled E s1 i a : heads_done (head_indices ex) E s1 → E !! i = Some a → (ptr_ a = None ↔ pooled ex i).
Proof.
  intros [] Ha. destruct (decide (i ∈ head_entry ex <$> head_indices ex)) as [Hi|Hi].
  - destruct (h_view0 i Hi) as (a' & p & ? & ? & ? & ? & E1 & E2 & _). simplify_eq. split; [congruence|by intros [_ ?]].
  - rewrite h_rest0 in Ha by done. split; [intros; split; eauto|intros [(a' & ? & ?) _]; congruence].
Qed.

(** *** The sizes of the storages *)
Context (E : list NDArray) (s1 : store) (HE : heads_done (head_indices ex) E s1).

Definition infos_ok (k : nat) (infos : list PoolEntry) : Prop :=
  (∀ j x, infos !! j = Some x → 0 ≤ bytes x < 2 ^ 63) ∧
  (∀ i z shape type ts, (i < k)%nat → pooled ex i → vstorage ex !! i = Some z → shape_vec g !! i = Some shape → dtype_vec g !! i = Some type →
    mshadow_sizeof type = Ok ts → ∃ x, infos !! Z.to_nat z = Some x ∧ prod shape * ts ≤ bytes x).

(** The table after it has been made to reach cell [sid]. *)
Lemma grow_infos k sid infos : infos_ok k infos →
  let infos' := if (length infos <=? sid)%nat then resize (S sid) no_info infos else infos in
  infos_ok k infos' ∧ (sid < length infos')%nat.
Proof.
  intros [H1 H2]. destruct (Nat.leb_spec (length infos) sid) as [Hl|Hl]; [|done]. cbn. split; [|rewrite length_resize; lia].
  rewrite resize_ge by lia. split.
  - intros j x [Hx|[_ Hx]]%lookup_app_Some; [by apply (H1 j)|]. apply lookup_replicate in Hx as [-> _]. done.
  - intros i z shape type ts Hi Hp Hz Hs Ht Hts. destruct (H2 i z shape type ts) as (x & Hx & Hle); try done. exists x. split; [by apply lookup_app_l_Some|done].
Qed.

Lemma add_to_pool_ok cs ts k infos : length cs = N → length ts = N → (k < N)%nat → infos_ok k infos →
  ∃ infos', add_to_pool ex cs ts E k infos = Ok infos' ∧ infos_ok (S k) infos'.
Proof.
  intros Hcs Hts Hk Hinf. destruct (lookup_lt_is_Some_2 E k) as [a Ha]; [rewrite (h_len _ _ _ HE); lia|].
  unfold add_to_pool. rewrite (rd_ok _ _ _ Ha). rstep. unfold is_none. pose proof (none_pooled _ _ _ _ HE Ha) as Hpool.
  case_bool_decide as Hn; cbn [negb].
  2:{ eexists. split; [done|]. destruct Hinf as [H1 H2]. split; [done|]. intros i z shape type t Hi Hp. apply H2; [|done]. destruct (decide (i = k)) as [-> |]; [tauto|lia]. }
  destruct (lookup_lt_is_Some_2 (shape_vec g) k) as [shape Hshape]; [rewrite (ok_shapes _ _ _ Hex); lia|].
  destruct (lookup_lt_is_Some_2 (dtype_vec g) k) as [type Htype]; [rewrite (ok_types _ _ _ Hex); lia|].
  destruct (lookup_lt_is_Some_2 (vstorage ex) k) as [z Hz]; [rewrite (ok_storage _ _ _ Hex); lia|].
  destruct (lookup_lt_is_Some_2 cs k) as [c Hc]; [lia|]. destruct (lookup_lt_is_Some_2 ts k) as [t Ht]; [lia|].
  destruct (ok_sized _ _ _ Hex _ _ _ Hshape Htype) as (Hsh & w & Hw & Hb). pose proof (prod_le shape (proj1 Hsh)). pose proof (sizeof_range _ _ Hw).
  rewrite (rd_ok _ _ _ Hshape). rstep. rewrite (rd_ok _ _ _ Htype). rstep. rewrite (bytes_of_sized shape type w) by (done || lia). rstep. rewrite (rd_ok _ _ _ Hz). rstep.
  pose proof (ok_planned _ _ _ Hex k z (proj1 Hpool Hn) Hz). rewrite (proj2 (Z.ltb_ge z 0)) by done.
  destruct (grow_infos k (Z.to_nat z) infos Hinf) as [[Hr1 Hr2] Hlt]. cbv zeta in *. set (infos' := if _ : bool then _ else _) in *. clearbody infos'.
  destruct (lookup_lt_is_Some_2 infos' (Z.to_nat z)) as [x Hx]; [done|]. rewrite (rd_ok _ _ _ Hx). rstep. pose proof (Hr1 _ _ Hx) as Hxb. assert (0 ≤ prod shape * w) as Hw0 by nia.
  assert (∃ x', (if bytes x =? 0 then c ← rd cs k; t ← rd ts k; Ok {| pool_ctx := c; bytes := prod shape * w; stype := t |}
    else Ok {| pool_ctx := pool_ctx x; bytes := Z.max (bytes x) (prod shape * w); stype := stype x |}) = Ok x' ∧ bytes x' = Z.max (bytes x) (prod shape * w)) as (x' & -> & Hx').
  { destruct (Z.eqb_spec (bytes x) 0) as [Hx0|]; [|by eexists]. rewrite (rd_ok _ _ _ Hc). rstep. rewrite (rd_ok _ _ _ Ht). rstep. eexists. split; [done|]. cbn. nia. }
  rstep. rewrite wr_ok by done. eexists. split; [done|]. split.
  - intros j y [(<- & <- & _)|[_ Hy]]%list_lookup_insert_Some; [rewrite Hx'; lia|by apply (Hr1 j)].
  - intros i z' shape' type' ts' Hi Hp Hz' Hs' Ht' Hts'. destruct (decide (i = k)) as [->|].
    + simplify_eq. rewrite Hts' in Hw. injection Hw as ->. exists x'. rewrite list_lookup_insert_eq by done. split; [done|lia].
    + destruct (Hr2 i z' shape' type' ts') as (y & Hy & Hle); try done; [lia|]. destruct (decide (Z.to_nat z' = Z.to_nat z)) as [Heq|].
      * rewrite Heq in *. simplify_eq. exists x'. rewrite list_lookup_insert_eq by done. split; [done|lia].
      * exists y. by rewrite list_lookup_insert_ne by done.
Qed.

(** *** The arrays of the storages *)
Lemma free_pool_ok : ∃ l, free_pool shared = Ok l ∧ l.*2 ≡ₚ shared ∧ Forall (fun x => whole s x.1 x.2) l.
Proof.
  apply (foldM_ok (fun l1 l => l.*2 ≡ₚ l1 ∧ Forall (fun x => whole s x.1 x.2) l)); [done|]. intros l1 a l [Hp Hw] Ha.
  destruct (proj1 (Forall_forall _ _) (ok_shared _ _ _ Hex) a Ha) as [size Hs]. pose proof Hs as (p & c & _ & _ & _ & _ & _ & _ & _ & Hb & _).
  rewrite Hb. rstep. eexists. split; [done|]. rewrite map_insert_perm. split; [cbn; rewrite Hp; apply Permutation_cons_append|by constructor].
Qed.

Lemma find_free_ok ctx n l s2 : ∀ it, Forall (fun x => whole s2 x.1 x.2) l →
  ∃ r, find_free ctx n it l s2 = Ok (r, s2) ∧ ∀ k, r = Some k → (it ≤ k)%nat ∧ ∃ x, l !! (k - it)%nat = Some x ∧ n ≤ x.1.
Proof.
  induction l as [|[size a] l IH]; intros it Hl; [by exists None|]. apply Forall_cons in Hl as [(p & c & Hp & Hlt & Hc & _) Hl]. cbn [find_free].
  rewrite (st_bind_Ok _ _ _ (h_ctx (shandle c)) s2).
  2:{ cbn in Hp. unfold array_ctx, the_ptr. rewrite (lift_bind _ _ p) by (by rewrite Hp). unfold get_chunk. unfold mbind, st_bind. by rewrite Hc. }
  destruct (_ && _) eqn:Hb.
  - exists (Some it). split; [done|]. intros k [= <-]. split; [done|]. rewrite Nat.sub_diag. exists (size, a). split; [done|]. cbn. apply andb_true_iff in Hb as [_ Hb]. by apply Z.leb_le.
  - destruct (IH (S it) Hl) as (r & Hr & Hk). exists r. split; [done|]. intros k Hrk. destruct (Hk k Hrk) as (Hle & x & Hx & Hn). split; [lia|]. exists x. split; [|done].
    by replace (k - it)%nat with (S (k - S it)) by lia.
Qed.

(** The pool [p] when the storages [l] have their arrays [arrs]. *)
Record pools_ok (infos : list PoolEntry) (l : list nat) (p : pools) (s2 : store) (arrs : list NDArray) : Prop := {
  q_ext : extends s1 s2;
  q_len : length (p_data p) = length infos;
  q_free : Forall (fun x => whole s2 x.1 x.2) (p_free p);
  q_arrs : Forall2 (fun k a => p_data p !! k = Some a ∧ ∃ size x, whole s2 size a ∧ infos !! k = Some x ∧ bytes x ≤ size) l arrs;
  q_nodup : NoDup (ptr_ <$> arrs ++ (p_free p).*2);
  q_origin : ∀ a, a ∈ arrs ++ (p_free p).*2 → ptr_ a ∈ ptr_ <$> shared ∨ ∃ q, ptr_ a = Some q ∧ (next_chunk s1 ≤ q)%nat;
  q_shared : Forall (fun a => ∃ size, whole s2 size a) (default [] (p_shared p));
  q_distinct : NoDup (ptr_ <$> default [] (p_shared p))
}.

Lemma whole_ptr s2 size a q : whole s2 size a → ptr_ a = Some q → (q < next_chunk s2)%nat.
Proof. intros (p & c & Hp & Hlt & _) Hq. congruence. Qed.

Lemma Forall_whole_extends s2 s3 (l : list (Z * NDArray)) : extends s2 s3 → Forall (fun x => whole s2 x.1 x.2) l → Forall (fun x => whole s3 x.1 x.2) l.
Proof. intros He Hl. apply (Forall_impl _ _ _ Hl). intros x. by apply whole_extends. Qed.

(** The arrays of other storages stay when a cell is written and the memory grows. *)
Lemma arrs_kept (infos : list PoolEntry) l (data : list NDArray) arrs i v s2 s3 : i ∉ l → extends s2 s3 →
  Forall2 (fun k a => data !! k = Some a ∧ ∃ size x, whole s2 size a ∧ infos !! k = Some x ∧ bytes x ≤ size) l arrs →
  Forall2 (fun k a => <[i := v]> data !! k = Some a ∧ ∃ size x, whole s3 size a ∧ infos !! k = Some x ∧ bytes x ≤ size) l arrs.
Proof.
  intros Hi He Hl. induction Hl as [|k b l arrs (Hk & size & x & Hw & Hx) _ IH]; constructor.
  - rewrite list_lookup_insert_ne by set_solver. split; [done|]. exists size, x. split; [by apply (whole_extends s2)|done].
  - apply IH. set_solver.
Qed.

(** An array from the free pool. *)
Lemma pool_reuse infos l p s2 arrs i x it size a : pools_ok infos l p s2 arrs → i ∉ l → infos !! i = Some x →
  p_free p !! it = Some (size, a) → bytes x ≤ size →
  pools_ok infos (l ++ [i]) {| p_data := <[i := a]> (p_data p); p_free := delete it (p_free p); p_shared := p_shared p |} s2 (arrs ++ [a]).
Proof.
  intros [] Hi Hx Hit Hle. pose proof (Forall_lookup_1 _ _ _ _ q_free0 Hit) as Hw. cbn in Hw.
  assert (arrs ++ (p_free p).*2 ≡ₚ (arrs ++ [a]) ++ (delete it (p_free p)).*2) as Hperm.
  { rewrite <- (assoc_L (++)). f_equiv. rewrite (delete_Permutation _ _ _ Hit) at 1. done. }
  pose proof (lookup_lt_Some _ _ _ Hx). split; cbn; try done.
  - by rewrite length_insert.
  - by apply Forall_delete.
  - apply Forall2_app; [|constructor; [|done]].
    + by apply (arrs_kept _ _ _ _ _ _ s2).
    + rewrite list_lookup_insert_eq by lia. split; [done|]. by exists size, x.
  - by rewrite <- Hperm.
  - intros b Hb. apply q_origin0. by rewrite Hperm.
Qed.

(** A new array. *)
Lemma pool_new infos l p s2 s3 arrs i x size a : pools_ok infos l p s2 arrs → i ∉ l → infos !! i = Some x →
  extends s2 s3 → ptr_ a = Some (next_chunk s2) → whole s3 size a → bytes x ≤ size →
  pools_ok infos (l ++ [i]) {| p_data := <[i := a]> (p_data p); p_free := p_free p; p_shared := (fun l => l ++ [a]) <$> p_shared p |} s3 (arrs ++ [a]).
Proof.
  intros [] Hi Hx He Hp Hw Hle. pose proof (lookup_lt_Some _ _ _ Hx).
  assert ((arrs ++ [a]) ++ (p_free p).*2 ≡ₚ a :: arrs ++ (p_free p).*2) as Hperm by (rewrite <- (assoc_L (++)); symmetry; apply Permutation_middle).
  assert (∀ b size', whole s2 size' b → ptr_ b ≠ ptr_ a) as Hfresh.
  { intros b size' Hb Heq. rewrite Hp in Heq. pose proof (whole_ptr _ _ _ _ Hb Heq). lia. }
  split; cbn; try done.
  - by trans s2.
  - by rewrite length_insert.
  - by apply (Forall_whole_extends s2).
  - apply Forall2_app; [by apply (arrs_kept _ _ _ _ _ _ s2)|constructor; [|done]]. rewrite list_lookup_insert_eq by lia. split; [done|]. by exists size, x.
  - rewrite Hperm. cbn. constructor; [|done]. intros (b & Hb & [Hin|Hin]%elem_of_app)%list_elem_of_fmap.
    + apply list_elem_of_lookup in Hin as [n Hn]. destruct (Forall2_lookup_r _ _ _ _ _ q_arrs0 Hn) as (k & _ & _ & size' & y & Hb' & _). by destruct (Hfresh _ _ Hb').
    + apply list_elem_of_fmap in Hin as ([n b'] & -> & Hin). pose proof (proj1 (Forall_forall _ _) q_free0 _ Hin) as Hb'. by destruct (Hfresh _ _ Hb').
  - intros b. rewrite Hperm. intros [-> |Hb]%elem_of_cons; [|by apply q_origin0]. right. exists (next_chunk s2). split; [done|]. apply q_ext0.
  - destruct (p_shared p) as [sh|]; [|done]. cbn in *. apply Forall_app. split; [|apply Forall_singleton; by exists size]. apply (Forall_impl _ _ _ q_shared0). intros b [size' Hb]. exists size'. by apply (whole_extends s2).
  - destruct (p_shared p) as [sh|]; [|done]. cbn in *. rewrite fmap_app, Permutation_app_comm. cbn. constructor; [|done]. intros (b & Hb & Hin)%list_elem_of_fmap.
    destruct (proj1 (Forall_forall _ _) q_shared0 b Hin) as [size' Hb']. by destruct (Hfresh _ _ Hb').
Qed.

Lemma alloc_pool_ok infos l p s2 arrs i : (∀ j x, infos !! j = Some x → 0 ≤ bytes x < 2 ^ 63) → pools_ok infos l p s2 arrs → i ∉ l → (i < length infos)%nat →
  ∃ p' s3, alloc_pool uninit infos p i s2 = Ok (p', s3) ∧ ∃ arrs', pools_ok infos (l ++ [i]) p' s3 arrs'.
Proof.
  intros Hinf Hp Hi Hlt. destruct (lookup_lt_is_Some_2 infos i Hlt) as [x Hx]. pose proof (Hinf _ _ Hx). unfold alloc_pool. rewrite (lift_bind _ _ _ _ (rd_ok _ _ _ Hx)).
  set (start := map_lower_bound _ _). destruct (find_free_ok (pool_ctx x) (bytes x) (drop start (p_free p)) s2 start) as (r & Hr & Hk).
  { apply Forall_drop, Hp. }
  rewrite (st_bind_Ok _ _ _ _ _ Hr). destruct r as [it|].
  - destruct (Hk it eq_refl) as (Hge & [size a] & Hit & Hle). rewrite lookup_drop in Hit. replace (start + (it - start))%nat with it in Hit by lia.
    rewrite (lift_bind _ _ _ _ (rd_ok _ _ _ Hit)). cbn [snd]. rewrite (lift_bind _ _ (<[i := a]> (p_data p))) by (apply wr_ok; by rewrite (q_len _ _ _ _ _ Hp)).
    do 2 eexists. split; [reflexivity|]. exists (arrs ++ [a]). by apply (pool_reuse _ _ _ _ _ _ x _ size).
  - rewrite u64_id by lia. rewrite ensure_bind by (apply Z.leb_le, Z.div_le_upper_bound; lia).
    set (w := (bytes x + 3) / 4). assert (0 ≤ w ∧ bytes x ≤ w * 4 < 2 ^ 63 + 4) as Hw by (subst w; pose proof (Z.div_mod (bytes x + 3) 4); pose proof (Z.mod_pos_bound (bytes x + 3) 4); lia).
    assert (bytes_of [w] 0 = Ok (prod [w] * 4)) as Hb.
    { apply bytes_of_sized; [split; [apply Forall_singleton; lia|]|done|]; cbn; lia. }
    destruct (dense_new [w] (pool_ctx x) true 0 _ s2 Hb (or_introl eq_refl)) as (a & s3 & Ha & Hpt & _ & _ & _ & He & Hwh).
    rewrite (st_bind_Ok _ _ _ _ _ Ha). rewrite (lift_bind _ _ (<[i := a]> (p_data p))) by (apply wr_ok; by rewrite (q_len _ _ _ _ _ Hp)).
    do 2 eexists. split; [reflexivity|]. exists (arrs ++ [a]). apply (pool_new _ _ _ s2 _ _ _ x (prod [w] * 4)); try done. cbn. lia.
Qed.

(** Every storage has an array of its own that is large enough. *)
Record pool_ok (infos : list PoolEntry) (pool : list NDArray) (s2 : store) : Prop := {
  r_ext : extends s1 s2;
  r_len : length pool = length infos;
  r_size : ∀ k x, infos !! k = Some x → ∃ a size, pool !! k = Some a ∧ whole s2 size a ∧ bytes x ≤ size ∧
    (ptr_ a ∈ ptr_ <$> shared ∨ ∃ q, ptr_ a = Some q ∧ (next_chunk s1 ≤ q)%nat);
  r_apart : ∀ k k' a b, pool !! k = Some a → pool !! k' = Some b → ptr_ a = ptr_ b → k = k'
}.

Lemma pools_pool infos l p s2 arrs : l ≡ₚ seq 0 (length infos) → pools_ok infos l p s2 arrs → pool_ok infos (p_data p) s2.
Proof.
  intros Hl []. assert (∀ k, (k < length infos)%nat → ∃ n a, l !! n = Some k ∧ arrs !! n = Some a ∧ p_data p !! k = Some a) as Hget.
  { intros k Hk. assert (k ∈ l) as [n Hn]%list_elem_of_lookup by (rewrite Hl; apply elem_of_seq; lia).
    destruct (Forall2_lookup_l _ _ _ _ _ q_arrs0 Hn) as (a & Ha & Hd & _). by exists n, a. }
  split; try done.
  - intros k x Hx. destruct (Hget k) as (n & a & Hn & Ha & Hd); [by eapply lookup_lt_Some|].
    destruct (Forall2_lookup_lr _ _ _ _ _ _ q_arrs0 Hn Ha) as (_ & size & y & Hw & Hy & Hle). simplify_eq. exists a, size. split_and!; try done.
    apply q_origin0, elem_of_app. left. by eapply list_elem_of_lookup_2.
  - intros k k' a b Ha Hb Heq. pose proof (lookup_lt_Some _ _ _ Ha). pose proof (lookup_lt_Some _ _ _ Hb).
    destruct (Hget k) as (n & a' & Hn & Ha' & Hd); [lia|]. destruct (Hget k') as (n' & b' & Hn' & Hb' & Hd'); [lia|]. simplify_eq.
    rewrite fmap_app, NoDup_app in q_nodup0. destruct q_nodup0 as [Hnd _].
    assert (n = n') as ->; [|congruence]. apply (NoDup_lookup _ n n' (ptr_ a) Hnd); rewrite list_lookup_fmap; [by rewrite Ha'|rewrite Hb'; cbn; by rewrite Heq].
Qed.

Context (Hsort : ∀ r l, sort r l ≡ₚ l).

Lemma alloc_ok infos free sh r : (∀ j x, infos !! j = Some x → 0 ≤ bytes x < 2 ^ 63) → free.*2 ≡ₚ shared → Forall (fun x => whole s x.1 x.2) free → default [] sh = shared →
  ∃ p s2, fold_st (alloc_pool uninit infos) {| p_data := replicate (length infos) NDArray_none; p_free := free; p_shared := sh |} (sort r (seq 0 (length infos))) s1 = Ok (p, s2) ∧
    pool_ok infos (p_data p) s2 ∧ Forall (fun a => ∃ size, whole s2 size a) (default [] (p_shared p)) ∧ NoDup (ptr_ <$> default [] (p_shared p)).
Proof.
  intros Hinf Hfree Hw Hsh. pose proof (h_ext _ _ _ HE) as He.
  destruct (fold_st_ok (fun l p s2 => ∃ arrs, pools_ok infos l p s2 arrs) (alloc_pool uninit infos) (sort r (seq 0 (length infos)))
    {| p_data := replicate (length infos) NDArray_none; p_free := free; p_shared := sh |} s1) as (p & s2 & Hrun & arrs & Hok).
  - exists []. split; cbn; try done.
    + by rewrite length_replicate.
    + by apply (Forall_whole_extends s).
    + rewrite Hfree. apply Hex.
    + intros a. rewrite Hfree. left. by apply list_elem_of_fmap_2.
    + rewrite Hsh. apply (Forall_impl _ _ _ (ok_shared _ _ _ Hex)). intros a [size Ha]. exists size. by apply (whole_extends s).
    + rewrite Hsh. apply Hex.
  - intros l1 x l2 p s2 Hl [arrs Hok]. assert (l1 ++ x :: l2 ≡ₚ seq 0 (length infos)) as Hperm by (by rewrite <- Hl, Hsort).
    apply (alloc_pool_ok _ _ _ _ arrs); try done.
    + assert (NoDup (l1 ++ x :: l2)) as Hnd by (rewrite Hperm; apply NoDup_seq). apply NoDup_app in Hnd as (_ & Hnd & _). intros Hin. apply (Hnd x Hin). by left.
    + assert (x ∈ seq 0 (length infos)) as Hin by (rewrite <- Hperm; set_solver). apply elem_of_seq in Hin. lia.
  - exists p, s2. split; [done|]. split; [|split; apply Hok]. apply (pools_pool _ _ _ _ _ (Hsort _ _) Hok).
Qed.

(** *** The entries of the graph *)

(** The entries [E'] when those before [k] are assigned. *)
Record assigned (pool : list NDArray) (s2 : store) (k : nat) (E' : list NDArray) : Prop := {
  a_len : length E' = N;
  a_rest : ∀ i, ¬ (pooled ex i ∧ (i < k)%nat) → E' !! i = E !! i;
  a_view : ∀ i z shape type, pooled ex i → (i < k)%nat → vstorage ex !! i = Some z → shape_vec g !! i = Some shape → dtype_vec g !! i = Some type →
    ∃ a src, E' !! i = Some a ∧ pool !! Z.to_nat z = Some src ∧ ptr_ a = ptr_ src ∧ view_of s2 shape type a
}.

Lemma assign_entry_ok cs infos pool s2 k E' : infos_ok N infos → pool_ok infos pool s2 → (k < N)%nat → assigned pool s2 k E' →
  ∃ E'', assign_entry uninit ex cs pool E' k s2 = Ok (E'', s2) ∧ assigned pool s2 (S k) E''.
Proof.
  intros Hinf Hpool Hk [Hlen Hrest Hview]. destruct (lookup_lt_is_Some_2 E' k) as [a Ha]; [lia|]. pose proof Ha as HEk. rewrite Hrest in HEk by lia.
  pose proof (none_pooled _ _ _ _ HE HEk) as Hn. unfold assign_entry. rewrite (lift_bind _ _ _ _ (rd_ok _ _ _ Ha)). unfold is_none.
  destruct (lookup_lt_is_Some_2 (shape_vec g) k) as [shape Hshape]; [rewrite (ok_shapes _ _ _ Hex); lia|].
  destruct (lookup_lt_is_Some_2 (dtype_vec g) k) as [type Htype]; [rewrite (ok_types _ _ _ Hex); lia|].
  destruct (lookup_lt_is_Some_2 (vstorage ex) k) as [z Hz]; [rewrite (ok_storage _ _ _ Hex); lia|].
  case_bool_decide as Hnone; cbn [negb].
  2:{ exists E'. split; [done|]. split; [done| |].
      - intros i Hi. apply Hrest. intros [? ?]. apply Hi. split; [done|lia].
      - intros i z' sh ty Hp Hi. apply Hview; [done|]. destruct (decide (i = k)) as [-> |]; [tauto|lia]. }
  pose proof (proj1 Hn Hnone) as Hp. pose proof (ok_planned _ _ _ Hex k z Hp Hz) as Hz0.
  destruct (ok_sized _ _ _ Hex _ _ _ Hshape Htype) as (Hsh & ts & Hts & Hb).
  destruct (proj2 Hinf k z shape type ts Hk Hp Hz Hshape Htype Hts) as (x & Hx & Hle).
  destruct (r_size _ _ _ Hpool _ _ Hx) as (src & size & Hsrc & Hw & Hsz & _).
  destruct (AsArray_whole shape type (prod shape * ts) size src s2 Hw) as (b & Hb' & Hptr & Hsb & Htb & Hob & Hst); [by apply bytes_of_sized; try lia|lia|].
  pose proof (whole_view size shape type ts src b s2 Hw Hts ltac:(lia) Hptr Hsb Htb Hob Hst) as Hv.
  rewrite (lift_bind _ _ _ _ (rd_ok _ _ _ Hz)), (lift_bind _ _ kDefaultStorage) by (rewrite (ok_stypes _ _ _ Hex); apply rd_ok; apply lookup_replicate; lia).
  rewrite (lift_bind _ _ _ _ (rd_ok _ _ _ Hshape)), (lift_bind _ _ _ _ (rd_ok _ _ _ Htype)).
  rewrite (st_bind_Ok _ _ _ b s2).
  2:{ cbn [Z.eqb kDefaultStorage]. rewrite ensure_bind by (by apply Z.leb_le). by rewrite (lift_bind _ _ src) by (by rewrite Hsrc). }
  unfold lift. rewrite wr_ok by lia. eexists. split; [reflexivity|]. split.
  - by rewrite length_insert.
  - intros i Hi. assert (i ≠ k) by (intros ->; apply Hi; split; [done|lia]). rewrite list_lookup_insert_ne by done. apply Hrest. intros [? ?]. apply Hi. split; [done|lia].
  - intros i z' sh ty Hpi Hi Hzi Hs Ht. destruct (decide (i = k)) as [->|Hne].
    + simplify_eq. exists b, src. by rewrite list_lookup_insert_eq by lia.
    + rewrite list_lookup_insert_ne by done. apply Hview; try done. lia.
Qed.

Lemma assign_ok cs infos pool s2 : infos_ok N infos → pool_ok infos pool s2 →
  ∃ E', fold_st (assign_entry uninit ex cs pool) E (seq 0 (length E)) s2 = Ok (E', s2) ∧ assigned pool s2 N E'.
Proof.
  intros Hinf Hpool. rewrite (h_len _ _ _ HE).
  destruct (fold_st_ok (fun l E' s' => s' = s2 ∧ assigned pool s2 (length l) E') (assign_entry uninit ex cs pool) (seq 0 N) E s2) as (E' & s' & Hrun & -> & Hok).
  - split; [done|]. split; [apply (h_len _ _ _ HE)|done|cbn; lia].
  - intros l1 x l2 E' s' Hl [-> Ha]. assert (seq 0 N !! length l1 = Some x) as [-> Hlt]%lookup_seq by (by rewrite Hl, list_lookup_middle).
    destruct (assign_entry_ok cs infos pool s2 (length l1) E') as (E'' & Hrun & Hok); try done. exists E'', s2. split; [done|]. split; [done|].
    by rewrite length_app, Nat.add_1_r.
  - exists E'. by rewrite length_seq in Hok.
Qed.

(** Where the memory of an entry comes from. *)
Inductive origin (pool : list NDArray) (i : nat) (a : NDArray) : Prop :=
  | from_pool z src : pooled ex i → vstorage ex !! i = Some z → 0 ≤ z → pool !! Z.to_nat z = Some src → ptr_ a = ptr_ src → origin pool i a
  | from_head p : i ∈ head_entry ex <$> head_indices ex → E !! i = Some a → ptr_ a = Some p → (next_chunk s ≤ p < next_chunk s1)%nat → origin pool i a
  | from_caller p : i ∉ head_entry ex <$> head_indices ex → ¬ pooled ex i → ptr_ a = Some p → (p < next_chunk s)%nat → Some p ∉ ptr_ <$> shared → origin pool i a.

Lemma entry_origin pool s2 E' i a : assigned pool s2 N E' → E' !! i = Some a → origin pool i a.
Proof.
  intros [Hlen Hrest Hview] Ha. pose proof (lookup_lt_Some _ _ _ Ha).
  destruct (lookup_lt_is_Some_2 E i) as [e He]; [rewrite (h_len _ _ _ HE); lia|]. pose proof (none_pooled _ _ _ _ HE He) as Hn.
  destruct (decide (ptr_ e = None)) as [Hnone|Hsome].
  - pose proof (proj1 Hn Hnone) as Hp. destruct (lookup_lt_is_Some_2 (shape_vec g) i) as [shape Hshape]; [rewrite (ok_shapes _ _ _ Hex); lia|].
    destruct (lookup_lt_is_Some_2 (dtype_vec g) i) as [type Htype]; [rewrite (ok_types _ _ _ Hex); lia|].
    destruct (lookup_lt_is_Some_2 (vstorage ex) i) as [z Hz]; [rewrite (ok_storage _ _ _ Hex); lia|].
    destruct (Hview i z shape type Hp ltac:(lia) Hz Hshape Htype) as (b & src & Hb & Hsrc & Hptr & _). simplify_eq.
    apply (from_pool _ _ _ z src); try done. by apply (ok_planned _ _ _ Hex i).
  - assert (e = a) as -> by (rewrite Hrest in Ha by tauto; congruence). destruct (decide (i ∈ head_entry ex <$> head_indices ex)) as [Hi|Hi].
    + destruct (h_view _ _ _ HE i Hi) as (b & p & ? & ? & ? & ? & Hb & Hp & Hlt & _). simplify_eq. by apply (from_head _ _ _ p).
    + destruct (ptr_ a) as [p|] eqn:Hp; [|done]. rewrite (h_rest _ _ _ HE i Hi) in He. destruct (ok_bound _ _ _ Hex i a p He Hp). apply (from_caller _ _ _ p); try done. by intros ?%Hn.
Qed.

Lemma pool_ptr infos pool s2 k a : pool_ok infos pool s2 → pool !! k = Some a →
  ∃ q, ptr_ a = Some q ∧ (Some q ∈ ptr_ <$> shared ∧ (q < next_chunk s)%nat ∨ (next_chunk s1 ≤ q)%nat).
Proof.
  intros Hpool Ha. destruct (lookup_lt_is_Some_2 infos k) as [x Hx]; [rewrite <- (r_len _ _ _ Hpool); by eapply lookup_lt_Some|].
  destruct (r_size _ _ _ Hpool k x Hx) as (b & size & Hb & Hw & _ & Ho). simplify_eq. destruct Hw as (q & c & Hq & _). exists q. split; [done|].
  destruct Ho as [Hin|(q' & Hq' & ?)]; [|right; congruence]. left. rewrite Hq in Hin. split; [done|]. apply list_elem_of_fmap in Hin as (d & Hd & Hin).
  destruct (proj1 (Forall_forall _ _) (ok_shared _ _ _ Hex) d Hin) as [size' Hd']. by apply (whole_ptr _ _ _ _ Hd').
Qed.

(** Entries share memory exactly if they are planned to. *)
Lemma entries_share infos pool s2 E' i j a b : pool_ok infos pool s2 → assigned pool s2 N E' → pooled ex i ∨ i ∈ head_entry ex <$> head_indices ex → i ≠ j →
  E' !! i = Some a → E' !! j = Some b → (ptr_ a = ptr_ b ↔ pooled ex i ∧ pooled ex j ∧ cell_of (vstorage ex) i = cell_of (vstorage ex) j).
Proof.
  intros Hpool Has Hi Hij Ha Hb. pose proof (h_ext _ _ _ HE) as [Hle _].
  destruct (entry_origin _ _ _ _ _ Has Ha) as [z src Hpi Hz Hz0 Hsrc Hptr|p Hhi HEi Hp Hlt|p Hni Hpi Hp Hlt Hsh]; [| |tauto];
    destruct (entry_origin _ _ _ _ _ Has Hb) as [z' src' Hpj Hz' Hz0' Hsrc' Hptr'|p' Hhj HEj Hp' Hlt'|p' Hnj Hpj Hp' Hlt' Hsh'].
  - unfold cell_of. rewrite Hz, Hz', (proj2 (Z.leb_le 0 z)), (proj2 (Z.leb_le 0 z')) by done. rewrite Hptr, Hptr'. split.
    + intros Heq. rewrite (r_apart _ _ _ Hpool _ _ _ _ Hsrc Hsrc' Heq). done.
    + intros (_ & _ & [= Heq]). rewrite Heq in Hsrc. congruence.
  - destruct (pool_ptr _ _ _ _ _ Hpool Hsrc) as (q & Hq & Hor). rewrite Hptr, Hq, Hp'. split; [intros [= ->]; lia|]. by intros (_ & [_ ?] & _).
  - destruct (pool_ptr _ _ _ _ _ Hpool Hsrc) as (q & Hq & Hor). rewrite Hptr, Hq, Hp'. split; [|tauto]. intros [= ->]. destruct Hor as [[? ?]|?]; [done|lia].
  - destruct (pool_ptr _ _ _ _ _ Hpool Hsrc') as (q & Hq & Hor). rewrite Hptr', Hq, Hp. split; [intros [= ->]; lia|]. by intros ([_ ?] & _).
  - split; [|by intros ([_ ?] & _)]. intros Heq. by destruct (Hij (h_apart _ _ _ HE i j a b Hhi Hhj HEi HEj Heq)).
  - rewrite Hp, Hp'. split; [intros [= ->]; lia|tauto].
Qed.
End executor_proofs.

(** C14: the executor's memory implements its plan.  For a graph of dense entries on the
    machine, [InitDataEntryMemory] completes; every planned entry becomes an array of its shape
    and type on memory that holds all of its elements, and so does every head gradient, with
    those of its output.  Such an entry shares its memory with another entry exactly if both
    are planned and the plan gives them the same storage.  Bound entries keep their arrays,
    earlier memory keeps its contents, and the shared pool is again one that the next executor
    can use. *)
Theorem executor_memory uninit sort ex shared_pool s :
  (∀ r l, sort r l ≡ₚ l) → executor_ok ex (default [] shared_pool) s →
  ∃ entries pool shared' s', InitDataEntryMemory uninit sort ex shared_pool s = Ok (entries, pool, shared', s') ∧
    extends s s' ∧ length entries = num_node_entries (graph_ ex) ∧
    (∀ i shape type, pooled ex i → shape_vec (graph_ ex) !! i = Some shape → dtype_vec (graph_ ex) !! i = Some type →
      ∃ a, entries !! i = Some a ∧ view_of s' shape type a) ∧
    (∀ i, i ∈ head_entry ex <$> head_indices ex → ∃ a k e shape type, entries !! i = Some a ∧ i = head_entry ex k ∧ head_output ex k = Some e ∧
      shape_vec (graph_ ex) !! e = Some shape ∧ dtype_vec (graph_ ex) !! e = Some type ∧ view_of s' shape type a) ∧
    (∀ i, ¬ pooled ex i → i ∉ head_entry ex <$> head_indices ex → entries !! i = data_entry_ ex !! i) ∧
    (∀ i j a b, pooled ex i ∨ i ∈ head_entry ex <$> head_indices ex → i ≠ j → entries !! i = Some a → entries !! j = Some b →
      (ptr_ a = ptr_ b ↔ pooled ex i ∧ pooled ex j ∧ cell_of (vstorage ex) i = cell_of (vstorage ex) j)) ∧
    Forall (fun a => ∃ size, whole s' size a) (default [] shared') ∧ NoDup (ptr_ <$> default [] shared').
Proof.
  intros Hsort Hex. set (shared := default [] shared_pool) in *. destruct (entry_info_ok ex shared s Hex) as ([cs ts] & Hinfo & Hcs & Hts & Hcpu). cbn in Hcs, Hts, Hcpu.
  destruct (heads_ok uninit ex shared s Hex cs Hcs Hcpu) as (E & s1 & Hheads & HE).
  destruct (for_range_ok (infos_ok ex) 0 (num_node_entries (graph_ ex)) (fun i pool => add_to_pool ex cs ts E i pool) []) as (infos & Hinfos & Hio);
    [lia|by split; [|lia]|intros i l Hi Hl; by apply (add_to_pool_ok uninit ex shared s Hex E s1 HE); try lia|].
  destruct (free_pool_ok ex shared s Hex) as (free & Hfree & Hperm & Hw).
  destruct (alloc_ok uninit sort ex shared s Hex E s1 HE Hsort infos free shared_pool (pool_comparator infos) (proj1 Hio) Hperm Hw eq_refl) as (p & s2 & Halloc & Hpool & Hsh & Hnd).
  destruct (assign_ok uninit ex shared s Hex E s1 HE cs infos (p_data p) s2 Hio Hpool) as (E' & Hassign & Has).
  pose proof (h_ext _ _ _ _ _ HE) as He1. pose proof (r_ext _ _ _ _ _ Hpool) as He2.
  exists E', (p_data p), (p_shared p), s2. split_and!; try done.
  - unfold InitDataEntryMemory. destruct Hex. do 4 (rewrite ensure_bind by (apply Nat.eqb_eq; congruence)). rewrite (lift_bind _ _ _ _ Hinfo).
    rewrite (st_bind_Ok _ _ _ _ _ Hheads). rewrite ok_shapes0, (lift_bind _ _ _ _ Hinfos), (lift_bind _ _ _ _ Hfree). cbv zeta. rewrite (st_bind_Ok _ _ _ _ _ Halloc).
    rewrite ensure_bind by (apply Nat.eqb_eq, Hpool). by rewrite (st_bind_Ok _ _ _ _ _ Hassign).
  - by trans s1.
  - apply Has.
  - intros i shape type Hp Hs Ht. pose proof (lookup_lt_Some _ _ _ Hs). destruct Hex.
    destruct (lookup_lt_is_Some_2 (vstorage ex) i) as [z Hz]; [lia|]. destruct (a_view _ _ _ _ _ _ Has i z shape type) as (a & src & Ha & _ & _ & Hv); try done; [lia|]. by exists a.
  - intros i Hi. destruct (h_view _ _ _ _ _ HE i Hi) as (a & q & k & e & shape & type & Ha & Hq & Hlt & H1 & H2 & H3 & H4 & Hv). exists a, k, e, shape, type. split_and!; try done.
    + rewrite (a_rest _ _ _ _ _ _ Has); [done|]. by intros [[_ ?] _].
    + apply (view_extends s1); [done| |done]. intros q'. rewrite Hq. intros [= <-]. lia.
  - intros i Hp Hi. rewrite (a_rest _ _ _ _ _ _ Has) by tauto. by apply (h_rest _ _ _ _ _ HE).
  - intros. by eapply (entries_share uninit ex shared s Hex E s1 HE).
Qed.

(** Three operators, the first and the third on the same storage, a bound input, the gradient
    of the output, and a shared pool with one array. *)
Definition x_graph : Graph := {|
  nodes := [w_var; w_op [(0, 0)] None None; w_op [(1, 0)] None None; w_op [(2, 0)] None None; w_var]%nat;
  g_outputs := [(3, 0)]%nat; shape_vec := replicate 5 [2; 3]; dtype_vec := replicate 5 0; device_vec := None |}.
Definition x_chunk (n : Z) : Chunk :=
  {| shandle := {| dptr := None; h_size := 4 * n; h_ctx := CPU |}; aux_handles := []; delay_alloc := true; storage_type := kDefaultStorage;
     aux_types := []; c_ctx := CPU; storage_shape := [n]; aux_shapes := [] |}.
Definition x_array (p : nat) (n : Z) : NDArray :=
  {| ptr_ := Some p; shape_ := [n]; byte_offset_ := 0; dtype_ := 0; reuse_ := false; storage_type_ := kDefaultStorage |}.
Definition x_store : store := {| chunks := {[0%nat := x_chunk 6; 1%nat := x_chunk 7]}; next_chunk := 2 |}.
Definition x_executor : GraphExecutor := {|
  graph_ := x_graph; vstorage := [-2; 0; 1; 0; -1]; vstorage_type := replicate 5 kDefaultStorage; vctx := replicate 5 CPU;
  input_nodes := [0; 4]%nat; num_forward_inputs_ := 1; head_grad_map_ := {[4%nat := 0%nat]};
  data_entry_ := [x_array 0 6; NDArray_none; NDArray_none; NDArray_none; NDArray_none] |}.
Definition not_after (r : nat → nat → bool) (a b : nat) : Prop := r b a = false.
#[export] Instance not_after_dec r : RelDecision (not_after r).
Proof. intros a b. apply bool_eq_dec. Defined.
Definition x_sort (r : nat → nat → bool) (l : list nat) : list nat := merge_sort (not_after r) l.

Lemma x_pooled i : i ∈ [1; 2; 3]%nat → pooled x_executor i.
Proof.
  intros Hi. split; [|revert i Hi; by apply Forall_forall; by_decision].
  exists NDArray_none. revert i Hi. apply Forall_forall. by repeat constructor.
Qed.
Lemma x_executor_ok : executor_ok x_executor [x_array 1 7] x_store.
Proof.
  split; try done.
  - by_decision.
  - intros i shape type [-> _]%lookup_replicate [-> _]%lookup_replicate. split; [split; [by_decision|done]|]. by exists 4.
  - intros [|[|[|[|[|i]]]]] z [(a & Ha & Hn) Hh] Hz; try done; injection Hz as <-; try done; [by injection Ha as <-|destruct Hh; by_decision].
  - intros i ->%list_elem_of_singleton. split; [vm_compute; lia|]. exists 3%nat. by split_and!; [|vm_compute; lia|].
  - intros [|[|[|[|[|i]]]]] a p Ha Hp; cbn in *; simplify_eq; cbn in *; simplify_eq. split; [lia|by_decision].
  - apply Forall_singleton. exists 28, 1%nat, (x_chunk 7). split_and!; try done. cbn. lia.
  - by_decision.
Qed.

Lemma executor_memory_witness :
  ∃ entries pool shared' s' a b c, InitDataEntryMemory (fun n => replicate (Z.to_nat n) 0) x_sort x_executor (Some [x_array 1 7]) x_store = Ok (entries, pool, shared', s') ∧
    entries !! 1%nat = Some a ∧ entries !! 2%nat = Some b ∧ entries !! 3%nat = Some c ∧ ptr_ a = ptr_ c ∧ ptr_ a ≠ ptr_ b.
Proof.
  destruct (executor_memory (fun n => replicate (Z.to_nat n) 0) x_sort x_executor (Some [x_array 1 7]) x_store (fun r l => merge_sort_Permutation _ l) x_executor_ok)
    as (entries & pool & shared' & s' & Hrun & _ & _ & Hview & _ & _ & Hshare & _).
  destruct (Hview 1%nat [2; 3] 0 (x_pooled 1 ltac:(by_decision)) eq_refl eq_refl) as (a & Ha & _).
  destruct (Hview 2%nat [2; 3] 0 (x_pooled 2 ltac:(by_decision)) eq_refl eq_refl) as (b & Hb & _).
  destruct (Hview 3%nat [2; 3] 0 (x_pooled 3 ltac:(by_decision)) eq_refl eq_refl) as (c & Hc & _).
  exists entries, pool, shared', s', a, b, c. split_and!; try done.
  - apply (Hshare 1%nat 3%nat a c (or_introl (x_pooled 1 ltac:(by_decision))) ltac:(done) Ha Hc). split; [apply x_pooled; by_decision|]. split; [apply x_pooled; by_decision|done].
  - intros Heq. apply (Hshare 1%nat 2%nat a b (or_introl (x_pooled 1 ltac:(by_decision))) ltac:(done) Ha Hb) in Heq as (_ & _ & Heq). done.
Defined.
