(* ===== verification/StdAlgo.v ===== *)
(** * Sorting

    The standard algorithms on integers that several components use, and the parallel
    sort of src/src/common/utils.h. *)

From stdpp Require Import sorting.
From S2P Require Import Prelude.
Local Open Scope Z_scope.

(** [std::sort]; for integers the result is determined. *)
Definition std_sort (l : list Z) : list Z := merge_sort Z.le l.

(** [std::unique]: the first of every run of equal elements. *)
Fixpoint std_unique (l : list Z) : list Z :=
  match l with
  | x :: (y :: _) as l' => if x =? y then std_unique l' else x :: std_unique l'
  | _ => l
  end.

(** [std::lower_bound] on a sorted range: the first position that is not less than [x]. *)
Fixpoint lower_bound (l : list Z) (x : Z) : nat :=
  match l with y :: l => if y <? x then S (lower_bound l x) else O | [] => O end.

(** [std::inplace_merge] *)
Definition inplace_merge (l1 l2 : list Z) : list Z := list_merge Z.le l1 l2.

(** The two halves are sorted by two threads that share nothing. *)
Fixpoint ParallelSortHelper (fuel : nat) (grainsize : Z) (l : list Z) : result (list Z) :=
  match fuel with
  | O => Err (Undefined "endless recursion")
  | S fuel =>
      if Z.of_nat (length l) <? grainsize then Ok (std_sort l)
      else
        let half := (length l `div` 2)%nat in
        l1 ← ParallelSortHelper fuel grainsize (take half l);
        l2 ← ParallelSortHelper fuel grainsize (drop half l);
        Ok (inplace_merge l1 l2)
  end.

Definition ParallelSort (num_threads : Z) (l : list Z) : result (list Z) :=
  if num_threads =? 0 then Err (Undefined "division by zero")
  else
    let num := Z.of_nat (length l) in
    ParallelSortHelper (S (length l)) (Z.max (num / num_threads + 5) (1024 * 16)) l.

(** ** Lemmas *)
Lemma std_sort_sorted l : StronglySorted Z.le (std_sort l).
Proof. apply StronglySorted_merge_sort; apply _. Qed.

Lemma std_sort_elem l x : x ∈ std_sort l ↔ x ∈ l.
Proof. unfold std_sort. by rewrite (merge_sort_Permutation Z.le l). Qed.

Lemma std_sort_nodup l : NoDup (std_sort l) ↔ NoDup l.
Proof. unfold std_sort. by rewrite (merge_sort_Permutation Z.le l). Qed.

Lemma std_unique_elem l : ∀ x, x ∈ std_unique l ↔ x ∈ l.
Proof.
  induction l as [|a [|b l] IH]; intros x; [done|done|]. cbn [std_unique]. destruct (Z.eqb_spec a b) as [->|Hab].
  - rewrite IH, !elem_of_cons. naive_solver.
  - rewrite elem_of_cons, IH, !elem_of_cons. done.
Qed.

Lemma std_unique_sorted l : StronglySorted Z.le l → StronglySorted Z.lt (std_unique l).
Proof.
  induction l as [|a [|b l] IH]; intros Hs; [constructor|repeat constructor|]. cbn [std_unique]. apply StronglySorted_inv in Hs as [Hs Ha].
  destruct (Z.eqb_spec a b) as [->|Hab]; [by apply IH|]. constructor; [by apply IH|]. apply Forall_forall. intros x Hx. rewrite Forall_forall in Ha.
  change (x ∈ std_unique (b :: l)) in Hx. rewrite std_unique_elem in Hx. assert (a ≤ b) by (apply Ha; by left). apply StronglySorted_inv in Hs as [_ Hb]. rewrite Forall_forall in Hb.
  apply elem_of_cons in Hx as [->|Hx]; [lia|]. specialize (Hb x Hx). lia.
Qed.

Lemma sorted_lt_nodup (l : list Z) : StronglySorted Z.lt l → NoDup l.
Proof. induction 1 as [|x l _ IH Hx]; constructor; [|done]. intros Hin. rewrite Forall_forall in Hx. specialize (Hx _ Hin). lia. Qed.

Lemma sorted_lt_le (l : list Z) : StronglySorted Z.lt l → StronglySorted Z.le l.
Proof. induction 1 as [|x l _ IH Hx]; constructor; [done|]. eapply Forall_impl; [done|]. cbn. lia. Qed.


(** Sorted lists of integers with the same elements are equal. *)
Lemma sorted_unique (l1 l2 : list Z) : StronglySorted Z.le l1 → StronglySorted Z.le l2 → l1 ≡ₚ l2 → l1 = l2.
Proof. intros H1 H2. by apply (StronglySorted_unique Z.le). Qed.

Lemma sorted_lt_unique (l1 l2 : list Z) : StronglySorted Z.lt l1 → StronglySorted Z.lt l2 → (∀ x, x ∈ l1 ↔ x ∈ l2) → l1 = l2.
Proof.
  intros H1 H2 He. apply sorted_unique; [by apply sorted_lt_le..|]. apply NoDup_Permutation; [by apply sorted_lt_nodup..|done].
Qed.

Lemma ParallelSortHelper_sorts grainsize : 2 ≤ grainsize → ∀ fuel l, (length l < fuel)%nat → ParallelSortHelper fuel grainsize l = Ok (std_sort l).
Proof.
  intros Hg. induction fuel as [|fuel IH]; intros l Hf; [lia|]. cbn [ParallelSortHelper]. destruct (Z.ltb_spec (Z.of_nat (length l)) grainsize) as [Hl|Hl]; [done|].
  pose proof (Nat.div_mod_eq (length l) 2) as Hd. pose proof (Nat.mod_upper_bound (length l) 2 ltac:(lia)) as Hm.
  rewrite (IH (take _ l)) by (rewrite length_take; lia). rstep. rewrite (IH (drop _ l)) by (rewrite length_drop; lia). rstep. f_equal. unfold inplace_merge. apply sorted_unique.
  - apply Sorted_StronglySorted; [apply _|]. apply Sorted_list_merge; [apply _|apply StronglySorted_Sorted, std_sort_sorted..].
  - apply std_sort_sorted.
  - unfold std_sort. rewrite (merge_Permutation Z.le), !(merge_sort_Permutation Z.le). by rewrite take_drop.
Qed.

Lemma ParallelSort_sorts num_threads l : 1 ≤ num_threads → ParallelSort num_threads l = Ok (std_sort l).
Proof.
  intros Hn. unfold ParallelSort. rewrite (proj2 (Z.eqb_neq _ _)) by lia. apply ParallelSortHelper_sorts; lia.
Qed.

(** ** Positions in a strictly increasing list *)
Lemma lower_bound_le x l : (lower_bound l x ≤ length l)%nat.
Proof. induction l as [|y l IH]; cbn; [lia|]. destruct (y <? x); lia. Qed.

Lemma lower_bound_before x l : ∀ i y, (i < lower_bound l x)%nat → l !! i = Some y → y < x.
Proof.
  induction l as [|a l IH]; intros i y Hi Hy; cbn in Hi; [lia|]. destruct (Z.ltb_spec a x) as [Hlt|]; [|lia].
  destruct i as [|i]; cbn in Hy; [by simplify_eq|]. apply (IH i); [lia|done].
Qed.

Lemma lower_bound_after x l : StronglySorted Z.lt l → ∀ i y, (lower_bound l x ≤ i)%nat → l !! i = Some y → x ≤ y.
Proof.
  induction 1 as [|a l Hs IH Ha]; intros i y Hi Hy; [done|]. cbn in Hi. rewrite Forall_forall in Ha. destruct (Z.ltb_spec a x) as [Hlt|Hge].
  - destruct i as [|i]; [lia|]. apply (IH i); [lia|done].
  - destruct i as [|i]; cbn in Hy; [by simplify_eq|]. apply list_elem_of_lookup_2, Ha in Hy. lia.
Qed.

Lemma lower_bound_mono l x x' : x ≤ x' → (lower_bound l x ≤ lower_bound l x')%nat.
Proof.
  intros H. induction l as [|y l IH]; simpl; [lia|].
  destruct (Z.ltb_spec y x), (Z.ltb_spec y x'); lia.
Qed.

Lemma lower_bound_all l x : Forall (fun y => y < x) l → lower_bound l x = length l.
Proof. induction 1 as [|y l Hy _ IH]; simpl; [done|]. by rewrite (proj2 (Z.ltb_lt _ _) Hy), IH. Qed.

Lemma lower_bound_none l x : Forall (fun y => x ≤ y) l → lower_bound l x = 0%nat.
Proof. destruct 1 as [|y l Hy _]; simpl; [done|]. by rewrite (proj2 (Z.ltb_ge _ _) Hy). Qed.

Lemma sorted_lookup_lt (l : list Z) : StronglySorted Z.lt l → ∀ i j x y, l !! i = Some x → l !! j = Some y → (i < j)%nat ↔ x < y.
Proof.
  induction 1 as [|a l Hs IH Ha]; intros i j x y Hx Hy; [done|]. rewrite Forall_forall in Ha. destruct i as [|i], j as [|j]; cbn in Hx, Hy; simplify_eq.
  - lia.
  - apply list_elem_of_lookup_2, Ha in Hy. lia.
  - apply list_elem_of_lookup_2, Ha in Hx. lia.
  - rewrite <- (IH i j x y Hx Hy). lia.
Qed.

Lemma sorted_lookup_eq (l : list Z) i j x : StronglySorted Z.lt l → l !! i = Some x → l !! j = Some x → i = j.
Proof. intros Hs Hi Hj. eapply NoDup_lookup; [by apply sorted_lt_nodup|done|done]. Qed.

Lemma sorted_adjacent (l : list Z) : StronglySorted Z.lt l ↔ ∀ i x y, l !! i = Some x → l !! S i = Some y → x < y.
Proof.
  split.
  - intros Hs i x y Hx Hy. apply (sorted_lookup_lt l Hs i (S i)); [done|done|lia].
  - intros H. apply Sorted_StronglySorted; [apply _|]. induction l as [|a l IH]; [constructor|]. constructor.
    + apply IH. intros i. apply (H (S i)).
    + destruct l as [|b l]; constructor. by apply (H 0%nat).
Qed.

Lemma lower_bound_ext x x' l : (∀ y, y ∈ l → y < x ↔ y < x') → lower_bound l x = lower_bound l x'.
Proof.
  induction l as [|a l IH]; intros H; [done|]. cbn. rewrite (IH ltac:(intros y Hy; apply H; by right)). specialize (H a ltac:(by left)).
  destruct (Z.ltb_spec a x), (Z.ltb_spec a x'); try done; lia.
Qed.

(** Past [x]: the position of [x], or one more when [x] is there. *)
Lemma lower_bound_succ x l : StronglySorted Z.lt l →
  lower_bound l (x + 1) = if bool_decide (l !! lower_bound l x = Some x) then S (lower_bound l x) else lower_bound l x.
Proof.
  induction 1 as [|a l Hs IH Ha]; [done|]. cbn. rewrite Forall_forall in Ha. destruct (Z.ltb_spec a x) as [Hlt|Hge].
  - rewrite (proj2 (Z.ltb_lt _ _)) by lia. rewrite IH. cbn. by destruct (bool_decide _).
  - cbn. destruct (decide (a = x)) as [->|Hne].
    + rewrite (proj2 (Z.ltb_lt _ _)), bool_decide_eq_true_2 by (done || lia). f_equal. destruct l as [|b l]; [done|]. cbn.
      specialize (Ha b ltac:(by left)). by rewrite (proj2 (Z.ltb_ge _ _)) by lia.
    + rewrite (proj2 (Z.ltb_ge _ _)), bool_decide_eq_false_2 by (congruence || lia). done.
Qed.

Lemma sorted_nodup (l : list nat) : StronglySorted lt l → NoDup l.
Proof.
  induction 1 as [|x l _ IH Hx]; constructor; [|done]. intros Hin. rewrite Forall_forall in Hx. specialize (Hx _ Hin). lia.
Qed.
