(* ===== verification/Floats.v ===== *)
(** * IEEE-754 arithmetic as the sources use it

    [float] and [double] are the binary32 and binary64 formats of Rocq's
    [SpecFloat] (executable, no axioms): every operation rounds to nearest even.
    The file adds the conversions of C++ (integer to float, float to double,
    truncation to an integer, [std::floor], [std::round]) and two facts that the
    components need: small integers convert exactly, and the [double] computation
    by which key ranges are cut into parts stays within a known distance of the
    exact quotient. *)

From Stdlib Require Import SpecFloat Reals Lra.
From S2P Require Import Prelude.
Local Open Scope Z_scope.

Abbreviation float := spec_float.
Abbreviation double := spec_float.

#[export] Instance spec_float_eq_dec : EqDecision spec_float.
Proof. solve_decision. Defined.

(** ** Arithmetic *)
Definition f32_add : float → float → float := SFadd 24 128.
Definition f32_sub : float → float → float := SFsub 24 128.
Definition f32_mul : float → float → float := SFmul 24 128.
Definition f32_div : float → float → float := SFdiv 24 128.
Definition f64_mul : double → double → double := SFmul 53 1024.
Definition f64_div : double → double → double := SFdiv 53 1024.
Definition f64_sub : double → double → double := SFsub 53 1024.
Definition f64_sqrt : double → double := SFsqrt 53 1024.

Definition f32_zero : float := S754_zero false.
Definition f32_of_Z (z : Z) : float := binary_normalize 24 128 z 0 false.
Definition f64_of_Z (z : Z) : double := binary_normalize 53 1024 z 0 false.

(** Conversion between formats rounds to nearest even (exact when widening). *)
Definition convert (prec emax : Z) (x : spec_float) : spec_float :=
  match x with
  | S754_finite s m e => binary_normalize prec emax (cond_Zopp s (Zpos m)) e s
  | _ => x
  end.
Definition f64_of_f32 : float → double := convert 53 1024.
Definition f32_of_f64 : double → float := convert 24 128.

(** C++ comparisons: false as soon as one side is NaN. *)
Definition f_ge (x y : spec_float) : bool := SFleb y x.
Definition f_gt (x y : spec_float) : bool := SFltb y x.
Definition f_le (x y : spec_float) : bool := SFleb x y.
Definition f_lt (x y : spec_float) : bool := SFltb x y.
Definition f_ne (x y : spec_float) : bool := negb (SFeqb x y).
Definition is_nan (x : spec_float) : bool :=
  match x with S754_nan => true | _ => false end.

(** Magnitude of a finite number [m * 2^e] truncated, and rounded half away. *)
Definition mag_trunc (m : positive) (e : Z) : Z :=
  if 0 <=? e then Zpos m * 2 ^ e else Zpos m / 2 ^ (- e).
Definition mag_round (m : positive) (e : Z) : Z :=
  if 0 <=? e then Zpos m * 2 ^ e
  else (2 * Zpos m + 2 ^ (- e)) / (2 * 2 ^ (- e)).

(** Conversion of a floating value to an integer type truncates; a value whose
    truncation does not fit the type (NaN and infinities included) is undefined. *)
Definition to_integer (lo hi : Z) (x : spec_float) : result Z :=
  let fit z := if (lo <=? z) && (z <=? hi) then Ok z
               else Err (Undefined "float to integer out of range") in
  match x with
  | S754_zero _ => fit 0
  | S754_finite s m e => fit (cond_Zopp s (mag_trunc m e))
  | _ => Err (Undefined "float to integer out of range")
  end.
Definition to_int : spec_float → result Z := to_integer (- 2 ^ 31) (2 ^ 31 - 1).
Definition to_uint : spec_float → result Z := to_integer 0 (2 ^ 32 - 1).
Definition to_size_t : spec_float → result Z := to_integer 0 (2 ^ 64 - 1).

(** [std::round] and [std::floor] of a finite value, as the integer they return. *)
Definition round_Z (x : spec_float) : Z :=
  match x with
  | S754_finite s m e => cond_Zopp s (mag_round m e)
  | _ => 0
  end.
Definition floor_Z (x : spec_float) : Z :=
  match x with
  | S754_finite s m e =>
      if 0 <=? e then cond_Zopp s (Zpos m * 2 ^ e) else cond_Zopp s (Zpos m) / 2 ^ (- e)
  | _ => 0
  end.

(** [static_cast<size_t>(round(static_cast<double>(n) / k * i))], the cut between
    part [i-1] and part [i] of [n] elements over [k] servers. *)
Definition cut (n k i : Z) : Z :=
  round_Z (f64_mul (f64_div (f64_of_Z n) (f64_of_Z k)) (f64_of_Z i)).

(** ** Digits and shifts *)
Lemma digits2_pos_bound p :
  2 ^ (Zpos (digits2_pos p) - 1) ≤ Zpos p < 2 ^ Zpos (digits2_pos p).
Proof.
  assert (∀ q, 2 ^ (Zpos (Pos.succ q) - 1) = 2 * 2 ^ (Zpos q - 1)) as S1.
  { intros q. rewrite Pos2Z.inj_succ. replace (Z.succ (Zpos q) - 1) with (Z.succ (Zpos q - 1)) by lia.
    by rewrite Z.pow_succ_r by lia. }
  assert (∀ q, 2 ^ Zpos (Pos.succ q) = 2 * 2 ^ Zpos q) as S2.
  { intros q. rewrite Pos2Z.inj_succ. by rewrite Z.pow_succ_r by lia. }
  induction p as [p IH|p IH|]; cbn [digits2_pos].
  - rewrite S1, S2, Pos2Z.inj_xI. lia.
  - rewrite S1, S2, (Pos2Z.inj_xO p). lia.
  - vm_compute. by split.
Qed.

Lemma digits2_unique p d :
  0 ≤ d → 2 ^ (d - 1) ≤ Zpos p < 2 ^ d → Zpos (digits2_pos p) = d.
Proof.
  intros Hd H. pose proof (digits2_pos_bound p) as B.
  set (q := Zpos (digits2_pos p)) in *. assert (1 ≤ q) by (subst q; lia).
  destruct (Z.lt_trichotomy q d) as [L|[L|L]]; [|done|].
  - assert (2 ^ q ≤ 2 ^ (d - 1)) by (apply Z.pow_le_mono_r; lia). lia.
  - assert (2 ^ d ≤ 2 ^ (q - 1)) by (apply Z.pow_le_mono_r; lia). lia.
Qed.

Lemma iter_xO p d : Zpos (Pos.iter xO p d) = Zpos p * 2 ^ Zpos d.
Proof.
  revert p. induction d as [|d IH] using Pos.peano_ind; intros p.
  - simpl. lia.
  - rewrite Pos.iter_succ, (Pos2Z.inj_xO (Pos.iter _ _ _)), IH, Pos2Z.inj_succ, Z.pow_succ_r by lia. lia.
Qed.

(** ** Integers of at most [prec] digits convert exactly *)
Definition nshift (prec : Z) (p : positive) : Z := prec - Zpos (digits2_pos p).

Lemma normalize_small prec emax p :
  1 < prec → prec < emax → Zpos (digits2_pos p) ≤ prec →
  ∃ m, binary_normalize prec emax (Zpos p) 0 false = S754_finite false m (- nshift prec p) ∧
       Zpos m = Zpos p * 2 ^ nshift prec p ∧ Zpos (digits2_pos m) = prec.
Proof.
  intros Hp He Hd. unfold binary_normalize, binary_round.
  set (d := Zpos (digits2_pos p)) in *. assert (1 ≤ d) by (subst d; lia).
  assert (fexp prec emax (d + 0) = d - prec) as ->.
  { unfold fexp, emin. lia. }
  assert (∃ m, shl_align p 0 (d - prec) = (m, d - prec) ∧ Zpos m = Zpos p * 2 ^ (prec - d)) as (m & Es & Em).
  { unfold shl_align. rewrite Z.sub_0_r. destruct (d - prec) as [|q|q] eqn:E.
    - exists p. split; [done|]. replace (prec - d) with 0 by lia. lia.
    - lia.
    - eexists. split; [done|]. rewrite iter_xO. do 2 f_equal. lia. }
  rewrite Es.
  assert (Zpos (digits2_pos m) = prec) as Hm.
  { apply digits2_unique; [lia|]. rewrite Em. pose proof (digits2_pos_bound p) as B. fold d in B.
    replace (prec - 1) with ((d - 1) + (prec - d)) by lia.
    replace (2 ^ prec) with (2 ^ d * 2 ^ (prec - d)) by (rewrite <- Z.pow_add_r by lia; f_equal; lia).
    rewrite Z.pow_add_r by lia.
    pose proof (Z.pow_pos_nonneg 2 (prec - d)). nia. }
  assert (shr_fexp prec emax (Zpos m) (d - prec) loc_Exact = (Build_shr_record (Zpos m) false false, d - prec)) as Eshr.
  { unfold shr_fexp, Zdigits2. rewrite Hm. unfold fexp, emin.
    replace (Z.max _ _ - (d - prec)) with 0 by lia. done. }
  unfold binary_round_aux. rewrite Eshr. cbn [shr_m loc_of_shr_record round_nearest_even]. rewrite Eshr.
  cbn [shr_m].
  destruct (Z.leb_spec (d - prec) (emax - prec)); [|lia].
  exists m. unfold nshift. fold d. split; [f_equal; lia|done].
Qed.

Lemma mag_trunc_shifted m p s :
  0 ≤ s → Zpos m = Zpos p * 2 ^ s → mag_trunc m (- s) = Zpos p.
Proof.
  intros Hs E. unfold mag_trunc. destruct (Z.leb_spec 0 (- s)).
  - assert (s = 0) as -> by lia. simpl in *. lia.
  - rewrite E, Z.opp_involutive. apply Z.div_mul. apply Z.pow_nonzero; lia.
Qed.

(** Every array index below [2^24] survives the trip through a [float]. *)
Lemma f32_of_Z_to_int z : 0 ≤ z ≤ 2 ^ 24 → to_int (f32_of_Z z) = Ok z.
Proof.
  intros Hz. destruct (Z.eq_dec z (2 ^ 24)) as [->|Hne]; [by vm_compute|].
  destruct z as [|p|p]; [done| |lia].
  assert (Zpos (digits2_pos p) ≤ 24) as Hd.
  { pose proof (digits2_pos_bound p) as B. destruct (Z.le_gt_cases (Zpos (digits2_pos p)) 24); [done|].
    assert (2 ^ 24 ≤ 2 ^ (Zpos (digits2_pos p) - 1)) by (apply Z.pow_le_mono_r; lia). lia. }
  destruct (normalize_small 24 128 p) as (m & E & Em & _); [lia..|].
  unfold f32_of_Z. rewrite E. unfold to_int, to_integer, cond_Zopp.
  rewrite (mag_trunc_shifted m p); [|unfold nshift; lia|done].
  destruct (Z.leb_spec (- 2 ^ 31) (Zpos p)); [|lia].
  destruct (Z.leb_spec (Zpos p) (2 ^ 31 - 1)); [done|lia].
Qed.

(** ** The rounding step of binary64, as a relative error *)
Lemma shr_1_div2 mrs : 0 ≤ shr_m mrs → shr_m (shr_1 mrs) = shr_m mrs / 2.
Proof.
  destruct mrs as [m r s]. simpl. intros H. rewrite <- Z.div2_div.
  destruct m as [|[p|p|]|p]; try done; lia.
Qed.

Lemma iter_shr_1 n : ∀ mrs, 0 ≤ shr_m mrs →
  shr_m (SpecFloat.iter_pos shr_1 n mrs) = shr_m mrs / 2 ^ Zpos n.
Proof.
  assert (∀ a b c, 0 ≤ b → 0 ≤ c → a / 2 ^ b / 2 ^ c = a / 2 ^ (b + c)) as DD.
  { intros a b c ? ?. rewrite Z.pow_add_r, Z.div_div; try lia;
      first [apply Z.pow_nonzero | apply Z.pow_pos_nonneg]; lia. }
  induction n as [n IH|n IH|]; intros mrs H; simpl.
  - pose proof (shr_1_div2 mrs H) as E. assert (0 ≤ shr_m (shr_1 mrs)) by (rewrite E; apply Z.div_pos; lia).
    rewrite !IH; [|done|rewrite IH by done; apply Z.div_pos; [done|apply Z.pow_pos_nonneg; lia]].
    rewrite E. change (shr_m mrs / 2) with (shr_m mrs / 2 ^ 1). rewrite !DD by lia. f_equal. f_equal. lia.
  - rewrite !IH; [|done|rewrite IH by done; apply Z.div_pos; [done|apply Z.pow_pos_nonneg; lia]].
    rewrite !DD by lia. f_equal. f_equal. lia.
  - by rewrite shr_1_div2.
Qed.

Lemma shr_div mrs e n : 0 ≤ shr_m mrs → 0 ≤ n →
  shr_m (shr mrs e n).1 = shr_m mrs / 2 ^ n ∧ (shr mrs e n).2 = e + n.
Proof.
  intros H Hn. unfold shr. destruct n as [|n|n]; [|split; [by apply iter_shr_1|done]|lia].
  simpl. rewrite Z.div_1_r. split; [done|lia].
Qed.

Definition Rv (m e : Z) : R := (IZR m * powerRZ 2 e)%R.

Lemma powerRZ2_pos e : (0 < powerRZ 2 e)%R.
Proof. apply powerRZ_lt. lra. Qed.

Lemma powerRZ2_add a b : powerRZ 2 (a + b) = (powerRZ 2 a * powerRZ 2 b)%R.
Proof. apply powerRZ_add. lra. Qed.

Lemma IZR_pow2 n : 0 ≤ n → IZR (2 ^ n) = powerRZ 2 n.
Proof.
  intros Hn. rewrite <- (Z2Nat.id n) by done. rewrite <- pow_powerRZ, <- pow_IZR. done.
Qed.

Lemma Rv_shift m e n : 0 ≤ n → Rv (m * 2 ^ n) e = Rv m (e + n).
Proof.
  intros Hn. unfold Rv. rewrite mult_IZR, IZR_pow2, powerRZ2_add by done. ring.
Qed.

Lemma Rv_le m m' e : m ≤ m' → (Rv m e <= Rv m' e)%R.
Proof. intros H%IZR_le. unfold Rv. pose proof (powerRZ2_pos e). nra. Qed.

(** Rounding a significand of at least 53 digits yields a 53-digit one, no
    further from the exact value than one unit in its last place. *)
Lemma round_aux_53 mx ex lx (X : R) :
  2 ^ 52 ≤ mx →
  - 1074 ≤ ex → ex + Zdigits2 mx ≤ 1000 →
  (Rv mx ex <= X < Rv (mx + 1) ex)%R →
  ∃ m e, binary_round_aux 53 1024 false mx ex lx = S754_finite false m e ∧
    Zpos (digits2_pos m) = 53 ∧
    ex + (Zdigits2 mx - 53) ≤ e ≤ ex + (Zdigits2 mx - 53) + 1 ∧
    (Rabs (Rv (Zpos m) e - X) <= X / 2 ^ 52)%R.
Proof.
  intros Hm Hex Hhi HX. destruct mx as [|p|p]; [lia| |lia]. cbn [Zdigits2] in *.
  set (d := Zpos (digits2_pos p)) in *. pose proof (digits2_pos_bound p) as B. fold d in B.
  assert (53 ≤ d) as Hd.
  { destruct (Z.le_gt_cases 53 d); [done|].
    assert (2 ^ d ≤ 2 ^ 52) by (apply Z.pow_le_mono_r; lia). lia. }
  set (s := d - 53) in *. set (m1 := Zpos p / 2 ^ s).
  assert (0 < 2 ^ s) by (apply Z.pow_pos_nonneg; lia).
  assert (m1 * 2 ^ s ≤ Zpos p < (m1 + 1) * 2 ^ s) as Hm1.
  { subst m1. pose proof (Z.div_mod (Zpos p) (2 ^ s)). pose proof (Z.mod_pos_bound (Zpos p) (2 ^ s)). lia. }
  assert (2 ^ 52 ≤ m1 < 2 ^ 53) as Rm1.
  { assert (2 ^ (d - 1) = 2 ^ 52 * 2 ^ s) as E1 by (rewrite <- Z.pow_add_r by lia; f_equal; lia).
    assert (2 ^ d = 2 ^ 53 * 2 ^ s) as E2 by (rewrite <- Z.pow_add_r by lia; f_equal; lia).
    split; nia. }
  unfold binary_round_aux.
  assert (∃ mrs, shr_fexp 53 1024 (Zpos p) ex lx = (mrs, ex + s) ∧ shr_m mrs = m1) as (mrs & -> & Em).
  { unfold shr_fexp, Zdigits2, fexp, emin. fold d.
    replace (Z.max _ _ - ex) with s by lia.
    assert (shr_m (shr_record_of_loc (Zpos p) lx) = Zpos p) as E0 by (by destruct lx as [|[]]).
    destruct (shr_div (shr_record_of_loc (Zpos p) lx) ex s) as [Ea Eb]; [rewrite E0; lia|lia|].
    rewrite E0 in Ea. exists (shr (shr_record_of_loc (Zpos p) lx) ex s).1.
    split; [|done]. rewrite <- Eb. by destruct (shr _ _ _). }
  rewrite Em. set (m2 := round_nearest_even m1 (loc_of_shr_record mrs)).
  assert (m1 ≤ m2 ≤ m1 + 1) as Rm2.
  { subst m2. unfold round_nearest_even. destruct (loc_of_shr_record mrs) as [|[]]; repeat case_match; lia. }
  assert (∃ m e, (let '(mrs'', e'') := shr_fexp 53 1024 m2 (ex + s) loc_Exact in
            match shr_m mrs'' with
            | Z0 => S754_zero false
            | Zpos m => if e'' <=? 1024 - 53 then S754_finite false m e'' else S754_infinity false
            | Zneg _ => S754_nan end) = S754_finite false m e ∧
           Zpos (digits2_pos m) = 53 ∧ ex + s ≤ e ≤ ex + s + 1 ∧ Rv (Zpos m) e = Rv m2 (ex + s))
    as (m & e & -> & Hdm & He & Ev).
  { destruct (Z.eq_dec m2 (2 ^ 53)) as [->|Hne].
    - unfold shr_fexp. replace (fexp _ _ _ - (ex + s)) with 1.
      2:{ change (Zdigits2 (2 ^ 53)) with 54. unfold fexp, emin. lia. }
      change (shr (shr_record_of_loc (2 ^ 53) loc_Exact) (ex + s) 1)
        with (Build_shr_record (2 ^ 52) false false, ex + s + 1).
      cbn [shr_m]. change (2 ^ 52) with (Zpos 4503599627370496).
      destruct (Z.leb_spec (ex + s + 1) (1024 - 53)); [|lia].
      eexists _, _. split; [done|]. split; [done|]. split; [lia|].
      rewrite <- Rv_shift by lia. done.
    - destruct m2 as [|q|q] eqn:Eq; [lia| |lia].
      assert (Zpos (digits2_pos q) = 53) as Hq by (apply digits2_unique; lia).
      unfold shr_fexp, Zdigits2. rewrite Hq. unfold fexp, emin.
      replace (Z.max _ _ - (ex + s)) with 0 by lia. cbn [shr shr_record_of_loc shr_m].
      destruct (Z.leb_spec (ex + s) (1024 - 53)); [|lia].
      eexists _, _. split; [done|]. split; [done|]. split; [lia|done]. }
  exists m, e. split; [done|]. split; [done|]. split; [lia|]. rewrite Ev.
  (* the exact value lies between the two candidates *)
  assert (Rv m1 (ex + s) <= X)%R as L1.
  { rewrite <- Rv_shift by lia. etransitivity; [|apply HX]. apply Rv_le. lia. }
  assert (X <= Rv (m1 + 1) (ex + s))%R as L2.
  { rewrite <- Rv_shift by lia. etransitivity; [apply Rlt_le, HX|]. apply Rv_le. lia. }
  assert (Rv m2 (ex + s) <= Rv (m1 + 1) (ex + s))%R by (apply Rv_le; lia).
  assert (Rv m1 (ex + s) <= Rv m2 (ex + s))%R by (apply Rv_le; lia).
  assert (Rv (m1 + 1) (ex + s) = Rv m1 (ex + s) + powerRZ 2 (ex + s))%R.
  { unfold Rv. rewrite plus_IZR. ring. }
  assert (2 ^ 52 * powerRZ 2 (ex + s) <= Rv m1 (ex + s))%R.
  { unfold Rv. apply Rmult_le_compat_r; [apply Rlt_le, powerRZ2_pos|].
    replace (2 ^ 52)%R with (IZR (2 ^ 52)); [apply IZR_le; lia|].
    by rewrite pow_IZR. }
  assert (0 < 2 ^ 52)%R by (apply pow_lt; lra).
  apply Rabs_le.
  assert (powerRZ 2 (ex + s) <= X / 2 ^ 52)%R.
  { apply Rmult_le_reg_l with (2 ^ 52)%R; [done|]. field_simplify. lra. }
  lra.
Qed.

(** ** Accuracy of the cuts *)
Lemma f64_of_Z_pos z :
  0 < z < 2 ^ 53 →
  ∃ m e, f64_of_Z z = S754_finite false m e ∧ Zpos (digits2_pos m) = 53 ∧
         - 52 ≤ e ≤ 0 ∧ Rv (Zpos m) e = IZR z.
Proof.
  intros Hz. destruct z as [|p|p]; [lia| |lia].
  assert (Zpos (digits2_pos p) ≤ 53) as Hd.
  { pose proof (digits2_pos_bound p) as B. destruct (Z.le_gt_cases (Zpos (digits2_pos p)) 53); [done|].
    assert (2 ^ 53 ≤ 2 ^ (Zpos (digits2_pos p) - 1)) by (apply Z.pow_le_mono_r; lia). lia. }
  destruct (normalize_small 53 1024 p) as (m & E & Em & Hdm); [lia..|].
  exists m, (- nshift 53 p). unfold nshift in *. split; [done|]. split; [done|]. split; [lia|].
  rewrite Em, Rv_shift by lia. unfold Rv. replace (- _ + _) with 0 by lia. simpl. lra.
Qed.

Lemma Rv_mul m1 e1 m2 e2 : (Rv m1 e1 * Rv m2 e2 = Rv (m1 * m2) (e1 + e2))%R.
Proof. unfold Rv. rewrite mult_IZR, powerRZ2_add. ring. Qed.

(** The product of two 53-digit significands, rounded. *)
Lemma f64_mul_53 m1 e1 m2 e2 :
  Zpos (digits2_pos m1) = 53 → Zpos (digits2_pos m2) = 53 →
  - 1000 ≤ e1 + e2 → e1 + e2 ≤ 800 →
  ∃ m e, f64_mul (S754_finite false m1 e1) (S754_finite false m2 e2) = S754_finite false m e ∧
    (Rabs (Rv (Zpos m) e - Rv (Zpos m1) e1 * Rv (Zpos m2) e2)
       <= Rv (Zpos m1) e1 * Rv (Zpos m2) e2 / 2 ^ 52)%R.
Proof.
  intros H1 H2 Hlo Hhi. unfold f64_mul, SFmul. simpl xorb.
  pose proof (digits2_pos_bound m1) as B1. rewrite H1 in B1.
  pose proof (digits2_pos_bound m2) as B2. rewrite H2 in B2.
  assert (105 ≤ Zdigits2 (Zpos (m1 * m2)) ≤ 106) as Hdig.
  { cbn [Zdigits2]. pose proof (digits2_pos_bound (m1 * m2)) as B.
    rewrite Pos2Z.inj_mul in B. set (q := Zpos (digits2_pos (m1 * m2))) in *.
    assert (2 ^ 104 ≤ Zpos m1 * Zpos m2 < 2 ^ 106) by nia.
    split.
    - destruct (Z.le_gt_cases 105 q); [done|].
      assert (2 ^ q ≤ 2 ^ 104) by (apply Z.pow_le_mono_r; lia). lia.
    - destruct (Z.le_gt_cases q 106); [done|].
      assert (2 ^ 106 ≤ 2 ^ (q - 1)) by (apply Z.pow_le_mono_r; lia). lia. }
  rewrite Rv_mul.
  destruct (round_aux_53 (Zpos (m1 * m2)) (e1 + e2) loc_Exact (Rv (Zpos m1 * Zpos m2) (e1 + e2)))
    as (m & e & E & _ & _ & Hr); [rewrite Pos2Z.inj_mul; nia|lia|lia| |].
  { rewrite Pos2Z.inj_mul. split; [lra|]. unfold Rv. rewrite plus_IZR.
    pose proof (powerRZ2_pos (e1 + e2)). nra. }
  exists m, e. split; [done|]. done.
Qed.

(** The quotient of two 53-digit significands, rounded. *)
Lemma f64_div_53 m1 e1 m2 e2 :
  Zpos (digits2_pos m1) = 53 → Zpos (digits2_pos m2) = 53 →
  - 100 ≤ e1 - e2 ≤ 100 →
  ∃ m e, f64_div (S754_finite false m1 e1) (S754_finite false m2 e2) = S754_finite false m e ∧
    Zpos (digits2_pos m) = 53 ∧ - 200 ≤ e ≤ 200 ∧
    (Rabs (Rv (Zpos m) e - Rv (Zpos m1) e1 / Rv (Zpos m2) e2)
       <= Rv (Zpos m1) e1 / Rv (Zpos m2) e2 / 2 ^ 52)%R.
Proof.
  intros H1 H2 He. unfold f64_div, SFdiv. simpl xorb.
  pose proof (digits2_pos_bound m1) as B1. rewrite H1 in B1.
  pose proof (digits2_pos_bound m2) as B2. rewrite H2 in B2.
  unfold SFdiv_core_binary. cbn [Zdigits2]. rewrite H1, H2.
  assert (Z.min (fexp 53 1024 (53 + e1 - (53 + e2))) (e1 - e2) = e1 - e2 - 53) as ->
    by (unfold fexp, emin; lia).
  replace (e1 - e2 - (e1 - e2 - 53)) with 53 by lia.
  rewrite Z.shiftl_mul_pow2 by lia.
  set (a := Zpos m1 * 2 ^ 53). pose proof (Z.div_mod a (Zpos m2)) as Hdm.
  pose proof (Z.mod_pos_bound a (Zpos m2)) as Hmod.
  unfold Z.div, Z.modulo in Hdm, Hmod. destruct (Z.div_eucl a (Zpos m2)) as [q r] eqn:Eq.
  assert (a = Zpos m2 * q + r) as Ha by (apply Hdm; lia).
  assert (0 ≤ r < Zpos m2) as Hr by (apply Hmod; lia). clear Hdm Hmod.
  assert (2 ^ 52 ≤ q < 2 ^ 54) as Rq by (subst a; split; nia).
  assert (53 ≤ Zdigits2 q ≤ 54) as Hdq.
  { destruct q as [|p|p]; [lia| |lia]. cbn [Zdigits2].
    pose proof (digits2_pos_bound p) as B. set (d := Zpos (digits2_pos p)) in *. split.
    - destruct (Z.le_gt_cases 53 d); [done|].
      assert (2 ^ d ≤ 2 ^ 52) by (apply Z.pow_le_mono_r; lia). lia.
    - destruct (Z.le_gt_cases d 54); [done|].
      assert (2 ^ 54 ≤ 2 ^ (d - 1)) by (apply Z.pow_le_mono_r; lia). lia. }
  destruct (round_aux_53 q (e1 - e2 - 53) (new_location (Zpos m2) r)
             (Rv (Zpos m1) e1 / Rv (Zpos m2) e2)) as (m & e & E & Hd & Hrange & Hb); [lia|lia|lia| |].
  { (* the exact quotient is in [q, q+1) units *)
    assert (Rv (Zpos m1) e1 = Rv a (e1 - 53))%R as ->
      by (subst a; rewrite Rv_shift by lia; f_equal; lia).
    assert (0 < Rv (Zpos m2) e2)%R as Hpos.
    { unfold Rv. apply Rmult_lt_0_compat; [by apply IZR_lt|apply powerRZ2_pos]. }
    split.
    - apply Rmult_le_reg_r with (Rv (Zpos m2) e2); [done|].
      unfold Rdiv. rewrite Rmult_assoc, Rinv_l, Rmult_1_r, Rv_mul by lra.
      replace (e1 - e2 - 53 + e2) with (e1 - 53) by lia. apply Rv_le. lia.
    - apply Rmult_lt_reg_r with (Rv (Zpos m2) e2); [done|].
      unfold Rdiv. rewrite Rmult_assoc, Rinv_l, Rmult_1_r, Rv_mul by lra.
      replace (e1 - e2 - 53 + e2) with (e1 - 53) by lia. unfold Rv.
      apply Rmult_lt_compat_r; [apply powerRZ2_pos|]. apply IZR_lt. lia. }
  exists m, e. split; [done|]. split; [done|]. split; [lia|done].
Qed.

Lemma Rabs_le_inv x a : (Rabs x <= a → - a <= x <= a)%R.
Proof. intros H. split; [|exact (Rle_trans _ _ _ (Rle_abs x) H)].
  pose proof (Rle_abs (- x)) as H'. rewrite Rabs_Ropp in H'. lra. Qed.

Lemma mag_round_close m e : (Rabs (IZR (mag_round m e) - Rv (Zpos m) e) <= 1 / 2)%R.
Proof.
  unfold mag_round. destruct (Z.leb_spec 0 e) as [He|He].
  - unfold Rv. rewrite mult_IZR, IZR_pow2 by done. rewrite Rminus_diag, Rabs_R0. lra.
  - set (h := 2 ^ (- e)). assert (0 < h) as Hh by (apply Z.pow_pos_nonneg; lia).
    set (q := (2 * Zpos m + h) / (2 * h)).
    assert (2 * h * q ≤ 2 * Zpos m + h < 2 * h * q + 2 * h) as [L U].
    { subst q. pose proof (Z.div_mod (2 * Zpos m + h) (2 * h)).
      pose proof (Z.mod_pos_bound (2 * Zpos m + h) (2 * h)). lia. }
    assert (IZR (Zpos m) = Rv (Zpos m) e * IZR h)%R as Em.
    { unfold Rv. subst h. rewrite IZR_pow2, Rmult_assoc, <- powerRZ2_add by lia.
      replace (e + - e) with 0 by lia. simpl. lra. }
    apply IZR_le in L. apply IZR_lt in U. apply IZR_lt in Hh.
    repeat rewrite ?plus_IZR, ?mult_IZR in *. rewrite Em in *.
    apply Rabs_le. split; apply Rmult_le_reg_l with (IZR h); try done; lra.
Qed.

(** The cut is within [1/2 + 2^-10] of [n*i/k]. *)
Lemma cut_bound n k i :
  0 < n < 2 ^ 40 → 0 < k < 2 ^ 20 → 0 ≤ i ≤ k →
  512 * Z.abs (2 * (k * cut n k i - n * i)) ≤ 513 * k.
Proof.
  intros Hn Hk Hi. unfold cut.
  destruct (f64_of_Z_pos n) as (mn & en & -> & Dn & Rn & Vn); [lia|].
  destruct (f64_of_Z_pos k) as (mk & ek & -> & Dk & Rk & Vk); [lia|].
  destruct (f64_div_53 mn en mk ek Dn Dk) as (mx & ex & -> & Dx & Rx & Bx); [lia|].
  rewrite Vn, Vk in Bx.
  destruct (Z.eq_dec i 0) as [->|Hi0].
  { simpl. rewrite Z.mul_0_r, Z.mul_0_r. simpl. lia. }
  destruct (f64_of_Z_pos i) as (mi & ei & -> & Di & Ri & Vi); [lia|].
  destruct (f64_mul_53 mx ex mi ei Dx Di) as (my & ey & -> & By); [lia..|].
  rewrite Vi in By. unfold round_Z, cond_Zopp. pose proof (mag_round_close my ey) as Bc.
  set (c := mag_round my ey) in *. set (x := Rv (Zpos mx) ex) in *. set (y := Rv (Zpos my) ey) in *.
  destruct Hn as [Hn0 Hn]. destruct Hk as [Hk0 Hk]. destruct Hi as [Hi1 Hik].
  apply IZR_lt in Hn0, Hn, Hk0. apply IZR_le in Hi1, Hik.
  set (N := IZR n) in *. set (K := IZR k) in *. set (I := IZR i) in *.
  assert (IZR (2 ^ 40) = 2 ^ 40)%R as E40 by (by rewrite pow_IZR). rewrite E40 in Hn.
  set (eps := (/ 2 ^ 52)%R). assert (0 < eps)%R by (apply Rinv_0_lt_compat, pow_lt; lra).
  assert (2 ^ 52 * eps = 1)%R as Eeps by (apply Rinv_r, pow_nonzero; lra).
  unfold Rdiv in Bx, By. fold eps in Bx, By.
  (* everything times K, so that only products remain *)
  set (Q := (N * / K)%R) in *. assert (K * Q = N)%R as EQ by (subst Q; field; lra).
  assert (0 < Q)%R by (apply Rmult_lt_0_compat; [done|by apply Rinv_0_lt_compat]).
  apply Rabs_le_inv in Bx, By, Bc.
  assert (eps <= 1)%R by (rewrite <- Eeps; assert (1 <= 2 ^ 52)%R by (apply pow_R1_Rle; lra); nra).
  assert (0 <= x <= 2 * Q)%R as Hx by nra.
  assert (Rabs (x * I - Q * I) <= Q * I * eps)%R as B1 by (apply Rabs_le; nra).
  assert (Rabs (y - x * I) <= 2 * (Q * I) * eps)%R as B2.
  { apply Rabs_le. assert (x * I * eps <= 2 * (Q * I) * eps)%R by (apply Rmult_le_compat_r; nra). lra. }
  apply Rabs_le_inv in B1, B2.
  assert (Q * I <= N)%R as QI by (rewrite <- EQ; nra).
  assert (4 * (Q * I) * eps <= / 1024)%R as B3.
  { assert (4 * (Q * I) * eps <= 4 * 2 ^ 40 * eps)%R by (apply Rmult_le_compat_r; lra).
    assert (4 * 2 ^ 40 * eps = / 1024)%R as <- by (subst eps; field). lra. }
  assert (- (513 / 1024) <= IZR c - Q * I <= 513 / 1024)%R as B4 by (unfold Rdiv in *; nra).
  assert (K * (Q * I) = N * I)%R as EKQ by (rewrite <- EQ; ring).
  assert (- (513 * K) <= 1024 * (K * IZR c - N * I) <= 513 * K)%R as B5 by nra.
  subst N K I. rewrite <- !mult_IZR, <- minus_IZR, <- mult_IZR, <- opp_IZR in B5.
  destruct B5 as [L U]. apply le_IZR in L, U. lia.
Qed.

Lemma cut_last n k : 0 < n < 2 ^ 40 → 0 < k < 2 ^ 20 → cut n k k = n.
Proof.
  intros Hn Hk. pose proof (cut_bound n k k Hn Hk) as B.
  assert (512 * Z.abs (2 * (k * cut n k k - n * k)) ≤ 513 * k) as B' by (apply B; lia). nia.
Qed.

Lemma cut_first n k : cut n k 0 = 0.
Proof.
  unfold cut, f64_mul. change (f64_of_Z 0) with (S754_zero false).
  destruct (f64_div _ _); done.
Qed.

(** Each part differs from the exact quotient by little more than one element. *)
Lemma cut_step n k i :
  0 < n < 2 ^ 40 → 0 < k < 2 ^ 20 → 0 ≤ i < k →
  512 * Z.abs (k * (cut n k (i + 1) - cut n k i) - n) ≤ 513 * k.
Proof.
  intros Hn Hk Hi. pose proof (cut_bound n k i Hn Hk) as B1. pose proof (cut_bound n k (i + 1) Hn Hk) as B2.
  specialize (B1 ltac:(lia)). specialize (B2 ltac:(lia)). lia.
Qed.

Lemma cut_nonneg n k i : 0 < n < 2 ^ 40 → 0 < k < 2 ^ 20 → 0 ≤ i ≤ k → 0 ≤ cut n k i.
Proof. intros Hn Hk Hi. pose proof (cut_bound n k i Hn Hk Hi). nia. Qed.

Lemma cut_mono n k i :
  0 < n < 2 ^ 40 → 0 < k < 2 ^ 20 → 2 * k ≤ n → 0 ≤ i < k → cut n k i < cut n k (i + 1).
Proof. intros Hn Hk Hnk Hi. pose proof (cut_step n k i Hn Hk Hi). nia. Qed.
