(* ===== verification/Sparse.v ===== *)
(** * Sparse arrays: formats and conversions

    A row-sparse array stores some rows of a matrix with their indices; a compressed
    sparse row (CSR) array stores the non-zero elements of each row with their columns.
    This file has the two formats, the check of the format, and the conversions from and to
    dense arrays.
    Sources: src/src/common/utils.h ([CheckFormatRSPImpl], [CheckFormatCSRImpl]),
    src/src/ndarray/ndarray.cc ([SyncCheckFormat]) and
    src/src/operator/tensor/cast_storage-inl.h, on the CPU.

    A matrix is the list of its rows: row [i], column [j] is the element at
    [i * row_length + j] of its memory.  A kernel that is launched on [n] threads runs its
    body for 0 to [n - 1]; the bodies here write different elements, or the same flag. *)

From Stdlib Require Import SpecFloat.
From stdpp Require Import sorting.
From S2P Require Import Prelude StdAlgo Floats.
Local Open Scope Z_scope.

(** ** Formats *)
Record RowSparse := {
  rsp_rows : Z;                       (* rows of the matrix, stored or not *)
  rsp_width : nat;
  rsp_idx : list Z;                   (* [aux_data(kIdx)] *)
  rsp_data : list (list float)
}.

Record CSR := {
  csr_rows : nat;
  csr_cols : Z;
  indptr : list Z;                    (* [aux_data(kIndPtr)] *)
  col_idx : list Z;                   (* [aux_data(kIdx)] *)
  csr_data : list float
}.

(** [NDArrayFormatErr] *)
Definition kNormalErr : Z := 0.
Definition kCSRShapeErr : Z := 1.
Definition kCSRIndPtrErr : Z := 2.
Definition kCSRIdxErr : Z := 3.
Definition kRSPShapeErr : Z := 4.
Definition kRSPIdxErr : Z := 5.

(** A kernel whose threads only set an error flag. *)
Definition flag_kernel (n : nat) (code : Z) (bad : nat → result bool) (out : Z) : result Z :=
  for_range 0 n (fun i out => b ← bad i; Ok (if b : bool then code else out)) out.

(** ** The check of the format *)
Definition rsp_idx_check (idx : list Z) (last : nat) (nrows : Z) (i : nat) : result bool :=
  x ← rd idx i;
  unsorted ← (if (i <? last)%nat then y ← rd idx (S i); Ok (y <=? x) else Ok false);
  Ok (unsorted || (x <? 0) || (nrows <=? x)).

Definition CheckFormatRSPImpl (a : RowSparse) (full_check : bool) : result Z :=
  let n := length (rsp_idx a) in
  if negb (n =? length (rsp_data a))%nat then Ok kRSPShapeErr
  else if (n =? 0)%nat || negb full_check then Ok kNormalErr
  else flag_kernel n kRSPIdxErr (rsp_idx_check (rsp_idx a) (n - 1) (rsp_rows a)) kNormalErr.

Definition csr_indptr_check (indptr : list Z) (last : nat) (idx_size : Z) (i : nat) : result bool :=
  x ← rd indptr i;
  y ← rd indptr (S i);
  e ← (if (i =? last - 1)%nat then rd indptr last else Ok idx_size);
  Ok ((y <? 0) || (y <? x) || ((i =? 0)%nat && negb (x =? 0)) || negb (e =? idx_size)).

(** The loop over the columns of a row, left at the first that is wrong. *)
Fixpoint csr_row_check (n : nat) (idx : list Z) (ncols last j : Z) : result bool :=
  match n with
  | O => Ok false
  | S n =>
      x ← rdz idx j;
      bad ← (if (ncols <=? x) || (x <? 0) then Ok true
             else if j <? last - 1 then y ← rdz idx (j + 1); Ok (y <=? x) else Ok false);
      if bad : bool then Ok true else csr_row_check n idx ncols last (j + 1)
  end.

Definition csr_idx_check (idx indptr : list Z) (ncols : Z) (i : nat) : result bool :=
  x ← rd indptr i;
  y ← rd indptr (S i);
  csr_row_check (Z.to_nat (y - x)) idx ncols y x.

Definition CheckFormatCSRImpl (a : CSR) (full_check : bool) : result Z :=
  let n := length (col_idx a) in
  if negb (length (indptr a) =? csr_rows a + 1)%nat || negb (n =? length (csr_data a))%nat then Ok kCSRShapeErr
  else if negb full_check then Ok kNormalErr
  else
    let rows := (length (indptr a) - 1)%nat in
    out ← flag_kernel rows kCSRIndPtrErr (csr_indptr_check (indptr a) rows (Z.of_nat n)) kNormalErr;
    if (n =? 0)%nat then Ok out else flag_kernel rows kCSRIdxErr (csr_idx_check (col_idx a) (indptr a) (csr_cols a)) out.

(** [SyncCheckFormat] *)
Definition SyncCheckFormat (err : result Z) : result unit :=
  e ← err;
  check (negb (e =? kCSRShapeErr)) "Shape mismatch of this csr NDArray";;
  check (negb (e =? kCSRIndPtrErr)) "IndPtr of csr NDArray should be non-negative, in non-decreasing order";;
  check (negb (e =? kCSRIdxErr)) "Indices of csr NDArray should be non-negative, in ascending order per row";;
  check (negb (e =? kRSPShapeErr)) "Shape mismatch of this row_sparse NDArray";;
  check (negb (e =? kRSPIdxErr)) "Indices of row_sparse NDArray should be non-negative";;
  check (e =? kNormalErr) "Check the validity of this sparse NDArray".

(** ** Conversions *)

(** [x != 0] *)
Definition nonzero (x : float) : bool := f_ne x f32_zero.

Definition MarkRspRowIdx (row : list float) : Z := if existsb nonzero row then 1 else 0.

(** The marks of the rows are overwritten by the indices of the marked rows. *)
Definition CastStorageDnsRspImpl (width : nat) (dns : list (list float)) : result RowSparse :=
  let num_rows := length dns in
  let row_idx := MarkRspRowIdx <$> dns in
  let nnr := Z.to_nat (zsum row_idx) in
  let array idx data := {| rsp_rows := Z.of_nat num_rows; rsp_width := width; rsp_idx := idx; rsp_data := data |} in
  if (nnr =? 0)%nat then Ok (array [] [])
  else
    r ← for_range 0 num_rows (fun i '(row_idx, data, idx) =>
      m ← rd row_idx i;
      if 0 <? m then
        row_idx ← wr row_idx idx (Z.of_nat i);
        row ← rd dns i;
        data ← wr data idx row;
        Ok (row_idx, data, S idx)
      else Ok (row_idx, data, idx)) (row_idx, replicate nnr (replicate width S754_nan), 0%nat);
    Ok (array (take nnr r.1.1) r.1.2).

Definition zeros (num_rows width : nat) : list (list float) := replicate num_rows (replicate width f32_zero).

Definition CastStorageRspDnsImpl (a : RowSparse) : result (list (list float)) :=
  for_range 0 (length (rsp_idx a)) (fun i dns =>
    rid ← rd (rsp_idx a) i;
    row ← rd (rsp_data a) i;
    wrz dns rid row) (zeros (Z.to_nat (rsp_rows a)) (rsp_width a)).

(** [FillCsrIndPtr]: the number of non-zero elements of a row. *)
Definition FillCsrIndPtr (row : list float) : Z := Z.of_nat (length (List.filter nonzero row)).

Definition FillCsrColIdxAndVals (num_cols : nat) (dns : list (list float)) (indptr : list Z) (i : nat) (out : list float * list Z)
    : result (list float * list Z) :=
  row ← rd dns i;
  k ← rd indptr i;
  r ← for_range 0 num_cols (fun j '(val, col_idx, k) =>
    x ← rd row j;
    if nonzero x then
      val ← wrz val k x;
      col_idx ← wrz col_idx k (Z.of_nat j);
      Ok (val, col_idx, k + 1)
    else Ok (val, col_idx, k)) (out.1, out.2, k);
  Ok (r.1.1, r.1.2).

Definition CastStorageDnsCsrImpl (num_cols : nat) (dns : list (list float)) : result CSR :=
  let num_rows := length dns in
  indptr ← for_range 0 num_rows (fun i indptr =>
    x ← rd indptr i;
    y ← rd indptr (S i);
    wr indptr (S i) (y + x)) (0 :: (FillCsrIndPtr <$> dns));
  nnz ← rd indptr num_rows;
  let n := Z.to_nat nnz in
  r ← for_range 0 num_rows (FillCsrColIdxAndVals num_cols dns indptr) (replicate n S754_nan, replicate n 0);
  Ok {| csr_rows := num_rows; csr_cols := Z.of_nat num_cols; indptr := indptr; col_idx := r.2; csr_data := r.1 |}.

(** [CopyCsrDataToDns]: the elements of row [i]. *)
Definition CopyCsrDataToDns (a : CSR) (i : nat) (dns : list (list float)) : result (list (list float)) :=
  x ← rd (indptr a) i;
  y ← rd (indptr a) (S i);
  row ← rd dns i;
  row ← for_range (Z.to_nat x) (Z.to_nat y) (fun j row =>
    c ← rd (col_idx a) j;
    v ← rd (csr_data a) j;
    wrz row c v) row;
  wr dns i row.

Definition CastStorageCsrDnsImpl (a : CSR) : result (list (list float)) :=
  let dns := zeros (csr_rows a) (Z.to_nat (csr_cols a)) in
  if (length (col_idx a) =? 0)%nat then Ok dns
  else for_range 0 (csr_rows a) (CopyCsrDataToDns a) dns.

(** ** The check accepts exactly the format *)
Definition rsp_wf (a : RowSparse) : Prop :=
  length (rsp_idx a) = length (rsp_data a) ∧ StronglySorted Z.lt (rsp_idx a) ∧ ∀ x, x ∈ rsp_idx a → 0 ≤ x < rsp_rows a.

(** The columns of a row are in range and increase. *)
Definition csr_row_ok (a : CSR) (s e : Z) : Prop :=
  ∀ j, s ≤ j < e → ∃ x, col_idx a !! Z.to_nat j = Some x ∧ 0 ≤ x < csr_cols a ∧
    (j + 1 < e → ∃ y, col_idx a !! Z.to_nat (j + 1) = Some y ∧ x < y).

Record csr_wf (a : CSR) : Prop := {
  cw_indptr : length (indptr a) = S (csr_rows a);
  cw_size : length (col_idx a) = length (csr_data a);
  cw_first : indptr a !! 0%nat = Some 0;
  cw_last : indptr a !! csr_rows a = Some (Z.of_nat (length (col_idx a)));
  cw_mono : ∀ i x y, indptr a !! i = Some x → indptr a !! S i = Some y → x ≤ y;
  cw_rows : ∀ i x y, indptr a !! i = Some x → indptr a !! S i = Some y → csr_row_ok a x y
}.

Lemma flag_kernel_normal n code bad out :
  code ≠ 0 → (flag_kernel n code bad out = Ok 0 ↔ out = 0 ∧ ∀ i, (i < n)%nat → bad i = Ok false).
Proof.
  intros Hc. unfold flag_kernel, for_range. replace (n - 0)%nat with n by lia.
  assert (∀ lo out, for_count lo n (fun i out => b ← bad i; Ok (if b : bool then code else out)) out = Ok 0 ↔
    out = 0 ∧ ∀ i, (lo ≤ i < lo + n)%nat → bad i = Ok false) as H.
  { clear out. induction n as [|n IH]; intros lo out; cbn [for_count].
    - split; [intros [= ->]; split; [done|intros; lia]|by intros [-> _]].
    - destruct (bad lo) as [[]|e] eqn:E; rstep.
      + rewrite IH. split; [by intros [? _]|]. intros [_ H]. by rewrite H in E by lia.
      + rewrite IH. split; intros [-> H]; (split; [done|]); intros i Hi; [|apply H; lia].
        destruct (decide (i = lo)) as [->|]; [done|apply H; lia].
      + split; [done|]. intros [_ H]. by rewrite H in E by lia. }
  rewrite H. split; intros [-> Hb]; (split; [done|]); intros i Hi; apply Hb; lia.
Qed.

Lemma CheckFormatRSP_wf a : CheckFormatRSPImpl a true = Ok kNormalErr ↔ rsp_wf a.
Proof.
  unfold CheckFormatRSPImpl, rsp_wf. destruct (Nat.eqb_spec (length (rsp_idx a)) (length (rsp_data a))) as [Hl|Hl]; cbn [negb]; [|split; [done|by intros [? _]]].
  rewrite orb_false_r. destruct (Nat.eqb_spec (length (rsp_idx a)) 0) as [H0|H0].
  { split; [|done]. intros _. apply nil_length_inv in H0 as E. rewrite E. split; [by rewrite <- Hl, E|]. split; [constructor|]. by intros x ?%not_elem_of_nil. }
  rewrite flag_kernel_normal by done. unfold rsp_idx_check. split.
  - intros [_ H]. split; [done|].
    assert (∀ i x, rsp_idx a !! i = Some x → 0 ≤ x < rsp_rows a ∧ ∀ y, rsp_idx a !! S i = Some y → x < y) as Hi.
    { intros i x Hx. pose proof (lookup_lt_Some _ _ _ Hx) as Hlt. specialize (H i Hlt). rewrite (rd_ok _ _ _ Hx) in H. rstep. cbn [mbind result_bind] in H.
      destruct (Nat.ltb_spec i (length (rsp_idx a) - 1)) as [Hn|Hn].
      - destruct (lookup_lt_is_Some_2 (rsp_idx a) (S i)) as [y Hy]; [lia|]. rewrite (rd_ok _ _ _ Hy) in H. cbn [mbind result_bind] in H. injection H as H.
        apply orb_false_iff in H as [H ?]. apply orb_false_iff in H as [? ?]. split; [lia|]. intros y' [= <-]%(fun E => eq_trans (eq_sym Hy) E). lia.
      - cbn [mbind result_bind] in H. injection H as H. apply orb_false_iff in H as [? ?]. split; [lia|]. intros y Hy. apply lookup_lt_Some in Hy. lia. }
    split; [|by intros x [i Hx]%list_elem_of_lookup; apply (Hi i)]. apply sorted_adjacent. intros i x y Hx. by apply Hi.
  - intros (_ & Hs & Hr). split; [done|]. intros i Hi. destruct (lookup_lt_is_Some_2 _ _ Hi) as [x Hx]. rewrite (rd_ok _ _ _ Hx). rstep.
    assert (0 ≤ x < rsp_rows a) as Hx' by (by apply Hr, (list_elem_of_lookup_2 _ i)).
    destruct (Nat.ltb_spec i (length (rsp_idx a) - 1)) as [Hn|Hn]; rstep.
    + destruct (lookup_lt_is_Some_2 (rsp_idx a) (S i)) as [y Hy]; [lia|]. rewrite (rd_ok _ _ _ Hy). rstep. f_equal.
      pose proof (proj1 (sorted_adjacent _) Hs _ _ _ Hx Hy). rewrite !orb_false_iff. repeat split; lia.
    + f_equal. rewrite !orb_false_iff. repeat split; lia.
Qed.

Lemma csr_row_check_ok a e n : ∀ j, 0 ≤ j → e = j + Z.of_nat n →
  csr_row_check n (col_idx a) (csr_cols a) e j = Ok false ↔ csr_row_ok a j e.
Proof.
  induction n as [|n IH]; intros j Hj He; cbn [csr_row_check]; [split; [intros _ i Hi; lia|done]|]. specialize (IH (j + 1) ltac:(lia) ltac:(lia)).
  assert (csr_row_ok a j e ↔ (∃ x, col_idx a !! Z.to_nat j = Some x ∧ 0 ≤ x < csr_cols a ∧ (j + 1 < e → ∃ y, col_idx a !! Z.to_nat (j + 1) = Some y ∧ x < y)) ∧
    csr_row_ok a (j + 1) e) as ->.
  { split; [intros H; split; [apply H; lia|intros i Hi; apply H; lia]|]. intros [H1 H2] i Hi. destruct (decide (i = j)) as [->|]; [done|apply H2; lia]. }
  rewrite <- IH. clear IH. split.
  - intros H. apply bind_Ok_inv in H as (x & Hx & H). apply rdz_inv in Hx as [_ Hx]. destruct ((csr_cols a <=? x) || (x <? 0)) eqn:Er; [done|].
    apply orb_false_iff in Er as [? ?]. destruct (Z.ltb_spec j (e - 1)) as [Hl|Hl].
    + apply bind_Ok_inv in H as (b & Hb & H). apply bind_Ok_inv in Hb as (y & Hy & [= <-]). apply rdz_inv in Hy as [_ Hy]. destruct (Z.leb_spec y x) as [|Hyx]; [done|].
      split; [|done]. exists x. repeat split; [done|lia|lia|]. intros _. by exists y.
    + cbn [mbind result_bind] in H. split; [|done]. exists x. repeat split; [done|lia|lia|]. lia.
  - intros [(x & Hx & Hr & Hn) H]. rewrite (rdz_ok _ _ _ Hj Hx). rstep. replace ((csr_cols a <=? x) || (x <? 0)) with false by (symmetry; apply orb_false_iff; lia).
    destruct (Z.ltb_spec j (e - 1)) as [Hl|Hl]; [|done]. destruct Hn as (y & Hy & Hxy); [lia|]. rewrite (rdz_ok (col_idx a) (j + 1) y) by (done || lia). rstep. by rewrite (proj2 (Z.leb_gt _ _)) by lia.
Qed.

Lemma mono_le (l : list Z) : (∀ i x y, l !! i = Some x → l !! S i = Some y → x ≤ y) →
  ∀ i j x y, (i ≤ j)%nat → l !! i = Some x → l !! j = Some y → x ≤ y.
Proof.
  intros H i j. induction j as [|j IH]; intros x y Hij Hx Hy.
  - assert (i = 0%nat) as -> by lia. simplify_eq. lia.
  - destruct (decide (i = S j)) as [->|]; [simplify_eq; lia|]. destruct (lookup_lt_is_Some_2 l j) as [z Hz]; [apply lookup_lt_Some in Hy; lia|].
    specialize (IH x z ltac:(lia) Hx Hz). specialize (H j z y Hz Hy). lia.
Qed.

(** What the first kernel checks. *)
Lemma csr_indptr_ok (l : list Z) rows size : length l = S rows → rows ≠ 0%nat →
  (∀ i, (i < rows)%nat → csr_indptr_check l rows size i = Ok false) ↔
  l !! 0%nat = Some 0 ∧ l !! rows = Some size ∧ ∀ i x y, l !! i = Some x → l !! S i = Some y → x ≤ y.
Proof.
  intros Hl Hr. unfold csr_indptr_check. split.
  - intros H.
    assert (∀ i x y, l !! i = Some x → l !! S i = Some y → 0 ≤ y ∧ x ≤ y ∧ (i = 0%nat → x = 0) ∧ (S i = rows → y = size)) as Hi.
    { intros i x y Hx Hy. apply lookup_lt_Some in Hy as Hlt. specialize (H i ltac:(lia)). rewrite (rd_ok _ _ _ Hx) in H. cbn [mbind result_bind] in H.
      rewrite (rd_ok _ _ _ Hy) in H. cbn [mbind result_bind] in H. destruct (Nat.eqb_spec i (rows - 1)) as [Ei|Ei].
      - assert (rows = S i) as Er by lia. rewrite Er in H at 1. rewrite (rd_ok _ _ _ Hy) in H. cbn [mbind result_bind] in H. injection H as H. rewrite !orb_false_iff in H.
        destruct H as (((? & ?) & Hf) & He). repeat split; [lia|lia| |lia]. intros ->. cbn in Hf. lia.
      - cbn [mbind result_bind] in H. injection H as H. rewrite !orb_false_iff in H. destruct H as (((? & ?) & Hf) & _). repeat split; [lia|lia| |lia]. intros ->. cbn in Hf. lia. }
    destruct (lookup_lt_is_Some_2 l 0) as [x Hx]; [lia|]. destruct (lookup_lt_is_Some_2 l 1) as [y Hy]; [lia|].
    destruct (lookup_lt_is_Some_2 l (rows - 1)) as [x' Hx']; [lia|]. destruct (lookup_lt_is_Some_2 l rows) as [y' Hy']; [lia|].
    split; [|split].
    + destruct (Hi 0%nat x y Hx Hy) as (_ & _ & E & _). by rewrite Hx, E.
    + destruct (Hi (rows - 1)%nat x' y' Hx') as (_ & _ & _ & E); [by replace (S (rows - 1)) with rows by lia|]. rewrite Hy', E by lia. done.
    + intros i a b Ha Hb. by destruct (Hi i a b Ha Hb) as (_ & ? & _).
  - intros (H0 & Hn & Hm) i Hi. destruct (lookup_lt_is_Some_2 l i) as [x Hx]; [lia|]. destruct (lookup_lt_is_Some_2 l (S i)) as [y Hy]; [lia|].
    rewrite (rd_ok _ _ _ Hx), (rd_ok _ _ _ Hy). rstep. pose proof (mono_le l Hm 0 i _ _ ltac:(lia) H0 Hx). pose proof (Hm i x y Hx Hy).
    destruct (Nat.eqb_spec i (rows - 1)) as [Ei|Ei].
    + rewrite (rd_ok _ _ _ Hn). rstep. f_equal. rewrite !orb_false_iff. repeat split; [lia|lia| |lia]. destruct i; [|done]. cbn. simplify_eq. done.
    + rstep. f_equal. rewrite !orb_false_iff. repeat split; [lia|lia| |lia]. destruct i; [|done]. cbn. simplify_eq. done.
Qed.

Lemma CheckFormatCSR_wf a : csr_rows a ≠ 0%nat → (CheckFormatCSRImpl a true = Ok kNormalErr ↔ csr_wf a).
Proof.
  intros Hrows. unfold CheckFormatCSRImpl. destruct (Nat.eqb_spec (length (indptr a)) (csr_rows a + 1)) as [Hl|Hl]; cbn [negb orb]; [|split; [done|intros []; lia]].
  destruct (Nat.eqb_spec (length (col_idx a)) (length (csr_data a))) as [Hd|Hd]; cbn [negb]; [|split; [done|by intros []]].
  replace (length (indptr a) - 1)%nat with (csr_rows a) by lia.
  pose proof (csr_indptr_ok (indptr a) (csr_rows a) (Z.of_nat (length (col_idx a))) ltac:(lia) Hrows) as Hip.
  pose proof (flag_kernel_normal (csr_rows a) kCSRIndPtrErr (csr_indptr_check (indptr a) (csr_rows a) (Z.of_nat (length (col_idx a)))) kNormalErr ltac:(done)) as Hf.
  assert (csr_wf a → flag_kernel (csr_rows a) kCSRIndPtrErr (csr_indptr_check (indptr a) (csr_rows a) (Z.of_nat (length (col_idx a)))) kNormalErr = Ok 0) as Hwf.
  { intros []. apply Hf. split; [done|]. by apply Hip. }
  assert (flag_kernel (csr_rows a) kCSRIndPtrErr (csr_indptr_check (indptr a) (csr_rows a) (Z.of_nat (length (col_idx a)))) kNormalErr = Ok 0 →
    (∀ i x y, indptr a !! i = Some x → indptr a !! S i = Some y → csr_row_ok a x y) → csr_wf a) as Hmk.
  { intros [_ (H1 & H2 & H3)%Hip]%Hf Hr. split; try done. lia. }
  destruct (flag_kernel _ kCSRIndPtrErr _ _) as [out|e]; rstep; [|split; [done|intros H; by apply Hwf in H]].
  destruct (Nat.eqb_spec (length (col_idx a)) 0) as [H0|H0].
  - split; [|by apply Hwf]. intros [= ->]. apply Hmk; [done|]. destruct Hf as [Hf _]. destruct (Hf eq_refl) as [_ (_ & H2 & H3)%Hip]. intros i x y Hx Hy j Hj.
    pose proof (mono_le _ H3 (S i) (csr_rows a) y _ ltac:(apply lookup_lt_Some in Hy; lia) Hy H2). destruct Hf as [_ Hf]; [done|].
    assert (0 ≤ x); [|lia]. apply (mono_le _ H3 0 i 0 x ltac:(lia)); [|done]. by apply Hip, Hf.
  - rewrite flag_kernel_normal by done. unfold csr_idx_check.
    assert (out = 0 → (∀ i, (i < csr_rows a)%nat → (x ← rd (indptr a) i; y ← rd (indptr a) (S i); csr_row_check (Z.to_nat (y - x)) (col_idx a) (csr_cols a) y x) = Ok false) ↔
      ∀ i x y, indptr a !! i = Some x → indptr a !! S i = Some y → csr_row_ok a x y) as Hrow.
    { intros ->. destruct Hf as [Hf _]. destruct (Hf eq_refl) as [_ (H1 & _ & H3)%Hip].
      assert (∀ i x y, indptr a !! i = Some x → indptr a !! S i = Some y →
        (x ← rd (indptr a) i; y ← rd (indptr a) (S i); csr_row_check (Z.to_nat (y - x)) (col_idx a) (csr_cols a) y x) = Ok false ↔ csr_row_ok a x y) as He.
      { intros i x y Hx Hy. rewrite (rd_ok _ _ _ Hx), (rd_ok _ _ _ Hy). rstep. pose proof (mono_le _ H3 0 i _ _ ltac:(lia) H1 Hx). pose proof (H3 i x y Hx Hy).
        apply csr_row_check_ok; lia. }
      split.
      - intros H i x y Hx Hy. apply (He i x y Hx Hy), H. apply lookup_lt_Some in Hy. lia.
      - intros H i Hi. destruct (lookup_lt_is_Some_2 (indptr a) i) as [x Hx]; [lia|]. destruct (lookup_lt_is_Some_2 (indptr a) (S i)) as [y Hy]; [lia|].
        apply (He i x y Hx Hy). by apply (H i). }
    split.
    + intros [-> H]. apply Hmk; [done|]. by apply Hrow.
    + intros H. specialize (Hwf H). injection Hwf as ->. split; [done|]. apply Hrow; [done|]. by destruct H.
Qed.

Lemma SyncCheckFormat_ok r : SyncCheckFormat r = Ok tt ↔ r = Ok kNormalErr.
Proof.
  split; [|by intros ->]. intros H. apply bind_Ok_inv in H as (e & -> & H). rinv H. unfold check in H. by destruct (Z.eqb_spec e kNormalErr) as [->|].
Qed.

Definition overrun_csr : CSR := {| csr_rows := 1; csr_cols := 3; indptr := [0; 5]; col_idx := [0]; csr_data := [f32_zero] |}.

(** C26: the full check of the format accepts exactly the well-formed arrays: for row-sparse
    arrays one row of data per index and strictly increasing indices in range, for CSR
    arrays row pointers that start at 0, do not decrease and end at the number of elements,
    and in every row strictly increasing columns in range.  For a CSR array whose last row
    pointer is too large the check itself reads behind the array of columns. *)
Theorem check_format :
  (∀ a, SyncCheckFormat (CheckFormatRSPImpl a true) = Ok tt ↔ rsp_wf a) ∧
  (∀ a, csr_rows a ≠ 0%nat → SyncCheckFormat (CheckFormatCSRImpl a true) = Ok tt ↔ csr_wf a) ∧
  SyncCheckFormat (CheckFormatCSRImpl overrun_csr true) = Err (Undefined "read out of range").
Proof.
  split; [|split].
  - intros a. by rewrite SyncCheckFormat_ok, CheckFormatRSP_wf.
  - intros a Ha. by rewrite SyncCheckFormat_ok, CheckFormatCSR_wf.
  - by vm_compute.
Qed.

Lemma check_format_witness :
  SyncCheckFormat (CheckFormatRSPImpl {| rsp_rows := 3; rsp_width := 0; rsp_idx := [0; 2]; rsp_data := [[]; []] |} true) = Ok tt.
Proof. apply (proj1 check_format). split; [done|]. split; [repeat constructor|]. intros x Hx. change (x ∈ [0; 2]) in Hx. rewrite !elem_of_cons, elem_of_nil in Hx. cbn. lia. Defined.

(** ** Conversions from and to dense matrices *)

(** The stored row with index [x], and the matrix a row-sparse array stands for. *)
Fixpoint lookup_row (idx : list Z) (data : list (list float)) (x : Z) : option (list float) :=
  match idx, data with
  | i :: idx, r :: data => if x =? i then Some r else lookup_row idx data x
  | _, _ => None
  end.
Definition row (a : RowSparse) (x : Z) : list float := default (replicate (rsp_width a) f32_zero) (lookup_row (rsp_idx a) (rsp_data a) x).
Definition dense (a : RowSparse) : list (list float) := (fun i => row a (Z.of_nat i)) <$> seq 0 (Z.to_nat (rsp_rows a)).

Lemma lookup_row_app i1 d1 i2 d2 x : length i1 = length d1 →
  lookup_row (i1 ++ i2) (d1 ++ d2) x = match lookup_row i1 d1 x with Some r => Some r | None => lookup_row i2 d2 x end.
Proof. revert d1. induction i1 as [|i i1 IH]; intros [|r d1] Hl; try done. cbn. destruct (x =? i); [done|]. apply IH. by injection Hl. Qed.

Lemma lookup_row_None idx data x : x ∉ idx → lookup_row idx data x = None.
Proof.
  revert data. induction idx as [|i idx IH]; intros [|r data] Hx; try done. cbn. apply not_elem_of_cons in Hx as [Hne Hx].
  rewrite (proj2 (Z.eqb_neq _ _)) by done. by apply IH.
Qed.

Lemma lookup_row_Some idx data p x r : NoDup idx → idx !! p = Some x → data !! p = Some r → lookup_row idx data x = Some r.
Proof.
  revert data p. induction idx as [|i idx IH]; intros [|r' data] p Hn Hx Hr; try done. cbn. apply NoDup_cons in Hn as [Hi Hn].
  destruct p as [|p]; cbn in Hx, Hr; [simplify_eq; by rewrite Z.eqb_refl|]. destruct (Z.eqb_spec x i) as [->|]; [by apply list_elem_of_lookup_2 in Hx|by apply (IH data p)].
Qed.

Lemma lookup_row_inv idx data x r : lookup_row idx data x = Some r → ∃ p, idx !! p = Some x ∧ data !! p = Some r.
Proof.
  revert data. induction idx as [|i idx IH]; intros [|r' data] H; try done. cbn in H. destruct (Z.eqb_spec x i) as [->|].
  - injection H as ->. by exists 0%nat.
  - destruct (IH _ H) as (p & ? & ?). by exists (S p).
Qed.

Lemma lookup_row_is_Some idx data x : length idx = length data → x ∈ idx → is_Some (lookup_row idx data x).
Proof.
  revert data. induction idx as [|i idx IH]; intros [|r data] Hl Hx; try done; [by apply not_elem_of_nil in Hx|]. cbn. destruct (Z.eqb_spec x i); [done|].
  apply elem_of_cons in Hx as [?|Hx]; [done|]. apply IH; [by injection Hl|done].
Qed.

Lemma dense_lookup a i : (i < Z.to_nat (rsp_rows a))%nat → dense a !! i = Some (row a (Z.of_nat i)).
Proof. intros Hi. unfold dense. by rewrite list_lookup_fmap, lookup_seq_lt by done. Qed.

Lemma rsp_dns a : rsp_wf a → CastStorageRspDnsImpl a = Ok (dense a).
Proof.
  intros (Hl & Hs & Hr). unfold CastStorageRspDnsImpl.
  apply (for_range_trace (fun k => (fun i => default (replicate (rsp_width a) f32_zero) (lookup_row (take k (rsp_idx a)) (take k (rsp_data a)) (Z.of_nat i))) <$> seq 0 (Z.to_nat (rsp_rows a)))); [lia| | |].
  - unfold zeros. apply list_eq. intros i. rewrite list_lookup_fmap. destruct (decide (i < Z.to_nat (rsp_rows a))%nat) as [Hi|Hi].
    + by rewrite lookup_replicate_2, lookup_seq_lt by lia.
    + rewrite lookup_seq_ge by lia. apply lookup_replicate_None. lia.
  - unfold dense, row. by rewrite !take_ge by lia.
  - intros k Hk. destruct (lookup_lt_is_Some_2 (rsp_idx a) k) as [x Hx]; [lia|]. destruct (lookup_lt_is_Some_2 (rsp_data a) k) as [r Hd]; [lia|].
    rewrite (rd_ok _ _ _ Hx), (rd_ok _ _ _ Hd). rstep. assert (0 ≤ x < rsp_rows a) as Hxr by (by apply Hr, (list_elem_of_lookup_2 _ k)).
    rewrite wrz_ok by (rewrite length_fmap, length_seq; lia). f_equal. apply list_eq. intros i.
    assert (∀ y, lookup_row (take (S k) (rsp_idx a)) (take (S k) (rsp_data a)) y =
      match lookup_row (take k (rsp_idx a)) (take k (rsp_data a)) y with Some r => Some r | None => if y =? x then Some r else None end) as Hrow.
    { intros y. rewrite (take_S_r _ _ _ Hx), (take_S_r _ _ _ Hd), lookup_row_app by (rewrite !length_take; lia). done. }
    destruct (decide (i < Z.to_nat (rsp_rows a))%nat) as [Hi|Hi].
    + rewrite (list_lookup_fmap _ _ i), (lookup_seq_lt 0) by done. cbn [fmap option_fmap option_map]. rewrite Hrow. destruct (decide (i = Z.to_nat x)) as [->|Hne].
      * rewrite list_lookup_insert_eq by (rewrite length_fmap, length_seq; lia). replace (Z.of_nat (0 + Z.to_nat x)) with x by lia. rewrite Z.eqb_refl.
        rewrite lookup_row_None; [done|]. intros [p Hp]%list_elem_of_lookup. apply lookup_take_Some in Hp as [Hp ?].
        pose proof (sorted_lookup_eq _ _ _ _ Hs Hp Hx). lia.
      * rewrite list_lookup_insert_ne by done. rewrite list_lookup_fmap, lookup_seq_lt by done. cbn. rewrite (proj2 (Z.eqb_neq _ _)) by lia. by destruct (lookup_row _ _ _).
    + rewrite !lookup_ge_None_2; [done|rewrite ?length_insert, length_fmap, length_seq; lia..].
Qed.

(** *** Dense to row-sparse *)
Section DnsRsp.
Context (dns : list (list float)).

Definition marked (i : nat) : bool := existsb nonzero (default [] (dns !! i)).
(** The marked rows among the first [n]. *)
Definition nz_rows (n : nat) : list nat := List.filter marked (seq 0 n).

Lemma nz_rows_S n : nz_rows (S n) = nz_rows n ++ (if marked n then [n] else []).
Proof. unfold nz_rows. rewrite seq_S, List.filter_app. cbn. by destruct (marked n). Qed.

Lemma nz_rows_length n : (length (nz_rows n) ≤ n)%nat.
Proof. unfold nz_rows. pose proof (List.filter_length_le marked (seq 0 n)) as H. by rewrite length_seq in H. Qed.

Lemma nz_rows_elem n i : i ∈ nz_rows n ↔ (i < n)%nat ∧ marked i = true.
Proof. unfold nz_rows. rewrite list_elem_of_In, List.filter_In, <- list_elem_of_In, elem_of_seq. split; intros [? ?]; (split; [lia|done]). Qed.

Lemma nz_rows_sorted n : StronglySorted Z.lt (Z.of_nat <$> nz_rows n).
Proof.
  induction n as [|n IH]; [constructor|]. rewrite nz_rows_S, fmap_app. destruct (marked n); [|by rewrite app_nil_r]. cbn.
  apply StronglySorted_app. split; [|split; [done|repeat constructor]]. intros x y (i & -> & Hi)%list_elem_of_fmap ->%list_elem_of_singleton.
  apply nz_rows_elem in Hi. lia.
Qed.

Lemma marks_sum n : (n ≤ length dns)%nat → zsum (MarkRspRowIdx <$> take n dns) = Z.of_nat (length (nz_rows n)).
Proof.
  induction n as [|n IH]; intros Hn; [done|]. destruct (lookup_lt_is_Some_2 dns n) as [r Hr]; [lia|]. rewrite (take_S_r _ _ _ Hr), fmap_app, zsum_app, IH by lia.
  rewrite nz_rows_S, length_app. unfold marked, MarkRspRowIdx. rewrite Hr. cbn. destruct (existsb nonzero r); cbn; lia.
Qed.

Lemma take_insert_next {A} (l : list A) k x : (k < length l)%nat → take (S k) (<[k := x]> l) = take k l ++ [x].
Proof. intros Hk. rewrite (take_S_r _ _ x) by (by apply list_lookup_insert_eq). by rewrite take_insert_ge by lia. Qed.

(** The array the conversion makes. *)
Definition to_rsp (width : nat) : RowSparse :=
  {| rsp_rows := Z.of_nat (length dns); rsp_width := width; rsp_idx := Z.of_nat <$> nz_rows (length dns);
     rsp_data := (fun i => default [] (dns !! i)) <$> nz_rows (length dns) |}.

Lemma dns_rsp width : CastStorageDnsRspImpl width dns = Ok (to_rsp width).
Proof.
  unfold CastStorageDnsRspImpl, to_rsp. pose proof (marks_sum (length dns) ltac:(lia)) as Hz. rewrite take_ge in Hz by lia. rewrite Hz, Nat2Z.id.
  set (N := length dns). set (nnr := length (nz_rows N)). destruct (Nat.eqb_spec nnr 0) as [H0|H0].
  { apply nil_length_inv in H0. by rewrite H0. }
  match goal with |- context [for_range 0 N ?body ?a] => destruct (for_range_ok (fun n (st : list Z * list (list float) * nat) =>
    length st.1.1 = N ∧ length st.1.2 = nnr ∧ st.2 = length (nz_rows n) ∧ (∀ k, (n ≤ k)%nat → st.1.1 !! k = (MarkRspRowIdx <$> dns) !! k) ∧
    take st.2 st.1.1 = Z.of_nat <$> nz_rows n ∧ take st.2 st.1.2 = (fun i => default [] (dns !! i)) <$> nz_rows n) 0 N body a) as ([[ri da] ix] & E & H1 & H2 & H3 & _ & H4 & H5) end.
  - lia.
  - cbn [fst snd]. rewrite length_fmap, length_replicate. done.
  - intros n [[ri da] ix] Hn (H1 & H2 & H3 & H4 & H5 & H6). cbn [fst snd] in *. destruct (lookup_lt_is_Some_2 dns n) as [r Hr]; [lia|].
    assert (ri !! n = Some (MarkRspRowIdx r)) as Hm by (rewrite H4, list_lookup_fmap, Hr by lia; done). rewrite (rd_ok _ _ _ Hm). rstep. pose proof (nz_rows_length n) as Hle.
    pose proof (nz_rows_S n) as HS. unfold marked in HS. rewrite Hr in HS. cbn [default id] in HS. unfold MarkRspRowIdx. destruct (existsb nonzero r) eqn:Er; cbn [Z.ltb].
    + change (0 <? 1) with true. cbn iota. assert (ix < nnr)%nat as Hix.
      { subst nnr. assert (n ∈ nz_rows N) as Hin by (apply nz_rows_elem; unfold marked; rewrite Hr; split; [lia|done]).
        assert (nz_rows N = nz_rows n ++ drop (length (nz_rows n)) (nz_rows N)) as Happ.
        { rewrite <- (take_drop (length (nz_rows n)) (nz_rows N)) at 1. f_equal. unfold nz_rows. replace N with (n + (N - n))%nat by lia. rewrite seq_app, List.filter_app. by rewrite take_app_length. }
        rewrite Happ, length_app. rewrite Happ in Hin. apply elem_of_app in Hin as [Hin|Hin]; [apply nz_rows_elem in Hin; lia|].
        destruct (drop (length (nz_rows n)) (nz_rows N)); [by apply not_elem_of_nil in Hin|]. cbn. lia. }
      rewrite wr_ok by lia. rstep. rewrite (rd_ok _ _ _ Hr). rstep. rewrite wr_ok by lia. rstep. eexists. split; [done|]. cbn [fst snd]. rewrite !length_insert, HS, length_app, !fmap_app.
      cbn [length fmap list_fmap]. rewrite Hr. cbn [default id]. repeat split; [done|done|lia| | |].
      * intros k Hk. rewrite list_lookup_insert_ne by lia. apply H4. lia.
      * rewrite take_insert_next by lia. by rewrite H5.
      * rewrite take_insert_next by lia. by rewrite H6.
    + change (0 <? 0) with false. cbn iota. eexists. split; [done|]. cbn [fst snd]. rewrite HS, app_nil_r. repeat split; try done. intros k Hk. apply H4. lia.
  - rewrite E. rstep. cbn [fst snd] in *. do 2 f_equal; [by rewrite <- H4, H3|]. rewrite <- H5, H3. by rewrite take_ge by lia.
Qed.

Lemma to_rsp_wf width : rsp_wf (to_rsp width).
Proof.
  split; [by cbn; rewrite !length_fmap|]. split; [apply nz_rows_sorted|]. cbn. intros x (i & -> & Hi)%list_elem_of_fmap. apply nz_rows_elem in Hi. lia.
Qed.

(** A row without a non-zero element becomes a row of zeros. *)
Definition canon_row (width : nat) (r : list float) : list float := if existsb nonzero r then r else replicate width f32_zero.

Lemma row_to_rsp width i r : dns !! i = Some r → row (to_rsp width) (Z.of_nat i) = canon_row width r.
Proof.
  intros Hr. unfold row, canon_row. cbn [to_rsp rsp_idx rsp_data rsp_width]. destruct (existsb nonzero r) eqn:E.
  - assert (i ∈ nz_rows (length dns)) as [p Hp]%list_elem_of_lookup by (apply nz_rows_elem; split; [by apply lookup_lt_Some in Hr|unfold marked; by rewrite Hr]).
    rewrite (lookup_row_Some _ _ p _ r); [done|by apply sorted_lt_nodup, nz_rows_sorted|by rewrite list_lookup_fmap, Hp|by rewrite list_lookup_fmap, Hp; cbn; rewrite Hr].
  - rewrite lookup_row_None; [done|]. intros (j & Hj & Hin)%list_elem_of_fmap. assert (j = i) as -> by lia. apply nz_rows_elem in Hin as [_ Hm]. unfold marked in Hm. rewrite Hr in Hm. cbn in Hm. congruence.
Qed.

Lemma dense_to_rsp width : dense (to_rsp width) = canon_row width <$> dns.
Proof.
  apply list_eq. intros i. rewrite list_lookup_fmap. destruct (dns !! i) as [r|] eqn:E.
  - rewrite dense_lookup by (cbn; apply lookup_lt_Some in E; lia). by rewrite (row_to_rsp width i r E).
  - apply lookup_ge_None in E. apply lookup_ge_None_2. unfold dense. rewrite length_fmap, length_seq. cbn. lia.
Qed.
End DnsRsp.

(** Converting back restores an array without zero rows. *)
Lemma to_rsp_dense a : rsp_wf a → 0 ≤ rsp_rows a → (∀ r, r ∈ rsp_data a → existsb nonzero r = true) → to_rsp (dense a) (rsp_width a) = a.
Proof.
  intros (Hl & Hs & Hr) Hrows Hnz. assert (length (dense a) = Z.to_nat (rsp_rows a)) as Hlen by (unfold dense; by rewrite length_fmap, length_seq).
  assert (existsb nonzero (replicate (rsp_width a) f32_zero) = false) as Hz by (induction (rsp_width a); [done|by cbn]).
  assert (Z.of_nat <$> nz_rows (dense a) (length (dense a)) = rsp_idx a) as Hidx.
  { apply sorted_lt_unique; [apply nz_rows_sorted|done|]. intros x. rewrite list_elem_of_fmap. split.
    - intros (i & -> & [Hi Hm]%nz_rows_elem). unfold marked in Hm. rewrite dense_lookup in Hm by lia. cbn in Hm. unfold row in Hm.
      destruct (lookup_row (rsp_idx a) (rsp_data a) (Z.of_nat i)) as [r|] eqn:E; [|cbn in Hm; congruence].
      apply lookup_row_inv in E as (p & Hp & _). by apply list_elem_of_lookup_2 in Hp.
    - intros Hx. pose proof (Hr x Hx). exists (Z.to_nat x). split; [lia|]. apply nz_rows_elem. split; [lia|]. unfold marked. rewrite dense_lookup by lia. cbn. unfold row.
      rewrite Z2Nat.id by lia. destruct (lookup_row_is_Some (rsp_idx a) (rsp_data a) x Hl Hx) as [r E]. rewrite E. cbn. apply Hnz.
      apply lookup_row_inv in E as (p & _ & Hp). by apply list_elem_of_lookup_2 in Hp. }
  unfold to_rsp. rewrite Hidx. destruct a as [rows width idx data]. cbn [rsp_rows rsp_width rsp_idx rsp_data] in *. f_equal; [lia|].
  apply list_eq. intros p. rewrite list_lookup_fmap. destruct (nz_rows (dense _) _ !! p) as [i|] eqn:Ei.
  - assert (idx !! p = Some (Z.of_nat i)) as Hp by (rewrite <- Hidx, list_lookup_fmap, Ei; done). destruct (lookup_lt_is_Some_2 data p) as [r Hd]; [apply lookup_lt_Some in Hp; lia|].
    cbn. rewrite dense_lookup by (apply list_elem_of_lookup_2, nz_rows_elem in Ei as [Ei _]; cbn [rsp_rows]; lia). cbn. rewrite Hd. unfold row. cbn.
    by rewrite (lookup_row_Some _ _ p _ r (sorted_lt_nodup _ Hs) Hp Hd).
  - apply lookup_ge_None in Ei. symmetry. apply lookup_ge_None. rewrite <- Hl, <- Hidx, length_fmap. done.
Qed.

(** *** Dense and CSR *)

(** The non-zero elements of a row with their columns. *)
Definition nz_pairs (r : list float) : list (Z * float) := List.filter (fun p => nonzero p.2) (imap (fun j x => (Z.of_nat j, x)) r).
Definition canon (x : float) : float := if nonzero x then x else f32_zero.
Definition canon_matrix (dns : list (list float)) : list (list float) := (fun r : list float => (canon <$> r : list float)) <$> dns.

Lemma nz_pairs_take r j x : r !! j = Some x → nz_pairs (take (S j) r) = nz_pairs (take j r) ++ (if nonzero x then [(Z.of_nat j, x)] else []).
Proof.
  intros Hx. unfold nz_pairs. rewrite (take_S_r _ _ _ Hx), imap_app, List.filter_app. f_equal. cbn. rewrite length_take.
  apply lookup_lt_Some in Hx. replace (j `min` length r + 0)%nat with j by lia. by destruct (nonzero x).
Qed.

Lemma nz_pairs_prefix r j : ∃ l, nz_pairs r = nz_pairs (take j r) ++ l.
Proof.
  eexists. rewrite <- (take_drop j r) at 1. unfold nz_pairs. rewrite imap_app, List.filter_app. done.
Qed.

Lemma nz_pairs_count r : FillCsrIndPtr r = Z.of_nat (length (nz_pairs r)).
Proof.
  unfold FillCsrIndPtr, nz_pairs. f_equal. assert (∀ k, length (List.filter nonzero r) = length (List.filter (fun p : Z * float => nonzero p.2) (imap (fun j x => (Z.of_nat (k + j), x)) r))) as H; [|apply (H 0%nat)].
  induction r as [|x r IH]; intros k; [done|]. rewrite imap_cons. cbn [List.filter snd].
  specialize (IH (S k)). assert (imap (fun j x => (Z.of_nat (S k + j), x)) r = imap ((fun j x => (Z.of_nat (k + j), x)) ∘ S) r) as E by (apply imap_ext; intros; cbn; do 2 f_equal; lia). rewrite E in IH.
  destruct (nonzero x); cbn [length]; by rewrite IH.
Qed.

Lemma nz_pairs_sorted r : StronglySorted Z.lt (fst <$> nz_pairs r) ∧ ∀ p, p ∈ nz_pairs r → 0 ≤ p.1 < Z.of_nat (length r).
Proof.
  assert (∀ n, (n ≤ length r)%nat → StronglySorted Z.lt (fst <$> nz_pairs (take n r)) ∧ ∀ p, p ∈ nz_pairs (take n r) → 0 ≤ p.1 < Z.of_nat n) as H.
  { induction n as [|n IH]; intros Hn; [split; [constructor|by intros p ?%not_elem_of_nil]|]. destruct IH as [Hs Hr]; [lia|].
    destruct (lookup_lt_is_Some_2 r n) as [x Hx]; [lia|]. rewrite (nz_pairs_take _ _ _ Hx). destruct (nonzero x).
    - split.
      + rewrite fmap_app. apply StronglySorted_app. split; [|split; [done|repeat constructor]]. intros a b (p & -> & Hp)%list_elem_of_fmap ->%list_elem_of_singleton. apply Hr in Hp. cbn. lia.
      + intros p [Hp| ->%list_elem_of_singleton]%elem_of_app; [apply Hr in Hp; lia|cbn; lia].
    - rewrite app_nil_r. split; [done|]. intros p Hp%Hr. lia. }
  specialize (H (length r) ltac:(lia)). by rewrite take_ge in H by lia.
Qed.

(** Writing the pairs of a row over zeros gives the row. *)
Lemma write_pairs r n width : (n ≤ length r)%nat → (length r ≤ width)%nat →
  foldM (fun row (p : Z * float) => wrz row p.1 p.2) (replicate width f32_zero) (nz_pairs (take n r)) = Ok ((canon <$> take n r) ++ replicate (width - n) f32_zero).
Proof.
  intros Hn Hw. induction n as [|n IH]; [cbn; by rewrite Nat.sub_0_r|]. destruct (lookup_lt_is_Some_2 r n) as [x Hx]; [lia|].
  rewrite (nz_pairs_take _ _ _ Hx), foldM_app, IH by lia. rstep. rewrite (take_S_r _ _ _ Hx), fmap_app. replace (width - n)%nat with (S (width - S n)) by lia.
  assert (length (canon <$> take n r) = n) as Hl by (rewrite length_fmap, length_take; lia). assert (canon x = if nonzero x then x else f32_zero) as Hc by done.
  rewrite <- (assoc_L (++)). cbn [fmap list_fmap app replicate]. destruct (nonzero x); rewrite Hc; cbn [foldM]; [|done].
  rewrite wrz_ok by (rewrite length_app, Hl; cbn [fst length]; lia). rstep. f_equal. cbn [fst snd]. rewrite Nat2Z.id. rewrite insert_app_r_alt by lia. by rewrite Hl, Nat.sub_diag.
Qed.

Section DnsCsr.
Context (dns : list (list float)) (num_cols : nat).
Hypothesis Hshape : Forall (fun r => length r = num_cols) dns.

Lemma row_length i r : dns !! i = Some r → length r = num_cols.
Proof. intros Hr. rewrite Forall_lookup in Hshape. by apply (Hshape i). Qed.

Definition all_pairs : list (Z * float) := mjoin (nz_pairs <$> dns).
Definition psum (i : nat) : nat := length (mjoin (nz_pairs <$> take i dns)).

Lemma psum_S i r : dns !! i = Some r → psum (S i) = (psum i + length (nz_pairs r))%nat.
Proof. intros Hr. unfold psum. rewrite (take_S_r _ _ _ Hr), fmap_app, join_app, length_app. cbn. by rewrite app_nil_r. Qed.

Lemma psum_all : psum (length dns) = length all_pairs.
Proof. unfold psum. by rewrite take_ge by lia. Qed.

(** The pairs of row [i] in all pairs. *)
Lemma all_pairs_row i r : dns !! i = Some r → ∃ l1 l2, all_pairs = l1 ++ nz_pairs r ++ l2 ∧ length l1 = psum i.
Proof.
  intros Hr. exists (mjoin (nz_pairs <$> take i dns)), (mjoin (nz_pairs <$> drop (S i) dns)). split; [|done].
  unfold all_pairs. rewrite <- (take_drop_middle dns i r Hr) at 1. by rewrite fmap_app, join_app.
Qed.

Lemma all_pairs_at i r j x : dns !! i = Some r → r !! j = Some x → nonzero x = true →
  all_pairs !! (psum i + length (nz_pairs (take j r)))%nat = Some (Z.of_nat j, x).
Proof.
  intros Hr Hx Hnz. destruct (all_pairs_row i r Hr) as (l1 & l2 & -> & Hl). destruct (nz_pairs_prefix r (S j)) as [l3 ->]. rewrite (nz_pairs_take _ _ _ Hx), Hnz.
  rewrite lookup_app_r by lia. replace (psum i + length (nz_pairs (take j r)) - length l1)%nat with (length (nz_pairs (take j r))) by lia.
  rewrite <- !(assoc_L (++)). by apply list_lookup_middle.
Qed.

Definition to_csr : CSR := {| csr_rows := length dns; csr_cols := Z.of_nat num_cols; indptr := (fun i => Z.of_nat (psum i)) <$> seq 0 (S (length dns));
  col_idx := fst <$> all_pairs; csr_data := snd <$> all_pairs |}.

Lemma indptr_at i : (i ≤ length dns)%nat → indptr to_csr !! i = Some (Z.of_nat (psum i)).
Proof. intros Hi. cbn [to_csr indptr]. by rewrite list_lookup_fmap, lookup_seq_lt by lia. Qed.

(** The row pointers are the sums of the counts. *)
Lemma accumulate : for_range 0 (length dns) (fun i l => x ← rd l i; y ← rd l (S i); wr l (S i) (y + x)) (0 :: (FillCsrIndPtr <$> dns)) = Ok (indptr to_csr).
Proof.
  apply (for_range_trace (fun n => ((fun i => Z.of_nat (psum i)) <$> seq 0 (S n)) ++ (FillCsrIndPtr <$> drop n dns))); [lia|done| |].
  - rewrite drop_ge by lia. by rewrite app_nil_r.
  - intros n Hn. destruct (lookup_lt_is_Some_2 dns n) as [r Hr]; [lia|]. rewrite (drop_S _ _ _ Hr). cbn [fmap list_fmap].
    assert (length ((fun i => Z.of_nat (psum i)) <$> seq 0 (S n)) = S n) as Hl by (by rewrite length_fmap, length_seq).
    rewrite (rd_ok _ n (Z.of_nat (psum n))) by (rewrite lookup_app_l by lia; by rewrite list_lookup_fmap, lookup_seq_lt by lia). rstep.
    rewrite (rd_ok _ (S n) (FillCsrIndPtr r)) by (rewrite lookup_app_r by lia; by rewrite Hl, Nat.sub_diag). rstep.
    rewrite wr_ok by (rewrite length_app, Hl; cbn; lia). f_equal. rewrite insert_app_r_alt by lia. rewrite Hl, Nat.sub_diag. cbn [insert list_insert].
    rewrite (seq_S (S n)), fmap_app, <- (assoc_L (++)). cbn [fmap list_fmap app Nat.add]. do 2 f_equal. rewrite (psum_S _ _ Hr), nz_pairs_count. lia.
Qed.

Lemma dns_csr : CastStorageDnsCsrImpl num_cols dns = Ok to_csr.
Proof.
  unfold CastStorageDnsCsrImpl. rewrite accumulate. rstep. rewrite (rd_ok _ _ _ (indptr_at (length dns) ltac:(lia))). rstep. rewrite Nat2Z.id, psum_all.
  set (n := length all_pairs). set (vals := snd <$> all_pairs). set (cols := fst <$> all_pairs).
  assert (length vals = n ∧ length cols = n) as [Hv Hc] by (subst vals cols n; by rewrite !length_fmap).
  rewrite (for_range_trace (fun i => (sofar vals (replicate n S754_nan) (psum i), sofar cols (replicate n 0) (psum i))) 0 (length dns) _ _ (vals, cols)); [done|lia|done| |].
  - rewrite psum_all. rewrite !sofar_all by (rewrite ?length_replicate; lia). done.
  - intros i Hi. unfold FillCsrColIdxAndVals. destruct (lookup_lt_is_Some_2 dns i) as [r Hr]; [lia|]. rewrite (rd_ok _ _ _ Hr). rstep. rewrite (rd_ok _ _ _ (indptr_at i ltac:(lia))). rstep.
    pose proof (row_length i r Hr) as Hlr.
    pose (k j := (psum i + length (nz_pairs (take j r)))%nat). cbn [fst snd].
    rewrite (for_range_trace (fun j => (sofar vals (replicate n S754_nan) (k j), sofar cols (replicate n 0) (k j), Z.of_nat (k j))) 0 num_cols _ _
      (sofar vals (replicate n S754_nan) (psum (S i)), sofar cols (replicate n 0) (psum (S i)), Z.of_nat (psum (S i)))); [done|lia| | |].
    + unfold k. cbn. by rewrite Nat.add_0_r.
    + unfold k. rewrite take_ge by lia. by rewrite (psum_S _ _ Hr).
    + intros j Hj. destruct (lookup_lt_is_Some_2 r j) as [x Hx]; [lia|]. rewrite (rd_ok _ _ _ Hx). rstep. pose proof (nz_pairs_take _ _ _ Hx) as HS. destruct (nonzero x) eqn:E.
      * pose proof (all_pairs_at i r j x Hr Hx E) as Hat. fold (k j) in Hat. assert (vals !! k j = Some x) as Hva by (subst vals; by rewrite list_lookup_fmap, Hat).
        assert (cols !! k j = Some (Z.of_nat j)) as Hca by (subst cols; by rewrite list_lookup_fmap, Hat). apply lookup_lt_Some in Hva as Hlt.
        assert (k (S j) = S (k j)) as Hk by (unfold k; rewrite HS, length_app; cbn; lia).
        rewrite wrz_ok by (rewrite length_sofar; rewrite ?length_replicate; lia). rstep. rewrite wrz_ok by (rewrite length_sofar; rewrite ?length_replicate; lia). rstep.
        rewrite Nat2Z.id, (sofar_step _ _ _ x), (sofar_step _ _ _ (Z.of_nat j)) by (rewrite ?length_replicate; done). rewrite Hk. do 2 f_equal. lia.
      * assert (k (S j) = k j) as -> by (unfold k; rewrite HS, app_nil_r; done). done.
Qed.

Lemma to_csr_row_ok i r : dns !! i = Some r → csr_row_ok to_csr (Z.of_nat (psum i)) (Z.of_nat (psum (S i))).
Proof.
  intros Hr j Hj. rewrite (psum_S _ _ Hr) in Hj |- *. destruct (all_pairs_row i r Hr) as (l1 & l2 & He & Hl). destruct (nz_pairs_sorted r) as [Hs Hrange].
  pose proof (row_length i r Hr) as Hlr. cbn [to_csr col_idx csr_cols].
  assert (∀ j, Z.of_nat (psum i) ≤ j < Z.of_nat (psum i + length (nz_pairs r)) → ∃ p, (fst <$> all_pairs) !! Z.to_nat j = Some p.1 ∧ nz_pairs r !! (Z.to_nat j - psum i)%nat = Some p) as Hat.
  { intros j' Hj'. destruct (lookup_lt_is_Some_2 (nz_pairs r) (Z.to_nat j' - psum i)) as [p Hp]; [lia|]. exists p. split; [|done].
    rewrite list_lookup_fmap, He, lookup_app_r by lia. rewrite Hl, lookup_app_l by (apply lookup_lt_Some in Hp; lia). by rewrite Hp. }
  destruct (Hat j) as (p & Hp & Hp'); [lia|]. exists p.1. split; [done|]. apply list_elem_of_lookup_2 in Hp' as Hin. apply Hrange in Hin. split; [lia|].
  intros Hn. destruct (Hat (j + 1)) as (q & Hq & Hq'); [lia|]. exists q.1. split; [done|].
  apply (sorted_lookup_lt _ Hs (Z.to_nat j - psum i)%nat (Z.to_nat (j + 1) - psum i)%nat); [by rewrite list_lookup_fmap, Hp'|by rewrite list_lookup_fmap, Hq'|lia].
Qed.

Lemma to_csr_wf : csr_wf to_csr.
Proof.
  assert (∀ i x y, indptr to_csr !! i = Some x → indptr to_csr !! S i = Some y → ∃ r, dns !! i = Some r ∧ x = Z.of_nat (psum i) ∧ y = Z.of_nat (psum (S i))) as Hi.
  { intros i x y Hx Hy. assert (S i ≤ length dns)%nat as Hlt by (apply lookup_lt_Some in Hy; cbn in Hy; rewrite length_fmap, length_seq in Hy; lia).
    rewrite indptr_at in Hx, Hy by lia. destruct (lookup_lt_is_Some_2 dns i) as [r Hr]; [lia|]. exists r. by simplify_eq. }
  split.
  - cbn. by rewrite length_fmap, length_seq.
  - cbn. by rewrite !length_fmap.
  - by rewrite indptr_at by lia.
  - cbn [csr_rows to_csr]. rewrite indptr_at by done. cbn. by rewrite length_fmap, psum_all.
  - intros i x y Hx Hy. destruct (Hi i x y Hx Hy) as (r & Hr & -> & ->). rewrite (psum_S _ _ Hr). lia.
  - intros i x y Hx Hy. destruct (Hi i x y Hx Hy) as (r & Hr & -> & ->). by apply (to_csr_row_ok i r).
Qed.

(** Reading the columns and values of a segment is a fold over its pairs. *)
Lemma segment_fold (l1 ps l2 : list (Z * float)) (init : list float) :
  for_range (length l1) (length l1 + length ps) (fun j row => c ← rd (fst <$> (l1 ++ ps ++ l2)) j; v ← rd (snd <$> (l1 ++ ps ++ l2)) j; wrz row c v) init =
  foldM (fun row (p : Z * float) => wrz row p.1 p.2) init ps.
Proof.
  unfold for_range. replace (length l1 + length ps - length l1)%nat with (length ps) by lia. revert l1 init. induction ps as [|p ps IH]; intros l1 init; [done|]. cbn [length for_count foldM].
  rewrite !(rd_ok _ _ _ (ltac:(rewrite list_lookup_fmap, list_lookup_middle; done) : (_ <$> (l1 ++ p :: ps ++ l2)) !! length l1 = Some _)). rstep. destruct (wrz init p.1 p.2) as [row'|e]; rstep; [|done].
  specialize (IH (l1 ++ [p]) row'). rewrite length_app in IH. cbn in IH. replace (length l1 + 1)%nat with (S (length l1)) in IH by lia. by rewrite <- (assoc_L (++)) in IH.
Qed.

Lemma csr_dns : CastStorageCsrDnsImpl to_csr = Ok (canon_matrix dns).
Proof.
  assert (∀ r, nz_pairs r = [] → canon <$> r = replicate (length r) f32_zero) as Hempty.
  { intros r Hr. pose proof (write_pairs r (length r) (length r) ltac:(lia) ltac:(lia)) as H. rewrite take_ge, Hr, Nat.sub_diag in H by lia. cbn in H. rewrite app_nil_r in H. by injection H. }
  pose proof row_length as Hlr.
  unfold CastStorageCsrDnsImpl. cbn [to_csr col_idx csr_rows csr_cols]. rewrite Nat2Z.id, length_fmap. destruct (Nat.eqb_spec (length all_pairs) 0) as [H0|H0].
  - f_equal. unfold zeros, canon_matrix. apply list_eq. intros i. rewrite list_lookup_fmap. destruct (dns !! i) as [r|] eqn:Hr.
    + rewrite lookup_replicate_2 by (by apply lookup_lt_Some in Hr). cbn. f_equal. rewrite <- (Hlr i r Hr). symmetry. apply Hempty. destruct (all_pairs_row i r Hr) as (l1 & l2 & He & _).
      apply nil_length_inv in H0. rewrite He in H0. by apply app_eq_nil in H0 as [_ [? _]%app_eq_nil].
    + apply lookup_ge_None in Hr. apply lookup_replicate_None. lia.
  - apply (for_range_trace (fun i => sofar (canon_matrix dns) (zeros (length dns) num_cols) i)); [lia|done| |].
    + rewrite sofar_all; [done|by unfold zeros, canon_matrix; rewrite length_fmap, length_replicate|unfold zeros; rewrite length_replicate; lia].
    + intros i Hi. destruct (lookup_lt_is_Some_2 dns i) as [r Hr]; [lia|]. unfold CopyCsrDataToDns. rewrite (rd_ok _ _ _ (indptr_at i ltac:(lia))), (rd_ok _ _ _ (indptr_at (S i) ltac:(lia))). rstep.
      rewrite (rd_ok _ i (replicate num_cols f32_zero)) by (rewrite sofar_lookup by (unfold canon_matrix; rewrite length_fmap; lia); unfold zeros; apply lookup_replicate_2; lia). rstep. rewrite !Nat2Z.id, (psum_S _ _ Hr).
      cbn [to_csr col_idx csr_data]. destruct (all_pairs_row i r Hr) as (l1 & l2 & -> & <-). rewrite segment_fold.
      pose proof (write_pairs r (length r) num_cols ltac:(lia) ltac:(rewrite (Hlr i r Hr); lia)) as Hw. rewrite take_ge in Hw by lia. rewrite Hw, (Hlr i r Hr), Nat.sub_diag. rstep. cbn [replicate]. rewrite app_nil_r.
      rewrite wr_ok by (rewrite length_sofar; unfold zeros, canon_matrix; rewrite ?length_fmap, ?length_replicate; lia). f_equal. apply sofar_step; [by unfold zeros, canon_matrix; rewrite length_fmap, length_replicate|by unfold canon_matrix; rewrite list_lookup_fmap, Hr].
Qed.
End DnsCsr.

(** Conversions between dense and sparse matrices lose nothing but the sign of zeros.
    Dense to row-sparse and back replaces rows without a non-zero element by zeros and
    keeps all others; dense to CSR and back replaces zeros by positive zeros and keeps all
    other elements; both conversions succeed and make well-formed arrays.  Row-sparse to
    dense and back restores an array without zero rows exactly. *)
Theorem cast_storage_roundtrip (dns : list (list float)) (num_cols : nat) (a : RowSparse) :
  Forall (fun r => length r = num_cols) dns →
  rsp_wf a → 0 ≤ rsp_rows a → (∀ r, r ∈ rsp_data a → existsb nonzero r = true) →
  (∃ b, CastStorageDnsRspImpl num_cols dns = Ok b ∧ rsp_wf b ∧ CastStorageRspDnsImpl b = Ok (canon_row num_cols <$> dns)) ∧
  (∃ c, CastStorageDnsCsrImpl num_cols dns = Ok c ∧ csr_wf c ∧ CastStorageCsrDnsImpl c = Ok (canon_matrix dns)) ∧
  (∃ d, CastStorageRspDnsImpl a = Ok d ∧ CastStorageDnsRspImpl (rsp_width a) d = Ok a).
Proof.
  intros Hd Ha Hr Hnz. split; [|split].
  - exists (to_rsp dns num_cols). split; [apply dns_rsp|]. split; [apply to_rsp_wf|]. rewrite rsp_dns by apply to_rsp_wf. by rewrite dense_to_rsp.
  - exists (to_csr dns num_cols). split; [by apply dns_csr|]. split; [by apply to_csr_wf|by apply csr_dns].
  - exists (dense a). split; [by apply rsp_dns|]. rewrite dns_rsp. by rewrite to_rsp_dense.
Qed.

Definition w_one : float := f32_of_Z 1.
Definition w_dense : list (list float) := [[f32_zero; w_one]; [f32_zero; S754_zero true]; [w_one; f32_zero]].
Definition w_rsp : RowSparse := {| rsp_rows := 5; rsp_width := 2; rsp_idx := [1; 4]; rsp_data := [[w_one; f32_zero]; [w_one; w_one]] |}.

Lemma w_rsp_wf : rsp_wf w_rsp.
Proof. split; [done|]. split; [repeat constructor|]. intros x Hx. change (x ∈ [1; 4]) in Hx. rewrite !elem_of_cons, elem_of_nil in Hx. cbn. lia. Qed.

Lemma cast_storage_roundtrip_witness :
  (∃ c, CastStorageDnsCsrImpl 2 w_dense = Ok c ∧ csr_wf c ∧ CastStorageCsrDnsImpl c = Ok [[f32_zero; w_one]; [f32_zero; f32_zero]; [w_one; f32_zero]]) ∧
  (∃ d, CastStorageRspDnsImpl w_rsp = Ok d ∧ CastStorageDnsRspImpl 2 d = Ok w_rsp).
Proof.
  destruct (cast_storage_roundtrip w_dense 2 w_rsp) as (_ & H1 & H2).
  - repeat constructor.
  - apply w_rsp_wf.
  - done.
  - intros r Hr. change (r ∈ [[w_one; f32_zero]; [w_one; w_one]]) in Hr. rewrite !elem_of_cons, elem_of_nil in Hr. destruct Hr as [-> |[-> |[]]]; reflexivity.
  - split; [exact H1|exact H2].
Defined.
