(* ===== verification/Command.v ===== *)
(** * Commands of the key-value store protocol

    The worker and the servers tag every push and pull with an [int] that packs
    the kind of request and the element type by Cantor's pairing function, and
    the server unpacks it with a square root in [double].
    Source: src/src/kvstore/kvstore_dist_server.h, lines 48-104. *)

From Stdlib Require Import SpecFloat.
From S2P Require Import Prelude Floats.
Local Open Scope Z_scope.

Inductive CommandType :=
  | kController | kSetMultiPrecision | kStopServer | kSyncMode | kSyncGlobalMode
  | kSetGradientCompression | kSetProfilerParams.

Definition CommandType_to_int (c : CommandType) : Z :=
  match c with
  | kController => 0 | kSetMultiPrecision => 1 | kStopServer => 2 | kSyncMode => 3
  | kSyncGlobalMode => 4 | kSetGradientCompression => 5 | kSetProfilerParams => 6
  end.

(** [static_cast<CommandType>]: a head outside the enumeration matches no case. *)
Definition CommandType_of_int (z : Z) : option CommandType :=
  match z with
  | 0 => Some kController | 1 => Some kSetMultiPrecision | 2 => Some kStopServer
  | 3 => Some kSyncMode | 4 => Some kSyncGlobalMode | 5 => Some kSetGradientCompression
  | 6 => Some kSetProfilerParams | _ => None
  end.

Inductive RequestType :=
  | kDefaultPushPull | kRowSparsePushPull | kCompressedPushPull | kBSCompressedPushPull.

#[export] Instance RequestType_eq_dec : EqDecision RequestType.
Proof. solve_decision. Defined.
#[export] Instance CommandType_eq_dec : EqDecision CommandType.
Proof. solve_decision. Defined.

Definition RequestType_to_int (r : RequestType) : Z :=
  match r with
  | kDefaultPushPull => 0 | kRowSparsePushPull => 1
  | kCompressedPushPull => 2 | kBSCompressedPushPull => 3
  end.

Definition RequestType_of_int (z : Z) : option RequestType :=
  match z with
  | 0 => Some kDefaultPushPull | 1 => Some kRowSparsePushPull
  | 2 => Some kCompressedPushPull | 3 => Some kBSCompressedPushPull | _ => None
  end.

(** [requestType] is [None] for an integer outside the enumeration, which every
    switch over it sends to its [default] branch. *)
Record DataHandleType := { requestType : option RequestType; dtype : Z }.

#[export] Instance DataHandleType_eq_dec : EqDecision DataHandleType.
Proof. solve_decision. Defined.

Definition GetCommandType (rt : RequestType) (d : Z) : Z :=
  let m := RequestType_to_int rt in
  Z.quot ((m + d) * (m + d + 1)) 2 + d.

Definition DepairDataHandleType (cmd : Z) : result DataHandleType :=
  let w := floor_Z (f64_div (f64_sub (f64_sqrt (f64_of_Z (8 * cmd + 1))) (f64_of_Z 1))
                            (f64_of_Z 2)) in
  let t := Z.quot (w * w + w) 2 in
  let y := cmd - t in
  let x := w - y in
  check (0 <=? x) "x >= 0";;
  check (0 <=? y) "y >= 0";;
  Ok {| requestType := RequestType_of_int x; dtype := y |}.

(** Bytes of one element, [mshadow::mshadow_sizeof] of the type flags kFloat32 = 0,
    kFloat64 = 1, kFloat16 = 2, kUint8 = 3, kInt32 = 4, kInt8 = 5, kInt64 = 6. *)
Definition kFloat32 : Z := 0.
Definition kFloat16 : Z := 2.
Definition mshadow_sizeof (d : Z) : result Z :=
  match d with
  | 0 => Ok 4 | 1 => Ok 8 | 2 => Ok 2 | 3 => Ok 1 | 4 => Ok 4 | 5 => Ok 1 | 6 => Ok 8
  | _ => Err (CheckFailed "Unknown type enum")
  end.

(** ** Properties *)

Lemma triangle_double s : 0 ≤ s → 2 * Z.quot (s * (s + 1)) 2 = s * (s + 1).
Proof.
  intros Hs. rewrite Z.quot_div_nonneg by nia.
  pose proof (Z.div_mod (s * (s + 1)) 2). pose proof (Z.mod_pos_bound (s * (s + 1)) 2).
  assert ((s * (s + 1)) mod 2 = 0); [|lia].
  destruct (Z.Even_or_Odd s) as [[q ->]|[q ->]].
  - replace (2 * q * (2 * q + 1)) with (q * (2 * q + 1) * 2) by ring. apply Z.mod_mul. lia.
  - replace ((2 * q + 1) * (2 * q + 1 + 1)) with ((2 * q + 1) * (q + 1) * 2) by ring.
    apply Z.mod_mul. lia.
Qed.

(** The packed command determines the request kind and the element type:
    no two pairs share a command number, for any non-negative type flag. *)
Theorem GetCommandType_inj r1 r2 d1 d2 :
  0 ≤ d1 → 0 ≤ d2 → GetCommandType r1 d1 = GetCommandType r2 d2 → r1 = r2 ∧ d1 = d2.
Proof.
  unfold GetCommandType. intros H1 H2.
  assert (0 ≤ RequestType_to_int r1) by (by destruct r1).
  assert (0 ≤ RequestType_to_int r2) by (by destruct r2).
  set (m1 := RequestType_to_int r1) in *. set (m2 := RequestType_to_int r2) in *.
  pose proof (triangle_double (m1 + d1)). pose proof (triangle_double (m2 + d2)).
  intros E.
  assert (m1 + d1 = m2 + d2) as Es.
  { destruct (Z.lt_trichotomy (m1 + d1) (m2 + d2)) as [L|[L|L]]; [|done|]; exfalso; nia. }
  assert (d1 = d2) by (rewrite Es in E; lia). split; [|done].
  assert (m1 = m2) as Em by lia. subst m1 m2. by destruct r1, r2.
Qed.

Lemma GetCommandType_inj_witness :
  0 ≤ 2 ∧ 0 ≤ 0 ∧ (GetCommandType kDefaultPushPull 2 ≠ GetCommandType kCompressedPushPull 0).
Proof.
  split; [lia|]. split; [lia|]. intros E.
  destruct (GetCommandType_inj kDefaultPushPull kCompressedPushPull 2 0 ltac:(lia) ltac:(lia) E).
  discriminate.
Defined.

Definition all_requests : list RequestType :=
  [kDefaultPushPull; kRowSparsePushPull; kCompressedPushPull; kBSCompressedPushPull].

Definition roundtrips (rt : RequestType) (d : nat) : bool :=
  bool_decide (DepairDataHandleType (GetCommandType rt (Z.of_nat d)) =
               Ok {| requestType := Some rt; dtype := Z.of_nat d |}).

Lemma roundtrips_all : forallb (fun rt => forallb (roundtrips rt) (seq 0 256)) all_requests = true.
Proof. by vm_compute. Qed.

(** Unpacking a packed command gives back the request and the type flag, for
    every request kind and every type flag below 256 (mshadow defines seven);
    the square root in [double] loses nothing. *)
Theorem Depair_GetCommandType rt d :
  0 ≤ d < 256 →
  DepairDataHandleType (GetCommandType rt d) = Ok {| requestType := Some rt; dtype := d |}.
Proof.
  intros Hd. pose proof roundtrips_all as H. rewrite forallb_forall in H.
  specialize (H rt ltac:(destruct rt; simpl; tauto)). rewrite forallb_forall in H.
  specialize (H (Z.to_nat d)). rewrite in_seq in H. specialize (H ltac:(lia)).
  unfold roundtrips in H. apply bool_decide_eq_true_1 in H. by rewrite Z2Nat.id in H by lia.
Qed.

Lemma Depair_GetCommandType_witness :
  DepairDataHandleType (GetCommandType kBSCompressedPushPull 6) =
  Ok {| requestType := Some kBSCompressedPushPull; dtype := 6 |}.
Proof. apply (Depair_GetCommandType kBSCompressedPushPull 6). lia. Defined.
