(* ===== verification/Text.v ===== *)
(** * Strings and numbers as text

    The conversions the sources use when a setting travels as a string:
    [mxnet::kvstore::split] (src/src/kvstore/kvstore_local.h), [std::to_string] of an
    integer and of a float ([printf("%f")], six decimals, nearest-even on the exact
    value), [std::stoi] and [std::stof] (decimal notation with an optional exponent;
    hexadecimal notation and the names of infinities and NaNs are rejected here). *)

From Stdlib Require Import SpecFloat Ascii String.
From stdpp Require Import pretty.
From S2P Require Import Prelude Floats.
Local Open Scope Z_scope.

(** ** Splitting *)

(** [std::getline] in a loop: a delimiter ends an item, and a delimiter at the very
    end of the text does not start another one. *)
Fixpoint split (delim : ascii) (s : string) : list string :=
  match s with
  | EmptyString => []
  | String c s =>
      if bool_decide (c = delim) then EmptyString :: split delim s
      else match split delim s with
           | [] => [String c EmptyString]
           | item :: rest => String c item :: rest
           end
  end.

(** The text made of [items] separated by [delim]. *)
Fixpoint join (delim : ascii) (items : list string) : string :=
  match items with
  | [] => EmptyString
  | [i] => i
  | i :: items => String.append i (String delim (join delim items))
  end.

Fixpoint has_char (c : ascii) (s : string) : bool :=
  match s with
  | EmptyString => false
  | String d s => bool_decide (d = c) || has_char c s
  end.

(** ** Numbers *)
Definition is_digit (c : ascii) : bool :=
  let n := Z.of_nat (nat_of_ascii c) in (48 <=? n) && (n <=? 57).
Definition digit_val (c : ascii) : Z := Z.of_nat (nat_of_ascii c) - 48.
Definition is_space (c : ascii) : bool :=
  let n := Z.of_nat (nat_of_ascii c) in (n =? 32) || ((9 <=? n) && (n <=? 13)).

(** The longest run of digits: its value, its length and the rest. *)
Fixpoint digits (acc : Z) (len : nat) (s : string) : Z * nat * string :=
  match s with
  | String c s' => if is_digit c then digits (10 * acc + digit_val c) (S len) s' else (acc, len, s)
  | EmptyString => (acc, len, s)
  end.
Fixpoint skip_spaces (s : string) : string :=
  match s with
  | String c s' => if is_space c then skip_spaces s' else s
  | EmptyString => s
  end.
Definition sign (s : string) : bool * string :=
  match s with
  | String "-"%char s => (true, s)
  | String "+"%char s => (false, s)
  | _ => (false, s)
  end.

(** [atoi]: leading white space, a sign, then digits; anything else stops it. *)
Definition atoi (s : string) : Z :=
  let '(neg, s) := sign (skip_spaces s) in cond_Zopp neg (digits 0 0 s).1.1.

(** [std::stoi]: throws when there is no digit or the value does not fit. *)
Definition stoi (s : string) : result Z :=
  let '(neg, s) := sign (skip_spaces s) in
  let '(v, len, _) := digits 0 0 s in
  check (negb (len =? 0)%nat) "stoi";;
  let v := cond_Zopp neg v in
  check ((- 2 ^ 31 <=? v) && (v <? 2 ^ 31)) "stoi: out of range";;
  Ok v.

(** Correctly rounded binary32 value of [n * 10^e]. *)
Definition decimal (neg : bool) (n e : Z) : float :=
  match n with
  | Zpos p => if 0 <=? e then binary_normalize 24 128 (cond_Zopp neg (n * 10 ^ e)) 0 neg
              else SFdiv 24 128 (S754_finite neg p 0) (S754_finite false (Z.to_pos (10 ^ (- e))) 0)
  | _ => S754_zero neg
  end.

(** [std::stof]: throws when there is no number or it does not fit a normal float. *)
Definition stof (s : string) : result float :=
  let '(neg, s) := sign (skip_spaces s) in
  let '(ip, ilen, s) := digits 0 0 s in
  let '(v, flen, s) := match s with
    | String "."%char s' => let '(v, len, s'') := digits ip 0 s' in (v, len, s'')
    | _ => (ip, 0%nat, s)
    end in
  check (negb (ilen + flen =? 0)%nat) "stof";;
  let ex := match s with
    | String c s' =>
        if bool_decide (c = "e"%char) || bool_decide (c = "E"%char) then
          let '(eneg, s'') := sign s' in
          let '(e, elen, _) := digits 0 0 s'' in
          if (elen =? 0)%nat then 0 else cond_Zopp eneg e
        else 0
    | EmptyString => 0
    end in
  let r := decimal neg v (ex - Z.of_nat flen) in
  check (match r with
    | S754_finite _ m _ => 2 ^ 23 <=? Zpos m
    | S754_zero _ => v =? 0
    | _ => false end) "stof: out of range";;
  Ok r.

(** [std::to_string(int)] *)
Definition to_string_int (z : Z) : string := pretty z.

(** [m * 2^e * 10^6] rounded to the nearest integer, ties to even. *)
Definition micros (m : positive) (e : Z) : Z :=
  let num := Zpos m * 10 ^ 6 in
  if 0 <=? e then num * 2 ^ e
  else let den := 2 ^ (- e) in
       let q := num / den in let r := num mod den in
       if (2 * r <? den) || ((2 * r =? den) && Z.even q) then q else q + 1.

Definition zeros (n : nat) : string := String.concat EmptyString (replicate n "0").
Definition pad6 (z : Z) : string :=
  let s := pretty z in String.append (zeros (6 - String.length s)) s.

(** [std::to_string(float)], that is [printf("%f")] *)
Definition to_string_float (x : float) : string :=
  let sg (s : bool) := if s then "-" else EmptyString in
  match x with
  | S754_zero s => String.append (sg s) "0.000000"
  | S754_infinity s => String.append (sg s) "inf"
  | S754_nan => "nan"
  | S754_finite s m e =>
      let v := micros m e in
      String.append (sg s) (String.append (pretty (v / 10 ^ 6)) (String "."%char (pad6 (v mod 10 ^ 6))))
  end.

(** ** Splitting undoes joining *)
Lemma split_item delim s rest :
  has_char delim s = false →
  split delim (String.append s (String delim rest)) = s :: split delim rest.
Proof.
  induction s as [|c s IH]; simpl; intros H.
  - by rewrite bool_decide_true by done.
  - apply orb_false_iff in H as [H1 H2]. rewrite H1, IH by done. done.
Qed.

Lemma split_last delim s :
  has_char delim s = false → s ≠ EmptyString → split delim s = [s].
Proof.
  induction s as [|c s IH]; simpl; intros H Hs; [done|].
  apply orb_false_iff in H as [H1 H2]. rewrite H1.
  destruct s as [|d s]; [done|]. by rewrite IH.
Qed.

Lemma split_join delim items :
  Forall (fun s => has_char delim s = false) items →
  last items ≠ Some EmptyString → split delim (join delim items) = items.
Proof.
  induction items as [|i items IH]; intros H Hl; [done|].
  apply Forall_cons in H as [Hi H]. destruct items as [|j items].
  - simpl. apply split_last; [done|]. intros ->. done.
  - change (join delim (i :: j :: items)) with (String.append i (String delim (join delim (j :: items)))).
    rewrite split_item by done. f_equal. by apply IH.
Qed.
