(* ===== verification/Postoffice.v ===== *)
(** * Postoffice: node numbering, groups, key ranges, customers, liveness

    The per-process registry of ps-lite: which role this process plays, how many
    nodes each tier has, which node ids belong to which group, how the 64-bit key
    space is divided among servers, which customers exist and when each node was
    last heard of.  Sources: src/3rdparty/ps-lite/src/postoffice.cc,
    src/3rdparty/ps-lite/include/ps/internal/postoffice.h,
    src/3rdparty/ps-lite/include/ps/base.h and range.h. *)

From Stdlib Require Import Ascii.
From S2P Require Import Prelude Floats Text.
Local Open Scope Z_scope.

(** ** Constants (ps/base.h) *)
Definition kMaxKey : Z := 2 ^ 64 - 1.
Definition kScheduler : Z := 1.
Definition kServerGroup : Z := 2.
Definition kWorkerGroup : Z := 4.
Definition kSchedulerGlobal : Z := 1.
Definition kServerGroupGlobal : Z := 2.
Definition kWorkerGroupGlobal : Z := 4.
Definition kOffset : Z := 100.

(** ** Ranks and node ids *)
Definition WorkerRankToID (rank : Z) (is_global : bool) : Z :=
  if is_global then rank * 2 + 9 else kOffset + rank * 2 + 1.
Definition ServerRankToID (rank : Z) (is_global : bool) : Z :=
  if is_global then rank * 2 + 8 else kOffset + rank * 2.
Definition IDtoRank (id : Z) : Z :=
  if id <? kOffset then Z.max (Z.quot (id - 8) 2) 0 else Z.max (Z.quot (id - kOffset) 2) 0.

(** ** The environment *)

(** [Environment::find], and [GetEnv] with a [bool] default. *)
Definition environment := string → option string.
Definition CHECK_NOTNULL {A} (o : option A) : result A := of_option (CheckFailed "Check notnull") o.
Definition GetEnv_bool (env : environment) (key : string) (default_val : bool) : bool :=
  match env key with None => default_val | Some v => negb (atoi v =? 0) end.

Record Config := {
  is_worker : bool; is_server : bool; is_scheduler : bool; is_master_worker : bool;
  is_global_server : bool; is_global_scheduler : bool; enable_central_workers : bool;
  num_workers : Z; num_servers : Z; num_global_workers : Z; num_global_servers : Z;
  num_all_workers : Z }.

(** [Postoffice::InitEnvironment]: the fields keep their in-class default (false, 0)
    where a branch does not assign them. *)
Definition InitEnvironment (env : environment) : result Config :=
  '(w, s, sch, nw, ns, mw) ← (match env "DMLC_ROLE" with
     | Some role =>
         let w := String.eqb role "worker" in
         nw ← CHECK_NOTNULL (env "DMLC_NUM_WORKER");
         ns ← CHECK_NOTNULL (env "DMLC_NUM_SERVER");
         let mw := GetEnv_bool env "DMLC_ROLE_MASTER_WORKER" false in
         check (if mw then w else true) "is_worker_";;
         Ok (w, String.eqb role "server", String.eqb role "scheduler", atoi nw, atoi ns, mw)
     | None => Ok (false, false, false, 0, 0, false)
     end);
  let '(gsch, gsrv) := match env "DMLC_ROLE_GLOBAL" with
     | Some role => (String.eqb role "global_scheduler", String.eqb role "global_server")
     | None => (false, false)
     end in
  let s := if gsrv then true else s in
  '(ngw, ngs) ← (if s || gsch then
     ngw ← CHECK_NOTNULL (env "DMLC_NUM_GLOBAL_WORKER");
     ngs ← CHECK_NOTNULL (env "DMLC_NUM_GLOBAL_SERVER");
     Ok (atoi ngw, atoi ngs) else Ok (0, 0));
  naw ← (if w || gsrv then
     naw ← CHECK_NOTNULL (env "DMLC_NUM_ALL_WORKER"); Ok (atoi naw) else Ok 0);
  let ecw := if gsrv then GetEnv_bool env "DMLC_ENABLE_CENTRAL_WORKER" false else false in
  check (if s && negb gsrv then ns =? 1 else true)
    "load balance at the first layer is not supported.";;
  Ok {| is_worker := w; is_server := s; is_scheduler := sch; is_master_worker := mw;
        is_global_server := gsrv; is_global_scheduler := gsch; enable_central_workers := ecw;
        num_workers := nw; num_servers := ns; num_global_workers := ngw;
        num_global_servers := ngs; num_all_workers := naw |}.

(** ** Node groups *)

(** [for (int g : gs) m[g].push_back(id)] *)
Definition push_groups (m : gmap Z (list Z)) (gs : list Z) (id : Z) : gmap Z (list Z) :=
  foldl (fun m g => <[g := default [] (m !! g) ++ [id]]> m) m gs.

Definition ranks (n : Z) : list Z := Z.of_nat <$> seq 0 (Z.to_nat n).

(** The node tables filled by [Postoffice::Start] and [Postoffice::StartGlobal];
    the local and the global group constants have the same values. *)
Definition init_node_ids (nw ns : Z) (is_global : bool) : gmap Z (list Z) :=
  let m := foldl (fun m i =>
             let id := WorkerRankToID i is_global in
             push_groups m [id; kWorkerGroup; kWorkerGroup + kServerGroup; kWorkerGroup + kScheduler;
                            kWorkerGroup + kServerGroup + kScheduler] id) ∅ (ranks nw) in
  let m := foldl (fun m i =>
             let id := ServerRankToID i is_global in
             push_groups m [id; kServerGroup; kWorkerGroup + kServerGroup; kServerGroup + kScheduler;
                            kWorkerGroup + kServerGroup + kScheduler] id) m (ranks ns) in
  push_groups m [kScheduler; kScheduler + kServerGroup + kWorkerGroup;
                 kScheduler + kWorkerGroup; kScheduler + kServerGroup] kScheduler.

Definition Start_node_ids (c : Config) : gmap Z (list Z) :=
  init_node_ids (num_workers c) (num_servers c) false.
Definition StartGlobal_node_ids (c : Config) : gmap Z (list Z) :=
  init_node_ids (num_global_workers c) (num_global_servers c) true.

Definition GetNodeIDs (node_ids : gmap Z (list Z)) (node_id : Z) : result (list Z) :=
  of_option (CheckFailed "node doesn't exist") (node_ids !! node_id).

(** ** Key ranges *)
Record Range := { range_begin : Z; range_end : Z }.

(** [kMaxKey / num_servers * i] in [uint64_t]. *)
Definition GetServerKeyRanges (num_servers : Z) : list Range :=
  (fun i => {| range_begin := u64 (kMaxKey / num_servers * i);
               range_end := u64 (kMaxKey / num_servers * (i + 1)) |}) <$> ranks num_servers.

(** ** Customers and barrier flags *)
Record Registry := {
  customers : gmap Z (gmap Z Z);          (* app id, customer id -> object *)
  barrier_done : gmap Z (gmap Z bool) }.

Definition AddCustomer (r : Registry) (app_id customer_id obj : Z) : result Registry :=
  let apps := default ∅ (customers r !! app_id) in
  check (bool_decide (apps !! customer_id = None)) "customer_id already exists";;
  let flags := default ∅ (barrier_done r !! app_id) in
  let flags := match flags !! customer_id with Some _ => flags | None => <[customer_id := false]> flags end in
  Ok {| customers := <[app_id := <[customer_id := obj]> apps]> (customers r);
        barrier_done := <[app_id := flags]> (barrier_done r) |}.

Definition RemoveCustomer (r : Registry) (app_id customer_id : Z) : Registry :=
  let apps := delete customer_id (default ∅ (customers r !! app_id)) in
  {| customers := if bool_decide (apps = ∅) then delete app_id (customers r)
                  else <[app_id := apps]> (customers r);
     barrier_done := barrier_done r |}.

(** [GetCustomer] polls until the application is registered; once it is, the
    customer is looked up once: [None] is the null pointer. *)
Definition GetCustomer (r : Registry) (app_id customer_id : Z) : option Z :=
  match customers r !! app_id with
  | Some apps => apps !! customer_id
  | None => None
  end.

(** The loop of [Manage]: [for (id = 0; id < m.size(); id++) m[id] = true], where
    the assignment inserts a missing id and so moves the bound. *)
Fixpoint set_all_done (fuel : nat) (id : nat) (m : gmap Z bool) : option (gmap Z bool) :=
  match fuel with
  | O => None
  | S fuel => if bool_decide (id < size m)%nat
              then set_all_done fuel (S id) (<[Z.of_nat id := true]> m) else Some m
  end.

(** ** Heartbeats *)
Definition UpdateHeartbeat (hb : gmap Z Z) (node_id t : Z) : gmap Z Z := <[node_id := t]> hb.

Definition GetDeadNodes (ready is_sched : bool) (node_ids : gmap Z (list Z)) (hb : gmap Z Z)
    (start_time curr_time t : Z) : result (list Z) :=
  if negb ready || (t =? 0) then Ok []
  else nodes ← GetNodeIDs node_ids (if is_sched then kWorkerGroup + kServerGroup else kScheduler);
    Ok (List.filter (fun r => (match hb !! r with None => true | Some l => l + t <? curr_time end)
                         && (start_time + t <? curr_time)) nodes).

(** ** Properties of node numbering *)

(** Inside each tier a node's rank can be read back from its id: [IDtoRank]
    inverts [WorkerRankToID] and [ServerRankToID], provided a global rank is at
    most 45, so that the global id stays below [kOffset]. *)
Theorem IDtoRank_inverse rank is_global :
  0 ≤ rank → (is_global = true → rank ≤ 45) →
  IDtoRank (WorkerRankToID rank is_global) = rank ∧ IDtoRank (ServerRankToID rank is_global) = rank.
Proof.
  intros H0 Hg. unfold IDtoRank, WorkerRankToID, ServerRankToID, kOffset.
  destruct is_global; [specialize (Hg eq_refl)|clear Hg]; split;
    match goal with |- context [?a <? 100] => destruct (Z.ltb_spec a 100); [|try lia] end;
    try lia; Z.to_euclidean_division_equations; lia.
Qed.

Lemma IDtoRank_inverse_witness :
  IDtoRank (WorkerRankToID 45 true) = 45 ∧ IDtoRank (ServerRankToID 45 true) = 45.
Proof. apply (IDtoRank_inverse 45 true); lia. Defined.

(** Worker ids are odd and server ids even in both tiers, so [sender % 2]
    tells a request from a response; two nodes of one tier never share an id; and
    [id < kOffset] tells the tiers apart as long as global ranks are at most 45. *)
Theorem node_ids_disjoint r1 r2 (g1 g2 : bool) :
  0 ≤ r1 → 0 ≤ r2 → (g1 = true → r1 ≤ 45) → (g2 = true → r2 ≤ 45) →
  WorkerRankToID r1 g1 mod 2 = 1 ∧ ServerRankToID r1 g1 mod 2 = 0 ∧
  ((WorkerRankToID r1 g1 <? kOffset) = g1) ∧ ((ServerRankToID r1 g1 <? kOffset) = g1) ∧
  (WorkerRankToID r1 g1 = WorkerRankToID r2 g2 → r1 = r2 ∧ g1 = g2) ∧
  (ServerRankToID r1 g1 = ServerRankToID r2 g2 → r1 = r2 ∧ g1 = g2) ∧
  WorkerRankToID r1 g1 ≠ ServerRankToID r2 g2.
Proof.
  intros H1 H2 Hg1 Hg2. unfold WorkerRankToID, ServerRankToID, kOffset.
  destruct g1, g2; try specialize (Hg1 eq_refl); try specialize (Hg2 eq_refl);
    repeat split; intros; try lia; Z.to_euclidean_division_equations; lia.
Qed.

Lemma node_ids_disjoint_witness :
  WorkerRankToID 3 true = 15 ∧ WorkerRankToID 3 true ≠ ServerRankToID 0 false.
Proof.
  split; [done|].
  destruct (node_ids_disjoint 3 0 true false ltac:(lia) ltac:(lia) ltac:(lia) ltac:(discriminate))
    as (_ & _ & _ & _ & _ & _ & H). exact H.
Defined.

(** The global tier has room for 46 workers only.  The 47th data center gets
    the id of worker 0 of a local tier, and reads back as rank 0. *)
Theorem global_id_collision :
  WorkerRankToID 46 true = WorkerRankToID 0 false ∧ IDtoRank (WorkerRankToID 46 true) = 0 ∧
  (WorkerRankToID 46 true <? kOffset) = false.
Proof. done. Qed.

(** ** Properties of the groups *)

(** Appending a list to an entry that may not exist yet. *)
Definition app_opt {A} (o : option (list A)) (l : list A) : option (list A) :=
  match l with [] => o | _ => Some (default [] o ++ l) end.

Lemma app_opt_app {A} (o : option (list A)) l1 l2 : app_opt (app_opt o l1) l2 = app_opt o (l1 ++ l2).
Proof.
  destruct l1 as [|x l1]; [done|]. destruct l2 as [|y l2]; simpl; [by rewrite app_nil_r|].
  by rewrite <- (assoc_L (++)).
Qed.

Lemma push_groups_lookup m gs id g :
  NoDup gs → push_groups m gs id !! g = if decide (g ∈ gs) then app_opt (m !! g) [id] else m !! g.
Proof.
  unfold push_groups. revert m. induction gs as [|g' gs IH]; intros m Hnd; cbn [foldl].
  - case_decide; [set_solver|done].
  - apply NoDup_cons in Hnd as [Hni Hnd]. rewrite IH by done.
    destruct (decide (g = g')) as [->|Hne].
    + rewrite lookup_insert_eq. do 2 (case_decide; try set_solver).
    + rewrite lookup_insert_ne by done. do 2 (case_decide; try set_solver).
Qed.

(** A tier's loop: every node [f i] joins its own group and the groups [gs]. *)
Lemma push_tier_lookup (f : Z → Z) gs l : ∀ m g,
  NoDup gs → (∀ i, i ∈ l → f i ∉ gs) → (∀ i, i ∈ l → f i ≠ g) →
  foldl (fun m i => push_groups m (f i :: gs) (f i)) m l !! g =
    if decide (g ∈ gs) then app_opt (m !! g) (f <$> l) else m !! g.
Proof.
  induction l as [|i l IH]; intros m g Hnd Hf Hg; cbn [foldl fmap list_fmap]; [by case_decide|].
  rewrite IH; [|done|intros; apply Hf; set_solver|intros; apply Hg; set_solver].
  rewrite push_groups_lookup by (apply NoDup_cons; split; [apply Hf; set_solver|done]).
  specialize (Hg i ltac:(set_solver)). repeat case_decide; try set_solver.
  by rewrite app_opt_app.
Qed.

Definition members (nw ns : Z) (is_global : bool) (g : Z) : list Z :=
  (if Z.testbit g 2 then (fun i => WorkerRankToID i is_global) <$> ranks nw else []) ++
  (if Z.testbit g 1 then (fun i => ServerRankToID i is_global) <$> ranks ns else []) ++
  (if Z.testbit g 0 then [kScheduler] else []).

Lemma elem_of_ranks i n : i ∈ ranks n ↔ 0 ≤ i < n.
Proof.
  unfold ranks. rewrite list_elem_of_fmap. split.
  - intros (k & -> & Hk%elem_of_seq). lia.
  - intros H. exists (Z.to_nat i). rewrite elem_of_seq. lia.
Qed.

Lemma init_node_ids_lookup nw ns is_global g :
  1 ≤ g ≤ 7 → init_node_ids nw ns is_global !! g = app_opt None (members nw ns is_global g).
Proof.
  intros Hg.
  assert (∀ i, 0 ≤ i → 7 < WorkerRankToID i is_global) as Hw
    by (intros; unfold WorkerRankToID, kOffset; destruct is_global; lia).
  assert (∀ i, 0 ≤ i → 7 < ServerRankToID i is_global) as Hs
    by (intros; unfold ServerRankToID, kOffset; destruct is_global; lia).
  assert (∀ a b c d x : Z, a ≤ 7 → b ≤ 7 → c ≤ 7 → d ≤ 7 → 7 < x → x ∉ [a; b; c; d]) as Hni.
  { intros. rewrite !not_elem_of_cons. pose proof (not_elem_of_nil x). repeat split; try done; lia. }
  unfold init_node_ids. rewrite push_groups_lookup by by_decision.
  rewrite (push_tier_lookup (fun i => ServerRankToID i is_global)); first last.
  { intros i Hi%elem_of_ranks. specialize (Hs i). lia. }
  { intros i Hi%elem_of_ranks. apply Hni; unfold kWorkerGroup, kServerGroup, kScheduler; try lia. apply Hs. lia. }
  { by_decision. }
  rewrite (push_tier_lookup (fun i => WorkerRankToID i is_global)); first last.
  { intros i Hi%elem_of_ranks. specialize (Hw i). lia. }
  { intros i Hi%elem_of_ranks. apply Hni; unfold kWorkerGroup, kServerGroup, kScheduler; try lia. apply Hw. lia. }
  { by_decision. }
  rewrite lookup_empty. unfold members.
  assert (g = 1 ∨ g = 2 ∨ g = 3 ∨ g = 4 ∨ g = 5 ∨ g = 6 ∨ g = 7) as HG by lia.
  destruct HG as [->|[->|[->|[->|[->|[->| ->]]]]]];
    eval_decide; eval_testbit; rewrite ?app_opt_app, ?app_nil_r, ?app_nil_l; try done;
    by rewrite ?(assoc_L (++)).
Qed.

(** The group tables list exactly the nodes whose tier bit is set in the group
    id (4 workers, 2 servers, 1 scheduler), workers first and each tier in rank
    order; a group with no node is absent and looking it up fails the check. *)
Theorem GetNodeIDs_group nw ns is_global g :
  1 ≤ g ≤ 7 →
  GetNodeIDs (init_node_ids nw ns is_global) g =
    match members nw ns is_global g with
    | [] => Err (CheckFailed "node doesn't exist")
    | l => Ok l
    end.
Proof.
  intros Hg. unfold GetNodeIDs. rewrite init_node_ids_lookup by done.
  by destruct (members nw ns is_global g).
Qed.

Lemma GetNodeIDs_group_witness :
  GetNodeIDs (init_node_ids 2 1 false) 7 = Ok [101; 103; 100; 1].
Proof. rewrite (GetNodeIDs_group 2 1 false 7) by lia. reflexivity. Defined.

(** ** Properties of the key ranges *)
Lemma ranks_lookup n (k : nat) : (Z.of_nat k < n) → ranks n !! k = Some (Z.of_nat k).
Proof.
  intros H. unfold ranks. rewrite list_lookup_fmap, lookup_seq_lt by lia. done.
Qed.

Lemma length_GetServerKeyRanges n : length (GetServerKeyRanges n) = Z.to_nat n.
Proof. unfold GetServerKeyRanges, ranks. by rewrite !length_fmap, length_seq. Qed.

Lemma GetServerKeyRanges_lookup n (k : nat) :
  Z.of_nat k < n →
  GetServerKeyRanges n !! k =
    Some {| range_begin := kMaxKey / n * Z.of_nat k; range_end := kMaxKey / n * (Z.of_nat k + 1) |}.
Proof.
  intros Hk. unfold GetServerKeyRanges. rewrite list_lookup_fmap, ranks_lookup by done. simpl.
  assert (0 ≤ kMaxKey / n) by (apply Z.div_pos; unfold kMaxKey; lia).
  assert (kMaxKey / n * n ≤ kMaxKey) by (rewrite Z.mul_comm; apply Z.mul_div_le; lia).
  rewrite !u64_id by (unfold kMaxKey in *; nia). done.
Qed.

(** The ranges of [n] servers are consecutive, start at key 0, have the same
    size [kMaxKey / n] and never wrap: the range of server [j] ends where the range
    of server [j+1] begins, and all stay below [kMaxKey]. *)
Theorem key_ranges_partition n (k : nat) :
  Z.of_nat k < n →
  ∃ r, GetServerKeyRanges n !! k = Some r ∧
    range_end r - range_begin r = kMaxKey / n ∧ 0 ≤ range_begin r ∧ range_end r ≤ kMaxKey ∧
    (k = O → range_begin r = 0) ∧
    (∀ r', GetServerKeyRanges n !! S k = Some r' → range_begin r' = range_end r).
Proof.
  intros Hk. rewrite GetServerKeyRanges_lookup by done. eexists. split; [done|]. simpl.
  assert (0 ≤ kMaxKey / n) by (apply Z.div_pos; unfold kMaxKey; lia).
  assert (kMaxKey / n * n ≤ kMaxKey) by (rewrite Z.mul_comm; apply Z.mul_div_le; lia).
  repeat split; try nia. intros r' Hr'.
  assert (Z.of_nat (S k) < n) as Hk'.
  { apply lookup_lt_Some in Hr'. rewrite length_GetServerKeyRanges in Hr'. lia. }
  rewrite GetServerKeyRanges_lookup in Hr' by done. simplify_eq. simpl. f_equal. lia.
Qed.

Lemma key_ranges_partition_witness :
  ∃ r, GetServerKeyRanges 3 !! 2%nat = Some r ∧ range_end r = 18446744073709551615.
Proof.
  destruct (key_ranges_partition 3 2) as (r & E & _); [lia|].
  exists r. split; [exact E|]. vm_compute in E. by injection E as <-.
Defined.

(** ** Properties of the customer registry and the barrier flags *)

(** A customer that was added is found under its ids, other ids are not
    disturbed, adding it again fails the check, and removing it makes it absent. *)
Theorem AddCustomer_spec r app_id customer_id obj r' :
  AddCustomer r app_id customer_id obj = Ok r' →
  GetCustomer r' app_id customer_id = Some obj ∧
  (∀ a c, (a, c) ≠ (app_id, customer_id) → GetCustomer r' a c = GetCustomer r a c) ∧
  (∀ obj', ∃ msg, AddCustomer r' app_id customer_id obj' = Err (CheckFailed msg)) ∧
  GetCustomer (RemoveCustomer r' app_id customer_id) app_id customer_id = None.
Proof.
  unfold AddCustomer. intros H. rinv H. injection H as <-. unfold GetCustomer. simpl.
  rewrite lookup_insert_eq. repeat split.
  - apply lookup_insert_eq.
  - intros a c Hne. rewrite lookup_insert. case_decide as E; [subst a|done].
    rewrite lookup_insert_ne by congruence. by destruct (customers r !! app_id).
  - intros obj'. eexists. cbn [customers]. rewrite ?lookup_insert_eq. cbn [default].
    apply check_bind_err. apply bool_decide_eq_false. simpl. by rewrite lookup_insert_eq.
  - unfold RemoveCustomer. cbn [customers]. rewrite ?lookup_insert_eq. simpl. clear Hc. case_bool_decide.
    + by rewrite lookup_delete_eq.
    + by rewrite lookup_insert_eq, lookup_delete_eq.
Qed.

Lemma AddCustomer_spec_witness :
  ∃ r', AddCustomer {| customers := ∅; barrier_done := ∅ |} 0 0 7 = Ok r' ∧ GetCustomer r' 0 0 = Some 7.
Proof.
  eexists. split; [vm_compute; reflexivity|].
  eapply (AddCustomer_spec {| customers := ∅; barrier_done := ∅ |} 0 0 7). vm_compute. reflexivity.
Defined.

Definition naturals_below (n : nat) : gset Z := list_to_set (Z.of_nat <$> seq 0 n).

Lemma elem_of_naturals_below z n : z ∈ naturals_below n ↔ 0 ≤ z < Z.of_nat n.
Proof.
  unfold naturals_below. rewrite elem_of_list_to_set, list_elem_of_fmap. split.
  - intros (k & -> & Hk%elem_of_seq). lia.
  - intros H. exists (Z.to_nat z). rewrite elem_of_seq. lia.
Qed.

Lemma size_naturals_below n : size (naturals_below n) = n.
Proof.
  unfold naturals_below. rewrite size_list_to_set; [by rewrite length_fmap, length_seq|].
  apply NoDup_fmap_2; [lia || (intros ? ?; lia)|apply NoDup_seq].
Qed.

(** The flags below [id] are set and present, and no key is outside [0, b). *)
Definition done_inv (b id : nat) (m : gmap Z bool) : Prop :=
  (∀ z, 0 ≤ z < Z.of_nat id → m !! z = Some true) ∧
  (∀ z, is_Some (m !! z) → 0 ≤ z < Z.of_nat (b `max` id)).

Lemma done_inv_stop b id m :
  done_inv b id m → (size m ≤ id)%nat → ∀ z, is_Some (m !! z) → m !! z = Some true.
Proof.
  intros [H1 H2] Hsz z Hz. apply H1.
  assert (naturals_below id ⊆ dom m) as Hsub.
  { intros y Hy%elem_of_naturals_below. apply elem_of_dom. rewrite H1 by lia. eauto. }
  assert (naturals_below id = dom m) as Heq.
  { apply set_subseteq_size_eq; [done|]. by rewrite size_dom, size_naturals_below. }
  apply elem_of_naturals_below. rewrite Heq. by apply elem_of_dom.
Qed.

Lemma done_inv_step b id m : done_inv b id m → done_inv b (S id) (<[Z.of_nat id := true]> m).
Proof.
  intros [H1 H2]. split.
  - intros z Hz. destruct (decide (z = Z.of_nat id)) as [->|]; [apply lookup_insert_eq|].
    rewrite lookup_insert_ne by done. apply H1. lia.
  - intros z Hz. destruct (decide (z = Z.of_nat id)) as [->|]; [lia|].
    rewrite lookup_insert_ne in Hz by done. apply H2 in Hz. lia.
Qed.

Lemma done_inv_size b id m : done_inv b id m → (b ≤ id)%nat → (size m ≤ id)%nat.
Proof.
  intros [_ H2] Hb. rewrite <- size_dom, <- (size_naturals_below id). apply subseteq_size.
  intros y Hy%elem_of_dom%H2. apply elem_of_naturals_below. lia.
Qed.

Lemma set_all_done_spec b n : ∀ id m, (b - id < n)%nat → done_inv b id m →
  ∃ m', set_all_done n id m = Some m' ∧ (∀ z, is_Some (m !! z) → m' !! z = Some true).
Proof.
  induction n as [|n IH]; intros id m Hf Hinv; [lia|]. simpl. case_bool_decide as Hlt.
  - assert (id < b)%nat.
    { destruct (le_lt_dec b id); [|done]. pose proof (done_inv_size b id m Hinv). lia. }
    destruct (IH (S id) (<[Z.of_nat id := true]> m)) as (m' & E & Hm'); [lia|by apply done_inv_step|].
    exists m'. split; [done|]. intros z Hz. apply Hm'. rewrite lookup_insert. case_decide; eauto.
  - exists m. split; [done|]. apply (done_inv_stop b id); [done|lia].
Qed.

(** Releasing a barrier terminates and releases every customer.  The loop
    bound [m.size()] moves while missing ids are inserted, yet for ids in [0, b)
    it stops after at most [b] steps with every registered flag set. *)
Theorem Manage_releases_all (m : gmap Z bool) (b : nat) :
  (∀ z, is_Some (m !! z) → 0 ≤ z < Z.of_nat b) →
  ∃ m', set_all_done (S b) 0 m = Some m' ∧ (∀ z, is_Some (m !! z) → m' !! z = Some true).
Proof.
  intros H. apply (set_all_done_spec b); [lia|]. split; [lia|].
  intros z Hz%H. lia.
Qed.

Lemma Manage_releases_all_witness :
  ∃ m', set_all_done 6 0 {[4 := false]} = Some m' ∧ m' !! 4 = Some true.
Proof.
  destruct (Manage_releases_all {[4 := false]} 5) as (m' & E & H).
  { intros z [? Hz]. apply lookup_singleton_Some in Hz as [<- _]. lia. }
  exists m'. split; [exact E|]. apply H. rewrite lookup_singleton_eq. eauto.
Defined.
