(* ===== verification/Customer.v ===== *)
(** * Customers: request tracking

    A customer numbers its requests and counts their responses; it runs the handler of
    every received message and hands pull requests that may have to wait to a thread of
    their own.  Sources: src/3rdparty/ps-lite/src/customer.cc and
    src/3rdparty/ps-lite/include/ps/internal/customer.h. *)

From S2P Require Import Prelude.
Local Open Scope Z_scope.

(** [Meta::kEmpty] *)
Definition kEmpty : Z := INT_MAX.

(** For each timestamp, the number of responses expected and received. *)
Abbreviation tracker := (list (Z * Z)).

(** [NewRequest]; [num] is the number of nodes of the receiving group. *)
Definition NewRequest (t : tracker) (num : Z) : Z * tracker := (Z.of_nat (length t), t ++ [(num, 0)]).

Definition NumResponse (t : tracker) (timestamp : Z) : result Z :=
  p ← rdz t timestamp; Ok p.2.

Definition AddResponse (t : tracker) (timestamp num : Z) : result tracker :=
  p ← rdz t timestamp;
  c ← int_add p.2 num;
  Ok (<[Z.to_nat timestamp := (p.1, c)]> t).

(** [WaitRequest] returns when all responses are there. *)
Definition WaitRequest (t : tracker) (timestamp : Z) : result unit :=
  p ← rdz t timestamp;
  if p.1 =? p.2 then Ok tt else Err (Blocked "WaitRequest").

(** [Accept]: the queue a message is put in. *)
Inductive recv_queue := MainQueue | PullQueue.
Definition valid_heads : list Z := [0; 2; 3; 5; 6].
Definition Accept (head sender : Z) (request push simple_app : bool) : recv_queue :=
  if bool_decide (head ∈ valid_heads) && (Z.rem sender 2 =? 1) && request && negb push && negb simple_app
  then PullQueue else MainQueue.

(** The body of the loop of [Receiving]: the handler runs first, then a response is
    counted. *)
Definition Receiving_step {S} (get : S → tracker) (set : tracker → S → S)
    (recv_handle : st S unit) (request : bool) (timestamp : Z) : st S unit :=
  recv_handle;;
  if request then mret tt
  else t ← gets get; t ← lift (AddResponse t timestamp 1); modify (set t).

(** ** Properties *)
Lemma AddResponse_ok t ts n c k : 0 ≤ ts → t !! Z.to_nat ts = Some (n, c) → - 2 ^ 31 ≤ c + k < 2 ^ 31 →
  AddResponse t ts k = Ok (<[Z.to_nat ts := (n, c + k)]> t).
Proof.
  intros H0 H Hr. unfold AddResponse. rewrite (rdz_ok _ _ _ H0 H). rstep.
  unfold int_add. by rewrite int_range_ok.
Qed.

(** The most recent request. *)
Lemma lookup_last_request (t : tracker) p : (t ++ [p]) !! Z.to_nat (Z.of_nat (length t)) = Some p.
Proof. by rewrite Nat2Z.id, lookup_app_r, Nat.sub_diag. Qed.

Lemma AddResponse_last t n c k : - 2 ^ 31 ≤ c + k < 2 ^ 31 →
  AddResponse (t ++ [(n, c)]) (Z.of_nat (length t)) k = Ok (t ++ [(n, c + k)]).
Proof.
  intros H. rewrite (AddResponse_ok _ _ n c) by (done || apply lookup_last_request || lia).
  by rewrite Nat2Z.id, insert_app_r_alt, Nat.sub_diag.
Qed.

Lemma NumResponse_last t n c : NumResponse (t ++ [(n, c)]) (Z.of_nat (length t)) = Ok c.
Proof. unfold NumResponse. by rewrite (rdz_ok _ _ (n, c)) by (lia || apply lookup_last_request). Qed.

Lemma WaitRequest_last t n c :
  WaitRequest (t ++ [(n, c)]) (Z.of_nat (length t)) = if n =? c then Ok tt else Err (Blocked "WaitRequest").
Proof. unfold WaitRequest. by rewrite (rdz_ok _ _ (n, c)) by (lia || apply lookup_last_request). Qed.

(** Counting [k] single responses one after the other. *)
Fixpoint add_responses (k : nat) (t : tracker) (ts : Z) : result tracker :=
  match k with O => Ok t | S k => t ← AddResponse t ts 1; add_responses k t ts end.

Lemma add_responses_ok k : ∀ t ts n c, 0 ≤ ts → t !! Z.to_nat ts = Some (n, c) → 0 ≤ c →
  c + Z.of_nat k < 2 ^ 31 → add_responses k t ts = Ok (<[Z.to_nat ts := (n, c + Z.of_nat k)]> t).
Proof.
  induction k as [|k IH]; intros t ts n c H0 H Hc Hk; cbn [add_responses].
  - rewrite Z.add_0_r. by rewrite list_insert_id.
  - rewrite (AddResponse_ok t ts n c 1) by (done || lia). rstep.
    rewrite (IH _ ts n (c + 1)); [|done| |lia|lia].
    + rewrite list_insert_insert_eq. do 3 f_equal. lia.
    + apply list_lookup_insert_eq. by eapply lookup_lt_Some.
Qed.

(** A request is finished exactly when every receiver has been accounted for.  After
    [NewRequest] for [num] nodes, [skipped] of which get nothing, and [k] responses,
    [WaitRequest] returns if and only if [skipped + k = num]; requests made before keep
    their counters. *)
Theorem request_lifecycle (t : tracker) (num skipped : Z) (k : nat) :
  0 ≤ num → 0 ≤ skipped → skipped + Z.of_nat k < 2 ^ 31 →
  let '(ts, t1) := NewRequest t num in
  ∃ t2 t3, AddResponse t1 ts skipped = Ok t2 ∧ add_responses k t2 ts = Ok t3 ∧
    NumResponse t3 ts = Ok (skipped + Z.of_nat k) ∧
    (WaitRequest t3 ts = Ok tt ↔ skipped + Z.of_nat k = num) ∧
    take (length t) t3 = t.
Proof.
  intros Hn Hs Hk. cbn. set (ts := Z.of_nat (length t)).
  assert ((t ++ [(num, 0)]) !! Z.to_nat ts = Some (num, 0)) as H1.
  { unfold ts. rewrite Nat2Z.id, lookup_app_r by lia. by rewrite Nat.sub_diag. }
  assert (0 ≤ ts) as H0 by (unfold ts; lia). pose proof (lookup_lt_Some _ _ _ H1) as Hlt.
  eexists _, _. split; [apply (AddResponse_ok _ _ _ _ _ H0 H1); lia|].
  rewrite Z.add_0_l. split.
  { apply (add_responses_ok k _ ts num skipped); [done| |done|lia]. by apply list_lookup_insert_eq. }
  rewrite list_insert_insert_eq.
  assert (<[Z.to_nat ts:=(num, skipped + Z.of_nat k)]> (t ++ [(num, 0)]) = t ++ [(num, skipped + Z.of_nat k)]) as ->.
  { unfold ts. rewrite Nat2Z.id, insert_app_r_alt by lia. by rewrite Nat.sub_diag. }
  assert ((t ++ [(num, skipped + Z.of_nat k)]) !! Z.to_nat ts = Some (num, skipped + Z.of_nat k)) as H2.
  { unfold ts. rewrite Nat2Z.id, lookup_app_r by lia. by rewrite Nat.sub_diag. }
  unfold NumResponse, WaitRequest. rewrite (rdz_ok _ _ _ H0 H2). rstep. split; [done|]. split.
  - destruct (Z.eqb_spec num (skipped + Z.of_nat k)); split; intros; [lia|done|done|lia].
  - by rewrite take_app_length.
Qed.

Lemma request_lifecycle_witness :
  ∃ t2 t3, AddResponse [(2, 2); (3, 0)] 1 2 = Ok t2 ∧ add_responses 1 t2 1 = Ok t3 ∧
    WaitRequest t3 1 = Ok tt ∧ WaitRequest t2 1 = Err (Blocked "WaitRequest").
Proof.
  destruct (request_lifecycle [(2, 2)] 3 2 1) as (t2 & t3 & E2 & E3 & _ & W & _); [lia..|].
  exists t2, t3. split; [exact E2|]. split; [exact E3|]. split; [by apply W|].
  vm_compute in E2. by injection E2 as <-.
Defined.
