(* ===== verification/TwoBit.v ===== *)
(** * Two-bit gradient quantization

    The kernels that pack sixteen gradients into one 32-bit word, two bits each,
    and accumulate the quantization error in a residual array.
    Source: src/src/kvstore/gradient_compression-inl.h.

    A [float] cell of the compressed array is used as four raw bytes, so the
    compressed array is a list of four-byte blocks here. *)

From Stdlib Require Import SpecFloat ZifyNat.
From S2P Require Import Prelude Floats.

Definition posbits : list Z := [0xc0; 0x30; 0x0c; 0x03]%Z.
Definition negbits : list Z := [0x80; 0x20; 0x08; 0x02]%Z.

(** [*curr_byte |= mask] on byte [k] of block [id] *)
Definition or_byte (out : list (list Z)) (id k : nat) (mask : Z) : result (list (list Z)) :=
  block ← rd out id;
  b ← rd block k;
  block ← wr block k (Z.lor b mask);
  wr out id block.

(** [quantize_2bit::Map] *)
Definition quantize_2bit (out_block_id original_size : nat) (out : list (list Z))
    (grad residual : list float) (neg_threshold pos_threshold : float)
    : result (list (list Z) * list float) :=
  out ← wr out out_block_id [0; 0; 0; 0]%Z;
  let start := Nat.shiftl out_block_id 4 in
  let stop := if start + 16 <=? original_size then start + 16 else original_size in
  for_range start stop (fun i '(out, residual) =>
    let curr_byte := Nat.shiftr (i - start) 2 in
    r ← rd residual i;
    g ← rd grad i;
    let s := f32_add r g in
    residual ← wr residual i s;
    if f_ge s pos_threshold then
      mask ← rd posbits (Nat.land i 3);
      out ← or_byte out out_block_id curr_byte mask;
      residual ← wr residual i (f32_sub s pos_threshold);
      Ok (out, residual)
    else if f_le s neg_threshold then
      mask ← rd negbits (Nat.land i 3);
      out ← or_byte out out_block_id curr_byte mask;
      residual ← wr residual i (f32_sub s neg_threshold);
      Ok (out, residual)
    else Ok (out, residual)) (out, residual).

(** [-1 * threshold] *)
Definition negate (threshold : float) : float := f32_mul (f32_of_Z (-1)) threshold.

(** [Quantize2BitKernelLaunch]: the kernel runs once per block of the compressed
    array; the blocks touch disjoint cells. *)
Definition Quantize2BitKernelLaunch (out : list (list Z)) (grad residual : list float)
    (threshold : float) : result (list (list Z) * list float) :=
  for_range 0 (length out) (fun id '(out, residual) =>
    quantize_2bit id (length grad) out grad residual (negate threshold) threshold) (out, residual).

(** [dequantize_2bit::Map] *)
Definition dequantize_2bit (i : nat) (out : list float) (inp : list (list Z))
    (neg_threshold pos_threshold : float) : result (list float) :=
  block ← rd inp (Nat.shiftr i 4);
  ch ← rd block (Nat.shiftr (Nat.land i 15) 2);
  let col := Nat.land i 3 in
  mask ← rd posbits col;
  negmask ← rd negbits col;
  let masked := Z.land ch mask in
  wr out i (if (masked =? mask)%Z then pos_threshold
            else if (masked =? negmask)%Z then neg_threshold else f32_zero).

Definition Dequantize2BitKernelLaunch (inp : list (list Z)) (out : list float) (threshold : float)
    : result (list float) :=
  for_range 0 (length out) (fun i out =>
    dequantize_2bit i out inp (negate threshold) threshold) out.

(** ** Specification: one gradient at a time *)

Inductive level := Pos | Neg | Zero.

Definition quantize_one (neg pos r g : float) : level * float :=
  let s := f32_add r g in
  if f_ge s pos then (Pos, f32_sub s pos)
  else if f_le s neg then (Neg, f32_sub s neg)
  else (Zero, s).

Definition code (l : level) : Z := match l with Pos => 3 | Neg => 2 | Zero => 0 end.
Definition level_value (neg pos : float) (l : level) : float :=
  match l with Pos => pos | Neg => neg | Zero => f32_zero end.

(** A byte holds four codes, the first in the top two bits. *)
Definition byte_of (cs : list level) (k : nat) : Z :=
  let c j := match cs !! (4 * k + j) with Some l => code l | None => 0%Z end in
  Z.lor (Z.shiftl (c 0) 6) (Z.lor (Z.shiftl (c 1) 4) (Z.lor (Z.shiftl (c 2) 2) (c 3))).
Definition block_of (cs : list level) : list Z := [byte_of cs 0; byte_of cs 1; byte_of cs 2; byte_of cs 3].

(** ** Packing *)
Lemma shiftr2 n : Nat.shiftr n 2 = n `div` 4.
Proof. by rewrite Nat.shiftr_div_pow2. Qed.
Lemma shiftr4 n : Nat.shiftr n 4 = n `div` 16.
Proof. by rewrite Nat.shiftr_div_pow2. Qed.
Lemma shiftl4 n : Nat.shiftl n 4 = 16 * n.
Proof. rewrite Nat.shiftl_mul_pow2. simpl. lia. Qed.
Lemma land3 n : Nat.land n 3 = n `mod` 4.
Proof. change 3 with (Nat.ones 2). by rewrite Nat.land_ones. Qed.
Lemma land15 n : Nat.land n 15 = n `mod` 16.
Proof. change 15 with (Nat.ones 4). by rewrite Nat.land_ones. Qed.

Definition mask_of (l : level) (col : nat) : Z := Z.shiftl (code l) (Z.of_nat (6 - 2 * col)).

(** Or-ing the mask of a level into the byte of the next free slot appends it. *)
Lemma block_of_snoc cs l :
  length cs < 16 →
  <[length cs `div` 4 := Z.lor (byte_of cs (length cs `div` 4)) (mask_of l (length cs `mod` 4))]> (block_of cs)
  = block_of (cs ++ [l]).
Proof.
  intros H. unfold block_of, mask_of.
  do 16 (destruct cs as [|? cs];
    [cbn; unfold byte_of; cbn; rewrite <- ?Z.lor_assoc, ?Z.lor_0_r, ?Z.shiftl_0_r; reflexivity|]).
  simpl in H. lia.
Qed.

Lemma block_of_skip cs : length cs < 16 → block_of cs = block_of (cs ++ [Zero]).
Proof.
  intros H. unfold block_of, byte_of.
  do 16 (destruct cs as [|? cs]; [reflexivity|]). simpl in H. lia.
Qed.

Lemma block_lookup cs k : k < 4 → block_of cs !! k = Some (byte_of cs k).
Proof. intros. do 4 (destruct k as [|k]; [done|]). lia. Qed.

(** Masking one column of a byte recovers its level. *)
Lemma byte_decode cs k col l :
  col < 4 → cs !! (4 * k + col) = Some l →
  ∃ mask negmask, posbits !! col = Some mask ∧ negbits !! col = Some negmask ∧
    ∀ (neg pos : float),
    (if (Z.land (byte_of cs k) mask =? mask)%Z then pos
     else if (Z.land (byte_of cs k) mask =? negmask)%Z then neg else f32_zero) = level_value neg pos l.
Proof.
  intros Hc Hl. unfold byte_of.
  do 4 (destruct col as [|col]; [eexists _, _; split; [done|]; split; [done|]; intros neg pos;
    rewrite Hl; clear Hl;
    destruct (cs !! (4 * k + 0)) as [[]|], (cs !! (4 * k + 1)) as [[]|],
             (cs !! (4 * k + 2)) as [[]|], (cs !! (4 * k + 3)) as [[]|], l; vm_compute; reflexivity|]).
  lia.
Qed.

Lemma or_byte_snoc out id cs l :
  out !! id = Some (block_of cs) → length cs < 16 →
  or_byte out id (length cs `div` 4) (mask_of l (length cs `mod` 4)) = Ok (<[id := block_of (cs ++ [l])]> out).
Proof.
  intros Hout Hlen. unfold or_byte. rewrite (rd_ok _ _ _ Hout). rstep.
  assert (length cs `div` 4 < 4) by (apply Nat.Div0.div_lt_upper_bound; lia).
  rewrite (rd_ok (block_of cs) _ _ (block_lookup cs _ ltac:(done))). rstep.
  rewrite wr_ok by done. rstep. rewrite block_of_snoc by done.
  apply wr_ok. by eapply lookup_lt_Some.
Qed.

Lemma posbits_mask col : col < 4 → posbits !! col = Some (mask_of Pos col).
Proof. intros. do 4 (destruct col as [|col]; [done|]). lia. Qed.
Lemma negbits_mask col : col < 4 → negbits !! col = Some (mask_of Neg col).
Proof. intros. do 4 (destruct col as [|col]; [done|]). lia. Qed.

(** ** The kernel computes the specification *)
Section Kernel.
Context (neg pos : float) (grad res : list float).
Hypothesis Hlen : length res = length grad.

Definition levels : list level := zip_with (fun r g => (quantize_one neg pos r g).1) res grad.
Definition errors : list float := zip_with (fun r g => (quantize_one neg pos r g).2) res grad.

(** The residual array once the first [m] cells have been updated. *)
Definition res_at (m : nat) : list float := sofar errors res m.

Lemma length_errors : length errors = length grad.
Proof. unfold errors. rewrite length_zip_with. lia. Qed.
Lemma length_levels : length levels = length grad.
Proof. unfold levels. rewrite length_zip_with. lia. Qed.
Lemma length_res_at m : length (res_at m) = length res.
Proof. apply length_sofar. rewrite length_errors. lia. Qed.
Lemma res_at_lookup i : i < length res → res_at i !! i = res !! i.
Proof. intros. apply sofar_lookup. rewrite length_errors. lia. Qed.
Lemma res_at_step i e : errors !! i = Some e → <[i := e]> (res_at i) = res_at (S i).
Proof. apply sofar_step. rewrite length_errors. lia. Qed.
Lemma res_at_all : res_at (length grad) = errors.
Proof. apply sofar_all; rewrite ?length_errors; lia. Qed.

(** One iteration of the inner loop, for the next free slot of its block. *)
Lemma quantize_step id i out cs :
  i < length grad → out !! id = Some (block_of cs) → length cs < 16 →
  i = 16 * id + length cs →
  ∃ l, levels !! i = Some l ∧
  (r ← rd (res_at i) i; g ← rd grad i;
   let s := f32_add r g in
   residual ← wr (res_at i) i s;
   if f_ge s pos then
     mask ← rd posbits (Nat.land i 3);
     out ← or_byte out id (Nat.shiftr (i - 16 * id) 2) mask;
     residual ← wr residual i (f32_sub s pos);
     Ok (out, residual)
   else if f_le s neg then
     mask ← rd negbits (Nat.land i 3);
     out ← or_byte out id (Nat.shiftr (i - 16 * id) 2) mask;
     residual ← wr residual i (f32_sub s neg);
     Ok (out, residual)
   else Ok (out, residual)) = Ok (<[id := block_of (cs ++ [l])]> out, res_at (S i)).
Proof.
  intros Hi Hout Hcs Ei.
  destruct (lookup_lt_is_Some_2 res i) as [r Hr]; [lia|].
  destruct (lookup_lt_is_Some_2 grad i) as [g Hg]; [lia|].
  exists ((quantize_one neg pos r g).1).
  assert (levels !! i = Some (quantize_one neg pos r g).1) as Hl
    by (unfold levels; by rewrite lookup_zip_with, Hr, Hg).
  assert (errors !! i = Some (quantize_one neg pos r g).2) as He
    by (unfold errors; by rewrite lookup_zip_with, Hr, Hg).
  split; [done|].
  rewrite (rd_ok (res_at i) i r) by (rewrite res_at_lookup by lia; done). rstep.
  rewrite (rd_ok grad i g Hg). rstep.
  rewrite wr_ok by (rewrite length_res_at; lia). rstep.
  rewrite shiftr2, land3. replace (i - 16 * id) with (length cs) by lia.
  assert (i `mod` 4 = length cs `mod` 4) as Em.
  { rewrite Ei. replace (16 * id) with (4 * id * 4) by lia. rewrite Nat.add_comm, Nat.Div0.mod_add. done. }
  assert (length cs `mod` 4 < 4) by (apply Nat.mod_upper_bound; lia).
  rewrite Em. unfold quantize_one in *. set (s := f32_add r g) in *.
  destruct (f_ge s pos); [|destruct (f_le s neg)]; cbn [fst snd] in *.
  - rewrite (rd_ok _ _ _ (posbits_mask _ ltac:(done))). rstep.
    rewrite or_byte_snoc by done. rstep. rewrite wr_ok by (rewrite length_insert, length_res_at; lia).
    rstep. by rewrite list_insert_insert_eq, (res_at_step i _ He).
  - rewrite (rd_ok _ _ _ (negbits_mask _ ltac:(done))). rstep.
    rewrite or_byte_snoc by done. rstep. rewrite wr_ok by (rewrite length_insert, length_res_at; lia).
    rstep. by rewrite list_insert_insert_eq, (res_at_step i _ He).
  - rewrite (res_at_step i _ He), <- block_of_skip by done. by rewrite list_insert_id.
Qed.

Definition block_levels (id : nat) : list level := take 16 (drop (16 * id) levels).

(** One block: its slice of the levels is packed and its residuals updated. *)
Lemma quantize_block id out :
  id < length out →
  quantize_2bit id (length grad) out grad (res_at (min (16 * id) (length grad))) neg pos =
    Ok (<[id := block_of (block_levels id)]> out, res_at (min (16 * S id) (length grad))).
Proof.
  intros Hid. unfold quantize_2bit. rewrite wr_ok by done. rstep. rewrite shiftl4.
  set (n := length grad). set (start := 16 * id).
  assert ((if start + 16 <=? n then start + 16 else n) = min (16 * S id) n) as ->.
  { destruct (Nat.leb_spec (start + 16) n); lia. }
  destruct (le_lt_dec n start) as [Hge|Hlt].
  { rewrite for_range_empty by lia. f_equal. f_equal; [|f_equal; lia].
    unfold block_levels. rewrite drop_ge by (rewrite length_levels; fold n start; lia). done. }
  apply (for_range_trace (fun i =>
    (<[id := block_of (take (i - start) (drop start levels))]> out, res_at i))); [lia| | |].
  - rewrite Nat.sub_diag. replace (min start n) with start by lia. done.
  - assert (block_levels id = take (min (16 * S id) n - start) (drop start levels)) as ->; [|done].
    unfold block_levels. fold start.
    destruct (le_lt_dec (16 * S id) n); [f_equal; lia|].
    rewrite !take_ge; rewrite ?length_drop, ?length_levels; fold n; lia || done.
  - intros i Hi. cbn beta iota.
    set (cs := take (i - start) (drop start levels)).
    assert (length cs = i - start) as Hcs.
    { unfold cs. rewrite length_take, length_drop, length_levels. fold n. lia. }
    destruct (quantize_step id i (<[id := block_of cs]> out) cs) as (l & Hl & Eq);
      [lia|by apply list_lookup_insert_eq|lia|lia|].
    etrans; [exact Eq|]. rewrite list_insert_insert_eq.
    replace (S i - start) with (S (i - start)) by lia. unfold cs.
    rewrite (take_S_r _ _ l); [done|]. rewrite lookup_drop. rewrite <- Hl. f_equal. lia.
Qed.

(** The whole launch. *)
Lemma quantize_all out :
  length grad ≤ 16 * length out →
  for_range 0 (length out) (fun id '(out, residual) =>
    quantize_2bit id (length grad) out grad residual neg pos) (out, res) =
  Ok ((fun id => block_of (block_levels id)) <$> seq 0 (length out), errors).
Proof.
  intros Hn.
  apply (for_range_trace (fun k =>
    (sofar ((fun id => block_of (block_levels id)) <$> seq 0 (length out)) out k, res_at (min (16 * k) (length grad)))));
    [lia|done| |].
  - replace (min (16 * length out) (length grad)) with (length grad) by lia.
    rewrite res_at_all, sofar_all; rewrite ?length_fmap, ?length_seq; done.
  - intros k Hk. cbn beta iota.
    assert (length (sofar ((λ id, block_of (block_levels id)) <$> seq 0 (length out)) out k) = length out) as Hl.
    { apply length_sofar. by rewrite length_fmap, length_seq. }
    rewrite quantize_block by (rewrite Hl; lia). do 2 f_equal. apply sofar_step.
    + by rewrite length_fmap, length_seq.
    + rewrite list_lookup_fmap, lookup_seq_lt by lia. done.
Qed.
End Kernel.

(** ** Dequantisation reads the levels back *)
Lemma packed_lookup (ls : list level) k i :
  i < 16 * k →
  ∃ block, ((fun id => block_of (take 16 (drop (16 * id) ls))) <$> seq 0 k) !! (i `div` 16) = Some block ∧
    block !! ((i `mod` 16) `div` 4) = Some (byte_of (take 16 (drop (16 * (i `div` 16)) ls)) ((i `mod` 16) `div` 4)).
Proof.
  intros Hi. assert (i `div` 16 < k) by (apply Nat.Div0.div_lt_upper_bound; lia).
  eexists. rewrite list_lookup_fmap, lookup_seq_lt by done. split; [reflexivity|].
  apply block_lookup. apply Nat.Div0.div_lt_upper_bound. pose proof (Nat.mod_upper_bound i 16). lia.
Qed.

Lemma dequantize_step (ls : list level) k i out neg pos l :
  i < 16 * k → i < length out → ls !! i = Some l →
  dequantize_2bit i out ((fun id => block_of (take 16 (drop (16 * id) ls))) <$> seq 0 k) neg pos =
    Ok (<[i := level_value neg pos l]> out).
Proof.
  intros Hk Hi Hl. unfold dequantize_2bit. rewrite shiftr4, shiftr2, land3, land15.
  destruct (packed_lookup ls k i Hk) as (block & Hb & Hbyte).
  rewrite (rd_ok _ _ _ Hb). rstep. rewrite (rd_ok _ _ _ Hbyte). rstep.
  destruct (byte_decode (take 16 (drop (16 * (i `div` 16)) ls)) ((i `mod` 16) `div` 4) (i `mod` 4) l)
    as (mask & negmask & Hm & Hn & Hdec).
  - apply Nat.mod_upper_bound. lia.
  - rewrite lookup_take_lt, lookup_drop.
    2:{ divlia. }
    rewrite <- Hl. f_equal. divlia.
  - rewrite (rd_ok _ _ _ Hm). rstep. rewrite (rd_ok _ _ _ Hn). rstep. rewrite Hdec. by apply wr_ok.
Qed.

Lemma dequantize_all (ls : list level) k out neg pos :
  length out ≤ 16 * k → length ls = length out →
  for_range 0 (length out) (fun i out =>
    dequantize_2bit i out ((fun id => block_of (take 16 (drop (16 * id) ls))) <$> seq 0 k) neg pos) out =
  Ok (level_value neg pos <$> ls).
Proof.
  intros Hk Hls.
  apply (for_range_trace (fun m => sofar (level_value neg pos <$> ls) out m)); [lia|done| |].
  - rewrite sofar_all; rewrite ?length_fmap; lia || done.
  - intros m Hm. destruct (lookup_lt_is_Some_2 ls m) as [l Hl]; [lia|].
    rewrite (dequantize_step ls k m _ neg pos l); [|lia| |done].
    2:{ rewrite length_sofar; rewrite ?length_fmap; lia. }
    f_equal. apply sofar_step; [by rewrite length_fmap|]. by rewrite list_lookup_fmap, Hl.
Qed.

Lemma fmap_zip_with_gen {A B C D} (f : C → D) (g : A → B → C) l k :
  f <$> zip_with g l k = zip_with (fun x y => f (g x y)) l k.
Proof. revert k. induction l as [|x l IH]; intros [|y k]; simpl; by f_equal. Qed.

(** C28: Two-bit compression, as a whole, is the element-wise quantiser: for a gradient and
    a residual of [n] values and a compressed array of at least [n/16] blocks, quantising
    never touches memory out of range, leaves in every residual cell exactly the
    quantisation error of [residual + grad], and dequantising the result into any
    array of [n] values writes the level ([threshold], [-threshold] or 0) chosen for each
    value, whatever the arrays held before. *)
Theorem two_bit_roundtrip (out : list (list Z)) (grad residual buf : list float) (threshold : float) :
  length residual = length grad → length buf = length grad → length grad ≤ 16 * length out →
  ∃ compr, Quantize2BitKernelLaunch out grad residual threshold =
      Ok (compr, zip_with (fun r g => (quantize_one (negate threshold) threshold r g).2) residual grad) ∧
    length compr = length out ∧
    Dequantize2BitKernelLaunch compr buf threshold =
      Ok (zip_with (fun r g => level_value (negate threshold) threshold
            (quantize_one (negate threshold) threshold r g).1) residual grad).
Proof.
  intros Hr Hb Ho. unfold Quantize2BitKernelLaunch, Dequantize2BitKernelLaunch.
  rewrite (quantize_all _ _ _ _ Hr out Ho). eexists. split; [done|]. split.
  { by rewrite length_fmap, length_seq. }
  etrans; [apply (dequantize_all (levels (negate threshold) threshold grad residual))|].
  - lia.
  - rewrite length_levels by done. lia.
  - f_equal. unfold levels. apply fmap_zip_with_gen.
Qed.

Lemma two_bit_roundtrip_witness :
  ∃ compr residual' decoded,
    Quantize2BitKernelLaunch [[7; 7; 7; 7]%Z; [7; 7; 7; 7]%Z] (f32_of_Z <$> [3; -3; 1; 5; 0; 2; -2; 9; 1; 1; 1; -7; 4; 4; 4; 4; -1; -5]%Z)
      (replicate 18 f32_zero) (f32_of_Z 2) = Ok (compr, residual') ∧
    Dequantize2BitKernelLaunch compr (replicate 18 f32_zero) (f32_of_Z 2) = Ok decoded ∧
    decoded = f32_of_Z <$> [2; -2; 0; 2; 0; 2; -2; 2; 0; 0; 0; -2; 2; 2; 2; 2; 0; -2]%Z.
Proof.
  destruct (two_bit_roundtrip [[7; 7; 7; 7]%Z; [7; 7; 7; 7]%Z]
    (f32_of_Z <$> [3; -3; 1; 5; 0; 2; -2; 9; 1; 1; 1; -7; 4; 4; 4; 4; -1; -5]%Z)
    (replicate 18 f32_zero) (replicate 18 f32_zero) (f32_of_Z 2)) as (compr & E & _ & D);
    [reflexivity|reflexivity|vm_compute; lia|].
  eexists compr, _, _. split; [exact E|]. split; [exact D|]. vm_compute. reflexivity.
Defined.
