(* ===== verification/GradientCompression.v ===== *)
(** * Gradient compression

    The compressor object of a worker or server: its settings and how they travel
    between processes as text, the 2-bit quantiser's entry points, and bi-sparse
    compression (BSC): momentum correction, a boundary estimated from a random
    sample, selection of the large gradients, and the inverse scatter.
    Sources: src/src/kvstore/gradient_compression.cc and gradient_compression.h.

    [Engine::PushSync] closures are modelled by their effect on the arrays they
    capture; the engine orders them by the variables they declare. *)

From Stdlib Require List.
From Stdlib Require Import SpecFloat Ascii String Sorted.
From S2P Require Import Prelude Floats Text TwoBit.
Local Open Scope nat_scope.

(** ** Settings *)
Inductive CompressionType := kNone | kTwoBit | kBiSparseCompression.

Definition CompressionType_to_int (t : CompressionType) : Z :=
  match t with kNone => 0 | kTwoBit => 1 | kBiSparseCompression => 2 end.

(** [type_] is the enum's integer: [DecodeParams] casts whatever it reads. *)
Record GradientCompression := { type_ : Z; threshold_ : float }.

#[export] Instance GradientCompression_eq_dec : EqDecision GradientCompression.
Proof. solve_decision. Defined.

Definition GradientCompression_init : GradientCompression :=
  {| type_ := CompressionType_to_int kNone; threshold_ := f32_zero |}.

Definition is_type (gc : GradientCompression) (t : CompressionType) : bool :=
  (type_ gc =? CompressionType_to_int t)%Z.

(** [SetParams], after [InitAllowUnknown] has read [type] and [threshold]. *)
Definition SetParams (gc : GradientCompression) (type : string) (threshold : float)
    : result GradientCompression :=
  check (f_gt threshold f32_zero) "threshold must be greater than 0";;
  if bool_decide (type = "2bit"%string) then
    Ok {| type_ := CompressionType_to_int kTwoBit; threshold_ := threshold |}
  else if bool_decide (type = "bsc"%string) then
    Ok {| type_ := CompressionType_to_int kBiSparseCompression; threshold_ := threshold |}
  else Err (CheckFailed "Unknown type for gradient compression").

Definition get_type_str (gc : GradientCompression) : string := to_string_int (type_ gc).

Definition EncodeParams (gc : GradientCompression) : string :=
  let rval := get_type_str gc in
  if is_type gc kTwoBit || is_type gc kBiSparseCompression then
    String.append rval (String.append "," (to_string_float (threshold_ gc)))
  else rval.

Definition DecodeParams (gc : GradientCompression) (s : string) : result GradientCompression :=
  let elems := split "," s in
  e0 ← rd elems 0;
  t ← stoi e0;
  match elems !! 1 with
  | Some e1 =>
      if bool_decide (e1 = EmptyString) then Ok {| type_ := t; threshold_ := threshold_ gc |}
      else th ← stof e1; Ok {| type_ := t; threshold_ := th |}
  | None => Ok {| type_ := t; threshold_ := threshold_ gc |}
  end.

Definition GetCompressionFactor (gc : GradientCompression) : result Z :=
  if is_type gc kTwoBit then Ok 16%Z else Err (CheckFailed "Unsupported compression type").

Definition GetCompressedSize (gc : GradientCompression) (original_size : Z) : result Z :=
  bits ← GetCompressionFactor gc;
  Ok (if Z.rem original_size bits =? 0 then Z.quot original_size bits
      else Z.quot original_size bits + 1)%Z.

(** [Quantize] and [Dequantize] in a build without CUDA; [a] and [b] are the device
    masks of source and target, [cpu::kDevMask] is 1. *)
Definition cpu_kDevMask : Z := 1.

Definition Quantize (gc : GradientCompression) (ndim_from ndim_to ndim_residual : nat) (a b : Z)
    (from : list float) (to : list (list Z)) (residual : list float)
    : result (list (list Z) * list float) :=
  check (negb (ndim_from =? 0)) "source operand has zero dimension shape";;
  check (negb (ndim_to =? 0)) "destination operand has zero dimension shape";;
  check (negb (ndim_residual =? 0)) "residual operand has zero dimension shape";;
  if is_type gc kTwoBit then
    if (a =? cpu_kDevMask)%Z && (b =? cpu_kDevMask)%Z then
      Quantize2BitKernelLaunch to from residual (threshold_ gc)
    else Err (CheckFailed "GPU is not enabled")
  else Err (CheckFailed "Unsupported quantization of type").

Definition Dequantize (gc : GradientCompression) (ndim_from ndim_to : nat) (a b : Z)
    (from : list (list Z)) (to : list float) : result (list float) :=
  check (negb (ndim_from =? 0)) "source operands has zero dimension shape";;
  check (negb (ndim_to =? 0)) "destination operand has zero dimension shape";;
  if is_type gc kTwoBit then
    if (a =? cpu_kDevMask)%Z && (b =? cpu_kDevMask)%Z then
      Dequantize2BitKernelLaunch from to (threshold_ gc)
    else Err (CheckFailed "GPU is not enabled")
  else Err (CheckFailed "Unsupported dequantization of type").

(** ** Bi-sparse compression *)

(** The literals [0.9f] and [0.005]. *)
Definition momentum : float := S754_finite false 15099494 (-24).
Definition d0_005 : double := S754_finite false 5764607523034235 (-60).
Definition f_abs (x : spec_float) : spec_float := SFabs x.

(** [zipped_size], [sample_size] and [top_k]. *)
Definition bsc_sizes (original_size : Z) (threshold : float) : result (nat * nat * nat) :=
  zipped_size ← to_int (f32_mul (f32_of_Z original_size) threshold);
  let scaled := f64_mul (f64_of_Z original_size) d0_005 in
  sample_size ← to_int (if f_ge (f64_mul scaled (f64_of_f32 threshold)) (f64_of_Z 10) then scaled
                        else f64_of_f32 (f32_div (f32_of_Z 10) threshold));
  top_k ← to_uint (f32_mul (f32_of_Z sample_size) threshold);
  Ok (Z.to_nat zipped_size, Z.to_nat sample_size, Z.to_nat top_k).

(** [std::priority_queue] with [std::greater]: the least element on top.  The queue is
    kept as an ascending list.  A NaN breaks the strict weak order the container needs. *)
Fixpoint insert_asc (x : float) (q : list float) : list float :=
  match q with
  | [] => [x]
  | y :: q' => if f_le x y then x :: q else y :: insert_asc x q'
  end.
Definition pq_push (x : float) (q : list float) : result (list float) :=
  if is_nan x then Err (Undefined "NaN in a priority queue") else Ok (insert_asc x q).
Definition pq_top (q : list float) : result float := rd q 0.
Definition pq_pop (q : list float) : result (list float) :=
  match q with [] => Err (Undefined "pop of an empty queue") | _ :: q => Ok q end.

(** Momentum correction of the first [n] gradients. *)
Definition momentum_correct (n : nat) (grad u v : list float) : result (list float * list float) :=
  for_range 0 n (fun i '(u, v) =>
    ui ← rd u i; g ← rd grad i;
    u ← wr u i (f32_add (f32_mul ui momentum) g);
    vi ← rd v i; ui ← rd u i;
    v ← wr v i (f32_add vi ui);
    Ok (u, v)) (u, v).

(** The queue after the first [sample_size] sampled gradients. *)
Definition sample_top_k (sample_size top_k : nat) (indices : list nat) (v : list float)
    : result (list float) :=
  for_range 0 sample_size (fun i q =>
    idx ← rd indices i; x ← rd v idx;
    let abs_val := f_abs x in
    larger ← (if length q <? top_k then Ok true else t ← pq_top q; Ok (f_gt abs_val t));
    if larger : bool then
      q ← (if length q =? top_k then pq_pop q else Ok q);
      pq_push abs_val q
    else Ok q) [].

(** Move the gradients at or above the boundary to the output. *)
Definition send_large (n zipped_size : nat) (boundary : float) (out u v : list float)
    : result (list float * list float * list float * nat) :=
  for_range 0 n (fun i '(out, u, v, send_grad_index) =>
    vi ← rd v i;
    if f_ge (f_abs vi) boundary && (send_grad_index <? zipped_size) then
      out ← wr out send_grad_index vi;
      out ← wr out (send_grad_index + zipped_size) (f32_of_Z (Z.of_nat i));
      v ← wr v i f32_zero;
      u ← wr u i f32_zero;
      Ok (out, u, v, S send_grad_index)
    else Ok (out, u, v, send_grad_index)) (out, u, v, 0).

(** Fill the rest of the output with placeholders. *)
Definition fill_placeholders (from zipped_size : nat) (out : list float) : result (list float) :=
  for_range from zipped_size (fun i out =>
    out ← wr out i (f32_of_Z (-65530));
    wr out (i + zipped_size) (f32_of_Z (-1))) out.

(** [std::shuffle] with [default_random_engine(42)] is a parameter: the order it
    produces is up to the implementation of the C++ library. *)
Definition BSCompress (shuffle : list nat → list nat) (gc : GradientCompression)
    (grad out u v : list float) : result (list float * list float * list float) :=
  if is_type gc kBiSparseCompression then
    let n := length grad in
    '(zipped_size, sample_size, top_k) ← bsc_sizes (Z.of_nat n) (threshold_ gc);
    '(u, v) ← momentum_correct n grad u v;
    let indices := shuffle (seq 0 n) in
    q ← sample_top_k sample_size top_k indices v;
    boundary ← pq_top q;
    '(out, u, v, sent) ← send_large n zipped_size boundary out u v;
    out ← fill_placeholders sent zipped_size out;
    Ok (out, u, v)
  else Err (CheckFailed "Unsupported compression of type").

Definition BSCPullCompress (gc : GradientCompression) (grad out : list float) (multiplier : Z)
    : result (list float) :=
  if is_type gc kBiSparseCompression then
    let n := length grad in
    zipped ← to_int (f32_mul (f32_mul (f32_of_Z (Z.of_nat n)) (threshold_ gc)) (f32_of_Z multiplier));
    let zipped_size := Z.to_nat zipped in
    '(out, sent) ← for_range 0 n (fun i '(out, send_grad_index) =>
      g ← rd grad i;
      if f_ne g f32_zero && (send_grad_index <? zipped_size) then
        out ← wr out send_grad_index g;
        out ← wr out (send_grad_index + zipped_size) (f32_of_Z (Z.of_nat i));
        Ok (out, S send_grad_index)
      else Ok (out, send_grad_index)) (out, 0);
    fill_placeholders sent zipped_size out
  else Err (CheckFailed "Unsupported compression of type").

Definition BSCDecompress (gc : GradientCompression) (zip out : list float) : result (list float) :=
  if is_type gc kBiSparseCompression then
    let zipped_size := length zip / 2 in
    for_range 0 zipped_size (fun i out =>
      gi ← rd zip (i + zipped_size);
      grad_index ← to_int gi;
      if (0 <=? grad_index)%Z then
        g ← rd zip i;
        wr out (Z.to_nat grad_index) g
      else Ok out) (replicate (length out) f32_zero)
  else Err (CheckFailed "Unsupported compression of type").

(** ** Order on floats *)
Lemma f_le_trans x y z : f_le x y = true → f_le y z = true → f_le x z = true.
Proof.
  unfold f_le, SFleb.
  destruct x as [sx|sx| |sx mx ex], y as [sy|sy| |sy my ey], z as [sz|sz| |sz mz ez];
    simpl; repeat match goal with b : bool |- _ => destruct b end; simpl; try done;
    intros H1 H2;
    repeat match goal with
    | H : context [(?a ?= ?b)%Z] |- _ => destruct (Z.compare_spec a b); subst; simpl in *
    | |- context [(?a ?= ?b)%Z] => destruct (Z.compare_spec a b); subst; simpl in *
    | H : context [Pos.compare_cont Eq ?a ?b] |- _ =>
        change (Pos.compare_cont Eq a b) with (a ?= b)%positive in *; destruct (Pos.compare_spec a b); subst; simpl in *
    | |- context [Pos.compare_cont Eq ?a ?b] =>
        change (Pos.compare_cont Eq a b) with (a ?= b)%positive in *; destruct (Pos.compare_spec a b); subst; simpl in *
    end; try done; try lia.
Qed.

Lemma f_le_or_gt x y : is_nan x = false → is_nan y = false → f_gt x y = negb (f_le x y).
Proof.
  unfold f_gt, f_le, SFltb, SFleb.
  destruct x as [sx|sx| |sx mx ex], y as [sy|sy| |sy my ey]; simpl; try done;
    repeat match goal with b : bool |- _ => destruct b end; simpl; try done; intros _ _;
    rewrite (Z.compare_antisym ex ey); change (Pos.compare_cont Eq my mx) with (my ?= mx)%positive;
    change (Pos.compare_cont Eq mx my) with (mx ?= my)%positive; rewrite (Pos.compare_antisym mx my);
    destruct (ex ?= ey)%Z; simpl; try done; destruct (mx ?= my)%positive; done.
Qed.

(** ** The boundary is the [top_k]-th largest of the sample *)

(** Insertion sort, the reference for the bounded priority queue. *)
Definition isort (l : list float) : list float := foldl (fun s x => insert_asc x s) [] l.

Abbreviation ascending := (StronglySorted (fun a b => f_le a b = true)).

Lemma isort_snoc l x : isort (l ++ [x]) = insert_asc x (isort l).
Proof. unfold isort. by rewrite foldl_app. Qed.

Lemma length_insert_asc x q : length (insert_asc x q) = S (length q).
Proof. induction q as [|y q IH]; simpl; [done|]. destruct (f_le x y); simpl; lia. Qed.

Lemma elem_of_insert_asc x y q : y ∈ insert_asc x q ↔ y = x ∨ y ∈ q.
Proof. induction q as [|z q IH]; simpl; [set_solver|]. destruct (f_le x z); set_solver. Qed.

Lemma length_isort l : length (isort l) = length l.
Proof.
  induction l as [|x l IH] using rev_ind; [done|].
  rewrite isort_snoc, length_insert_asc, length_app, IH. simpl. lia.
Qed.

Lemma elem_of_isort l y : y ∈ isort l ↔ y ∈ l.
Proof.
  induction l as [|x l IH] using rev_ind; [done|].
  rewrite isort_snoc, elem_of_insert_asc, IH. set_solver.
Qed.

Lemma f_le_total x y : is_nan x = false → is_nan y = false → f_le x y = false → f_le y x = true.
Proof.
  intros Hx Hy Hle. pose proof (f_le_or_gt x y Hx Hy) as H. rewrite Hle in H. simpl in H.
  unfold f_gt, SFltb in H. unfold f_le, SFleb. destruct (SFcompare y x) as [[]|]; done.
Qed.

Lemma insert_asc_sorted x q :
  is_nan x = false → Forall (fun y => is_nan y = false) q → ascending q → ascending (insert_asc x q).
Proof.
  intros Hx. induction q as [|y q IH]; simpl; intros Hn Hs.
  { repeat constructor. }
  apply Forall_cons in Hn as [Hy Hn]. apply StronglySorted_inv in Hs as [Hs Hall].
  destruct (f_le x y) eqn:E.
  - constructor; [by constructor|]. constructor; [done|].
    eapply Forall_impl; [exact Hall|]. simpl. intros z. by apply f_le_trans.
  - constructor; [by apply IH|]. apply Forall_forall. intros z Hz.
    rewrite elem_of_insert_asc in Hz; destruct Hz as [->|Hz].
    + by apply f_le_total.
    + rewrite Forall_forall in Hall. by apply Hall.
Qed.

Lemma isort_sorted l : Forall (fun y => is_nan y = false) l → ascending (isort l).
Proof.
  induction l as [|x l IH] using rev_ind; intros H; [constructor|].
  apply Forall_app in H as [H Hx]. rewrite Forall_singleton in Hx. rewrite isort_snoc.
  apply insert_asc_sorted; [done| |by apply IH].
  apply Forall_forall. intros y Hy. rewrite elem_of_isort in Hy. rewrite Forall_forall in H. by apply H.
Qed.

Lemma drop_insert_le s x j y :
  s !! j = Some y → f_le x y = true → drop (S j) (insert_asc x s) = drop j s.
Proof.
  revert j. induction s as [|z s IH]; intros j Hj Hle; [done|]. simpl insert_asc.
  destruct (f_le x z) eqn:E; [done|]. destruct j as [|j]; simpl in *; [congruence|]. by apply IH.
Qed.

Lemma drop_insert_gt s x j :
  j < length s → (∀ i z, i ≤ j → s !! i = Some z → f_le x z = false) →
  drop (S j) (insert_asc x s) = insert_asc x (drop (S j) s).
Proof.
  revert j. induction s as [|z s IH]; intros j Hj Hgt; simpl in Hj; [lia|]. simpl insert_asc.
  rewrite (Hgt 0 z) by (done || lia). destruct j as [|j]; simpl; [by rewrite !drop_0|].
  apply IH; [lia|]. intros i w Hi Hw. apply (Hgt (S i) w); [lia|done].
Qed.

Lemma ascending_le s i j y z :
  ascending s → i ≤ j → s !! i = Some y → s !! j = Some z → is_nan y = false → f_le y z = true.
Proof.
  intros Hs. revert i j. induction Hs as [|x s Hs IH Hall]; intros i j Hij Hi Hj Hy; [done|].
  destruct i as [|i], j as [|j]; simpl in *; try lia.
  - assert (y = z) as <- by congruence. unfold f_le, SFleb. destruct y as [[]|[]| |[] m e]; simpl; try done;
      rewrite Z.compare_refl; change (Pos.compare_cont Eq m m) with (m ?= m)%positive;
      by rewrite Pos.compare_refl.
  - injection Hi as ->. rewrite Forall_forall in Hall. apply Hall. by eapply list_elem_of_lookup_2.
  - apply (IH i j); [lia|done|done|done].
Qed.

(** One step of the bounded queue follows one step of the sort. *)
Lemma queue_step (k : nat) (s : list float) (x : float) :
  0 < k → is_nan x = false → Forall (fun y => is_nan y = false) s → ascending s →
  (larger ← (if length (drop (length s - k) s) <? k then Ok true
             else t ← pq_top (drop (length s - k) s); Ok (f_gt x t));
   if larger : bool then
     q ← (if length (drop (length s - k) s) =? k then pq_pop (drop (length s - k) s)
          else Ok (drop (length s - k) s));
     pq_push x q
   else Ok (drop (length s - k) s)) = Ok (drop (S (length s) - k) (insert_asc x s)).
Proof.
  intros Hk Hx Hn Hs. rewrite length_drop. unfold pq_push. rewrite Hx.
  destruct (Nat.ltb_spec (length s - (length s - k)) k) as [Hlt|Hge]; rstep.
  { replace (length s - (length s - k) =? k) with false by (symmetry; apply Nat.eqb_neq; lia). rstep.
    replace (length s - k) with 0 by lia. by replace (S (length s) - k) with 0 by lia. }
  replace (length s - (length s - k) =? k) with true by (symmetry; apply Nat.eqb_eq; lia).
  replace (S (length s) - k) with (S (length s - k)) by lia. set (j := length s - k) in *.
  destruct (lookup_lt_is_Some_2 s j) as [y Hy]; [lia|].
  assert (is_nan y = false) as Hny by (rewrite Forall_lookup in Hn; by eapply Hn).
  assert (drop j s = y :: drop (S j) s) as Hd by (by rewrite (drop_S s y j)).
  rewrite Hd. unfold pq_top, pq_pop. simpl.
  rewrite f_le_or_gt by done. destruct (f_le x y) eqn:E; simpl.
  - rewrite <- Hd. by rewrite (drop_insert_le s x j y).
  - rewrite drop_insert_gt; [done|lia|]. intros i z Hi Hz.
    destruct (f_le x z) eqn:E'; [|done]. rewrite <- E. symmetry. apply f_le_trans with z; [done|].
    eapply ascending_le; [exact Hs|exact Hi|done|done|]. rewrite Forall_lookup in Hn. by eapply Hn.
Qed.

(** The absolute values of the sampled gradients, in the order they are visited. *)
Definition sample_of (sample_size : nat) (indices : list nat) (v : list float) : list float :=
  omap (fun idx => f_abs <$> v !! idx) (take sample_size indices).

Lemma sample_of_snoc m indices v idx x :
  indices !! m = Some idx → v !! idx = Some x →
  sample_of (S m) indices v = sample_of m indices v ++ [f_abs x].
Proof.
  intros Hi Hv. unfold sample_of. rewrite (take_S_r _ _ _ Hi), omap_app. simpl. by rewrite Hv.
Qed.

Lemma is_nan_abs x : is_nan (f_abs x) = is_nan x.
Proof. by destruct x. Qed.

Lemma sample_top_k_spec sample_size top_k indices v :
  0 < top_k → sample_size ≤ length indices → Forall (fun idx => idx < length v) indices →
  Forall (fun x => is_nan x = false) v →
  sample_top_k sample_size top_k indices v =
    Ok (drop (sample_size - top_k) (isort (sample_of sample_size indices v))) ∧
  length (sample_of sample_size indices v) = sample_size.
Proof.
  intros Hk Hlen Hidx Hn.
  assert (∀ m, m ≤ sample_size → length (sample_of m indices v) = m ∧
    Forall (fun x => is_nan x = false) (sample_of m indices v)) as Hs.
  { induction m as [|m IH]; intros Hm; [by split; constructor|].
    destruct (lookup_lt_is_Some_2 indices m) as [idx Hi]; [lia|].
    destruct (lookup_lt_is_Some_2 v idx) as [x Hx]; [rewrite Forall_lookup in Hidx; by eapply Hidx|].
    destruct IH as [IH1 IH2]; [lia|]. rewrite (sample_of_snoc m indices v idx x Hi Hx). split.
    - rewrite length_app. simpl. lia.
    - apply Forall_app. split; [done|]. apply Forall_singleton. rewrite is_nan_abs.
      rewrite Forall_lookup in Hn. by eapply Hn. }
  split; [|apply Hs; lia]. unfold sample_top_k.
  apply (for_range_trace (fun m => drop (m - top_k) (isort (sample_of m indices v)))); [lia|done|done|].
  intros i Hi. destruct (lookup_lt_is_Some_2 indices i) as [idx Hidx_i]; [lia|].
  destruct (lookup_lt_is_Some_2 v idx) as [x Hx]; [rewrite Forall_lookup in Hidx; by eapply Hidx|].
  destruct (Hs i) as [Hs1 Hs2]; [lia|].
  rewrite (rd_ok _ _ _ Hidx_i). rstep. rewrite (rd_ok _ _ _ Hx). rstep.
  rewrite (sample_of_snoc i indices v idx x Hidx_i Hx), isort_snoc.
  pose proof (queue_step top_k (isort (sample_of i indices v)) (f_abs x) Hk) as Hq.
  rewrite length_isort, Hs1 in Hq. apply Hq.
  - rewrite is_nan_abs. rewrite Forall_lookup in Hn. by eapply Hn.
  - apply Forall_forall. intros y Hy. rewrite elem_of_isort in Hy. rewrite Forall_forall in Hs2. by apply Hs2.
  - by apply isort_sorted.
Qed.

(** ** Sparse packing *)

(** The first [zipped] indices below [m] whose value satisfies [P]. *)
Definition satisfies (P : float → bool) (vals : list float) (i : nat) : bool :=
  match vals !! i with Some x => P x | None => false end.
Definition chosen (P : float → bool) (zipped : nat) (vals : list float) (m : nat) : list nat :=
  take zipped (List.filter (satisfies P vals) (seq 0 m)).

(** What is kept, and what is left behind, when the cells [S] of [l] are sent. *)
Definition keep (S : list nat) (l : list float) : list float :=
  imap (fun i x => if bool_decide (i ∈ S) then x else f32_zero) l.
Definition clear (S : list nat) (l : list float) : list float :=
  imap (fun i x => if bool_decide (i ∈ S) then f32_zero else x) l.

(** The values of the cells [S] and, [zipped] cells further, their indices. *)
Definition packed (zipped : nat) (vals out : list float) (S : list nat) : Prop :=
  ∀ j i, S !! j = Some i → out !! j = vals !! i ∧ out !! (j + zipped) = Some (f32_of_Z (Z.of_nat i)).

Section Chosen.
Context (P : float → bool) (zipped : nat) (vals : list float).

Lemma chosen_S m x : vals !! m = Some x →
  chosen P zipped vals (S m) =
    if P x && (length (chosen P zipped vals m) <? zipped) then chosen P zipped vals m ++ [m]
    else chosen P zipped vals m.
Proof.
  intros Hx. unfold chosen. rewrite seq_S, List.filter_app, length_take. simpl.
  set (F := List.filter _ (seq 0 m)). unfold satisfies at 1. rewrite Hx.
  destruct (P x) eqn:E; simpl; [|by rewrite app_nil_r].
  destruct (Nat.ltb_spec (zipped `min` length F) zipped).
  - rewrite !take_ge; rewrite ?length_app; simpl; lia || done.
  - rewrite take_app_le by lia. done.
Qed.

Lemma chosen_lt m i : i ∈ chosen P zipped vals m → i < m.
Proof.
  unfold chosen. rewrite elem_of_take. intros (j & Hj & _).
  apply list_elem_of_lookup_2, list_elem_of_In, List.filter_In in Hj as [Hj _].
  apply list_elem_of_In, elem_of_seq in Hj. lia.
Qed.

Lemma chosen_length m : length (chosen P zipped vals m) ≤ zipped.
Proof. unfold chosen. rewrite length_take. lia. Qed.
End Chosen.

Lemma length_keep S l : length (keep S l) = length l.
Proof. apply length_imap. Qed.
Lemma length_clear S l : length (clear S l) = length l.
Proof. apply length_imap. Qed.

Lemma clear_lookup S l m : m ∉ S → clear S l !! m = l !! m.
Proof.
  intros Hm. unfold clear. rewrite list_lookup_imap. destruct (l !! m); simpl; [|done].
  by rewrite bool_decide_false.
Qed.

Lemma clear_snoc S l m : m < length l → <[m := f32_zero]> (clear S l) = clear (S ++ [m]) l.
Proof.
  intros Hm. apply list_eq. intros i. unfold clear.
  destruct (decide (i = m)) as [->|Hi].
  - rewrite list_lookup_insert_eq by (rewrite length_imap; lia). rewrite list_lookup_imap.
    destruct (lookup_lt_is_Some_2 l m Hm) as [x ->]. simpl. rewrite bool_decide_true by set_solver. done.
  - rewrite list_lookup_insert_ne, !list_lookup_imap by done. destruct (l !! i); simpl; [|done].
    f_equal. assert (i ∈ S ++ [m] ↔ i ∈ S) as H by set_solver. by rewrite (bool_decide_ext _ _ H).
Qed.

Lemma keep_snoc S l m x : l !! m = Some x → <[m := x]> (keep S l) = keep (S ++ [m]) l.
Proof.
  intros Hx. pose proof (lookup_lt_Some _ _ _ Hx). apply list_eq. intros i. unfold keep.
  destruct (decide (i = m)) as [->|Hi].
  - rewrite list_lookup_insert_eq by (rewrite length_imap; lia). rewrite list_lookup_imap, Hx.
    simpl. rewrite bool_decide_true by set_solver. done.
  - rewrite list_lookup_insert_ne, !list_lookup_imap by done. destruct (l !! i); simpl; [|done].
    f_equal. assert (i ∈ S ++ [m] ↔ i ∈ S) as H' by set_solver. by rewrite (bool_decide_ext _ _ H').
Qed.

Lemma keep_nil l : keep [] l = replicate (length l) f32_zero.
Proof.
  apply list_eq. intros i. unfold keep. rewrite list_lookup_imap.
  destruct (l !! i) eqn:E; simpl.
  - symmetry. apply lookup_replicate. split; [done|]. by eapply lookup_lt_Some.
  - symmetry. apply lookup_replicate_None. by apply lookup_ge_None.
Qed.

Lemma clear_nil l : clear [] l = l.
Proof.
  apply list_eq. intros i. by rewrite clear_lookup by set_solver.
Qed.

Lemma packed_snoc zipped vals out S m x :
  packed zipped vals out S → length S < zipped → length S + zipped < length out → vals !! m = Some x →
  packed zipped vals (<[length S + zipped := f32_of_Z (Z.of_nat m)]> (<[length S := x]> out)) (S ++ [m]).
Proof.
  intros Hp Hlt Hlen Hx j i Hj. apply lookup_app_Some in Hj as [Hj|[Hge Hj]].
  - pose proof (lookup_lt_Some _ _ _ Hj). destruct (Hp j i Hj) as [H1 H2].
    rewrite !list_lookup_insert_ne by lia. done.
  - apply list_lookup_singleton_Some in Hj as [Hj <-]. assert (j = length S) as -> by lia.
    rewrite list_lookup_insert_ne, list_lookup_insert_eq by lia.
    rewrite list_lookup_insert_eq by (rewrite length_insert; lia). done.
Qed.

(** Filling the tail writes index -1 in the free slots and keeps the rest. *)
Lemma fill_spec from zipped out :
  from ≤ zipped → 2 * zipped ≤ length out →
  ∃ out', fill_placeholders from zipped out = Ok out' ∧ length out' = length out ∧
    (∀ j, j < from → out' !! j = out !! j ∧ out' !! (j + zipped) = out !! (j + zipped)) ∧
    (∀ j, from ≤ j < zipped → out' !! (j + zipped) = Some (f32_of_Z (-1))).
Proof.
  intros Hf Hz. unfold fill_placeholders.
  destruct (for_range_ok (fun m out' => length out' = length out ∧
    (∀ j, j < from → out' !! j = out !! j ∧ out' !! (j + zipped) = out !! (j + zipped)) ∧
    (∀ j, from ≤ j < m → out' !! (j + zipped) = Some (f32_of_Z (-1)))) from zipped
    (fun i out => out ← wr out i (f32_of_Z (-65530)); wr out (i + zipped) (f32_of_Z (-1))) out)
    as (out' & E & H1 & H2 & H3); [done| | |by exists out'].
  { split; [done|]. split; [done|]. intros; lia. }
  intros i a Hi (Hl & Hlow & Hhigh). rewrite wr_ok by lia. rstep.
  rewrite wr_ok by (rewrite length_insert; lia). eexists. split; [done|].
  rewrite !length_insert. split; [done|]. split; intros j Hj.
  - rewrite !list_lookup_insert_ne by lia. by apply Hlow.
  - destruct (decide (j = i)) as [->|]; [by rewrite list_lookup_insert_eq by (rewrite length_insert; lia)|].
    rewrite !list_lookup_insert_ne by lia. apply Hhigh. lia.
Qed.

(** Scattering a packed array puts every chosen value back in its place. *)
Lemma decompress_spec gc zip buf vals S :
  is_type gc kBiSparseCompression = true → length buf = length vals →
  (Z.of_nat (length vals) ≤ 2 ^ 24)%Z → length S ≤ length zip / 2 → (∀ i, i ∈ S → i < length vals) →
  packed (length zip / 2) vals zip S →
  (∀ j, length S ≤ j < length zip / 2 → zip !! (j + length zip / 2) = Some (f32_of_Z (-1))) →
  BSCDecompress gc zip buf = Ok (keep S vals).
Proof.
  intros Ht Hb Hn HS Hlt Hp Hfill. unfold BSCDecompress. rewrite Ht. set (z := length zip / 2) in *.
  apply (for_range_trace (fun j => keep (take j S) vals)); [lia| | |].
  - by rewrite take_0, keep_nil, Hb.
  - by rewrite take_ge.
  - intros j Hj. destruct (S !! j) as [i|] eqn:E.
    + destruct (Hp j i E) as [H1 H2]. rewrite (rd_ok _ _ _ H2). rstep.
      assert (i < length vals) as Hi by (apply Hlt; by eapply list_elem_of_lookup_2).
      unfold to_int. rewrite f32_of_Z_to_int by lia. rstep.
      replace (0 <=? Z.of_nat i)%Z with true by (symmetry; apply Z.leb_le; lia).
      destruct (lookup_lt_is_Some_2 vals i Hi) as [x Hx]. rewrite (rd_ok zip j x) by congruence. rstep.
      rewrite Nat2Z.id, wr_ok by (rewrite length_keep; lia). f_equal.
      rewrite (take_S_r _ _ _ E). by apply keep_snoc.
    + apply lookup_ge_None in E. rewrite (rd_ok _ _ _ (Hfill j ltac:(lia))). rstep.
      change (to_int (f32_of_Z (-1))) with (@Ok Z (-1)%Z). rstep. simpl.
      by rewrite !take_ge by lia.
Qed.

(** ** The selection loops *)
Lemma send_large_spec zipped boundary out u v :
  length u = length v → 2 * zipped ≤ length out →
  let P := fun x => f_ge (f_abs x) boundary in
  let sel := chosen P zipped v (length v) in
  ∃ out', send_large (length v) zipped boundary out u v = Ok (out', clear sel u, clear sel v, length sel) ∧
    length out' = length out ∧ packed zipped v out' sel.
Proof.
  intros Hu Hz P sel. unfold send_large.
  edestruct (for_range_ok (fun m '(out', u', v', k) =>
    u' = clear (chosen P zipped v m) u ∧ v' = clear (chosen P zipped v m) v ∧
    k = length (chosen P zipped v m) ∧ length out' = length out ∧ packed zipped v out' (chosen P zipped v m))
    0 (length v)) as ([[[out' u'] v'] k] & E & -> & -> & -> & H1 & H2);
    [lia| | |exists out'; split; [exact E|by split]].
  - unfold chosen. simpl. rewrite take_nil, !clear_nil. by split_and!.
  - intros m [[[out' u'] v'] k] Hm (-> & -> & -> & Hl & Hp). simpl.
    destruct (lookup_lt_is_Some_2 v m) as [x Hx]; [lia|].
    assert (m ∉ chosen P zipped v m) as Hnotin by (intros Hin; apply chosen_lt in Hin; lia).
    rewrite (rd_ok _ m x) by (by rewrite clear_lookup). rstep.
    rewrite (chosen_S P zipped v m x Hx). change (P x) with (f_ge (f_abs x) boundary).
    pose proof (chosen_length P zipped v m).
    destruct (f_ge (f_abs x) boundary && (length (chosen P zipped v m) <? zipped)) eqn:E.
    2:{ eexists. split; [reflexivity|]. by split_and!. }
    apply andb_true_iff in E as [_ E]. apply Nat.ltb_lt in E.
    rewrite (wr_ok out') by lia. rstep. rewrite (wr_ok (<[_ := _]> out')) by (rewrite length_insert; lia). rstep.
    rewrite wr_ok by (rewrite length_clear; lia). rstep.
    rewrite wr_ok by (rewrite length_clear; lia). rstep.
    eexists. split; [reflexivity|]. simpl. rewrite !clear_snoc by lia. rewrite length_app, !length_insert. simpl.
    split; [done|]. split; [done|]. split; [lia|]. split; [done|]. by apply packed_snoc; [| |lia|].
Qed.

Lemma momentum_correct_spec grad u v :
  length u = length grad → length v = length grad →
  let u1 := zip_with (fun ui g => f32_add (f32_mul ui momentum) g) u grad in
  momentum_correct (length grad) grad u v = Ok (u1, zip_with f32_add v u1).
Proof.
  intros Hu Hv u1. assert (length u1 = length grad) as H1 by (unfold u1; rewrite length_zip_with; lia).
  set (v1 := zip_with f32_add v u1).
  assert (length v1 = length grad) as H2 by (unfold v1; rewrite length_zip_with; lia).
  apply (for_range_trace (fun m => (sofar u1 u m, sofar v1 v m))); [lia|done| |].
  { by rewrite !sofar_all by lia. }
  intros m Hm. destruct (lookup_lt_is_Some_2 u m) as [ui Hui]; [lia|].
  destruct (lookup_lt_is_Some_2 v m) as [vi Hvi]; [lia|].
  destruct (lookup_lt_is_Some_2 grad m) as [g Hg]; [lia|].
  assert (u1 !! m = Some (f32_add (f32_mul ui momentum) g)) as Hu1 by (unfold u1; by rewrite lookup_zip_with, Hui, Hg).
  assert (v1 !! m = Some (f32_add vi (f32_add (f32_mul ui momentum) g))) as Hv1
    by (unfold v1; by rewrite lookup_zip_with, Hvi, Hu1).
  rewrite (rd_ok (sofar u1 u m) m ui) by (rewrite sofar_lookup by lia; done). rstep.
  rewrite (rd_ok _ _ _ Hg). rstep. rewrite (wr_ok (sofar u1 u m)) by (rewrite length_sofar; lia). rstep.
  rewrite (sofar_step u1 u m _ ltac:(lia) Hu1).
  rewrite (rd_ok (sofar v1 v m) m vi) by (rewrite sofar_lookup by lia; done). rstep.
  rewrite (rd_ok (sofar u1 u (S m)) m (f32_add (f32_mul ui momentum) g)).
  2:{ unfold sofar. rewrite lookup_app_l by (rewrite length_take; lia). rewrite lookup_take_lt by lia. done. }
  rstep. rewrite wr_ok by (rewrite length_sofar; lia). rstep.
  by rewrite (sofar_step v1 v m _ ltac:(lia) Hv1).
Qed.

Lemma pull_select_spec zipped grad out :
  2 * zipped ≤ length out →
  let P := fun x => f_ne x f32_zero in
  let sel := chosen P zipped grad (length grad) in
  ∃ out', for_range 0 (length grad) (fun i '(out, send_grad_index) =>
      g ← rd grad i;
      if f_ne g f32_zero && (send_grad_index <? zipped) then
        out ← wr out send_grad_index g;
        out ← wr out (send_grad_index + zipped) (f32_of_Z (Z.of_nat i));
        Ok (out, S send_grad_index)
      else Ok (out, send_grad_index)) (out, 0) = Ok (out', length sel) ∧
    length out' = length out ∧ packed zipped grad out' sel.
Proof.
  intros Hz P sel.
  edestruct (for_range_ok (fun m '(out', k) =>
    k = length (chosen P zipped grad m) ∧ length out' = length out ∧ packed zipped grad out' (chosen P zipped grad m))
    0 (length grad)) as ([out' k] & E & -> & H1 & H2);
    [lia| | |exists out'; split; [exact E|by split]].
  - unfold chosen. simpl. rewrite take_nil. by split_and!.
  - intros m [out' k] Hm (-> & Hl & Hp). simpl.
    destruct (lookup_lt_is_Some_2 grad m) as [x Hx]; [lia|].
    rewrite (rd_ok _ _ _ Hx). rstep. rewrite (chosen_S P zipped grad m x Hx). change (P x) with (f_ne x f32_zero).
    pose proof (chosen_length P zipped grad m).
    destruct (f_ne x f32_zero && (length (chosen P zipped grad m) <? zipped)) eqn:E.
    2:{ eexists. split; [reflexivity|]. by split_and!. }
    apply andb_true_iff in E as [_ E]. apply Nat.ltb_lt in E.
    rewrite (wr_ok out') by lia. rstep. rewrite (wr_ok (<[_ := _]> out')) by (rewrite length_insert; lia). rstep.
    eexists. split; [reflexivity|]. simpl. rewrite length_app, !length_insert. simpl.
    split; [lia|]. split; [done|]. by apply packed_snoc; [| |lia|].
Qed.

(** ** Properties *)


(** A run: ten-fold sampling of 40 gradients at threshold 0.25. *)
Definition w_gc : GradientCompression := {| type_ := 2; threshold_ := decimal false 25 (-2) |}.
Definition w_grad : list float := f32_of_Z <$> (Z.of_nat <$> seq 1 40).


(** When the budget is not exceeded, the chosen cells are all the satisfying ones. *)
Lemma keep_chosen_all P zipped vals :
  length (List.filter (satisfies P vals) (seq 0 (length vals))) ≤ zipped →
  keep (chosen P zipped vals (length vals)) vals = (fun x => if P x then x else f32_zero) <$> vals.
Proof.
  intros Hle. apply list_eq. intros i. unfold keep. rewrite list_lookup_imap, list_lookup_fmap.
  destruct (vals !! i) as [x|] eqn:E; simpl; [|done]. f_equal.
  pose proof (lookup_lt_Some _ _ _ E).
  unfold chosen. rewrite take_ge by done.
  assert (i ∈ List.filter (satisfies P vals) (seq 0 (length vals)) ↔ P x = true) as Hi.
  { rewrite list_elem_of_In, List.filter_In. unfold satisfies. rewrite E, <- list_elem_of_In, elem_of_seq. naive_solver lia. }
  destruct (P x); [rewrite bool_decide_true by (by apply Hi)|rewrite bool_decide_false]; naive_solver.
Qed.

(** What a global server sends back in bi-sparse mode is exact.  If at most
    [zipped_size] aggregated gradients are non-zero, compressing them for the pull and
    decompressing them at the local server reproduces every value (a zero of either sign
    arrives as +0). *)
Theorem bsc_pull_exact (gc : GradientCompression) (grad out buf : list float) (multiplier zipped : Z) :
  is_type gc kBiSparseCompression = true →
  to_int (f32_mul (f32_mul (f32_of_Z (Z.of_nat (length grad))) (threshold_ gc)) (f32_of_Z multiplier)) = Ok zipped →
  length buf = length grad → (Z.of_nat (length grad) ≤ 2 ^ 24)%Z → length out / 2 = Z.to_nat zipped →
  length (List.filter (satisfies (fun x => f_ne x f32_zero) grad) (seq 0 (length grad))) ≤ Z.to_nat zipped →
  ∃ out', BSCPullCompress gc grad out multiplier = Ok out' ∧
    BSCDecompress gc out' buf = Ok ((fun x => if f_ne x f32_zero then x else f32_zero) <$> grad).
Proof.
  intros Ht Hz Hb Hn Ho Hcount. unfold BSCPullCompress. rewrite Ht, Hz. rstep.
  set (z := Z.to_nat zipped) in *.
  assert (2 * z ≤ length out) as Hout by (pose proof (Nat.div_mod_eq (length out) 2); lia).
  destruct (pull_select_spec z grad out Hout) as (out1 & Hsel & Hl1 & Hpk). rewrite Hsel. rstep.
  set (sent := chosen (fun x => f_ne x f32_zero) z grad (length grad)) in *.
  pose proof (chosen_length (fun x => f_ne x f32_zero) z grad (length grad)) as Hsl. fold sent in Hsl.
  destruct (fill_spec (length sent) z out1) as (out' & Hfill & Hl2 & Hlow & Hhigh); [done|lia|].
  exists out'. split; [done|]. rewrite <- (keep_chosen_all (fun x => f_ne x f32_zero) z grad) by done.
  assert (length out' / 2 = z) as Hz' by (rewrite Hl2, Hl1; done).
  apply (decompress_spec gc out' buf grad sent); rewrite ?Hz'; [done|lia|lia|done| | |done].
  - intros i Hi. apply chosen_lt in Hi. lia.
  - intros j i Hj. pose proof (lookup_lt_Some _ _ _ Hj). destruct (Hlow j) as [-> ->]; [done|]. by apply Hpk.
Qed.

Lemma bsc_pull_exact_witness :
  ∃ out', BSCPullCompress w_gc (clear [3; 4; 5; 6; 7] (f32_of_Z <$> [5; 0; -2; 9; 9; 9; 9; 9]%Z)) (replicate 8 f32_zero) 2 = Ok out' ∧
    BSCDecompress w_gc out' (replicate 8 f32_zero) = Ok (f32_of_Z <$> [5; 0; -2; 0; 0; 0; 0; 0]%Z).
Proof.
  destruct (bsc_pull_exact w_gc (clear [3; 4; 5; 6; 7] (f32_of_Z <$> [5; 0; -2; 9; 9; 9; 9; 9]%Z))
    (replicate 8 f32_zero) (replicate 8 f32_zero) 2 4) as (out' & H1 & H2);
    [reflexivity|vm_compute; reflexivity|reflexivity|vm_compute; discriminate|reflexivity|vm_compute; lia|].
  exists out'. split; [exact H1|]. rewrite H2. vm_compute. reflexivity.
Defined.

(** Nothing keeps the sample inside the array.  With the threshold 0.00001 and
    200000 gradients (the default size from which tensors are compressed) the sample
    size is 1000000, and [BSCompress] reads past the index array whatever it is given. *)
Theorem bsc_sample_overrun (shuffle : list nat → list nat) (grad out u v : list float) :
  (∀ l, shuffle l ≡ₚ l) → Z.of_nat (length grad) = 200000%Z →
  is_ok (BSCompress shuffle {| type_ := 2; threshold_ := decimal false 1 (-5) |} grad out u v) = false.
Proof.
  intros Hp Hn. apply not_true_is_false. intros Hok. destruct (BSCompress _ _ _ _ _ _) as [r|e] eqn:E; [|done].
  unfold BSCompress in E. rewrite Hn in E. simpl is_type in E. cbn [threshold_] in E.
  apply bind_Ok_inv in E as ([[z s] k] & Hs & E). apply bind_Ok_inv in E as ([u1 v1] & _ & E).
  apply bind_Ok_inv in E as (q & Hq & _). unfold sample_top_k in Hq.
  assert (Z.of_nat s = 1000000%Z) as Hs'.
  { unfold bsc_sizes in Hs. apply bind_Ok_inv in Hs as (z' & Hz & Hs). apply bind_Ok_inv in Hs as (s' & Hs1 & Hs).
    apply bind_Ok_inv in Hs as (k' & _ & Hs). injection Hs as _ <- _.
    vm_compute in Hs1. injection Hs1 as <-. by rewrite Z2Nat.id by lia. }
  destruct (for_range_inv _ _ _ _ _ Hq (length grad) ltac:(lia)) as (a & b & Hb).
  apply bind_Ok_inv in Hb as (idx & Hi & _). apply rd_inv, lookup_lt_Some in Hi.
  rewrite (Hp _), length_seq in Hi. lia.
Qed.

Lemma bsc_sample_overrun_witness :
  is_ok (BSCompress (fun l => l) {| type_ := 2; threshold_ := decimal false 1 (-5) |}
    (replicate (Z.to_nat 200000) f32_zero) [] [] []) = false.
Proof.
  apply bsc_sample_overrun; [intros l; reflexivity|]. rewrite length_replicate, Z2Nat.id; lia.
Defined.

(** ** Settings as text *)
Definition params_roundtrip_at (t : CompressionType) (k : nat) : bool :=
  let gc := {| type_ := CompressionType_to_int t; threshold_ := decimal false (Z.of_nat k) (-3) |} in
  bool_decide (DecodeParams GradientCompression_init (EncodeParams gc) = Ok gc).

Lemma params_roundtrip_all :
  forallb (params_roundtrip_at kTwoBit) (seq 1 1000) && forallb (params_roundtrip_at kBiSparseCompression) (seq 1 1000) = true.
Proof. vm_compute. reflexivity. Qed.

(** The compression settings survive the trip as text from the worker that sets them
    to every server: for both algorithms and every threshold that is a multiple of 0.001
    up to 1, decoding the encoded parameters restores type and threshold bit for bit. *)
Theorem params_roundtrip (t : CompressionType) (k : nat) :
  t ≠ kNone → 1 ≤ k ≤ 1000 →
  let gc := {| type_ := CompressionType_to_int t; threshold_ := decimal false (Z.of_nat k) (-3) |} in
  DecodeParams GradientCompression_init (EncodeParams gc) = Ok gc.
Proof.
  intros Ht Hk gc. pose proof params_roundtrip_all as H. apply andb_true_iff in H as [H1 H2].
  rewrite List.forallb_forall in H1, H2.
  assert (In k (seq 1 1000)) as Hin by (apply list_elem_of_In, elem_of_seq; lia).
  destruct t; [done| |]; eapply bool_decide_eq_true_1; [apply (H1 k Hin)|apply (H2 k Hin)].
Qed.

Lemma params_roundtrip_witness :
  DecodeParams GradientCompression_init
    (EncodeParams {| type_ := 2; threshold_ := decimal false 10 (-3) |}) =
  Ok {| type_ := 2; threshold_ := decimal false 10 (-3) |}.
Proof. apply (params_roundtrip kBiSparseCompression 10); [discriminate|lia]. Defined.

(** Six decimals are not enough for small thresholds: every server that decodes
    the text of the valid threshold 0.0000004 is left with threshold 0. *)
Theorem params_underflow :
  SetParams GradientCompression_init "2bit" (decimal false 4 (-7)) =
    Ok {| type_ := 1; threshold_ := decimal false 4 (-7) |} ∧
  DecodeParams GradientCompression_init (EncodeParams {| type_ := 1; threshold_ := decimal false 4 (-7) |}) =
    Ok {| type_ := 1; threshold_ := f32_zero |}.
Proof. split; vm_compute; reflexivity. Qed.
