(* ===== verification/KeyEncoding.v ===== *)
(** * From parameter keys to server keys

    How a worker spreads the value of a key over the servers of its data center, and
    how a local server spreads it over the global servers: one server for a small
    array, one contiguous part per server for a large one, fixed-size slices in P3
    mode, compressed parts with their original sizes, and rows of a sparse array.
    Sources: src/src/kvstore/kvstore_dist.h (Encode*Key, CheckUnique) and
    src/src/kvstore/kvstore_dist_server.h (Encode*Key, DecodeKey, PSKV). *)

From Stdlib Require Import SpecFloat Sorted.
From S2P Require Import Prelude StdAlgo Floats Text Postoffice TwoBit GradientCompression.
Local Open Scope Z_scope.

Record PSKV := { pskv_keys : list Z; pskv_lens : list Z; pskv_size : Z }.
Record ComprPSKV := { compr_push : PSKV; compr_pull : PSKV }.
Definition PSKV_empty : PSKV := {| pskv_keys := []; pskv_lens := []; pskv_size := 0 |}.

(** [krs[i].begin() + offset] *)
Definition ps_key (kr : Range) (offset : Z) : Z := u64 (range_begin kr + offset).
(** ... followed by its [CHECK_LT]. *)
Definition checked_key (kr : Range) (offset : Z) : result Z :=
  check (ps_key kr offset <? range_end kr) "Check failed: ps_key < krs[i].end()";; Ok (ps_key kr offset).

Definition push_back (p : PSKV) (key len : Z) : PSKV :=
  {| pskv_keys := pskv_keys p ++ [key]; pskv_lens := pskv_lens p ++ [len]; pskv_size := pskv_size p |}.
Definition set_size (p : PSKV) (size : Z) : PSKV :=
  {| pskv_keys := pskv_keys p; pskv_lens := pskv_lens p; pskv_size := size |}.

(** [(key * 9973) % num_servers] *)
Definition pick_server (key num_servers : Z) : result Z :=
  p ← int_mul key 9973; Ok (Z.rem p num_servers).

(** ** EncodeDefaultKey *)
Definition fresh_default (bigarray_bound : Z) (krs : list Range) (key num_arr_elems num_bytes : Z)
    : result PSKV :=
  let num_servers := Z.of_nat (length krs) in
  check (0 <? num_servers) "Check failed: num_servers > 0";;
  if num_arr_elems <? bigarray_bound then
    server ← pick_server key num_servers;
    kr ← rdz krs server;
    k ← checked_key kr key;
    let total_bytes := i32 (u64 (num_arr_elems * num_bytes)) in
    Ok (set_size (push_back PSKV_empty k total_bytes) total_bytes)
  else
    for_range 0 (length krs) (fun i pskv =>
      let i' := Z.of_nat i in
      let part_size := u64 (cut num_arr_elems num_servers (i' + 1) - cut num_arr_elems num_servers i') in
      kr ← rd krs i;
      k ← checked_key kr key;
      let total_bytes := i32 (u64 (part_size * num_bytes)) in
      size ← int_add (pskv_size pskv) total_bytes;
      Ok (set_size (push_back pskv k total_bytes) size)) PSKV_empty.

Definition encode_default (bigarray_bound : Z) (krs : list Range) (ps_kv : gmap Z PSKV)
    (key num_arr_elems num_bytes : Z) : result (gmap Z PSKV * PSKV) :=
  let pskv := default PSKV_empty (ps_kv !! key) in
  let size := u64 (num_arr_elems * num_bytes) in
  pskv ← (if bool_decide (pskv_keys pskv ≠ []) then Ok pskv
          else fresh_default bigarray_bound krs key num_arr_elems num_bytes);
  check (u64 (pskv_size pskv) =? size) "The value size cannot be changed";;
  Ok (<[key := pskv]> ps_kv, pskv).

(** The worker's version cuts over its local servers, the server's over the global ones. *)
Definition EncodeDefaultKey (bigarray_bound num_servers : Z) :=
  encode_default bigarray_bound (GetServerKeyRanges num_servers).
Definition EncodeDefaultKey_global (bigarray_bound num_global_servers : Z) :=
  encode_default bigarray_bound (GetServerKeyRanges num_global_servers).

(** [DecodeKey] at the server of the given rank. *)
Definition DecodeKey (num_servers my_rank key : Z) : result Z :=
  kr ← rdz (GetServerKeyRanges num_servers) my_rank;
  Ok (i32 (u64 (key - range_begin kr))).

(** ** EncodeP3Key *)

(** The [while (true)] loop, [None] when [fuel] iterations do not finish it. *)
Fixpoint p3_loop (fuel : nat) (bigarray_bound : Z) (krs : list Range) (num_bytes : Z)
    (s i key_temp : Z) (pskv : PSKV) : option (result (PSKV * Z)) :=
  match fuel with
  | O => None
  | S fuel =>
      match (kr ← rdz krs (Z.rem i (Z.of_nat (length krs)));
             let k := ps_key kr (u64 key_temp) in
             key_temp ← int_add key_temp 1;
             check (k <? range_end kr) "Check failed: ps_key < krs[i].end()";;
             Ok (k, key_temp)) with
      | Err e => Some (Err e)
      | Ok (k, key_temp) =>
          if bigarray_bound <? s then
            let bytes := u64 (bigarray_bound * num_bytes) in
            let pskv := set_size (push_back pskv k (i32 bytes)) (i32 (u64 (pskv_size pskv) + bytes)) in
            p3_loop fuel bigarray_bound krs num_bytes (u64 (s - bigarray_bound)) (i + 1) key_temp pskv
          else
            let bytes := u64 (s * num_bytes) in
            Some (Ok (set_size (push_back pskv k (i32 bytes)) (i32 (u64 (pskv_size pskv) + bytes)), key_temp))
      end
  end.

(** [n / bound + 1] iterations are enough when the bound is positive. *)
Definition EncodeP3Key (bigarray_bound num_servers : Z) (ps_kv : gmap Z PSKV) (key_temp : Z)
    (key num_arr_elems num_bytes : Z) : option (result (gmap Z PSKV * Z * PSKV)) :=
  let pskv := default PSKV_empty (ps_kv !! key) in
  let size := u64 (num_arr_elems * num_bytes) in
  if bool_decide (pskv_keys pskv ≠ []) then
    Some (check (u64 (pskv_size pskv) =? size) "The value size cannot be changed";;
          Ok (<[key := pskv]> ps_kv, key_temp, pskv))
  else
    let krs := GetServerKeyRanges num_servers in
    if 0 <? Z.of_nat (length krs) then
      let key_temp := if key =? 0 then 0 else key_temp in
      r ← p3_loop (S (Z.to_nat (num_arr_elems / bigarray_bound))) bigarray_bound krs num_bytes
            num_arr_elems 0 key_temp PSKV_empty;
      Some ('(pskv, key_temp) ← r;
            check (u64 (pskv_size pskv) =? size) "Check failed: pskv.size == pskv_size";;
            Ok (<[key := pskv]> ps_kv, key_temp, pskv))
    else Some (Err (CheckFailed "Check failed: num_servers > 0")).

(** ** EncodeCompressedKey *)
Definition fresh_compressed (gc : GradientCompression) (krs : list Range) (single : bool)
    (key original_num_elem compr_num_elem pull_num_elem num_bytes : Z) : result ComprPSKV :=
  let num_servers := Z.of_nat (length krs) in
  if single then
    server ← pick_server key num_servers;
    kr ← rdz krs server;
    k ← checked_key kr key;
    let compr_size := i32 (u64 (compr_num_elem * num_bytes)) in
    let pull_size := i32 (u64 (pull_num_elem * num_bytes)) in
    Ok {| compr_push := set_size (push_back (push_back PSKV_empty (ps_key kr original_num_elem) 0) k compr_size) compr_size;
          compr_pull := set_size (push_back PSKV_empty k pull_size) pull_size |}
  else
    c ← for_range 0 (length krs) (fun i c =>
      let i' := Z.of_nat i in
      let push := compr_push c in
      let pull := compr_pull c in
      '(part_compr, part_orig) ← (if i' =? num_servers - 1 then
          Ok (u64 (compr_num_elem - pskv_size push), u64 (original_num_elem - pskv_size pull))
        else
          let part_compr := u64 (cut compr_num_elem num_servers (i' + 1) - cut compr_num_elem num_servers i') in
          factor ← GetCompressionFactor gc;
          Ok (part_compr, u64 (part_compr * factor)));
      kr ← rd krs i;
      dummy ← checked_key kr part_orig;
      k ← checked_key kr key;
      Ok {| compr_push := set_size (push_back (push_back push dummy 0) k (i32 (u64 (part_compr * num_bytes))))
                                   (i32 (u64 (pskv_size push) + part_compr));
            compr_pull := set_size (push_back pull k (i32 (u64 (part_orig * num_bytes))))
                                   (i32 (u64 (pskv_size pull) + part_orig)) |})
      {| compr_push := PSKV_empty; compr_pull := PSKV_empty |};
    check (u64 (pskv_size (compr_push c)) =? compr_num_elem) "Check failed: push_pskv.size";;
    check (u64 (pskv_size (compr_pull c)) =? original_num_elem) "Check failed: pull_pskv.size";;
    push_bytes ← int_mul (pskv_size (compr_push c)) num_bytes;
    pull_bytes ← int_mul (pskv_size (compr_pull c)) num_bytes;
    check (Z.of_nat (length (pskv_lens (compr_push c))) =? num_servers * 2) "Check failed: push_pskv.lens.size()";;
    Ok {| compr_push := set_size (compr_push c) push_bytes; compr_pull := set_size (compr_pull c) pull_bytes |}.

Definition encode_compressed (gc : GradientCompression) (krs : list Range) (single : bool)
    (compr_ps_kv : gmap Z ComprPSKV) (key original_num_elem compr_num_elem pull_num_elem : Z)
    (is_push : bool) (num_bytes : Z) : result (gmap Z ComprPSKV * PSKV) :=
  let c := default {| compr_push := PSKV_empty; compr_pull := PSKV_empty |} (compr_ps_kv !! key) in
  let pskv := if is_push then compr_push c else compr_pull c in
  if bool_decide (pskv_keys pskv ≠ []) then
    let num_elem := if is_push then compr_num_elem else pull_num_elem in
    check (u64 (pskv_size pskv) =? u64 (num_elem * num_bytes)) "The value size can't be changed";;
    Ok (<[key := c]> compr_ps_kv, pskv)
  else
    c ← fresh_compressed gc krs single key original_num_elem compr_num_elem pull_num_elem num_bytes;
    Ok (<[key := c]> compr_ps_kv, if is_push then compr_push c else compr_pull c).

(** The worker: 2-bit compression towards the servers of its data center. *)
Definition EncodeCompressedKey (bigarray_bound num_servers : Z) (gc : GradientCompression)
    (compr_ps_kv : gmap Z ComprPSKV) (key original_num_elem : Z) (is_push : bool) (num_bytes : Z)
    : result (gmap Z ComprPSKV * PSKV) :=
  let krs := GetServerKeyRanges num_servers in
  check (0 <? Z.of_nat (length krs)) "Check failed: num_servers > 0";;
  compr_num_elem ← GetCompressedSize gc original_num_elem;
  encode_compressed gc krs (original_num_elem <? bigarray_bound) compr_ps_kv key
    original_num_elem compr_num_elem original_num_elem is_push num_bytes.

(** The local server: 2-bit or bi-sparse compression towards the global servers. *)
Definition EncodeCompressedKey_global (bigarray_bound num_global_servers num_global_workers : Z)
    (gc : GradientCompression) (compr_ps_kv : gmap Z ComprPSKV) (key original_num_elem : Z)
    (is_push : bool) (num_bytes : Z) : result (gmap Z ComprPSKV * PSKV) :=
  let krs := GetServerKeyRanges num_global_servers in
  check (0 <? Z.of_nat (length krs)) "Check failed: num_global_servers > 0";;
  '(compr_num_elem, compr_pull_num_elem) ←
    (if is_type gc kTwoBit then
       c ← GetCompressedSize gc original_num_elem; Ok (c, original_num_elem)
     else if is_type gc kBiSparseCompression then
       c ← to_size_t (f32_mul (f32_mul (f32_of_Z original_num_elem) (threshold_ gc)) (f32_of_Z 2));
       Ok (c, u64 (c * num_global_workers))
     else Ok (0, 0));
  encode_compressed gc krs (is_type gc kBiSparseCompression || (original_num_elem <? bigarray_bound))
    compr_ps_kv key original_num_elem compr_num_elem compr_pull_num_elem is_push num_bytes.

(** ** EncodeRowSparseKey *)

(** [std::upper_bound] on a sorted array, as an index. *)
Fixpoint upper_bound (l : list Z) (x : Z) : nat :=
  match l with [] => 0%nat | y :: l => if y <=? x then S (upper_bound l x) else 0%nat end.

(** The rows of one server: [krs[i].begin() + key + (row - start_row)] for each. *)
Definition push_rows (kr : Range) (key start_row part_size : Z) (rows : list Z) (pskv : PSKV) : result PSKV :=
  foldM (fun pskv row =>
    k ← checked_key kr (key + (row - start_row));
    size ← int_add (pskv_size pskv) part_size;
    Ok (set_size (push_back pskv k part_size) size)) pskv rows.

(** [offsets] is [None] for a null pointer; [num_rows] is its length. *)
Definition EncodeRowSparseKey (bigarray_bound num_servers : Z) (ps_kv : gmap Z PSKV)
    (key num_elem : Z) (offsets : option (list Z)) (unit_len total_num_rows num_bytes : Z)
    : result (gmap Z PSKV * PSKV) :=
  let krs := GetServerKeyRanges num_servers in
  let n := Z.of_nat (length krs) in
  check (0 <? n) "Check failed: num_servers > 0";;
  pskv ← (if bigarray_bound <=? u64 (total_num_rows * unit_len) then
    '(pskv, _) ← for_range 0 (length krs) (fun i '(pskv, start_row) =>
      let i' := Z.of_nat i in
      kr ← rd krs i;
      let pskv := push_back pskv (ps_key kr key) 0 in
      match offsets with
      | Some offs =>
          if 0 <? num_elem then
            let end_row := start_row + (cut total_num_rows n (i' + 1) - cut total_num_rows n i') in
            let lb := lower_bound offs start_row in
            let ub := upper_bound offs (end_row - 1) in
            pskv ← push_rows kr key start_row (i32 (u64 (unit_len * num_bytes))) (take (ub - lb) (drop lb offs)) pskv;
            Ok (pskv, end_row)
          else Ok (pskv, start_row)
      | None => Ok (pskv, start_row)
      end) (PSKV_empty, 0);
    check (u64 (pskv_size pskv) =? u64 (num_elem * num_bytes)) "Check failed: pskv.size";;
    Ok pskv
  else
    server ← pick_server key n;
    kr ← rdz krs server;
    pskv ← foldM (fun pskv row =>
      k ← checked_key kr (key + row);
      Ok (push_back pskv k (i32 (u64 (unit_len * num_bytes))))) (push_back PSKV_empty (ps_key kr key) 0)
      (default [] offsets);
    Ok (set_size pskv (i32 (num_elem * num_bytes))));
  Ok (<[key := pskv]> ps_kv, pskv).

(** [CheckUnique]: [std::unique] only removes adjacent duplicates. *)
Fixpoint unique (l : list Z) : list Z :=
  match l with
  | x :: ((y :: _) as l') => if x =? y then unique l' else x :: unique l'
  | _ => l
  end.
Definition CheckUnique (keys : list Z) : result unit :=
  check (length (unique keys) =? length keys)%nat "Check failed: keys are unique".

(** ** Ranges and single keys *)
Definition width (num_servers : Z) : Z := kMaxKey / num_servers.

Section Servers.
Context (k : Z).
Hypothesis Hk : 0 < k < 2 ^ 20.

Lemma width_large : 2 ^ 40 < width k.
Proof.
  unfold width. assert (2 ^ 40 + 1 ≤ kMaxKey / k); [|lia].
  apply Z.div_le_lower_bound; [lia|]. unfold kMaxKey. nia.
Qed.

Lemma width_mul (i : Z) : 0 ≤ i < k → 0 ≤ width k * i ∧ width k * (i + 1) ≤ kMaxKey.
Proof.
  intros Hi. pose proof width_large. split; [nia|].
  assert (width k * k ≤ kMaxKey) by (unfold width; rewrite Z.mul_comm; apply Z.mul_div_le; lia). nia.
Qed.

Lemma krs_lookup (i : Z) : 0 ≤ i < k →
  GetServerKeyRanges k !! Z.to_nat i = Some {| range_begin := width k * i; range_end := width k * (i + 1) |}.
Proof. intros Hi. rewrite GetServerKeyRanges_lookup by lia. by rewrite Z2Nat.id by lia. Qed.

Lemma krs_length : Z.of_nat (length (GetServerKeyRanges k)) = k.
Proof. rewrite length_GetServerKeyRanges. lia. Qed.

Lemma ps_key_ok (i off : Z) : 0 ≤ i < k → 0 ≤ off < width k →
  ps_key {| range_begin := width k * i; range_end := width k * (i + 1) |} off = width k * i + off.
Proof.
  intros Hi Ho. pose proof (width_mul i Hi). unfold ps_key. cbn [range_begin]. apply u64_id. unfold kMaxKey in *. lia.
Qed.

Lemma checked_key_ok (i off : Z) : 0 ≤ i < k → 0 ≤ off < width k →
  checked_key {| range_begin := width k * i; range_end := width k * (i + 1) |} off = Ok (width k * i + off).
Proof.
  intros Hi Ho. unfold checked_key. rewrite ps_key_ok by done. cbn [range_end].
  by rewrite check_bind_ok by (apply Z.ltb_lt; lia).
Qed.

(** The server owning the range recovers the offset a key was made from. *)
Lemma DecodeKey_ok (i off : Z) : 0 ≤ i < k → 0 ≤ off < 2 ^ 31 →
  DecodeKey k i (width k * i + off) = Ok off.
Proof.
  intros Hi Ho. unfold DecodeKey. rewrite (rdz_ok _ _ _ (proj1 Hi) (krs_lookup i Hi)). rstep. cbn [range_begin].
  replace (width k * i + off - width k * i) with off by lia.
  rewrite u64_id, i32_id by lia. done.
Qed.

Lemma pick_server_ok key : 0 ≤ key → key * 9973 < 2 ^ 31 →
  pick_server key k = Ok ((key * 9973) mod k) ∧ 0 ≤ (key * 9973) mod k < k.
Proof.
  intros H1 H2. unfold pick_server, int_mul. rewrite int_range_ok by lia. rstep.
  rewrite Z.rem_mod_nonneg by lia. split; [done|]. apply Z.mod_pos_bound. lia.
Qed.
End Servers.

Lemma bytes_ok n nb : 0 ≤ n → 0 ≤ nb → n * nb < 2 ^ 31 → i32 (u64 (n * nb)) = n * nb.
Proof. intros. rewrite u64_id, i32_id by nia. done. Qed.

(** ** Cutting an array into one part per server *)
Definition part (n k : Z) (i : nat) : Z := cut n k (Z.of_nat i + 1) - cut n k (Z.of_nat i).

Lemma part_sum n k : 0 < n < 2 ^ 40 → 0 < k < 2 ^ 20 → zsum (part n k <$> seq 0 (Z.to_nat k)) = n.
Proof.
  intros Hn Hk. rewrite <- (cut_last n k Hn Hk) at 2.
  replace (cut n k k) with (cut n k (Z.of_nat (Z.to_nat k)) - cut n k (Z.of_nat 0)).
  2:{ rewrite Z2Nat.id by lia. change (Z.of_nat 0) with 0. rewrite cut_first. lia. }
  rewrite <- (zsum_telescope (fun j => cut n k (Z.of_nat j))). f_equal. apply list_fmap_ext.
  intros j x _. unfold part. do 2 f_equal. lia.
Qed.

Lemma part_pos n k (i : nat) :
  0 < n < 2 ^ 40 → 0 < k < 2 ^ 20 → 2 * k ≤ n → Z.of_nat i < k → 0 < part n k i.
Proof. intros Hn Hk Hnk Hi. unfold part. pose proof (cut_mono n k (Z.of_nat i) Hn Hk Hnk). lia. Qed.

Lemma cut_le_n n k (i : nat) :
  0 < n < 2 ^ 40 → 0 < k < 2 ^ 20 → 2 * k ≤ n → Z.of_nat i ≤ k → cut n k (Z.of_nat i) ≤ n.
Proof.
  intros Hn Hk Hnk Hi. rewrite <- (cut_last n k Hn Hk) at 2.
  assert (∀ d : nat, Z.of_nat i + Z.of_nat d ≤ k → cut n k (Z.of_nat i) ≤ cut n k (Z.of_nat i + Z.of_nat d)) as H.
  { induction d as [|d IH]; intros Hd; [rewrite Z.add_0_r; lia|].
    pose proof (cut_mono n k (Z.of_nat i + Z.of_nat d) Hn Hk Hnk ltac:(lia)).
    replace (Z.of_nat i + Z.of_nat (S d)) with (Z.of_nat i + Z.of_nat d + 1) by lia. specialize (IH ltac:(lia)). lia. }
  specialize (H (Z.to_nat (k - Z.of_nat i)) ltac:(lia)).
  by replace (Z.of_nat i + Z.of_nat (Z.to_nat (k - Z.of_nat i))) with k in H by lia.
Qed.

(** The encoding of a large array after [m] servers. *)
Definition parts_upto (n k key nb : Z) (m : nat) : PSKV :=
  {| pskv_keys := (fun j => width k * Z.of_nat j + key) <$> seq 0 m;
     pskv_lens := (fun j => part n k j * nb) <$> seq 0 m;
     pskv_size := cut n k (Z.of_nat m) * nb |}.

Lemma fresh_default_large bound n k key nb :
  0 < k < 2 ^ 20 → 0 ≤ key < 2 ^ 31 → 0 < nb → n * nb < 2 ^ 31 → 2 * k ≤ n → bound ≤ n →
  fresh_default bound (GetServerKeyRanges k) key n nb = Ok (parts_upto n k key nb (Z.to_nat k)).
Proof.
  intros Hk Hkey Hnb Hsz Hnk Hb. unfold fresh_default. rewrite krs_length by done. chk.
  rewrite (proj2 (Z.ltb_ge _ _)) by lia. assert (0 < n < 2 ^ 40) as Hn by nia.
  rewrite length_GetServerKeyRanges.
  apply (for_range_trace (parts_upto n k key nb)); [lia| |done|].
  { unfold parts_upto, PSKV_empty. simpl. by rewrite cut_first. }
  intros i Hi. pose proof (width_large k Hk).
  pose proof (part_pos n k i Hn Hk Hnk ltac:(lia)) as Hp. unfold part in Hp.
  pose proof (cut_le_n n k (S i) Hn Hk Hnk ltac:(lia)) as Hle.
  pose proof (cut_nonneg n k (Z.of_nat i) Hn Hk ltac:(lia)) as Hge.
  replace (Z.of_nat (S i)) with (Z.of_nat i + 1) in Hle by lia.
  pose proof (krs_lookup k (Z.of_nat i) ltac:(lia)) as Hkr. rewrite Nat2Z.id in Hkr.
  rewrite (rd_ok _ _ _ Hkr). rstep. rewrite checked_key_ok by lia. rstep.
  rewrite (u64_id (cut n k _ - _)) by lia. rewrite bytes_ok by nia.
  unfold int_add. cbn [pskv_size parts_upto]. rewrite int_range_ok by nia. rstep. f_equal.
  unfold parts_upto, set_size, push_back. cbn [pskv_keys pskv_lens pskv_size].
  rewrite !seq_S, !fmap_app. simpl. f_equal. replace (Z.of_nat (S i)) with (Z.of_nat i + 1) by lia. lia.
Qed.

(** An encoding that spreads [total] bytes of [key] over [k] servers: the parts add up,
    are not empty, come in increasing order of server key, each key lies in the range of
    one server, and that server decodes it to [key]. *)
Definition well_spread (k key total : Z) (p : PSKV) : Prop :=
  pskv_size p = total ∧ zsum (pskv_lens p) = total ∧ length (pskv_keys p) = length (pskv_lens p) ∧
  StronglySorted Z.lt (pskv_keys p) ∧ Forall (fun len => 0 < len) (pskv_lens p) ∧
  ∀ j ps, pskv_keys p !! j = Some ps →
    ∃ r kr, GetServerKeyRanges k !! Z.to_nat r = Some kr ∧ 0 ≤ r < k ∧
      range_begin kr ≤ ps < range_end kr ∧ DecodeKey k r ps = Ok key.

Lemma spread_sorted k key m : 0 < width k → StronglySorted Z.lt ((fun j => width k * Z.of_nat j + key) <$> seq 0 m).
Proof.
  intros Hw. generalize 0%nat. induction m as [|m IH]; intros s; simpl; constructor; [apply IH|].
  apply Forall_fmap, Forall_forall. intros j Hj. apply elem_of_seq in Hj. simpl. nia.
Qed.

Lemma parts_well_spread n k key nb :
  0 < k < 2 ^ 20 → 0 ≤ key < 2 ^ 31 → 0 < nb → n * nb < 2 ^ 31 → 2 * k ≤ n →
  well_spread k key (n * nb) (parts_upto n k key nb (Z.to_nat k)).
Proof.
  intros Hk Hkey Hnb Hsz Hnk. assert (0 < n < 2 ^ 40) as Hn by nia. pose proof (width_large k Hk).
  unfold well_spread, parts_upto. cbn [pskv_keys pskv_lens pskv_size]. split_and!.
  - rewrite Z2Nat.id by lia. by rewrite cut_last.
  - assert (∀ l, zsum ((fun j => part n k j * nb) <$> l) = zsum (part n k <$> l) * nb) as ->.
    { induction l as [|x l IH]; [done|]. rewrite !fmap_cons. unfold zsum in *. cbn [foldr]. nia. }
    by rewrite part_sum.
  - by rewrite !length_fmap.
  - apply spread_sorted. lia.
  - apply Forall_fmap, Forall_forall. intros j Hj. apply elem_of_seq in Hj. simpl.
    pose proof (part_pos n k j Hn Hk Hnk). nia.
  - intros j ps Hj. apply list_lookup_fmap_Some in Hj as (x & -> & Hx). apply lookup_seq in Hx as [-> Hx].
    exists (Z.of_nat j). rewrite krs_lookup by lia. eexists. split; [done|]. cbn [range_begin range_end].
    split; [lia|]. split; [lia|]. rewrite Nat.add_0_l. apply DecodeKey_ok; lia.
Qed.

Lemma single_well_spread k key total r :
  0 < k < 2 ^ 20 → 0 ≤ key < 2 ^ 31 → 0 < total → 0 ≤ r < k →
  well_spread k key total {| pskv_keys := [width k * r + key]; pskv_lens := [total]; pskv_size := total |}.
Proof.
  intros Hk Hkey Ht Hr. pose proof (width_large k Hk). unfold well_spread. cbn [pskv_keys pskv_lens pskv_size].
  split_and!; [done|simpl; lia|done|repeat constructor|by apply Forall_singleton|].
  intros j ps Hj. apply list_lookup_singleton_Some in Hj as [-> <-]. exists r. rewrite krs_lookup by lia.
  eexists. split; [done|]. cbn [range_begin range_end]. split; [lia|]. split; [lia|]. apply DecodeKey_ok; lia.
Qed.

Lemma fresh_default_spread bound n k key nb :
  0 < k < 2 ^ 20 → 0 ≤ key → key * 9973 < 2 ^ 31 → 0 < n → 0 < nb → n * nb < 2 ^ 31 → 2 * k ≤ bound →
  ∃ p, fresh_default bound (GetServerKeyRanges k) key n nb = Ok p ∧ well_spread k key (n * nb) p ∧ pskv_keys p ≠ [].
Proof.
  intros Hk Hkey Hkey' Hn Hnb Hsz Hb. pose proof (width_large k Hk). destruct (Z.lt_ge_cases n bound) as [Hlt|Hge].
  - unfold fresh_default. rewrite krs_length by done. chk.
    rewrite (proj2 (Z.ltb_lt _ _)) by lia. destruct (pick_server_ok k Hk key Hkey Hkey') as [-> Hr]. rstep.
    rewrite (rdz_ok _ _ _ (proj1 Hr) (krs_lookup k _ Hr)). rstep. rewrite checked_key_ok by lia. rstep.
    rewrite bytes_ok by lia. eexists. split; [done|]. split; [|done].
    apply single_well_spread; lia || done.
  - rewrite fresh_default_large by lia. eexists. split; [done|]. split; [apply parts_well_spread; lia|].
    unfold parts_upto. cbn [pskv_keys]. destruct (Z.to_nat k) eqn:E; [lia|done].
Qed.

Lemma encode_default_hit bound krs ps_kv key n nb p :
  ps_kv !! key = Some p → pskv_keys p ≠ [] →
  encode_default bound krs ps_kv key n nb =
    (check (u64 (pskv_size p) =? u64 (n * nb)) "The value size cannot be changed";; Ok (ps_kv, p)).
Proof.
  intros Hp Hne. unfold encode_default. rewrite Hp. simpl. rewrite bool_decide_true by done. rstep.
  destruct (_ =? _); [|done]. simpl. by rewrite insert_id.
Qed.

(** C29: a dense value is spread over the servers without loss.  For a fresh key and a
    value that fits an [int] byte count, [EncodeDefaultKey] succeeds whether the array is
    small or large; the parts add up to the whole value, server keys are increasing and
    every key lies in one server's range, where it decodes back to the parameter key.  A
    second call returns the same encoding, and a call with another size is refused. *)
Theorem default_key_spread bound k key n nb :
  0 < k < 2 ^ 20 → 0 ≤ key → key * 9973 < 2 ^ 31 → 0 < n → 0 < nb → n * nb < 2 ^ 31 → 2 * k ≤ bound →
  ∃ p st, EncodeDefaultKey bound k ∅ key n nb = Ok (st, p) ∧ well_spread k key (n * nb) p ∧
    EncodeDefaultKey bound k st key n nb = Ok (st, p) ∧
    (∀ n', u64 (n' * nb) ≠ n * nb → ∃ msg, EncodeDefaultKey bound k st key n' nb = Err (CheckFailed msg)).
Proof.
  intros Hk Hkey Hkey' Hn Hnb Hsz Hb.
  destruct (fresh_default_spread bound n k key nb) as (p & Hf & Hs & Hne); try done.
  assert (u64 (pskv_size p) = n * nb) as Hu by (destruct Hs as [-> _]; apply u64_id; nia).
  exists p, (<[key := p]> ∅). split_and!; [|done| |].
  - unfold EncodeDefaultKey, encode_default. rewrite lookup_empty. simpl.
    rewrite Hf. rstep. rewrite Hu, u64_id by nia.
    by rewrite check_bind_ok by (apply Z.eqb_eq; lia).
  - unfold EncodeDefaultKey. rewrite (encode_default_hit _ _ _ _ _ _ p) by (done || apply lookup_insert_eq).
    rewrite Hu, u64_id by nia. by rewrite check_bind_ok by (apply Z.eqb_eq; lia).
  - intros n' Hn'. unfold EncodeDefaultKey.
    rewrite (encode_default_hit _ _ _ _ _ _ p) by (done || apply lookup_insert_eq).
    rewrite Hu, check_bind_err by (apply Z.eqb_neq; lia). eauto.
Qed.

Lemma default_key_spread_witness :
  ∃ p st, EncodeDefaultKey 1000 3 ∅ 7 100000 4 = Ok (st, p) ∧ pskv_lens p = [133332; 133336; 133332].
Proof.
  destruct (default_key_spread 1000 3 7 100000 4) as (p & st & E & _); [lia..|].
  exists p, st. split; [exact E|]. vm_compute in E. by injection E as <- <-.
Defined.

(** ** P3: fixed-size slices *)
Definition nslices (bound s : Z) : nat := S (Z.to_nat ((s - 1) / bound)).
Definition slice_len (bound s nb : Z) (j : nat) : Z := Z.min bound (s - bound * Z.of_nat j) * nb.
Definition slice_key (k i kt : Z) (j : nat) : Z :=
  width k * ((i + Z.of_nat j) mod k) + (kt + Z.of_nat j).

Lemma nslices_step bound s : 0 < bound < s → nslices bound s = S (nslices bound (s - bound)).
Proof.
  intros H. unfold nslices. f_equal. replace (s - 1) with (s - bound - 1 + 1 * bound) by lia.
  rewrite Z.div_add by lia. assert (0 ≤ (s - bound - 1) / bound) by (apply Z.div_pos; lia). lia.
Qed.

Lemma nslices_last bound s : 0 < s ≤ bound → nslices bound s = 1%nat.
Proof. intros H. unfold nslices. by rewrite Z.div_small by lia. Qed.

Lemma fmap_seq_S {A} (f : nat → A) n : f <$> seq 0 (S n) = f 0%nat :: ((fun j => f (S j)) <$> seq 0 n).
Proof. simpl. f_equal. rewrite <- seq_shift. by rewrite <- list_fmap_compose. Qed.

Lemma p3_loop_spec bound k nb fuel : ∀ s i kt p,
  0 < k < 2 ^ 20 → 0 < bound → 0 < nb → 0 < s → s * nb < 2 ^ 31 → 0 ≤ i → 0 ≤ kt →
  (nslices bound s ≤ fuel)%nat → kt + Z.of_nat (nslices bound s) < 2 ^ 31 →
  0 ≤ pskv_size p → pskv_size p + s * nb < 2 ^ 31 →
  p3_loop fuel bound (GetServerKeyRanges k) nb s i kt p =
    Some (Ok ({| pskv_keys := pskv_keys p ++ (slice_key k i kt <$> seq 0 (nslices bound s));
                 pskv_lens := pskv_lens p ++ (slice_len bound s nb <$> seq 0 (nslices bound s));
                 pskv_size := pskv_size p + s * nb |}, kt + Z.of_nat (nslices bound s))).
Proof.
  induction fuel as [|fuel IH]; intros s i kt p Hk Hb Hnb Hs Hsz Hi Hkt Hf Hkt' Hp Hp'.
  { unfold nslices in Hf. lia. }
  pose proof (width_large k Hk) as Hw. cbn [p3_loop]. rewrite krs_length by done.
  rewrite Z.rem_mod_nonneg by lia. assert (0 ≤ i mod k < k) as Hm by (apply Z.mod_pos_bound; lia).
  assert (1 ≤ nslices bound s)%nat as Hn1 by (unfold nslices; lia).
  rewrite (rdz_ok _ _ _ (proj1 Hm) (krs_lookup k _ Hm)). rstep. cbn [range_end].
  rewrite (u64_id kt) by lia. rewrite ps_key_ok by lia. unfold int_add. rewrite int_range_ok by lia. rstep.
  rewrite check_bind_ok by (apply Z.ltb_lt; lia).
  assert (slice_key k i kt 0 = width k * (i mod k) + kt) as Hk0.
  { unfold slice_key. simpl. rewrite !Z.add_0_r. done. }
  destruct (Z.ltb_spec bound s) as [Hlt|Hge].
  - assert (0 < bound * nb < s * nb) as Hbs by nia.
    assert ((s - bound) * nb = s * nb - bound * nb) as Hsub by ring.
    assert (s ≤ s * nb) as Hss by nia.
    rewrite (u64_id (bound * nb)), (u64_id (s - bound)), (u64_id (pskv_size p)), !i32_id by lia.
    assert (nslices bound s = S (nslices bound (s - bound))) as Hns by (apply nslices_step; lia).
    rewrite IH; cbn [pskv_size set_size push_back pskv_keys pskv_lens]; [|lia..].
    rewrite Hns, !fmap_seq_S, <- !(assoc_L (++)), Hk0. cbn [app].
    assert (slice_len bound s nb 0 = bound * nb) as -> by (unfold slice_len; rewrite Z.min_l by lia; done).
    rewrite (list_fmap_ext (slice_key k (i + 1) (kt + 1)) (fun j => slice_key k i kt (S j))).
    2:{ intros j x _. unfold slice_key. f_equal; [|lia]. do 2 f_equal. lia. }
    rewrite (list_fmap_ext (slice_len bound (s - bound) nb) (fun j => slice_len bound s nb (S j))).
    2:{ intros j x _. unfold slice_len. do 2 f_equal. lia. }
    replace (pskv_size p + bound * nb + (s - bound) * nb) with (pskv_size p + s * nb) by lia.
    by replace (kt + 1 + Z.of_nat (nslices bound (s - bound)))
      with (kt + Z.of_nat (S (nslices bound (s - bound)))) by lia.
  - rewrite nslices_last by lia. rewrite (u64_id (s * nb)), (u64_id (pskv_size p)), !i32_id by nia.
    unfold set_size, push_back. cbn [seq fmap list_fmap pskv_keys pskv_lens pskv_size]. rewrite Hk0.
    unfold slice_len. rewrite Z.min_r by lia. by replace (s - bound * Z.of_nat 0) with s by lia.
Qed.

Lemma slice_lens_sum bound s nb :
  0 < bound → 0 < s → zsum (slice_len bound s nb <$> seq 0 (nslices bound s)) = s * nb.
Proof.
  intros Hb. remember (nslices bound s) as m eqn:Em. revert s Em.
  induction m as [|m IH]; intros s Em Hs; [unfold nslices in Em; lia|].
  rewrite fmap_seq_S. unfold zsum. cbn [foldr]. fold (zsum ((λ j, slice_len bound s nb (S j)) <$> seq 0 m)).
  destruct (Z.lt_ge_cases bound s) as [Hlt|Hge].
  - rewrite nslices_step in Em by lia. injection Em as Em. unfold slice_len at 1. rewrite Z.min_l by lia.
    rewrite (list_fmap_ext _ (slice_len bound (s - bound) nb)).
    + rewrite IH by (done || lia). lia.
    + intros j x _. unfold slice_len. do 2 f_equal. lia.
  - rewrite nslices_last in Em by lia. injection Em as ->. unfold slice_len. rewrite Z.min_r by lia.
    cbn. lia.
Qed.

Lemma slice_len_bounds bound s nb j :
  0 < bound → 0 < s → 0 < nb → (j < nslices bound s)%nat → 0 < slice_len bound s nb j ≤ bound * nb.
Proof.
  intros Hb Hs Hnb Hj. unfold slice_len, nslices in *.
  assert (bound * Z.of_nat j < s) by (Z.to_euclidean_division_equations; nia). nia.
Qed.



(** The slice counter restarts at zero whenever key 0 is first encoded, so slices are
    unique only if key 0 comes first: encoding key 1 and then key 0 maps both values to the
    same server key. *)
Theorem p3_key_reuse :
  ∃ st kt p1 p0, EncodeP3Key 1000 2 ∅ 0 1 10 4 = Some (Ok (st, kt, p1)) ∧
    (∃ st' kt', EncodeP3Key 1000 2 st kt 0 20 4 = Some (Ok (st', kt', p0))) ∧
    pskv_keys p1 = pskv_keys p0 ∧ pskv_lens p1 ≠ pskv_lens p0.
Proof.
  eexists _, _, _, _. split; [vm_compute; reflexivity|]. split; [eexists _, _; vm_compute; reflexivity|].
  split; [reflexivity|]. intros H. vm_compute in H. discriminate.
Qed.

(** ** 2-bit compressed parts *)

(** The original elements covered by the first [i] compressed parts. *)
Definition covered (orig c k : Z) (i : nat) : Z := Z.min orig (16 * cut c k (Z.of_nat i)).
Definition part_orig (orig c k : Z) (i : nat) : Z := covered orig c k (S i) - covered orig c k i.

Section TwoBitParts.
Context (gc : GradientCompression) (k key orig nb : Z).
Hypothesis Hgc : is_type gc kTwoBit = true.
Hypothesis Hk : 0 < k < 2 ^ 20.
Hypothesis Hkey : 0 ≤ key < 2 ^ 31.
Hypothesis Hnb : 0 < nb.
Hypothesis Hsz : orig * nb < 2 ^ 31.
Hypothesis Horig : 32 * k ≤ orig.

Definition compr : Z := (orig + 15) / 16.

Lemma compr_bounds : 16 * (compr - 1) < orig ≤ 16 * compr ∧ 2 * k ≤ compr ∧ 0 < compr < 2 ^ 31.
Proof. unfold compr. split; [|split]; Z.to_euclidean_division_equations; nia. Qed.

Lemma GetCompressedSize_ok : GetCompressedSize gc orig = Ok compr.
Proof.
  unfold GetCompressedSize, GetCompressionFactor. rewrite Hgc. rstep. f_equal.
  rewrite Z.rem_mod_nonneg, Z.quot_div_nonneg by lia. unfold compr.
  destruct (Z.eqb_spec (orig mod 16) 0); Z.to_euclidean_division_equations; lia.
Qed.

Lemma cut_below (i : nat) : Z.of_nat i < k → 0 ≤ cut compr k (Z.of_nat i) < compr.
Proof.
  intros Hi. pose proof compr_bounds as (H1 & H2 & H3).
  split; [apply cut_nonneg; lia|].
  pose proof (part_pos compr k i ltac:(lia) Hk H2 Hi) as Hp. unfold part in Hp.
  pose proof (cut_le_n compr k (S i) ltac:(lia) Hk H2 ltac:(lia)) as Hle.
  replace (Z.of_nat (S i)) with (Z.of_nat i + 1) in Hle by lia. lia.
Qed.

Lemma covered_below (i : nat) : Z.of_nat i < k → covered orig compr k i = 16 * cut compr k (Z.of_nat i).
Proof. intros Hi. pose proof compr_bounds. pose proof (cut_below i Hi). unfold covered. lia. Qed.

Lemma covered_last : covered orig compr k (Z.to_nat k) = orig.
Proof.
  pose proof compr_bounds as (H1 & H2 & H3). unfold covered. rewrite Z2Nat.id by lia.
  rewrite cut_last by lia. lia.
Qed.

(** Every part is non-empty and fits the blocks sent for it. *)
Lemma part_orig_bounds (i : nat) : Z.of_nat i < k →
  0 < part_orig orig compr k i ≤ 16 * part compr k i ∧
  0 < part compr k i ∧ part compr k i ≤ part_orig orig compr k i ∧
  part_orig orig compr k i ≤ orig.
Proof.
  intros Hi. pose proof compr_bounds as (H1 & H2 & H3). pose proof (cut_below i Hi) as Hb.
  pose proof (part_pos compr k i ltac:(lia) Hk H2 Hi) as Hp.
  pose proof (cut_le_n compr k (S i) ltac:(lia) Hk H2 ltac:(lia)) as Hle.
  unfold part_orig, part in *. rewrite (covered_below i Hi). unfold covered.
  replace (Z.of_nat (S i)) with (Z.of_nat i + 1) in * by lia. lia.
Qed.

Definition compr_upto (m : nat) : ComprPSKV :=
  {| compr_push := {| pskv_keys := mjoin ((fun i => [width k * Z.of_nat i + part_orig orig compr k i; width k * Z.of_nat i + key]) <$> seq 0 m);
                      pskv_lens := mjoin ((fun i => [0; part compr k i * nb]) <$> seq 0 m);
                      pskv_size := cut compr k (Z.of_nat m) |};
     compr_pull := {| pskv_keys := (fun i => width k * Z.of_nat i + key) <$> seq 0 m;
                      pskv_lens := (fun i => part_orig orig compr k i * nb) <$> seq 0 m;
                      pskv_size := covered orig compr k m |} |}.

(** One iteration of the loop over the servers: the parts it computes are the
    differences of the cumulative counts, on the last server too. *)
Lemma compressed_parts (i : nat) : Z.of_nat i < k →
  (if Z.of_nat i =? k - 1 then
     Ok (u64 (compr - cut compr k (Z.of_nat i)), u64 (orig - covered orig compr k i))
   else
     let part_compr := u64 (cut compr k (Z.of_nat i + 1) - cut compr k (Z.of_nat i)) in
     factor ← GetCompressionFactor gc;
     Ok (part_compr, u64 (part_compr * factor))) = Ok (part compr k i, part_orig orig compr k i).
Proof.
  intros Hi. pose proof compr_bounds as (H1 & H2 & H3). pose proof (part_orig_bounds i Hi) as (B1 & B2 & B3 & B4).
  pose proof (cut_below i Hi) as Hb. assert (orig < 2 ^ 31) by nia.
  destruct (Z.eqb_spec (Z.of_nat i) (k - 1)) as [E|E].
  - assert (part compr k i = compr - cut compr k (Z.of_nat i)) as <-.
    { unfold part. rewrite E at 1. replace (k - 1 + 1) with k by lia. by rewrite cut_last by lia. }
    assert (part_orig orig compr k i = orig - covered orig compr k i) as <-.
    { unfold part_orig. replace (S i) with (Z.to_nat k) by lia. by rewrite covered_last. }
    rewrite !u64_id by lia. done.
  - unfold GetCompressionFactor. rewrite Hgc. rstep. fold (part compr k i).
    assert (part_orig orig compr k i = part compr k i * 16) as ->.
    { unfold part_orig, part. rewrite !covered_below by lia. replace (Z.of_nat (S i)) with (Z.of_nat i + 1) by lia. lia. }
    rewrite !u64_id by lia. done.
Qed.

Lemma fresh_compressed_large : 
  fresh_compressed gc (GetServerKeyRanges k) false key orig compr orig nb =
    let c := compr_upto (Z.to_nat k) in
    Ok {| compr_push := set_size (compr_push c) (compr * nb); compr_pull := set_size (compr_pull c) (orig * nb) |}.
Proof.
  pose proof compr_bounds as (H1 & H2 & H3). pose proof (width_large k Hk) as Hw.
  assert (orig ≤ orig * nb) by nia. assert (compr ≤ orig) by lia. assert (compr * nb ≤ orig * nb) by nia.
  unfold fresh_compressed. rewrite krs_length, length_GetServerKeyRanges by done.
  rewrite (for_range_trace compr_upto 0 (Z.to_nat k) _ _ (compr_upto (Z.to_nat k))); [rstep|lia| |done|].
  - cbn [compr_push compr_pull compr_upto pskv_size pskv_lens]. rewrite Z2Nat.id, cut_last, covered_last by lia.
    rewrite !u64_id, !Z.eqb_refl by lia. rewrite !check_bind_ok by done.
    unfold int_mul. rewrite !int_range_ok by nia. rstep. rewrite check_bind_ok; [done|]. apply Z.eqb_eq.
    assert (∀ m, length (mjoin ((λ i : nat, [0; part compr k i * nb]) <$> seq 0 m)) = (2 * m)%nat) as ->; [|lia].
    induction m as [|m IH]; [done|]. rewrite mjoin_seq_S, length_app, IH. simpl. lia.
  - unfold compr_upto, covered, PSKV_empty. simpl. change (cut compr k 0) with (cut compr k 0).
    rewrite cut_first. by replace (orig `min` (16 * 0)) with 0 by lia.
  - intros i Hi. cbn [compr_push compr_pull compr_upto pskv_size].
    pose proof (compressed_parts i ltac:(lia)) as E. cbv zeta in E. pose proof (part_orig_bounds i ltac:(lia)) as (B1 & B2 & B3 & B4).
    pose proof (cut_below i ltac:(lia)) as Hb.
    rewrite E. rstep. pose proof (krs_lookup k (Z.of_nat i) ltac:(lia)) as Hkr. rewrite Nat2Z.id in Hkr.
    rewrite (rd_ok _ _ _ Hkr). rstep. rewrite !checked_key_ok by lia. rstep.
    assert (part_orig orig compr k i * nb ≤ orig * nb) by nia.
    rewrite !bytes_ok by nia. rewrite (u64_id (cut _ _ _)), (u64_id (covered _ _ _ _)) by (rewrite ?covered_below by lia; lia).
    assert (i32 (cut compr k (Z.of_nat i) + part compr k i) = cut compr k (Z.of_nat (S i))) as ->.
    { pose proof (cut_le_n compr k (S i) ltac:(lia) Hk H2 ltac:(lia)) as Hle. unfold part in *.
      replace (Z.of_nat (S i)) with (Z.of_nat i + 1) in * by lia. rewrite i32_id by lia. lia. }
    assert (i32 (covered orig compr k i + part_orig orig compr k i) = covered orig compr k (S i)) as ->.
    { replace (covered orig compr k i + part_orig orig compr k i) with (covered orig compr k (S i))
        by (unfold part_orig; lia).
      apply i32_id. pose proof (part_orig_bounds i ltac:(lia)) as (C1 & _). unfold part_orig in C1.
      rewrite (covered_below i) in C1 by lia. unfold covered in *. lia. }
    unfold compr_upto. rewrite !mjoin_seq_S, !seq_S, !fmap_app. unfold set_size, push_back.
    cbn [pskv_keys pskv_lens pskv_size]. rewrite <- !(assoc_L (++)). done.
Qed.
End TwoBitParts.

Lemma mjoin_pair_lookup {A} (f g : nat → A) m i : (i < m)%nat →
  mjoin ((fun i => [f i; g i]) <$> seq 0 m) !! (2 * i)%nat = Some (f i) ∧
  mjoin ((fun i => [f i; g i]) <$> seq 0 m) !! (2 * i + 1)%nat = Some (g i).
Proof.
  assert (∀ n, length (mjoin ((fun i => [f i; g i]) <$> seq 0 n)) = 2 * n)%nat as Hlen.
  { induction n as [|n IH]; [done|]. rewrite mjoin_seq_S, length_app, IH. simpl. lia. }
  induction m as [|m IH]; intros Hi; [lia|]. rewrite mjoin_seq_S.
  destruct (decide (i = m)) as [->|Hne].
  - rewrite !lookup_app_r by (rewrite Hlen; lia). rewrite !Hlen.
    replace (2 * m - 2 * m)%nat with 0%nat by lia. by replace (2 * m + 1 - 2 * m)%nat with 1%nat by lia.
  - rewrite !lookup_app_l by (rewrite Hlen; lia). apply IH. lia.
Qed.

Lemma zsum_scale {A} (f : A → Z) nb l : zsum ((fun x => f x * nb) <$> l) = zsum (f <$> l) * nb.
Proof. induction l as [|x l IH]; [done|]. rewrite !fmap_cons. unfold zsum in *. cbn [foldr]. nia. Qed.

Lemma two_bit_not_bsc gc : is_type gc kTwoBit = true → is_type gc kBiSparseCompression = false.
Proof. unfold is_type. simpl. intros H. apply Z.eqb_eq in H. by rewrite H. Qed.

(** With 2-bit compression the pieces every server gets fit together.  For a large
    array, the push encoding gives server [i] a meta key that decodes to its number [po i]
    of original elements and a data key that decodes to the parameter key with [pc i]
    compressed words; the pull encoding expects [po i] elements from it; [po i <= 16 * pc i],
    so each server can decompress its part on its own; and the parts add up to the whole.
    The local servers use the same encoding towards the global servers. *)
Theorem compressed_key_parts gc bound k key orig nb :
  is_type gc kTwoBit = true → 0 < k < 2 ^ 20 → 0 ≤ key < 2 ^ 31 → 0 < nb → orig * nb < 2 ^ 31 →
  32 * k ≤ bound ≤ orig →
  (∀ st is_push w, EncodeCompressedKey_global bound k w gc st key orig is_push nb =
                   EncodeCompressedKey bound k gc st key orig is_push nb) ∧
  ∃ st push pull, EncodeCompressedKey bound k gc ∅ key orig true nb = Ok (st, push) ∧
    EncodeCompressedKey bound k gc st key orig false nb = Ok (st, pull) ∧
    pskv_size push = (orig + 15) / 16 * nb ∧ zsum (pskv_lens pull) = orig * nb ∧ pskv_size pull = orig * nb ∧
    ∀ i : nat, Z.of_nat i < k → ∃ pc po meta data,
      pskv_keys push !! (2 * i)%nat = Some meta ∧ DecodeKey k (Z.of_nat i) meta = Ok po ∧
      pskv_keys push !! (2 * i + 1)%nat = Some data ∧ DecodeKey k (Z.of_nat i) data = Ok key ∧
      pskv_lens push !! (2 * i + 1)%nat = Some (pc * nb) ∧
      pskv_keys pull !! i = Some data ∧ pskv_lens pull !! i = Some (po * nb) ∧ 0 < po ≤ 16 * pc.
Proof.
  intros Hgc Hk Hkey Hnb Hsz Hb. pose proof (two_bit_not_bsc gc Hgc) as Hbsc.
  pose proof (GetCompressedSize_ok gc k key orig Hgc Hk Hkey ltac:(lia)) as Hcs.
  pose proof (compr_bounds k key orig nb Hk Hkey Hnb Hsz ltac:(lia)) as (H1 & H2 & H3).
  split.
  { intros st is_push w. unfold EncodeCompressedKey_global, EncodeCompressedKey.
    rewrite krs_length by done. rewrite !check_bind_ok by (apply Z.ltb_lt; lia). rewrite Hgc, Hbsc, Hcs. done. }
  pose proof (fresh_compressed_large gc k key orig nb Hgc Hk Hkey Hnb Hsz ltac:(lia)) as Hf. cbv zeta in Hf.
  set (c := compr_upto k key orig nb (Z.to_nat k)) in *.
  set (cc := {| compr_push := set_size (compr_push c) (compr orig * nb);
                compr_pull := set_size (compr_pull c) (orig * nb) |}) in *.
  assert (pskv_keys (compr_pull c) ≠ []) as Hne.
  { unfold c, compr_upto. cbn [compr_pull pskv_keys]. destruct (Z.to_nat k) eqn:E; [lia|done]. }
  exists (<[key := cc]> ∅), (compr_push cc), (compr_pull cc). split_and!.
  - unfold EncodeCompressedKey. rewrite krs_length by done. chk. rewrite Hcs. rstep.
    unfold encode_compressed. rewrite lookup_empty, (proj2 (Z.ltb_ge _ _)) by lia. cbn [default from_option compr_push PSKV_empty pskv_keys]. rewrite bool_decide_false by naive_solver. by rewrite Hf.
  - unfold EncodeCompressedKey. rewrite krs_length by done. chk. rewrite Hcs. rstep.
    unfold encode_compressed. rewrite lookup_insert_eq. cbn [default from_option].
    change (pskv_keys (compr_pull cc)) with (pskv_keys (compr_pull c)). rewrite bool_decide_true by done.
    change (pskv_size (compr_pull cc)) with (orig * nb). rewrite Z.eqb_refl, check_bind_ok by done.
    by rewrite insert_insert_eq.
  - done.
  - change (pskv_lens (compr_pull cc)) with ((fun i => part_orig orig (compr orig) k i * nb) <$> seq 0 (Z.to_nat k)).
    rewrite zsum_scale. f_equal. unfold part_orig. rewrite zsum_telescope, (covered_last k key orig nb) by (done || lia).
    unfold covered. change (Z.of_nat 0) with 0. rewrite cut_first. lia.
  - done.
  - intros i Hi. exists (part (compr orig) k i), (part_orig orig (compr orig) k i),
      (width k * Z.of_nat i + part_orig orig (compr orig) k i), (width k * Z.of_nat i + key).
    pose proof (part_orig_bounds k key orig nb Hk Hkey Hnb Hsz ltac:(lia) i Hi) as (B1 & B2 & B3 & B4).
    assert (orig < 2 ^ 31) by nia.
    change (pskv_keys (compr_push cc)) with (mjoin ((fun i => [width k * Z.of_nat i + part_orig orig (compr orig) k i; width k * Z.of_nat i + key]) <$> seq 0 (Z.to_nat k))).
    change (pskv_lens (compr_push cc)) with (mjoin ((fun i => [0; part (compr orig) k i * nb]) <$> seq 0 (Z.to_nat k))).
    change (pskv_keys (compr_pull cc)) with ((fun i => width k * Z.of_nat i + key) <$> seq 0 (Z.to_nat k)).
    change (pskv_lens (compr_pull cc)) with ((fun i => part_orig orig (compr orig) k i * nb) <$> seq 0 (Z.to_nat k)).
    rewrite !list_lookup_fmap, !lookup_seq_lt by lia.
    destruct (mjoin_pair_lookup (fun i => width k * Z.of_nat i + part_orig orig (compr orig) k i)
      (fun i => width k * Z.of_nat i + key) (Z.to_nat k) i ltac:(lia)) as [M1 M2].
    destruct (mjoin_pair_lookup (fun _ => 0) (fun i => part (compr orig) k i * nb) (Z.to_nat k) i ltac:(lia)) as [_ M3].
    split_and!; try done; try (apply DecodeKey_ok; lia); lia.
Qed.

Lemma compressed_key_parts_witness :
  ∃ st push pull, EncodeCompressedKey 64 2 {| type_ := 1; threshold_ := f32_of_Z 1 |} ∅ 3 100 true 4 = Ok (st, push) ∧
    EncodeCompressedKey 64 2 {| type_ := 1; threshold_ := f32_of_Z 1 |} st 3 100 false 4 = Ok (st, pull) ∧
    pskv_lens push = [0; 16; 0; 12] ∧ pskv_lens pull = [256; 144].
Proof.
  destruct (compressed_key_parts {| type_ := 1; threshold_ := f32_of_Z 1 |} 64 2 3 100 4)
    as (_ & st & push & pull & E1 & E2 & _); [reflexivity|lia..|].
  exists st, push, pull. split; [exact E1|]. split; [exact E2|].
  vm_compute in E1. injection E1 as <- <-. vm_compute in E2. injection E2 as <-. done.
Defined.

(** ** Row-sparse keys *)
Lemma upper_is_lower l x : upper_bound l (x - 1) = lower_bound l x.
Proof.
  induction l as [|y l IH]; simpl; [done|]. rewrite IH.
  destruct (Z.leb_spec y (x - 1)), (Z.ltb_spec y x); lia || done.
Qed.

(** The rows of server [i]. *)
Definition row_group (total k : Z) (offs : list Z) (i : nat) : list Z :=
  let lb := lower_bound offs (cut total k (Z.of_nat i)) in
  take (lower_bound offs (cut total k (Z.of_nat i + 1)) - lb) (drop lb offs).

(** The server key of a row. *)
Definition row_key (total k key : Z) (i : nat) (row : Z) : Z :=
  width k * Z.of_nat i + (key + (row - cut total k (Z.of_nat i))).

Section Rows.
Context (total k key unit_len nb : Z) (offs : list Z).
Hypothesis Hk : 0 < k < 2 ^ 20.
Hypothesis Htotal : 0 < total < 2 ^ 39.
Hypothesis Hkt : 2 * k ≤ total.
Hypothesis Hkey : 0 ≤ key < 2 ^ 39.
Hypothesis Hunit : 0 < unit_len * nb.
Hypothesis Hsz : Z.of_nat (length offs) * (unit_len * nb) < 2 ^ 31.
Hypothesis Hsorted : StronglySorted Z.lt offs.
Hypothesis Hrange : Forall (fun row => 0 ≤ row < total) offs.

Definition rows_upto (m : nat) : PSKV :=
  {| pskv_keys := mjoin ((fun i => (width k * Z.of_nat i + key) :: (row_key total k key i <$> row_group total k offs i)) <$> seq 0 m);
     pskv_lens := mjoin ((fun i => 0 :: replicate (length (row_group total k offs i)) (unit_len * nb)) <$> seq 0 m);
     pskv_size := Z.of_nat (lower_bound offs (cut total k (Z.of_nat m))) * (unit_len * nb) |}.

Lemma row_group_elem (i : nat) row : Z.of_nat i < k → row ∈ row_group total k offs i →
  cut total k (Z.of_nat i) ≤ row < cut total k (Z.of_nat i + 1).
Proof.
  intros Hi Hr. apply list_elem_of_lookup in Hr as [j Hj]. unfold row_group in Hj.
  apply lookup_take_Some in Hj as [Hj Hlt]. rewrite lookup_drop in Hj. split.
  - eapply lower_bound_after; [done| |exact Hj]. lia.
  - eapply lower_bound_before; [|exact Hj]. lia.
Qed.

Lemma row_group_length (i : nat) : Z.of_nat i < k →
  Z.of_nat (length (row_group total k offs i)) =
    Z.of_nat (lower_bound offs (cut total k (Z.of_nat (S i)))) - Z.of_nat (lower_bound offs (cut total k (Z.of_nat i))).
Proof.
  intros Hi. unfold row_group. rewrite length_take, length_drop.
  pose proof (cut_mono total k (Z.of_nat i) ltac:(lia) Hk Hkt ltac:(lia)).
  replace (Z.of_nat (S i)) with (Z.of_nat i + 1) by lia.
  pose proof (lower_bound_mono offs (cut total k (Z.of_nat i)) (cut total k (Z.of_nat i + 1)) ltac:(lia)).
  pose proof (lower_bound_le (cut total k (Z.of_nat i + 1)) offs). lia.
Qed.

Lemma row_groups_concat (m : nat) : Z.of_nat m ≤ k →
  mjoin (row_group total k offs <$> seq 0 m) = take (lower_bound offs (cut total k (Z.of_nat m))) offs.
Proof.
  induction m as [|m IH]; intros Hm.
  - simpl. rewrite cut_first, lower_bound_none; [done|].
    eapply Forall_impl; [exact Hrange|]. simpl. lia.
  - rewrite mjoin_seq_S, IH by lia. unfold row_group.
    replace (Z.of_nat (S m)) with (Z.of_nat m + 1) by lia.
    pose proof (cut_mono total k (Z.of_nat m) ltac:(lia) Hk Hkt ltac:(lia)).
    pose proof (lower_bound_mono offs (cut total k (Z.of_nat m)) (cut total k (Z.of_nat m + 1)) ltac:(lia)).
    set (a := lower_bound offs (cut total k (Z.of_nat m))) in *.
    set (b := lower_bound offs (cut total k (Z.of_nat m + 1))) in *.
    rewrite <- (take_drop a (take b offs)), take_take, take_drop_commute.
    replace (a `min` b)%nat with a by lia. by replace (a + (b - a))%nat with b by lia.
Qed.
Lemma push_rows_spec (i : nat) rows p :
  Z.of_nat i < k → (∀ row, row ∈ rows → cut total k (Z.of_nat i) ≤ row < cut total k (Z.of_nat i + 1)) →
  0 ≤ pskv_size p → pskv_size p + Z.of_nat (length rows) * (unit_len * nb) < 2 ^ 31 →
  push_rows {| range_begin := width k * Z.of_nat i; range_end := width k * (Z.of_nat i + 1) |} key
    (cut total k (Z.of_nat i)) (unit_len * nb) rows p =
  Ok {| pskv_keys := pskv_keys p ++ (row_key total k key i <$> rows);
        pskv_lens := pskv_lens p ++ replicate (length rows) (unit_len * nb);
        pskv_size := pskv_size p + Z.of_nat (length rows) * (unit_len * nb) |}.
Proof.
  intros Hi Hrows. revert p. pose proof (width_large k Hk).
  pose proof (cut_le_n total k (S i) ltac:(lia) Hk Hkt ltac:(lia)) as Hle.
  replace (Z.of_nat (S i)) with (Z.of_nat i + 1) in Hle by lia.
  pose proof (cut_nonneg total k (Z.of_nat i) ltac:(lia) Hk ltac:(lia)) as Hge.
  unfold push_rows. induction rows as [|row rows IH]; intros p Hp Hsize; cbn [foldM].
  - rewrite !app_nil_r, Z.add_0_r. by destruct p.
  - assert (cut total k (Z.of_nat i) ≤ row < cut total k (Z.of_nat i + 1)) as Hrow by (apply Hrows; left).
    cbn [length] in Hsize. rewrite checked_key_ok by lia. rstep. unfold int_add. rewrite int_range_ok by nia. rstep.
    rewrite IH; cbn [pskv_size pskv_keys pskv_lens set_size push_back]; [|intros; apply Hrows; by right|nia|nia].
    rewrite <- !(assoc_L (++)). cbn [app length replicate fmap list_fmap].
    by replace (pskv_size p + unit_len * nb + Z.of_nat (length rows) * (unit_len * nb))
      with (pskv_size p + Z.of_nat (S (length rows)) * (unit_len * nb)) by lia.
Qed.

Lemma row_server_step (i : nat) : Z.of_nat i < k →
  let p := rows_upto i in
  push_rows {| range_begin := width k * Z.of_nat i; range_end := width k * (Z.of_nat i + 1) |} key
    (cut total k (Z.of_nat i)) (unit_len * nb) (row_group total k offs i)
    (push_back p (width k * Z.of_nat i + key) 0) = Ok (rows_upto (S i)).
Proof.
  intros Hi p. pose proof (row_group_length i Hi) as Hl.
  pose proof (lower_bound_le (cut total k (Z.of_nat (S i))) offs) as Hle.
  rewrite push_rows_spec; cbn [pskv_size pskv_keys pskv_lens push_back p rows_upto]; [|done| |nia|rewrite Hl; nia].
  2:{ intros row Hr. by apply row_group_elem. }
  unfold rows_upto. rewrite !mjoin_seq_S, <- !(assoc_L (++)). cbn [app]. do 2 f_equal. rewrite Hl. lia.
Qed.

Lemma rows_lens_sum (m : nat) : Z.of_nat m ≤ k →
  zsum (pskv_lens (rows_upto m)) = Z.of_nat (lower_bound offs (cut total k (Z.of_nat m))) * (unit_len * nb).
Proof.
  assert (∀ c x, zsum (replicate c x) = Z.of_nat c * x) as Hrep.
  { induction c as [|c IH]; intros x; [done|]. cbn [replicate]. unfold zsum in *. cbn [foldr]. rewrite IH. lia. }
  induction m as [|m IH]; intros Hm; cbn [rows_upto pskv_lens] in *.
  - simpl. rewrite cut_first, lower_bound_none; [done|]. eapply Forall_impl; [exact Hrange|]. simpl. lia.
  - rewrite mjoin_seq_S, zsum_app, IH by lia. unfold zsum at 1. cbn [foldr].
    fold (zsum (replicate (length (row_group total k offs m)) (unit_len * nb))).
    rewrite Hrep, row_group_length by lia. lia.
Qed.
End Rows.

(** The rows of a large sparse array reach the server that owns them, once each.
    For sorted row ids, [EncodeRowSparseKey] deals them into one group per server, in
    order and without loss; the group of server [i] holds exactly rows in its interval,
    every row key is the master key plus the row's offset in that interval, and the byte
    counts add up to the data pushed. *)
Theorem row_sparse_spread bound k key total unit_len nb offs :
  0 < k < 2 ^ 20 → 0 < total < 2 ^ 39 → 2 * k ≤ total → 0 ≤ key < 2 ^ 39 → 0 < unit_len → 0 < nb →
  Z.of_nat (length offs) * (unit_len * nb) < 2 ^ 31 → bound ≤ total * unit_len < 2 ^ 64 →
  StronglySorted Z.lt offs → Forall (fun row => 0 ≤ row < total) offs → offs ≠ [] →
  let num_elem := Z.of_nat (length offs) * unit_len in
  ∃ p groups, EncodeRowSparseKey bound k ∅ key num_elem (Some offs) unit_len total nb = Ok (<[key := p]> ∅, p) ∧
    Z.of_nat (length groups) = k ∧ mjoin groups = offs ∧
    (∀ i g row, groups !! i = Some g → row ∈ g → cut total k (Z.of_nat i) ≤ row < cut total k (Z.of_nat i + 1)) ∧
    pskv_keys p = mjoin (imap (fun i g => (width k * Z.of_nat i + key) :: (row_key total k key i <$> g)) groups) ∧
    zsum (pskv_lens p) = num_elem * nb.
Proof.
  intros Hk Ht Hkt Hkey Hu Hnb Hsz Hbig Hs Hr Hne num_elem.
  assert (0 < unit_len * nb) as Hunit by nia. pose proof (width_large k Hk).
  assert (0 < length offs)%nat as Hlen by (destruct offs; [done|simpl; lia]).
  assert (0 < num_elem) as Hpos by (unfold num_elem; nia).
  assert (unit_len * nb < 2 ^ 31) as Hub by nia.
  assert (lower_bound offs (cut total k (Z.of_nat (Z.to_nat k))) = length offs) as Hall.
  { rewrite Z2Nat.id, cut_last by lia. apply lower_bound_all. eapply Forall_impl; [exact Hr|]. simpl. lia. }
  exists (rows_upto total k key unit_len nb offs (Z.to_nat k)), (row_group total k offs <$> seq 0 (Z.to_nat k)).
  split; [|split; [|split; [|split; [|split]]]].
  - unfold EncodeRowSparseKey. rewrite krs_length by done. chk.
    rewrite u64_id by lia. rewrite (proj2 (Z.leb_le _ _)) by lia. rewrite length_GetServerKeyRanges.
    rewrite (for_range_trace (fun m => (rows_upto total k key unit_len nb offs m, cut total k (Z.of_nat m))) 0 (Z.to_nat k)
      _ _ (rows_upto total k key unit_len nb offs (Z.to_nat k), cut total k (Z.of_nat (Z.to_nat k)))); [rstep|lia| |done|].
    + cbn [pskv_size rows_upto]. rewrite Hall. rewrite check_bind_ok; [done|].
      apply Z.eqb_eq. f_equal. unfold num_elem. lia.
    + unfold rows_upto, PSKV_empty. simpl. rewrite cut_first, lower_bound_none; [done|].
      eapply Forall_impl; [exact Hr|]. simpl. lia.
    + intros i Hi. pose proof (krs_lookup k (Z.of_nat i) ltac:(lia)) as Hkr. rewrite Nat2Z.id in Hkr.
      rewrite (rd_ok _ _ _ Hkr). rstep. rewrite (proj2 (Z.ltb_lt _ _)) by lia.
      rewrite u64_id, i32_id by lia. rewrite ps_key_ok by lia.
      replace (cut total k (Z.of_nat i) + (cut total k (Z.of_nat i + 1) - cut total k (Z.of_nat i)))
        with (cut total k (Z.of_nat i + 1)) by lia.
      rewrite upper_is_lower. change (take _ (drop _ offs)) with (row_group total k offs i).
      rewrite row_server_step by (done || lia). rstep. by replace (Z.of_nat (S i)) with (Z.of_nat i + 1) by lia.
  - rewrite length_fmap, length_seq. lia.
  - rewrite (row_groups_concat total k key offs) by (done || lia). rewrite Hall. by rewrite take_ge.
  - intros i g row Hg Hrow. apply list_lookup_fmap_Some in Hg as (x & -> & Hx). apply lookup_seq in Hx as [-> Hx].
    eapply (row_group_elem total k key offs); (done || lia).
  - cbn [pskv_keys rows_upto]. f_equal. apply list_eq. intros i. rewrite list_lookup_imap, !list_lookup_fmap.
    destruct (seq 0 (Z.to_nat k) !! i) as [x|] eqn:E; simpl; [|done]. apply lookup_seq in E as [-> _]. done.
  - rewrite rows_lens_sum by (done || lia). rewrite Hall. unfold num_elem. lia.
Qed.

Lemma row_sparse_spread_witness :
  ∃ p groups, EncodeRowSparseKey 100 3 ∅ 4 20 (Some [1; 5; 30; 99]) 5 100 4 = Ok (<[4 := p]> ∅, p) ∧
    mjoin groups = [1; 5; 30; 99] ∧ pskv_lens p = [0; 20; 20; 20; 0; 0; 20].
Proof.
  destruct (row_sparse_spread 100 3 4 100 5 4 [1; 5; 30; 99]) as (p & groups & E & _ & Hg & _);
    [lia..|simpl; lia|lia| | |done|].
  - repeat (constructor; [|repeat constructor]). repeat constructor.
  - repeat (constructor; [lia|]). constructor.
  - exists p, groups. split; [exact E|]. split; [exact Hg|]. vm_compute in E. by injection E as <-.
Defined.

(** [CheckUnique] only sees adjacent duplicates: it accepts the keys 1, 2, 1. *)
Theorem CheckUnique_misses_duplicates :
  CheckUnique [1; 2; 1] = Ok tt ∧ ¬ NoDup [1; 2; 1] ∧
  (∀ keys, NoDup keys → CheckUnique keys = Ok tt).
Proof.
  split; [done|]. split; [by_decision|]. intros keys Hnd. unfold CheckUnique.
  assert (unique keys = keys) as ->; [|by rewrite Nat.eqb_refl].
  induction keys as [|x [|y keys] IH]; [done|done|].
  apply NoDup_cons in Hnd as [Hx Hnd]. change (unique (x :: y :: keys)) with
    (if x =? y then unique (y :: keys) else x :: unique (y :: keys)).
  rewrite (proj2 (Z.eqb_neq _ _)) by (intros ->; apply Hx; left). by rewrite IH.
Qed.
