(* ===== verification/KVApp.v ===== *)
(** * Key-value applications: slicing, tracking and reassembling requests

    A push or a pull of sorted keys is cut into one slice per server, servers without
    keys are counted as having answered, and the answers to a pull are put back together
    whatever the order in which they arrive.
    Source: src/3rdparty/ps-lite/include/ps/kv_app.h, [FindRange] and [segment] of
    sarray.h. *)

From Stdlib Require Import SpecFloat Sorted.
From stdpp Require Import sorting.
From S2P Require Import Prelude StdAlgo Floats Text Postoffice Customer TwoBit GradientCompression KeyEncoding.
Local Open Scope Z_scope.

(** ** Arrays *)

(** [SArray::segment] *)
Definition segment {A} (l : list A) (b e : nat) : result (list A) :=
  check (b <=? e)%nat "Check failed: end >= begin";;
  check (e <=? length l)%nat "Check failed: end <= size()";;
  Ok (take (e - b) (drop b l)).

Lemma segment_ok {A} (l : list A) b e :
  (b ≤ e)%nat → (e ≤ length l)%nat → segment l b e = Ok (take (e - b) (drop b l)).
Proof.
  intros H1 H2. unfold segment. rewrite (proj2 (Nat.leb_le _ _) H1), (proj2 (Nat.leb_le _ _) H2). done.
Qed.

(** [FindRange], as the pair of indices. *)
Definition FindRange (arr : list Z) (lower upper : Z) : nat * nat :=
  if upper <=? lower then (0%nat, 0%nat) else (lower_bound arr lower, lower_bound arr upper).

(** ** Slicing *)
Record KVs (A : Type) := { keys : list Z; vals : list A; lens : list Z }.
Arguments keys {A}.
Arguments vals {A}.
Arguments lens {A}.
Definition KVs_empty {A} : KVs A := Build_KVs A [] [] [].

(** The first loop of [DefaultSlicer]: [pos[0]], ..., [pos[n]]. *)
Definition slice_positions (ks : list Z) (ranges : list Range) : result (list nat) :=
  match ranges with
  | [] => Ok [0%nat]
  | r0 :: _ =>
      let p0 := lower_bound ks (range_begin r0) in
      '(pos, _) ← foldM (fun '(pos, prev) r =>
        check (match prev with Some p => range_end p =? range_begin r | None => true end)
          "Check failed: ranges[i-1].end() == ranges[i].begin()";;
        let b := default 0%nat (last pos) in
        Ok (pos ++ [(b + lower_bound (drop b ks) (range_end r))%nat], Some r)) ([p0], None) ranges;
      Ok pos
  end.

(** The second loop: server [i] gets the keys between [pos[i]] and [pos[i+1]]. *)
Definition slice_step {A} (send : KVs A) (k : nat) (pos : list nat)
    (acc : list (bool * KVs A) * nat) (i : nat) : result (list (bool * KVs A) * nat) :=
  let '(sliced, val_begin) := acc in
  a ← rd pos i;
  b ← rd pos (S i);
  if (b =? a)%nat then Ok (sliced ++ [(false, KVs_empty)], val_begin)
  else
    ks ← segment (keys send) a b;
    if (length (lens send) =? 0)%nat then
      vs ← segment (vals send) (a * k) (b * k);
      Ok (sliced ++ [(true, Build_KVs A ks vs [])], val_begin)
    else
      ls ← segment (lens send) a b;
      let val_end := Z.to_nat (u64 (Z.of_nat val_begin + zsum ls)) in
      vs ← segment (vals send) val_begin val_end;
      Ok (sliced ++ [(true, Build_KVs A ks vs ls)], val_end).

Definition DefaultSlicer {A} (send : KVs A) (ranges : list Range) : result (list (bool * KVs A)) :=
  let n := length ranges in
  pos ← slice_positions (keys send) ranges;
  check (default 0%nat (pos !! n) =? length (keys send))%nat "Check failed: pos[n] == send.keys.size()";;
  if (length (keys send) =? 0)%nat then Ok (replicate n (false, KVs_empty))
  else
    k ← (if (length (lens send) =? 0)%nat then
           let k := (length (vals send) / length (keys send))%nat in
           check (k * length (keys send) =? length (vals send))%nat "Check failed: k * keys.size() == vals.size()";;
           Ok k
         else
           check (length (keys send) =? length (lens send))%nat "Check failed: keys.size() == lens.size()";;
           Ok 0%nat);
    '(sliced, _) ← foldM (slice_step send k pos) ([], 0%nat) (seq 0 n);
    Ok sliced.

(** The server's [DefaultSlicer] is the same code over the global ranges. *)
Definition DefaultSlicer_server {A} : KVs A → list Range → result (list (bool * KVs A)) := DefaultSlicer.

(** ** Sending *)
Record Msg (A : Type) := {
  msg_recver : Z; msg_request : bool; msg_push : bool; msg_head : Z; msg_timestamp : Z;
  msg_key : Z; msg_version : Z; msg_iters : Z; msg_data : KVs A
}.
Arguments msg_recver {A}.
Arguments msg_timestamp {A}.
Arguments msg_data {A}.

Definition skipped {A} (sliced : list (bool * A)) : nat :=
  length (List.filter (fun s => negb s.1) sliced).

(** [Send]: count the servers that get nothing, run the callback when none gets
    anything, and send one message per non-empty slice (without merging towards another
    node: [app] is [kEmpty]). *)
Definition Send {A} (is_global : bool) (num_servers : Z) (t : tracker) (timestamp : Z) (push : bool)
    (cmd : Z) (kvs : KVs A) (uniq_key key_version num_merge : Z) : result (tracker * bool * list (Msg A)) :=
  sliced ← DefaultSlicer kvs (GetServerKeyRanges num_servers);
  t ← AddResponse t timestamp (Z.of_nat (skipped sliced));
  let run_callback := (skipped sliced =? length sliced)%nat in
  Ok (t, run_callback,
      omap (fun '(i, (nonempty, kv)) =>
        if nonempty : bool then
          Some (Build_Msg A (ServerRankToID (Z.of_nat i) is_global) true push cmd timestamp uniq_key key_version
                  (if num_merge =? 1 then 1 else num_merge) kv)
        else None) (imap pair sliced)).

(** ** Receiving the answers to a pull (KVWorker) *)

(** The variables captured by the callback of [Pull_]: the keys, the size of the array the
    caller gave for the values, and that of the array for the lengths, if any. *)
Record PullArgs := { cb_keys : list Z; cb_vals_size : nat; cb_lens_size : option nat }.

Record Worker (A : Type) := {
  w_tracker : tracker;
  recv_kvs_ : gmap Z (list (KVs A));
  callbacks_ : gmap Z PullArgs;
  finished : gmap Z (list A * option (list Z))    (* what the callbacks have delivered *)
}.
Arguments w_tracker {A}.
Arguments recv_kvs_ {A}.
Arguments callbacks_ {A}.
Arguments finished {A}.

(** [a.keys.front() < b.keys.front()]; [front()] of an empty array is undefined. *)
Definition front {A} (s : KVs A) : Z := default 0 (head (keys s)).
Definition front_le {A} (a b : KVs A) : Prop := front a ≤ front b.
#[export] Instance front_le_dec {A} (a b : KVs A) : Decision (front_le a b) := decide (front a ≤ front b).

(** One answer checked: totals of keys and values. *)
Definition check_answer {A} (args : PullArgs) (total : nat * nat) (s : KVs A) : result (nat * nat) :=
  first ← of_option (Undefined "front of an empty array") (head (keys s));
  back ← of_option (Undefined "back of an empty array") (last (keys s));
  let '(b, e) := FindRange (cb_keys args) first (u64 (back + 1)) in
  check (e - b =? length (keys s))%nat "unmatched keys size from one server";;
  check (match cb_lens_size args with Some _ => (length (lens s) =? length (keys s))%nat | None => true end)
    "Check failed: s.lens.size() == s.keys.size()";;
  Ok (total.1 + length (keys s), total.2 + length (vals s))%nat.

(** The callback of [Pull_]. *)
Definition pull_callback {A} (args : PullArgs) (kvs : list (KVs A)) : result (list A * option (list Z)) :=
  '(total_key, total_val) ← foldM (check_answer args) (0, 0)%nat kvs;
  check (total_key =? length (cb_keys args))%nat "lost some servers?";;
  let sorted := merge_sort front_le kvs in
  check ((cb_vals_size args =? 0) || (cb_vals_size args =? total_val))%nat "Check failed: vals->size() == total_val";;
  check (match cb_lens_size args with
         | Some n => ((n =? 0) || (n =? length (cb_keys args)))%nat
         | None => true
         end) "Check failed: lens->size() == keys.size()";;
  Ok (mjoin (vals <$> sorted), (fun _ => mjoin (lens <$> sorted)) <$> cb_lens_size args).

(** [RunCallback] of a pull: also drops the received data and the callback. *)
Definition RunCallback {A} (w : Worker A) (ts : Z) : result (Worker A) :=
  match callbacks_ w !! ts with
  | None => Ok w
  | Some args =>
      r ← pull_callback args (default [] (recv_kvs_ w !! ts));
      Ok {| w_tracker := w_tracker w; recv_kvs_ := delete ts (recv_kvs_ w);
            callbacks_ := delete ts (callbacks_ w); finished := <[ts := r]> (finished w) |}
  end.

(** [KVWorker::Process] on a response with or without data. *)
Definition Process {A} (enable_p3 : bool) (num_servers : Z) (push : bool) (ts : Z) (data : option (KVs A))
    (w : Worker A) : result (Worker A) :=
  let w := match data with
           | Some kvs =>
               if negb push || enable_p3 then
                 {| w_tracker := w_tracker w;
                    recv_kvs_ := <[ts := default [] (recv_kvs_ w !! ts) ++ [kvs]]> (recv_kvs_ w);
                    callbacks_ := callbacks_ w; finished := finished w |}
               else w
           | None => w
           end in
  n ← NumResponse (w_tracker w) ts;
  if n =? num_servers - 1 then RunCallback w ts else Ok w.

(** A response as [Customer::Receiving] treats it: the handler first, then the count. *)
Definition receive_response {A} (enable_p3 : bool) (num_servers : Z) (push : bool) (ts : Z) (data : option (KVs A))
    (w : Worker A) : result (Worker A) :=
  w ← Process enable_p3 num_servers push ts data w;
  t ← AddResponse (w_tracker w) ts 1;
  Ok {| w_tracker := t; recv_kvs_ := recv_kvs_ w; callbacks_ := callbacks_ w; finished := finished w |}.

(** [Pull_]: register the callback and send the keys. *)
Definition Pull_ {A} (num_servers : Z) (w : Worker A) (args : PullArgs) (cmd : Z) : result (Worker A * Z * list (Msg A)) :=
  let '(ts, t) := NewRequest (w_tracker w) num_servers in
  '(t, now, msgs) ← Send false num_servers t ts false cmd (Build_KVs A (cb_keys args) [] []) kEmpty kEmpty 1;
  let w := {| w_tracker := t; recv_kvs_ := recv_kvs_ w; callbacks_ := <[ts := args]> (callbacks_ w);
              finished := finished w |} in
  w ← (if now : bool then RunCallback w ts else Ok w);
  Ok (w, ts, msgs).

(** ** Slicing is a partition *)

(** Counting the smaller keys from a later start. *)
Lemma lower_bound_drop l x y :
  StronglySorted Z.lt l → x ≤ y →
  (lower_bound l x + lower_bound (drop (lower_bound l x) l) y = lower_bound l y)%nat.
Proof.
  intros Hs Hxy. induction Hs as [|z l Hs IH Hall]; [done|]. cbn [lower_bound].
  destruct (Z.ltb_spec z x) as [Hz|Hz].
  - rewrite (proj2 (Z.ltb_lt z y)) by lia. cbn [drop]. rewrite <- IH. lia.
  - done.
Qed.

Lemma zsum_nonneg l : Forall (fun x => 0 ≤ x) l → 0 ≤ zsum l.
Proof. induction 1 as [|x l Hx _ IH]; [done|]. unfold zsum in *. cbn [foldr]. lia. Qed.

Lemma zsum_take_le l n : Forall (fun x => 0 ≤ x) l → 0 ≤ zsum (take n l) ≤ zsum l.
Proof.
  intros H. rewrite <- (take_drop n l) at 3. rewrite zsum_app.
  pose proof (zsum_nonneg (take n l) ltac:(by apply Forall_take)).
  pose proof (zsum_nonneg (drop n l) ltac:(by apply Forall_drop)). lia.
Qed.

Section KeySlices.
Context (k : Z) (ks : list Z).
Hypothesis Hk : 0 < k < 2 ^ 20.
Hypothesis Hsorted : StronglySorted Z.lt ks.
Hypothesis Hrange : Forall (fun x => 0 ≤ x < width k * k) ks.

(** The cut points among the keys. *)
Definition kpos (i : nat) : nat := lower_bound ks (width k * Z.of_nat i).

Lemma kpos_mono i : (kpos i ≤ kpos (S i))%nat.
Proof. apply lower_bound_mono. pose proof (width_large k Hk). nia. Qed.
Lemma kpos_0 : kpos 0 = 0%nat.
Proof. apply lower_bound_none. eapply Forall_impl; [exact Hrange|]. simpl. lia. Qed.
Lemma kpos_last : kpos (Z.to_nat k) = length ks.
Proof. apply lower_bound_all. eapply Forall_impl; [exact Hrange|]. simpl. rewrite Z2Nat.id by lia. lia. Qed.
Lemma kpos_le i : (kpos i ≤ length ks)%nat.
Proof. apply lower_bound_le. Qed.

Lemma slice_positions_spec :
  slice_positions ks (GetServerKeyRanges k) = Ok (kpos <$> seq 0 (S (Z.to_nat k))).
Proof.
  unfold slice_positions. pose proof (width_large k Hk) as Hw.
  pose proof (length_GetServerKeyRanges k) as Hl.
  destruct (GetServerKeyRanges k) as [|r0 rs] eqn:E; [simpl in Hl; lia|]. rewrite <- E in *.
  assert (r0 = {| range_begin := width k * 0; range_end := width k * (0 + 1) |}) as ->.
  { pose proof (krs_lookup k 0 ltac:(lia)) as H. rewrite E in H. by injection H as ->. }
  cbn [range_begin]. rewrite Z.mul_0_r.
  set (g := fun i : nat => (kpos <$> seq 0 (S i),
    match i with O => None | S j => GetServerKeyRanges k !! j end)).
  replace ([lower_bound ks 0], None) with (g 0%nat).
  2:{ unfold g, kpos. cbn. by rewrite Z.mul_0_r. }
  rewrite (foldM_trace g); [by rewrite Hl|]. intros i r Hr.
  pose proof (lookup_lt_Some _ _ _ Hr) as Hi. rewrite Hl in Hi.
  pose proof (krs_lookup k (Z.of_nat i) ltac:(lia)) as Hkr. rewrite Nat2Z.id, Hr in Hkr. injection Hkr as ->.
  unfold g. cbn [fst snd]. rewrite check_bind_ok.
  2:{ destruct i as [|j]; [done|]. pose proof (krs_lookup k (Z.of_nat j) ltac:(lia)) as Hkr. rewrite Nat2Z.id in Hkr.
      rewrite Hkr. cbn [range_begin range_end]. apply Z.eqb_eq. f_equal. lia. }
  cbn [range_end]. rewrite (seq_S (S i)), fmap_app, seq_S, fmap_app. cbn [fmap list_fmap]. rewrite last_snoc. cbn [default from_option].
  rewrite !Nat.add_0_l, Hr. unfold id.
  assert (kpos i + lower_bound (drop (kpos i) ks) (width k * (Z.of_nat i + 1)) = kpos (S i))%nat as ->; [|done].
  unfold kpos. rewrite lower_bound_drop by (done || nia). do 2 f_equal. lia.
Qed.

Lemma seg_keys_range i x : x ∈ seg ks kpos i → width k * Z.of_nat i ≤ x < width k * (Z.of_nat i + 1).
Proof.
  intros Hx. apply list_elem_of_lookup in Hx as [j Hj]. unfold seg in Hj.
  apply lookup_take_Some in Hj as [Hj Hlt]. rewrite lookup_drop in Hj. split.
  - eapply lower_bound_after; [done| |exact Hj]. unfold kpos. lia.
  - replace (Z.of_nat i + 1) with (Z.of_nat (S i)) by lia. eapply lower_bound_before; [|exact Hj]. fold (kpos (S i)). lia.
Qed.

Lemma seg_keys_join : mjoin (seg ks kpos <$> seq 0 (Z.to_nat k)) = ks.
Proof.
  rewrite mjoin_seg by (apply kpos_0 || (intros; apply kpos_mono)). by rewrite kpos_last, take_ge.
Qed.

Lemma seg_empty i : (kpos (S i) =? kpos i)%nat = bool_decide (seg ks kpos i = []).
Proof.
  pose proof (length_seg ks kpos i (kpos_mono i) (kpos_le (S i))) as Hl. pose proof (kpos_mono i).
  destruct (Nat.eqb_spec (kpos (S i)) (kpos i)) as [E|E]; symmetry.
  - apply bool_decide_eq_true. apply nil_length_inv. lia.
  - apply bool_decide_eq_false. intros H'. rewrite H' in Hl. simpl in Hl. lia.
Qed.
End KeySlices.

Section Slicing.
Context {A : Type} (k : Z) (send : KVs A).
Hypothesis Hk : 0 < k < 2 ^ 20.
Hypothesis Hsorted : StronglySorted Z.lt (keys send).
Hypothesis Hrange : Forall (fun x => 0 ≤ x < width k * k) (keys send).
Hypothesis Hne : keys send ≠ [].
Hypothesis Hlens : length (lens send) = length (keys send).
Hypothesis Hpos : Forall (fun x => 0 ≤ x) (lens send).
Hypothesis Hvals : Z.of_nat (length (vals send)) = zsum (lens send).
Hypothesis Hsize : zsum (lens send) < 2 ^ 63.

Local Abbreviation kp := (kpos k (keys send)).

(** The cut points among the values. *)
Definition vpos (i : nat) : nat := Z.to_nat (zsum (take (kp i) (lens send))).

Lemma vpos_step i : Z.of_nat (vpos i) + zsum (seg (lens send) kp i) = Z.of_nat (vpos (S i)).
Proof.
  unfold vpos, seg. pose proof (kpos_mono k (keys send) Hk i) as Hm.
  pose proof (zsum_take_le (lens send) (kp i) Hpos). pose proof (zsum_take_le (lens send) (kp (S i)) Hpos).
  rewrite !Z2Nat.id by lia. rewrite <- zsum_app. f_equal.
  rewrite <- (take_drop (kp i) (take (kp (S i)) (lens send))), take_take, take_drop_commute.
  replace (kp i `min` kp (S i))%nat with (kp i) by lia.
  by replace (kp i + (kp (S i) - kp i))%nat with (kp (S i)) by lia.
Qed.

Lemma vpos_le i : (vpos i ≤ length (vals send))%nat.
Proof. unfold vpos. pose proof (zsum_take_le (lens send) (kp i) Hpos). lia. Qed.

Lemma vpos_mono i : (vpos i ≤ vpos (S i))%nat.
Proof.
  pose proof (vpos_step i). assert (0 ≤ zsum (seg (lens send) kp i)); [|lia].
  apply zsum_nonneg. unfold seg. by apply Forall_take, Forall_drop.
Qed.

(** The slice of server [i]. *)
Definition slice_of (i : nat) : bool * KVs A :=
  (negb (kp (S i) =? kp i)%nat,
   Build_KVs A (seg (keys send) kp i) (seg (vals send) vpos i) (seg (lens send) kp i)).

Lemma slice_step_spec i : (i < Z.to_nat k)%nat →
  slice_step send 0 (kp <$> seq 0 (S (Z.to_nat k))) (slice_of <$> seq 0 i, vpos i) i =
    Ok (slice_of <$> seq 0 (S i), vpos (S i)).
Proof.
  intros Hi. unfold slice_step.
  rewrite (rd_ok _ i (kp i)) by (rewrite list_lookup_fmap, lookup_seq_lt by lia; done). rstep.
  rewrite (rd_ok _ (S i) (kp (S i))) by (rewrite list_lookup_fmap, lookup_seq_lt by lia; done). rstep.
  pose proof (kpos_mono k (keys send) Hk i) as Hm. pose proof (kpos_le k (keys send) (S i)) as Hle.
  pose proof (vpos_step i) as Hv. pose proof (vpos_le (S i)) as Hvl.
  rewrite seq_S, fmap_app, Nat.add_0_l. cbn [fmap list_fmap].
  assert (slice_of i = (negb (kp (S i) =? kp i)%nat,
    Build_KVs A (seg (keys send) kp i) (seg (vals send) vpos i) (seg (lens send) kp i))) as -> by done.
  destruct (Nat.eqb_spec (kp (S i)) (kp i)) as [Heq|Hneq]; cbn [negb].
  - assert (vpos (S i) = vpos i) as Hvv by (unfold vpos; by rewrite Heq).
    unfold seg. rewrite Hvv, Heq, !Nat.sub_diag, !take_0. done.
  - rewrite (segment_ok (keys send)) by lia. rstep.
    rewrite (proj2 (Nat.eqb_neq _ _)) by (rewrite Hlens; destruct (keys send); [done|simpl; lia]).
    rewrite (segment_ok (lens send)) by lia. rstep.
    change (take (kp (S i) - kp i) (drop (kp i) (lens send))) with (seg (lens send) kp i).
    rewrite Hv, u64_id, Nat2Z.id by lia.
    rewrite segment_ok by (done || apply vpos_mono). done.
Qed.

Lemma DefaultSlicer_spec : DefaultSlicer send (GetServerKeyRanges k) = Ok (slice_of <$> seq 0 (Z.to_nat k)).
Proof.
  unfold DefaultSlicer. rewrite slice_positions_spec by done. rstep. rewrite length_GetServerKeyRanges.
  rewrite list_lookup_fmap, lookup_seq_lt by lia. cbn [fmap option_fmap option_map default from_option]. unfold id.
  rewrite Nat.add_0_l, kpos_last, Nat.eqb_refl, check_bind_ok by done.
  assert (length (keys send) ≠ 0%nat) as Hn by (destruct (keys send); [done|simpl; lia]).
  rewrite !(proj2 (Nat.eqb_neq _ _)) by (rewrite ?Hlens; done).
  rewrite Hlens, Nat.eqb_refl. rewrite check_bind_ok by done. rstep.
  replace ([] : list (bool * KVs A), 0%nat) with ((fun i => (slice_of <$> seq 0 i, vpos i)) 0%nat).
  2:{ unfold vpos. by rewrite kpos_0. }
  rewrite (foldM_trace (fun i => (slice_of <$> seq 0 i, vpos i))); [rstep; by rewrite length_seq|].
  intros i x Hx. apply lookup_seq in Hx as [-> Hx]. rewrite Nat.add_0_l. by apply slice_step_spec.
Qed.

Lemma slice_vals_join : mjoin (seg (vals send) vpos <$> seq 0 (Z.to_nat k)) = vals send.
Proof.
  rewrite mjoin_seg.
  - rewrite take_ge; [done|]. unfold vpos. rewrite kpos_last, take_ge by (done || lia). lia.
  - unfold vpos. by rewrite kpos_0.
  - intros i _. apply vpos_mono.
Qed.
End Slicing.

(** [DefaultSlicer] partitions a request.  For sorted keys inside the servers' key
    space and lengths that add up to the values, it succeeds and gives every server
    exactly the keys of its range: the slices concatenated are the request, keys and
    values; each slice's values are as long as its lengths say; and a server is skipped
    exactly when it has no key. *)
Theorem slicer_partition {A} (k : Z) (send : KVs A) :
  0 < k < 2 ^ 20 → StronglySorted Z.lt (keys send) → Forall (fun x => 0 ≤ x < width k * k) (keys send) →
  keys send ≠ [] → length (lens send) = length (keys send) → Forall (fun x => 0 ≤ x) (lens send) →
  Z.of_nat (length (vals send)) = zsum (lens send) → zsum (lens send) < 2 ^ 63 →
  ∃ sliced, DefaultSlicer send (GetServerKeyRanges k) = Ok sliced ∧ Z.of_nat (length sliced) = k ∧
    mjoin ((fun s => keys s.2) <$> sliced) = keys send ∧
    mjoin ((fun s => vals s.2) <$> sliced) = vals send ∧
    ∀ i nonempty kv, sliced !! i = Some (nonempty, kv) →
      nonempty = negb (bool_decide (keys kv = [])) ∧
      Z.of_nat (length (vals kv)) = zsum (lens kv) ∧ length (lens kv) = length (keys kv) ∧
      (∀ x, x ∈ keys kv → width k * Z.of_nat i ≤ x < width k * (Z.of_nat i + 1)).
Proof.
  intros Hk Hs Hr Hne Hl Hp Hv Hsz. exists (slice_of k send <$> seq 0 (Z.to_nat k)).
  split; [by apply DefaultSlicer_spec|]. split; [rewrite length_fmap, length_seq; lia|].
  rewrite <- !list_fmap_compose. split; [by apply seg_keys_join|]. split; [by apply slice_vals_join|].
  intros i nonempty kv Hi. apply list_lookup_fmap_Some in Hi as (j & Heq & Hj). apply lookup_seq in Hj as [-> Hj].
  rewrite Nat.add_0_l in Heq. unfold slice_of in Heq. injection Heq as -> ->. cbn [keys vals lens].
  pose proof (kpos_mono k (keys send) Hk i) as Hm. pose proof (kpos_le k (keys send) (S i)) as Hle.
  split_and!.
  - by rewrite seg_empty.
  - rewrite length_seg by (eapply vpos_mono || eapply vpos_le; done).
    pose proof (vpos_step k send Hk Hl Hp i). pose proof (vpos_mono k send Hk Hl Hp i). lia.
  - rewrite !length_seg by lia. done.
  - intros x Hx. by apply (seg_keys_range k (keys send)).
Qed.

Lemma slicer_partition_witness :
  ∃ sliced, DefaultSlicer (Build_KVs Z [1; 2; width 2 + 5] [10; 20; 21; 30] [1; 2; 1]) (GetServerKeyRanges 2) = Ok sliced ∧
    ((fun s => vals s.2) <$> sliced) = [[10; 20; 21]; [30]].
Proof.
  destruct (slicer_partition 2 (Build_KVs Z [1; 2; width 2 + 5] [10; 20; 21; 30] [1; 2; 1])) as (sliced & E & _);
    [lia| | |done|done| |done|cbn; lia|].
  - repeat constructor.
  - repeat (constructor; [vm_compute; split; [discriminate|reflexivity]|]). constructor.
  - repeat (constructor; [cbn; lia|]). constructor.
  - exists sliced. split; [exact E|]. vm_compute in E. injection E as <-. reflexivity.
Defined.

(** ** Reassembling a pull *)
Lemma lower_bound_app pre l x :
  Forall (fun y => y < x) pre → lower_bound (pre ++ l) x = (length pre + lower_bound l x)%nat.
Proof. induction 1 as [|y pre Hy _ IH]; [done|]. simpl. by rewrite (proj2 (Z.ltb_lt _ _) Hy), IH. Qed.

Lemma sorted_app_inv (l1 l2 : list Z) :
  StronglySorted Z.lt (l1 ++ l2) →
  StronglySorted Z.lt l1 ∧ StronglySorted Z.lt l2 ∧ (∀ x y, x ∈ l1 → y ∈ l2 → x < y).
Proof.
  induction l1 as [|z l1 IH]; simpl; intros H; [split_and!; [constructor|done|intros; set_solver]|].
  apply StronglySorted_inv in H as [H Hall]. destruct (IH H) as (H1 & H2 & H3).
  apply Forall_app in Hall as [Ha1 Ha2]. split_and!; [by constructor|done|].
  intros x y Hx Hy. apply elem_of_cons in Hx as [->|Hx]; [|by apply H3].
  rewrite Forall_forall in Ha2. by apply Ha2.
Qed.

(** A block of consecutive keys is found by its first and last key. *)
Lemma FindRange_block pre s post first back :
  StronglySorted Z.lt (pre ++ s ++ post) → head s = Some first → last s = Some back →
  FindRange (pre ++ s ++ post) first (back + 1) = (length pre, length pre + length s)%nat.
Proof.
  intros Hs Hf Hb. apply sorted_app_inv in Hs as (_ & Hs & Hpre). apply sorted_app_inv in Hs as (Hss & _ & Hpost).
  assert (first ∈ s) as Hfin by (destruct s; [done|]; injection Hf as ->; left).
  assert (back ∈ s) as Hbin.
  { apply last_Some in Hb as [s' ->]. apply elem_of_app. right. left. }
  assert (∀ x, x ∈ s → first ≤ x ≤ back) as Hbounds.
  { intros x Hx. split.
    - destruct s as [|z s]; [done|]. injection Hf as ->. apply elem_of_cons in Hx as [->|Hx]; [lia|].
      apply StronglySorted_inv in Hss as [_ Hall]. rewrite Forall_forall in Hall. specialize (Hall x Hx). simpl in Hall. lia.
    - apply last_Some in Hb as [s' ->]. apply sorted_app_inv in Hss as (_ & _ & H).
      apply elem_of_app in Hx as [Hx|Hx]; [specialize (H x back Hx ltac:(left)); lia|].
      apply list_elem_of_singleton in Hx. lia. }
  pose proof (Hbounds first Hfin). unfold FindRange. rewrite (proj2 (Z.leb_gt _ _)) by lia. f_equal.
  - rewrite lower_bound_app; [|apply Forall_forall; intros x Hx; apply Hpre; set_solver].
    rewrite lower_bound_none; [lia|]. apply Forall_forall. intros x Hx.
    apply elem_of_app in Hx as [Hx|Hx]; [apply Hbounds; done|]. specialize (Hpost first x Hfin Hx). lia.
  - rewrite lower_bound_app.
    2:{ apply Forall_forall. intros x Hx. specialize (Hpre x back Hx ltac:(set_solver)). simpl. lia. }
    rewrite lower_bound_app; [|apply Forall_forall; intros x Hx; specialize (Hbounds x Hx); simpl; lia].
    rewrite lower_bound_none; [lia|]. apply Forall_forall. intros x Hx. specialize (Hpost back x Hbin Hx). lia.
Qed.

Lemma StronglySorted_weaken {A} (R S : A → A → Prop) l :
  (∀ x y, R x y → S x y) → StronglySorted R l → StronglySorted S l.
Proof. intros H. induction 1 as [|x l _ IH Hall]; constructor; [done|]. eapply Forall_impl; [exact Hall|]. naive_solver. Qed.

Section Answers.
Context {A : Type} (args : PullArgs) (answers : list (KVs A)).
Hypothesis Hsorted : StronglySorted Z.lt (cb_keys args).
Hypothesis Hrange : Forall (fun x => 0 ≤ x < 2 ^ 64 - 1) (cb_keys args).
Hypothesis Hjoin : mjoin (keys <$> answers) = cb_keys args.
Hypothesis Hne : Forall (fun a => keys a ≠ []) answers.
Hypothesis Hlens : Forall (fun a => cb_lens_size args = None ∨ length (lens a) = length (keys a)) answers.

Lemma check_answer_ok a total : a ∈ answers →
  check_answer args total a = Ok (total.1 + length (keys a), total.2 + length (vals a))%nat.
Proof.
  intros Ha. rewrite Forall_forall in Hne, Hlens. pose proof (Hne a Ha) as Hna. pose proof (Hlens a Ha) as Hla.
  apply list_elem_of_split in Ha as (l1 & l2 & E).
  assert (cb_keys args = mjoin (keys <$> l1) ++ keys a ++ mjoin (keys <$> l2)) as Hk.
  { rewrite <- Hjoin, E, fmap_app, join_app. done. }
  unfold check_answer. destruct (head (keys a)) as [first|] eqn:Hf; [|by destruct (keys a)].
  destruct (last (keys a)) as [back|] eqn:Hb; [|by apply last_None in Hb]. cbn [of_option mbind result_bind].
  assert (back ∈ cb_keys args) as Hin.
  { rewrite Hk. apply last_Some in Hb as [? ->]. set_solver. }
  rewrite Forall_forall in Hrange. specialize (Hrange back Hin).
  rewrite u64_id by lia. rewrite Hk in Hsorted |- *. rewrite (FindRange_block _ _ _ first back) by done.
  rewrite check_bind_ok by (apply Nat.eqb_eq; lia). rewrite check_bind_ok; [done|].
  destruct (cb_lens_size args); [|done]. destruct Hla as [? | ->]; [done|]. apply Nat.eqb_refl.
Qed.

Lemma check_answers_ok l total : Forall (fun a => a ∈ answers) l →
  foldM (check_answer args) total l =
    Ok (total.1 + length (mjoin (keys <$> l)), total.2 + length (mjoin (vals <$> l)))%nat.
Proof.
  intros H. revert total. induction H as [|a l Ha _ IH]; intros [tk tv]; cbn [foldM fmap list_fmap mjoin list_join].
  - by rewrite !Nat.add_0_r.
  - rewrite check_answer_ok by done. rstep. rewrite IH. cbn [fst snd]. rewrite !length_app, !Nat.add_assoc. done.
Qed.

Lemma front_in (a : KVs A) : keys a ≠ [] → front a ∈ keys a.
Proof. unfold front. destruct (keys a); [done|]. left. Qed.

(** The answers in key order are ordered, strictly, by their first keys. *)
Lemma answers_sorted : StronglySorted (fun a b => front a < front b) answers.
Proof.
  rewrite <- Hjoin in Hsorted. clear Hjoin Hrange Hlens. induction Hne as [|a l Ha Hl IH]; [constructor|].
  cbn [fmap list_fmap mjoin list_join] in Hsorted. apply sorted_app_inv in Hsorted as (_ & H2 & H3).
  constructor; [by apply IH|]. apply Forall_forall. intros b Hb. apply H3; [by apply front_in|].
  apply list_elem_of_join. exists (keys b). split; [|by apply list_elem_of_fmap_2].
  apply front_in. rewrite Forall_forall in Hl. by apply Hl.
Qed.

Lemma merge_sort_answers arrival : arrival ≡ₚ answers → merge_sort front_le arrival = answers.
Proof.
  intros Hp. apply (StronglySorted_unique_strong front_le).
  - intros a b Ha Hb Hab Hba. rewrite merge_sort_Permutation, Hp in Ha.
    apply list_elem_of_lookup in Ha as [i Hi], Hb as [j Hj].
    pose proof answers_sorted as Hs. unfold front_le in *.
    destruct (decide (i = j)) as [->|Hij]; [congruence|]. exfalso.
    assert (∀ i j a b, (i < j)%nat → answers !! i = Some a → answers !! j = Some b → front a < front b) as Hlt.
    { clear -Hs. induction Hs as [|x l Hs IH Hall]; intros i j a b Hij Hi Hj; [done|].
      destruct j as [|j]; [lia|]. destruct i as [|i]; cbn in Hi, Hj.
      - injection Hi as ->. rewrite Forall_forall in Hall. apply Hall. by eapply list_elem_of_lookup_2.
      - apply (IH i j); [lia|done..]. }
    destruct (Nat.lt_gt_cases i j) as [[H|H] _]; [done|..].
    + specialize (Hlt i j a b H Hi Hj). lia.
    + specialize (Hlt j i b a H Hj Hi). lia.
  - apply Sorted_StronglySorted; [intros ???; unfold front_le; lia|].
    apply Sorted_merge_sort. intros a b. unfold front_le. lia.
  - eapply StronglySorted_weaken; [|apply answers_sorted]. unfold front_le. intros. lia.
  - by rewrite merge_sort_Permutation.
Qed.

Lemma pull_callback_spec arrival :
  arrival ≡ₚ answers →
  (cb_vals_size args = 0%nat ∨ cb_vals_size args = length (mjoin (vals <$> answers))) →
  (∀ n, cb_lens_size args = Some n → n = 0%nat ∨ n = length (cb_keys args)) →
  pull_callback args arrival =
    Ok (mjoin (vals <$> answers), (fun _ => mjoin (lens <$> answers)) <$> cb_lens_size args).
Proof.
  intros Hp Hv Hl. unfold pull_callback.
  rewrite check_answers_ok by (apply Forall_forall; intros a Ha; by rewrite <- Hp). rstep.
  rewrite !Nat.add_0_l, (merge_sort_answers _ Hp).
  assert (∀ {B} (f : KVs A → list B), length (mjoin (f <$> arrival)) = length (mjoin (f <$> answers))) as Hlen.
  { intros B f. by rewrite Hp. }
  rewrite !Hlen, Hjoin, Nat.eqb_refl, check_bind_ok by done.
  rewrite check_bind_ok by (destruct Hv as [-> | ->]; rewrite Nat.eqb_refl, ?orb_true_r; done).
  rewrite check_bind_ok; [done|]. destruct (cb_lens_size args) as [n|]; [|done].
  destruct (Hl n eq_refl) as [-> | ->]; rewrite Nat.eqb_refl, ?orb_true_r; done.
Qed.
End Answers.

(** ** A pull from end to end *)
Section Pull.
Context {A : Type} (k : Z) (ks : list Z).
Hypothesis Hk : 0 < k < 2 ^ 20.
Hypothesis Hsorted : StronglySorted Z.lt ks.
Hypothesis Hrange : Forall (fun x => 0 ≤ x < width k * k) ks.
Hypothesis Hne : ks ≠ [].

Local Abbreviation kp := (kpos k ks).

(** The slice of server [i] of a request without values. *)
Definition key_slice (i : nat) : bool * KVs A :=
  (negb (kp (S i) =? kp i)%nat, Build_KVs A (seg ks kp i) [] []).

Lemma key_slicer_spec :
  DefaultSlicer (Build_KVs A ks [] []) (GetServerKeyRanges k) = Ok (key_slice <$> seq 0 (Z.to_nat k)).
Proof.
  unfold DefaultSlicer. cbn [keys vals lens]. rewrite slice_positions_spec by done. rstep.
  rewrite length_GetServerKeyRanges, list_lookup_fmap, lookup_seq_lt by lia.
  cbn [fmap option_fmap option_map default from_option]. unfold id.
  rewrite Nat.add_0_l, kpos_last by done. rewrite check_bind_ok by apply Nat.eqb_refl.
  rewrite (proj2 (Nat.eqb_neq (length ks) 0)) by (destruct ks; [done|simpl; lia]).
  cbn [length]. rewrite Nat.eqb_refl.
  rewrite check_bind_ok by (rewrite Nat.Div0.div_0_l; done). rewrite Nat.Div0.div_0_l. rstep.
  set (g := fun i => (key_slice <$> seq 0 i, 0%nat)).
  change ([] : list (bool * KVs A), 0%nat) with (g 0%nat).
  rewrite (foldM_trace g); [rstep; unfold g; by rewrite length_seq|].
  intros i x Hx. apply lookup_seq in Hx as [-> Hx]. rewrite Nat.add_0_l. unfold slice_step, g. cbn [keys vals lens].
  rewrite (rd_ok _ i (kp i)) by (rewrite list_lookup_fmap, lookup_seq_lt by lia; done). rstep.
  rewrite (rd_ok _ (S i) (kp (S i))) by (rewrite list_lookup_fmap, lookup_seq_lt by lia; done). rstep.
  pose proof (kpos_mono k ks Hk i) as Hm. pose proof (kpos_le k ks (S i)) as Hle.
  rewrite seq_S, fmap_app, Nat.add_0_l. cbn [fmap list_fmap].
  assert (key_slice i = (negb (kp (S i) =? kp i)%nat, Build_KVs A (seg ks kp i) [] [])) as -> by done.
  destruct (Nat.eqb_spec (kp (S i)) (kp i)) as [Heq|Hneq]; cbn [negb].
  - unfold seg. rewrite Heq, Nat.sub_diag, take_0. done.
  - rewrite (segment_ok ks) by lia. rstep. cbn [length]. rewrite Nat.eqb_refl, !Nat.mul_0_r.
    rewrite segment_ok by (simpl; lia). done.
Qed.

(** The servers that hold some of the keys, and what they are asked for. *)
Definition owners : list nat := List.filter (fun i => negb (kp (S i) =? kp i)%nat) (seq 0 (Z.to_nat k)).

Lemma skipped_owners : (skipped (key_slice <$> seq 0 (Z.to_nat k)) + length owners = Z.to_nat k)%nat.
Proof.
  unfold skipped, owners. transitivity (length (seq 0 (Z.to_nat k))); [|apply length_seq].
  induction (seq 0 (Z.to_nat k)) as [|i l IH]; [done|]. cbn [fmap list_fmap List.filter].
  unfold key_slice at 1. cbn [fst].
  destruct (kp (S i) =? kp i)%nat; cbn [negb length]; lia.
Qed.

Lemma owners_join : mjoin ((fun i => seg ks kp i) <$> owners) = ks.
Proof.
  etrans; [|by apply (seg_keys_join k ks)]. unfold owners.
  induction (seq 0 (Z.to_nat k)) as [|i l IH]; [done|]. cbn [fmap list_fmap List.filter mjoin list_join].
  rewrite (seg_empty k ks Hk). case_bool_decide as E; cbn [negb fmap list_fmap mjoin list_join].
  - rewrite E. exact IH.
  - f_equal. exact IH.
Qed.

Lemma owners_nonempty i : i ∈ owners → seg ks kp i ≠ [].
Proof.
  intros Hi. unfold owners in Hi. rewrite list_elem_of_In, List.filter_In in Hi. destruct Hi as [_ Hi].
  rewrite (seg_empty k ks Hk) in Hi. by case_bool_decide.
Qed.

Lemma owners_pos : (0 < length owners)%nat.
Proof.
  pose proof owners_join. destruct owners; [|simpl; lia]. by subst.
Qed.

Lemma omap_imap_pair {B C} (f : nat * B → option C) (g : nat → B) (n : nat) :
  omap f (imap pair (g <$> seq 0 n)) = omap (fun i => f (i, g i)) (seq 0 n).
Proof.
  induction n as [|n IH]; [done|]. rewrite seq_S, fmap_app, imap_app, !omap_app, IH. f_equal.
  cbn [fmap list_fmap imap omap list_omap compose]. by rewrite length_fmap, length_seq, Nat.add_0_r.
Qed.

(** The request for the keys of server [i]. *)
Definition pull_msg (ts cmd : Z) (i : nat) : Msg A :=
  Build_Msg A (ServerRankToID (Z.of_nat i) false) true false cmd ts kEmpty kEmpty 1 (Build_KVs A (seg ks kp i) [] []).

Lemma Send_pull t cmd :
  Send false k (t ++ [(k, 0)]) (Z.of_nat (length t)) false cmd (Build_KVs A ks [] []) kEmpty kEmpty 1 =
    Ok (t ++ [(k, k - Z.of_nat (length owners))], false, pull_msg (Z.of_nat (length t)) cmd <$> owners).
Proof.
  unfold Send. rewrite key_slicer_spec. rstep. pose proof skipped_owners as Hsk. pose proof owners_pos as Hpos.
  rewrite AddResponse_last by lia. rstep. rewrite length_fmap, length_seq.
  rewrite (proj2 (Nat.eqb_neq _ _)) by lia. do 2 f_equal; [do 4 f_equal; lia|].
  rewrite omap_imap_pair. unfold owners. clear Hsk Hpos.
  induction (seq 0 (Z.to_nat k)) as [|i l IH]; [done|]. cbn [omap list_omap List.filter].
  unfold key_slice at 1. destruct (negb (kp (S i) =? kp i)%nat); cbn [fmap list_fmap]; [|exact IH].
  f_equal. exact IH.
Qed.

Section Arrival.
Context (enable_p3 : bool) (w : Worker A) (args : PullArgs).
Local Abbreviation ts := (Z.of_nat (length (w_tracker w))).
Hypothesis Hks : cb_keys args = ks.
Hypothesis Hfresh : recv_kvs_ w !! ts = None.

(** The worker when the answers [l] have arrived and others are missing. *)
Definition waiting (l : list (KVs A)) : Worker A :=
  {| w_tracker := w_tracker w ++ [(k, k - Z.of_nat (length owners) + Z.of_nat (length l))];
     recv_kvs_ := match l with [] => recv_kvs_ w | _ => <[ts := l]> (recv_kvs_ w) end;
     callbacks_ := <[ts := args]> (callbacks_ w); finished := finished w |}.

Lemma Pull_spec cmd : Pull_ k w args cmd = Ok (waiting [], ts, pull_msg ts cmd <$> owners).
Proof.
  unfold Pull_, NewRequest. rewrite Hks, Send_pull. rstep. unfold waiting. cbn [length]. by rewrite Z.add_0_r.
Qed.

(** The data of an answer is stored before the responses are counted. *)
Definition stored_answer (l : list (KVs A)) (a : KVs A) : Worker A :=
  {| w_tracker := w_tracker (waiting l); recv_kvs_ := <[ts := l ++ [a]]> (recv_kvs_ w);
     callbacks_ := callbacks_ (waiting l); finished := finished w |}.

Lemma receive_stores l a : (length l < length owners)%nat →
  receive_response enable_p3 k false ts (Some a) (waiting l) =
    (w' ← (if (S (length l) =? length owners)%nat then RunCallback (stored_answer l a) ts else Ok (stored_answer l a));
     t ← AddResponse (w_tracker w') ts 1;
     Ok {| w_tracker := t; recv_kvs_ := recv_kvs_ w'; callbacks_ := callbacks_ w'; finished := finished w' |}).
Proof.
  intros Hl. unfold receive_response, Process. cbn [negb orb w_tracker waiting recv_kvs_ callbacks_ finished].
  rewrite NumResponse_last. rstep.
  replace (k - Z.of_nat (length owners) + Z.of_nat (length l) =? k - 1) with (S (length l) =? length owners)%nat.
  2:{ destruct (Nat.eqb_spec (S (length l)) (length owners)), (Z.eqb_spec (k - Z.of_nat (length owners) + Z.of_nat (length l)) (k - 1)); lia. }
  assert (<[ts := default [] (match l with [] => recv_kvs_ w | _ => <[ts := l]> (recv_kvs_ w) end !! ts) ++ [a]]>
    (match l with [] => recv_kvs_ w | _ => <[ts := l]> (recv_kvs_ w) end) = <[ts := l ++ [a]]> (recv_kvs_ w)) as E.
  { destruct l as [|b l]; [by rewrite Hfresh|]. by rewrite lookup_insert_eq, insert_insert_eq. }
  rewrite E. done.
Qed.

Lemma receive_more l a : (S (length l) < length owners)%nat →
  receive_response enable_p3 k false ts (Some a) (waiting l) = Ok (waiting (l ++ [a])).
Proof.
  intros Hl. rewrite receive_stores by lia. rewrite (proj2 (Nat.eqb_neq _ _)) by lia. rstep.
  pose proof skipped_owners as Hsk.
  cbn [w_tracker waiting stored_answer]. rewrite AddResponse_last by lia. rstep. unfold waiting. rewrite length_app.
  cbn [length]. do 2 f_equal; [do 3 f_equal; lia|]. by destruct l.
Qed.

Lemma receive_some l : (length l < length owners)%nat →
  foldM (fun w a => receive_response enable_p3 k false ts (Some a) w) (waiting []) l = Ok (waiting l).
Proof.
  induction l as [|a l IH] using rev_ind; [done|]. rewrite length_app. cbn [length]. intros Hl.
  rewrite foldM_app, IH by lia. rstep. cbn [foldM]. rewrite receive_more by lia. done.
Qed.

Lemma receive_last l a r : S (length l) = length owners → pull_callback args (l ++ [a]) = Ok r →
  receive_response enable_p3 k false ts (Some a) (waiting l) =
    Ok {| w_tracker := w_tracker w ++ [(k, k)]; recv_kvs_ := recv_kvs_ w;
          callbacks_ := delete ts (callbacks_ w); finished := <[ts := r]> (finished w) |}.
Proof.
  intros Hl Hr. rewrite receive_stores by lia. rewrite (proj2 (Nat.eqb_eq _ _)) by done.
  pose proof skipped_owners as Hsk.
  unfold RunCallback, stored_answer. cbn [w_tracker waiting recv_kvs_ callbacks_ finished].
  rewrite !lookup_insert_eq. cbn [default from_option id]. rewrite Hr. rstep. cbn [w_tracker].
  rewrite AddResponse_last by lia. rstep. cbn [recv_kvs_ callbacks_ finished].
  do 2 f_equal; [do 3 f_equal; lia| |].
  - rewrite delete_insert_eq. by rewrite delete_id.
  - by rewrite delete_insert_eq.
Qed.
End Arrival.
End Pull.

Lemma Forall2_keys {A} (msgs : list (Msg A)) (answers : list (KVs A)) (P : Msg A → KVs A → Prop) :
  Forall2 (fun m a => keys a = keys (msg_data m) ∧ P m a) msgs answers →
  keys <$> answers = (fun m => keys (msg_data m)) <$> msgs.
Proof. induction 1 as [|m a msgs answers [E _] _ IH]; [done|]. cbn [fmap list_fmap]. by rewrite E, IH. Qed.

(** A pull delivers the values in the order of the keys whatever the order in which
    the servers answer.  [Pull_] of sorted keys sends each server the keys of its range;
    when every asked server answers with values for the keys it was asked for, then
    under every arrival order the callback runs at the last answer, with the servers'
    values and lengths concatenated in key order, and [WaitRequest] returns; after any
    proper part of the answers the callback has not run and [WaitRequest] blocks. *)
Theorem pull_reassembles {A} (enable_p3 : bool) (k cmd : Z) (w : Worker A) (args : PullArgs) :
  0 < k < 2 ^ 20 → StronglySorted Z.lt (cb_keys args) →
  Forall (fun x => 0 ≤ x < width k * k) (cb_keys args) → cb_keys args ≠ [] →
  recv_kvs_ w !! Z.of_nat (length (w_tracker w)) = None →
  ∃ w1 ts msgs, Pull_ k w args cmd = Ok (w1, ts, msgs) ∧
    mjoin ((fun m => keys (msg_data m)) <$> msgs) = cb_keys args ∧
    ∀ answers arrival,
      Forall2 (fun m a => keys a = keys (msg_data m) ∧ length (lens a) = length (keys a)) msgs answers →
      (cb_vals_size args = 0%nat ∨ cb_vals_size args = length (mjoin (vals <$> answers))) →
      (∀ n, cb_lens_size args = Some n → n = 0%nat ∨ n = length (cb_keys args)) →
      arrival ≡ₚ answers →
      let run := foldM (fun w a => receive_response enable_p3 k false ts (Some a) w) w1 in
      (∃ w2, run arrival = Ok w2 ∧ WaitRequest (w_tracker w2) ts = Ok tt ∧
         finished w2 !! ts =
           Some (mjoin (vals <$> answers), (fun _ => mjoin (lens <$> answers)) <$> cb_lens_size args)) ∧
      (∀ l a l', arrival = l ++ a :: l' → ∃ w', run l = Ok w' ∧ finished w' = finished w ∧
         WaitRequest (w_tracker w') ts = Err (Blocked "WaitRequest")).
Proof.
  intros Hk Hs Hr Hne Hfresh. eexists _, _, _. split; [by apply (Pull_spec k (cb_keys args))|].
  set (ks := cb_keys args) in *. split; [rewrite <- list_fmap_compose; by apply owners_join|].
  intros answers arrival Hans Hvs Hls Hp. cbn zeta.
  pose proof (Forall2_length _ _ _ Hans) as Hlen. rewrite length_fmap in Hlen.
  pose proof (Forall2_keys _ _ _ Hans) as Hkeys. pose proof (owners_pos k ks Hk Hr Hne) as Hpos.
  assert (pull_callback args arrival = Ok (mjoin (vals <$> answers), (fun _ => mjoin (lens <$> answers)) <$> cb_lens_size args)) as Hcb.
  { apply pull_callback_spec; [done| | | | |done..].
    - eapply Forall_impl; [exact Hr|]. simpl. intros x Hx.
      pose proof (Z.mul_div_le kMaxKey k ltac:(lia)). unfold width in Hx. change kMaxKey with (2 ^ 64 - 1) in *. lia.
    - rewrite Hkeys, <- list_fmap_compose. by apply owners_join.
    - apply Forall_forall. intros a Ha. apply list_elem_of_lookup in Ha as [i Hi].
      destruct (Forall2_lookup_r _ _ _ _ _ Hans Hi) as (m & Hm & -> & _).
      apply list_lookup_fmap_Some in Hm as (j & -> & Hj). cbn [msg_data keys pull_msg].
      apply owners_nonempty; [done|]. by eapply list_elem_of_lookup_2.
    - apply Forall_forall. intros a Ha. right. apply list_elem_of_lookup in Ha as [i Hi].
      by destruct (Forall2_lookup_r _ _ _ _ _ Hans Hi) as (m & Hm & _ & ?). }
  pose proof (Permutation_length Hp) as Hpl. split.
  - destruct arrival as [|a l _] using rev_ind; [simpl in Hpl; lia|]. rewrite length_app in Hpl. cbn [length] in Hpl.
    rewrite foldM_app, (receive_some k ks) by (done || lia). rstep. cbn [foldM].
    erewrite (receive_last k ks) by (done || lia). rstep. eexists. split; [done|].
    cbn [w_tracker finished]. rewrite WaitRequest_last, Z.eqb_refl, lookup_insert_eq. done.
  - intros l a l' E. rewrite E, length_app in Hpl. cbn [length] in Hpl. eexists.
    split; [apply (receive_some k ks); done || lia|]. split; [done|]. cbn [w_tracker waiting].
    rewrite WaitRequest_last. destruct (Z.eqb_spec k (k - Z.of_nat (length (owners k ks)) + Z.of_nat (length l))); [lia|done].
Qed.

Lemma pull_reassembles_witness :
  let w := {| w_tracker := []; recv_kvs_ := ∅; callbacks_ := ∅; finished := ∅ |} in
  let args := {| cb_keys := [1; 2; width 2 + 5]; cb_vals_size := 0; cb_lens_size := Some 0%nat |} in
  ∃ w1 ts msgs w2, Pull_ 2 w args 0 = Ok (w1, ts, msgs) ∧
    foldM (fun w a => receive_response false 2 false ts (Some a) w) w1
      [Build_KVs Z [width 2 + 5] [30] [1]; Build_KVs Z [1; 2] [10; 20; 21] [1; 2]] = Ok w2 ∧
    finished w2 !! ts = Some ([10; 20; 21; 30], Some [1; 2; 1]).
Proof.
  intros w args. destruct (pull_reassembles (A := Z) false 2 0 w args) as (w1 & ts & msgs & E & _ & H);
    [lia| | |done|done|].
  - repeat constructor.
  - repeat (constructor; [vm_compute; split; [discriminate|reflexivity]|]). constructor.
  - pose proof E as E'. vm_compute in E'. injection E' as <- <- <-.
    destruct (H [Build_KVs Z [1; 2] [10; 20; 21] [1; 2]; Build_KVs Z [width 2 + 5] [30] [1]]
      [Build_KVs Z [width 2 + 5] [30] [1]; Build_KVs Z [1; 2] [10; 20; 21] [1; 2]]) as [(w2 & E2 & _ & F) _].
    + repeat constructor.
    + by left.
    + intros n [= <-]. by left.
    + apply perm_swap.
    + eexists _, _, _, w2. split; [exact E|]. split; [exact E2|]. exact F.
Defined.
