(* ===== verification/NDArray.v ===== *)
(** * NDArrays: handles to shared storage

    An [NDArray] variable is a handle: assigning it makes two variables share one
    chunk of storage, and an in-place operation is seen through both.  The model keeps
    the chunks in a heap.  Shapes are one-dimensional, which is all the server uses
    for dense values; engine scheduling is left out (every operation of the server is
    followed by [WaitToRead] before its result is used).
    Source: src/src/ndarray/ndarray.cc, for arrays on the CPU. *)

From Stdlib Require Import SpecFloat.
From S2P Require Import Prelude Floats Command.
Local Open Scope Z_scope.

(** ** Element types *)
Definition kFloat64 : Z := 1.

(** [MSHADOW_REAL_TYPE_SWITCH]: other type flags are fatal. *)
Definition is_real_type (d : Z) : bool := (d =? kFloat32) || (d =? kFloat64) || (d =? kFloat16).

(** A conversion to the type [d]; [half_t] rounds to nearest even. *)
Definition cast_to (d : Z) (x : float) : float :=
  if d =? kFloat32 then convert 24 128 x else if d =? kFloat64 then convert 53 1024 x else convert 11 16 x.

(** Arithmetic in the type [d]; [half_t] computes in float and converts back. *)
Definition arith (op : Z → Z → float → float → float) (d : Z) (x y : float) : float :=
  if d =? kFloat32 then op 24 128 x y
  else if d =? kFloat64 then op 53 1024 x y
  else cast_to d (op 24 128 x y).
Definition dadd : Z → float → float → float := arith SFadd.
Definition dsub : Z → float → float → float := arith SFsub.
Definition ddiv : Z → float → float → float := arith SFdiv.

(** ** Storage *)
Record chunk := { ch_dtype : Z; ch_data : list float }.
Record heap := { cells : gmap nat chunk; next_cell : nat }.
Definition heap_empty : heap := {| cells := ∅; next_cell := 0 |}.

(** [None] is an array for which [is_none()] holds. *)
Abbreviation NDArray := (option nat).
Definition is_none (a : NDArray) : bool := match a with None => true | Some _ => false end.

Definition deref (h : heap) (a : NDArray) : result chunk :=
  match a with
  | Some c => of_option (Undefined "dangling array") (cells h !! c)
  | None => Err (Undefined "use of an empty NDArray")
  end.

(** [NDArray(shape, ctx, false, dtype)]: fresh storage, contents not initialised. *)
Definition alloc (h : heap) (c : chunk) : NDArray * heap :=
  (Some (next_cell h), {| cells := <[next_cell h := c]> (cells h); next_cell := S (next_cell h) |}).
Definition new_array (h : heap) (size : nat) (dtype : Z) : NDArray * heap :=
  alloc h {| ch_dtype := dtype; ch_data := replicate size S754_nan |}.

Definition store_data (h : heap) (a : NDArray) (data : list float) : result heap :=
  match a with
  | Some c =>
      ch ← deref h a;
      Ok {| cells := <[c := {| ch_dtype := ch_dtype ch; ch_data := data |}]> (cells h); next_cell := next_cell h |}
  | None => Err (Undefined "use of an empty NDArray")
  end.

(** [CopyFromTo]: copies, converting the elements; nothing happens when source and
    target are the same storage. *)
Definition CopyFromTo (h : heap) (from to : NDArray) : result heap :=
  if bool_decide (from = to) && negb (is_none from) then Ok h
  else
    cf ← deref h from;
    ct ← deref h to;
    check (length (ch_data cf) =? length (ch_data ct))%nat "operands shape mismatch";;
    store_data h to (cast_to (ch_dtype ct) <$> ch_data cf).

(** The same from memory that is not an array of the heap (a received message). *)
Definition CopyRaw (h : heap) (data : list float) (to : NDArray) : result heap :=
  ct ← deref h to;
  check (length data =? length (ch_data ct))%nat "operands shape mismatch";;
  store_data h to (cast_to (ch_dtype ct) <$> data).

(** [BinaryOpPrepare] and [BinaryOpKernel]: the kernel requires one element type. *)
Definition binary_data (op : Z → float → float → float) (l r : chunk) : result (list float) :=
  check (length (ch_data l) =? length (ch_data r))%nat "operands shape mismatch";;
  check (ch_dtype l =? ch_dtype r) "TBlob.get_with_shape: data type do not match specified type";;
  Ok (zip_with (op (ch_dtype l)) (ch_data l) (ch_data r)).

(** [lhs + rhs], [lhs - rhs]: a fresh array. *)
Definition binary_op (op : Z → float → float → float) (h : heap) (l r : NDArray) : result (NDArray * heap) :=
  cl ← deref h l;
  cr ← deref h r;
  d ← binary_data op cl cr;
  Ok (alloc h {| ch_dtype := ch_dtype cl; ch_data := d |}).

(** [dst += src] *)
Definition plus_assign (h : heap) (dst src : NDArray) : result heap :=
  cd ← deref h dst;
  cs ← deref h src;
  d ← binary_data dadd cd cs;
  store_data h dst d.
Definition plus_assign_raw (h : heap) (dst : NDArray) (src : chunk) : result heap :=
  cd ← deref h dst;
  d ← binary_data dadd cd src;
  store_data h dst d.

(** [ScalarOp]: [lhs / rhs] with a [real_t] converted to the element type. *)
Definition div_scalar (h : heap) (l : NDArray) (rhs : float) : result (NDArray * heap) :=
  cl ← deref h l;
  Ok (alloc h {| ch_dtype := ch_dtype cl;
                 ch_data := (fun x => ddiv (ch_dtype cl) x (cast_to (ch_dtype cl) rhs)) <$> ch_data cl |}).

(** [SetValueOp]: [a = scalar] *)
Definition set_value (h : heap) (a : NDArray) (x : float) : result heap :=
  check (negb (is_none a)) "Set value target must not be empty";;
  c ← deref h a;
  store_data h a ((fun _ => cast_to (ch_dtype c) x) <$> ch_data c).

(** ** Lemmas *)

(** Handles in use are below the allocation counter. *)
Definition heap_wf (h : heap) : Prop := ∀ c, is_Some (cells h !! c) → (c < next_cell h)%nat.

Lemma deref_alloc h c : deref (alloc h c).2 (alloc h c).1 = Ok c.
Proof. simpl. by rewrite lookup_insert_eq. Qed.

Lemma deref_alloc_ne h c a x : heap_wf h → deref h a = Ok x → deref (alloc h c).2 a = Ok x.
Proof.
  intros Hwf. destruct a as [n|]; [|done]. simpl. destruct (cells h !! n) as [y|] eqn:E; [|done].
  rewrite lookup_insert_ne; [by rewrite E|]. specialize (Hwf n ltac:(eauto)). lia.
Qed.

Lemma alloc_fresh h c a x : heap_wf h → deref h a = Ok x → (alloc h c).1 ≠ a.
Proof.
  intros Hwf H Heq. subst a. simpl in H. destruct (cells h !! next_cell h) as [y|] eqn:E; [|done].
  specialize (Hwf _ ltac:(eauto)). lia.
Qed.

Lemma heap_wf_alloc h c : heap_wf h → heap_wf (alloc h c).2.
Proof.
  intros Hwf n. simpl. destruct (decide (n = next_cell h)) as [->|Hne]; [lia|].
  rewrite lookup_insert_ne by done. intros H. specialize (Hwf n H). lia.
Qed.

(** A cell overwritten. *)
Definition put (h : heap) (n : nat) (c : chunk) : heap :=
  {| cells := <[n := c]> (cells h); next_cell := next_cell h |}.

Lemma heap_wf_put h n c : heap_wf h → is_Some (cells h !! n) → heap_wf (put h n c).
Proof.
  intros Hwf Hn m. simpl. destruct (decide (m = n)) as [->|Hne]; [intros _; by apply Hwf|].
  rewrite lookup_insert_ne by done. apply Hwf.
Qed.

Lemma fresh_cell h n : heap_wf h → is_Some (cells h !! n) → n ≠ next_cell h.
Proof. intros Hwf H. specialize (Hwf n H). lia. Qed.

Section Operations.
Context (h : heap) (n : nat) (c : chunk).
Hypothesis Hn : cells h !! n = Some c.

Lemma deref_cell : deref h (Some n) = Ok c.
Proof. simpl. by rewrite Hn. Qed.

Lemma store_data_put data :
  store_data h (Some n) data = Ok (put h n {| ch_dtype := ch_dtype c; ch_data := data |}).
Proof. unfold store_data. by rewrite deref_cell. Qed.

Lemma CopyRaw_put data : length data = length (ch_data c) →
  CopyRaw h data (Some n) = Ok (put h n {| ch_dtype := ch_dtype c; ch_data := cast_to (ch_dtype c) <$> data |}).
Proof.
  intros Hl. unfold CopyRaw. rewrite deref_cell. rstep. rewrite Hl, Nat.eqb_refl. rewrite check_bind_ok by done.
  apply store_data_put.
Qed.

Lemma CopyFromTo_put m src : cells h !! m = Some src → m ≠ n → length (ch_data src) = length (ch_data c) →
  CopyFromTo h (Some m) (Some n) =
    Ok (put h n {| ch_dtype := ch_dtype c; ch_data := cast_to (ch_dtype c) <$> ch_data src |}).
Proof.
  intros Hm Hne Hl. unfold CopyFromTo. rewrite bool_decide_eq_false_2 by congruence. cbn [andb].
  assert (deref h (Some m) = Ok src) as -> by (simpl; by rewrite Hm). rewrite deref_cell. rstep.
  rewrite Hl, Nat.eqb_refl. rewrite check_bind_ok by done. apply store_data_put.
Qed.

Lemma plus_assign_raw_put src : length (ch_data c) = length (ch_data src) → ch_dtype c = ch_dtype src →
  plus_assign_raw h (Some n) src =
    Ok (put h n {| ch_dtype := ch_dtype c; ch_data := zip_with (dadd (ch_dtype c)) (ch_data c) (ch_data src) |}).
Proof.
  intros Hl Hd. unfold plus_assign_raw, binary_data. rewrite deref_cell. rstep.
  rewrite check_bind_ok by (by apply Nat.eqb_eq). rewrite check_bind_ok by (by apply Z.eqb_eq).
  rstep. apply store_data_put.
Qed.
End Operations.
