(* ===== verification/SparseOps.v ===== *)
(** * Operations on row-sparse arrays

    Sums of row-sparse gradients (serial and parallel), picking rows, and element-wise
    binary operations.
    Sources: src/src/kvstore/comm.h ([ReduceSumCPUExSerial]),
    src/src/ndarray/ndarray_function.cc ([GetUniqueRspRowIdx], [ElementwiseSumRsp],
    [ElementwiseSumRspImpl]), src/src/operator/tensor/sparse_retain-inl.h
    ([SparseRetainOpForwardRspImpl]) and src/src/operator/tensor/elemwise_binary_op-inl.h
    ([RspRspOp] for two row-sparse arguments and a third, row-sparse, result). *)

From Stdlib Require Import SpecFloat.
From stdpp Require Import sorting.
From S2P Require Import Prelude StdAlgo Floats Sparse Command NDArray.
Local Open Scope Z_scope.

(** ** Sums *)
Section Sums.
Context (d : Z).                         (* element type *)

Definition add_rows (x y : list float) : list float := zip_with (dadd d) x y.

(** One output row: every input that has the row adds it, and moves on. *)
Definition serial_row (ins : list RowSparse) (x : Z) (init : list float) (offsets : list nat) : result (list float * list nat) :=
  r ← for_range 0 (length ins) (fun j '(zeros, val, offsets) =>
    inp ← rd ins j;
    if (length (rsp_idx inp) =? 0)%nat then Ok (zeros, val, offsets)
    else
      offset ← rd offsets j;
      if (offset <? length (rsp_idx inp))%nat then
        y ← rd (rsp_idx inp) offset;
        if x =? y then
          v ← rd (rsp_data inp) offset;
          offsets ← wr offsets j (S offset);
          Ok (false, if zeros : bool then v else add_rows val v, offsets)
        else Ok (zeros, val, offsets)
      else Ok (zeros, val, offsets)) (true, init, offsets);
  Ok (r.1.2, r.2).

Definition ReduceSumCPUExSerial (num_rows : Z) (width : nat) (ins : list RowSparse) : result RowSparse :=
  let indices := std_unique (std_sort (mjoin (rsp_idx <$> ins))) in
  r ← for_range 0 (length indices) (fun i '(val_data, offsets) =>
    x ← rd indices i;
    v ← rd val_data i;
    w ← serial_row ins x v offsets;
    val_data ← wr val_data i w.1;
    Ok (val_data, w.2)) (replicate (length indices) (replicate width S754_nan), replicate (length ins) 0%nat);
  Ok {| rsp_rows := num_rows; rsp_width := width; rsp_idx := indices; rsp_data := r.1 |}.

Definition GetUniqueRspRowIdx (nthreads : Z) (nds : list RowSparse) : result (list Z) :=
  l ← ParallelSort nthreads (mjoin (rsp_idx <$> nds));
  Ok (std_unique l).

(** The loop over the rows of a block and the rows of one input, both sorted. *)
Fixpoint merge_rows (fuel : nat) (nd : RowSparse) (out_indices : list Z) (row_block_end irow p : nat) (out_values : list (list float))
    : result (list (list float)) :=
  if (irow <? row_block_end)%nat && (p <? length (rsp_idx nd))%nat then
    match fuel with
    | O => Err (Undefined "endless loop")
    | S fuel =>
        o ← rd out_indices irow;
        y ← rd (rsp_idx nd) p;
        if o =? y then
          cur ← rd out_values irow;
          v ← rd (rsp_data nd) p;
          out_values ← wr out_values irow (add_rows cur v);
          merge_rows fuel nd out_indices row_block_end (S irow) (S p) out_values
        else if o <? y then merge_rows fuel nd out_indices row_block_end (S irow) p out_values
        else merge_rows fuel nd out_indices row_block_end irow (S p) out_values
    end
  else Ok out_values.

(** One input for one block. *)
Definition sum_input (out_indices : list Z) (row_block_start row_block_end : nat) (out_values : list (list float)) (nd : RowSparse)
    : result (list (list float)) :=
  if (length (rsp_idx nd) =? 0)%nat then Ok out_values
  else
    first ← rd out_indices row_block_start;
    last ← rd out_indices (row_block_end - 1);
    let p := lower_bound (rsp_idx nd) first in
    skip ← (if (p =? length (rsp_idx nd))%nat then Ok true else y ← rd (rsp_idx nd) p; Ok (last <? y));
    if skip : bool then Ok out_values
    else merge_rows (row_block_end - row_block_start + length (rsp_idx nd)) nd out_indices row_block_end row_block_start p out_values.

(** The work of thread [t]. *)
Definition sum_block (nds : list RowSparse) (uniq_row_idx : list Z) (num_threads : nat) (out : list Z * list (list float)) (t : nat)
    : result (list Z * list (list float)) :=
  let nnr := length uniq_row_idx in
  let row_block_len := ((nnr + num_threads - 1) / num_threads)%nat in
  let row_block_start := (t * row_block_len)%nat in
  if (row_block_start <? nnr)%nat then
    let row_block_end := Nat.min (row_block_start + row_block_len) nnr in
    out_indices ← for_range row_block_start row_block_end (fun i l => x ← rd uniq_row_idx i; wr l i x) out.1;
    out_values ← foldM (sum_input out_indices row_block_start row_block_end) out.2 nds;
    Ok (out_indices, out_values)
  else Ok out.

(** The threads write different rows; [order] is the order in which they finish. *)
Definition ElementwiseSumRspImpl (nds : list RowSparse) (uniq_row_idx : list Z) (num_threads : nat) (order : list nat) (out : list Z * list (list float))
    : result (list Z * list (list float)) :=
  foldM (sum_block nds uniq_row_idx num_threads) out order.

Definition ElementwiseSumRsp (num_threads : nat) (order : list nat) (nds : list RowSparse) (out : RowSparse) : result RowSparse :=
  if bool_decide (nds = []) then Ok out
  else
    uniq_row_idx ← GetUniqueRspRowIdx (Z.of_nat num_threads) nds;
    let nnr := length uniq_row_idx in
    r ← ElementwiseSumRspImpl nds uniq_row_idx num_threads order (replicate nnr 0, zeros nnr (rsp_width out));
    Ok {| rsp_rows := rsp_rows out; rsp_width := rsp_width out; rsp_idx := r.1; rsp_data := r.2 |}.
End Sums.

(** [CopyFromTo] between row-sparse arrays of one shape: the elements are converted. *)
Definition rsp_copy (dtype : Z) (a : RowSparse) : RowSparse :=
  {| rsp_rows := rsp_rows a; rsp_width := rsp_width a; rsp_idx := rsp_idx a; rsp_data := map (map (cast_to dtype)) (rsp_data a) |}.

(** ** Picking rows *)

(** [SparseRetainRspThreadKernel]: a binary search for each wanted row. *)
Fixpoint bsearch (fuel : nat) (in_idx : list Z) (irow left right : Z) : result Z :=
  if left <=? right then
    match fuel with
    | O => Err (Undefined "endless loop")
    | S fuel =>
        let m := left + (right - left) / 2 in
        x ← rdz in_idx m;
        if x =? irow then Ok m
        else if x <? irow then bsearch fuel in_idx irow (m + 1) right
        else bsearch fuel in_idx irow left (m - 1)
    end
  else Ok (-1).

Definition SparseRetainRspThreadKernel (a : RowSparse) (idx : list Z) (i : nat) (out : list Z * list (list float))
    : result (list Z * list (list float)) :=
  irow ← rd idx i;
  j ← bsearch (S (length (rsp_idx a))) (rsp_idx a) irow 0 (Z.of_nat (length (rsp_data a)) - 1);
  out_idx ← wr out.1 i irow;
  if 0 <=? j then
    r ← rdz (rsp_data a) j;
    out_data ← wr out.2 i r;
    Ok (out_idx, out_data)
  else Ok (out_idx, out.2).

Definition SparseRetainOpForwardRspImpl (a : RowSparse) (idx : list Z) : result RowSparse :=
  let array i v := {| rsp_rows := rsp_rows a; rsp_width := rsp_width a; rsp_idx := i; rsp_data := v |} in
  if (length (rsp_idx a) =? 0)%nat || (length idx =? 0)%nat || (rsp_rows a =? 0) then Ok (array [] [])
  else
    let n := length idx in
    let out_data := zeros n (rsp_width a) in
    if Z.of_nat (length (rsp_idx a)) =? rsp_rows a then     (* all rows are stored *)
      out_data ← for_range 0 n (fun i out_data =>
        x ← rd idx i;
        r ← rdz (rsp_data a) x;
        wr out_data i r) out_data;
      Ok (array idx out_data)
    else
      out ← for_range 0 n (SparseRetainRspThreadKernel a idx) (replicate n 0, out_data);
      Ok (array out.1 out.2).

(** ** Element-wise binary operations *)
Section BinaryOp.
Context (op : float → float → float) (scatter : bool).

Definition MissingRValueOp (l : list float) : list float := (fun x => op x f32_zero) <$> l.
Definition MissingLValueOp (r : list float) : list float := (fun x => op f32_zero x) <$> r.

Record merge_state := { iter_l : nat; iter_r : nat; iter_out : nat; num_common_rows : nat; indices_out : list Z; data_out : list (list float) }.

(** A row of the output. *)
Definition emit (x : Z) (v : list float) (dl dr common : nat) (st : merge_state) : result merge_state :=
  indices_out ← wr (indices_out st) (iter_out st) x;
  data_out ← wr (data_out st) (iter_out st) v;
  Ok {| iter_l := iter_l st + dl; iter_r := iter_r st + dr; iter_out := S (iter_out st); num_common_rows := num_common_rows st + common;
        indices_out := indices_out; data_out := data_out |}.

Fixpoint merge_common (fuel : nat) (lhs rhs : RowSparse) (st : merge_state) : result merge_state :=
  if (iter_l st <? length (rsp_idx lhs))%nat && (iter_r st <? length (rsp_idx rhs))%nat then
    match fuel with
    | O => Err (Undefined "endless loop")
    | S fuel =>
        idx_l ← rd (rsp_idx lhs) (iter_l st);
        idx_r ← rd (rsp_idx rhs) (iter_r st);
        lvalue ← rd (rsp_data lhs) (iter_l st);
        rvalue ← rd (rsp_data rhs) (iter_r st);
        if idx_l =? idx_r then st ← emit idx_l (zip_with op lvalue rvalue) 1 1 1 st; merge_common fuel lhs rhs st
        else if idx_l <? idx_r then st ← emit idx_l (MissingRValueOp lvalue) 1 0 0 st; merge_common fuel lhs rhs st
        else if scatter then
          merge_common fuel lhs rhs {| iter_l := iter_l st; iter_r := S (iter_r st); iter_out := iter_out st; num_common_rows := num_common_rows st;
                                       indices_out := indices_out st; data_out := data_out st |}
        else st ← emit idx_r (MissingLValueOp rvalue) 0 1 0 st; merge_common fuel lhs rhs st
    end
  else Ok st.

Definition RspRspOp (lhs rhs : RowSparse) : result RowSparse :=
  let num_rows_l := length (rsp_idx lhs) in
  let num_rows_r := length (rsp_idx rhs) in
  let size := if scatter then num_rows_l else (num_rows_l + num_rows_r)%nat in
  st ← merge_common (num_rows_l + num_rows_r) lhs rhs
    {| iter_l := 0; iter_r := 0; iter_out := 0; num_common_rows := 0; indices_out := replicate size 0; data_out := replicate size (replicate (rsp_width lhs) S754_nan) |};
  st ← for_range (iter_l st) num_rows_l (fun i st =>
    x ← rd (rsp_idx lhs) i; v ← rd (rsp_data lhs) i; emit x (MissingRValueOp v) 1 0 0 st) st;
  st ← (if scatter then Ok st else for_range (iter_r st) num_rows_r (fun i st =>
    x ← rd (rsp_idx rhs) i; v ← rd (rsp_data rhs) i; emit x (MissingLValueOp v) 0 1 0 st) st);
  check (iter_out st <=? size)%nat "Check failed: iter_out <= new_shape.Size()";;
  let n := if scatter then size else (size - num_common_rows st)%nat in
  Ok {| rsp_rows := rsp_rows lhs; rsp_width := rsp_width lhs; rsp_idx := take n (indices_out st); rsp_data := take n (data_out st) |}.
End BinaryOp.

(** ** Correctness of the sums *)

(** In a sorted array the row [x] is at the lower bound of [x]. *)
Lemma lookup_row_bound idx data x : StronglySorted Z.lt idx → length idx = length data →
  lookup_row idx data x = if bool_decide (idx !! lower_bound idx x = Some x) then data !! lower_bound idx x else None.
Proof.
  intros Hs. revert data. induction Hs as [|a idx Hs IH Ha]; intros [|r data] Hl; try done. cbn. rewrite Forall_forall in Ha. destruct (Z.eqb_spec x a) as [->|Hne].
  - rewrite (proj2 (Z.ltb_ge _ _)) by lia. by rewrite bool_decide_eq_true_2.
  - destruct (Z.ltb_spec a x) as [Hlt|Hge]; [cbn; apply IH; by injection Hl|]. cbn. rewrite bool_decide_eq_false_2 by congruence. apply lookup_row_None. intros Hx%Ha. lia.
Qed.

(** The rows [x] of the inputs that have one, in the order of the inputs. *)
Definition stored (ins : list RowSparse) (x : Z) : list (list float) := omap (fun a => lookup_row (rsp_idx a) (rsp_data a) x) ins.

Lemma stored_S ins k a x : ins !! k = Some a →
  stored (take (S k) ins) x = stored (take k ins) x ++ option_list (lookup_row (rsp_idx a) (rsp_data a) x).
Proof. intros Ha. unfold stored. rewrite (take_S_r _ _ _ Ha), omap_app. cbn. by destruct (lookup_row _ _ _). Qed.

(** All indices of the inputs, once. *)
Definition union (ins : list RowSparse) : list Z := std_unique (std_sort (mjoin (rsp_idx <$> ins))).

Lemma union_sorted ins : StronglySorted Z.lt (union ins).
Proof. apply std_unique_sorted, std_sort_sorted. Qed.

Lemma union_elem ins x : x ∈ union ins ↔ ∃ a, a ∈ ins ∧ x ∈ rsp_idx a.
Proof. unfold union. rewrite std_unique_elem, std_sort_elem, list_elem_of_join. setoid_rewrite list_elem_of_fmap. naive_solver. Qed.

Section SumsProof.
Context (d : Z) (num_rows : Z) (width : nat) (ins : list RowSparse).
Hypothesis Hwf : Forall rsp_wf ins.
Local Abbreviation U := (union ins).

Lemma in_wf k a : ins !! k = Some a → rsp_wf a.
Proof. intros Ha. rewrite Forall_lookup in Hwf. by apply (Hwf k). Qed.

Definition sum_rows (init : list float) (vs : list (list float)) : list float := foldl (add_rows d) init vs.
Definition sum_first (init : list float) (vs : list (list float)) : list float := match vs with [] => init | v :: vs => sum_rows v vs end.

Lemma sum_first_snoc init vs v : sum_first init (vs ++ [v]) = if bool_decide (vs = []) then v else add_rows d (sum_first init vs) v.
Proof. destruct vs as [|v' vs]; [done|]. rewrite bool_decide_eq_false_2 by done. cbn. unfold sum_rows. by rewrite foldl_app. Qed.

(** *** Serial *)

(** Where an input stands before output row [i]. *)
Definition offs (i : nat) (a : RowSparse) : nat := match i with O => O | S k => lower_bound (rsp_idx a) (default 0 (U !! k) + 1) end.

Lemma offs_bound i x a : U !! i = Some x → a ∈ ins → offs i a = lower_bound (rsp_idx a) x.
Proof.
  intros Hx Ha. assert (∀ y, y ∈ rsp_idx a → ∃ j, U !! j = Some y) as Hin by (intros y Hy; apply list_elem_of_lookup, union_elem; eauto). destruct i as [|k]; cbn [offs].
  - assert (∀ y, y ∈ rsp_idx a → x ≤ y) as Hy.
    { intros y [j Hj]%Hin. destruct (decide (j = 0%nat)) as [->|]; [simplify_eq; lia|]. pose proof (sorted_lookup_lt _ (union_sorted ins) 0%nat j x y Hx Hj). lia. }
    destruct (rsp_idx a) as [|b l]; [done|]. cbn. specialize (Hy b ltac:(by left)). by rewrite (proj2 (Z.ltb_ge _ _)) by lia.
  - destruct (lookup_lt_is_Some_2 U k) as [y Hy]; [apply lookup_lt_Some in Hx; lia|]. rewrite Hy. cbn. apply lower_bound_ext. intros z [j Hj]%Hin.
    pose proof (sorted_lookup_lt _ (union_sorted ins) k (S k) y x Hy Hx) as H1. pose proof (sorted_lookup_lt _ (union_sorted ins) j (S k) z x Hj Hx) as H2.
    pose proof (sorted_lookup_lt _ (union_sorted ins) k j y z Hy Hj) as H3. lia.
Qed.

Lemma serial_row_spec i x init : U !! i = Some x →
  serial_row d ins x init (offs i <$> ins) = Ok (sum_first init (stored ins x), offs (S i) <$> ins).
Proof.
  intros Hx. unfold serial_row.
  rewrite (for_range_trace (fun j => (bool_decide (stored (take j ins) x = []), sum_first init (stored (take j ins) x), sofar (offs (S i) <$> ins) (offs i <$> ins) j)) 0 (length ins) _ _
    (bool_decide (stored ins x = []), sum_first init (stored ins x), offs (S i) <$> ins)); [done|lia|done| |].
  - rewrite take_ge by lia. by rewrite sofar_all by (by rewrite !length_fmap).
  - intros j Hj. destruct (lookup_lt_is_Some_2 ins j) as [a Ha]; [lia|]. destruct (in_wf j a Ha) as (Hl & Hs & _). rewrite (rd_ok _ _ _ Ha). rstep. apply list_elem_of_lookup_2 in Ha as Hin.
    pose proof (offs_bound i x a Hx Hin) as Hold. assert (offs (S i) a = if bool_decide (rsp_idx a !! lower_bound (rsp_idx a) x = Some x) then S (lower_bound (rsp_idx a) x) else lower_bound (rsp_idx a) x) as Hnew.
    { cbn [offs]. rewrite Hx. cbn. by apply lower_bound_succ. }
    assert ((offs (S i) <$> ins) !! j = Some (offs (S i) a)) as HjS by (by rewrite list_lookup_fmap, Ha). assert (length (offs (S i) <$> ins) = length (offs i <$> ins)) as Hlen by (by rewrite !length_fmap).
    assert (sofar (offs (S i) <$> ins) (offs i <$> ins) j !! j = Some (offs i a)) as Hjo by (rewrite sofar_lookup, list_lookup_fmap, Ha by (rewrite length_fmap; lia); done).
    rewrite (stored_S _ _ _ _ Ha), (lookup_row_bound _ _ x Hs Hl).
    assert (offs (S i) a = offs i a → sofar (offs (S i) <$> ins) (offs i <$> ins) (S j) = sofar (offs (S i) <$> ins) (offs i <$> ins) j) as Hsame.
    { intros E. rewrite <- (sofar_step _ _ _ _ Hlen HjS), E. by apply list_insert_id. }
    destruct (Nat.eqb_spec (length (rsp_idx a)) 0) as [H0|H0].
    { apply nil_length_inv in H0. rewrite Hsame by (rewrite Hold, Hnew, H0; done). rewrite H0, (bool_decide_eq_false_2 ([] !! _ = Some x)) by done. change (option_list None) with (@nil (list float)). by rewrite app_nil_r. }
    rewrite (rd_ok _ _ _ Hjo). rstep. rewrite Hold. destruct (Nat.ltb_spec (lower_bound (rsp_idx a) x) (length (rsp_idx a))) as [Hlt|Hge].
    + destruct (lookup_lt_is_Some_2 _ _ Hlt) as [y Hy]. rewrite (rd_ok _ _ _ Hy). rstep. rewrite Hy in *. destruct (Z.eqb_spec x y) as [<-|Hne].
      * rewrite (bool_decide_eq_true_2 (Some x = Some x)) in Hnew |- * by done. destruct (lookup_lt_is_Some_2 (rsp_data a) (lower_bound (rsp_idx a) x)) as [v Hv]; [lia|]. rewrite (rd_ok _ _ _ Hv), Hv. rstep.
        rewrite wr_ok by (rewrite length_sofar by done; rewrite length_fmap; lia). rstep. change (option_list (Some v)) with [v]. rewrite sum_first_snoc, <- Hnew, (sofar_step _ _ _ _ Hlen HjS).
        rewrite (bool_decide_eq_false_2 (_ ++ _ = [])) by (by intros [_ ?]%app_eq_nil). by destruct (bool_decide _).
      * rewrite (bool_decide_eq_false_2 (Some y = Some x)) in Hnew |- * by congruence. change (option_list None) with (@nil (list float)). rewrite app_nil_r, Hsame; [done|]. by rewrite Hold.
    + rewrite (lookup_ge_None_2 (rsp_idx a)) in Hnew |- * by lia. rewrite (bool_decide_eq_false_2 (None = Some x)) in Hnew |- * by done. change (option_list None) with (@nil (list float)). rewrite app_nil_r, Hsame; [done|]. by rewrite Hold.
Qed.

Lemma serial_spec :
  ReduceSumCPUExSerial d num_rows width ins =
    Ok {| rsp_rows := num_rows; rsp_width := width; rsp_idx := U; rsp_data := (fun x => sum_first (replicate width S754_nan) (stored ins x)) <$> U |}.
Proof.
  unfold ReduceSumCPUExSerial. fold (union ins). set (res := (fun x => sum_first (replicate width S754_nan) (stored ins x)) <$> U).
  assert (length res = length (replicate (length U) (replicate width S754_nan))) as Hlen by (subst res; by rewrite length_fmap, length_replicate).
  rewrite (for_range_trace (fun i => (sofar res (replicate (length U) (replicate width S754_nan)) i, offs i <$> ins)) 0 (length U) _ _ (res, offs (length U) <$> ins)); [done|lia| | |].
  - f_equal. symmetry. apply list_eq. intros k. rewrite list_lookup_fmap. destruct (ins !! k) as [a|] eqn:E.
    + cbn. by rewrite lookup_replicate_2 by (by apply lookup_lt_Some in E).
    + apply lookup_ge_None in E. symmetry. apply lookup_replicate_None. lia.
  - by rewrite sofar_all; [|done|rewrite length_replicate].
  - intros i Hi. destruct (lookup_lt_is_Some_2 U i) as [x Hx]; [lia|]. rewrite (rd_ok _ _ _ Hx). rstep.
    rewrite (rd_ok _ i (replicate width S754_nan)) by (rewrite sofar_lookup by (rewrite Hlen, length_replicate; lia); apply lookup_replicate_2; lia). rstep.
    rewrite (serial_row_spec i x _ Hx). rstep. rewrite wr_ok by (rewrite length_sofar by done; rewrite length_replicate; lia). rstep.
    rewrite (sofar_step _ _ _ _ Hlen); [done|]. subst res. by rewrite list_lookup_fmap, Hx.
Qed.
End SumsProof.

(** *** Parallel *)
Section Parallel.
Context (d : Z) (ins : list RowSparse).
Hypothesis Hwf : Forall rsp_wf ins.
Local Abbreviation U := (union ins).

Definition add_opt (r : list float) (o : option (list float)) : list float := match o with Some v => add_rows d r v | None => r end.
Definition idx_at (i : nat) : Z := default 0 (U !! i).

(** The rows from [s] to [e] with the rows of an input added. *)
Definition added (s e : nat) (a : RowSparse) (rows : list (list float)) : list (list float) :=
  imap (fun i r => if (s <=? i)%nat && (i <? e)%nat then add_opt r (lookup_row (rsp_idx a) (rsp_data a) (idx_at i)) else r) rows.

Lemma added_none s e a rows : (∀ i, (s ≤ i < e)%nat → lookup_row (rsp_idx a) (rsp_data a) (idx_at i) = None) → added s e a rows = rows.
Proof.
  intros H. apply list_eq. intros i. unfold added. rewrite list_lookup_imap. destruct (rows !! i) as [r|]; [|done]. cbn [fmap option_fmap option_map]. f_equal.
  destruct (Nat.leb_spec s i), (Nat.ltb_spec i e); cbn [andb]; try done. by rewrite H by lia.
Qed.

Lemma added_first s e a rows r : rows !! s = Some r → (s < e)%nat →
  added s e a rows = added (S s) e a (<[s := add_opt r (lookup_row (rsp_idx a) (rsp_data a) (idx_at s))]> rows).
Proof.
  intros Hr He. apply list_eq. intros i. unfold added. rewrite !list_lookup_imap. destruct (decide (i = s)) as [->|Hne].
  - rewrite list_lookup_insert_eq by (by apply lookup_lt_Some in Hr). rewrite Hr. cbn [fmap option_fmap option_map]. rewrite Nat.leb_refl, (proj2 (Nat.ltb_lt _ _)), (proj2 (Nat.leb_gt _ _)) by lia. done.
  - rewrite list_lookup_insert_ne by done. destruct (rows !! i); [|done]. cbn [fmap option_fmap option_map]. destruct (Nat.leb_spec s i), (Nat.leb_spec (S s) i); try done; lia.
Qed.

Lemma U_lookup i : (i < length U)%nat → U !! i = Some (idx_at i).
Proof. intros Hi. unfold idx_at. by destruct (lookup_lt_is_Some_2 U i Hi) as [x ->]. Qed.

Lemma U_lt i j : (i < length U)%nat → (j < length U)%nat → (i < j)%nat ↔ idx_at i < idx_at j.
Proof. intros Hi Hj. apply (sorted_lookup_lt _ (union_sorted ins)); by apply U_lookup. Qed.

Section Block.
Context (oi : list Z) (s e : nat).
Hypothesis Hse : (s < e ≤ length U)%nat.
Hypothesis Hoi : ∀ i, (s ≤ i < e)%nat → oi !! i = Some (idx_at i).

Lemma merge_rows_spec a : rsp_wf a → ∀ fuel irow p rows,
  (s ≤ irow ≤ e)%nat → (p ≤ length (rsp_idx a))%nat → (e - irow + (length (rsp_idx a) - p) ≤ fuel)%nat → (e ≤ length rows)%nat →
  (∀ q y, (q < p)%nat → rsp_idx a !! q = Some y → ∀ i, (irow ≤ i < e)%nat → y < idx_at i) →
  merge_rows d fuel a oi e irow p rows = Ok (added irow e a rows).
Proof.
  intros (Hl & Hs & _). induction fuel as [|fuel IH]; intros irow p rows Hi Hp Hf Hr Hlt; cbn [merge_rows].
  all: assert (irow = e ∨ p = length (rsp_idx a) → added irow e a rows = rows) as Hend.
  1, 3: intros [-> | ->]; apply added_none; intros i Hi'; [lia|]; apply lookup_row_None; intros [q Hq]%list_elem_of_lookup; specialize (Hlt q _ ltac:(by apply lookup_lt_Some in Hq) Hq i Hi'); lia.
  - destruct (Nat.ltb_spec irow e), (Nat.ltb_spec p (length (rsp_idx a))); try lia; cbn [andb]; rewrite Hend; try done; lia.
  - destruct (Nat.ltb_spec irow e) as [Hie|Hie]; cbn [andb]; [|rewrite Hend; [done|lia]].
    destruct (Nat.ltb_spec p (length (rsp_idx a))) as [Hpl|Hpl]; [|rewrite Hend; [done|lia]].
    rewrite (rd_ok _ _ _ (Hoi irow ltac:(lia))). rstep. destruct (lookup_lt_is_Some_2 _ _ Hpl) as [y Hy]. rewrite (rd_ok _ _ _ Hy). rstep.
    destruct (lookup_lt_is_Some_2 rows irow) as [cur Hcur]; [lia|]. destruct (lookup_lt_is_Some_2 (rsp_data a) p) as [v Hv]; [lia|].
    destruct (Z.eqb_spec (idx_at irow) y) as [Heq|Hne]; [|destruct (Z.ltb_spec (idx_at irow) y) as [Hoy|Hoy]].
    + rewrite (rd_ok _ _ _ Hcur), (rd_ok _ _ _ Hv). rstep. rewrite wr_ok by lia. rstep. rewrite (added_first irow e a rows cur Hcur Hie).
      rewrite Heq, (lookup_row_Some _ _ p y v (sorted_lt_nodup _ Hs) Hy Hv). cbn [add_opt]. apply IH; [lia|lia|lia|rewrite length_insert; lia|].
      intros q z Hq Hz i Hi'. destruct (decide (q = p)) as [->|]; [|apply (Hlt q); [lia|done|lia]]. simplify_eq. apply U_lt; lia.
    + rewrite (added_first irow e a rows cur Hcur Hie). rewrite (lookup_row_None _ _ (idx_at irow)).
      * cbn [add_opt]. rewrite list_insert_id by done. apply IH; try lia. intros q z Hq Hz i Hi'. apply (Hlt q); [done|done|lia].
      * intros [q Hq]%list_elem_of_lookup. destruct (decide (q < p)%nat) as [Hqp|Hqp]; [specialize (Hlt q _ Hqp Hq irow ltac:(lia)); lia|].
        destruct (decide (q = p)) as [->|]; [simplify_eq; lia|]. pose proof (sorted_lookup_lt _ Hs p q _ _ Hy Hq). lia.
    + apply IH; try lia. intros q z Hq Hz i Hi'. destruct (decide (q = p)) as [->|]; [|apply (Hlt q); [lia|done|lia]]. simplify_eq.
      destruct (decide (i = irow)) as [->|]; [lia|]. pose proof (U_lt irow i ltac:(lia) ltac:(lia)). lia.
Qed.

Lemma sum_input_spec a rows : rsp_wf a → (e ≤ length rows)%nat → sum_input d oi s e rows a = Ok (added s e a rows).
Proof.
  intros Ha Hr. pose proof Ha as (Hl & Hs & _). unfold sum_input. destruct (Nat.eqb_spec (length (rsp_idx a)) 0) as [H0|H0].
  { apply nil_length_inv in H0. rewrite added_none; [done|]. intros i _. by rewrite H0. }
  rewrite (rd_ok _ _ _ (Hoi s ltac:(lia))), (rd_ok _ _ _ (Hoi (e - 1)%nat ltac:(lia))). rstep. set (p := lower_bound (rsp_idx a) (idx_at s)).
  assert (∀ q y, (q < p)%nat → rsp_idx a !! q = Some y → ∀ i, (s ≤ i < e)%nat → y < idx_at i) as Hbefore.
  { intros q y Hq Hy i Hi. pose proof (lower_bound_before _ _ q y Hq Hy). destruct (decide (i = s)) as [->|]; [done|]. pose proof (U_lt s i ltac:(lia) ltac:(lia)). lia. }
  destruct (Nat.eqb_spec p (length (rsp_idx a))) as [Hp|Hp]; rstep.
  - rewrite added_none; [done|]. intros i Hi. apply lookup_row_None. intros [q Hq]%list_elem_of_lookup.
    specialize (Hbefore q _ ltac:(rewrite Hp; by apply lookup_lt_Some in Hq) Hq i Hi). lia.
  - pose proof (lower_bound_le (idx_at s) (rsp_idx a)) as Hle. fold p in Hle. destruct (lookup_lt_is_Some_2 (rsp_idx a) p) as [y Hy]; [lia|]. rewrite (rd_ok _ _ _ Hy). rstep.
    destruct (Z.ltb_spec (idx_at (e - 1)) y) as [Hlast|Hlast].
    + rewrite added_none; [done|]. intros i Hi. apply lookup_row_None. intros [q Hq]%list_elem_of_lookup. destruct (decide (q < p)%nat) as [Hqp|Hqp].
      * specialize (Hbefore q _ Hqp Hq i Hi). lia.
      * assert (y ≤ idx_at i) as Hyi by (destruct (decide (q = p)) as [->|]; [simplify_eq; lia|pose proof (sorted_lookup_lt _ Hs p q _ _ Hy Hq); lia]).
        destruct (decide (i = e - 1)%nat) as [->|]; [lia|]. pose proof (U_lt i (e - 1) ltac:(lia) ltac:(lia)). lia.
    + apply merge_rows_spec; [done|lia|done|lia|done|done].
Qed.

(** All inputs for one block. *)
Definition summed (s e : nat) (nds : list RowSparse) (rows : list (list float)) : list (list float) :=
  imap (fun i r => if (s <=? i)%nat && (i <? e)%nat then sum_rows d r (stored nds (idx_at i)) else r) rows.

Lemma sum_inputs_spec rows : (e ≤ length rows)%nat → foldM (sum_input d oi s e) rows ins = Ok (summed s e ins rows).
Proof.
  intros Hr. pose proof (foldM_trace (fun k => summed s e (take k ins) rows) (sum_input d oi s e) ins) as H. cbn beta in H.
  replace (summed s e (take 0 ins) rows) with rows in H; [rewrite H|].
  - by rewrite take_ge by lia.
  - intros k a Ha. rewrite sum_input_spec; [|by rewrite Forall_lookup in Hwf; apply (Hwf k)|unfold summed; rewrite length_imap; lia]. f_equal.
    apply list_eq. intros i. unfold added, summed. rewrite !list_lookup_imap. destruct (rows !! i) as [r|]; [|done]. cbn [fmap option_fmap option_map]. f_equal. destruct (_ && _); [|done].
    rewrite (stored_S _ _ _ _ Ha). unfold sum_rows. rewrite foldl_app. by destruct (lookup_row _ _ _).
  - apply list_eq. intros i. unfold summed. rewrite list_lookup_imap. destruct (rows !! i); [|done]. cbn [fmap option_fmap option_map]. by destruct (_ && _).
Qed.
End Block.

(** The output when the threads have done the rows [dn]. *)
Section Threads.
Context (width num_threads : nat).
Hypothesis Hthreads : (0 < num_threads)%nat.
Local Abbreviation nnr := (length U).
Local Abbreviation len := ((nnr + num_threads - 1) / num_threads)%nat.

Definition outputs (dn : nat → bool) : list Z * list (list float) :=
  (imap (fun i x => if dn i then idx_at i else x) (replicate nnr 0),
   imap (fun i r => if dn i then sum_rows d r (stored ins (idx_at i)) else r) (zeros nnr width)).

Lemma outputs_ext dn dn' : (∀ i, (i < nnr)%nat → dn i = dn' i) → outputs dn = outputs dn'.
Proof.
  intros H. unfold outputs. f_equal; apply list_eq; intros i; rewrite !list_lookup_imap.
  - destruct (replicate nnr 0 !! i) eqn:E; [|done]. apply lookup_replicate in E as [_ Hi]. by rewrite (H i Hi).
  - unfold zeros. destruct (replicate nnr (replicate width f32_zero) !! i) eqn:E; [|done]. apply lookup_replicate in E as [_ Hi]. by rewrite (H i Hi).
Qed.

Lemma len_covers : (nnr ≤ num_threads * len)%nat.
Proof. pose proof (Nat.div_mod_eq (nnr + num_threads - 1) num_threads). pose proof (Nat.mod_upper_bound (nnr + num_threads - 1) num_threads). lia. Qed.

Lemma block_of t i : (i < nnr)%nat → (i / len)%nat = t ↔ (t * len ≤ i < Nat.min (t * len + len) nnr)%nat.
Proof.
  intros Hi. pose proof len_covers as Hc. assert (0 < len)%nat as Hl by (destruct len; lia).
  pose proof (Nat.div_mod_eq i len) as Hd. pose proof (Nat.mod_upper_bound i len ltac:(lia)) as Hm. split; [intros <-; nia|]. intros H.
  symmetry. apply (Nat.div_unique i len t (i - t * len)); lia.
Qed.

Lemma sum_block_spec dn t : (∀ i, (i < nnr)%nat → (i / len)%nat = t → dn i = false) →
  sum_block d ins U num_threads (outputs dn) t = Ok (outputs (fun i => dn i || (i / len =? t)%nat)).
Proof.
  intros Hdn. unfold sum_block. set (s := (t * len)%nat). set (e := Nat.min (s + len) nnr).
  assert (∀ i, (i < nnr)%nat → (i / len =? t)%nat = (s <=? i)%nat && (i <? e)%nat) as Hb.
  { intros i Hi. pose proof (block_of t i Hi) as H. subst e s. destruct (Nat.eqb_spec (i / len) t), (Nat.leb_spec (t * len) i), (Nat.ltb_spec i (Nat.min (t * len + len) nnr)); try done; lia. }
  destruct (Nat.ltb_spec s nnr) as [Hs|Hs].
  2: { f_equal. apply outputs_ext. intros i Hi. rewrite (Hb i Hi), (proj2 (Nat.leb_gt _ _)) by lia. by rewrite orb_false_r. }
  assert (s < e ≤ nnr)%nat as Hse by (pose proof len_covers; assert (0 < len)%nat by (destruct len; lia); lia).
  pose (oi := (outputs (fun i => dn i || (i / len =? t)%nat)).1).
  rewrite (for_range_trace (fun k => imap (fun i x => if dn i || ((s <=? i)%nat && (i <? k)%nat) then idx_at i else x) (replicate nnr 0)) s e _ _ oi); [rstep| lia| | |].
  - rewrite sum_inputs_spec; [|done| |cbn; unfold zeros; rewrite length_imap, length_replicate; lia].
    + rstep. subst oi. unfold outputs. cbn [fst snd]. do 2 f_equal. apply list_eq. intros i. unfold summed. rewrite !list_lookup_imap. unfold zeros.
      destruct (replicate nnr (replicate width f32_zero) !! i) as [r|] eqn:E; [|done]. apply lookup_replicate in E as [_ Hi]. cbn [fmap option_fmap option_map]. f_equal.
      rewrite (Hb i Hi). specialize (Hdn i Hi). rewrite <- (Nat.eqb_eq (i / len) t), (Hb i Hi) in Hdn. destruct (_ && _); [by rewrite Hdn|by rewrite orb_false_r].
    + intros i Hi. subst oi. cbn [outputs fst]. rewrite list_lookup_imap, lookup_replicate_2 by lia. cbn [fmap option_fmap option_map]. rewrite (Hb i ltac:(lia)).
      by rewrite (proj2 (Nat.leb_le _ _)), (proj2 (Nat.ltb_lt _ _)), orb_true_r by lia.
  - cbn [outputs fst]. apply list_eq. intros i. rewrite !list_lookup_imap. destruct (replicate nnr 0 !! i); [|done]. cbn [fmap option_fmap option_map].
    destruct (Nat.leb_spec s i), (Nat.ltb_spec i s); cbn [andb]; rewrite ?orb_false_r; done || lia.
  - subst oi. cbn [outputs fst]. apply list_eq. intros i. rewrite !list_lookup_imap. destruct (replicate nnr 0 !! i) eqn:E; [|done]. apply lookup_replicate in E as [_ Hi]. by rewrite (Hb i Hi).
  - intros k Hk. rewrite (rd_ok _ _ _ (U_lookup k ltac:(lia))). rstep. rewrite wr_ok by (rewrite length_imap, length_replicate; lia). f_equal. apply list_eq. intros i. destruct (decide (i = k)) as [->|Hne].
    + rewrite list_lookup_insert_eq by (rewrite length_imap, length_replicate; lia). rewrite list_lookup_imap, lookup_replicate_2 by lia. cbn [fmap option_fmap option_map].
      by rewrite (proj2 (Nat.leb_le _ _)), (proj2 (Nat.ltb_lt _ _)), orb_true_r by lia.
    + rewrite list_lookup_insert_ne by done. rewrite !list_lookup_imap. destruct (replicate nnr 0 !! i); [|done]. cbn [fmap option_fmap option_map].
      destruct (Nat.ltb_spec i k), (Nat.ltb_spec i (S k)); done || lia.
Qed.

Lemma threads_spec order : order ≡ₚ seq 0 num_threads →
  ElementwiseSumRspImpl d ins U num_threads order (replicate nnr 0, zeros nnr width) =
    Ok (U, (fun x => sum_rows d (replicate width f32_zero) (stored ins x)) <$> U).
Proof.
  intros Hord. unfold ElementwiseSumRspImpl.
  assert (∀ todo done, NoDup (done ++ todo) → foldM (sum_block d ins U num_threads) (outputs (fun i => bool_decide ((i / len)%nat ∈ done))) todo =
    Ok (outputs (fun i => bool_decide ((i / len)%nat ∈ done ++ todo)))) as H.
  { induction todo as [|t todo IH]; intros done Hnd; cbn [foldM]; [by rewrite app_nil_r|]. rewrite sum_block_spec.
    - rstep. specialize (IH (done ++ [t])). rewrite <- (assoc_L (++)) in IH. cbn [List.app] in IH. specialize (IH Hnd). rewrite <- IH. f_equal. apply outputs_ext. intros i _.
      destruct (Nat.eqb_spec (i / len) t) as [->|Hne].
      + rewrite orb_true_r. symmetry. apply bool_decide_eq_true_2, elem_of_app. right. by left.
      + rewrite orb_false_r. apply bool_decide_ext. rewrite elem_of_app, list_elem_of_singleton. tauto.
    - intros i Hi ->. apply bool_decide_eq_false_2. intros Hin. apply NoDup_app in Hnd as (_ & Hnd & _). apply (Hnd _ Hin). by left. }
  specialize (H order [] ltac:(cbn; rewrite Hord; apply NoDup_seq)). cbn [List.app] in H.
  assert (∀ dn, (∀ i, (i < nnr)%nat → dn i = false) → outputs dn = (replicate nnr 0, zeros nnr width)) as Hno.
  { intros dn Hf. unfold outputs. f_equal; apply list_eq; intros i; rewrite list_lookup_imap; unfold zeros.
    - destruct (replicate nnr 0 !! i) eqn:E; [|done]. apply lookup_replicate in E as [-> Hi]. cbn. by rewrite Hf by done.
    - destruct (replicate nnr (replicate width f32_zero) !! i) eqn:E; [|done]. apply lookup_replicate in E as [-> Hi]. cbn [fmap option_fmap option_map]. by rewrite Hf by done. }
  rewrite Hno in H by (intros i _; by apply bool_decide_eq_false_2, not_elem_of_nil). rewrite H. f_equal.
  assert (∀ i, (i < nnr)%nat → bool_decide ((i / len)%nat ∈ order) = true) as Hall.
  { intros i Hi. apply bool_decide_eq_true_2. rewrite Hord, elem_of_seq. pose proof len_covers. split; [lia|]. cbn. apply Nat.div_lt_upper_bound; [destruct len; lia|lia]. }
  unfold outputs. f_equal; apply list_eq; intros i; rewrite list_lookup_imap; unfold zeros.
  - destruct (decide (i < nnr)%nat) as [Hi|Hi].
    + rewrite lookup_replicate_2 by done. cbn [fmap option_fmap option_map]. rewrite Hall by done. by rewrite U_lookup.
    + rewrite (lookup_ge_None_2 U) by lia. by rewrite (lookup_ge_None_2 (replicate _ _)) by (rewrite length_replicate; lia).
  - rewrite list_lookup_fmap. destruct (decide (i < nnr)%nat) as [Hi|Hi].
    + rewrite lookup_replicate_2, U_lookup by done. cbn [fmap option_fmap option_map]. by rewrite Hall by done.
    + rewrite (lookup_ge_None_2 U) by lia. by rewrite (lookup_ge_None_2 (replicate _ _)) by (rewrite length_replicate; lia).
Qed.
End Threads.

Lemma parallel_spec num_threads order out : (0 < num_threads)%nat → order ≡ₚ seq 0 num_threads → ins ≠ [] →
  ElementwiseSumRsp d num_threads order ins out =
    Ok {| rsp_rows := rsp_rows out; rsp_width := rsp_width out; rsp_idx := U;
          rsp_data := (fun x => sum_rows d (replicate (rsp_width out) f32_zero) (stored ins x)) <$> U |}.
Proof.
  intros Ht Hord Hne. unfold ElementwiseSumRsp, GetUniqueRspRowIdx. rewrite bool_decide_eq_false_2 by done. rewrite ParallelSort_sorts by lia. rstep. fold (union ins).
  by rewrite (threads_spec (rsp_width out) num_threads Ht order Hord).
Qed.
End Parallel.

Lemma lookup_row_fmap (f : Z → list float) (idx : list Z) x : x ∈ idx → lookup_row idx (f <$> idx) x = Some (f x).
Proof.
  induction idx as [|i idx IH]; intros Hx; [by apply not_elem_of_nil in Hx|]. cbn. destruct (Z.eqb_spec x i) as [->|]; [done|].
  apply elem_of_cons in Hx as [?|Hx]; [done|by apply IH].
Qed.

Lemma stored_nonempty ins x : Forall rsp_wf ins → x ∈ union ins → stored ins x ≠ [].
Proof.
  intros Hwf Hx. apply union_elem in Hx as (a & Ha & Hx). rewrite Forall_forall in Hwf. destruct (Hwf a Ha) as (Hl & _). destruct (lookup_row_is_Some (rsp_idx a) (rsp_data a) x Hl Hx) as [v Hv].
  assert (v ∈ stored ins x) as Hin by (apply list_elem_of_omap; by exists a). intros E. rewrite E in Hin. by apply not_elem_of_nil in Hin.
Qed.

Lemma add_zeros d width v : length v = width → Forall (fun e => dadd d f32_zero e = e) v → add_rows d (replicate width f32_zero) v = v.
Proof. intros <- H. unfold add_rows. induction H as [|e v He _ IH]; [done|]. cbn. by rewrite He, IH. Qed.

(** C21: the serial and the parallel sum of row-sparse arrays agree.  For well-formed inputs
    both succeed, for every number of threads and every order in which they finish, with
    well-formed results whose rows are the rows of any input.  The serial sum adds up the
    rows of the inputs from left to right, the parallel sum does the same starting from
    zero; when adding to zero changes no element of the inputs, the results are equal. *)
Theorem sparse_sum_equivalent (d : Z) (out : RowSparse) (ins : list RowSparse) (num_threads : nat) (order : list nat) :
  Forall rsp_wf ins → ins ≠ [] → (0 < num_threads)%nat → order ≡ₚ seq 0 num_threads →
  Forall (fun a => rsp_rows a = rsp_rows out ∧ Forall (fun v => length v = rsp_width out) (rsp_data a)) ins →
  ∃ s p, ReduceSumCPUExSerial d (rsp_rows out) (rsp_width out) ins = Ok s ∧ ElementwiseSumRsp d num_threads order ins out = Ok p ∧
    rsp_wf s ∧ rsp_wf p ∧
    (∀ x, x ∈ rsp_idx s ↔ ∃ a, a ∈ ins ∧ x ∈ rsp_idx a) ∧ rsp_idx p = rsp_idx s ∧
    (∀ x v vs, x ∈ rsp_idx s → stored ins x = v :: vs →
       lookup_row (rsp_idx s) (rsp_data s) x = Some (foldl (add_rows d) v vs) ∧
       lookup_row (rsp_idx p) (rsp_data p) x = Some (foldl (add_rows d) (add_rows d (replicate (rsp_width out) f32_zero) v) vs)) ∧
    (Forall (fun a => Forall (Forall (fun e => dadd d f32_zero e = e)) (rsp_data a)) ins → p = s).
Proof.
  intros Hwf Hne Ht Hord Hsh. eexists _, _. split; [by apply serial_spec|]. split; [by apply parallel_spec|]. cbn [rsp_idx rsp_data].
  assert (∀ x, x ∈ union ins → 0 ≤ x < rsp_rows out) as Hr.
  { intros x (a & Ha & Hx)%union_elem. rewrite Forall_forall in Hsh, Hwf. destruct (Hsh a Ha) as [<- _]. destruct (Hwf a Ha) as (_ & _ & H). by apply H. }
  assert (∀ x, x ∈ union ins → ∃ v vs, stored ins x = v :: vs ∧ length v = rsp_width out ∧ ∃ a, a ∈ ins ∧ v ∈ rsp_data a) as Hst.
  { intros x Hx. pose proof (stored_nonempty ins x Hwf Hx) as Hs. destruct (stored ins x) as [|v vs] eqn:E; [done|]. exists v, vs. split; [done|].
    assert (v ∈ stored ins x) as (a & Ha & Hv)%list_elem_of_omap by (rewrite E; by left). apply lookup_row_inv in Hv as (q & _ & Hq%list_elem_of_lookup_2).
    rewrite Forall_forall in Hsh. destruct (Hsh a Ha) as [_ Hw]. rewrite Forall_forall in Hw. split; [by apply Hw|by exists a]. }
  split; [|split]; [split; [by cbn; rewrite length_fmap|split; [apply union_sorted|done]]..|]. split; [intros x; apply union_elem|]. split; [done|]. split.
  - intros x v vs Hx E. rewrite !lookup_row_fmap by done. rewrite E. done.
  - intros Hz. f_equal. apply list_fmap_ext. intros i x Hx%list_elem_of_lookup_2. destruct (Hst x Hx) as (v & vs & -> & Hl & a & Ha & Hv). cbn. unfold sum_rows. f_equal. apply add_zeros; [done|].
    rewrite Forall_forall in Hz. specialize (Hz a Ha). rewrite Forall_forall in Hz. by apply Hz.
Qed.

Definition w_other : RowSparse := {| rsp_rows := 5; rsp_width := 2; rsp_idx := [0; 4]; rsp_data := [[w_one; w_one]; [w_one; f32_zero]] |}.

Lemma sparse_sum_equivalent_witness :
  ∃ s p, ReduceSumCPUExSerial kFloat32 5 2 [w_rsp; w_other] = Ok s ∧ ElementwiseSumRsp kFloat32 3 [2; 0; 1]%nat [w_rsp; w_other] w_rsp = Ok p ∧ p = s.
Proof.
  destruct (sparse_sum_equivalent kFloat32 w_rsp [w_rsp; w_other] 3 [2; 0; 1]%nat) as (s & p & H1 & H2 & _ & _ & _ & _ & _ & H).
  - constructor; [apply w_rsp_wf|constructor; [|constructor]]. split; [done|]. split; [repeat constructor|]. intros x Hx. change (x ∈ [0; 4]) in Hx. rewrite !elem_of_cons, elem_of_nil in Hx. cbn. lia.
  - done.
  - lia.
  - by_decision.
  - repeat constructor.
  - exists s, p. split; [exact H1|]. split; [exact H2|]. apply H. repeat constructor.
Defined.

(** ** Correctness of picking rows *)
Lemma bsearch_spec (l : list Z) x : StronglySorted Z.lt l → ∀ fuel left right,
  0 ≤ left → right < Z.of_nat (length l) → left ≤ right + 1 → right + 1 - left < Z.of_nat fuel →
  (∀ i y, l !! i = Some y → Z.of_nat i < left → y < x) → (∀ i y, l !! i = Some y → right < Z.of_nat i → x < y) →
  (∃ m, bsearch fuel l x left right = Ok (Z.of_nat m) ∧ l !! m = Some x) ∨ (bsearch fuel l x left right = Ok (-1) ∧ x ∉ l).
Proof.
  intros Hs. induction fuel as [|fuel IH]; intros left right H0 Hr Hlr Hf Hlo Hhi; [lia|]. cbn [bsearch]. destruct (Z.leb_spec left right) as [Hle|Hgt].
  - set (m := left + (right - left) / 2). assert (left ≤ m ≤ right) as Hm by (subst m; divlia). destruct (lookup_lt_is_Some_2 l (Z.to_nat m)) as [y Hy]; [lia|].
    rewrite (rdz_ok l m y) by (done || lia). rstep. destruct (Z.eqb_spec y x) as [->|Hne]; [left; exists (Z.to_nat m); split; [f_equal; lia|done]|]. destruct (Z.ltb_spec y x) as [Hyx|Hyx].
    + apply IH; try lia; [|done]. intros i z Hz Hi. destruct (decide (i = Z.to_nat m)) as [->|]; [simplify_eq; lia|]. pose proof (sorted_lookup_lt l Hs i (Z.to_nat m) z y Hz Hy). lia.
    + apply IH; try lia; [done|]. intros i z Hz Hi. destruct (decide (i = Z.to_nat m)) as [->|]; [simplify_eq; lia|]. pose proof (sorted_lookup_lt l Hs (Z.to_nat m) i y z Hy Hz). lia.
  - right. split; [done|]. intros [i Hi]%list_elem_of_lookup. destruct (Z.lt_ge_cases (Z.of_nat i) left) as [H|H]; [specialize (Hlo i x Hi H); lia|specialize (Hhi i x Hi ltac:(lia)); lia].
Qed.

(** Strictly increasing integers are at least as far apart as their positions. *)
Lemma sorted_gap (l : list Z) : StronglySorted Z.lt l → ∀ i j x y, (i ≤ j)%nat → l !! i = Some x → l !! j = Some y → Z.of_nat (j - i) ≤ y - x.
Proof.
  intros Hs i j. induction j as [|j IH]; intros x y Hij Hx Hy.
  - assert (i = 0%nat) as -> by lia. simplify_eq. lia.
  - destruct (decide (i = S j)) as [->|]; [simplify_eq; lia|]. destruct (lookup_lt_is_Some_2 l j) as [z Hz]; [apply lookup_lt_Some in Hy; lia|].
    specialize (IH x z ltac:(lia) Hx Hz). pose proof (proj1 (sorted_lookup_lt l Hs j (S j) z y Hz Hy)). lia.
Qed.

(** An array that stores as many rows as it has stores row [x] at position [x]. *)
Lemma full_row a x : rsp_wf a → Z.of_nat (length (rsp_idx a)) = rsp_rows a → 0 ≤ x < rsp_rows a → rdz (rsp_data a) x = Ok (row a x).
Proof.
  intros (Hl & Hs & Hr) Hn Hx. destruct (lookup_lt_is_Some_2 (rsp_idx a) (Z.to_nat x)) as [y Hy]; [lia|]. destruct (lookup_lt_is_Some_2 (rsp_data a) (Z.to_nat x)) as [r Hd]; [lia|].
  destruct (lookup_lt_is_Some_2 (rsp_idx a) 0) as [f Hf]; [lia|]. destruct (lookup_lt_is_Some_2 (rsp_idx a) (length (rsp_idx a) - 1)) as [e He]; [lia|].
  pose proof (sorted_gap _ Hs 0 (Z.to_nat x) f y ltac:(lia) Hf Hy). pose proof (sorted_gap _ Hs (Z.to_nat x) (length (rsp_idx a) - 1) y e ltac:(lia) Hy He).
  pose proof (Hr f ltac:(by apply list_elem_of_lookup_2 in Hf)). pose proof (Hr e ltac:(by apply list_elem_of_lookup_2 in He)). assert (y = x) as -> by lia.
  rewrite (rdz_ok (rsp_data a) x r) by (done || lia). f_equal. unfold row. by rewrite (lookup_row_Some _ _ _ _ _ (sorted_lt_nodup _ Hs) Hy Hd).
Qed.

(** Picking rows of a well-formed array for a sorted list of row numbers succeeds, gives
    a well-formed array, and each wanted row, whether stored or not, has its value; no
    other row is set. *)
Lemma retain_ok (a : RowSparse) (idx : list Z) :
  rsp_wf a → StronglySorted Z.lt idx → (∀ x, x ∈ idx → 0 ≤ x < rsp_rows a) →
  ∃ b, SparseRetainOpForwardRspImpl a idx = Ok b ∧ rsp_wf b ∧
    ∀ x, row b x = if bool_decide (x ∈ idx) then row a x else replicate (rsp_width a) f32_zero.
Proof.
  intros Ha Hi Hr. pose proof Ha as (Hl & Hs & Hra). unfold SparseRetainOpForwardRspImpl.
  assert (∀ v, v = row a <$> idx → rsp_wf {| rsp_rows := rsp_rows a; rsp_width := rsp_width a; rsp_idx := idx; rsp_data := v |} ∧
    ∀ x, row {| rsp_rows := rsp_rows a; rsp_width := rsp_width a; rsp_idx := idx; rsp_data := v |} x = if bool_decide (x ∈ idx) then row a x else replicate (rsp_width a) f32_zero) as Hres.
  { intros v ->. split; [split; [by cbn; rewrite length_fmap|done]|]. intros x. unfold row at 1. cbn [rsp_idx rsp_data rsp_width].
    destruct (bool_decide_reflect (x ∈ idx)) as [Hx|Hx]; [by rewrite lookup_row_fmap|by rewrite lookup_row_None]. }
  destruct (Nat.eqb_spec (length (rsp_idx a)) 0) as [H0|H0]; [|destruct (Nat.eqb_spec (length idx) 0) as [H1|H1]; [|destruct (Z.eqb_spec (rsp_rows a) 0) as [H2|H2]]]; cbn [orb].
  1-3: eexists; split; [done|]; split; [split; [done|split; [constructor|by intros x ?%not_elem_of_nil]]|]; intros x; unfold row at 1; cbn [rsp_idx rsp_data rsp_width lookup_row default].
  - apply nil_length_inv in H0. unfold row. rewrite H0. cbn. by destruct (bool_decide _).
  - apply nil_length_inv in H1. rewrite H1, bool_decide_eq_false_2; [done|apply not_elem_of_nil].
  - rewrite bool_decide_eq_false_2; [done|]. intros Hx%Hr. lia.
  - assert (length (row a <$> idx) = length (zeros (length idx) (rsp_width a))) as Hlen by (unfold zeros; by rewrite length_fmap, length_replicate).
    assert (length (zeros (length idx) (rsp_width a)) = length idx) as Hlz by (unfold zeros; by rewrite length_replicate).
    assert (∀ i x, idx !! i = Some x → (row a <$> idx) !! i = Some (row a x)) as Hat by (intros i x Hx; by rewrite list_lookup_fmap, Hx).
    destruct (Z.eqb_spec (Z.of_nat (length (rsp_idx a))) (rsp_rows a)) as [Hn|Hn].
    + rewrite (for_range_trace (sofar (row a <$> idx) (zeros (length idx) (rsp_width a))) 0 (length idx) _ _ (row a <$> idx)); [rstep; eexists; split; [done|by apply Hres]|lia|done|by rewrite sofar_all by lia|].
      intros i Hii. destruct (lookup_lt_is_Some_2 idx i) as [x Hx]; [lia|]. rewrite (rd_ok _ _ _ Hx). rstep. rewrite full_row by (done || (apply Hr; by apply list_elem_of_lookup_2 in Hx)). rstep.
      rewrite wr_ok by (rewrite length_sofar by done; lia). by rewrite (sofar_step _ _ _ _ Hlen (Hat i x Hx)).
    + rewrite (for_range_trace (fun i => (sofar idx (replicate (length idx) 0) i, sofar (row a <$> idx) (zeros (length idx) (rsp_width a)) i)) 0 (length idx) _ _ (idx, row a <$> idx));
        [rstep; eexists; split; [done|by apply Hres]|lia|done|by rewrite !sofar_all by (rewrite ?length_replicate; lia)|].
      intros i Hii. destruct (lookup_lt_is_Some_2 idx i) as [x Hx]; [lia|]. unfold SparseRetainRspThreadKernel. rewrite (rd_ok _ _ _ Hx). rstep.
      assert (length idx = length (replicate (length idx) 0)) as Hli by (by rewrite length_replicate).
      destruct (bsearch_spec (rsp_idx a) x Hs (S (length (rsp_idx a))) 0 (Z.of_nat (length (rsp_data a)) - 1)) as [(m & -> & Hm)|[-> Hno]]; try lia.
      { intros j y Hj. apply lookup_lt_Some in Hj. lia. }
      * rstep. rewrite wr_ok by (rewrite length_sofar by done; lia). rstep. rewrite (sofar_step _ _ _ _ Hli Hx). rewrite (proj2 (Z.leb_le _ _)) by lia. destruct (lookup_lt_is_Some_2 (rsp_data a) m) as [v Hv]; [apply lookup_lt_Some in Hm; lia|].
        rewrite (rdz_ok _ _ v) by (lia || by rewrite Nat2Z.id). rstep. rewrite wr_ok by (rewrite length_sofar by done; lia). rstep.
        assert (row a x = v) as Hrow by (unfold row; by rewrite (lookup_row_Some _ _ _ _ _ (sorted_lt_nodup _ Hs) Hm Hv)). by rewrite (sofar_step _ _ _ v Hlen) by (by rewrite (Hat i x Hx), Hrow).
      * rstep. rewrite wr_ok by (rewrite length_sofar by done; lia). rstep. rewrite (sofar_step _ _ _ _ Hli Hx). cbn [Z.leb]. change (0 <=? -1) with false. cbn iota. do 2 f_equal.
        rewrite <- (sofar_step _ _ _ _ Hlen (Hat i x Hx)). symmetry. apply list_insert_id. rewrite sofar_lookup by (rewrite length_fmap; lia). unfold row. rewrite lookup_row_None by done. unfold zeros. cbn.
        apply lookup_replicate_2. lia.
Qed.

Lemma retain_shape a idx b : SparseRetainOpForwardRspImpl a idx = Ok b → rsp_rows b = rsp_rows a ∧ rsp_width b = rsp_width a.
Proof.
  unfold SparseRetainOpForwardRspImpl. destruct (_ || _); [by intros [= <-]|]. destruct (_ =? _); intros H; rinv H; by injection H as <-.
Qed.

(** ** Correctness of binary operations *)
Section BinaryProof.
Context (op : float → float → float) (scatter : bool) (lhs rhs : RowSparse) (size : nat).
Hypothesis Hlw : rsp_wf lhs.
Hypothesis Hrw : rsp_wf rhs.
Hypothesis Hsize : size = if scatter then length (rsp_idx lhs) else (length (rsp_idx lhs) + length (rsp_idx rhs))%nat.
Local Abbreviation L := (rsp_idx lhs).
Local Abbreviation R := (rsp_idx rhs).

(** The value of a row of the result. *)
Definition combined (x : Z) : list float :=
  match lookup_row L (rsp_data lhs) x, lookup_row R (rsp_data rhs) x with
  | Some a, Some b => zip_with op a b
  | Some a, None => MissingRValueOp op a
  | None, Some b => MissingLValueOp op b
  | None, None => []
  end.

(** [W] are the rows written so far. *)
Record minv (st : merge_state) (W : list Z) : Prop := {
  mi_l : (iter_l st ≤ length L)%nat;
  mi_r : (iter_r st ≤ length R)%nat;
  mi_out : iter_out st = length W;
  mi_count : if scatter then length W = iter_l st else (length W + num_common_rows st = iter_l st + iter_r st)%nat;
  mi_idx : length (indices_out st) = size ∧ take (length W) (indices_out st) = W;
  mi_data : length (data_out st) = size ∧ take (length W) (data_out st) = combined <$> W;
  mi_sorted : StronglySorted Z.lt W;
  mi_elem : ∀ x, x ∈ W ↔ x ∈ take (iter_l st) L ∨ (scatter = false ∧ x ∈ take (iter_r st) R);
  mi_lr : ∀ q i x y, (q < iter_r st)%nat → (iter_l st ≤ i)%nat → R !! q = Some x → L !! i = Some y → x < y;
  mi_rl : ∀ q i x y, (q < iter_l st)%nat → (iter_r st ≤ i)%nat → L !! q = Some x → R !! i = Some y → x < y
}.

Lemma elem_take {A} (l : list A) n x : x ∈ take n l ↔ ∃ i, (i < n)%nat ∧ l !! i = Some x.
Proof.
  rewrite list_elem_of_lookup. setoid_rewrite lookup_take_Some. naive_solver.
Qed.

(** The next row is not less than anything written, and there is room for it. *)
Lemma emit_ok st W x dl dr common : minv st W →
  (∀ y, y ∈ W → y < x) → (iter_l st + dl ≤ length L)%nat → (iter_r st + dr ≤ length R)%nat → (dl + dr = 1 + common)%nat → (scatter = true → dl = 1%nat) →
  (∀ y, (y ∈ take (iter_l st) L ∨ (scatter = false ∧ y ∈ take (iter_r st) R)) ∨ y = x ↔ y ∈ take (iter_l st + dl) L ∨ (scatter = false ∧ y ∈ take (iter_r st + dr) R)) →
  (∀ q i u v, (q < iter_r st + dr)%nat → (iter_l st + dl ≤ i)%nat → R !! q = Some u → L !! i = Some v → u < v) →
  (∀ q i u v, (q < iter_l st + dl)%nat → (iter_r st + dr ≤ i)%nat → L !! q = Some u → R !! i = Some v → u < v) →
  ∃ st', emit x (combined x) dl dr common st = Ok st' ∧ minv st' (W ++ [x]) ∧ iter_l st' = (iter_l st + dl)%nat ∧ iter_r st' = (iter_r st + dr)%nat.
Proof.
  intros [H1 H2 H3 H4 [H5 H5'] [H6 H6'] H7 H8 H9 H10] Hlt Hl Hr Hc Hsc Hel Hlr Hrl.
  assert (length W < size)%nat as Hroom by (rewrite Hsize; destruct scatter; [specialize (Hsc eq_refl); lia|lia]).
  unfold emit. rewrite H3, !wr_ok by lia. rstep. eexists. split; [done|]. split; [|done]. split; cbn [iter_l iter_r iter_out num_common_rows indices_out data_out].
  - done.
  - done.
  - rewrite length_app. cbn. lia.
  - rewrite length_app. cbn. destruct scatter; [specialize (Hsc eq_refl); lia|lia].
  - rewrite length_insert, length_app. cbn. rewrite Nat.add_1_r, take_insert_next by lia. by rewrite H5'.
  - rewrite length_insert, length_app. cbn. rewrite Nat.add_1_r, take_insert_next, fmap_app by lia. by rewrite H6'.
  - apply StronglySorted_app. split; [|split; [done|repeat constructor]]. intros y z Hy ->%list_elem_of_singleton. by apply Hlt.
  - intros y. rewrite elem_of_app, H8, list_elem_of_singleton. apply Hel.
  - done.
  - done.
Qed.

Lemma take_S_elem {A} (l : list A) n x y : l !! n = Some x → y ∈ take (n + 1) l ↔ y ∈ take n l ∨ y = x.
Proof. intros Hx. rewrite Nat.add_1_r, (take_S_r _ _ _ Hx), elem_of_app, list_elem_of_singleton. done. Qed.

(** Rows before the current ones are smaller. *)
Lemma written_less st W x : minv st W →
  (∀ q u, (q < iter_l st)%nat → L !! q = Some u → u < x) → (∀ q u, (q < iter_r st)%nat → R !! q = Some u → u < x) → ∀ y, y ∈ W → y < x.
Proof.
  intros H Hl Hr y Hy. apply (mi_elem _ _ H) in Hy as [(i & Hi & E)%elem_take|[_ (i & Hi & E)%elem_take]]; [by apply (Hl i)|by apply (Hr i)].
Qed.

Lemma L_lookup i x : L !! i = Some x → ∃ v, rsp_data lhs !! i = Some v ∧ lookup_row L (rsp_data lhs) x = Some v.
Proof.
  intros Hx. destruct Hlw as (Hl & Hs & _). destruct (lookup_lt_is_Some_2 (rsp_data lhs) i) as [v Hv]; [apply lookup_lt_Some in Hx; lia|]. exists v. split; [done|].
  by apply (lookup_row_Some _ _ i _ _ (sorted_lt_nodup _ Hs)).
Qed.

Lemma R_lookup i x : R !! i = Some x → ∃ v, rsp_data rhs !! i = Some v ∧ lookup_row R (rsp_data rhs) x = Some v.
Proof.
  intros Hx. destruct Hrw as (Hl & Hs & _). destruct (lookup_lt_is_Some_2 (rsp_data rhs) i) as [v Hv]; [apply lookup_lt_Some in Hx; lia|]. exists v. split; [done|].
  by apply (lookup_row_Some _ _ i _ _ (sorted_lt_nodup _ Hs)).
Qed.

(** A row between two stored ones is not stored. *)
Lemma between_None idx data n x : StronglySorted Z.lt idx → (∀ q u, (q < n)%nat → idx !! q = Some u → u < x) → (∀ u, idx !! n = Some u → x < u) → lookup_row idx data x = None.
Proof.
  intros Hs Hlo Hhi. apply lookup_row_None. intros [q Hq]%list_elem_of_lookup. destruct (decide (q < n)%nat) as [H|H]; [specialize (Hlo q x H Hq); lia|].
  destruct (lookup_lt_is_Some_2 idx n) as [u Hu]; [apply lookup_lt_Some in Hq; lia|]. specialize (Hhi u Hu). destruct (decide (q = n)) as [->|]; [simplify_eq; lia|].
  pose proof (proj1 (sorted_lookup_lt idx Hs n q u x Hu Hq)). lia.
Qed.

Lemma sorted_prev idx n x : StronglySorted Z.lt idx → idx !! n = Some x → ∀ q u, (q < n)%nat → idx !! q = Some u → u < x.
Proof. intros Hs Hx q u Hq Hu. by apply (sorted_lookup_lt idx Hs q n). Qed.
Lemma sorted_next idx n x : StronglySorted Z.lt idx → idx !! n = Some x → ∀ q u, (n < q)%nat → idx !! q = Some u → x < u.
Proof. intros Hs Hx q u Hq Hu. by apply (sorted_lookup_lt idx Hs n q). Qed.

(** One row from both, from the left only, from the right only. *)
Lemma step_both st W x : minv st W → L !! iter_l st = Some x → R !! iter_r st = Some x →
  ∃ st', emit x (combined x) 1 1 1 st = Ok st' ∧ minv st' (W ++ [x]) ∧ iter_l st' = (iter_l st + 1)%nat ∧ iter_r st' = (iter_r st + 1)%nat.
Proof.
  intros H Hx Hy. pose proof Hlw as (_ & HsL & _). pose proof Hrw as (_ & HsR & _). pose proof (lookup_lt_Some _ _ _ Hx). pose proof (lookup_lt_Some _ _ _ Hy). apply (emit_ok st W x 1 1 1 H); try lia.
  - apply (written_less st W x H); intros q u Hq Hu; [by apply (sorted_prev L (iter_l st) x HsL Hx q)|by apply (sorted_prev R (iter_r st) x HsR Hy q)].
  - intros y. rewrite (take_S_elem _ _ x y Hx), (take_S_elem _ _ x y Hy). tauto.
  - intros q i u v Hq Hi Hu Hv. destruct (decide (q = iter_r st)) as [->|]; [assert (u = x) as -> by congruence; apply (sorted_next L (iter_l st) x HsL Hx i v); [lia|done]|]. apply (mi_lr _ _ H q i); [lia|lia|done|done].
  - intros q i u v Hq Hi Hu Hv. destruct (decide (q = iter_l st)) as [->|]; [assert (u = x) as -> by congruence; apply (sorted_next R (iter_r st) x HsR Hy i v); [lia|done]|]. apply (mi_rl _ _ H q i); [lia|lia|done|done].
Qed.

Lemma step_left st W x : minv st W → L !! iter_l st = Some x → (∀ y, R !! iter_r st = Some y → x < y) →
  lookup_row R (rsp_data rhs) x = None ∧
  ∃ st', emit x (combined x) 1 0 0 st = Ok st' ∧ minv st' (W ++ [x]) ∧ iter_l st' = (iter_l st + 1)%nat ∧ iter_r st' = (iter_r st + 0)%nat.
Proof.
  intros H Hx Hy. pose proof Hlw as (_ & HsL & _). pose proof Hrw as (_ & HsR & _). pose proof (lookup_lt_Some _ _ _ Hx).
  assert (∀ q u, (q < iter_r st)%nat → R !! q = Some u → u < x) as Hbefore by (intros q u Hq Hu; by apply (mi_lr _ _ H q (iter_l st))).
  split; [by apply (between_None _ _ (iter_r st))|]. pose proof (mi_r _ _ H). apply (emit_ok st W x 1 0 0 H); try lia.
  - apply (written_less st W x H); [by apply (sorted_prev L (iter_l st) x HsL Hx)|done].
  - intros y. rewrite (take_S_elem _ _ x y Hx), Nat.add_0_r. tauto.
  - intros q i u v Hq Hi Hu Hv. apply (mi_lr _ _ H q i); [lia|lia|done|done].
  - intros q i u v Hq Hi Hu Hv. destruct (decide (q = iter_l st)) as [->|]; [|apply (mi_rl _ _ H q i); [lia|lia|done|done]]. assert (u = x) as -> by congruence.
    destruct (decide (i = iter_r st)) as [->|]; [by apply Hy|]. destruct (lookup_lt_is_Some_2 R (iter_r st)) as [z Hz]; [apply lookup_lt_Some in Hv; lia|].
    pose proof (Hy z Hz). pose proof (sorted_next R (iter_r st) z HsR Hz i v ltac:(lia) Hv). lia.
Qed.

Lemma step_right st W x : scatter = false → minv st W → R !! iter_r st = Some x → (∀ y, L !! iter_l st = Some y → x < y) →
  lookup_row L (rsp_data lhs) x = None ∧
  ∃ st', emit x (combined x) 0 1 0 st = Ok st' ∧ minv st' (W ++ [x]) ∧ iter_l st' = (iter_l st + 0)%nat ∧ iter_r st' = (iter_r st + 1)%nat.
Proof.
  intros Hsc H Hx Hy. pose proof Hlw as (_ & HsL & _). pose proof Hrw as (_ & HsR & _). pose proof (lookup_lt_Some _ _ _ Hx).
  assert (∀ q u, (q < iter_l st)%nat → L !! q = Some u → u < x) as Hbefore by (intros q u Hq Hu; by apply (mi_rl _ _ H q (iter_r st))).
  split; [by apply (between_None _ _ (iter_l st))|]. pose proof (mi_l _ _ H). apply (emit_ok st W x 0 1 0 H); try lia; [| | | |].
  - apply (written_less st W x H); [done|by apply (sorted_prev R (iter_r st) x HsR Hx)].
  - by rewrite Hsc.
  - intros y. rewrite (take_S_elem _ _ x y Hx), Nat.add_0_r. tauto.
  - intros q i u v Hq Hi Hu Hv. destruct (decide (q = iter_r st)) as [->|]; [|apply (mi_lr _ _ H q i); [lia|lia|done|done]]. assert (u = x) as -> by congruence.
    destruct (decide (i = iter_l st)) as [->|]; [by apply Hy|]. destruct (lookup_lt_is_Some_2 L (iter_l st)) as [z Hz]; [apply lookup_lt_Some in Hv; lia|].
    pose proof (Hy z Hz). pose proof (sorted_next L (iter_l st) z HsL Hz i v ltac:(lia) Hv). lia.
  - intros q i u v Hq Hi Hu Hv. apply (mi_rl _ _ H q i); [lia|lia|done|done].
Qed.

(** In scatter mode a row of the right array only is skipped. *)
Lemma step_skip st W x : scatter = true → minv st W → R !! iter_r st = Some x → (∀ y, L !! iter_l st = Some y → x < y) →
  minv {| iter_l := iter_l st; iter_r := S (iter_r st); iter_out := iter_out st; num_common_rows := num_common_rows st; indices_out := indices_out st; data_out := data_out st |} W.
Proof.
  intros Hsc H Hx Hy. pose proof Hlw as (_ & HsL & _). pose proof (lookup_lt_Some _ _ _ Hx). destruct H as [H1 H2 H3 H4 H5 H6 H7 H8 H9 H10].
  rewrite Hsc in H4. split; cbn [iter_l iter_r iter_out num_common_rows indices_out data_out]; try done; try lia.
  - by rewrite Hsc.
  - intros y. rewrite (H8 y), Hsc. split; [intros [?|[? _]]; [by left|done]|intros [?|[? _]]; [by left|done]].
  - intros q i u v Hq Hi Hu Hv. destruct (decide (q = iter_r st)) as [->|]; [|apply (H9 q i); [lia|lia|done|done]]. assert (u = x) as -> by congruence.
    destruct (decide (i = iter_l st)) as [->|]; [by apply Hy|]. destruct (lookup_lt_is_Some_2 L (iter_l st)) as [z Hz]; [apply lookup_lt_Some in Hv; lia|].
    pose proof (Hy z Hz). pose proof (sorted_next L (iter_l st) z HsL Hz i v ltac:(lia) Hv). lia.
  - intros q i u v Hq Hi Hu Hv. apply (H10 q i); [lia|lia|done|done].
Qed.
Lemma merge_common_spec fuel : ∀ st W, minv st W → (length L - iter_l st + (length R - iter_r st) ≤ fuel)%nat →
  ∃ st' W', merge_common op scatter fuel lhs rhs st = Ok st' ∧ minv st' W' ∧ (iter_l st' = length L ∨ iter_r st' = length R).
Proof.
  induction fuel as [|fuel IH]; intros st W H Hf; cbn [merge_common]; pose proof (mi_l _ _ H); pose proof (mi_r _ _ H).
  - destruct (Nat.ltb_spec (iter_l st) (length L)), (Nat.ltb_spec (iter_r st) (length R)); try lia; cbn [andb]; exists st, W; (split; [done|split; [done|lia]]).
  - destruct (Nat.ltb_spec (iter_l st) (length L)) as [Hl|Hl]; cbn [andb]; [|exists st, W; split; [done|split; [done|lia]]].
    destruct (Nat.ltb_spec (iter_r st) (length R)) as [Hr|Hr]; [|exists st, W; split; [done|split; [done|lia]]].
    destruct (lookup_lt_is_Some_2 _ _ Hl) as [x Hx]. destruct (lookup_lt_is_Some_2 _ _ Hr) as [y Hy]. destruct (L_lookup _ _ Hx) as (v & Hv & Hvl). destruct (R_lookup _ _ Hy) as (w & Hw & Hwl).
    rewrite (rd_ok _ _ _ Hx), (rd_ok _ _ _ Hy), (rd_ok _ _ _ Hv), (rd_ok _ _ _ Hw). rstep. destruct (Z.eqb_spec x y) as [->|Hne]; [|destruct (Z.ltb_spec x y) as [Hxy|Hxy]].
    + destruct (step_both st W y H Hx Hy) as (st' & He & H' & E1 & E2). unfold combined in He. rewrite Hvl, Hwl in He. rewrite He. rstep. apply (IH st' _ H'). lia.
    + destruct (step_left st W x H Hx) as (Hno & st' & He & H' & E1 & E2); [intros z Hz; simplify_eq; lia|]. unfold combined in He. rewrite Hvl, Hno in He. rewrite He. rstep. apply (IH st' _ H'). lia.
    + assert (scatter = true ∨ scatter = false) as [Hsc|Hsc] by (destruct scatter; auto);
        match goal with |- context [if scatter then ?a else ?b] => first [replace (if scatter then a else b) with a by (by rewrite Hsc)|replace (if scatter then a else b) with b by (by rewrite Hsc)] end.
      * apply IH with W; [|cbn; lia]. apply (step_skip st W y); [done|done|done|]. intros z Hz. simplify_eq. lia.
      * destruct (step_right st W y Hsc H Hy) as (Hno & st' & He & H' & E1 & E2); [intros z Hz; simplify_eq; lia|]. unfold combined in He. rewrite Hno, Hwl in He. rewrite He. rstep.
        apply (IH st' _ H'). lia.
Qed.

Lemma left_rest st W : minv st W → (iter_l st = length L ∨ iter_r st = length R) →
  ∃ st' W', for_range (iter_l st) (length L) (fun i st => x ← rd L i; v ← rd (rsp_data lhs) i; emit x (MissingRValueOp op v) 1 0 0 st) st = Ok st' ∧ minv st' W' ∧
    iter_l st' = length L.
Proof.
  intros H Hend. destruct Hend as [Hl|Hr]; [exists st, W; split; [apply for_range_empty; lia|done]|]. pose proof (mi_l _ _ H) as Hle.
  destruct (for_range_ok (fun i s => ∃ W', minv s W' ∧ iter_l s = i ∧ iter_r s = length R) (iter_l st) (length L)
    (fun i st => x ← rd L i; v ← rd (rsp_data lhs) i; emit x (MissingRValueOp op v) 1 0 0 st) st) as (st' & E & W' & H' & Hl' & _); [done|by exists W| |by exists st', W'].
  intros i s Hi (W' & H' & Hil & Hir). destruct (lookup_lt_is_Some_2 L i) as [x Hx]; [lia|]. destruct (L_lookup _ _ Hx) as (v & Hv & Hvl). rewrite (rd_ok _ _ _ Hx), (rd_ok _ _ _ Hv). rstep.
  destruct (step_left s W' x H' ltac:(by rewrite Hil)) as (Hno & s' & He & H2 & E1 & E2); [intros z Hz; apply lookup_lt_Some in Hz; lia|]. unfold combined in He. rewrite Hvl, Hno in He.
  exists s'. split; [done|]. exists (W' ++ [x]). split; [done|]. lia.
Qed.

Lemma right_rest st W : scatter = false → minv st W → iter_l st = length L →
  ∃ st' W', for_range (iter_r st) (length R) (fun i st => x ← rd R i; v ← rd (rsp_data rhs) i; emit x (MissingLValueOp op v) 0 1 0 st) st = Ok st' ∧ minv st' W' ∧
    iter_l st' = length L ∧ iter_r st' = length R.
Proof.
  intros Hsc H Hl. pose proof (mi_r _ _ H) as Hle.
  destruct (for_range_ok (fun i s => ∃ W', minv s W' ∧ iter_r s = i ∧ iter_l s = length L) (iter_r st) (length R)
    (fun i st => x ← rd R i; v ← rd (rsp_data rhs) i; emit x (MissingLValueOp op v) 0 1 0 st) st) as (st' & E & W' & H' & Hr' & Hl'); [done|by exists W| |by exists st', W'].
  intros i s Hi (W' & H' & Hir & Hil). destruct (lookup_lt_is_Some_2 R i) as [x Hx]; [lia|]. destruct (R_lookup _ _ Hx) as (v & Hv & Hvl). rewrite (rd_ok _ _ _ Hx), (rd_ok _ _ _ Hv). rstep.
  destruct (step_right s W' x Hsc H' ltac:(by rewrite Hir)) as (Hno & s' & He & H2 & E1 & E2); [intros z Hz; apply lookup_lt_Some in Hz; lia|]. unfold combined in He. rewrite Hvl, Hno in He.
  exists s'. split; [done|]. exists (W' ++ [x]). split; [done|]. lia.
Qed.

Lemma RspRspOp_result : ∃ W, RspRspOp op scatter lhs rhs = Ok {| rsp_rows := rsp_rows lhs; rsp_width := rsp_width lhs; rsp_idx := W; rsp_data := combined <$> W |} ∧
  StronglySorted Z.lt W ∧ ∀ x, x ∈ W ↔ x ∈ L ∨ (scatter = false ∧ x ∈ R).
Proof.
  unfold RspRspOp. rewrite <- Hsize. match goal with |- context [merge_common _ _ _ _ _ ?s] => set (s0 := s) end.
  assert (minv s0 []) as H0.
  { split; cbn [s0 iter_l iter_r iter_out num_common_rows indices_out data_out]; try done; try lia; [by destruct scatter|by rewrite length_replicate|by rewrite length_replicate|constructor|].
    intros x. rewrite !elem_of_nil. tauto. }
  destruct (merge_common_spec (length L + length R) s0 [] H0) as (s1 & W1 & -> & H1 & He1); [cbn; lia|]. rstep.
  destruct (left_rest s1 W1 H1 He1) as (s2 & W2 & -> & H2 & Hl2). rstep.
  assert (∃ s3 W3, (if scatter then Ok s2 else for_range (iter_r s2) (length R) (fun i st => x ← rd R i; v ← rd (rsp_data rhs) i; emit x (MissingLValueOp op v) 0 1 0 st) s2) = Ok s3 ∧
    minv s3 W3 ∧ iter_l s3 = length L ∧ (scatter = false → iter_r s3 = length R)) as (s3 & W3 & -> & H3 & Hl3 & Hr3).
  { assert (scatter = true ∨ scatter = false) as [Hsc|Hsc] by (destruct scatter; auto).
    - exists s2, W2. split; [by rewrite Hsc|]. split; [done|]. split; [done|]. by rewrite Hsc.
    - destruct (right_rest s2 W2 Hsc H2 Hl2) as (s3 & W3 & ? & ? & ? & ?). exists s3, W3. split; [by rewrite Hsc|done]. }
  rstep. destruct H3 as [H31 H32 H33 H34 [H35 H35'] [H36 H36'] H37 H38 _ _].
  assert ((if scatter then size else (size - num_common_rows s3)%nat) = length W3) as Hn by (rewrite Hsize; destruct scatter; [lia|specialize (Hr3 eq_refl); lia]).
  rewrite check_bind_ok by (apply Nat.leb_le; rewrite H33, Hsize; destruct scatter; lia). rewrite Hn, H35', H36'. exists W3. split; [done|]. split; [done|]. intros x. rewrite H38, Hl3, take_ge by done.
  destruct scatter; [split; intros [?|[? _]]; [by left|done|by left|done]|]. by rewrite (Hr3 eq_refl), take_ge.
Qed.
End BinaryProof.

Lemma zip_missing_r op l : MissingRValueOp op l = zip_with op l (replicate (length l) f32_zero).
Proof. unfold MissingRValueOp. induction l as [|x l IH]; [done|]. cbn. by rewrite <- IH. Qed.
Lemma zip_missing_l op l : MissingLValueOp op l = zip_with op (replicate (length l) f32_zero) l.
Proof. unfold MissingLValueOp. induction l as [|x l IH]; [done|]. cbn. by rewrite <- IH. Qed.

(** An element-wise operation on two row-sparse arrays is the operation on the matrices
    they stand for.  For well-formed arrays of one shape and an operation that maps zeros
    to zero, the merge of the rows stays in bounds and gives a well-formed array whose row
    [x], stored or not, is the operation on the rows [x] of the arguments; in scatter mode
    this holds for the rows of the left argument, and the others are zero. *)
Theorem rsp_binary_op op (scatter : bool) (lhs rhs : RowSparse) :
  rsp_wf lhs → rsp_wf rhs → rsp_rows lhs = rsp_rows rhs → rsp_width lhs = rsp_width rhs →
  Forall (fun v => length v = rsp_width lhs) (rsp_data lhs) → Forall (fun v => length v = rsp_width rhs) (rsp_data rhs) →
  op f32_zero f32_zero = f32_zero →
  ∃ c, RspRspOp op scatter lhs rhs = Ok c ∧ rsp_wf c ∧
    ∀ x, row c x = if scatter && bool_decide (x ∉ rsp_idx lhs) then replicate (rsp_width lhs) f32_zero else zip_with op (row lhs x) (row rhs x).
Proof.
  intros Hl Hr Hrows Hwidth Hsl Hsr Hop. destruct (RspRspOp_result op scatter lhs rhs _ Hl Hr eq_refl) as (W & E & Hs & Hel). eexists. split; [exact E|].
  pose proof Hl as (Hll & _ & Hlr). pose proof Hr as (Hrl & _ & Hrr). split.
  - split; [by cbn; rewrite length_fmap|]. split; [done|]. cbn. intros x [Hx|[_ Hx]]%Hel; [by apply Hlr|rewrite Hrows; by apply Hrr].
  - assert (∀ x v, lookup_row (rsp_idx lhs) (rsp_data lhs) x = Some v → length v = rsp_width lhs) as HvL by (intros x v (p & _ & Hp%list_elem_of_lookup_2)%lookup_row_inv; rewrite Forall_forall in Hsl; by apply Hsl).
    assert (∀ x v, lookup_row (rsp_idx rhs) (rsp_data rhs) x = Some v → length v = rsp_width rhs) as HvR by (intros x v (p & _ & Hp%list_elem_of_lookup_2)%lookup_row_inv; rewrite Forall_forall in Hsr; by apply Hsr).
    assert (∀ n, zip_with op (replicate n f32_zero) (replicate n f32_zero) = replicate n f32_zero) as Hzz by (induction n as [|n IH]; [done|cbn; by rewrite Hop, IH]).
    assert (∀ a x, rsp_wf a → lookup_row (rsp_idx a) (rsp_data a) x = None → x ∉ rsp_idx a) as Hnone by (intros a x (Hla & _) H Hx; destruct (lookup_row_is_Some _ _ x Hla Hx) as [v Hv]; congruence).
    intros x. unfold row at 1. cbn [rsp_idx rsp_data rsp_width]. destruct (decide (x ∈ W)) as [Hx|Hx].
    + rewrite lookup_row_fmap by done. cbn [default id]. replace (scatter && bool_decide (x ∉ rsp_idx lhs)) with false.
      2: { symmetry. apply Hel in Hx as [Hx|[-> _]]; [|done]. rewrite bool_decide_eq_false_2 by tauto. apply andb_false_r. }
      unfold combined, row. destruct (lookup_row (rsp_idx lhs) (rsp_data lhs) x) as [v|] eqn:Ev, (lookup_row (rsp_idx rhs) (rsp_data rhs) x) as [w|] eqn:Ew; cbn [default id].
      * done.
      * by rewrite zip_missing_r, (HvL x v Ev), Hwidth.
      * by rewrite zip_missing_l, (HvR x w Ew), Hwidth.
      * apply Hel in Hx as [Hx|[_ Hx]]; exfalso; [by apply (Hnone lhs x Hl Ev)|by apply (Hnone rhs x Hr Ew)].
    + rewrite lookup_row_None by done. cbn [default id]. destruct scatter; cbn [andb].
      * rewrite bool_decide_eq_true_2; [done|]. intros H. apply Hx, Hel. by left.
      * unfold row. rewrite !lookup_row_None; [|intros H; apply Hx, Hel; by right|intros H; apply Hx, Hel; by left]. cbn [default id]. rewrite <- Hwidth. by rewrite Hzz.
Qed.

Lemma rsp_binary_op_witness : ∃ c, RspRspOp (dadd kFloat32) false w_rsp w_other = Ok c ∧ row c 4 = [f32_of_Z 2; w_one].
Proof.
  destruct (rsp_binary_op (dadd kFloat32) false w_rsp w_other) as (c & H & _ & Hrow); [apply w_rsp_wf| |reflexivity|reflexivity|repeat constructor|repeat constructor|reflexivity|].
  - split; [reflexivity|]. split; [repeat constructor|]. intros x Hx. change (x ∈ [0; 4]) in Hx. rewrite !elem_of_cons, elem_of_nil in Hx. change (rsp_rows w_other) with 5. lia.
  - exists c. split; [exact H|]. rewrite Hrow. reflexivity.
Defined.
