(* ===== verification/Optimizer.v ===== *)
(** * Optimizers with dense and row-sparse gradients

    The update operators of src/src/operator/optimizer_op-inl.h and optimizer_op.cc for
    [float] on the CPU: SGD, SGD with momentum, Adam, AdaGrad, FTRL, signSGD and Signum, and
    SGD in mixed precision, which a server's updater runs.  With a row-sparse gradient there
    are two ways to update: lazily, only the rows of the gradient, or all rows, the rows that
    are not stored counting as zeros.

    The weight and the states of an update have one shape and are accessed at the same
    positions; they are kept together as a matrix of cells, made by [zip_cells], which fails
    where the code would read outside one of the arrays. *)

From Stdlib Require Import SpecFloat Sorted.
From S2P Require Import Prelude StdAlgo Floats Sparse SparseOps.
Local Open Scope Z_scope.

Abbreviation matrix := (list (list float)).
Definition one : float := f32_of_Z 1.
Definition f32_sqrt : float → float := SFsqrt 24 128.
Definition f_pos (x : float) : bool := f_gt x f32_zero.
Definition f_neg (x : float) : bool := f_lt x f32_zero.

(** [OpReqType] and [KERNEL_ASSIGN] *)
Inductive OpReqType := kNullOp | kWriteTo | kWriteInplace | kAddTo.
#[export] Instance OpReqType_eq_dec : EqDecision OpReqType.
Proof. solve_decision. Defined.
Definition KERNEL_ASSIGN (req : OpReqType) (out val : float) : float :=
  match req with kNullOp => out | kWriteTo | kWriteInplace => val | kAddTo => f32_add out val end.

(** [mshadow_op::clip] *)
Definition clip (x bound : float) : float :=
  if f_gt x bound then bound else if f_lt x (SFopp bound) then SFopp bound else x.

(** [clip_gradient >= 0.0f ? clip::Map(x, clip_gradient) : x] *)
Definition maybe_clip (clip_gradient x : float) : float :=
  if f_ge clip_gradient f32_zero then clip x clip_gradient else x.

(** ** The formulas *)
Record SGDParam := { lr : float; wd : float; rescale_grad : float; clip_gradient : float; lazy_update : bool }.
Record SGDMomParam := { sgd_param : SGDParam; momentum : float }.

Definition SGDKernel (p : SGDParam) (w g : float) : float :=
  let decayed := f32_mul (f32_sub one (f32_mul (lr p) (wd p))) w in
  if f_ge (clip_gradient p) f32_zero
  then f32_sub decayed (f32_mul (lr p) (clip (f32_mul (rescale_grad p) g) (clip_gradient p)))
  else f32_sub decayed (f32_mul (f32_mul (lr p) (rescale_grad p)) g).

(** The new weight and momentum. *)
Definition SGDMomKernel (p : SGDMomParam) (c : float * float) (g : float) : float * float :=
  let '(w, mom) := c in
  let s := sgd_param p in
  let decayed := f32_sub (f32_mul (momentum p) mom) (f32_mul (f32_mul (lr s) (wd s)) w) in
  let mom := if f_ge (clip_gradient s) f32_zero
             then f32_sub decayed (f32_mul (lr s) (clip (f32_mul (rescale_grad s) g) (clip_gradient s)))
             else f32_sub decayed (f32_mul (f32_mul (lr s) (rescale_grad s)) g) in
  (f32_add w mom, mom).

(** Mixed precision: the weight in half precision and its copy in single precision. *)
Definition half_of (x : float) : float := convert 11 16 x.
Definition MP_SGDKernel (p : SGDParam) (c : float * float) (g : float) : float * float :=
  let w := SGDKernel p c.2 g in (half_of w, w).

Definition MP_SGDMomKernel (p : SGDMomParam) (c : float * float * float) (g : float) : float * float * float :=
  let '(_, mom, w32) := c in
  let '(w, mom) := SGDMomKernel p (w32, mom) g in (half_of w, mom, w).

Record AdamParam := { adam_param : SGDParam; beta1 : float; beta2 : float; epsilon : float }.

(** The end of an Adam update: the new weight from the new moments. *)
Definition adam_step (p : AdamParam) (w mean var : float) : float :=
  f32_sub w (f32_div (f32_mul (lr (adam_param p)) mean) (f32_add (f32_sqrt var) (epsilon p))).
Definition moment (beta old new : float) : float := f32_add (f32_mul beta old) (f32_mul (f32_sub one beta) new).

(** [AdamUpdate]; the gradient is overwritten with the rescaled one. *)
Definition adam_cell (p : AdamParam) (c : float * float * float) (g : float) : float * float * float * float :=
  let '(w, mean, var) := c in
  let s := adam_param p in
  let grad := f32_add (f32_mul (rescale_grad s) g) (f32_mul (wd s) w) in
  let g := maybe_clip (clip_gradient s) grad in
  let mean := moment (beta1 p) mean g in
  let var := moment (beta2 p) var (f32_mul g g) in
  (adam_step p w mean var, mean, var, grad).

(** [AdamDnsRspDnsKernel], which without clipping multiplies from the left. *)
Definition AdamDnsRspDnsKernel (p : AdamParam) (c : float * float * float) (g : float) : float * float * float :=
  let '(w, mean, var) := c in
  let s := adam_param p in
  let grad_rescaled := f32_add (f32_mul g (rescale_grad s)) (f32_mul w (wd s)) in
  let g := maybe_clip (clip_gradient s) grad_rescaled in
  let mean := moment (beta1 p) mean g in
  let var := if f_ge (clip_gradient s) f32_zero then moment (beta2 p) var (f32_mul g g)
             else f32_add (f32_mul (beta2 p) var) (f32_mul (f32_mul (f32_sub one (beta2 p)) g) g) in
  (adam_step p w mean var, mean, var).

(** [AdamStdDnsRspDnsKernel]; [None] is a row the gradient does not have. *)
Definition AdamStdDnsRspDnsKernel (p : AdamParam) (c : float * float * float) (g : option float) : float * float * float :=
  let '(w, mean, var) := c in
  let s := adam_param p in
  let grad_rescaled := match g with
                       | Some g => f32_add (f32_mul g (rescale_grad s)) (f32_mul w (wd s))
                       | None => f32_mul w (wd s)
                       end in
  let g := maybe_clip (clip_gradient s) grad_rescaled in
  let mean := moment (beta1 p) mean g in
  let var := moment (beta2 p) var (f32_mul g g) in
  (adam_step p w mean var, mean, var).

Record FtrlParam := { ftrl_param : SGDParam; lamda1 : float; beta : float }.
Definition f_sign (x : float) : float := if f_neg x then SFopp one else if f_pos x then one else f32_zero.

(** The update of [z], [n] and the weight from the rescaled gradient. *)
Definition ftrl_step (p : FtrlParam) (c : float * float * float) (grad : float) : float * float * float :=
  let '(w, z, n) := c in
  let s := ftrl_param p in
  let g := maybe_clip (clip_gradient s) grad in
  let z := f32_add z (f32_sub g (f32_div (f32_mul (f32_sub (f32_sqrt (f32_add n (f32_mul g g))) (f32_sqrt n)) w) (lr s))) in
  let n := f32_add n (f32_mul g g) in
  let out := f32_mul (f32_div (f32_sub (f32_mul (f_sign z) (lamda1 p)) z)
                              (f32_add (f32_div (f32_add (beta p) (f32_sqrt n)) (lr s)) (wd s)))
                     (if f_gt (SFabs z) (lamda1 p) then one else f32_zero) in
  (out, z, n).
Definition ftrl_cell (p : FtrlParam) (c : float * float * float) (g : float) : float * float * float :=
  ftrl_step p c (f32_mul (rescale_grad (ftrl_param p)) g).
Definition FtrlDnsRspDnsKernel (p : FtrlParam) (c : float * float * float) (g : float) : float * float * float :=
  ftrl_step p c (f32_mul g (rescale_grad (ftrl_param p))).

Definition AdagradDnsRspDnsKernel (p : SGDParam) (eps : float) (c : float * float) (g : float) : float * float :=
  let '(w, state) := c in
  let g := maybe_clip (clip_gradient p) (f32_mul g (rescale_grad p)) in
  let state := f32_add state (f32_mul g g) in
  let div := f32_div g (f32_sqrt (f32_add state eps)) in
  (f32_sub w (f32_mul div (lr p)), state).

(** [(x > 0) - (x < 0)] *)
Definition sign_of (x : float) : float := f32_of_Z ((if f_pos x then 1 else 0) - (if f_neg x then 1 else 0)).
Definition SignSGDKernel (p : SGDParam) (w g : float) : float :=
  f32_sub (f32_mul (f32_sub one (f32_mul (lr p) (wd p))) w) (f32_mul (lr p) (sign_of g)).

Record SignumParam := { signum_param : SGDMomParam; wd_lh : float }.
Definition SignumKernel (p : SignumParam) (c : float * float) (g : float) : float * float :=
  let '(w, mom) := c in
  let m := momentum (signum_param p) in
  let s := sgd_param (signum_param p) in
  let rest := f32_sub one m in
  let decayed := f32_sub (f32_mul m mom) (f32_mul (f32_mul rest (wd s)) w) in
  let mom := if f_ge (clip_gradient s) f32_zero
             then f32_sub decayed (f32_mul rest (clip (f32_mul (rescale_grad s) g) (clip_gradient s)))
             else f32_sub decayed (f32_mul (f32_mul rest (rescale_grad s)) g) in
  (f32_add (f32_mul (f32_sub one (f32_mul (lr s) (wd_lh p))) w) (f32_mul (lr s) (sign_of mom)), mom).

(** ** Launching the kernels *)

(** Arrays of one shape, cell by cell. *)
Definition zip_row {A B} (x : list A) (y : list B) : result (list (A * B)) :=
  if (length x =? length y)%nat then Ok (zip x y) else Err (Undefined "read out of range").
Definition zip_cells {A B} (x : list (list A)) (y : list (list B)) : result (list (list (A * B))) :=
  for_range 0 (length x) (fun i acc => r ← rd x i; r' ← rd y i; z ← zip_row r r'; Ok (acc ++ [z])) [].

Section launch.
Context {C : Type}.

Definition update_row (upd : C → float → C) (cells : list C) (g : list float) : result (list C) :=
  r ← zip_row cells g; Ok (map (fun x => upd x.1 x.2) r).

(** All elements, with a dense gradient. *)
Definition dense_launch (upd : C → float → C) (m : list (list C)) (grad : matrix) : result (list (list C)) :=
  for_range 0 (length m) (fun i m => c ← rd m i; g ← rd grad i; r ← update_row upd c g; wr m i r) m.

(** One thread for each row of the gradient. *)
Definition lazy_launch (upd : C → float → C) (m : list (list C)) (grad : RowSparse) : result (list (list C)) :=
  for_range 0 (length (rsp_idx grad)) (fun i m =>
    x ← rd (rsp_idx grad) i;
    c ← rdz m x;
    g ← rd (rsp_data grad) i;
    r ← update_row upd c g;
    wrz m x r) m.

(** [MarkRowFlgKernel] and the inclusive prefix sum. *)
Definition row_counts (num_rows : nat) (grad : RowSparse) : result (list Z) :=
  let flags := replicate num_rows 0 in
  if (length (rsp_idx grad) =? 0)%nat then Ok flags
  else
    flags ← for_range 0 (length (rsp_idx grad)) (fun i flags => x ← rd (rsp_idx grad) i; wrz flags x 1) flags;
    for_range 1 num_rows (fun i sums => a ← rd sums i; b ← rd sums (i - 1); wr sums i (a + b)) flags.

(** One thread for each row of the weight; where the count grows the gradient has the row. *)
Definition std_launch (upd : C → option float → C) (m : list (list C)) (grad : RowSparse) : result (list (list C)) :=
  prefix_sum ← row_counts (length m) grad;
  for_range 0 (length m) (fun i m =>
    c ← rd m i;
    s ← rd prefix_sum i;
    prev ← (if (i =? 0)%nat then Ok 0 else rd prefix_sum (i - 1));
    r ← (if prev <? s
         then g ← rdz (rsp_data grad) (s - 1); r ← zip_row c g; Ok (map (fun x => upd x.1 (Some x.2)) r)
         else Ok (map (fun x => upd x None) c));
    wr m i r) m.
End launch.

(** ** The operators *)

(** Arrays: dense, or row-sparse. *)
Inductive Array := Dns (m : matrix) | Rsp (a : RowSparse).
Definition array_data (a : Array) : matrix := match a with Dns m => m | Rsp a => rsp_data a end.
Definition with_data (a : Array) (m : matrix) : Array :=
  match a with
  | Dns _ => Dns m
  | Rsp a => Rsp {| rsp_rows := rsp_rows a; rsp_width := rsp_width a; rsp_idx := rsp_idx a; rsp_data := m |}
  end.
Definition is_rsp (a : Array) : bool := match a with Dns _ => false | Rsp _ => true end.
Definition same_stype (a b : Array) : bool := Bool.eqb (is_rsp a) (is_rsp b).

Definition storage_initialized (a : RowSparse) : result bool :=
  check (length (rsp_idx a) =? length (rsp_data a))%nat "inconsistent storage shape";;
  Ok (negb (length (rsp_idx a) =? 0)%nat).

Definition CheckAllRowsPresent (a : Array) : result unit :=
  match a with
  | Rsp a => check (Z.of_nat (length (rsp_data a)) =? rsp_rows a) "only implemented for RowSparse weights with all rows containing non-zeros"
  | Dns _ => Ok tt
  end.

Definition FillDnsZerosRspImpl (a : RowSparse) : RowSparse :=
  let n := Z.to_nat (rsp_rows a) in
  {| rsp_rows := rsp_rows a; rsp_width := rsp_width a; rsp_idx := Z.of_nat <$> seq 0 n; rsp_data := replicate n (replicate (rsp_width a) f32_zero) |}.

(** A state that has no rows yet is filled with zeros. *)
Definition fill_state (a : Array) : result Array :=
  match a with
  | Rsp r => b ← storage_initialized r; Ok (if b : bool then a else Rsp (FillDnsZerosRspImpl r))
  | Dns _ => Ok a
  end.

(** [blob.shape_.Size() > 0] *)
Definition nonempty (m : matrix) : bool := negb (length (mjoin m) =? 0)%nat.

(** *** Dense gradients *)
Definition SGDUpdate (p : SGDParam) (req : OpReqType) (out weight grad : matrix) : result matrix :=
  cells ← zip_cells out weight;
  r ← dense_launch (fun c g => (KERNEL_ASSIGN req c.1 (SGDKernel p c.2 g), c.2)) cells grad;
  Ok (map (map fst) r).

(** Operators with states: the states are updated, the weight is assigned. *)
Definition stateful_update {S} (kernel : float * S → float → float * S) (req : OpReqType)
    (out : matrix) (cells : list (list (float * S))) (grad : matrix) : result (matrix * list (list S)) :=
  cells ← zip_cells out cells;
  r ← dense_launch (fun c g => let '(w, s) := kernel c.2 g in (KERNEL_ASSIGN req c.1 w, (c.2.1, s))) cells grad;
  Ok (map (map fst) r, map (map (fun c => c.2.2)) r).
Definition SGDMomUpdate (p : SGDMomParam) (req : OpReqType) (out weight grad mom : matrix) : result (matrix * matrix) :=
  cells ← zip_cells weight mom; stateful_update (SGDMomKernel p) req out cells grad.
Definition SignumUpdate (p : SignumParam) (req : OpReqType) (out weight grad mom : matrix) : result (matrix * matrix) :=
  cells ← zip_cells weight mom; stateful_update (SignumKernel p) req out cells grad.

(** *** SGD with a row-sparse gradient *)
Definition SGDUpdateDnsRspImpl (p : SGDParam) (weight : matrix) (grad : RowSparse) (req : OpReqType) : result matrix :=
  if bool_decide (req = kNullOp) then Ok weight else
  check (bool_decide (req = kWriteInplace)) "kWriteInplace is expected for sparse sgd_mom_update";;
  check (nonempty weight) "weight.shape_.Size() > 0";;
  let weight := if lazy_update p then weight else map (map (fun w => f32_mul w (f32_sub one (f32_mul (lr p) (wd p))))) weight in
  let wd' := if lazy_update p then wd p else f32_zero in
  b ← storage_initialized grad;
  if negb (b : bool) then Ok weight
  else lazy_launch (SGDKernel {| lr := lr p; wd := wd'; rescale_grad := rescale_grad p; clip_gradient := clip_gradient p; lazy_update := lazy_update p |}) weight grad.

Definition SGDUpdateEx (p : SGDParam) (weight grad : Array) (req : OpReqType) : result Array :=
  match grad with
  | Rsp grad =>
      CheckAllRowsPresent weight;;
      m ← SGDUpdateDnsRspImpl p (array_data weight) grad req;
      Ok (with_data weight m)
  | Dns _ => Err (CheckFailed "Not implemented")
  end.

(** *** Momentum *)
Definition SGDMomLazyUpdateDnsRspDnsImpl (p : SGDMomParam) (weight : matrix) (grad : RowSparse) (mom : matrix) (req : OpReqType) : result (matrix * matrix) :=
  b ← storage_initialized grad;
  if negb (b : bool) || bool_decide (req = kNullOp) then Ok (weight, mom) else
  check (bool_decide (req = kWriteInplace)) "kWriteInplace is expected for sparse sgd_mom_update";;
  check (nonempty weight) "weight.shape_.Size() > 0";;
  check (nonempty mom) "mom.shape_.Size() > 0";;
  cells ← zip_cells weight mom;
  r ← lazy_launch (SGDMomKernel p) cells grad;
  Ok (map (map fst) r, map (map snd) r).

Definition SGDMomStdUpdateDnsRspDnsImpl (p : SGDMomParam) (weight : matrix) (grad : RowSparse) (mom : matrix) (req : OpReqType) : result (matrix * matrix) :=
  if bool_decide (req = kNullOp) then Ok (weight, mom) else
  check (bool_decide (req = kWriteInplace)) "kWriteInplace is expected for sparse sgd_mom_update";;
  check (nonempty weight) "weight.shape_.Size() > 0";;
  check (nonempty mom) "mom.shape_.Size() > 0";;
  cells ← zip_cells weight mom;
  storage_initialized grad;;
  r ← std_launch (fun c g => SGDMomKernel p c (default f32_zero g)) cells grad;
  Ok (map (map fst) r, map (map snd) r).

(** [SGDMomLazyUpdateRspImpl] and [SGDMomStdUpdateRspImpl] *)
Definition SGDMomUpdateRspImpl (impl : matrix → RowSparse → matrix → OpReqType → result (matrix * matrix))
    (weight : Array) (grad : RowSparse) (mom : Array) (req : OpReqType) : result (Array * Array) :=
  CheckAllRowsPresent weight;;
  mom ← fill_state mom;
  r ← impl (array_data weight) grad (array_data mom) req;
  Ok (with_data weight r.1, with_data mom r.2).

Definition SGDMomUpdateEx (p : SGDMomParam) (weight grad mom : Array) (req : OpReqType) : result (Array * Array) :=
  match grad with
  | Rsp grad =>
      if same_stype mom weight then
        SGDMomUpdateRspImpl (if lazy_update (sgd_param p) then SGDMomLazyUpdateDnsRspDnsImpl p else SGDMomStdUpdateDnsRspDnsImpl p) weight grad mom req
      else if is_rsp weight then SGDMomUpdateRspImpl (SGDMomStdUpdateDnsRspDnsImpl p) weight grad mom req
      else Err (CheckFailed "Not implemented")
  | Dns _ => Err (CheckFailed "Not implemented")
  end.

(** *** Adam *)
Definition AdamUpdate (p : AdamParam) (req : OpReqType) (out weight grad mean var : matrix) : result (matrix * matrix * matrix * matrix) :=
  cells ← zip_cells weight mean;
  cells ← zip_cells cells var;
  cells ← zip_cells out cells;
  cells ← zip_cells cells grad;
  r ← dense_launch (fun c g => let '(w, mean, var, grad) := adam_cell p c.1.2 g in
                               (KERNEL_ASSIGN req c.1.1 w, (c.1.2.1.1, mean, var), grad)) cells grad;
  Ok (map (map (fun c => c.1.1)) r, map (map (fun c => c.1.2.1.2)) r, map (map (fun c => c.1.2.2)) r, map (map snd) r).

Definition AdamDnsRspDnsImpl (lazy : bool) (p : AdamParam) (weight : matrix) (grad : RowSparse) (mean var : matrix) (req : OpReqType)
    : result (matrix * matrix * matrix) :=
  b ← (if lazy then storage_initialized grad else Ok true);
  if negb (b : bool) || bool_decide (req = kNullOp) then Ok (weight, mean, var) else
  check (bool_decide (req = kWriteInplace)) "kWriteInplace is expected for sparse adam_update";;
  check (nonempty weight) "weight.shape_.Size() > 0";;
  check (nonempty mean) "mean.shape_.Size() > 0";;
  check (nonempty var) "var.shape_.Size() > 0";;
  cells ← zip_cells weight mean;
  cells ← zip_cells cells var;
  r ← (if lazy then lazy_launch (AdamDnsRspDnsKernel p) cells grad
       else storage_initialized grad;; std_launch (AdamStdDnsRspDnsKernel p) cells grad);
  Ok (map (map (fun c => c.1.1)) r, map (map (fun c => c.1.2)) r, map (map snd) r).

Definition AdamLazyUpdateRspImpl (p : AdamParam) (weight : Array) (grad : RowSparse) (mean var : Array) (req : OpReqType) : result (Array * Array * Array) :=
  CheckAllRowsPresent weight;;
  mean ← fill_state mean;
  var ← fill_state var;
  r ← AdamDnsRspDnsImpl true p (array_data weight) grad (array_data mean) (array_data var) req;
  Ok (with_data weight r.1.1, with_data mean r.1.2, with_data var r.2).

Definition AdamStdUpdateRspImpl (p : AdamParam) (weight : Array) (grad : RowSparse) (mean var : Array) (req : OpReqType) : result (Array * Array * Array) :=
  CheckAllRowsPresent weight;;
  r ← AdamDnsRspDnsImpl false p (array_data weight) grad (array_data mean) (array_data var) req;
  Ok (with_data weight r.1.1, with_data mean r.1.2, with_data var r.2).

Definition AdamUpdateEx (p : AdamParam) (weight grad mean var : Array) (req : OpReqType) : result (Array * Array * Array) :=
  check (same_stype mean var) "Inconsistent mean stype and var stype";;
  match grad with
  | Rsp grad =>
      if same_stype mean weight then
        if lazy_update (adam_param p) then AdamLazyUpdateRspImpl p weight grad mean var req
        else AdamStdUpdateRspImpl p weight grad mean var req
      else if is_rsp weight then AdamStdUpdateRspImpl p weight grad mean var req
      else Err (CheckFailed "Not implemented")
  | Dns _ => Err (CheckFailed "Not implemented")
  end.

(** *** FTRL and AdaGrad *)
Definition FtrlUpdateEx (p : FtrlParam) (weight grad z n : Array) (req : OpReqType) : result (Array * Array * Array) :=
  check (same_stype z weight) "Inconsistent storage type detected between z.stype and weight.stype";;
  check (same_stype n weight) "Inconsistent storage type detected between n.stype and weight.stype";;
  match weight, grad with
  | Rsp _, Rsp grad =>
      CheckAllRowsPresent weight;;
      z ← fill_state z;
      n ← fill_state n;
      b ← storage_initialized grad;
      if negb (b : bool) || bool_decide (req = kNullOp) then Ok (weight, z, n) else
      check (bool_decide (req = kWriteInplace)) "kWriteInplace is expected for sparse ftrl_update";;
      check (nonempty (array_data weight) && nonempty (array_data z) && nonempty (array_data n)) "shape_.Size() > 0";;
      cells ← zip_cells (array_data weight) (array_data z);
      cells ← zip_cells cells (array_data n);
      r ← lazy_launch (FtrlDnsRspDnsKernel p) cells grad;
      Ok (with_data weight (map (map (fun c => c.1.1)) r), with_data z (map (map (fun c => c.1.2)) r), with_data n (map (map snd) r))
  | _, _ => Err (CheckFailed "Not implemented")
  end.

Definition AdagradUpdateEx (p : SGDParam) (eps : float) (weight grad state : Array) (req : OpReqType) : result (Array * Array) :=
  match grad with
  | Rsp grad =>
      if negb (same_stype state weight) then Err (CheckFailed "Not implemented") else
      state ← (if is_rsp weight then CheckAllRowsPresent weight;; fill_state state else Ok state);
      check (SFeqb (wd p) f32_zero) "sparse adagrad_update does not support wd.";;
      b ← storage_initialized grad;
      if bool_decide (req = kNullOp) || negb (b : bool) then Ok (weight, state) else
      check (bool_decide (req = kWriteInplace)) "kWriteInplace is expected for sparse adagrad_update";;
      check (nonempty (array_data weight) && nonempty (array_data state)) "shape_.Size() > 0";;
      cells ← zip_cells (array_data weight) (array_data state);
      r ← lazy_launch (AdagradDnsRspDnsKernel p eps) cells grad;
      Ok (with_data weight (map (map fst) r), with_data state (map (map snd) r))
  | Dns _ => Err (CheckFailed "Not implemented")
  end.

(** ** What a launch computes *)

(** Lists made from the positions. *)
Lemma fmap_const_seq {A} (x : A) n : (fun _ => x) <$> seq 0 n = replicate n x.
Proof. generalize 0%nat. induction n as [|n IH]; intros k; [done|]. rewrite <- cons_seq, fmap_cons, IH. done. Qed.

Lemma lookup_fmap_seq {A} (f : nat → A) n i : (i < n)%nat → (f <$> seq 0 n) !! i = Some (f i).
Proof. intros Hi. by rewrite list_lookup_fmap, lookup_seq_lt. Qed.

Lemma insert_fmap_seq {A} (f : nat → A) n k x : (k < n)%nat → <[k := x]> (f <$> seq 0 n) = (fun i => if (i =? k)%nat then x else f i) <$> seq 0 n.
Proof.
  intros Hk. apply list_eq. intros i. destruct (decide (i = k)) as [->|Hne].
  - rewrite list_lookup_insert_eq by (by rewrite length_fmap, length_seq). rewrite list_lookup_fmap, lookup_seq_lt by done. cbn. by rewrite Nat.eqb_refl.
  - rewrite list_lookup_insert_ne, !list_lookup_fmap by done. destruct (seq 0 n !! i) as [j|] eqn:Hj; [|done]. apply lookup_seq in Hj as [-> _]. cbn. by rewrite (proj2 (Nat.eqb_neq _ _)).
Qed.

Lemma lower_bound_elem l x : StronglySorted Z.lt l → l !! lower_bound l x = Some x ↔ x ∈ l.
Proof.
  intros Hs. split; [apply list_elem_of_lookup_2|]. intros [j Hj]%list_elem_of_lookup. assert (¬ (j < lower_bound l x)%nat) as Hge by (intros H; pose proof (lower_bound_before x l j x H Hj); lia).
  destruct (lookup_lt_is_Some_2 l (lower_bound l x)) as [y Hy]; [apply lookup_lt_Some in Hj; lia|]. rewrite Hy. f_equal.
  pose proof (lower_bound_after x l Hs _ y (le_n _) Hy). pose proof (sorted_lookup_lt l Hs _ _ _ _ Hy Hj). destruct (decide (lower_bound l x = j)) as [<-|]; [congruence|lia].
Qed.

Definition grid {A} (n w : nat) (m : list (list A)) : Prop := length m = n ∧ Forall (fun r => length r = w) m.

Lemma grid_row {A} n w (m : list (list A)) i r : grid n w m → m !! i = Some r → length r = w.
Proof. intros [_ H] Hr. exact (Forall_lookup_1 _ _ _ _ H Hr). Qed.

Lemma zip_row_ok {A B} (x : list A) (y : list B) : length x = length y → zip_row x y = Ok (zip x y).
Proof. intros H. unfold zip_row. by rewrite H, Nat.eqb_refl. Qed.

Lemma map_zip {A B D} (f : A → B → D) (x : list A) (y : list B) : map (fun c => f c.1 c.2) (zip x y) = zip_with f x y.
Proof. revert y. induction x as [|a x IH]; intros [|b y]; try done. cbn. by rewrite IH. Qed.

Lemma update_row_ok {C} (upd : C → float → C) c g : length c = length g → update_row upd c g = Ok (zip_with upd c g).
Proof. intros H. unfold update_row. rewrite zip_row_ok by done. rstep. by rewrite map_zip. Qed.

Lemma zip_cells_ok {A B} n w (x : list (list A)) (y : list (list B)) : grid n w x → grid n w y → zip_cells x y = Ok (zip_with zip x y).
Proof.
  intros Hx Hy. unfold zip_cells. apply (for_range_trace (fun k => take k (zip_with zip x y))); [lia|done| |].
  - rewrite take_ge; [done|]. rewrite length_zip_with. lia.
  - intros i Hi. destruct (lookup_lt_is_Some_2 x i) as [r Hr]; [lia|]. destruct (lookup_lt_is_Some_2 y i) as [r' Hr']; [destruct Hx, Hy; lia|].
    rewrite (rd_ok _ _ _ Hr), (rd_ok _ _ _ Hr'). rstep. rewrite zip_row_ok by (by rewrite (grid_row _ _ _ _ _ Hx Hr), (grid_row _ _ _ _ _ Hy Hr')). rstep.
    by rewrite (take_S_r _ _ (zip r r')) by (by rewrite lookup_zip_with, Hr; cbn; rewrite Hr').
Qed.

Lemma zip_cells_grid {A B} n w (x : list (list A)) (y : list (list B)) : grid n w x → grid n w y → grid n w (zip_with zip x y).
Proof.
  intros Hx Hy. split; [rewrite length_zip_with; destruct Hx, Hy; lia|]. apply Forall_lookup. intros i r Hr.
  apply lookup_zip_with_Some in Hr as (a & b & -> & Ha & Hb). rewrite length_zip_with, (grid_row _ _ _ _ _ Hx Ha), (grid_row _ _ _ _ _ Hy Hb). lia.
Qed.

(** The arrays are recovered from the cells. *)
Lemma cells_fst {A B} n w (x : list (list A)) (y : list (list B)) : grid n w x → grid n w y → map (map fst) (zip_with zip x y) = x.
Proof.
  intros Hx Hy. apply list_eq. intros i. rewrite list_lookup_fmap, lookup_zip_with. destruct (x !! i) as [a|] eqn:Ha; [|done]. cbn.
  destruct (lookup_lt_is_Some_2 y i) as [b Hb]; [apply lookup_lt_Some in Ha; destruct Hx, Hy; lia|]. rewrite Hb. cbn. f_equal. apply fst_zip.
  rewrite (grid_row _ _ _ _ _ Hx Ha), (grid_row _ _ _ _ _ Hy Hb). lia.
Qed.
Lemma cells_snd {A B} n w (x : list (list A)) (y : list (list B)) : grid n w x → grid n w y → map (map snd) (zip_with zip x y) = y.
Proof.
  intros Hx Hy. apply list_eq. intros i. rewrite list_lookup_fmap, lookup_zip_with. destruct (y !! i) as [b|] eqn:Hb.
  - destruct (lookup_lt_is_Some_2 x i) as [a Ha]; [apply lookup_lt_Some in Hb; destruct Hx, Hy; lia|]. rewrite Ha. cbn. f_equal. apply snd_zip.
    rewrite (grid_row _ _ _ _ _ Hx Ha), (grid_row _ _ _ _ _ Hy Hb). lia.
  - by destruct (x !! i).
Qed.

(** A loop that replaces row [i] by a function of it, for every [i]. *)
Lemma rows_loop {C} (body : nat → list (list C) → result (list (list C))) (m new : list (list C)) :
  length new = length m → (∀ i cur c r, m !! i = Some c → new !! i = Some r → length cur = length m → cur !! i = Some c → body i cur = wr cur i r) →
  for_range 0 (length m) body m = Ok new.
Proof.
  intros Hl Hb. apply (for_range_trace (sofar new m)); [lia|done|by rewrite sofar_all by lia|]. intros i Hi.
  destruct (lookup_lt_is_Some_2 m i) as [c Hc]; [lia|]. destruct (lookup_lt_is_Some_2 new i) as [r Hr]; [lia|].
  rewrite (Hb i _ c r Hc Hr) by (rewrite ?length_sofar, ?sofar_lookup by lia; done). rewrite wr_ok by (rewrite length_sofar by lia; lia). by rewrite (sofar_step new m i r).
Qed.

Section launches.
Context {C : Type} (n w : nat) (m : list (list C)).
Hypothesis Hm : grid n w m.

Lemma dense_launch_ok (upd : C → float → C) grad : grid n w grad → dense_launch upd m grad = Ok (zip_with (zip_with upd) m grad).
Proof.
  intros Hg. unfold dense_launch. apply rows_loop; [rewrite length_zip_with; destruct Hm, Hg; lia|]. intros i cur c r Hc Hr _ Hcur.
  apply lookup_zip_with_Some in Hr as (c' & g & -> & Hc' & Hgi). rewrite Hc in Hc'. injection Hc' as <-. rewrite (rd_ok _ _ _ Hcur), (rd_ok _ _ _ Hgi). rstep.
  by rewrite update_row_ok by (by rewrite (grid_row _ _ _ _ _ Hm Hc), (grid_row _ _ _ _ _ Hg Hgi)).
Qed.

Context (grad : RowSparse).
Hypothesis Hg : rsp_wf grad.
Hypothesis Hrows : rsp_rows grad = Z.of_nat n.
Hypothesis Hwidth : Forall (fun r => length r = w) (rsp_data grad).

(** The stored row of the gradient for row [i]. *)
Definition grad_row (i : nat) : option (list float) := lookup_row (rsp_idx grad) (rsp_data grad) (Z.of_nat i).

Lemma grad_row_length i g : grad_row i = Some g → length g = w.
Proof. intros (q & _ & Hd)%lookup_row_inv. exact (Forall_lookup_1 _ _ _ _ Hwidth Hd). Qed.

Lemma lazy_launch_ok (upd : C → float → C) :
  lazy_launch upd m grad = Ok (imap (fun i c => match grad_row i with Some g => zip_with upd c g | None => c end) m).
Proof.
  destruct Hg as (Hl & Hs & Hr). unfold lazy_launch.
  apply (for_range_trace (fun k => imap (fun i c => match lookup_row (take k (rsp_idx grad)) (take k (rsp_data grad)) (Z.of_nat i) with Some g => zip_with upd c g | None => c end) m)); [lia| | |].
  - apply list_eq. intros i. rewrite list_lookup_imap. by destruct (m !! i).
  - unfold grad_row. by rewrite !take_ge by lia.
  - intros k Hk. destruct (lookup_lt_is_Some_2 (rsp_idx grad) k) as [x Hx]; [lia|]. destruct (lookup_lt_is_Some_2 (rsp_data grad) k) as [g Hd]; [lia|].
    assert (0 ≤ x < Z.of_nat n) as Hxr by (rewrite <- Hrows; by apply Hr, (list_elem_of_lookup_2 _ k)). destruct (lookup_lt_is_Some_2 m (Z.to_nat x)) as [c Hc]; [destruct Hm; lia|].
    rewrite (rd_ok _ _ _ Hx). rstep. assert (lookup_row (take k (rsp_idx grad)) (take k (rsp_data grad)) x = None) as Hn.
    { apply lookup_row_None. intros Hin. apply list_elem_of_lookup in Hin as [j Hj]. apply lookup_take_Some in Hj as [Hj Hjk].
      pose proof (NoDup_lookup _ _ _ _ (sorted_lt_nodup _ Hs) Hj Hx). lia. }
    rewrite (rdz_ok _ _ c) by (lia || (rewrite list_lookup_imap, Hc; cbn; by rewrite Z2Nat.id, Hn by lia)). rstep. rewrite (rd_ok _ _ _ Hd). rstep.
    rewrite update_row_ok by (by rewrite (grid_row _ _ _ _ _ Hm Hc), (Forall_lookup_1 _ _ _ _ Hwidth Hd)). rstep.
    rewrite wrz_ok by (rewrite length_imap; destruct Hm; lia). f_equal. apply list_eq. intros i. rewrite list_lookup_imap.
    rewrite (take_S_r _ _ _ Hx), (take_S_r _ _ _ Hd). destruct (decide (i = Z.to_nat x)) as [->|Hne].
    + rewrite list_lookup_insert_eq by (rewrite length_imap; destruct Hm; lia). rewrite Hc. cbn. rewrite Z2Nat.id by lia.
      rewrite lookup_row_app by (rewrite !length_take; lia). rewrite Hn. cbn. by rewrite Z.eqb_refl.
    + rewrite list_lookup_insert_ne, list_lookup_imap by done. destruct (m !! i) as [c'|] eqn:Hc'; [|done]. cbn. rewrite lookup_row_app by (rewrite !length_take; lia).
      destruct (lookup_row (take k (rsp_idx grad)) (take k (rsp_data grad)) (Z.of_nat i)); [done|]. cbn [lookup_row]. by rewrite (proj2 (Z.eqb_neq _ _)) by lia.
Qed.

(** Marking the rows of the gradient. *)
Definition row_flag (i : nat) : Z := if bool_decide (Z.of_nat i ∈ rsp_idx grad) then 1 else 0.

Lemma mark_rows_ok :
  for_range 0 (length (rsp_idx grad)) (fun i flags => x ← rd (rsp_idx grad) i; wrz flags x 1) (replicate n 0) = Ok (row_flag <$> seq 0 n).
Proof.
  destruct Hg as (Hl & Hs & Hr).
  apply (for_range_trace (fun k => (fun i => if bool_decide (Z.of_nat i ∈ take k (rsp_idx grad)) then 1 else 0) <$> seq 0 n)); [lia| | |].
  - by rewrite <- fmap_const_seq.
  - by rewrite take_ge by lia.
  - intros k Hk. destruct (lookup_lt_is_Some_2 (rsp_idx grad) k) as [x Hx]; [lia|]. rewrite (rd_ok _ _ _ Hx). rstep.
    assert (0 ≤ x < Z.of_nat n) as Hxr by (rewrite <- Hrows; by apply Hr, (list_elem_of_lookup_2 _ k)). rewrite wrz_ok by (rewrite length_fmap, length_seq; lia). f_equal.
    rewrite (take_S_r _ _ _ Hx), insert_fmap_seq by lia. apply list_fmap_ext. intros j i [-> _]%lookup_seq. rewrite Nat.add_0_l. destruct (Nat.eqb_spec j (Z.to_nat x)) as [->|Hne].
    + rewrite Z2Nat.id by lia. by rewrite bool_decide_eq_true_2 by (apply elem_of_app; right; by apply list_elem_of_singleton).
    + assert (Z.of_nat j ∈ take k (rsp_idx grad) ↔ Z.of_nat j ∈ take k (rsp_idx grad) ++ [x]) as Hiff by (rewrite elem_of_app, list_elem_of_singleton; intuition lia).
      by rewrite (bool_decide_ext _ _ Hiff).
Qed.

(** The rows of the gradient up to row [i]. *)
Definition row_count (i : nat) : Z := Z.of_nat (lower_bound (rsp_idx grad) (Z.of_nat i + 1)).

Lemma row_count_step i : row_count i = (if (i =? 0)%nat then 0 else row_count (i - 1)) + row_flag i.
Proof.
  destruct Hg as (Hl & Hs & Hr). unfold row_count at 1, row_flag. rewrite lower_bound_succ by done. rewrite (bool_decide_ext _ _ (lower_bound_elem _ _ Hs)).
  assert (Z.of_nat (lower_bound (rsp_idx grad) (Z.of_nat i)) = if (i =? 0)%nat then 0 else row_count (i - 1)) as <-.
  { destruct (Nat.eqb_spec i 0) as [->|]; [rewrite lower_bound_none; [done|]; apply Forall_forall; intros x Hx%Hr; lia|]. unfold row_count. do 2 f_equal. lia. }
  case_bool_decide; lia.
Qed.

Lemma row_counts_ok : row_counts n grad = Ok (row_count <$> seq 0 n).
Proof.
  unfold row_counts. destruct (Nat.eqb_spec (length (rsp_idx grad)) 0) as [E|E].
  { apply nil_length_inv in E. unfold row_count. rewrite E. cbn [lower_bound]. by rewrite fmap_const_seq. }
  rewrite mark_rows_ok. rstep. destruct n as [|n']; [done|].
  apply (for_range_trace (fun k => (fun i => if (i <? k)%nat then row_count i else row_flag i) <$> seq 0 (S n'))); [lia| | |].
  - apply list_fmap_ext. intros i x [-> _]%lookup_seq. destruct (Nat.ltb_spec (0 + i) 1); [|done]. replace i with 0%nat by lia. by rewrite row_count_step.
  - apply list_fmap_ext. intros i x [-> Hi]%lookup_seq. by rewrite (proj2 (Nat.ltb_lt _ _)) by lia.
  - intros i Hi. rewrite (rd_ok _ i (row_flag i)) by (rewrite lookup_fmap_seq by lia; by rewrite Nat.ltb_irrefl). rstep.
    rewrite (rd_ok _ (i - 1) (row_count (i - 1))) by (rewrite lookup_fmap_seq by lia; by rewrite (proj2 (Nat.ltb_lt _ _)) by lia). rstep.
    rewrite wr_ok by (rewrite length_fmap, length_seq; lia). rewrite insert_fmap_seq by lia. f_equal. apply list_fmap_ext. intros j x [-> _]%lookup_seq.
    rewrite Nat.add_0_l. destruct (Nat.eqb_spec j i) as [->|Hne].
    + rewrite (proj2 (Nat.ltb_lt i (S i))) by lia. rewrite (row_count_step i), (proj2 (Nat.eqb_neq _ _)) by lia. lia.
    + replace (j <? S i)%nat with (j <? i)%nat; [done|]. apply eq_true_iff_eq. rewrite !Nat.ltb_lt. lia.
Qed.

Lemma std_launch_ok (upd : C → option float → C) :
  std_launch upd m grad = Ok (imap (fun i c => match grad_row i with Some g => zip_with (fun x y => upd x (Some y)) c g | None => (fun x => upd x None) <$> c end) m).
Proof.
  destruct Hg as (Hl & Hs & Hr). unfold std_launch. rewrite (proj1 Hm), row_counts_ok. rstep. rewrite <- (proj1 Hm).
  apply rows_loop; [by rewrite length_imap|]. intros i cur c r Hc Hr' _ Hcur. rewrite list_lookup_imap, Hc in Hr'. injection Hr' as <-.
  pose proof (lookup_lt_Some _ _ _ Hc) as Hi. rewrite (rd_ok _ _ _ Hcur). rstep. rewrite (rd_ok _ i (row_count i)) by (by rewrite lookup_fmap_seq). rstep.
  replace (if (i =? 0)%nat then Ok 0 else rd (row_count <$> seq 0 (length m)) (i - 1)) with (Ok (if (i =? 0)%nat then 0 else row_count (i - 1)) : result Z).
  2:{ destruct (Nat.eqb_spec i 0); [done|]. by rewrite (rd_ok _ _ (row_count (i - 1))) by (rewrite lookup_fmap_seq by lia; done). }
  rstep. set (prev := if (i =? 0)%nat then 0 else row_count (i - 1)). pose proof (row_count_step i) as Hstep. fold prev in Hstep.
  unfold grad_row. rewrite lookup_row_bound by done. unfold row_flag in Hstep. rewrite (bool_decide_ext _ _ (lower_bound_elem _ _ Hs)). case_bool_decide as Hin.
  - rewrite (proj2 (Z.ltb_lt _ _)) by lia. destruct (lookup_lt_is_Some_2 (rsp_data grad) (lower_bound (rsp_idx grad) (Z.of_nat i))) as [g Hgi].
    { rewrite <- Hl. apply (lower_bound_elem _ _ Hs) in Hin. by apply lookup_lt_Some in Hin. }
    assert (row_count i = Z.of_nat (lower_bound (rsp_idx grad) (Z.of_nat i)) + 1) as Hrc.
    { unfold row_count. rewrite lower_bound_succ by done. rewrite bool_decide_eq_true_2 by (by apply lower_bound_elem). lia. }
    rewrite (rdz_ok (rsp_data grad) (row_count i - 1) g) by (rewrite Hrc, Z.add_simpl_r, ?Nat2Z.id; done || lia). rstep. rewrite Hgi.
    rewrite zip_row_ok by (by rewrite (grid_row _ _ _ _ _ Hm Hc), (Forall_lookup_1 _ _ _ _ Hwidth Hgi)). rstep. by rewrite (map_zip (fun x y => upd x (Some y))).
  - rewrite (proj2 (Z.ltb_ge _ _)) by lia. by rstep.
Qed.
End launches.

(** ** Momentum *)

(** Reading the results of an update that also carries the output. *)
Lemma carried_row {A B D D'} (u : A * B → float → D) (u' : B → float → D') (f : D → float) (f' : D' → float) (o : list A) (c : list B) g :
  (∀ o c g, f (u (o, c) g) = f' (u' c g)) → length o = length c → map f (zip_with u (zip o c) g) = map f' (zip_with u' c g).
Proof.
  intros Hu. revert c g. induction o as [|a o IH]; intros [|b c] g Hl; try done. destruct g as [|x g]; [done|]. cbn. by rewrite Hu, (IH c g) by (by injection Hl).
Qed.

Lemma carried {A B D D'} (u : A * B → float → D) (u' : B → float → D') (f : D → float) (f' : D' → float) n w (o : list (list A)) (c : list (list B)) g :
  (∀ o c g, f (u (o, c) g) = f' (u' c g)) → grid n w o → grid n w c →
  map (map f) (zip_with (zip_with u) (zip_with zip o c) g) = map (map f') (zip_with (zip_with u') c g).
Proof.
  intros Hu [<- Ho] [Hc' Hc]. revert c g Hc' Hc. induction Ho as [|a o Ha Ho IH]; intros [|b c] g Hl Hc; try done. destruct g as [|x g]; [done|]. cbn.
  apply Forall_cons in Hc as [Hb Hc]. rewrite (IH c g) by (done || by injection Hl). by rewrite (carried_row u u' f f') by (done || lia).
Qed.

(** An array with all of its rows, and a state, that may still be empty. *)
Definition full (n w : nat) (a : Array) : Prop :=
  grid n w (array_data a) ∧ match a with Rsp r => rsp_rows r = Z.of_nat n | Dns _ => True end.
Definition state_of (n w : nat) (a : Array) (m : matrix) : Prop :=
  grid n w m ∧
  match a with
  | Dns x => x = m
  | Rsp r => rsp_rows r = Z.of_nat n ∧ rsp_width r = w ∧ length (rsp_idx r) = length (rsp_data r) ∧
             m = match rsp_idx r with [] => replicate n (replicate w f32_zero) | _ => rsp_data r end
  end.

Lemma grid_zero n w : grid n w (replicate n (replicate w f32_zero)).
Proof. split; [apply length_replicate|]. apply Forall_replicate. apply length_replicate. Qed.

Lemma storage_initialized_ok r : length (rsp_idx r) = length (rsp_data r) → storage_initialized r = Ok (negb (length (rsp_idx r) =? 0)%nat).
Proof. intros Hl. unfold storage_initialized. by rewrite Hl, Nat.eqb_refl. Qed.

Lemma fill_state_ok n w a m : state_of n w a m → ∃ a', fill_state a = Ok a' ∧ array_data a' = m.
Proof.
  intros [_ H]. destruct a as [x|r]; [by exists (Dns x)|]. destruct H as (Hn & <- & Hl & ->). unfold fill_state. rewrite (storage_initialized_ok _ Hl). rstep. destruct (rsp_idx r) as [|x l]; (eexists; split; [reflexivity|]); [|done]. cbn. by rewrite Hn, Nat2Z.id.
Qed.

Lemma full_present n w a : full n w a → CheckAllRowsPresent a = Ok tt.
Proof. intros [[Hl _] H]. destruct a as [m|r]; [done|]. cbn in *. by rewrite Hl, H, Z.eqb_refl. Qed.

Lemma grid_nonempty n w m : grid n w m → (0 < n)%nat → (0 < w)%nat → nonempty m = true.
Proof.
  intros [Hl Hw] Hn Hp. destruct m as [|r m]; [cbn in Hl; lia|]. apply Forall_cons in Hw as [Hr _]. unfold nonempty. change (mjoin (r :: m)) with (r ++ mjoin m). rewrite length_app, Hr.
  by rewrite (proj2 (Nat.eqb_neq _ 0)) by lia.
Qed.

Section sgd_mom.
Context (p : SGDMomParam) (n w : nat) (weight mom : matrix) (grad : RowSparse).
Hypothesis Hn : (0 < n)%nat.
Hypothesis Hw : (0 < w)%nat.
Hypothesis Hweight : grid n w weight.
Hypothesis Hmom : grid n w mom.
Hypothesis Hgrad : rsp_wf grad.
Hypothesis Hrows : rsp_rows grad = Z.of_nat n.
Hypothesis Hwidth : rsp_width grad = w ∧ Forall (fun r => length r = w) (rsp_data grad).

Definition mom_cells : list (list (float * float)) := zip_with (zip_with (SGDMomKernel p)) (zip_with zip weight mom) (dense grad).

Lemma dense_grid : grid n w (dense grad).
Proof.
  destruct Hwidth as [Hwd Hall]. unfold dense. split; [rewrite length_fmap, length_seq; lia|]. apply Forall_fmap, Forall_forall. intros i _. cbn. unfold row.
  destruct (lookup_row _ _ _) as [g|] eqn:E; cbn; [|by rewrite length_replicate]. exact (grad_row_length w grad Hall i g E).
Qed.

Lemma dense_row i : (i < n)%nat → dense grad !! i = Some (default (replicate w f32_zero) (grad_row grad i)).
Proof. intros Hi. unfold dense. rewrite lookup_fmap_seq by lia. by rewrite <- (proj1 Hwidth). Qed.

Lemma SGDMomUpdate_run : SGDMomUpdate p kWriteInplace weight weight (dense grad) mom = Ok (map (map fst) mom_cells, map (map snd) mom_cells).
Proof.
  unfold SGDMomUpdate, stateful_update. rewrite (zip_cells_ok n w) by done. rstep. pose proof (zip_cells_grid n w _ _ Hweight Hmom) as Hc.
  rewrite (zip_cells_ok n w) by done. rstep. rewrite (dense_launch_ok n w) by (exact dense_grid || by apply zip_cells_grid). rstep.
  unfold mom_cells. rewrite (carried _ (SGDMomKernel p) fst fst n w weight), (carried _ (SGDMomKernel p) (fun c => c.2.2) snd n w weight); try done.
  - intros o c g. cbn. by destruct (SGDMomKernel p c g).
  - intros o c g. cbn. by destruct (SGDMomKernel p c g).
Qed.

(** With all rows updated, missing rows count as zeros. *)
Lemma mom_std_run : SGDMomStdUpdateDnsRspDnsImpl p weight grad mom kWriteInplace = Ok (map (map fst) mom_cells, map (map snd) mom_cells).
Proof.
  unfold SGDMomStdUpdateDnsRspDnsImpl. rewrite bool_decide_eq_false_2, bool_decide_eq_true_2 by done. rewrite (grid_nonempty n w weight), (grid_nonempty n w mom) by done. do 3 chk.
  rewrite (zip_cells_ok n w) by done. rstep. pose proof (zip_cells_grid n w _ _ Hweight Hmom) as Hc. rewrite (storage_initialized_ok _ (proj1 Hgrad)). rstep.
  rewrite (std_launch_ok n w _ Hc grad Hgrad Hrows (proj2 Hwidth)). rstep.
  replace (imap _ (zip_with zip weight mom)) with mom_cells; [done|]. apply list_eq. intros i. unfold mom_cells. rewrite lookup_zip_with, list_lookup_imap.
  destruct (zip_with zip weight mom !! i) as [c|] eqn:Hci; [|done]. cbn. rewrite dense_row by (apply lookup_lt_Some in Hci; destruct Hc; lia). cbn.
  destruct (grad_row grad i); [done|]. cbn. by rewrite zip_with_replicate_r_eq by (by apply (grid_row n w _ i c Hc)).
Qed.

(** The rows of the gradient are taken from [new]. *)
Definition touched (new old : matrix) : matrix := imap (fun i r => if bool_decide (Z.of_nat i ∈ rsp_idx grad) then default r (new !! i) else r) old.

Lemma touched_map (f : float * float → float) (old : matrix) : (∀ i r c, old !! i = Some r → zip_with zip weight mom !! i = Some c → map f c = r) → length old = n →
  map (map f) (imap (fun i c => match grad_row grad i with Some g => zip_with (SGDMomKernel p) c g | None => c end) (zip_with zip weight mom)) = touched (map (map f) mom_cells) old.
Proof.
  intros Hf Hold. pose proof (zip_cells_grid n w _ _ Hweight Hmom) as Hc. apply list_eq. intros i. unfold touched. rewrite list_lookup_fmap, !list_lookup_imap.
  destruct (zip_with zip weight mom !! i) as [c|] eqn:Hci.
  2:{ apply lookup_ge_None in Hci. rewrite (proj2 (lookup_ge_None old i)); [done|]. destruct Hc. lia. }
  pose proof (lookup_lt_Some _ _ _ Hci) as Hi. destruct (lookup_lt_is_Some_2 old i) as [r Hr]; [destruct Hc; lia|]. rewrite Hr. cbn. f_equal.
  rewrite list_lookup_fmap. unfold mom_cells. rewrite lookup_zip_with, Hci. cbn. rewrite dense_row by (destruct Hc; lia). cbn.
  destruct (grad_row grad i) as [g|] eqn:Hg.
  - rewrite bool_decide_eq_true_2; [done|]. apply lookup_row_inv in Hg as (q & Hq & _). by apply list_elem_of_lookup_2 in Hq.
  - rewrite bool_decide_eq_false_2; [by apply (Hf i)|]. intros Hin. destruct (lookup_row_is_Some (rsp_idx grad) (rsp_data grad) _ (proj1 Hgrad) Hin) as [g Hg']. unfold grad_row in Hg. congruence.
Qed.

Lemma mom_lazy_run : SGDMomLazyUpdateDnsRspDnsImpl p weight grad mom kWriteInplace = Ok (touched (map (map fst) mom_cells) weight, touched (map (map snd) mom_cells) mom).
Proof.
  assert (∀ i r c, weight !! i = Some r → zip_with zip weight mom !! i = Some c → map fst c = r) as Hf.
  { intros i r c Hr (a & b & -> & Ha & Hb)%lookup_zip_with_Some. rewrite Hr in Ha. injection Ha as <-. apply fst_zip. by rewrite (grid_row _ _ _ _ _ Hweight Hr), (grid_row _ _ _ _ _ Hmom Hb). }
  assert (∀ i r c, mom !! i = Some r → zip_with zip weight mom !! i = Some c → map snd c = r) as Hf'.
  { intros i r c Hr (a & b & -> & Ha & Hb)%lookup_zip_with_Some. rewrite Hr in Hb. injection Hb as <-. apply snd_zip. by rewrite (grid_row _ _ _ _ _ Hweight Ha), (grid_row _ _ _ _ _ Hmom Hr). }
  unfold SGDMomLazyUpdateDnsRspDnsImpl. rewrite (storage_initialized_ok _ (proj1 Hgrad)). rstep. rewrite (bool_decide_eq_false_2 (kWriteInplace = kNullOp)), orb_false_r by done.
  rewrite negb_involutive. destruct (Nat.eqb_spec (length (rsp_idx grad)) 0) as [E|E].
  { apply nil_length_inv in E. assert (∀ new old, touched new old = old) as Ht; [|by rewrite !Ht]. intros new old. unfold touched. rewrite E. apply list_eq. intros i. rewrite list_lookup_imap.
    by destruct (old !! i). }
  rewrite bool_decide_eq_true_2 by done. rewrite (grid_nonempty n w weight), (grid_nonempty n w mom) by done. do 3 chk. rewrite (zip_cells_ok n w) by done. rstep.
  rewrite (lazy_launch_ok n w _ (zip_cells_grid n w _ _ Hweight Hmom) grad Hgrad Hrows (proj2 Hwidth)). rstep.
  rewrite (touched_map fst weight Hf), (touched_map snd mom Hf'); [done|by destruct Hmom|by destruct Hweight].
Qed.
End sgd_mom.

(** C19: SGD with momentum and a row-sparse gradient.  With [lazy_update] off the operator
    computes, bit for bit, what the dense operator computes on the gradient with its missing
    rows filled with zeros; with [lazy_update] on, the rows the gradient has become the same
    as there and the others, of the weight and of the momentum, keep their values.  The weight is dense
    or has all rows, and a momentum without rows counts as zeros. *)
Theorem sgd_mom_sparse (p : SGDMomParam) (n w : nat) (weight mom : Array) (m : matrix) (grad : RowSparse) :
  (0 < n)%nat → (0 < w)%nat → full n w weight → state_of n w mom m → rsp_wf grad → rsp_rows grad = Z.of_nat n →
  rsp_width grad = w ∧ Forall (fun r => length r = w) (rsp_data grad) → same_stype mom weight = true →
  ∃ W M mom',
    SGDMomUpdate p kWriteInplace (array_data weight) (array_data weight) (dense grad) m = Ok (W, M) ∧ fill_state mom = Ok mom' ∧
    SGDMomUpdateEx p weight (Rsp grad) mom kWriteInplace =
    Ok (if lazy_update (sgd_param p) then (with_data weight (touched grad W (array_data weight)), with_data mom' (touched grad M m))
        else (with_data weight W, with_data mom' M)).
Proof.
  intros Hn Hw Hweight Hmom Hgrad Hrows Hwidth Hst. destruct (fill_state_ok _ _ _ _ Hmom) as (mom' & Hfill & Hdata).
  pose proof (proj1 Hweight) as HW. pose proof (proj1 Hmom) as HM.
  eexists _, _, mom'. split; [by apply (SGDMomUpdate_run p n w)|]. split; [done|]. unfold SGDMomUpdateEx. rewrite Hst. unfold SGDMomUpdateRspImpl.
  rewrite (full_present n w) by done. rstep. rewrite Hfill. rstep. rewrite Hdata. destruct (lazy_update (sgd_param p)).
  - rewrite (mom_lazy_run p n w) by done. by rstep.
  - rewrite (mom_std_run p n w) by done. by rstep.
Qed.

Definition w_sgd (lazy : bool) : SGDMomParam :=
  {| sgd_param := {| lr := f32_of_Z 1; wd := f32_zero; rescale_grad := one; clip_gradient := SFopp one; lazy_update := lazy |}; momentum := f32_of_Z 2 |}.
Definition w_weight : Array := Dns [[f32_of_Z 5; f32_of_Z 6]; [f32_of_Z 7; f32_of_Z 8]; [f32_of_Z 9; f32_of_Z 10]].
Definition w_mom : Array := Dns [[f32_of_Z 1; f32_of_Z 1]; [f32_of_Z 1; f32_of_Z 1]; [f32_of_Z 1; f32_of_Z 1]].
Definition w_sparse : RowSparse := {| rsp_rows := 3; rsp_width := 2; rsp_idx := [1]; rsp_data := [[f32_of_Z 1; f32_of_Z 2]] |}.

Lemma sgd_mom_sparse_witness :
  ∃ W M mom', SGDMomUpdate (w_sgd true) kWriteInplace (array_data w_weight) (array_data w_weight) (dense w_sparse) (array_data w_mom) = Ok (W, M) ∧ fill_state w_mom = Ok mom' ∧
    SGDMomUpdateEx (w_sgd true) w_weight (Rsp w_sparse) w_mom kWriteInplace = Ok (with_data w_weight (touched w_sparse W (array_data w_weight)), with_data mom' (touched w_sparse M (array_data w_mom))).
Proof.
  apply (sgd_mom_sparse (w_sgd true) 3 2 w_weight w_mom (array_data w_mom) w_sparse); try by_decision.
  split; [done|]. split; [repeat constructor|]. intros x [->|Hx]%elem_of_cons; [cbn; lia|by apply not_elem_of_nil in Hx].
Defined.

(** C37: Adam with a row-sparse weight whose moments have no rows yet, as a first update finds
    them: with [lazy_update] the moments are filled with zeros and the update succeeds; without
    it nothing fills them and the operator fails, whatever the gradient. *)
Theorem adam_std_uninitialized (p : AdamParam) (n w : nat) (weight : RowSparse) (grad : RowSparse) (mean var : RowSparse) :
  (0 < n)%nat → (0 < w)%nat → full n w (Rsp weight) → rsp_wf grad → rsp_rows grad = Z.of_nat n →
  Forall (fun r => length r = w) (rsp_data grad) →
  (rsp_rows mean, rsp_width mean, rsp_idx mean, rsp_data mean) = (Z.of_nat n, w, [], []) →
  (rsp_rows var, rsp_width var, rsp_idx var, rsp_data var) = (Z.of_nat n, w, [], []) →
  if lazy_update (adam_param p)
  then is_ok (AdamUpdateEx p (Rsp weight) (Rsp grad) (Rsp mean) (Rsp var) kWriteInplace) = true
  else AdamUpdateEx p (Rsp weight) (Rsp grad) (Rsp mean) (Rsp var) kWriteInplace = Err (CheckFailed "mean.shape_.Size() > 0").
Proof.
  intros Hn Hw Hweight Hgrad Hrows Hwidth Hmean Hvar. injection Hmean as Hmr Hmw Hmi Hmd. injection Hvar as Hvr Hvw Hvi Hvd.
  unfold AdamUpdateEx. cbn [same_stype is_rsp Bool.eqb]. chk. destruct (lazy_update (adam_param p)).
  - unfold AdamLazyUpdateRspImpl. rewrite (full_present n w) by done. rstep.
    assert (∀ r, rsp_rows r = Z.of_nat n → rsp_width r = w → rsp_idx r = [] → rsp_data r = [] → state_of n w (Rsp r) (replicate n (replicate w f32_zero))) as Hst.
    { intros r Hr1 Hr2 Hr3 Hr4. split; [apply grid_zero|]. by rewrite Hr3, Hr4. }
    destruct (fill_state_ok _ _ _ _ (Hst mean Hmr Hmw Hmi Hmd)) as (mean' & -> & Hm'). rstep. destruct (fill_state_ok _ _ _ _ (Hst var Hvr Hvw Hvi Hvd)) as (var' & -> & Hv'). rstep.
    rewrite Hm', Hv'. unfold AdamDnsRspDnsImpl. rewrite (storage_initialized_ok _ (proj1 Hgrad)). rstep. case_match; [done|].
    pose proof (proj1 Hweight) as HW. pose proof (grid_zero n w) as HZ. pose proof (zip_cells_grid n w _ _ HW HZ) as HC.
    rewrite bool_decide_eq_true_2 by done. rewrite (grid_nonempty n w (array_data (Rsp weight))), (grid_nonempty n w (replicate n _)) by done. do 4 chk.
    do 2 (rewrite (zip_cells_ok n w) by done; rstep). by rewrite (lazy_launch_ok n w _ (zip_cells_grid n w _ _ HC HZ) grad Hgrad Hrows Hwidth).
  - unfold AdamStdUpdateRspImpl. rewrite (full_present n w) by done. rstep. unfold AdamDnsRspDnsImpl. rstep. cbn [negb orb]. rewrite bool_decide_eq_false_2, bool_decide_eq_true_2 by done.
    rewrite (grid_nonempty n w (array_data (Rsp weight))) by (done || apply Hweight). do 2 chk. cbn [array_data]. by rewrite Hmd.
Qed.

Definition w_adam : AdamParam := {| adam_param := sgd_param (w_sgd false); beta1 := one; beta2 := one; epsilon := one |}.
Definition w_full : RowSparse := {| rsp_rows := 3; rsp_width := 2; rsp_idx := [0; 1; 2]; rsp_data := array_data w_weight |}.
Definition w_empty : RowSparse := {| rsp_rows := 3; rsp_width := 2; rsp_idx := []; rsp_data := [] |}.

Lemma adam_std_uninitialized_witness :
  AdamUpdateEx w_adam (Rsp w_full) (Rsp w_sparse) (Rsp w_empty) (Rsp w_empty) kWriteInplace = Err (CheckFailed "mean.shape_.Size() > 0").
Proof.
  apply (adam_std_uninitialized w_adam 3 2 w_full w_sparse w_empty w_empty); try by_decision.
  split; [done|]. split; [repeat constructor|]. intros x [->|Hx]%elem_of_cons; [cbn; lia|by apply not_elem_of_nil in Hx].
Defined.
