(* ===== verification/Comm.v ===== *)
(** * Reducing and broadcasting on one machine

    The values of one key on the devices of a machine are added up, and a value is copied
    to all devices.
    Source: [CommCPU] of src/src/kvstore/comm.h, for dense arrays on the CPU; the sum of
    row-sparse arrays is in SparseOps.v.

    The operations that [Reduce] and [Broadcast] push to the engine are run one after the
    other here; EngineSerial.v shows that this is what the engine computes. *)

From Stdlib Require Import SpecFloat.
From S2P Require Import Prelude Floats Sparse Command NDArray SparseOps.
Local Open Scope Z_scope.

(** ** The sum of arrays *)
Section ReduceSum.
Context (d : Z).

(** [in_1 + in_2 + ...], from the left. *)
Definition sum_left (l : list float) : float := match l with [] => f32_zero | x :: l => foldl (dadd d) x l end.

(** [in_0 += in_1 + ... + in_n] for the elements from [offset] on. *)
Definition add_group (in_0 : list float) (ins : list (list float)) (offset size : nat) : result (list float) :=
  for_range offset (offset + size) (fun k in_0 =>
    x ← rd in_0 k;
    ys ← foldM (fun ys l => y ← rd l k; Ok (ys ++ [y])) [] ins;
    wr in_0 k (dadd d x (sum_left ys))) in_0.

(** Four arrays at a time. *)
Fixpoint ReduceSumCPU (in_0 : list float) (dptr : list (list float)) (offset size : nat) : result (list float) :=
  match dptr with
  | [] => Ok in_0
  | [in_1] => add_group in_0 [in_1] offset size
  | [in_1; in_2] => add_group in_0 [in_1; in_2] offset size
  | [in_1; in_2; in_3] => add_group in_0 [in_1; in_2; in_3] offset size
  | in_1 :: in_2 :: in_3 :: in_4 :: dptr =>
      in_0 ← add_group in_0 [in_1; in_2; in_3; in_4] offset size;
      ReduceSumCPU in_0 dptr offset size
  end.

(** Large arrays are cut into tasks; [order] is the order in which the threads do them. *)
Definition ReduceSumCPUImpl (bigarray_bound nthread_reduction : Z) (order : nat → list nat) (in_0 : list float) (dptr : list (list float)) (total : nat)
    : result (list float) :=
  let step := Z.min bigarray_bound (4 * 2 ^ 10) in
  if step =? 0 then Err (Undefined "division by zero")
  else
    let ntask := Z.to_nat ((Z.of_nat total + step - 1) / step) in
    if (Z.of_nat total <? bigarray_bound) || (nthread_reduction <=? 1) then ReduceSumCPU in_0 dptr 0 total
    else
      foldM (fun in_0 j =>
        let begin := Nat.min (j * Z.to_nat step) total in
        let end_ := Nat.min ((j + 1) * Z.to_nat step) total in
        check (negb (j =? ntask - 1)%nat || (end_ =? total)%nat) "Check failed: end == total";;
        ReduceSumCPU in_0 dptr begin (end_ - begin)) in_0 (order ntask).
End ReduceSum.

(** ** Arrays of two storage types

    An array is dense or row-sparse; dense arrays have one dimension here, so that the dense
    form of a row-sparse array has rows of one element. *)
Inductive array := Dns (a : NDArray) | Rsp (r : option nat).
#[export] Instance array_eq_dec : EqDecision array.
Proof. solve_decision. Defined.

Record rsp_chunk := { rc_dtype : Z; rc_array : RowSparse }.
Inductive contents := CDns (c : chunk) | CRsp (c : rsp_chunk).

(** [NDArray(kRowSparseStorage, shape, ctx, true, dtype)] *)
Definition rsp_new (rows : Z) (width : nat) : RowSparse := {| rsp_rows := rows; rsp_width := width; rsp_idx := []; rsp_data := [] |}.

Definition is_rsp (a : array) : bool := match a with Rsp _ => true | Dns _ => false end.
Definition array_none (a : array) : bool := match a with Dns a => is_none a | Rsp r => is_none r end.

Definition contents_dtype (c : contents) : Z := match c with CDns c => ch_dtype c | CRsp c => rc_dtype c end.
Definition contents_shape (c : contents) : Z * nat :=
  match c with CDns c => (Z.of_nat (length (ch_data c)), 1%nat) | CRsp c => (rsp_rows (rc_array c), rsp_width (rc_array c)) end.

(** ** The communicator *)
Record BufferEntry := {
  be_shape : Z * nat;                     (* [merged.shape()] *)
  be_dtype : Z;
  be_merged : NDArray;
  be_copy_buf : list array;
  be_sparse_merged : option nat
}.
Definition no_entry : BufferEntry := {| be_shape := (0, 0%nat); be_dtype := 0; be_merged := None; be_copy_buf := []; be_sparse_merged := None |}.

Record CommCPU := {
  c_heap : heap;
  c_rsp : gmap nat rsp_chunk;             (* the row-sparse arrays *)
  c_next : nat;
  merge_buf_ : gmap Z BufferEntry
}.
Definition set_c_heap (h : heap) (c : CommCPU) : CommCPU := {| c_heap := h; c_rsp := c_rsp c; c_next := c_next c; merge_buf_ := merge_buf_ c |}.
Definition set_c_rsp (r : nat) (x : rsp_chunk) (c : CommCPU) : CommCPU := {| c_heap := c_heap c; c_rsp := <[r := x]> (c_rsp c); c_next := c_next c; merge_buf_ := merge_buf_ c |}.
Definition set_c_entry (key : Z) (e : BufferEntry) (c : CommCPU) : CommCPU :=
  {| c_heap := c_heap c; c_rsp := c_rsp c; c_next := c_next c; merge_buf_ := <[key := e]> (merge_buf_ c) |}.

Definition c_on_heap (f : heap → result heap) : st CommCPU unit := fun c => h ← f (c_heap c); Ok (tt, set_c_heap h c).
Definition c_new (size : nat) (dtype : Z) : st CommCPU NDArray := fun c => let '(a, h) := new_array (c_heap c) size dtype in Ok (a, set_c_heap h c).
Definition c_new_rsp (rows : Z) (width : nat) (dtype : Z) : st CommCPU (option nat) := fun c =>
  Ok (Some (c_next c), {| c_heap := c_heap c; c_rsp := <[c_next c := {| rc_dtype := dtype; rc_array := rsp_new rows width |}]> (c_rsp c); c_next := S (c_next c); merge_buf_ := merge_buf_ c |}).
Definition rsp_of (c : CommCPU) (r : option nat) : result rsp_chunk :=
  n ← of_option (Undefined "use of an empty NDArray") r; of_option (Undefined "dangling array") (c_rsp c !! n).
Definition c_read (a : array) : st CommCPU contents := fun c =>
  x ← match a with Dns a => CDns <$> deref (c_heap c) a | Rsp r => CRsp <$> rsp_of c r end; Ok (x, c).
Definition c_write_rsp (r : option nat) (x : rsp_chunk) : st CommCPU unit := n ← lift (of_option (Undefined "use of an empty NDArray") r); modify (set_c_rsp n x).

(** [CopyFromTo]: between storage types the array is converted. *)
Definition copy (from to : array) : st CommCPU unit :=
  if bool_decide (from = to) && negb (array_none from) then mret tt
  else
    f ← c_read from;
    t ← c_read to;
    ensure (bool_decide (contents_shape f = contents_shape t)) "operands shape mismatch";;
    match f, t, from, to with
    | CDns _, CDns _, Dns a, Dns b => c_on_heap (fun h => CopyFromTo h a b)
    | CRsp x, CRsp y, _, Rsp b => c_write_rsp b {| rc_dtype := rc_dtype y; rc_array := rsp_copy (rc_dtype y) (rc_array x) |}
    | CDns x, CRsp y, _, Rsp b =>
        ensure (ch_dtype x =? rc_dtype y) "TBlob.get_with_shape: data type do not match specified type";;
        r ← lift (CastStorageDnsRspImpl 1 (map (fun e => [e]) (ch_data x)));
        c_write_rsp b {| rc_dtype := rc_dtype y; rc_array := r |}
    | CRsp x, CDns y, _, Dns b =>
        ensure (rc_dtype x =? ch_dtype y) "TBlob.get_with_shape: data type do not match specified type";;
        l ← lift (CastStorageRspDnsImpl (rc_array x));
        c_on_heap (fun h => store_data h b (mjoin l))
    | _, _, _, _ => fail (Undefined "dangling array")
    end.

Section Communicator.
Context (bigarray_bound nthread_reduction : Z) (order : nat → list nat).
Context (is_serial_push_ : bool) (max_threads : nat).    (* [omp_get_max_threads()] *)

(** [merge_buf_[key]]: an entry that is not there is made. *)
Definition get_entry (key : Z) : st CommCPU BufferEntry :=
  e ← gets (fun c => default no_entry (merge_buf_ c !! key));
  modify (set_c_entry key e);;
  mret e.

(** The storage of the buffer is allocated when it is first used; its contents are not
    initialised either way. *)
Definition Comm_Init (key : Z) (shape : Z * nat) (dtype : Z) : st CommCPU unit :=
  e ← get_entry key;
  a ← c_new (Z.to_nat (shape.1 * Z.of_nat shape.2)) dtype;
  modify (set_c_entry key {| be_shape := shape; be_dtype := dtype; be_merged := a; be_copy_buf := be_copy_buf e; be_sparse_merged := be_sparse_merged e |}).

(** [merged_buf(kRowSparseStorage)] *)
Definition sparse_merged_buf (key : Z) (e : BufferEntry) : st CommCPU (option nat) :=
  match be_sparse_merged e with
  | Some r => mret (Some r)
  | None =>
      ensure (negb (is_none (be_merged e))) "Check failed: !merged.is_none()";;
      r ← c_new_rsp (be_shape e).1 (be_shape e).2 (be_dtype e);
      modify (set_c_entry key {| be_shape := be_shape e; be_dtype := be_dtype e; be_merged := be_merged e; be_copy_buf := be_copy_buf e; be_sparse_merged := r |});;
      mret r
  end.

(** The copy buffers, made when they are first needed. *)
Fixpoint new_bufs (n : nat) (like : contents) : st CommCPU (list array) :=
  match n with
  | O => mret []
  | S n =>
      a ← match like with
          | CDns c => a ← c_new (length (ch_data c)) (ch_dtype c); mret (Dns a)
          | CRsp c => r ← c_new_rsp (rsp_rows (rc_array c)) (rsp_width (rc_array c)) (rc_dtype c); mret (Rsp r)
          end;
      l ← new_bufs n like;
      mret (a :: l)
  end.
Definition copy_bufs (key : Z) (n : nat) (like : contents) : st CommCPU (list array) :=
  e ← get_entry key;
  if (length (be_copy_buf e) =? 0)%nat then
    l ← new_bufs n like;
    modify (set_c_entry key {| be_shape := be_shape e; be_dtype := be_dtype e; be_merged := be_merged e; be_copy_buf := l; be_sparse_merged := be_sparse_merged e |});;
    mret l
  else mret (be_copy_buf e).

(** The data of the arrays a sum reads. *)
Definition dense_data (dtype : Z) (l : list array) : st CommCPU (list (list float)) := fun c =>
  r ← foldM (fun acc a =>
        match a with
        | Dns a => x ← deref (c_heap c) a; check (ch_dtype x =? dtype) "TBlob.get_with_shape: data type do not match specified type";; Ok (acc ++ [ch_data x])
        | Rsp _ => Err (Undefined "use of an empty NDArray")
        end) [] l;
  Ok (r, c).
Definition rsp_arrays (dtype : Z) (l : list array) : st CommCPU (list RowSparse) := fun c =>
  r ← foldM (fun acc a =>
        match a with
        | Rsp r =>
            x ← rsp_of c r;
            check ((length (rsp_idx (rc_array x)) =? 0)%nat || (rc_dtype x =? dtype)) "TBlob.get_with_shape: data type do not match specified type";;
            Ok (acc ++ [rc_array x])
        | Dns _ => Err (Undefined "use of an empty NDArray")
        end) [] l;
  Ok (r, c).

(** [ReduceSumCPU(reduce)] *)
Definition reduce_dense (merged : NDArray) (rest : list array) : st CommCPU unit := fun c =>
  (x ← lift (deref (c_heap c) merged);
   rest ← dense_data (ch_dtype x) rest;
   sum ← lift (ReduceSumCPUImpl (ch_dtype x) bigarray_bound nthread_reduction order (ch_data x) rest (length (ch_data x)));
   c_on_heap (fun h => store_data h merged sum)) c.

Definition reduce_sparse (merged : option nat) (l : list array) : st CommCPU unit := fun c =>
  (out ← lift (rsp_of c merged);
   ins ← rsp_arrays (rc_dtype out) l;
   sum ← lift (if is_serial_push_ then ReduceSumCPUExSerial (rc_dtype out) (rsp_rows (rc_array out)) (rsp_width (rc_array out)) ins
               else ElementwiseSumRsp (rc_dtype out) max_threads (order max_threads) ins (rc_array out));
   c_write_rsp merged {| rc_dtype := rc_dtype out; rc_array := sum |}) c.

(** A source goes to the buffer of its index. *)
Definition copy_in (src bufs : list array) (i j : nat) : st CommCPU unit := s ← lift (rd src i); b ← lift (rd bufs j); copy s b.

Definition Reduce (key : Z) (src : list array) : st CommCPU array :=
  e ← get_entry key;
  src0 ← lift (rd src 0);
  if (length src =? 1)%nat then
    if is_rsp src0 then
      m ← sparse_merged_buf key e;
      copy src0 (Rsp m);;
      mret (Rsp m)
    else mret src0
  else if is_rsp src0 then
    m ← sparse_merged_buf key e;
    x ← c_read src0;
    bufs ← copy_bufs key (length src) x;
    b0 ← lift (rd bufs 0);
    ensure (is_rsp b0) "Storage type mismatch detected";;
    for_each (fun i => copy_in src bufs i i) (seq 0 (length src));;
    reduce_sparse m (take (length src) bufs);;
    mret (Rsp m)
  else
    copy src0 (Dns (be_merged e));;
    x ← c_read src0;
    bufs ← copy_bufs key (length src - 1) x;
    b0 ← lift (rd bufs 0);
    ensure (negb (is_rsp b0)) "Storage type mismatch detected";;
    for_each (fun i => copy_in src bufs i (i - 1)) (seq 1 (length src - 1));;
    reduce_dense (be_merged e) (take (length src - 1) bufs);;
    mret (Dns (be_merged e)).

(** A source on a device is first copied to the buffer on the CPU. *)
Definition Broadcast (on_cpu : bool) (key : Z) (src : array) (dst : list array) : st CommCPU unit :=
  if on_cpu then for_each (copy src) dst
  else
    e ← get_entry key;
    buf ← (if is_rsp src then r ← sparse_merged_buf key e; mret (Rsp r) else mret (Dns (be_merged e)));
    copy src buf;;
    for_each (copy buf) dst.

(** The rows are written to the destination, or to a new array that is then copied when the
    destination is the source. *)
Definition BroadcastRowSparse (src : array) (dst : list (array * list Z)) : st CommCPU unit :=
  ensure (is_rsp src) "BroadcastRowSparse expects row-sparse src NDArray";;
  for_each (fun '(out, row_id) =>
    ensure (is_rsp out) "BroadcastRowSparse expects row_sparse dst NDArray";;
    x ← c_read src;
    match x, out with
    | CRsp x, Rsp o =>
        y ← c_read out;
        ensure (contents_dtype y =? rc_dtype x) "TBlob.get_with_shape: data type do not match specified type";;
        r ← lift (SparseRetainOpForwardRspImpl (rc_array x) row_id);
        if ((contents_shape y).2 =? rsp_width r)%nat then
          c_write_rsp o {| rc_dtype := rc_dtype x;
                           rc_array := {| rsp_rows := (contents_shape y).1; rsp_width := rsp_width r; rsp_idx := rsp_idx r; rsp_data := rsp_data r |} |}
        else fail (Undefined "write out of range")
    | _, _ => fail (Undefined "dangling array")
    end) dst.
End Communicator.

(** ** The blocked sum is the sum of each element *)

(** The elements [lo] to [hi - 1] of [l] changed. *)
Definition on_range (lo hi : nat) (f : nat → float → float) (l : list float) : list float :=
  imap (fun k x => if ((lo <=? k) && (k <? hi))%nat then f k x else x) l.

Lemma imap_update (P Q : nat → bool) (f : nat → float → float) (l : list float) i x :
  l !! i = Some x → P i = false → Q i = true → (∀ k, k ≠ i → P k = Q k) →
  <[i := f i x]> (imap (fun k x => if P k then f k x else x) l) = imap (fun k x => if Q k then f k x else x) l.
Proof.
  intros Hx Hp Hq Hpq. apply list_eq. intros k. destruct (decide (k = i)) as [->|Hne].
  - rewrite list_lookup_insert_eq by (rewrite length_imap; by eapply lookup_lt_Some). rewrite list_lookup_imap, Hx. cbn. by rewrite Hq.
  - rewrite list_lookup_insert_ne by done. rewrite !list_lookup_imap. destruct (l !! k) as [y|]; [|done]. cbn. by rewrite Hpq.
Qed.

(** The elements at position [k]. *)
Definition column (ls : list (list float)) (k : nat) : list float := omap (fun l => l !! k) ls.

Lemma column_read ls k : Forall (fun l => (k < length l)%nat) ls → ∀ acc,
  foldM (fun ys l => y ← rd l k; Ok (ys ++ [y])) acc ls = Ok (acc ++ column ls k).
Proof.
  induction 1 as [|l ls Hl _ IH]; intros acc; cbn; [by rewrite app_nil_r|]. destruct (lookup_lt_is_Some_2 l k Hl) as [y Hy].
  rewrite (rd_ok _ _ _ Hy). rstep. rewrite IH, Hy. by rewrite <- (assoc_L (++)).
Qed.

Section SumProof.
Context (d : Z).

Lemma add_group_spec in_0 ins offset size :
  (offset + size ≤ length in_0)%nat → Forall (fun l => (offset + size ≤ length l)%nat) ins →
  add_group d in_0 ins offset size = Ok (on_range offset (offset + size) (fun k x => dadd d x (sum_left d (column ins k))) in_0).
Proof.
  intros Hin Hins. unfold add_group. set (f := fun k x => dadd d x (sum_left d (column ins k))).
  apply (for_range_trace (fun i => on_range offset i f in_0)); [lia| |done|].
  - symmetry. unfold on_range. transitivity (imap (fun _ x => x) in_0); [|apply list_eq; intros k; rewrite list_lookup_imap; by destruct (in_0 !! k)].
    apply imap_ext. intros k x _. cbv beta. destruct (Nat.leb_spec offset k), (Nat.ltb_spec k offset); done || lia.
  - intros i Hi. destruct (lookup_lt_is_Some_2 in_0 i) as [x Hx]; [lia|].
    assert (on_range offset i f in_0 !! i = Some x) as E.
    { unfold on_range. rewrite list_lookup_imap, Hx. cbn [fmap option_fmap option_map]. by rewrite (proj2 (Nat.ltb_ge i i)), andb_false_r by lia. }
    rewrite (rd_ok _ _ _ E). rstep. rewrite column_read by (eapply Forall_impl; [done|cbn; lia]). rstep.
    rewrite wr_ok by (eapply lookup_lt_Some; exact E). f_equal. change (dadd d x _) with (f i x).
    apply (imap_update (fun k => ((offset <=? k) && (k <? i))%nat) (fun k => ((offset <=? k) && (k <? S i))%nat)); [done|..].
    + by rewrite (proj2 (Nat.ltb_ge i i)), andb_false_r by lia.
    + by rewrite (proj2 (Nat.leb_le _ _)), (proj2 (Nat.ltb_lt _ _)) by lia.
    + intros k Hk. cbv beta. f_equal. destruct (Nat.ltb_spec k i), (Nat.ltb_spec k (S i)); done || lia.
Qed.

(** The sum of one element over the arrays: four at a time. *)
Fixpoint sum4 (x : float) (ys : list float) : float :=
  match ys with
  | a :: b :: c :: e :: ys => sum4 (dadd d x (sum_left d [a; b; c; e])) ys
  | [] => x
  | ys => dadd d x (sum_left d ys)
  end.

Lemma on_range_compose lo hi f g l : on_range lo hi g (on_range lo hi f l) = on_range lo hi (fun k x => g k (f k x)) l.
Proof.
  apply list_eq. intros k. unfold on_range. rewrite !list_lookup_imap. destruct (l !! k) as [x|]; [|done]. cbn [fmap option_fmap option_map].
  by destruct (_ && _).
Qed.
Lemma on_range_ext lo hi f g l : (∀ k x, (lo ≤ k < hi)%nat → f k x = g k x) → on_range lo hi f l = on_range lo hi g l.
Proof.
  intros H. apply imap_ext. intros k x _. cbv beta. destruct (Nat.leb_spec lo k), (Nat.ltb_spec k hi); try done. by apply H.
Qed.
Lemma length_on_range lo hi f l : length (on_range lo hi f l) = length l.
Proof. apply length_imap. Qed.

Lemma length_column ls k : Forall (fun l => (k < length l)%nat) ls → length (column ls k) = length ls.
Proof.
  induction 1 as [|l ls Hl _ IH]; [done|]. destruct (lookup_lt_is_Some_2 l k Hl) as [y Hy]. unfold column in *. cbn. rewrite Hy. cbn. by rewrite IH.
Qed.
Lemma column_in_range ls offset size k : Forall (fun l => (offset + size ≤ length l)%nat) ls → (offset ≤ k < offset + size)%nat → length (column ls k) = length ls.
Proof. intros H Hk. apply length_column. eapply Forall_impl; [done|]. cbn. lia. Qed.
Lemma sum4_small x ys : (1 ≤ length ys ≤ 3)%nat → sum4 x ys = dadd d x (sum_left d ys).
Proof. destruct ys as [|a [|b [|c [|e ys]]]]; cbn; done || lia. Qed.
Lemma sum4_app x ys zs : length ys = 4%nat → sum4 x (ys ++ zs) = sum4 (dadd d x (sum_left d ys)) zs.
Proof. by destruct ys as [|a [|b [|c [|e [|? ?]]]]]. Qed.

Lemma ReduceSumCPU_spec offset size : ∀ n dptr in_0, (length dptr ≤ n)%nat →
  (offset + size ≤ length in_0)%nat → Forall (fun l => (offset + size ≤ length l)%nat) dptr →
  ReduceSumCPU d in_0 dptr offset size = Ok (on_range offset (offset + size) (fun k x => sum4 x (column dptr k)) in_0).
Proof.
  assert (∀ dptr in_0, (1 ≤ length dptr ≤ 3)%nat → (offset + size ≤ length in_0)%nat → Forall (fun l => (offset + size ≤ length l)%nat) dptr →
    add_group d in_0 dptr offset size = Ok (on_range offset (offset + size) (fun k x => sum4 x (column dptr k)) in_0)) as Hsmall.
  { intros dptr in_0 Hl Hin Hd. rewrite add_group_spec by done. f_equal. apply on_range_ext. intros k x Hk. symmetry. apply sum4_small. by rewrite (column_in_range _ offset size). }
  induction n as [|n IH]; intros dptr in_0 Hn Hin Hd.
  { destruct dptr; [|cbn in Hn; lia]. cbn. f_equal. apply list_eq. intros k. unfold on_range. rewrite list_lookup_imap. destruct (in_0 !! k); [|done]. cbn [fmap option_fmap option_map]. by destruct (_ && _). }
  destruct dptr as [|a [|b [|c [|e dptr]]]]; [apply (IH [] in_0); [cbn; lia|done|done]|apply Hsmall; [cbn; lia|done|done]..|].
  cbn [ReduceSumCPU]. change (a :: b :: c :: e :: dptr) with ([a; b; c; e] ++ dptr) in *. apply Forall_app in Hd as [H4 Hd]. rewrite add_group_spec by done. rstep.
  rewrite IH by (done || (rewrite length_app in Hn; cbn in Hn; lia) || by rewrite length_on_range). rewrite on_range_compose. f_equal. apply on_range_ext. intros k x Hk.
  unfold column. rewrite omap_app. symmetry. apply sum4_app. by apply (column_in_range [a; b; c; e] offset size).
Qed.

(** Every task adds the elements of its own block. *)
Lemma task_range step j total k : (0 < step)%nat → (k < total)%nat →
  (((Nat.min (j * step) total <=? k) && (k <? Nat.min (j * step) total + (Nat.min ((j + 1) * step) total - Nat.min (j * step) total)))%nat = bool_decide ((k / step)%nat = j)).
Proof.
  intros Hs Hk. pose proof (Nat.div_mod_eq k step). pose proof (Nat.mod_upper_bound k step ltac:(lia)).
  destruct (bool_decide_reflect ((k / step)%nat = j)) as [<-|Hne].
  - rewrite (proj2 (Nat.leb_le _ _)), (proj2 (Nat.ltb_lt _ _)) by nia. done.
  - destruct (Nat.leb_spec (Nat.min (j * step) total) k), (Nat.ltb_spec k (Nat.min (j * step) total + (Nat.min ((j + 1) * step) total - Nat.min (j * step) total))); try done. nia.
Qed.

Lemma tasks_spec step order dptr in_0 total : (0 < step)%nat → length in_0 = total → Forall (fun l => length l = total) dptr →
  NoDup order →
  foldM (fun in_0 j => ReduceSumCPU d in_0 dptr (Nat.min (j * step) total) (Nat.min ((j + 1) * step) total - Nat.min (j * step) total)) in_0 order =
    Ok (imap (fun k x => if bool_decide ((k / step)%nat ∈ order) then sum4 x (column dptr k) else x) in_0).
Proof.
  intros Hs Hin Hd Hnd. pose (g i := imap (fun k x => if bool_decide ((k / step)%nat ∈ take i order) then sum4 x (column dptr k) else x) in_0).
  assert (in_0 = g 0%nat) as E0.
  { apply list_eq. intros k. unfold g. rewrite list_lookup_imap. by destruct (in_0 !! k). }
  rewrite E0 at 1. rewrite (foldM_trace g); [unfold g; by rewrite take_ge by lia|]. intros i j Hj.
  rewrite (ReduceSumCPU_spec _ _ (length dptr)) by (done || (unfold g; rewrite length_imap; lia) || (eapply Forall_impl; [done|cbn; lia])).
  f_equal. apply list_eq. intros k. unfold on_range, g. rewrite !list_lookup_imap. destruct (in_0 !! k) as [x|] eqn:Hx; [|done]. cbn [fmap option_fmap option_map]. f_equal.
  rewrite task_range by (done || (rewrite <- Hin; by eapply lookup_lt_Some)). rewrite (take_S_r _ _ _ Hj).
  destruct (bool_decide_reflect ((k / step)%nat = j)) as [<-|Hne].
  - rewrite bool_decide_eq_false_2, bool_decide_eq_true_2; [done|set_solver|]. intros (i' & Hi' & Hlt)%elem_of_take. pose proof (NoDup_lookup _ _ _ _ Hnd Hj Hi'). lia.
  - destruct (bool_decide_reflect ((k / step)%nat ∈ take i order)); [rewrite bool_decide_eq_true_2 by set_solver|rewrite bool_decide_eq_false_2 by set_solver]; done.
Qed.

(** The sum over the devices does not depend on how the array is cut.  For every bound,
    every number of threads and every order in which the tasks run, [ReduceSumCPUImpl] gives
    at each position the sum of the elements at that position, and no task is out of
    range. *)
Lemma ReduceSumCPUImpl_ok bigarray_bound nthread_reduction (order : nat → list nat) (in_0 : list float) (dptr : list (list float)) :
  0 < bigarray_bound → (∀ n, order n ≡ₚ seq 0 n) → Forall (fun l => length l = length in_0) dptr →
  ReduceSumCPUImpl d bigarray_bound nthread_reduction order in_0 dptr (length in_0) = Ok (imap (fun k x => sum4 x (column dptr k)) in_0).
Proof.
  intros Hb Ho Hd. unfold ReduceSumCPUImpl. set (step := Z.min bigarray_bound (4 * 2 ^ 10)). assert (0 < step) as Hstep by lia. clearbody step. rewrite (proj2 (Z.eqb_neq _ _)) by lia.
  set (total := length in_0). set (ntask := Z.to_nat ((Z.of_nat total + step - 1) / step)). destruct ((Z.of_nat total <? bigarray_bound) || (nthread_reduction <=? 1)).
  - rewrite (ReduceSumCPU_spec _ _ (length dptr)) by (done || (eapply Forall_impl; [done|cbn; lia])). f_equal. apply imap_ext. intros k x Hx%lookup_lt_Some. cbv beta.
    by rewrite (proj2 (Nat.leb_le _ _)), (proj2 (Nat.ltb_lt _ _)) by lia.
  - assert (0 < Z.to_nat step)%nat as Hs by lia. assert (total ≤ ntask * Z.to_nat step)%nat as Hn.
    { pose proof (Z.div_mod (Z.of_nat total + step - 1) step ltac:(lia)). pose proof (Z.mod_pos_bound (Z.of_nat total + step - 1) step ltac:(lia)). subst ntask. set (q := _ / step) in *.
      assert (0 ≤ q) by (apply Z.div_pos; lia). replace (Z.to_nat q * Z.to_nat step)%nat with (Z.to_nat (q * step)) by (by rewrite Z2Nat.inj_mul by lia). lia. }
    rewrite (foldM_ext _ (fun in_0 j => ReduceSumCPU d in_0 dptr (Nat.min (j * Z.to_nat step) total) (Nat.min ((j + 1) * Z.to_nat step) total - Nat.min (j * Z.to_nat step) total))).
    2:{ intros b j Hj. rewrite check_bind_ok; [done|]. rewrite (Ho ntask), elem_of_seq in Hj. destruct (Nat.eqb_spec j (ntask - 1)) as [->|]; [|done]. apply Nat.eqb_eq.
        replace (ntask - 1 + 1)%nat with ntask by lia. lia. }
    rewrite tasks_spec by (done || (rewrite (Ho ntask); apply NoDup_seq)). f_equal. apply imap_ext. intros k x Hx%lookup_lt_Some. cbv beta.
    rewrite bool_decide_eq_true_2; [done|]. rewrite (Ho ntask), elem_of_seq. split; [lia|]. apply Nat.Div0.div_lt_upper_bound. fold total in Hx. lia.
Qed.
End SumProof.
