(* ===== verification/KVStoreLocal.v ===== *)
(** * The key-value store of one machine

    Source: [KVStoreLocal] of src/src/kvstore/kvstore_local.h with [UniqueImpl] of
    src/src/kvstore/kvstore_utils.cc, on top of [CommCPU] (Comm.v).

    Keys are integers, or strings that are numbered in the order of their
    initialisation.  The store keeps one array per key; a push adds up the arrays given for
    a key and hands the sum to the optimizer, a pull copies the array out.  Arrays are
    handles (NDArray.v), so sharing between the store, its buffers and the caller's arrays
    is visible.  All arrays are on the CPU, and the engine runs the operations in the
    order in which they are pushed (EngineSerial.v). *)

From Stdlib Require Import SpecFloat.
From stdpp Require Import sorting.
From S2P Require Import Prelude StdAlgo Floats Sparse Command NDArray SparseOps Comm.
Local Open Scope Z_scope.

Inductive KeyType := kUndefinedKey | kStringKey | kIntKey.
#[export] Instance KeyType_eq_dec : EqDecision KeyType.
Proof. solve_decision. Defined.

Record KVStoreLocal := {
  comm_ : CommCPU;
  local_ : gmap Z array;
  str_key_dict_ : gmap string Z;
  reverse_str_key_dict_ : gmap Z string;
  next_str_key_ : Z;
  warnings_printed_ : gset Z;
  key_type_ : KeyType
}.
Abbreviation lst := (st KVStoreLocal).

Definition Local_eta (s : KVStoreLocal) : KVStoreLocal :=
  {| comm_ := comm_ s; local_ := local_ s; str_key_dict_ := str_key_dict_ s; reverse_str_key_dict_ := reverse_str_key_dict_ s;
     next_str_key_ := next_str_key_ s; warnings_printed_ := warnings_printed_ s; key_type_ := key_type_ s |}.
Definition set_comm (c : CommCPU) (s : KVStoreLocal) : KVStoreLocal := ltac:(set_field (Local_eta s) (comm_ s) c).
Definition set_local (m : gmap Z array) (s : KVStoreLocal) : KVStoreLocal := ltac:(set_field (Local_eta s) (local_ s) m).
Definition set_warnings (w : gset Z) (s : KVStoreLocal) : KVStoreLocal := ltac:(set_field (Local_eta s) (warnings_printed_ s) w).
Definition set_key_type (t : KeyType) (s : KVStoreLocal) : KVStoreLocal := ltac:(set_field (Local_eta s) (key_type_ s) t).
Definition add_str_key (name : string) (s : KVStoreLocal) : KVStoreLocal :=
  {| comm_ := comm_ s; local_ := local_ s; str_key_dict_ := <[name := next_str_key_ s]> (str_key_dict_ s);
     reverse_str_key_dict_ := <[next_str_key_ s := name]> (reverse_str_key_dict_ s);
     next_str_key_ := next_str_key_ s + 1; warnings_printed_ := warnings_printed_ s; key_type_ := key_type_ s |}.

Definition on_comm {A} (m : st CommCPU A) : lst A := fun s => r ← m (comm_ s); Ok (r.1, set_comm r.2 s).

(** ** Grouping the values of a call by key *)
Section Group.
Context {V : Type} (sort : list (Z * nat) → list (Z * nat)).   (* [std::sort] by the first component *)

Definition push_last (groups : list (list V)) (v : V) : result (list (list V)) :=
  match last groups with
  | Some g => Ok (take (length groups - 1) groups ++ [g ++ [v]])
  | None => Err (Undefined "back of an empty vector")
  end.

Definition group_step (is_valid : Z → V → lst bool) (values : list V) (acc : list Z * list (list V) * Z) (i : Z * nat) : lst (list Z * list (list V) * Z) :=
  let '(uniq_keys, grouped_vals, pre_key) := acc in
  v ← lift (rd values i.2);
  b ← is_valid i.1 v;
  if b : bool then
    if negb (i.1 =? pre_key) then mret (uniq_keys ++ [i.1], grouped_vals ++ [[v]], i.1)
    else
      g ← lift (push_last grouped_vals v);
      mret (uniq_keys, g, pre_key)
  else mret acc.

Definition GroupKVPairs (keys : list Z) (values : list V) (is_valid : Z → V → lst bool) : lst (list Z * list (list V)) :=
  ensure (length keys =? length values)%nat "Check failed: keys.size() == values.size()";;
  let idx := sort (zip keys (seq 0 (length keys))) in
  first ← lift (rd idx 0);
  pre_key ← lift (int_range (first.1 - 1));
  r ← fold_st (group_step is_valid values) ([], [], pre_key) idx;
  mret r.1.
End Group.

Definition push_valid (ignore_sparse : bool) (key : Z) (nd : array) : lst bool :=
  ensure (negb ignore_sparse) "Cannot ignore sparse arrays for push";;
  mret true.                              (* the array is dense or row-sparse *)
Definition GroupKVPairsPush sort (keys : list Z) (values : list array) (ignore_sparse : bool) : lst (list Z * list (list array)) :=
  GroupKVPairs sort keys values (push_valid ignore_sparse).

Definition pull_valid (ignore_sparse : bool) (key : Z) (nd : array) : lst bool :=
  if negb (is_rsp nd) || negb ignore_sparse then mret true
  else
    w ← gets warnings_printed_;
    when (negb (bool_decide (key ∈ w))) (modify (set_warnings (w ∪ {[key]})));;
    mret false.
Definition GroupKVPairsPull sort (keys : list Z) (values : list array) (ignore_sparse : bool) : lst (list Z * list (list array)) :=
  GroupKVPairs sort keys values (pull_valid ignore_sparse).

Definition pull_rsp_valid (ignore_sparse : bool) (key : Z) (val_rowid : array * list Z) : lst bool :=
  ensure (negb ignore_sparse) "Cannot ignore sparse arrays in row_sparse_pull";;
  ensure (is_rsp val_rowid.1) "Expected row_sparse storage type for row_sparse_pull values";;
  mret true.
Definition GroupKVPairsPullRsp sort (keys : list Z) (values : list (array * list Z)) (ignore_sparse : bool) : lst (list Z * list (list (array * list Z))) :=
  GroupKVPairs sort keys values (pull_rsp_valid ignore_sparse).

(** ** The operations *)
Section Store.
Context (sort : list (Z * nat) → list (Z * nat)).
Context (bigarray_bound nthread_reduction : Z) (order : nat → list nat) (is_serial_push_ : bool) (max_threads : nat).
Context (updater_ : option (Z → contents → contents → contents)) (str_updater_ : option (string → contents → contents → contents)).

Definition SetKeyType (key_type : KeyType) : lst unit :=
  t ← gets key_type_;
  when (bool_decide (t = kUndefinedKey)) (modify (set_key_type key_type));;
  t ← gets key_type_;
  ensure (bool_decide (t = key_type)) "Mixed key types are not allowed".

(** [Copy(ctx)]: a new array of the same storage type. *)
Definition array_copy (a : array) : st CommCPU array :=
  x ← c_read a;
  l ← new_bufs 1 x;
  b ← lift (rd l 0);
  copy a b;;
  mret b.

Definition InitImpl (keys : list Z) (values : list array) : lst unit :=
  for_each (fun '(i, key) =>
    l ← gets local_;
    ensure (negb (bool_decide (is_Some (l !! key)))) "duplicate init of key";;
    v ← lift (rd values i);
    b ← on_comm (array_copy v);
    modify (fun s => set_local (<[key := b]> (local_ s)) s);;
    x ← on_comm (c_read v);
    on_comm (Comm_Init key (contents_shape x) (contents_dtype x))) (zip (seq 0 (length keys)) keys).

(** [local_[key]]: an entry that is not there is made. *)
Definition get_local (key : Z) : lst array :=
  a ← gets (fun s => default (Dns None) (local_ s !! key));
  modify (fun s => set_local (<[key := a]> (local_ s)) s);;
  mret a.

(** What an updater writes to the array. *)
Definition write_contents (a : array) (c : contents) : st CommCPU unit :=
  match a, c with
  | Dns a, CDns c => c_on_heap (fun h => store_data h a (ch_data c))
  | Rsp r, CRsp c => c_write_rsp r c
  | _, _ => fail (Undefined "storage type")
  end.

Definition push_one (key : Z) (vals : list array) : lst unit :=
  merged ← on_comm (Reduce bigarray_bound nthread_reduction order is_serial_push_ max_threads key vals);
  local ← get_local key;
  match updater_ with
  | Some updater =>
      ensure (negb (array_none local)) "key has not been inited";;
      t ← gets key_type_;
      m ← on_comm (c_read merged);
      x ← on_comm (c_read local);
      match str_updater_, bool_decide (t = kStringKey) with
      | Some str_updater, true =>
          str_key ← gets (fun s => default EmptyString (reverse_str_key_dict_ s !! key));
          on_comm (write_contents local (str_updater str_key m x))
      | _, _ => on_comm (write_contents local (updater key m x))
      end
  | None =>
      if bool_decide (is_rsp merged = is_rsp local) then modify (fun s => set_local (<[key := merged]> (local_ s)) s)
      else
        b ← on_comm (array_copy merged);
        modify (fun s => set_local (<[key := b]> (local_ s)) s)
  end.

Definition PushImpl (keys : list Z) (values : list array) : lst unit :=
  r ← GroupKVPairsPush sort keys values false;
  for_each (fun '(key, vals) => push_one key vals) (zip r.1 r.2).

Definition PullImpl (keys : list Z) (values : list array) (ignore_sparse : bool) : lst unit :=
  r ← GroupKVPairsPull sort keys values ignore_sparse;
  for_each (fun '(key, vals) =>
    local ← get_local key;
    ensure (negb (array_none local)) "key has not been inited";;
    on_comm (Broadcast true key local vals)) (zip r.1 r.2).

(** [Unique]: the row ids, sorted and each once. *)
Definition UniqueImpl (nthreads : Z) (ids : list Z) : result (list Z) := l ← ParallelSort nthreads ids; Ok (std_unique l).

Definition PullRowSparseImpl (keys : list Z) (val_rowids : list (array * list Z)) : lst unit :=
  r ← GroupKVPairsPullRsp sort keys val_rowids false;
  for_each (fun '(key, target_val_rowids) =>
    local ← get_local key;
    ensure (negb (array_none local)) "key has not been inited";;
    ensure (is_rsp local) "PullRowSparse expects row_sparse src NDArray";;
    l ← lift (foldM (fun acc '(out, row_id) => u ← UniqueImpl (Z.of_nat max_threads) row_id; Ok (acc ++ [(out, u)])) [] target_val_rowids);
    on_comm (BroadcastRowSparse local l)) (zip r.1 r.2).

(** *** Integer keys *)
Definition Init (keys : list Z) (values : list array) : lst unit := SetKeyType kIntKey;; InitImpl keys values.
Definition Push (keys : list Z) (values : list array) : lst unit := SetKeyType kIntKey;; PushImpl keys values.
Definition Pull (keys : list Z) (values : list array) (ignore_sparse : bool) : lst unit := SetKeyType kIntKey;; PullImpl keys values ignore_sparse.
Definition PullRowSparse (keys : list Z) (val_rowids : list (array * list Z)) : lst unit := SetKeyType kIntKey;; PullRowSparseImpl keys val_rowids.

(** *** String keys *)
Definition LookupKeys (str_keys : list string) : lst (list Z) :=
  fold_st (fun keys name =>
    d ← gets str_key_dict_;
    key ← lift (of_option (CheckFailed "key doesn't exist. Did you init?") (d !! name));
    mret (keys ++ [key])) [] str_keys.

Definition Init_str (str_keys : list string) (values : list array) : lst unit :=
  SetKeyType kStringKey;;
  keys ← fold_st (fun keys name =>
    d ← gets str_key_dict_;
    ensure (negb (bool_decide (is_Some (d !! name)))) "duplicate init of key";;
    key ← gets next_str_key_;
    _ ← lift (int_add key 1);
    modify (add_str_key name);;
    mret (keys ++ [key])) [] str_keys;
  InitImpl keys values.
Definition Push_str (str_keys : list string) (values : list array) : lst unit :=
  SetKeyType kStringKey;; keys ← LookupKeys str_keys; PushImpl keys values.
Definition Pull_str (str_keys : list string) (values : list array) (ignore_sparse : bool) : lst unit :=
  SetKeyType kStringKey;; keys ← LookupKeys str_keys; PullImpl keys values ignore_sparse.
Definition PullRowSparse_str (str_keys : list string) (val_rowids : list (array * list Z)) : lst unit :=
  SetKeyType kStringKey;; keys ← LookupKeys str_keys; PullRowSparseImpl keys val_rowids.
End Store.
