(* ===== verification/LocalKeys.v ===== *)
(** * The numbers of string keys

    A store with string keys numbers them in the order of their initialisation
    (src/src/kvstore/kvstore_local.h, [str_key_dict_] and [reverse_str_key_dict_]).  The two
    dictionaries stay inverse to each other whatever is called, so an operation on names
    is the operation on the numbers that the names got when they were initialised. *)

From Stdlib Require Import SpecFloat.
From S2P Require Import Prelude StdAlgo Floats Sparse Command NDArray SparseOps Comm KVStoreLocal.
Local Open Scope Z_scope.

(** ** Operations that leave the dictionaries alone *)
Definition names (s : KVStoreLocal) : gmap string Z * gmap Z string * Z := (str_key_dict_ s, reverse_str_key_dict_ s, next_str_key_ s).
Class Keeps {A} (m : lst A) : Prop := keeps : ∀ s x s', m s = Ok (x, s') → names s' = names s.

#[export] Instance keeps_ret {A} (a : A) : Keeps (mret a).
Proof. by intros s x s' [= <- <-]. Qed.
#[export] Instance keeps_lift {A} (r : result A) : Keeps (lift r).
Proof. intros s x s' H. unfold lift in H. destruct r; [by injection H as <- <-|done]. Qed.
#[export] Instance keeps_ensure b msg : Keeps (ensure b msg).
Proof. apply keeps_lift. Qed.
#[export] Instance keeps_gets {A} (f : KVStoreLocal → A) : Keeps (gets f).
Proof. by intros s x s' [= <- <-]. Qed.
#[export] Instance keeps_modify f : (∀ s, names (f s) = names s) → Keeps (modify f).
Proof. intros H s x s' [= <- <-]. apply H. Qed.
#[export] Instance keeps_on_comm {A} (m : st CommCPU A) : Keeps (on_comm m).
Proof. intros s x s' H. unfold on_comm in H. destruct (m (comm_ s)) as [r|]; [by injection H as <- <-|done]. Qed.
Lemma keeps_bind {A B} (m : lst A) (k : A → lst B) : Keeps m → (∀ a, Keeps (k a)) → Keeps (m ≫= k).
Proof. intros Hm Hk s x s' H. apply st_bind_inv in H as (a & s1 & H1 & H2). rewrite (Hk a s1 x s' H2). by apply Hm in H1. Qed.
Lemma keeps_when b m : Keeps m → Keeps (when b m).
Proof. intros Hm. destruct b; [done|apply keeps_ret]. Qed.
Lemma keeps_for_each {A} (f : A → lst unit) l : (∀ x, Keeps (f x)) → Keeps (for_each f l).
Proof. intros Hf. induction l as [|x l IH]; [apply keeps_ret|]. by apply keeps_bind. Qed.
Lemma keeps_fold {A B} (f : B → A → lst B) l : (∀ b x, Keeps (f b x)) → ∀ b, Keeps (fold_st f b l).
Proof. intros Hf. induction l as [|x l IH]; intros b; [apply keeps_ret|]. by apply keeps_bind. Qed.

(** Walk through the code of an operation. *)
Ltac walk :=
  repeat match goal with
  | |- Keeps (_ ≫= _) => apply keeps_bind; [|intros ?]
  | |- Keeps (when _ _) => apply keeps_when
  | |- Keeps (for_each _ _) => apply keeps_for_each; intros ?
  | |- Keeps (fold_st _ _ _) => apply keeps_fold; intros ? ?
  | |- Keeps (match ?x with _ => _ end) => destruct x
  | |- Keeps (modify _) => apply keeps_modify; by intros ?
  | |- Keeps _ => apply _
  end.

#[export] Instance keeps_SetKeyType t : Keeps (SetKeyType t).
Proof. unfold SetKeyType. walk. Qed.
#[export] Instance keeps_Group {V} sort (valid : Z → V → lst bool) keys values : (∀ k v, Keeps (valid k v)) → Keeps (GroupKVPairs sort keys values valid).
Proof. intros Hv. unfold GroupKVPairs, group_step. walk. Qed.
#[export] Instance keeps_get_local k : Keeps (get_local k).
Proof. unfold get_local. walk. Qed.
#[export] Instance keeps_push_one bb nt o ser mt u su k vals : Keeps (push_one bb nt o ser mt u su k vals).
Proof. unfold push_one. walk. Qed.
#[export] Instance keeps_PushImpl sort bb nt o ser mt u su keys values : Keeps (PushImpl sort bb nt o ser mt u su keys values).
Proof. unfold PushImpl, GroupKVPairsPush, push_valid. walk. Qed.
#[export] Instance keeps_pull_valid ig k v : Keeps (pull_valid ig k v).
Proof. unfold pull_valid. walk. Qed.
#[export] Instance keeps_PullImpl sort keys values ig : Keeps (PullImpl sort keys values ig).
Proof. unfold PullImpl, GroupKVPairsPull. walk. Qed.
#[export] Instance keeps_pull_rsp_valid ig k v : Keeps (pull_rsp_valid ig k v).
Proof. unfold pull_rsp_valid. walk. Qed.
#[export] Instance keeps_PullRowSparseImpl sort mt keys values : Keeps (PullRowSparseImpl sort mt keys values).
Proof. unfold PullRowSparseImpl, GroupKVPairsPullRsp. walk. Qed.
#[export] Instance keeps_InitImpl keys values : Keeps (InitImpl keys values).
Proof. unfold InitImpl. walk. Qed.
#[export] Instance keeps_LookupKeys keys : Keeps (LookupKeys keys).
Proof. unfold LookupKeys. walk. Qed.

(** ** The dictionaries *)
Record dict_ok (s : KVStoreLocal) : Prop := {
  dk_inverse : ∀ name k, str_key_dict_ s !! name = Some k ↔ reverse_str_key_dict_ s !! k = Some name;
  dk_range : ∀ name k, str_key_dict_ s !! name = Some k → 0 ≤ k < next_str_key_ s
}.

Lemma dict_ok_names s s' : names s' = names s → dict_ok s → dict_ok s'.
Proof. intros H [H1 H2]. unfold names in H. injection H as E1 E2 E3. constructor; by rewrite ?E1, ?E2, ?E3. Qed.

Lemma add_str_key_ok s name : dict_ok s → 0 ≤ next_str_key_ s → str_key_dict_ s !! name = None → dict_ok (add_str_key name s) ∧ str_key_dict_ s ⊆ str_key_dict_ (add_str_key name s).
Proof.
  intros [H1 H2] H0 Hn. split; [|by apply insert_subseteq]. constructor; cbn.
  - intros name' k. destruct (decide (name' = name)) as [->|Hne], (decide (k = next_str_key_ s)) as [->|Hk].
    + by rewrite !lookup_insert_eq.
    + rewrite lookup_insert_eq, lookup_insert_ne by done. split; [congruence|]. intros Hr%H1. congruence.
    + rewrite lookup_insert_ne, lookup_insert_eq by done. split; [|congruence]. intros Hd%H2. lia.
    + rewrite !lookup_insert_ne by done. apply H1.
  - intros name' k. destruct (decide (name' = name)) as [->|Hne]; [rewrite lookup_insert_eq; intros [= <-]; lia|]. rewrite lookup_insert_ne by done. intros Hd%H2. lia.
Qed.

(** *** The calls with names *)
Inductive call :=
  | CInit (names : list string) (values : list array)
  | CPush (names : list string) (values : list array)
  | CPull (names : list string) (values : list array) (ignore_sparse : bool)
  | CPullRowSparse (names : list string) (values : list (array * list Z)).

Section Calls.
Context (sort : list (Z * nat) → list (Z * nat)).
Context (bigarray_bound nthread_reduction : Z) (order : nat → list nat) (is_serial_push_ : bool) (max_threads : nat).
Context (updater_ : option (Z → contents → contents → contents)) (str_updater_ : option (string → contents → contents → contents)).

Definition run_call (c : call) : lst unit :=
  match c with
  | CInit names values => Init_str names values
  | CPush names values => Push_str sort bigarray_bound nthread_reduction order is_serial_push_ max_threads updater_ str_updater_ names values
  | CPull names values ignore_sparse => Pull_str sort names values ignore_sparse
  | CPullRowSparse names values => PullRowSparse_str sort max_threads names values
  end.

(** What an initialisation does to the dictionaries: the new names get the next numbers. *)
Lemma number_names l : ∀ acc s keys s', dict_ok s → 0 ≤ next_str_key_ s →
  fold_st (fun keys name =>
    d ← gets str_key_dict_;
    ensure (negb (bool_decide (is_Some (d !! name)))) "duplicate init of key";;
    key ← gets next_str_key_;
    _ ← lift (int_add key 1);
    modify (add_str_key name);;
    mret (keys ++ [key])) acc l s = Ok (keys, s') →
  dict_ok s' ∧ str_key_dict_ s ⊆ str_key_dict_ s' ∧ next_str_key_ s' = next_str_key_ s + Z.of_nat (length l) ∧
  keys = acc ++ ((fun i => next_str_key_ s + Z.of_nat i) <$> seq 0 (length l)) ∧ (∀ i name, l !! i = Some name → str_key_dict_ s' !! name = Some (next_str_key_ s + Z.of_nat i)).
Proof.
  induction l as [|name l IH]; intros acc s keys s' Hok H0 H; cbn [fold_st] in H.
  { injection H as <- <-. split_and!; try done; [cbn; lia|by rewrite app_nil_r]. }
  apply st_bind_inv in H as (acc1 & s1 & H & Hrest). rewrite gets_bind in H. apply st_bind_inv in H as ([] & s2 & Hc & H).
  unfold ensure, lift, check in Hc. destruct (negb _) eqn:Hn; [|done]. injection Hc as <-. apply negb_true_iff, bool_decide_eq_false in Hn. rewrite gets_bind in H.
  apply st_bind_inv in H as (z & s3 & Hi & H). unfold lift in Hi. destruct (int_add _ _); [|done]. injection Hi as <- <-. rewrite modify_bind in H. injection H as <- <-.
  destruct (add_str_key_ok s name Hok H0) as [Hok1 Hsub1]; [by apply eq_None_not_Some|].
  destruct (IH _ _ _ _ Hok1 ltac:(cbn; lia) Hrest) as (Hok' & Hsub & Hnext & Hkeys & Hnum). cbn [add_str_key next_str_key_] in *. split; [done|]. split; [by transitivity (str_key_dict_ (add_str_key name s))|].
  split; [rewrite Hnext; cbn [length]; lia|]. split.
  - rewrite Hkeys, <- (assoc_L (++)). f_equal. cbn [length seq fmap list_fmap app]. f_equal; [lia|]. rewrite <- fmap_S_seq, <- list_fmap_compose. apply list_fmap_ext. intros i x _. cbn. lia.
  - intros [|i] nm Hi; cbn in Hi.
    + injection Hi as ->. rewrite Z.add_0_r. eapply lookup_weaken; [|exact Hsub]. cbn. by rewrite lookup_insert_eq.
    + rewrite (Hnum i nm Hi). f_equal. lia.
Qed.

Lemma keeps_step (m : lst unit) s s' : Keeps m → m s = Ok (tt, s') → dict_ok s → 0 ≤ next_str_key_ s → dict_ok s' ∧ 0 ≤ next_str_key_ s' ∧ str_key_dict_ s ⊆ str_key_dict_ s'.
Proof.
  intros Hm H Hok H0. apply Hm in H. split; [by apply (dict_ok_names s)|]. unfold names in H. injection H as E1 E2 E3. rewrite E1, E3. done.
Qed.

Lemma call_step c s s' : run_call c s = Ok (tt, s') → dict_ok s → 0 ≤ next_str_key_ s → dict_ok s' ∧ 0 ≤ next_str_key_ s' ∧ str_key_dict_ s ⊆ str_key_dict_ s'.
Proof.
  destruct c as [nms values|nms values|nms values ig|nms values]; cbn [run_call]; intros H Hok H0.
  2-4: eapply keeps_step; [|exact H|done|done]; unfold Push_str, Pull_str, PullRowSparse_str; walk.
  unfold Init_str in H. apply st_bind_inv in H as ([] & s1 & H1 & H). destruct (keeps_step _ _ _ (keeps_SetKeyType _) H1 Hok H0) as (Hok1 & H01 & Hs1).
  apply st_bind_inv in H as (keys & s2 & H2 & H). destruct (number_names nms [] s1 keys s2 Hok1 H01 H2) as (Hok2 & Hs2 & Hn2 & _).
  destruct (keeps_step _ _ _ (keeps_InitImpl _ _) H Hok2 ltac:(lia)) as (Hok3 & H03 & Hs3). split; [done|]. split; [done|]. etransitivity; [exact Hs1|]. by etransitivity.
Qed.
End Calls.

(** The numbers of string keys.  Whatever calls succeed, the dictionary of the names and
    the reverse dictionary stay inverse to each other, all numbers are below the next one,
    and a name keeps its number for ever; so two names never share a number. *)
Theorem string_key_numbers sort bigarray_bound nthread_reduction order is_serial_push_ max_threads updater_ str_updater_ (calls : list call) (s s' : KVStoreLocal) :
  dict_ok s → 0 ≤ next_str_key_ s →
  for_each (run_call sort bigarray_bound nthread_reduction order is_serial_push_ max_threads updater_ str_updater_) calls s = Ok (tt, s') →
  dict_ok s' ∧ str_key_dict_ s ⊆ str_key_dict_ s' ∧ ∀ n1 n2 k, str_key_dict_ s' !! n1 = Some k → str_key_dict_ s' !! n2 = Some k → n1 = n2.
Proof.
  intros Hok H0 H. assert (dict_ok s' ∧ str_key_dict_ s ⊆ str_key_dict_ s') as [Hok' Hs].
  { revert s Hok H0 H. induction calls as [|c calls IH]; intros s Hok H0 H; [by injection H as <-|]. cbn [for_each] in H. apply st_bind_inv in H as ([] & s1 & H1 & H).
    destruct (call_step _ _ _ _ _ _ _ _ _ _ _ H1 Hok H0) as (Hok1 & H01 & Hs1). destruct (IH s1 Hok1 H01 H) as [Hok' Hs]. split; [done|]. by etransitivity. }
  split; [done|]. split; [done|]. intros n1 n2 k Hk1 Hk2. apply (dk_inverse _ Hok') in Hk1, Hk2. congruence.
Qed.

Definition w_named : KVStoreLocal :=
  {| comm_ := {| c_heap := {| cells := {[0%nat := {| ch_dtype := kFloat32; ch_data := [f32_zero] |}]}; next_cell := 1 |}; c_rsp := ∅; c_next := 0; merge_buf_ := ∅ |};
     local_ := ∅; str_key_dict_ := ∅; reverse_str_key_dict_ := ∅; next_str_key_ := 0; warnings_printed_ := ∅; key_type_ := kUndefinedKey |}.

Lemma string_key_numbers_witness :
  ∃ s', for_each (run_call (fun l => l) 1000 1 (seq 0) false 1 None None) [CInit ["w"%string; "b"%string] [Dns (Some 0%nat); Dns (Some 0%nat)]] w_named = Ok (tt, s') ∧
    str_key_dict_ s' !! "b"%string = Some 1 ∧ reverse_str_key_dict_ s' !! 1 = Some "b"%string.
Proof.
  destruct (for_each (run_call (fun l => l) 1000 1 (seq 0) false 1 None None) [CInit ["w"%string; "b"%string] [Dns (Some 0%nat); Dns (Some 0%nat)]] w_named) as [[[] s']|e] eqn:E; [|vm_compute in E; discriminate].
  destruct (string_key_numbers (fun l => l) 1000 1 (seq 0) false 1%nat None None [CInit ["w"%string; "b"%string] [Dns (Some 0%nat); Dns (Some 0%nat)]] w_named s') as (Hok & _ & _).
  - constructor; cbn; intros; [by rewrite !lookup_empty|by rewrite lookup_empty in H].
  - reflexivity || (cbn; lia).
  - exact E.
  - exists s'. split; [reflexivity|]. assert (str_key_dict_ s' !! "b"%string = Some 1) as Hb.
    { assert ((match for_each (run_call (fun l => l) 1000 1 (seq 0) false 1 None None) [CInit ["w"%string; "b"%string] [Dns (Some 0%nat); Dns (Some 0%nat)]] w_named with Ok (_, s) => str_key_dict_ s !! "b"%string | Err _ => None end) = Some 1) as Hv by (vm_compute; reflexivity).
      rewrite E in Hv. exact Hv. }
    split; [exact Hb|]. apply (dk_inverse _ Hok). exact Hb.
Defined.
