(* ===== verification/LocalStoreSpec.v ===== *)
(** * The local key-value store implements a map

    First the grouping of a call's values by key: what [GroupKVPairs] of
    src/src/kvstore/kvstore_local.h returns.  Then a store of dense arrays is shown to
    implement a map from keys to values: pushes add up and update, pulls copy out. *)

From Stdlib Require Import SpecFloat.
From stdpp Require Import sorting.
From S2P Require Import Prelude StdAlgo Floats Sparse Command NDArray SparseOps Comm KVStoreLocal.
Local Open Scope Z_scope.

(** ** Grouping *)
Section Grouping.
Context {V : Type}.

(** One more pair: it joins the last group when that has its key. *)
Definition group_snoc (r : list (Z * list V)) (k : Z) (v : V) : list (Z * list V) :=
  match last r with
  | Some (k', g) => if k =? k' then take (length r - 1) r ++ [(k', g ++ [v])] else r ++ [(k, [v])]
  | None => [(k, [v])]
  end.
Definition group_of (l : list (Z * V)) : list (Z * list V) := foldl (fun r p => group_snoc r p.1 p.2) [] l.
Definition flatten (r : list (Z * list V)) : list (Z * V) := mjoin ((fun p => (pair p.1) <$> p.2) <$> r).

Lemma group_of_snoc l k v : group_of (l ++ [(k, v)]) = group_snoc (group_of l) k v.
Proof. unfold group_of. by rewrite foldl_snoc. Qed.

Lemma flatten_app r1 r2 : flatten (r1 ++ r2) = flatten r1 ++ flatten r2.
Proof. unfold flatten. by rewrite fmap_app, join_app. Qed.

Lemma flatten_snoc r k v : flatten (group_snoc r k v) = flatten r ++ [(k, v)].
Proof.
  unfold group_snoc. destruct (last r) as [[k' g]|] eqn:E; [|by apply last_None in E as ->].
  apply last_Some in E as [r' ->]. destruct (Z.eqb_spec k k') as [->|].
  - rewrite length_app, take_app_length' by (cbn; lia). rewrite !flatten_app, <- (assoc_L (++)). f_equal.
    unfold flatten. cbn. rewrite !app_nil_r, fmap_app. done.
  - by rewrite flatten_app.
Qed.

(** Grouping neither loses nor adds a pair, and every group has an element. *)
Lemma flatten_group l : flatten (group_of l) = l.
Proof. induction l as [|[k v] l IH] using rev_ind; [done|]. by rewrite group_of_snoc, flatten_snoc, IH. Qed.

Lemma group_nonempty l : Forall (fun p => p.2 ≠ []) (group_of l).
Proof.
  induction l as [|[k v] l IH] using rev_ind; [constructor|]. rewrite group_of_snoc. unfold group_snoc.
  destruct (last (group_of l)) as [[k' g]|] eqn:E; [|by repeat constructor]. destruct (k =? k').
  - apply Forall_app. split; [by apply Forall_take|]. repeat constructor. cbn. by destruct g.
  - apply Forall_app. split; [done|by repeat constructor].
Qed.

(** The groups of a sorted list have increasing keys. *)
Lemma group_sorted l : StronglySorted Z.le l.*1 → StronglySorted Z.lt (group_of l).*1.
Proof.
  induction l as [|[k v] l IH] using rev_ind; [constructor|]. intros Hs. rewrite fmap_app in Hs. apply StronglySorted_app in Hs as (Hle & Hs & _).
  specialize (IH Hs). rewrite group_of_snoc. unfold group_snoc. destruct (last (group_of l)) as [[k' g]|] eqn:E; [|by repeat constructor].
  apply last_Some in E as [r' E]. destruct (Z.eqb_spec k k') as [->|Hne].
  - rewrite E in IH |- *. rewrite length_app, take_app_length' by (cbn; lia). by rewrite fmap_app in *.
  - rewrite fmap_app. apply StronglySorted_app. split; [|split; [done|by repeat constructor]]. intros x y Hx Hy. apply list_elem_of_singleton in Hy as ->. cbn.
    assert (∀ z, z ∈ (group_of l).*1 → z ≤ k) as Hz.
    { intros z ([z' gz] & -> & Hz)%list_elem_of_fmap. pose proof (group_nonempty l) as Hn. rewrite Forall_forall in Hn. specialize (Hn _ Hz). destruct gz as [|v0 gz]; [done|].
      apply (Hle z' k); [|by left]. apply list_elem_of_fmap. exists (z', v0). split; [done|]. rewrite <- (flatten_group l). unfold flatten. apply list_elem_of_join.
      exists ((pair z') <$> (v0 :: gz)). split; [by left|]. apply list_elem_of_fmap. by exists (z', v0 :: gz). }
    assert (k' ≤ k) by (apply Hz; rewrite E, fmap_app; set_solver). specialize (Hz x Hx). destruct (decide (x = k)) as [->|]; [|lia].
    rewrite E, fmap_app in IH, Hx. apply StronglySorted_app in IH as (Hlt & _). apply elem_of_app in Hx as [Hx|Hx%list_elem_of_singleton]; [|cbn in Hx; congruence].
    specialize (Hlt _ k' Hx ltac:(by left)). lia.
Qed.

(** A group holds exactly the values of its key. *)
Lemma flatten_elem r k v : (k, v) ∈ flatten r ↔ ∃ g, (k, g) ∈ r ∧ v ∈ g.
Proof.
  unfold flatten. rewrite list_elem_of_join. setoid_rewrite list_elem_of_fmap. split.
  - intros (l & Hl & ([k' g] & -> & Hr)). apply list_elem_of_fmap in Hl as (v' & E & Hv). cbn in E. simplify_eq. eauto.
  - intros (g & Hr & Hv). exists (pair k <$> g). split; [by apply list_elem_of_fmap; exists v|]. by exists (k, g).
Qed.

Lemma group_values r k g : NoDup r.*1 → (k, g) ∈ r → g = omap (fun p => if p.1 =? k then Some p.2 else None) (flatten r).
Proof.
  assert (∀ (k' : Z) (l : list V), omap (fun p : Z * V => if p.1 =? k then Some p.2 else None) (pair k' <$> l) = if k' =? k then l else []) as Hsame.
  { intros k' l. induction l as [|v l IH]; cbn; [by destruct (k' =? k)|]. destruct (k' =? k); [by rewrite IH|done]. }
  assert (∀ r, k ∉ r.*1 → omap (fun p : Z * V => if p.1 =? k then Some p.2 else None) (flatten r) = []) as Hnone.
  { intros r0. induction r0 as [|[k' g'] r0 IH]; intros Hk; [done|]. change (flatten ((k', g') :: r0)) with ((pair k' <$> g') ++ flatten r0).
    rewrite omap_app, Hsame. cbn in Hk. apply not_elem_of_cons in Hk as [Hk' Hk]. rewrite (proj2 (Z.eqb_neq k' k)) by congruence. by apply IH. }
  induction r as [|[k' g'] r IH]; intros Hnd Hin; [by apply not_elem_of_nil in Hin|]. change (flatten ((k', g') :: r)) with ((pair k' <$> g') ++ flatten r).
  rewrite omap_app, Hsame. cbn in Hnd. apply NoDup_cons in Hnd as [Hk Hnd]. apply elem_of_cons in Hin as [E|Hin].
  - simplify_eq. by rewrite Z.eqb_refl, Hnone, app_nil_r.
  - rewrite (proj2 (Z.eqb_neq k' k)); [by apply IH|]. intros ->. apply Hk. apply list_elem_of_fmap. by exists (k, g).
Qed.

(** *** [GroupKVPairs] *)
Context (sort : list (Z * nat) → list (Z * nat)).
Hypothesis sort_perm : ∀ l, sort l ≡ₚ l.
Hypothesis sort_sorted : ∀ l, StronglySorted Z.le (sort l).*1.

Context (is_valid : Z → V → lst bool) (ok : Z → V → bool) (P : V → Prop) (R : KVStoreLocal → Prop).
Hypothesis valid_ok : ∀ k v s, P v → R s → ∃ s', is_valid k v s = Ok (ok k v, s') ∧ R s'.

(** The pairs of a call in the order of the sort. *)
Definition sorted_pairs (keys : list Z) (values : list V) : list (Z * V) := omap (fun i => (pair i.1) <$> values !! i.2) (sort (zip keys (seq 0 (length keys)))).
Definition groups_of (keys : list Z) (values : list V) : list (Z * list V) := group_of (List.filter (fun p => ok p.1 p.2) (sorted_pairs keys values)).

(** The loop keeps the groups so far and the key of the last one. *)
Definition last_key (pre : Z) (r : list (Z * list V)) : Z := match last r with Some (k, _) => k | None => pre end.

Lemma group_step_ok values pre r (i : Z * nat) v s :
  values !! i.2 = Some v → P v → R s → pre < i.1 →
  let r' := if ok i.1 v then group_snoc r i.1 v else r in
  ∃ s', group_step is_valid values (r.*1, r.*2, last_key pre r) i s = Ok ((r'.*1, r'.*2, last_key pre r'), s') ∧ R s'.
Proof.
  intros Hv HP HR Hpre. destruct (valid_ok i.1 v s HP HR) as (s' & E & HR'). exists s'. split; [|done]. unfold group_step.
  rewrite (lift_bind _ _ v) by (by apply rd_ok). rewrite (st_bind_Ok _ _ _ _ _ E). destruct (ok i.1 v); [|done].
  unfold group_snoc, last_key. destruct (last r) as [[k g]|] eqn:El.
  - destruct (Z.eqb_spec i.1 k) as [->|Hne]; cbn [negb].
    + apply last_Some in El as [r1 ->]. rewrite !fmap_app. cbn [fmap list_fmap snd fst].
      rewrite (lift_bind _ _ (r1.*2 ++ [g ++ [v]])) by (unfold push_last; rewrite last_snoc, length_app, take_app_length' by (cbn; lia); done).
      rewrite length_app, take_app_length' by (cbn; lia). rewrite last_snoc. done.
    + rewrite !fmap_app, last_snoc. done.
  - rewrite (proj2 (Z.eqb_neq _ _)) by lia. apply last_None in El as ->. done.
Qed.

Lemma group_loop_ok values pre idx : Forall P values → (∀ i, i ∈ idx → pre < i.1 ∧ is_Some (values !! i.2)) → ∀ r s, R s →
  let r' := foldl (fun r p => group_snoc r p.1 p.2) r (List.filter (fun p => ok p.1 p.2) (omap (fun i => (pair i.1) <$> values !! i.2) idx)) in
  ∃ s', fold_st (group_step is_valid values) (r.*1, r.*2, last_key pre r) idx s = Ok ((r'.*1, r'.*2, last_key pre r'), s') ∧ R s'.
Proof.
  intros HP. induction idx as [|i idx IH]; intros Hi r s HR; [by exists s|]. destruct (Hi i ltac:(by left)) as [Hpre [v Hv]].
  destruct (group_step_ok values pre r i v s Hv (Forall_lookup_1 _ _ _ _ HP Hv) HR Hpre) as (s1 & E1 & HR1). cbn [fold_st]. rewrite (st_bind_Ok _ _ _ _ _ E1).
  destruct (IH ltac:(intros j Hj; apply Hi; by right) (if ok i.1 v then group_snoc r i.1 v else r) s1 HR1) as (s2 & E2 & HR2).
  exists s2. split; [|done]. rewrite E2. cbn. rewrite Hv. cbn. by destruct (ok i.1 v).
Qed.

Lemma sort_idx keys (values : list V) i : length keys = length values → i ∈ sort (zip keys (seq 0 (length keys))) → keys !! i.2 = Some i.1 ∧ is_Some (values !! i.2).
Proof.
  intros Hl Hi. rewrite (sort_perm _) in Hi. apply list_elem_of_lookup in Hi as [j Hj]. destruct i as [k n]. apply lookup_zip_with_Some in Hj as (x & y & E & Hx & Hy).
  simplify_eq. apply lookup_seq in Hy as [-> Hlt]. cbn. split; [done|]. apply lookup_lt_is_Some_2. lia.
Qed.

Lemma GroupKVPairs_ok keys values s : keys ≠ [] → length keys = length values → Forall (fun k => - 2 ^ 31 < k < 2 ^ 31) keys → Forall P values → R s →
  ∃ s', GroupKVPairs sort keys values is_valid s = Ok (((groups_of keys values).*1, (groups_of keys values).*2), s') ∧ R s'.
Proof.
  intros Hne Hl Hk HP HR. unfold GroupKVPairs. rewrite ensure_bind by (by apply Nat.eqb_eq). set (idx := sort (zip keys (seq 0 (length keys)))).
  assert (length idx = length keys) as Hlen by (unfold idx; rewrite (Permutation_length (sort_perm _)), length_zip_with, length_seq; lia).
  destruct idx as [|first idx'] eqn:Ei; [by destruct keys|]. rewrite (lift_bind _ _ first) by done.
  assert (∀ i, i ∈ first :: idx' → keys !! i.2 = Some i.1 ∧ is_Some (values !! i.2)) as Hidx by (intros i Hi; rewrite <- Ei in Hi; by apply sort_idx).
  assert (∀ i, i ∈ first :: idx' → - 2 ^ 31 < i.1 < 2 ^ 31) as Hran.
  { intros i Hi. apply Hidx in Hi as [Hi _]. by apply (Forall_lookup_1 _ _ _ _ Hk Hi). }
  assert (∀ i, i ∈ first :: idx' → first.1 ≤ i.1) as Hmin.
  { pose proof (sort_sorted (zip keys (seq 0 (length keys)))) as Hs. fold idx in Hs. rewrite Ei in Hs. cbn in Hs. apply StronglySorted_inv in Hs as [_ Hf].
    rewrite Forall_forall in Hf. intros i [->|Hi]%elem_of_cons; [lia|]. apply Hf, list_elem_of_fmap. by exists i. }
  pose proof (Hran first ltac:(by left)). rewrite (lift_bind _ _ (first.1 - 1)) by (apply int_range_ok; lia).
  destruct (group_loop_ok values (first.1 - 1) (first :: idx') HP) with (r := @nil (Z * list V)) (s := s) as (s' & E & HR'); [|done|].
  { intros i Hi. split; [specialize (Hmin i Hi); lia|by apply Hidx]. }
  change ([], [], first.1 - 1) with ((@nil (Z * list V)).*1, (@nil (Z * list V)).*2, last_key (first.1 - 1) (@nil (Z * list V))).
  rewrite (st_bind_Ok _ _ _ _ _ E). exists s'. split; [|done]. cbn [fst]. unfold groups_of, sorted_pairs. fold idx. by rewrite Ei.
Qed.

(** The pairs of a call, in another order. *)
Lemma zip_indexed keys : ∀ (pre values : list V), length keys = length values →
  omap (fun i : Z * nat => (pair i.1) <$> (pre ++ values) !! i.2) (zip keys (seq (length pre) (length keys))) = zip keys values.
Proof.
  induction keys as [|k keys IH]; intros pre [|v values] Hl; try done. cbn [length seq zip zip_with omap list_omap]. cbn [fst snd].
  rewrite lookup_app_r, Nat.sub_diag by lia. cbn [lookup list_lookup fmap option_fmap option_map]. f_equal.
  specialize (IH (pre ++ [v]) values ltac:(by injection Hl)). rewrite <- (assoc_L (++)), length_app in IH. cbn in IH. by rewrite Nat.add_1_r in IH.
Qed.

Lemma sorted_pairs_perm keys values : length keys = length values → sorted_pairs keys values ≡ₚ zip keys values.
Proof. intros Hl. unfold sorted_pairs. rewrite (sort_perm _). pose proof (zip_indexed keys [] values Hl) as E. cbn [app length] in E. by rewrite E. Qed.

Lemma sorted_pairs_sorted keys values : StronglySorted Z.le (sorted_pairs keys values).*1.
Proof.
  unfold sorted_pairs. pose proof (sort_sorted (zip keys (seq 0 (length keys)))) as Hs. induction (sort _) as [|i l IH]; [constructor|].
  cbn in Hs. apply StronglySorted_inv in Hs as [Hs Hf]. cbn. destruct (values !! i.2) as [v|]; cbn; [|by apply IH]. constructor; [by apply IH|].
  apply Forall_forall. intros k (p & -> & (j & Hj & E)%list_elem_of_omap)%list_elem_of_fmap. rewrite Forall_forall in Hf.
  destruct (values !! j.2); cbn in E; simplify_eq. apply Hf, list_elem_of_fmap. by exists j.
Qed.

Lemma filter_sorted (f : Z * V → bool) l : StronglySorted Z.le l.*1 → StronglySorted Z.le (List.filter f l).*1.
Proof.
  induction l as [|p l IH]; intros Hs; [done|]. cbn in Hs. apply StronglySorted_inv in Hs as [Hs Hf]. cbn. destruct (f p); [|by apply IH]. cbn. constructor; [by apply IH|].
  rewrite Forall_forall in Hf |- *. intros k (q & -> & Hq)%list_elem_of_fmap. apply Hf, list_elem_of_fmap. exists q. split; [done|]. apply list_elem_of_In, List.filter_In in Hq as [Hq _]. by apply list_elem_of_In.
Qed.

Lemma groups_sorted keys values : StronglySorted Z.lt (groups_of keys values).*1.
Proof. apply group_sorted, filter_sorted, sorted_pairs_sorted. Qed.

Lemma groups_group keys values k g : length keys = length values → (k, g) ∈ groups_of keys values →
  g ≠ [] ∧ g ≡ₚ omap (fun p => if (p.1 =? k) && ok p.1 p.2 then Some p.2 else None) (zip keys values).
Proof.
  intros Hl Hg. split.
  - pose proof (group_nonempty (List.filter (fun p => ok p.1 p.2) (sorted_pairs keys values))) as Hn. rewrite Forall_forall in Hn. apply (Hn _ Hg).
  - rewrite (group_values _ k g (sorted_lt_nodup _ (groups_sorted keys values)) Hg). unfold groups_of. rewrite flatten_group.
    rewrite <- (sorted_pairs_perm keys values Hl). apply reflexive_eq. induction (sorted_pairs keys values) as [|p l IH]; [done|]. cbn.
    destruct (ok p.1 p.2); cbn; [rewrite andb_true_r, IH; done|by rewrite andb_false_r].
Qed.

Lemma groups_keys keys values k : length keys = length values → k ∈ (groups_of keys values).*1 ↔ ∃ v, (k, v) ∈ zip keys values ∧ ok k v = true.
Proof.
  intros Hl. transitivity (∃ v, (k, v) ∈ flatten (groups_of keys values)).
  - split.
    + intros ([k' g] & -> & Hg)%list_elem_of_fmap. destruct (groups_group keys values k' g Hl Hg) as [Hne _]. destruct g as [|v g]; [done|]. exists v. apply flatten_elem. exists (v :: g). split; [done|by left].
    + intros [v (g & Hg & _)%flatten_elem]. apply list_elem_of_fmap. by exists (k, g).
  - unfold groups_of. rewrite flatten_group. setoid_rewrite list_elem_of_In. setoid_rewrite List.filter_In. setoid_rewrite <- list_elem_of_In. setoid_rewrite (sorted_pairs_perm keys values Hl). done.
Qed.
End Grouping.

(** Grouping looks at the keys only. *)
Definition map_val {V W} (f : V → W) (p : Z * V) : Z * W := (p.1, f p.2).

Lemma group_of_map {V W} (f : V → W) (l : list (Z * V)) : group_of (map_val f <$> l) = map_val (fmap (M := list) f) <$> group_of l.
Proof.
  induction l as [|[k v] l IH] using rev_ind; [done|]. rewrite fmap_app. change (map_val f <$> [(k, v)]) with [(k, f v)]. rewrite !group_of_snoc, IH. unfold group_snoc.
  rewrite fmap_last. destruct (last (group_of l)) as [[k' g]|]; cbn [fmap option_fmap option_map map_val fst snd]; [|done].
  destruct (k =? k'); rewrite fmap_app, ?length_fmap; [|done]. rewrite <- fmap_take. f_equal. cbn. unfold map_val. cbn. by rewrite fmap_app.
Qed.

Lemma groups_map {V W} sort (f : V → W) (ok : Z → W → bool) keys (values : list V) : (∀ k v, ok k (f v) = true) →
  groups_of sort ok keys (f <$> values) = map_val (fmap (M := list) f) <$> groups_of sort (fun _ _ => true) keys values.
Proof.
  intros Hok. unfold groups_of. rewrite <- group_of_map. f_equal. unfold sorted_pairs. induction (sort _) as [|i l IH]; [done|]. cbn. rewrite list_lookup_fmap.
  destruct (values !! i.2) as [v|]; cbn; [|exact IH]. rewrite Hok. cbn. f_equal. exact IH.
Qed.

(** All values of a call under one key make one group. *)
Lemma one_group {V} sort (k : Z) (vals : list V) : (∀ l, sort l ≡ₚ l) → (∀ l, StronglySorted Z.le (sort l).*1) → vals ≠ [] →
  ∃ g, groups_of sort (fun _ _ => true) (replicate (length vals) k) vals = [(k, g)] ∧ g ≡ₚ vals.
Proof.
  intros Hp Hs Hne. set (gs := groups_of _ _ _ _). assert (length (replicate (length vals) k) = length vals) as Hl by apply length_replicate.
  assert (gs.*1 = [k]) as Hk.
  { apply sorted_lt_unique; [by apply groups_sorted|repeat constructor|]. intros x. unfold gs. rewrite (groups_keys sort Hp Hs _ _ _ x Hl), list_elem_of_singleton. split.
    - intros (v & Hv & _). apply list_elem_of_lookup in Hv as [i Hi]. apply lookup_zip_with_Some in Hi as (a & b & E & Ha & _). apply lookup_replicate in Ha as [-> _]. by injection E.
    - intros ->. destruct vals as [|v vals]; [done|]. exists v. split; [|done]. by left. }
  destruct gs as [|[k' g] [|? ?]] eqn:E; try done. cbn in Hk. injection Hk as ->. exists g. split; [done|].
  destruct (groups_group sort Hp Hs (fun _ _ => true) _ vals k g Hl) as [_ Hg]; [fold gs; rewrite E; by left|]. rewrite Hg. apply reflexive_eq. clear.
  induction vals as [|v vals IH]; [done|]. cbn. rewrite Z.eqb_refl. cbn. by rewrite IH.
Qed.

(** ** Reducing dense arrays *)
Section Dense.
Context (bigarray_bound nthread_reduction : Z) (order : nat → list nat) (is_serial_push_ : bool) (max_threads : nat).
Hypothesis Hbound : 0 < bigarray_bound.
Hypothesis Horder : ∀ n, order n ≡ₚ seq 0 n.

Definition dns (n : nat) : array := Dns (Some n).
Definition cell (c : CommCPU) (n : nat) : option chunk := cells (c_heap c) !! n.
Definition put_cell (n : nat) (x : chunk) (c : CommCPU) : CommCPU := set_c_heap (put (c_heap c) n x) c.

Lemma read_dns c n x : cell c n = Some x → c_read (dns n) c = Ok (CDns x, c).
Proof. intros H. unfold c_read, dns. by rewrite (deref_cell _ _ _ H). Qed.

(** A cell of element type [d] and of length [len]. *)
Definition buffer (c : CommCPU) (d : Z) (len : nat) (n : nat) : Prop := ∃ x, cell c n = Some x ∧ ch_dtype x = d ∧ length (ch_data x) = len.

Lemma copy_dns c a b x d : cell c a = Some x → buffer c d (length (ch_data x)) b → a ≠ b →
  copy (dns a) (dns b) c = Ok (tt, put_cell b {| ch_dtype := d; ch_data := cast_to d <$> ch_data x |} c).
Proof.
  intros Ha (y & Hb & <- & Hl) Hne. unfold copy. rewrite bool_decide_eq_false_2 by (unfold dns; congruence). cbn [andb].
  rewrite (st_bind_Ok _ _ _ _ _ (read_dns c a x Ha)), (st_bind_Ok _ _ _ _ _ (read_dns c b y Hb)). rewrite ensure_bind by (apply bool_decide_eq_true_2; cbn; by rewrite Hl).
  cbn. unfold c_on_heap. rewrite (CopyFromTo_put _ _ _ Hb a x) by done. done.
Qed.

(** New buffers come from behind the cells in use. *)
Lemma new_bufs_dns x : ∀ n c, heap_wf (c_heap c) →
  ∃ c', new_bufs n (CDns x) c = Ok (dns <$> seq (next_cell (c_heap c)) n, c') ∧ heap_wf (c_heap c') ∧
    c_rsp c' = c_rsp c ∧ c_next c' = c_next c ∧ merge_buf_ c' = merge_buf_ c ∧
    (∀ i, (i < next_cell (c_heap c))%nat → cell c' i = cell c i) ∧ next_cell (c_heap c') = (next_cell (c_heap c) + n)%nat ∧
    (∀ i, i ∈ seq (next_cell (c_heap c)) n → buffer c' (ch_dtype x) (length (ch_data x)) i).
Proof.
  induction n as [|n IH]; intros c Hwf.
  - exists c. split_and!; try done; try (by rewrite Nat.add_0_r). intros i Hi%elem_of_seq. lia.
  - cbn [new_bufs]. set (c1 := set_c_heap (alloc (c_heap c) {| ch_dtype := ch_dtype x; ch_data := replicate (length (ch_data x)) S754_nan |}).2 c).
    destruct (IH c1) as (c' & E & Hwf' & Hr & Hn & Hm & Hold & Hnext & Hnew); [by apply heap_wf_alloc|]. exists c'.
    split.
    { rewrite (st_bind_Ok _ _ c (dns (next_cell (c_heap c))) c1) by done. by rewrite (st_bind_Ok _ _ c1 _ c' E). }
    split; [done|]. split_and!; try done.
    + intros i Hi. rewrite Hold by (cbn; lia). unfold cell. cbn. rewrite lookup_insert_ne by lia. done.
    + rewrite Hnext. cbn. lia.
    + intros i Hi. destruct (decide (i = next_cell (c_heap c))) as [->|Hne].
      * unfold buffer. rewrite Hold by (cbn; lia). eexists. split; [unfold cell; cbn; apply lookup_insert_eq|]. cbn. by rewrite length_replicate.
      * apply Hnew. apply elem_of_seq in Hi. apply elem_of_seq. cbn. lia.
Qed.

(** Copying pairs of cells: all targets are written, nothing else. *)
Lemma copies_ok d len : ∀ (l : list (nat * nat)) c, heap_wf (c_heap c) → NoDup l.*2 → (∀ a b, a ∈ l.*1 → b ∈ l.*2 → a ≠ b) →
  Forall (buffer c d len) l.*1 → Forall (buffer c d len) l.*2 →
  ∃ c', for_each (fun p => copy (dns p.1) (dns p.2)) l c = Ok (tt, c') ∧ heap_wf (c_heap c') ∧ next_cell (c_heap c') = next_cell (c_heap c) ∧
    c_rsp c' = c_rsp c ∧ c_next c' = c_next c ∧ merge_buf_ c' = merge_buf_ c ∧ (∀ i, i ∉ l.*2 → cell c' i = cell c i) ∧
    (∀ a b x, (a, b) ∈ l → cell c a = Some x → cell c' b = Some {| ch_dtype := d; ch_data := cast_to d <$> ch_data x |}).
Proof.
  induction l as [|[a b] l IH]; intros c Hwf Hnd Hne Hsrc Hdst.
  { exists c. split_and!; try done. intros a b x Hin. by apply not_elem_of_nil in Hin. }
  cbn [fmap list_fmap fst snd] in *. apply NoDup_cons in Hnd as [Hb Hnd]. apply Forall_cons in Hsrc as [(x & Ha & Hxd & Hxl) Hsrc]. apply Forall_cons in Hdst as [Hbb Hdst].
  assert (a ≠ b) as Hab by (apply Hne; by left). set (c1 := put_cell b {| ch_dtype := d; ch_data := cast_to d <$> ch_data x |} c).
  assert (∀ i, i ≠ b → cell c1 i = cell c i) as Hfr by (intros i Hi; unfold cell; cbn; by rewrite lookup_insert_ne).
  destruct (IH c1) as (c' & E & Hwf' & Hn & Hr & Hx & Hm & Hold & Hnew).
  - destruct Hbb as (y & Hy & _). apply heap_wf_put; [done|by eexists].
  - done.
  - intros a' b' Ha' Hb'. apply Hne; by right.
  - rewrite Forall_forall in Hsrc |- *. intros i Hi. destruct (Hsrc i Hi) as (y & Hy). exists y. rewrite Hfr; [done|]. apply Hne; [by right|by left].
  - rewrite Forall_forall in Hdst |- *. intros i Hi. destruct (Hdst i Hi) as (y & Hy). exists y. rewrite Hfr; [done|]. intros ->. done.
  - exists c'. split_and!; try done.
    + cbn [for_each]. rewrite (st_bind_Ok _ _ c tt c1); [done|]. cbn. apply (copy_dns c a b x d); [done|by rewrite Hxl|done].
    + intros i [Hi Hi']%not_elem_of_cons. rewrite Hold by done. by apply Hfr.
    + intros a' b' y [E'|Hin]%elem_of_cons Hy.
      * simplify_eq. rewrite Hold by done. unfold cell. cbn. by rewrite lookup_insert_eq.
      * apply (Hnew a' b' y Hin). rewrite Hfr; [done|]. apply Hne; [right; apply list_elem_of_fmap; by exists (a', b')|by left].
Qed.

Lemma get_entry_ok c key e : merge_buf_ c !! key = Some e → get_entry key c = Ok (e, c).
Proof. intros H. unfold get_entry. rewrite gets_bind, H. rewrite modify_bind. unfold set_c_entry, default, id. rewrite insert_id by done. by destruct c. Qed.

Lemma dense_data_ok c d bs vs : Forall2 (fun b v => cell c b = Some {| ch_dtype := d; ch_data := v |}) bs vs → dense_data d (dns <$> bs) c = Ok (vs, c).
Proof.
  intros H. unfold dense_data. assert (∀ acc, foldM (fun acc a => match a with
    | Dns a => x ← deref (c_heap c) a; check (ch_dtype x =? d) "TBlob.get_with_shape: data type do not match specified type";; Ok (acc ++ [ch_data x])
    | Rsp _ => Err (Undefined "use of an empty NDArray") end) acc (dns <$> bs) = Ok (acc ++ vs)) as ->; [|done].
  induction H as [|b v bs vs Hb _ IH]; intros acc; cbn [fmap list_fmap foldM]; [by rewrite app_nil_r|].
  change (dns b) with (Dns (Some b)). cbv beta iota. rewrite (deref_cell _ _ _ Hb). rstep. rewrite check_bind_ok by (cbn; apply Z.eqb_refl). rstep. cbn [ch_data]. rewrite IH. by rewrite <- (assoc_L (++)).
Qed.

(** The sum of the values of several devices, in the element type [d]. *)
Definition reduced (d : Z) (vs : list (list float)) : list float :=
  match vs with
  | v :: rest => imap (fun k x => sum4 d x (column (map (map (cast_to d)) rest) k)) (map (cast_to d) v)
  | [] => []
  end.

Lemma length_reduced d v vs : length (reduced d (v :: vs)) = length v.
Proof. cbn. by rewrite length_imap, length_map. Qed.

Lemma reduce_dense_ok c d len m bs v vs :
  cell c m = Some {| ch_dtype := d; ch_data := v |} → length v = len → Forall2 (fun b v => cell c b = Some {| ch_dtype := d; ch_data := v |}) bs vs → Forall (fun v => length v = len) vs →
  reduce_dense bigarray_bound nthread_reduction order (Some m) (dns <$> bs) c =
    Ok (tt, put_cell m {| ch_dtype := d; ch_data := imap (fun k x => sum4 d x (column vs k)) v |} c).
Proof.
  intros Hm Hl Hbs Hvs. unfold reduce_dense. rewrite (lift_bind _ _ _ _ (deref_cell _ _ _ Hm)). cbn [ch_dtype ch_data].
  rewrite (st_bind_Ok _ _ _ _ _ (dense_data_ok c d bs vs Hbs)). subst len. rewrite (lift_bind _ _ _ _ (ReduceSumCPUImpl_ok d _ _ order v vs Hbound Horder Hvs)).
  unfold c_on_heap. by rewrite (store_data_put _ _ _ Hm).
Qed.

(** The buffers of a key: the merged array [m] and the copies [L]. *)
Definition with_copies (e : BufferEntry) (L : list nat) : BufferEntry :=
  {| be_shape := be_shape e; be_dtype := be_dtype e; be_merged := be_merged e; be_copy_buf := dns <$> L; be_sparse_merged := be_sparse_merged e |}.

Record entry_ok (c : CommCPU) (key : Z) (e : BufferEntry) (d : Z) (len m : nat) (L : list nat) : Prop := {
  eo_entry : merge_buf_ c !! key = Some e;
  eo_merged : be_merged e = Some m;
  eo_copies : be_copy_buf e = dns <$> L;
  eo_nodup : NoDup (m :: L);
  eo_bufs : Forall (buffer c d len) (m :: L)
}.

Lemma buffer_lt c d len n : heap_wf (c_heap c) → buffer c d len n → (n < next_cell (c_heap c))%nat.
Proof. intros Hwf (x & Hx & _). apply Hwf. by exists x. Qed.

(** The copy buffers of a key, made or there already. *)
Lemma copy_bufs_ok c key e d len m L n x :
  heap_wf (c_heap c) → entry_ok c key e d len m L → ch_dtype x = d → length (ch_data x) = len → (L = [] ∨ (n ≤ length L)%nat) → (0 < n)%nat →
  ∃ c' L', copy_bufs key n (CDns x) c = Ok (dns <$> L', c') ∧ heap_wf (c_heap c') ∧ (n ≤ length L')%nat ∧ (next_cell (c_heap c) ≤ next_cell (c_heap c'))%nat ∧
    merge_buf_ c' = <[key := with_copies e L']> (merge_buf_ c) ∧ entry_ok c' key (with_copies e L') d len m L' ∧
    (L' = L ∨ L = [] ∧ length L' = n ∧ ∀ i, i ∈ L' → (next_cell (c_heap c) ≤ i)%nat) ∧
    (∀ i, (i < next_cell (c_heap c))%nat → cell c' i = cell c i).
Proof.
  intros Hwf He Hd Hl HL Hn. unfold copy_bufs. rewrite (st_bind_Ok _ _ _ _ _ (get_entry_ok c key e (eo_entry _ _ _ _ _ _ _ He))).
  destruct He as [H1 H2 H3 H4 H5]. rewrite H3, length_fmap. destruct L as [|b L].
  - cbn [length Nat.eqb]. destruct (new_bufs_dns x n c Hwf) as (c1 & E & Hwf1 & Hr & Hx & Hm & Hold & Hnext & Hnew). rewrite (st_bind_Ok _ _ _ _ _ E), modify_bind.
    set (L' := seq (next_cell (c_heap c)) n) in *.
    assert (∀ y, y ∈ [m] → buffer (set_c_entry key (with_copies e L') c1) d len y) as Hb.
    { intros y ->%list_elem_of_singleton. rewrite Forall_singleton in H5. pose proof (buffer_lt _ _ _ _ Hwf H5). destruct H5 as (z & Hz & Hz'). exists z.
      split; [|done]. change (cell c1 m = Some z). by rewrite Hold. }
    eexists _, L'. split; [done|]. split_and!.
    + done.
    + unfold L'. rewrite length_seq. lia.
    + cbn. lia.
    + cbn. by rewrite Hm.
    + constructor; [cbn; by rewrite lookup_insert_eq|done|done| |].
      * constructor; [|apply NoDup_seq]. intros Hin%elem_of_seq. rewrite Forall_singleton in H5. pose proof (buffer_lt _ _ _ _ Hwf H5). lia.
      * constructor; [apply Hb; by left|]. apply Forall_forall. intros i Hi. destruct (Hnew i Hi) as (z & Hz & Hz1 & Hz2). exists z. split; [done|]. split; congruence.
    + right. split; [done|]. split; [apply length_seq|]. intros i Hi%elem_of_seq. lia.
    + intros i Hi. change (cell c1 i = cell c i). by apply Hold.
  - cbn [length Nat.eqb]. destruct HL as [|HL]; [done|]. assert (with_copies e (b :: L) = e) as Ee by (unfold with_copies; rewrite <- H3; by destruct e).
    exists c, (b :: L). rewrite Ee. split; [done|]. split_and!; try done; [by rewrite insert_id|by left].
Qed.

Lemma entry_put c key e d len m L x : entry_ok c key e d len m L → ch_dtype x = d → length (ch_data x) = len → entry_ok (put_cell m x c) key e d len m L.
Proof.
  intros [H1 H2 H3 H4 H5] Hd Hl. constructor; try done. apply Forall_cons in H5 as [_ H5]. apply NoDup_cons in H4 as [Hm _]. constructor.
  - exists x. split; [unfold cell; cbn; by rewrite lookup_insert_eq|done].
  - rewrite Forall_forall in H5 |- *. intros i Hi. destruct (H5 i Hi) as (y & Hy & Hy'). exists y. split; [|done]. unfold cell. cbn. rewrite lookup_insert_ne; [done|]. by intros ->.
Qed.

(** Reducing the dense arrays [as_] of several devices: the sum is in the merged array. *)
Lemma Reduce_ok c key e d len m L as_ xs :
  heap_wf (c_heap c) → entry_ok c key e d len m L → (2 ≤ length as_)%nat → (L = [] ∨ (length as_ - 1 ≤ length L)%nat) →
  Forall2 (fun a x => cell c a = Some x ∧ ch_dtype x = d ∧ length (ch_data x) = len) as_ xs → (∀ a, a ∈ as_ → a ∉ m :: L) →
  ∃ c' L', Reduce bigarray_bound nthread_reduction order is_serial_push_ max_threads key (dns <$> as_) c = Ok (dns m, c') ∧
    heap_wf (c_heap c') ∧ (next_cell (c_heap c) ≤ next_cell (c_heap c'))%nat ∧ (length as_ - 1 ≤ length L')%nat ∧
    merge_buf_ c' = <[key := with_copies e L']> (merge_buf_ c) ∧ entry_ok c' key (with_copies e L') d len m L' ∧
    (L' = L ∨ L = [] ∧ length L' = (length as_ - 1)%nat ∧ ∀ i, i ∈ L' → (next_cell (c_heap c) ≤ i)%nat) ∧
    (∀ i, (i < next_cell (c_heap c))%nat → i ∉ m :: L → cell c' i = cell c i) ∧
    cell c' m = Some {| ch_dtype := d; ch_data := reduced d (ch_data <$> xs) |}.
Proof.
  intros Hwf He H2 HL Has Hdis. destruct Has as [|a x as_ xs (Ha & Hxd & Hxl) Has]; [cbn in H2; lia|]. pose proof He as [E1 E2 E3 E4 E5].
  assert (a ≠ m) as Ham by (specialize (Hdis a ltac:(by left)); set_solver). apply Forall_cons in E5 as [Hm5 _].
  unfold Reduce. rewrite (st_bind_Ok _ _ _ _ _ (get_entry_ok c key e E1)). rewrite (lift_bind _ _ (dns a)) by done. rewrite length_fmap.
  rewrite (proj2 (Nat.eqb_neq _ _)) by lia. cbn [is_rsp dns]. rewrite E2. change (Dns (Some m)) with (dns m).
  set (v0 := {| ch_dtype := d; ch_data := cast_to d <$> ch_data x |}). set (c1 := put_cell m v0 c).
  rewrite (st_bind_Ok _ _ c tt c1) by (apply copy_dns; [done|by rewrite Hxl|done]).
  assert (∀ i, i ≠ m → cell c1 i = cell c i) as Hc1 by (intros i Hi; unfold cell; cbn; by rewrite lookup_insert_ne).
  rewrite (st_bind_Ok _ _ _ _ _ (read_dns c1 a x ltac:(by rewrite Hc1))).
  assert (heap_wf (c_heap c1)) as Hwf1 by (destruct Hm5 as (y & Hy & _); apply heap_wf_put; [done|by eexists]).
  assert (entry_ok c1 key e d len m L) as He1 by (apply entry_put; [done|done|cbn; by rewrite length_fmap]).
  destruct (copy_bufs_ok c1 key e d len m L (length (a :: as_) - 1) x Hwf1 He1 Hxd Hxl HL ltac:(lia)) as (c2 & L' & E & Hwf2 & HlL & Hnx2 & Hmb2 & He2 & Hcase & Hc2).
  rewrite (st_bind_Ok _ _ _ _ _ E). cbn [length] in *. replace (S (length as_) - 1)%nat with (length as_) in * by lia.
  destruct L' as [|b0 L']; [cbn in HlL; lia|]. rewrite (lift_bind _ _ (dns b0)) by done. rewrite ensure_bind by done.
  pose proof He2 as [F1 F2 F3 F4 F5]. apply NoDup_cons in F4 as [HmL HLnd]. apply Forall_cons in F5 as [Fm FL].
  assert (∀ i, (i < next_cell (c_heap c))%nat → i ∉ m :: L → i ∉ b0 :: L' ∧ cell c2 i = cell c i) as Hfr.
  { intros i Hi [Him HiL]%not_elem_of_cons. split; [|rewrite Hc2 by done; by apply Hc1]. destruct Hcase as [->|(_ & _ & Hf)]; [done|]. intros Hin%Hf. change (next_cell (c_heap c1)) with (next_cell (c_heap c)) in Hin. lia. }
  set (bs := take (length as_) (b0 :: L')) in *. assert (length bs = length as_) as Hlbs by (unfold bs; rewrite length_take; cbn in HlL |- *; lia).
  assert (∀ b, b ∈ bs → b ∈ b0 :: L') as Hsub by (intros b Hb; by apply elem_of_take in Hb as (? & ? & _); eapply list_elem_of_lookup_2).
  assert (∀ a', a' ∈ as_ → ∃ y, cell c2 a' = Some y ∧ cell c a' = Some y ∧ ch_dtype y = d ∧ length (ch_data y) = len ∧ a' ∉ bs) as Hsrc.
  { intros a' [j Hj]%list_elem_of_lookup. destruct (Forall2_lookup_l _ _ _ _ _ Has Hj) as (y & _ & Hy & Hyd & Hyl). exists y.
    destruct (Hfr a') as [Hnin Hcell]; [apply Hwf; by exists y|apply Hdis; right; by eapply list_elem_of_lookup_2|]. rewrite Hcell. split_and!; try done. intros Hin. by apply Hnin, Hsub. }
  assert ((zip as_ bs).*1 = as_) as Hz1 by (apply fst_zip; rewrite Hlbs; done). assert ((zip as_ bs).*2 = bs) as Hz2 by (apply snd_zip; rewrite Hlbs; done).
  destruct (copies_ok d len (zip as_ bs) c2) as (c3 & E3' & Hwf3 & Hnx3 & Hr3 & Hx3 & Hmb3 & Hc3 & Hnew); rewrite ?Hz1, ?Hz2.
  { done. }
  { unfold bs. apply (NoDup_app (take (length as_) (b0 :: L')) (drop (length as_) (b0 :: L'))). by rewrite take_drop. }
  { intros a' b' (y & _ & _ & _ & _ & Hn)%Hsrc Hb' ->. done. }
  { apply Forall_forall. intros a' (y & Hy & _ & Hyd & Hyl & _)%Hsrc. by exists y. }
  { unfold bs. by apply Forall_take. }
  rewrite (st_bind_Ok _ _ c2 tt c3).
  2:{ rewrite <- E3'. replace (length as_) with (length (zip as_ bs)) by (rewrite length_zip_with; lia). apply for_each_lookup. intros i [a' b'] s' (a1 & b1 & ? & Hi1 & Hi2)%lookup_zip_with_Some.
      simplify_eq. unfold copy_in. rewrite (lift_bind _ _ (dns a1)) by (apply rd_ok; rewrite list_lookup_fmap; change ((a :: as_) !! (1 + i)%nat) with (as_ !! i); by rewrite Hi1).
      rewrite (lift_bind _ _ (dns b1)); [done|]. apply rd_ok. replace (1 + i - 1)%nat with i by lia. apply lookup_take_Some in Hi2 as [Hi2 _]. by rewrite list_lookup_fmap, Hi2. }
  rewrite <- fmap_take. fold bs.
  assert (cell c3 m = Some v0) as Hm3.
  { rewrite Hz2 in Hc3. rewrite Hc3 by (intros Hin; by apply HmL, Hsub). rewrite Hc2; [unfold cell; cbn; by rewrite lookup_insert_eq|]. apply (buffer_lt _ _ _ _ Hwf Hm5). }
  set (vs := map (map (cast_to d)) (ch_data <$> xs)).
  assert (Forall2 (fun b v => cell c3 b = Some {| ch_dtype := d; ch_data := v |}) bs vs) as Hvs.
  { unfold vs. apply Forall2_same_length_lookup_2; [rewrite length_map, length_fmap, Hlbs; by apply Forall2_length in Has|]. intros i b v Hb Hv.
    apply list_lookup_fmap_Some in Hv as (w & -> & Hv). apply list_lookup_fmap_Some in Hv as (y & -> & Hy). destruct (Forall2_lookup_r _ _ _ _ _ Has Hy) as (a' & Ha' & Hcy & _).
    apply (Hnew a' b y); [apply (list_elem_of_lookup_2 _ i); by apply lookup_zip_with_Some; exists a', b|]. by destruct (Hsrc a') as (y' & Hy1 & Hy2 & _); [by eapply list_elem_of_lookup_2|congruence]. }
  assert (Forall (fun v => length v = len) vs) as Hlvs.
  { apply Forall_forall. intros v (w & -> & (y & -> & Hy)%list_elem_of_fmap)%list_elem_of_fmap. rewrite length_map. apply list_elem_of_lookup in Hy as [j Hj].
    by destruct (Forall2_lookup_r _ _ _ _ _ Has Hj) as (? & _ & _ & _ & ?). }
  rewrite (st_bind_Ok _ _ _ _ _ (reduce_dense_ok c3 d len m bs (cast_to d <$> ch_data x) vs Hm3 ltac:(by rewrite length_fmap) Hvs Hlvs)).
  set (c4 := put_cell m _ c3). exists c4, (b0 :: L'). split; [done|].
  assert (∀ i, i ≠ m → i ∉ b0 :: L' → cell c4 i = cell c2 i) as Hc4.
  { intros i Hi HiL. unfold cell, c4. cbn. rewrite lookup_insert_ne by done. apply Hc3. rewrite Hz2. intros Hin. by apply HiL, Hsub. }
  split_and!.
  - apply heap_wf_put; [done|by eexists].
  - cbn. rewrite Hnx3. done.
  - cbn [length]. cbn [length] in HlL. lia.
  - cbn. by rewrite Hmb3.
  - apply entry_put; [|done|cbn; by rewrite length_imap, length_fmap]. constructor; [by rewrite Hmb3|done|done|by constructor|].
    constructor; [by eexists; split; [exact Hm3|split; [done|cbn; by rewrite length_fmap]]|]. rewrite Forall_forall in FL |- *. intros b Hb. destruct (decide (b ∈ bs)) as [Hin|Hnin].
    + apply list_elem_of_lookup in Hin as [j Hj]. destruct (Forall2_lookup_l _ _ _ _ _ Hvs Hj) as (v & Hv & Hcb). eexists. split; [exact Hcb|]. split; [done|]. cbn. by apply (Forall_lookup_1 _ _ _ _ Hlvs Hv).
    + destruct (FL b Hb) as (y & Hy & Hy'). exists y. rewrite Hc3 by (by rewrite Hz2). done.
  - exact Hcase.
  - intros i Hi Hni. destruct (Hfr i Hi Hni) as [HiL <-]. apply Hc4; [|done]. intros ->. apply Hni. by left.
  - unfold cell, c4. cbn. by rewrite lookup_insert_eq.
Qed.
End Dense.

(** ** A sort *)
Definition w_le (a b : Z * nat) : Prop := a.1 ≤ b.1.
#[export] Instance w_le_dec a b : Decision (w_le a b) := Z_le_dec a.1 b.1.
Definition w_sort : list (Z * nat) → list (Z * nat) := merge_sort w_le.
Lemma w_sort_sorted l : StronglySorted Z.le (w_sort l).*1.
Proof.
  assert (StronglySorted w_le (w_sort l)) as H.
  { apply StronglySorted_merge_sort; [intros a b c; unfold w_le; lia|intros a b; unfold w_le; lia]. }
  induction H as [|a l' _ IH Ha]; cbn; constructor; [done|]. apply Forall_fmap. eapply Forall_impl; [exact Ha|done].
Qed.
