(* ===== verification/LocalStoreRefines.v ===== *)
(** * The local store refines a map of values

    The abstract store maps each key to a value; a push replaces the value by what the
    optimizer makes of it and the sum of the pushed arrays, a pull copies it out.  The
    theorem is about dense arrays and integer keys. *)

From Stdlib Require Import SpecFloat.
From stdpp Require Import sorting.
From S2P Require Import Prelude StdAlgo Floats Sparse Command NDArray SparseOps Comm KVStoreLocal LocalStoreSpec.
Local Open Scope Z_scope.

(** ** The abstract store *)
Record LKey := { lk_dtype : Z; lk_value : list float; lk_copies : nat }.
Inductive op := OInit (keys : list Z) (vals : list nat) | OPush (keys : list Z) (vals : list nat) | OPull (keys : list Z) (dsts : list nat).

Section Abstract.
Context (sort : list (Z * nat) → list (Z * nat)) (updater_ : option (Z → contents → contents → contents)).

(** The arrays of the caller are [U]. *)
Definition abs_init (U : gmap nat chunk) (σ : gmap Z LKey) (p : Z * nat) : option (gmap Z LKey) :=
  x ← U !! p.2;
  match σ !! p.1 with
  | Some _ => None
  | None => Some (<[p.1 := {| lk_dtype := ch_dtype x; lk_value := cast_to (ch_dtype x) <$> ch_data x; lk_copies := 0 |}]> σ)
  end.

(** What is handed to the optimizer: the array itself, or the sum of several. *)
Definition merged_of (st : LKey) (xs : list chunk) : chunk :=
  match xs with
  | [x] => x
  | _ => {| ch_dtype := lk_dtype st; ch_data := reduced (lk_dtype st) (ch_data <$> xs) |}
  end.
Definition updated_of (key : Z) (st : LKey) (xs : list chunk) : list float :=
  match updater_ with
  | Some f => match f key (CDns (merged_of st xs)) (CDns {| ch_dtype := lk_dtype st; ch_data := lk_value st |}) with CDns y => ch_data y | CRsp _ => [] end
  | None => ch_data (merged_of st xs)
  end.

(** Several arrays need as many copy buffers, less one, as were made at first. *)
Definition push_fits (st : LKey) (g : list nat) : bool :=
  if (length g =? 1)%nat then match updater_ with Some _ => true | None => false end
  else (2 <=? length g)%nat && ((lk_copies st =? 0)%nat || (length g - 1 <=? lk_copies st)%nat).
Definition copies_after (st : LKey) (g : list nat) : nat := if (lk_copies st =? 0)%nat then (length g - 1)%nat else lk_copies st.

Definition abs_push (U : gmap nat chunk) (σ : gmap Z LKey) (p : Z * list nat) : option (gmap Z LKey) :=
  st ← σ !! p.1;
  xs ← mapM (fun a => U !! a) p.2;
  if forallb (fun x => (ch_dtype x =? lk_dtype st) && (length (ch_data x) =? length (lk_value st))%nat) xs && push_fits st p.2 then
    Some (<[p.1 := {| lk_dtype := lk_dtype st; lk_value := updated_of p.1 st xs; lk_copies := copies_after st p.2 |}]> σ)
  else None.

Fixpoint foldO {A B} (f : B → A → option B) (b : B) (l : list A) : option B :=
  match l with [] => Some b | x :: l => b' ← f b x; foldO f b' l end.

Definition abs_pull (σ : gmap Z LKey) (U : gmap nat chunk) (p : Z * list nat) : option (gmap nat chunk) :=
  st ← σ !! p.1;
  foldO (fun U a =>
    x ← U !! a;
    if (length (ch_data x) =? length (lk_value st))%nat then Some (<[a := {| ch_dtype := ch_dtype x; ch_data := cast_to (ch_dtype x) <$> lk_value st |}]> U)
    else None) U p.2.

(** The arguments of a call that groups its values. *)
Definition args_ok (keys : list Z) (vals : list nat) : bool :=
  negb (length keys =? 0)%nat && (length keys =? length vals)%nat && forallb (fun k => (- 2 ^ 31 <? k) && (k <? 2 ^ 31)) keys.
Definition call_groups (keys : list Z) (vals : list nat) : list (Z * list nat) := groups_of sort (fun _ _ => true) keys vals.

Definition abs_step (st : gmap Z LKey * gmap nat chunk) (o : op) : option (gmap Z LKey * gmap nat chunk) :=
  let '(σ, U) := st in
  match o with
  | OInit keys vals =>
      if (length keys =? length vals)%nat then σ' ← foldO (abs_init U) σ (zip keys vals); Some (σ', U) else None
  | OPush keys vals =>
      if args_ok keys vals then σ' ← foldO (abs_push U) σ (call_groups keys vals); Some (σ', U) else None
  | OPull keys dsts =>
      if args_ok keys dsts then U' ← foldO (abs_pull σ) U (call_groups keys dsts); Some (σ, U') else None
  end.
End Abstract.

(** ** The invariant *)
Section Refinement.
Context (sort : list (Z * nat) → list (Z * nat)).
Context (bigarray_bound nthread_reduction : Z) (order : nat → list nat) (is_serial_push_ : bool) (max_threads : nat).
Context (updater_ : option (Z → contents → contents → contents)) (str_updater_ : option (string → contents → contents → contents)).
Hypothesis sort_perm : ∀ l, sort l ≡ₚ l.
Hypothesis sort_sorted : ∀ l, StronglySorted Z.le (sort l).*1.
Hypothesis Hbound : 0 < bigarray_bound.
Hypothesis Horder : ∀ n, order n ≡ₚ seq 0 n.
Hypothesis Hupd : ∀ f key m x, updater_ = Some f → ∃ y, f key (CDns m) (CDns x) = CDns y ∧ length (ch_data y) = length (ch_data x).

Definition run_op (o : op) : lst unit :=
  match o with
  | OInit keys vals => Init keys (dns <$> vals)
  | OPush keys vals => Push sort bigarray_bound nthread_reduction order is_serial_push_ max_threads updater_ str_updater_ keys (dns <$> vals)
  | OPull keys dsts => Pull sort keys (dns <$> dsts) true
  end.

Definition owns (s : KVStoreLocal) (k : Z) (i : nat) : Prop :=
  local_ s !! k = Some (dns i) ∨ ∃ e, merge_buf_ (comm_ s) !! k = Some e ∧ (be_merged e = Some i ∨ dns i ∈ be_copy_buf e).

(** The arrays of a key: its value [n], the merged array [m] and the copies [L]. *)
Record key_rep (s : KVStoreLocal) (k : Z) (st : LKey) (n : nat) (e : BufferEntry) (m : nat) (L : list nat) : Prop := {
  kr_local : local_ s !! k = Some (dns n);
  kr_value : cell (comm_ s) n = Some {| ch_dtype := lk_dtype st; ch_data := lk_value st |};
  kr_entry : entry_ok (comm_ s) k e (lk_dtype st) (length (lk_value st)) m L;
  kr_copies : lk_copies st = length L;
  kr_apart : n ∉ L;
  kr_own : updater_ ≠ None → n ≠ m
}.

Record Inv (σ : gmap Z LKey) (U : gmap nat chunk) (s : KVStoreLocal) : Prop := {
  i_wf : heap_wf (c_heap (comm_ s));
  i_user : ∀ a x, U !! a = Some x → cell (comm_ s) a = Some x ∧ ∀ k, ¬ owns s k a;
  i_sep : ∀ k k' i, owns s k i → owns s k' i → k = k';
  i_none : ∀ k, σ !! k = None → local_ s !! k = None ∧ merge_buf_ (comm_ s) !! k = None;
  i_some : ∀ k st, σ !! k = Some st → ∃ n e m L, key_rep s k st n e m L;
  i_type : key_type_ s ≠ kStringKey
}.

Lemma owns_rep s k st n e m L i : key_rep s k st n e m L → owns s k i ↔ i ∈ n :: m :: L.
Proof.
  intros [H1 _ [E1 E2 E3 _ _] _ _ _]. unfold owns. rewrite H1, !elem_of_cons. split.
  - intros [H|(e' & He & H)]; [left; by injection H|]. rewrite E1 in He. injection He as <-. rewrite E2, E3 in H. right. destruct H as [H|H]; [left; congruence|right].
    apply list_elem_of_fmap in H as (j & Hj & Hin). by injection Hj as ->.
  - intros [->|[->|H]]; [by left|right; exists e; by rewrite E2; auto|]. right. exists e. split; [done|]. right. rewrite E3. apply list_elem_of_fmap. by exists i.
Qed.

Lemma rep_lt s k st n e m L i : heap_wf (c_heap (comm_ s)) → key_rep s k st n e m L → i ∈ n :: m :: L → (i < next_cell (c_heap (comm_ s)))%nat.
Proof.
  intros Hwf H Hi. apply elem_of_cons in Hi as [->|Hi]; [apply Hwf; eexists; apply (kr_value _ _ _ _ _ _ _ H)|].
  pose proof (eo_bufs _ _ _ _ _ _ _ (kr_entry _ _ _ _ _ _ _ H)) as Hb. rewrite Forall_forall in Hb. by eapply buffer_lt; [|apply Hb].
Qed.

Lemma owned_lt σ U s k i : Inv σ U s → owns s k i → (i < next_cell (c_heap (comm_ s)))%nat.
Proof.
  intros HI Ho. destruct (σ !! k) as [st|] eqn:E.
  - destruct (i_some _ _ _ HI k st E) as (n & e & m & L & H). apply (owns_rep _ _ _ _ _ _ _ _ H) in Ho. by apply (rep_lt _ _ _ _ _ _ _ _ (i_wf _ _ _ HI) H).
  - destruct (i_none _ _ _ HI k E) as [Hl Hm]. destruct Ho as [Ho|(e & He & _)]; congruence.
Qed.

(** One key changes; its new arrays are old ones of the key or new. *)
Lemma Inv_update σ U s s' k st' n e m L :
  Inv σ U s → heap_wf (c_heap (comm_ s')) → (next_cell (c_heap (comm_ s)) ≤ next_cell (c_heap (comm_ s')))%nat →
  (∀ k', k' ≠ k → local_ s' !! k' = local_ s !! k') → (∀ k', k' ≠ k → merge_buf_ (comm_ s') !! k' = merge_buf_ (comm_ s) !! k') →
  (∀ i, (i < next_cell (c_heap (comm_ s)))%nat → ¬ owns s k i → cell (comm_ s') i = cell (comm_ s) i) →
  (∀ i, i ∈ n :: m :: L → owns s k i ∨ (next_cell (c_heap (comm_ s)) ≤ i)%nat) →
  key_rep s' k st' n e m L → key_type_ s' ≠ kStringKey → Inv (<[k := st']> σ) U s'.
Proof.
  intros HI Hwf Hnx Hl Hm Hc Hown Hrep Ht.
  assert (∀ k' i, k' ≠ k → owns s' k' i ↔ owns s k' i) as Ho by (intros k' i Hk; unfold owns; by rewrite Hl, Hm).
  assert (∀ i, owns s' k i → owns s k i ∨ (next_cell (c_heap (comm_ s)) ≤ i)%nat) as Hok by (intros i Hi; apply Hown; by apply (owns_rep _ _ _ _ _ _ _ _ Hrep)).
  constructor; [done|..|done].
  - intros a x Ha. destruct (i_user _ _ _ HI a x Ha) as [Hx Hno]. assert (a < next_cell (c_heap (comm_ s)))%nat as Hlt by (apply (i_wf _ _ _ HI); by eexists).
    split; [rewrite Hc; [done|done|apply Hno]|]. intros k' Hk'. destruct (decide (k' = k)) as [->|Hne]; [|by apply (Hno k'), Ho]. destruct (Hok a Hk') as [?|?]; [by apply (Hno k)|lia].
  - assert (∀ k' i, k' ≠ k → owns s' k' i → ¬ owns s' k i) as Hx.
    { intros k' i Hk' Hi Hk. rewrite Ho in Hi by done. destruct (Hok i Hk) as [Hold|Hge]; [by apply Hk', (i_sep _ _ _ HI k' k i)|]. pose proof (owned_lt _ _ _ _ _ HI Hi). lia. }
    intros k1 k2 i H1 H2. destruct (decide (k1 = k)) as [->|Hn1], (decide (k2 = k)) as [->|Hn2]; [done|by destruct (Hx k2 i)|by destruct (Hx k1 i)|].
    rewrite Ho in H1, H2 by done. by apply (i_sep _ _ _ HI k1 k2 i).
  - intros k' Hk'. apply lookup_insert_None in Hk' as [Hk' Hne]. rewrite Hl, Hm by congruence. by apply (i_none _ _ _ HI).
  - intros k' st Hst. destruct (decide (k' = k)) as [->|Hne]; [rewrite lookup_insert_eq in Hst; simplify_eq; eauto|]. rewrite lookup_insert_ne in Hst by congruence.
    destruct (i_some _ _ _ HI k' st Hst) as (n' & e' & m' & L' & H). exists n', e', m', L'.
    assert (∀ i, i ∈ n' :: m' :: L' → cell (comm_ s') i = cell (comm_ s) i) as Hsame.
    { intros i Hi. apply (owns_rep _ _ _ _ _ _ _ _ H) in Hi. apply Hc; [by apply (owned_lt _ _ _ _ _ HI Hi)|]. intros Hk. by apply Hne, (i_sep _ _ _ HI k' k i). }
    destruct H as [H1 H2 [E1 E2 E3 E4 E5] H4 H5 H6]. constructor; try done; [by rewrite Hl|by rewrite Hsame by (by left)|].
    constructor; try done; [by rewrite Hm|]. rewrite Forall_forall in E5 |- *. intros i Hi. destruct (E5 i Hi) as (x & Hx & Hx'). exists x. rewrite Hsame by (by right). done.
Qed.

(** ** Initialising *)
Lemma on_comm_ok {A} (m : st CommCPU A) s a c' : m (comm_ s) = Ok (a, c') → on_comm m s = Ok (a, set_comm c' s).
Proof. intros H. unfold on_comm. by rewrite H. Qed.
Lemma set_comm_id s : set_comm (comm_ s) s = s.
Proof. by destruct s. Qed.

Lemma array_copy_ok c a x : heap_wf (c_heap c) → cell c a = Some x →
  ∃ c', array_copy (dns a) c = Ok (dns (next_cell (c_heap c)), c') ∧ heap_wf (c_heap c') ∧ next_cell (c_heap c') = S (next_cell (c_heap c)) ∧ merge_buf_ c' = merge_buf_ c ∧
    (∀ i, (i < next_cell (c_heap c))%nat → cell c' i = cell c i) ∧
    cell c' (next_cell (c_heap c)) = Some {| ch_dtype := ch_dtype x; ch_data := cast_to (ch_dtype x) <$> ch_data x |}.
Proof.
  intros Hwf Hx. unfold array_copy. rewrite (st_bind_Ok _ _ _ _ _ (read_dns c a x Hx)).
  destruct (new_bufs_dns x 1 c Hwf) as (c1 & E & Hwf1 & _ & _ & Hm & Hold & Hnext & Hnew). rewrite (st_bind_Ok _ _ _ _ _ E). set (b := next_cell (c_heap c)) in *.
  rewrite (lift_bind _ _ (dns b)) by done. assert (a < b)%nat as Hlt by (apply Hwf; by exists x). destruct (Hnew b) as (y & Hy & Hyd & Hyl); [by apply elem_of_seq; lia|].
  rewrite (st_bind_Ok _ _ c1 tt (put_cell b {| ch_dtype := ch_dtype x; ch_data := cast_to (ch_dtype x) <$> ch_data x |} c1)); [|apply copy_dns; [by rewrite Hold|by exists y|lia]].
  eexists. split; [done|]. split_and!.
  - apply heap_wf_put; [done|by exists y].
  - cbn. lia.
  - done.
  - intros i Hi. unfold cell. cbn. rewrite lookup_insert_ne by lia. by apply Hold.
  - unfold cell. cbn. by rewrite lookup_insert_eq.
Qed.

Lemma init_one_ok σ σ' U s k a values i : Inv σ U s → abs_init U σ (k, a) = Some σ' → values !! i = Some (dns a) →
  ∃ s', (l ← gets local_;
    ensure (negb (bool_decide (is_Some (l !! k)))) "duplicate init of key";;
    v ← lift (rd values i);
    b ← on_comm (array_copy v);
    modify (fun s => set_local (<[k := b]> (local_ s)) s);;
    x ← on_comm (c_read v);
    on_comm (Comm_Init k (contents_shape x) (contents_dtype x))) s = Ok (tt, s') ∧ Inv σ' U s'.
Proof.
  intros HI Ha Hi. unfold abs_init in Ha. cbn [fst snd] in Ha. destruct (U !! a) as [x|] eqn:Ex; [|done]. cbn in Ha. destruct (σ !! k) as [|] eqn:Ek; [done|]. injection Ha as <-.
  destruct (i_user _ _ _ HI a x Ex) as [Hx Hno]. destruct (i_none _ _ _ HI k Ek) as [Hl Hm]. pose proof (i_wf _ _ _ HI) as Hwf.
  rewrite gets_bind. rewrite ensure_bind by (rewrite Hl; done). rewrite (lift_bind _ _ (dns a)) by (by apply rd_ok).
  destruct (array_copy_ok (comm_ s) a x Hwf Hx) as (c1 & E1 & Hwf1 & Hn1 & Hm1 & Hold1 & Hnew1). rewrite (st_bind_Ok _ _ _ _ _ (on_comm_ok _ _ _ _ E1)). rewrite modify_bind.
  set (b := next_cell (c_heap (comm_ s))) in *. assert (a < b)%nat as Hlt by (apply Hwf; by exists x).
  set (s1 := set_local _ _). rewrite (st_bind_Ok _ _ s1 (CDns x) s1).
  2:{ assert (c_read (dns a) (comm_ s1) = Ok (CDns x, comm_ s1)) as E by (apply read_dns; cbn; by rewrite Hold1). by rewrite (on_comm_ok _ _ _ _ E), set_comm_id. }
  set (e := {| be_shape := contents_shape (CDns x); be_dtype := ch_dtype x; be_merged := Some (S b); be_copy_buf := []; be_sparse_merged := None |}).
  set (c2 := set_c_entry k e (set_c_heap (alloc (c_heap c1) {| ch_dtype := ch_dtype x; ch_data := replicate (length (ch_data x)) S754_nan |}).2 (set_c_entry k no_entry c1))).
  assert (Comm_Init k (contents_shape (CDns x)) (contents_dtype (CDns x)) (comm_ s1) = Ok (tt, c2)) as E2.
  { unfold Comm_Init, get_entry. cbn [comm_ s1 set_local set_comm]. rewrite Hm1 || idtac. unfold mbind, st_bind, gets, modify, mret, st_ret. cbn [merge_buf_]. rewrite Hm1, Hm. cbn.
    rewrite Z.mul_1_r, Nat2Z.id. unfold c2, e. cbn. by rewrite Hn1. }
  exists (set_comm c2 s1). split; [by rewrite (on_comm_ok _ _ _ _ E2)|].
  assert (∀ i, (i < b)%nat → cell c2 i = cell (comm_ s) i) as Hc2.
  { intros j Hj. unfold cell, c2. cbn. rewrite lookup_insert_ne by lia. by apply Hold1. }
  apply (Inv_update _ _ s (set_comm c2 s1) k _ b e (S b) []); [done|..].
  - apply heap_wf_alloc. done.
  - cbn. fold b. lia.
  - intros k' Hk'. cbn. by rewrite lookup_insert_ne.
  - intros k' Hk'. cbn. rewrite !lookup_insert_ne by done. by rewrite Hm1.
  - intros j Hj _. by apply Hc2.
  - intros j Hj. right. change (j ∈ [b; S b]) in Hj. rewrite !elem_of_cons, elem_of_nil in Hj. lia.
  - constructor; cbn; [by rewrite lookup_insert_eq| | |done|set_solver|lia].
    + unfold cell, c2. cbn. rewrite lookup_insert_ne by lia. exact Hnew1.
    + constructor; [cbn; by rewrite lookup_insert_eq|done|done|by repeat constructor; set_solver|]. repeat constructor. eexists. split; [unfold cell, c2; cbn; rewrite Hn1; apply lookup_insert_eq|].
      cbn. by rewrite length_replicate, length_fmap.
  - apply (i_type _ _ _ HI).
Qed.

(** ** Pushing *)
Lemma mapM_users σ U s g xs : Inv σ U s → mapM (fun a => U !! a) g = Some xs → Forall2 (fun a x => U !! a = Some x ∧ cell (comm_ s) a = Some x ∧ ∀ k, ¬ owns s k a) g xs.
Proof. intros HI H. apply mapM_Some in H. eapply Forall2_impl; [exact H|]. intros a x Ha. destruct (i_user _ _ _ HI a x Ha). done. Qed.

Lemma reduce_step σ U s k st n e m L g xs :
  Inv σ U s → key_rep s k st n e m L → mapM (fun a => U !! a) g = Some xs →
  forallb (fun x => (ch_dtype x =? lk_dtype st) && (length (ch_data x) =? length (lk_value st))%nat) xs = true → push_fits updater_ st g = true →
  ∃ c1 mm L', Reduce bigarray_bound nthread_reduction order is_serial_push_ max_threads k (dns <$> g) (comm_ s) = Ok (dns mm, c1) ∧
    heap_wf (c_heap c1) ∧ (next_cell (c_heap (comm_ s)) ≤ next_cell (c_heap c1))%nat ∧ merge_buf_ c1 = <[k := with_copies e L']> (merge_buf_ (comm_ s)) ∧
    entry_ok c1 k (with_copies e L') (lk_dtype st) (length (lk_value st)) m L' ∧ length L' = copies_after st g ∧
    (∀ i, i ∈ L' → i ∈ L ∨ (next_cell (c_heap (comm_ s)) ≤ i)%nat) ∧ (∀ i, (i < next_cell (c_heap (comm_ s)))%nat → i ∉ m :: L → cell c1 i = cell (comm_ s) i) ∧
    cell c1 mm = Some (merged_of st xs) ∧ (updater_ ≠ None ∨ mm = m) ∧ ch_dtype (merged_of st xs) = lk_dtype st ∧ length (ch_data (merged_of st xs)) = length (lk_value st).
Proof.
  intros HI Hrep Hxs Hall Hfit. pose proof (mapM_users _ _ _ _ _ HI Hxs) as Hu. pose proof (kr_entry _ _ _ _ _ _ _ Hrep) as He. pose proof (i_wf _ _ _ HI) as Hwf.
  assert (Forall (fun x => ch_dtype x = lk_dtype st ∧ length (ch_data x) = length (lk_value st)) xs) as Hok.
  { apply Forall_forall. intros x Hx. rewrite List.forallb_forall in Hall. apply list_elem_of_In, Hall, andb_prop in Hx as [H1 H2]. apply Z.eqb_eq in H1. by apply Nat.eqb_eq in H2. }
  unfold push_fits in Hfit. unfold copies_after. rewrite (kr_copies _ _ _ _ _ _ _ Hrep) in *. destruct (Nat.eqb_spec (length g) 1) as [H1|H1].
  - assert (updater_ ≠ None) as Hne by (by destruct updater_). destruct Hu as [|a x g' xs' (_ & Ha & _) Hu']; [done|]. destruct Hu' as [|? ? ? ? ? Hu']; [|done]. apply Forall_cons in Hok as [[Hd Hl] _].
    assert (with_copies e L = e) as Ee by (unfold with_copies; rewrite <- (eo_copies _ _ _ _ _ _ _ He); by destruct e).
    exists (comm_ s), a, L. rewrite Ee. split; [unfold Reduce; rewrite (st_bind_Ok _ _ _ _ _ (get_entry_ok _ _ _ (eo_entry _ _ _ _ _ _ _ He))); done|].
    split_and!; try done; [by rewrite insert_id by apply (eo_entry _ _ _ _ _ _ _ He)| |by left|by left]. destruct (Nat.eqb_spec (length L) 0); cbn; lia.
  - apply andb_prop in Hfit as [H2 Hc]. apply Nat.leb_le in H2.
    destruct (Reduce_ok bigarray_bound nthread_reduction order is_serial_push_ max_threads Hbound Horder (comm_ s) k e (lk_dtype st) (length (lk_value st)) m L g xs) as (c1 & L' & E & Hwf1 & Hnx & HlL & Hmb & He1 & Hcase & Hfr & Hm1).
    + done.
    + done.
    + done.
    + apply orb_prop in Hc as [Hc%Nat.eqb_eq|Hc%Nat.leb_le]; [left; by apply nil_length_inv|by right].
    + apply Forall2_same_length_lookup_2; [by eapply Forall2_length|]. intros i a x Ha Hx. destruct (Forall2_lookup_lr _ _ _ _ _ _ Hu Ha Hx) as (_ & ? & _). split; [done|]. by apply (Forall_lookup_1 _ _ _ _ Hok Hx).
    + intros a Ha Hin. apply list_elem_of_lookup in Ha as [i Hi]. destruct (Forall2_lookup_l _ _ _ _ _ Hu Hi) as (x & _ & _ & _ & Hno). apply (Hno k). apply (owns_rep _ _ _ _ _ _ _ _ Hrep). by right.
    + assert (merged_of st xs = {| ch_dtype := lk_dtype st; ch_data := reduced (lk_dtype st) (ch_data <$> xs) |}) as Hmo.
      { apply Forall2_length in Hu. destruct xs as [|x [|y xs]]; cbn in Hu; [lia|lia|done]. }
      exists c1, m, L'. rewrite Hmo. split_and!; try done; [| |by right|].
      * destruct Hcase as [->|(-> & -> & _)]; [|done]. destruct (Nat.eqb_spec (length L) 0) as [E0|]; [|done]. lia.
      * intros i Hi. destruct Hcase as [->|(_ & _ & Hf)]; [by left|right; by apply Hf].
      * apply Forall2_length in Hu. destruct xs as [|x xs]; [cbn in Hu; lia|]. apply Forall_cons in Hok as [[_ Hl] _]. rewrite <- Hl. apply length_reduced.
Qed.

Lemma get_local_ok s k a : local_ s !! k = Some a → get_local k s = Ok (a, s).
Proof. intros H. unfold get_local. rewrite gets_bind, H, modify_bind. unfold default, id, set_local. rewrite insert_id by done. by destruct s. Qed.

Lemma write_dns c n x y : cell c n = Some x → write_contents (dns n) (CDns y) c = Ok (tt, put_cell n {| ch_dtype := ch_dtype x; ch_data := ch_data y |} c).
Proof. intros H. unfold write_contents, dns, c_on_heap. by rewrite (store_data_put _ _ _ H). Qed.

Lemma entry_put_other c key e d len m L i x : entry_ok c key e d len m L → i ∉ m :: L → entry_ok (put_cell i x c) key e d len m L.
Proof.
  intros [H1 H2 H3 H4 H5] Hi. constructor; try done. rewrite Forall_forall in H5 |- *. intros j Hj. destruct (H5 j Hj) as (y & Hy & Hy'). exists y.
  split; [|done]. unfold cell. cbn. rewrite lookup_insert_ne; [done|]. by intros ->.
Qed.

Lemma push_one_ok σ σ' U s k g : Inv σ U s → abs_push updater_ U σ (k, g) = Some σ' →
  ∃ s', push_one bigarray_bound nthread_reduction order is_serial_push_ max_threads updater_ str_updater_ k (dns <$> g) s = Ok (tt, s') ∧ Inv σ' U s'.
Proof.
  intros HI Ha. unfold abs_push in Ha. cbn [fst snd] in Ha. destruct (σ !! k) as [st|] eqn:Ek; [|done]. cbn in Ha. destruct (mapM _ g) as [xs|] eqn:Exs; [|done]. cbn in Ha.
  match type of Ha with (if ?b then _ else _) = _ => destruct b eqn:Hg; [|done] end. injection Ha as <-. apply andb_prop in Hg as [Hall Hfit].
  destruct (i_some _ _ _ HI k st Ek) as (n & e & m & L & Hrep). pose proof (i_wf _ _ _ HI) as Hwf.
  destruct (reduce_step σ U s k st n e m L g xs HI Hrep Exs Hall Hfit) as (c1 & mm & L' & E & Hwf1 & Hnx & Hmb & He1 & HlL & Hfresh & Hfr & Hmm & Hcase & Hdt & Hlen).
  pose proof Hrep as [R1 R2 R3 R4 R5 R6]. assert (n < next_cell (c_heap (comm_ s)))%nat as Hnlt by (apply Hwf; by eexists).
  assert (∀ i, i ∈ m :: L' → owns s k i ∨ (next_cell (c_heap (comm_ s)) ≤ i)%nat) as Hown.
  { intros i [->|Hi]%elem_of_cons; [left; apply (owns_rep _ _ _ _ _ _ _ _ Hrep); set_solver|]. destruct (Hfresh i Hi) as [?|?]; [|by right]. left. apply (owns_rep _ _ _ _ _ _ _ _ Hrep). set_solver. }
  assert (∀ i, (i < next_cell (c_heap (comm_ s)))%nat → ¬ owns s k i → cell c1 i = cell (comm_ s) i) as Hfr'.
  { intros i Hi Hno. apply Hfr; [done|]. intros Hin. apply Hno, (owns_rep _ _ _ _ _ _ _ _ Hrep). by right. }
  unfold push_one. rewrite (st_bind_Ok _ _ _ _ _ (on_comm_ok _ _ _ _ E)). rewrite (st_bind_Ok _ _ _ _ _ (get_local_ok (set_comm c1 s) k (dns n) R1)).
  destruct updater_ as [f|] eqn:Eu.
  - assert (n ≠ m) as Hnm by (by apply R6). assert (n ∉ m :: L') as Hnin.
    { intros [?|Hin]%elem_of_cons; [done|]. destruct (Hfresh n Hin); [done|lia]. }
    assert (cell c1 n = Some {| ch_dtype := lk_dtype st; ch_data := lk_value st |}) as Hn by (rewrite Hfr; [done|done|set_solver]).
    destruct (Hupd f k (merged_of st xs) {| ch_dtype := lk_dtype st; ch_data := lk_value st |} eq_refl) as (y & Hy & Hyl). cbn [ch_data] in Hyl.
    set (s2 := set_comm (put_cell n {| ch_dtype := lk_dtype st; ch_data := ch_data y |} c1) s). exists s2. split.
    + rewrite ensure_bind by done. rewrite gets_bind. assert (∀ b x, cell c1 b = Some x → on_comm (c_read (dns b)) (set_comm c1 s) = Ok (CDns x, set_comm c1 s)) as Hread.
      { intros b x Hb. by rewrite (on_comm_ok (c_read (dns b)) (set_comm c1 s) (CDns x) c1 (read_dns c1 b x Hb)). }
      rewrite (st_bind_Ok _ _ _ _ _ (Hread mm _ Hmm)), (st_bind_Ok _ _ _ _ _ (Hread n _ Hn)). rewrite Hy.
      rewrite bool_decide_eq_false_2 by apply (i_type _ _ _ HI). assert (on_comm (write_contents (dns n) (CDns y)) (set_comm c1 s) = Ok (tt, s2)) as Hw.
      { by rewrite (on_comm_ok _ (set_comm c1 s) _ _ (write_dns c1 n _ y Hn)). }
      by destruct str_updater_.
    + apply (Inv_update _ _ s s2 k _ n (with_copies e L') m L'); [done|..].
      * apply heap_wf_put; [done|by eexists].
      * done.
      * done.
      * intros k' Hk'. cbn. rewrite Hmb, lookup_insert_ne by done. done.
      * intros i Hi Hno. unfold cell. cbn. rewrite lookup_insert_ne; [by apply Hfr'|]. intros <-. apply Hno. by left.
      * intros i [->|Hi]%elem_of_cons; [left; by left|by apply Hown].
      * assert (updated_of (Some f) k st xs = ch_data y) as -> by (cbn; by rewrite Hy). constructor; cbn; [done|unfold cell; cbn; by rewrite lookup_insert_eq| |done|set_solver|done].
        rewrite Hyl. by apply entry_put_other.
      * apply (i_type _ _ _ HI).
  - destruct Hcase as [?| ->]; [done|]. cbn [is_rsp dns]. rewrite bool_decide_eq_true_2 by done.
    eexists. split; [done|]. apply (Inv_update _ _ s _ k _ m (with_copies e L') m L'); [done|..]; cbn.
    + done.
    + done.
    + intros k' Hk'. by rewrite lookup_insert_ne.
    + intros k' Hk'. rewrite Hmb, lookup_insert_ne by done. done.
    + apply Hfr'.
    + intros i [->|Hi]%elem_of_cons; [apply Hown; by left|by apply Hown].
    + constructor; cbn; [by rewrite lookup_insert_eq| | |done| |done].
      * rewrite Hmm. f_equal. destruct (merged_of st xs). cbn in *. by subst.
      * by rewrite Hlen.
      * pose proof (eo_nodup _ _ _ _ _ _ _ He1) as Hnd. by apply NoDup_cons in Hnd as [? _].
    + apply (i_type _ _ _ HI).
Qed.

(** ** Pulling *)

(** An array of the caller changes. *)
Lemma Inv_user σ U s a x y : Inv σ U s → U !! a = Some x → Inv σ (<[a := y]> U) (set_comm (put_cell a y (comm_ s)) s).
Proof.
  intros HI Ha. destruct (i_user _ _ _ HI a x Ha) as [Hx Hno]. assert (∀ i, i ≠ a → cell (put_cell a y (comm_ s)) i = cell (comm_ s) i) as Hfr by (intros i Hi; unfold cell; cbn; by rewrite lookup_insert_ne).
  constructor; cbn.
  - apply heap_wf_put; [apply (i_wf _ _ _ HI)|by eexists].
  - intros b z Hb. destruct (decide (b = a)) as [->|Hne].
    + rewrite lookup_insert_eq in Hb. simplify_eq. split; [unfold cell; cbn; by rewrite lookup_insert_eq|apply Hno].
    + rewrite lookup_insert_ne in Hb by done. rewrite Hfr by done. by apply (i_user _ _ _ HI).
  - apply (i_sep _ _ _ HI).
  - apply (i_none _ _ _ HI).
  - intros k st Hst. destruct (i_some _ _ _ HI k st Hst) as (n & e & m & L & H). exists n, e, m, L.
    assert (a ∉ n :: m :: L) as Hnin by (intros Hin; apply (Hno k); by apply (owns_rep _ _ _ _ _ _ _ _ H)). destruct H as [H1 H2 H3 H4 H5 H6].
    constructor; try done; [cbn; rewrite Hfr; [done|set_solver]|]. apply entry_put_other; [done|set_solver].
  - apply (i_type _ _ _ HI).
Qed.

Lemma set_comm_comm c c' s : set_comm c (set_comm c' s) = set_comm c s.
Proof. by destruct s. Qed.

Lemma broadcast_ok σ k st : σ !! k = Some st → ∀ g U U' s, Inv σ U s →
  foldO (fun U a => x ← U !! a;
    if (length (ch_data x) =? length (lk_value st))%nat then Some (<[a := {| ch_dtype := ch_dtype x; ch_data := cast_to (ch_dtype x) <$> lk_value st |}]> U) else None) U g = Some U' →
  ∀ n, local_ s !! k = Some (dns n) → ∃ c', for_each (copy (dns n)) (dns <$> g) (comm_ s) = Ok (tt, c') ∧ Inv σ U' (set_comm c' s).
Proof.
  intros Hst. induction g as [|a g IH]; intros U U' s HI HU n Hn; cbn [foldO] in HU.
  { injection HU as <-. exists (comm_ s). split; [done|]. by rewrite set_comm_id. }
  destruct (U !! a) as [x|] eqn:Ha; [|done]. cbn [mbind option_bind] in HU. destruct (Nat.eqb_spec (length (ch_data x)) (length (lk_value st))) as [Hl|]; [|done]. cbn [mbind option_bind] in HU.
  destruct (i_some _ _ _ HI k st Hst) as (n' & e & m & L & H). assert (n' = n) as -> by (pose proof (kr_local _ _ _ _ _ _ _ H) as E; rewrite Hn in E; by injection E).
  destruct (i_user _ _ _ HI a x Ha) as [Hx Hno]. assert (n ≠ a) as Hne by (intros ->; apply (Hno k); by left).
  set (y := {| ch_dtype := ch_dtype x; ch_data := cast_to (ch_dtype x) <$> lk_value st |}) in HU.
  destruct (IH (<[a := y]> U) U' (set_comm (put_cell a y (comm_ s)) s) (Inv_user _ _ _ _ _ _ HI Ha) HU n Hn) as (c' & E & HI').
  exists c'. split; [|by rewrite set_comm_comm in HI']. cbn [fmap list_fmap for_each]. rewrite (st_bind_Ok _ _ _ tt (put_cell a y (comm_ s))); [done|].
  apply (copy_dns (comm_ s) n a _ (ch_dtype x) (kr_value _ _ _ _ _ _ _ H)); [by exists x|done].
Qed.

Lemma pull_one_ok σ U U' s k g : Inv σ U s → abs_pull σ U (k, g) = Some U' →
  ∃ s', (local ← get_local k;
    ensure (negb (array_none local)) "key has not been inited";;
    on_comm (Broadcast true k local (dns <$> g))) s = Ok (tt, s') ∧ Inv σ U' s'.
Proof.
  intros HI Ha. unfold abs_pull in Ha. cbn [fst snd] in Ha. destruct (σ !! k) as [st|] eqn:Ek; [|done]. cbn [mbind option_bind] in Ha.
  destruct (i_some _ _ _ HI k st Ek) as (n & e & m & L & H). pose proof (kr_local _ _ _ _ _ _ _ H) as Hn.
  destruct (broadcast_ok σ k st Ek g U U' s HI Ha n Hn) as (c' & E & HI'). exists (set_comm c' s). split; [|done].
  rewrite (st_bind_Ok _ _ _ _ _ (get_local_ok s k (dns n) Hn)). rewrite ensure_bind by done. unfold Broadcast. by rewrite (on_comm_ok _ _ _ _ E).
Qed.

(** ** The operations *)
Lemma foldO_loop {A B} (f : B → A → option B) (body : A → lst unit) (I : B → KVStoreLocal → Prop) :
  (∀ b b' x s, I b s → f b x = Some b' → ∃ s', body x s = Ok (tt, s') ∧ I b' s') →
  ∀ l b b' s, I b s → foldO f b l = Some b' → ∃ s', for_each body l s = Ok (tt, s') ∧ I b' s'.
Proof.
  intros Hstep. induction l as [|x l IH]; intros b b' s HI Hf; cbn [foldO] in Hf; [injection Hf as <-; by exists s|].
  destruct (f b x) as [b1|] eqn:E; [|done]. cbn [mbind option_bind] in Hf. destruct (Hstep b b1 x s HI E) as (s1 & E1 & HI1). destruct (IH b1 b' s1 HI1 Hf) as (s2 & E2 & HI2).
  exists s2. split; [|done]. cbn [for_each]. by rewrite (st_bind_Ok _ _ _ _ _ E1).
Qed.

Lemma Inv_same σ U s s' : comm_ s' = comm_ s → local_ s' = local_ s → key_type_ s' ≠ kStringKey → Inv σ U s → Inv σ U s'.
Proof.
  intros Hc Hl Ht [H1 H2 H3 H4 H5 H6]. assert (∀ k i, owns s' k i ↔ owns s k i) as Ho by (intros; unfold owns; by rewrite Hc, Hl).
  constructor; rewrite ?Hc, ?Hl; try done.
  - intros a x Ha. destruct (H2 a x Ha) as [? Hno]. split; [done|]. intros k. rewrite Ho. apply Hno.
  - intros k k' i. rewrite !Ho. apply H3.
  - intros k st Hst. destruct (H5 k st Hst) as (n & e & m & L & [R1 R2 R3 R4 R5 R6]). exists n, e, m, L. by constructor; rewrite ?Hc, ?Hl.
Qed.

Lemma SetKeyType_ok σ U s : Inv σ U s → ∃ s', SetKeyType kIntKey s = Ok (tt, s') ∧ Inv σ U s'.
Proof.
  intros HI. pose proof (i_type _ _ _ HI) as Ht. unfold SetKeyType. rewrite gets_bind. destruct (decide (key_type_ s = kUndefinedKey)) as [E|E].
  - rewrite bool_decide_eq_true_2 by done. exists (set_key_type kIntKey s). split; [done|]. by apply (Inv_same _ _ s).
  - rewrite bool_decide_eq_false_2 by done. exists s. split; [|done]. cbn. unfold mbind, st_bind. cbn. rewrite gets_bind || idtac. unfold gets, ensure, lift. cbn. rewrite bool_decide_eq_true_2; [done|]. by destruct (key_type_ s).
Qed.

(** A call that groups its values runs its body on the groups of [call_groups]. *)
Lemma grouped_call {B} (is_valid : Z → array → lst bool) ok (f : B → Z * list nat → option B) (I : B → KVStoreLocal → Prop) (body : Z * list array → lst unit) keys vals b b' s :
  (∀ k v s, I b s → ∃ s', is_valid k v s = Ok (ok k v, s') ∧ I b s') → (∀ k n, ok k (dns n) = true) →
  (∀ b b' k g s, I b s → f b (k, g) = Some b' → ∃ s', body (k, dns <$> g) s = Ok (tt, s') ∧ I b' s') →
  args_ok keys vals = true → foldO f b (call_groups sort keys vals) = Some b' → I b s →
  ∃ s', (r ← GroupKVPairs sort keys (dns <$> vals) is_valid; for_each body (zip r.1 r.2)) s = Ok (tt, s') ∧ I b' s'.
Proof.
  intros Hvalid Hok Hstep Hargs Hf HI. unfold args_ok in Hargs. apply andb_prop in Hargs as [[H1 H2]%andb_prop H3]. apply negb_true_iff, Nat.eqb_neq in H1. apply Nat.eqb_eq in H2.
  destruct (GroupKVPairs_ok sort sort_perm sort_sorted is_valid ok (fun _ => True) (I b) (fun k v s _ => Hvalid k v s) keys (dns <$> vals) s) as (s1 & E & HI1); [by destruct keys|by rewrite length_fmap| |by apply Forall_true|done|].
  { apply Forall_forall. intros k Hk. rewrite List.forallb_forall in H3. apply list_elem_of_In, H3, andb_prop in Hk as [Hk1 Hk2]. lia. }
  rewrite (st_bind_Ok _ _ _ _ _ E). cbn [fst snd]. rewrite zip_fst_snd, groups_map by done. rewrite for_each_fmap.
  apply (foldO_loop f _ I) with (b := b); [|done|done]. intros b1 b2 [k g] s2 HI2 Hf2. by apply (Hstep b1 b2).
Qed.

Lemma init_loop_ok U values keys : ∀ vals o σ σ' s, length keys = length vals → (∀ i a, vals !! i = Some a → values !! (o + i)%nat = Some (dns a)) →
  Inv σ U s → foldO (abs_init U) σ (zip keys vals) = Some σ' →
  ∃ s', for_each (fun '(i, key) =>
    l ← gets local_;
    ensure (negb (bool_decide (is_Some (l !! key)))) "duplicate init of key";;
    v ← lift (rd values i);
    b ← on_comm (array_copy v);
    modify (fun s => set_local (<[key := b]> (local_ s)) s);;
    x ← on_comm (c_read v);
    on_comm (Comm_Init key (contents_shape x) (contents_dtype x))) (zip (seq o (length keys)) keys) s = Ok (tt, s') ∧ Inv σ' U s'.
Proof.
  induction keys as [|k keys IH]; intros [|a vals] o σ σ' s Hl Hv HI Hf; try done; cbn [zip zip_with foldO] in Hf; [injection Hf as <-; by exists s|].
  destruct (abs_init U σ (k, a)) as [σ1|] eqn:E; [|done]. cbn [mbind option_bind] in Hf. destruct (init_one_ok σ σ1 U s k a values o HI E) as (s1 & E1 & HI1); [rewrite <- (Hv 0%nat a eq_refl); f_equal; lia|].
  destruct (IH vals (S o) σ1 σ' s1) as (s2 & E2 & HI2); [by injection Hl| |done|done|].
  { intros i b Hb. rewrite <- (Hv (S i) b Hb). f_equal. lia. }
  exists s2. split; [|done]. cbn [length seq zip zip_with for_each]. rewrite (st_bind_Ok _ _ s tt s1); [exact E2|exact E1].
Qed.

Lemma step_ok st st' o s : Inv st.1 st.2 s → abs_step sort updater_ st o = Some st' → ∃ s', run_op o s = Ok (tt, s') ∧ Inv st'.1 st'.2 s'.
Proof.
  destruct st as [σ U]. cbn [fst snd]. intros HI Ha. destruct (SetKeyType_ok σ U s HI) as (s1 & E1 & HI1). destruct o as [keys vals|keys vals|keys dsts]; cbn [abs_step run_op] in *.
  - destruct (Nat.eqb_spec (length keys) (length vals)) as [Hl|]; [|done]. destruct (foldO _ σ _) as [σ'|] eqn:Ef; [|done]. injection Ha as <-. cbn [fst snd].
    unfold Init. rewrite (st_bind_Ok _ _ _ _ _ E1). unfold InitImpl.
    apply (init_loop_ok U (dns <$> vals) keys vals 0%nat σ); try done. intros i a Hi. by rewrite Nat.add_0_l, list_lookup_fmap, Hi.
  - destruct (args_ok keys vals) eqn:Hargs; [|done]. destruct (foldO _ σ _) as [σ'|] eqn:Ef; [|done]. injection Ha as <-. cbn [fst snd].
    unfold Push. rewrite (st_bind_Ok _ _ _ _ _ E1). unfold PushImpl, GroupKVPairsPush.
    apply (grouped_call _ (fun _ _ => true) (abs_push updater_ U) (fun σ => Inv σ U) _ keys vals σ σ'); try done.
    + intros k v s2 HI2. by exists s2.
    + intros σ1 σ2 k g s2 HI2 Hf. by apply (push_one_ok σ1).
  - destruct (args_ok keys dsts) eqn:Hargs; [|done]. destruct (foldO _ U _) as [U'|] eqn:Ef; [|done]. injection Ha as <-. cbn [fst snd].
    unfold Pull. rewrite (st_bind_Ok _ _ _ _ _ E1). unfold PullImpl, GroupKVPairsPull.
    apply (grouped_call _ (fun _ nd => negb (is_rsp nd)) (abs_pull σ) (Inv σ) _ keys dsts U U'); try done.
    + intros k v s2 HI2. unfold pull_valid. cbn [negb]. rewrite orb_false_r. destruct (is_rsp v); cbn [negb]; [|by exists s2]. rewrite gets_bind. destruct (bool_decide (k ∈ warnings_printed_ s2)); cbn [negb when].
      * by exists s2.
      * eexists. split; [done|]. by apply (Inv_same _ _ s2); [..|apply (i_type _ _ _ HI2)|].
    + intros U1 U2 k g s2 HI2 Hf. by apply (pull_one_ok σ U1).
Qed.

Lemma run_ok ops : ∀ st st' s, Inv st.1 st.2 s → foldO (abs_step sort updater_) st ops = Some st' → ∃ s', for_each run_op ops s = Ok (tt, s') ∧ Inv st'.1 st'.2 s'.
Proof. intros st st' s HI Hf. apply (foldO_loop (abs_step sort updater_) run_op (fun st => Inv st.1 st.2)) with (b := st); [|done|done]. intros b b' o s1. apply step_ok. Qed.
End Refinement.

(** A store without keys, next to the arrays of the caller. *)
Definition new_store (h : heap) : KVStoreLocal :=
  {| comm_ := {| c_heap := h; c_rsp := ∅; c_next := 0; merge_buf_ := ∅ |}; local_ := ∅; str_key_dict_ := ∅; reverse_str_key_dict_ := ∅; next_str_key_ := 0;
     warnings_printed_ := ∅; key_type_ := kUndefinedKey |}.

Lemma new_store_inv updater_ h : heap_wf h → Inv updater_ ∅ (cells h) (new_store h).
Proof.
  intros Hwf. assert (∀ k i, ¬ owns (new_store h) k i) as Ho.
  { intros k i [H|(e & H & _)]; cbn in H; by rewrite lookup_empty in H. }
  constructor; cbn; try done.
  - intros k k' i Hi. by destruct (Ho k i).
Qed.


Definition w_updater : Z → contents → contents → contents := fun _ m x =>
  match m, x with
  | CDns m, CDns x => CDns {| ch_dtype := ch_dtype x; ch_data := imap (fun i e => dadd (ch_dtype x) e (default f32_zero (ch_data m !! i))) (ch_data x) |}
  | _, _ => x
  end.
Definition w_arrays : heap :=
  {| cells := list_to_map (imap (fun i z => (i, {| ch_dtype := kFloat32; ch_data := [f32_of_Z z] |})) [10; 1; 2; 0]); next_cell := 4 |}.

Lemma w_arrays_wf : heap_wf w_arrays.
Proof. assert (map_Forall (fun c _ => (c < 4)%nat) (cells w_arrays)) as H by by_decision. intros c [x Hx]. by apply (H c x). Qed.

