(* ===== verification/LocalRowSparse.v ===== *)
(** * Row-sparse pulls of the local store

    [PullRowSparse] of src/src/kvstore/kvstore_local.h with [BroadcastRowSparse] of
    src/src/kvstore/comm.h: every destination gets exactly the rows asked for. *)

From Stdlib Require Import SpecFloat.
From stdpp Require Import sorting.
From S2P Require Import Prelude StdAlgo Floats Sparse Command NDArray SparseOps Comm KVStoreLocal LocalStoreSpec.
Local Open Scope Z_scope.

Definition rsp (n : nat) : array := Rsp (Some n).
Definition target (p : nat * list Z) : array * list Z := (rsp p.1, p.2).

(** What a destination holds after asking for the rows [ids] of [A]. *)
Definition picked (A : RowSparse) (ids : list Z) (b : RowSparse) : Prop :=
  rsp_wf b ∧ ∀ x, row b x = if bool_decide (x ∈ ids) then row A x else replicate (rsp_width A) f32_zero.

Lemma unique_ok nthreads ids : (0 < nthreads)%nat → ∃ u, UniqueImpl (Z.of_nat nthreads) ids = Ok u ∧ StronglySorted Z.lt u ∧ ∀ x, x ∈ u ↔ x ∈ ids.
Proof.
  intros Hn. unfold UniqueImpl. rewrite ParallelSort_sorts by lia. rstep. eexists. split; [done|]. split; [apply std_unique_sorted, std_sort_sorted|].
  intros x. by rewrite std_unique_elem, std_sort_elem.
Qed.

Lemma uniques_ok nthreads l : (0 < nthreads)%nat →
  ∃ l', foldM (fun acc '(out, row_id) => u ← UniqueImpl (Z.of_nat nthreads) row_id; Ok (acc ++ [(out, u)])) [] (target <$> l) = Ok (target <$> l') ∧
    Forall2 (fun p q => q.1 = p.1 ∧ StronglySorted Z.lt q.2 ∧ ∀ x, x ∈ q.2 ↔ x ∈ p.2) l l'.
Proof.
  intros Hn. assert (∀ acc, ∃ l', foldM (fun acc '(out, row_id) => u ← UniqueImpl (Z.of_nat nthreads) row_id; Ok (acc ++ [(out, u)])) acc (target <$> l) = Ok (acc ++ (target <$> l')) ∧
    Forall2 (fun p q => q.1 = p.1 ∧ StronglySorted Z.lt q.2 ∧ ∀ x, x ∈ q.2 ↔ x ∈ p.2) l l') as H; [|exact (H [])].
  induction l as [|[o ids] l IH]; intros acc; [exists []; by rewrite app_nil_r|]. destruct (unique_ok nthreads ids Hn) as (u & E & Hs & Hu).
  destruct (IH (acc ++ [(rsp o, u)])) as (l' & E' & Hl'). exists ((o, u) :: l'). split; [|by constructor].
  cbn [fmap list_fmap foldM]. change (target (o, ids)) with (rsp o, ids). cbv beta iota. rewrite E. rstep. rewrite E'. by rewrite <- (assoc_L (++)).
Qed.

Section Pull.
Context (d : Z) (r : nat) (A : RowSparse).
Hypothesis Awf : rsp_wf A.

(** A destination: not the source, and of its shape and type. *)
Definition dest_ok (c : CommCPU) (p : nat * list Z) : Prop :=
  p.1 ≠ r ∧ (∃ y, c_rsp c !! p.1 = Some {| rc_dtype := d; rc_array := y |} ∧ rsp_width y = rsp_width A ∧ rsp_rows y = rsp_rows A) ∧ ∀ x, x ∈ p.2 → 0 ≤ x < rsp_rows A.

Lemma broadcast_rows l : ∀ c, c_rsp c !! r = Some {| rc_dtype := d; rc_array := A |} → NoDup l.*1 → Forall (dest_ok c) l → Forall (fun p => StronglySorted Z.lt p.2) l →
  ∃ c', BroadcastRowSparse (rsp r) (target <$> l) c = Ok (tt, c') ∧ c_heap c' = c_heap c ∧ merge_buf_ c' = merge_buf_ c ∧
    (∀ o ids, (o, ids) ∈ l → ∃ b, c_rsp c' !! o = Some {| rc_dtype := d; rc_array := b |} ∧ picked A ids b) ∧ (∀ o, o ∉ l.*1 → c_rsp c' !! o = c_rsp c !! o).
Proof.
  unfold BroadcastRowSparse. intros c. rewrite ensure_bind by done. revert c.
  induction l as [|[o ids] l IH]; intros c Hr Hnd Hok Hs.
  { exists c. split_and!; try done. intros o ids Hin. by apply not_elem_of_nil in Hin. }
  cbn [fmap list_fmap fst] in Hnd. apply NoDup_cons in Hnd as [Ho Hnd]. apply Forall_cons in Hok as [(Hne & (y & Hy & Hw & Hrows) & Hin) Hok]. apply Forall_cons in Hs as [Hs Hss]. cbn [fst snd] in *.
  destruct (retain_ok A ids Awf Hs Hin) as (b & Eb & Hb & Hrow). destruct (retain_shape A ids b Eb) as [Hbr Hbw].
  set (x' := {| rc_dtype := d; rc_array := {| rsp_rows := rsp_rows y; rsp_width := rsp_width b; rsp_idx := rsp_idx b; rsp_data := rsp_data b |} |}).
  assert (picked A ids (rc_array x')) as Hp.
  { split; [|intros x; rewrite <- Hrow; done]. destruct Hb as (B1 & B2 & B3). split; [done|]. split; [done|]. cbn. by rewrite Hrows, <- Hbr. }
  destruct (IH (set_c_rsp o x' c)) as (c' & E & Hh & Hm & Hnew & Hold); [cbn; by rewrite lookup_insert_ne|done| |done|].
  { rewrite Forall_forall in Hok |- *. intros [o' ids'] Hp'. destruct (Hok _ Hp') as (H1 & (y' & Hy' & Hy'') & H3). split; [done|]. split; [|done]. exists y'. cbn. rewrite lookup_insert_ne; [done|].
    intros ->. apply Ho, list_elem_of_fmap. by exists (o', ids'). }
  exists c'. split_and!; try done.
  - cbn [fmap list_fmap for_each]. change (target (o, ids)) with (rsp o, ids). cbv beta iota. rewrite (st_bind_Ok _ _ c tt (set_c_rsp o x' c)); [exact E|]. rewrite ensure_bind by done.
    assert (c_read (rsp r) c = Ok (CRsp {| rc_dtype := d; rc_array := A |}, c)) as Er by (unfold c_read, rsp_of; cbn; by rewrite Hr).
    assert (c_read (rsp o) c = Ok (CRsp {| rc_dtype := d; rc_array := y |}, c)) as Eo by (unfold c_read, rsp_of; cbn; by rewrite Hy).
    rewrite (st_bind_Ok _ _ _ _ _ Er). cbn [rsp]. change (Rsp (Some o)) with (rsp o). rewrite (st_bind_Ok _ _ _ _ _ Eo). rewrite ensure_bind by (cbn; apply Z.eqb_refl).
    cbn [rc_array]. rewrite (lift_bind _ _ _ _ Eb). cbn [contents_shape rc_array snd fst]. rewrite Hw, Hbw, Nat.eqb_refl. unfold x'. by rewrite Hbw.
  - intros o' ids' [E'|Hin']%elem_of_cons; [|by apply Hnew]. simplify_eq. exists (rc_array x'). rewrite Hold by done. split; [cbn; by rewrite lookup_insert_eq|done].
  - intros o' [Ho1 Ho2]%not_elem_of_cons. rewrite Hold by done. cbn. by rewrite lookup_insert_ne.
Qed.
End Pull.

(** C25: pulling rows.  A pull of row-sparse arrays under an initialised key, for any number
    of destinations, gives each of them exactly the rows it asked for: a well-formed array
    whose rows are those of the stored array where they were asked for, in any order and
    with repetitions, and zero elsewhere.  The stored array and all others stay as they
    are. *)
Theorem row_sparse_pull sort max_threads (s : KVStoreLocal) (k d : Z) (r : nat) (A : RowSparse) (dsts : list (nat * list Z)) :
  (∀ l, sort l ≡ₚ l) → (∀ l, StronglySorted Z.le (sort l).*1) → (0 < max_threads)%nat → - 2 ^ 31 < k < 2 ^ 31 → key_type_ s ≠ kStringKey →
  local_ s !! k = Some (Rsp (Some r)) → c_rsp (comm_ s) !! r = Some {| rc_dtype := d; rc_array := A |} → rsp_wf A →
  dsts ≠ [] → NoDup dsts.*1 → Forall (dest_ok d r A (comm_ s)) dsts →
  ∃ s', PullRowSparse sort max_threads (replicate (length dsts) k) (target <$> dsts) s = Ok (tt, s') ∧ local_ s' = local_ s ∧
    (∀ o ids, (o, ids) ∈ dsts → ∃ b, c_rsp (comm_ s') !! o = Some {| rc_dtype := d; rc_array := b |} ∧ picked A ids b) ∧
    (∀ o, o ∉ dsts.*1 → c_rsp (comm_ s') !! o = c_rsp (comm_ s) !! o) ∧ c_heap (comm_ s') = c_heap (comm_ s).
Proof.
  intros Hp Hs Hn Hk Ht Hl Hr HA Hne Hnd Hok. unfold PullRowSparse. assert (∃ s1, SetKeyType kIntKey s = Ok (tt, s1) ∧ comm_ s1 = comm_ s ∧ local_ s1 = local_ s) as (s1 & E1 & Hc1 & Hl1).
  { unfold SetKeyType. rewrite gets_bind. destruct (decide (key_type_ s = kUndefinedKey)) as [E|E]; [rewrite bool_decide_eq_true_2 by done; by exists (set_key_type kIntKey s)|].
    rewrite bool_decide_eq_false_2 by done. exists s. split; [|done]. cbn [when]. unfold mbind, st_bind, mret, st_ret, gets, ensure, lift. rewrite bool_decide_eq_true_2; [done|]. by destruct (key_type_ s). }
  rewrite (st_bind_Ok _ _ _ _ _ E1). unfold PullRowSparseImpl, GroupKVPairsPullRsp.
  destruct (GroupKVPairs_ok sort Hp Hs (pull_rsp_valid false) (fun _ _ => true) (fun v => is_rsp v.1 = true) (eq s1)) with (keys := replicate (length dsts) k) (values := target <$> dsts) (s := s1) as (s2 & E2 & <-).
  { intros k0 v s0 Hv <-. exists s1. split; [|done]. unfold pull_rsp_valid. rewrite ensure_bind by done. by rewrite ensure_bind. }
  { by destruct dsts. }
  { by rewrite length_replicate, length_fmap. }
  { by apply Forall_replicate. }
  { apply Forall_fmap, Forall_true. intros [o ids]. done. }
  { done. }
  rewrite (st_bind_Ok _ _ _ _ _ E2). rewrite groups_map by done. destruct (one_group sort k dsts Hp Hs Hne) as (g & -> & Hg). cbn [fmap list_fmap map_val fst snd zip zip_with for_each].
  assert (get_local k s1 = Ok (rsp r, s1)) as E3.
  { unfold get_local. rewrite gets_bind, Hl1, Hl, modify_bind. unfold default, id, set_local. rewrite insert_id by (by rewrite Hl1). by destruct s1. }
  destruct (uniques_ok max_threads g Hn) as (l & Eu & Hul).
  assert (l.*1 = g.*1) as Hl'.
  { clear -Hul. induction Hul as [|p q g l (H & _) _ IH]; [done|]. cbn. by rewrite H, IH. }
  destruct (broadcast_rows d r A HA l (comm_ s1)) as (c' & Eb & Hh & Hm & Hnew & Hold).
  { by rewrite Hc1. }
  { rewrite Hl'. by rewrite Hg. }
  { rewrite Hc1. rewrite <- Hg in Hok. clear -Hul Hok. induction Hul as [|p q g l (H & _ & Hq) _ IH]; [constructor|]. apply Forall_cons in Hok as [(H1 & H2 & H3) Hok]. constructor; [|by apply IH].
    unfold dest_ok. rewrite H. split; [done|]. split; [done|]. intros x. rewrite Hq. apply H3. }
  { clear -Hul. induction Hul as [|p q g l (_ & H & _) _ IH]; by constructor. }
  exists (set_comm c' s1). split_and!; cbn.
  - rewrite (st_bind_Ok _ _ s1 tt (set_comm c' s1)); [done|]. rewrite (st_bind_Ok _ _ _ _ _ E3). rewrite ensure_bind by done. rewrite ensure_bind by done. rewrite (lift_bind _ _ _ _ Eu).
    unfold on_comm. by rewrite Eb.
  - done.
  - intros o ids Hin. rewrite <- Hg in Hin. apply list_elem_of_lookup in Hin as [i Hi]. destruct (Forall2_lookup_l _ _ _ _ _ Hul Hi) as ([o' u] & Hl2 & Ho & _ & Hu). cbn in Ho, Hu. subst o'.
    destruct (Hnew o u) as (b & Hb & Hwf & Hrow); [by eapply list_elem_of_lookup_2|]. exists b. split; [done|]. split; [done|]. intros x. rewrite Hrow. by rewrite (bool_decide_ext _ _ (Hu x)).
  - intros o Ho. rewrite <- Hc1. apply Hold. rewrite Hl', Hg. done.
  - by rewrite Hh, Hc1.
Qed.

Definition w_rows : RowSparse := {| rsp_rows := 5; rsp_width := 1; rsp_idx := [1; 4]; rsp_data := [[f32_of_Z 7]; [f32_of_Z 8]] |}.
Definition w_rsp_store : KVStoreLocal :=
  {| comm_ := {| c_heap := heap_empty; c_rsp := list_to_map [(0%nat, {| rc_dtype := kFloat32; rc_array := w_rows |}); (1%nat, {| rc_dtype := kFloat32; rc_array := rsp_new 5 1 |})]; c_next := 2; merge_buf_ := ∅ |};
     local_ := {[3 := Rsp (Some 0%nat)]}; str_key_dict_ := ∅; reverse_str_key_dict_ := ∅; next_str_key_ := 0; warnings_printed_ := ∅; key_type_ := kIntKey |}.

Lemma row_sparse_pull_witness :
  ∃ s' b, PullRowSparse w_sort 2 [3] [(Rsp (Some 1%nat), [4; 0; 4])] w_rsp_store = Ok (tt, s') ∧ c_rsp (comm_ s') !! 1%nat = Some {| rc_dtype := kFloat32; rc_array := b |} ∧
    row b 4 = [f32_of_Z 8] ∧ row b 1 = [f32_zero].
Proof.
  destruct (row_sparse_pull w_sort 2 w_rsp_store 3 kFloat32 0 w_rows [(1%nat, [4; 0; 4])]) as (s' & E & _ & Hnew & _).
  - intros l. apply merge_sort_Permutation.
  - apply w_sort_sorted.
  - lia.
  - lia.
  - discriminate.
  - reflexivity.
  - reflexivity.
  - split; [reflexivity|]. split; [repeat constructor|]. intros x Hx. change (x ∈ [1; 4]) in Hx. rewrite !elem_of_cons, elem_of_nil in Hx. change (rsp_rows w_rows) with 5. lia.
  - discriminate.
  - repeat constructor. apply not_elem_of_nil.
  - repeat constructor; [discriminate|exists (rsp_new 5 1); done|..]; cbn in H; rewrite !elem_of_cons, elem_of_nil in H; change (rsp_rows w_rows) with 5; lia.
  - destruct (Hnew 1%nat [4; 0; 4]) as (b & Hb & _ & Hrow); [by left|]. exists s', b. split; [exact E|]. split; [exact Hb|]. split; [exact (Hrow 4)|exact (Hrow 1)].
Defined.
