(* ===== verification/ServerState.v ===== *)
(** * The parameter server: state and storage

    The state of [KVStoreDistServer] and the primitive effects its handlers use: array
    operations on the heap, sending (collected in an outbox), and key encodings.
    Source: src/src/kvstore/kvstore_dist_server.h.

    A message carries its values as a list of elements of the type its command names
    (or as 32-bit words of 2-bit codes); lengths stay in bytes, as in the code.  The
    fields of [Server] carry the names of the C++ members; [compr_words_] is
    [compr_buf_] when it holds 2-bit words.  Handlers run one at a time: each is a
    transition of this state. *)

From Stdlib Require Import SpecFloat Ascii String.
From S2P Require Import Prelude Floats Command Text Postoffice Customer TwoBit GradientCompression KeyEncoding NDArray.
Local Open Scope Z_scope.

(** ** Messages *)
Record KVMeta := {
  m_cmd : Z; m_push : bool; m_sender : Z; m_timestamp : Z; m_customer_id : Z;
  m_key : Z; m_version : Z; m_num_merge : Z; m_app_id : Z
}.
Inductive payload := Vals (l : list float) | Words (l : list (list Z)).
Record KVPairs := { kv_keys : list Z; kv_lens : list Z; kv_vals : payload }.

#[export] Instance payload_eq_dec : EqDecision payload.
Proof. solve_decision. Defined.
#[export] Instance KVMeta_eq_dec : EqDecision KVMeta.
Proof. solve_decision. Defined.
#[export] Instance KVPairs_eq_dec : EqDecision KVPairs.
Proof. solve_decision. Defined.

(** [vals.size()] in bytes, for elements of [bytes] bytes. *)
Definition vals_size (bytes : Z) (p : payload) : Z :=
  match p with Vals l => Z.of_nat (length l) * bytes | Words w => Z.of_nat (length w) * 4 end.

(** What a handler sends.  [Response] carries no data for a bare acknowledgement. *)
Inductive action :=
  | Response (req : KVMeta) (res : option KVPairs) (is_global : bool)
  | PushGlobal (ts recver : Z) (kvs : KVPairs) (cmd key : Z)
  | PullGlobal (ts recver : Z) (keys : list Z) (cmd key : Z)
  | MergePush (req : KVMeta) (kvs : KVPairs)      (* to [request_handle_global], then ASKPUSH *)
  | AutoPullUpdate (version : Z) (req : KVMeta) (kvs : KVPairs) (is_global : bool)
  | Request (head : Z) (body : string) (group : Z) (is_global : bool)
  | SimpleResponse (head : Z) (sender timestamp : Z)
  | StopExecutor
  | RunController (head : Z) (body : string)
  | ProfilerCommand (type : Z) (args : list (string * string)).

#[export] Instance action_eq_dec : EqDecision action.
Proof. solve_decision. Defined.

Record UpdateBuf := { request : list KVMeta; merged : NDArray; temp_array : NDArray }.
Definition UpdateBuf_empty : UpdateBuf := {| request := []; merged := None; temp_array := None |}.

(** ** Configuration: roles, group sizes and switches *)
Record Env := {
  is_global_server : bool;
  enable_central_workers : bool;
  num_workers : Z;              (* workers of this data center *)
  num_servers : Z;              (* servers of this data center *)
  num_global_workers : Z;       (* local servers, as seen by the global tier *)
  num_global_servers : Z;
  my_rank : Z;
  my_global_rank : Z;
  my_global_id : Z;             (* [my_node_global_.id] *)
  bigarray_bound_ : Z;
  size_lower_bound : Z;
  use_hfa : bool;
  period_k2 : Z;
  enable_p3 : bool;
  enable_intra_ts : bool;
  enable_inter_ts : bool
}.

(** ** State *)

Record Server := {
  heap_ : heap;
  ps_kv_ : gmap Z PSKV;
  compr_ps_kv_ : gmap Z ComprPSKV;
  local_iters : Z;
  sync_mode_ : bool;
  sync_global_mode_ : bool;
  multi_precision_ : bool;
  gradient_compression_ : GradientCompression;
  store_ : gmap Z NDArray;
  store_milestone_ : gmap Z NDArray;
  store_realt_ : gmap Z NDArray;
  store_v_ : gmap Z Z;
  comm_buf_ : gmap Z NDArray;
  update_buf_ : gmap Z UpdateBuf;
  update_buf_tmp_ : gmap Z UpdateBuf;
  compr_words_ : gmap Z (list (list Z));
  compr_buf_ : gmap Z NDArray;
  velocity_ : gmap Z NDArray;
  accumulated_velocity_ : gmap Z NDArray;
  residual_ : gmap Z NDArray;
  num_stop_executor_ : Z;
  initialized_ : gmap Z bool;
  recv_kvs_ : gmap Z (list KVPairs);
  key_map_ : gmap Z Z;
  ts_key_map_ : gmap Z Z;
  tracker_ : list (Z * Z);
  outbox : list action
}.
Definition Server_eta (s : Server) : Server := {|
  heap_ := heap_ s;
  ps_kv_ := ps_kv_ s;
  compr_ps_kv_ := compr_ps_kv_ s;
  local_iters := local_iters s;
  sync_mode_ := sync_mode_ s;
  sync_global_mode_ := sync_global_mode_ s;
  multi_precision_ := multi_precision_ s;
  gradient_compression_ := gradient_compression_ s;
  store_ := store_ s;
  store_milestone_ := store_milestone_ s;
  store_realt_ := store_realt_ s;
  store_v_ := store_v_ s;
  comm_buf_ := comm_buf_ s;
  update_buf_ := update_buf_ s;
  update_buf_tmp_ := update_buf_tmp_ s;
  compr_words_ := compr_words_ s;
  compr_buf_ := compr_buf_ s;
  velocity_ := velocity_ s;
  accumulated_velocity_ := accumulated_velocity_ s;
  residual_ := residual_ s;
  num_stop_executor_ := num_stop_executor_ s;
  initialized_ := initialized_ s;
  recv_kvs_ := recv_kvs_ s;
  key_map_ := key_map_ s;
  ts_key_map_ := ts_key_map_ s;
  tracker_ := tracker_ s;
  outbox := outbox s |}.
Definition set_heap (v : heap) (s : Server) : Server := ltac:(set_field (Server_eta s) (heap_ s) v).
Definition set_ps_kv (v : gmap Z PSKV) (s : Server) : Server := ltac:(set_field (Server_eta s) (ps_kv_ s) v).
Definition set_compr_ps_kv (v : gmap Z ComprPSKV) (s : Server) : Server := ltac:(set_field (Server_eta s) (compr_ps_kv_ s) v).
Definition set_local_iters (v : Z) (s : Server) : Server := ltac:(set_field (Server_eta s) (local_iters s) v).
Definition set_sync_mode (v : bool) (s : Server) : Server := ltac:(set_field (Server_eta s) (sync_mode_ s) v).
Definition set_sync_global_mode (v : bool) (s : Server) : Server := ltac:(set_field (Server_eta s) (sync_global_mode_ s) v).
Definition set_multi_precision (v : bool) (s : Server) : Server := ltac:(set_field (Server_eta s) (multi_precision_ s) v).
Definition set_gradient_compression (v : GradientCompression) (s : Server) : Server := ltac:(set_field (Server_eta s) (gradient_compression_ s) v).
Definition set_store (v : gmap Z NDArray) (s : Server) : Server := ltac:(set_field (Server_eta s) (store_ s) v).
Definition set_store_milestone (v : gmap Z NDArray) (s : Server) : Server := ltac:(set_field (Server_eta s) (store_milestone_ s) v).
Definition set_store_realt (v : gmap Z NDArray) (s : Server) : Server := ltac:(set_field (Server_eta s) (store_realt_ s) v).
Definition set_store_v (v : gmap Z Z) (s : Server) : Server := ltac:(set_field (Server_eta s) (store_v_ s) v).
Definition set_comm_buf (v : gmap Z NDArray) (s : Server) : Server := ltac:(set_field (Server_eta s) (comm_buf_ s) v).
Definition set_update_buf (v : gmap Z UpdateBuf) (s : Server) : Server := ltac:(set_field (Server_eta s) (update_buf_ s) v).
Definition set_update_buf_tmp (v : gmap Z UpdateBuf) (s : Server) : Server := ltac:(set_field (Server_eta s) (update_buf_tmp_ s) v).
Definition set_compr_words (v : gmap Z (list (list Z))) (s : Server) : Server := ltac:(set_field (Server_eta s) (compr_words_ s) v).
Definition set_compr_buf (v : gmap Z NDArray) (s : Server) : Server := ltac:(set_field (Server_eta s) (compr_buf_ s) v).
Definition set_velocity (v : gmap Z NDArray) (s : Server) : Server := ltac:(set_field (Server_eta s) (velocity_ s) v).
Definition set_accumulated_velocity (v : gmap Z NDArray) (s : Server) : Server := ltac:(set_field (Server_eta s) (accumulated_velocity_ s) v).
Definition set_residual (v : gmap Z NDArray) (s : Server) : Server := ltac:(set_field (Server_eta s) (residual_ s) v).
Definition set_num_stop_executor (v : Z) (s : Server) : Server := ltac:(set_field (Server_eta s) (num_stop_executor_ s) v).
Definition set_initialized (v : gmap Z bool) (s : Server) : Server := ltac:(set_field (Server_eta s) (initialized_ s) v).
Definition set_recv_kvs (v : gmap Z (list KVPairs)) (s : Server) : Server := ltac:(set_field (Server_eta s) (recv_kvs_ s) v).
Definition set_key_map (v : gmap Z Z) (s : Server) : Server := ltac:(set_field (Server_eta s) (key_map_ s) v).
Definition set_ts_key_map (v : gmap Z Z) (s : Server) : Server := ltac:(set_field (Server_eta s) (ts_key_map_ s) v).
Definition set_tracker (v : list (Z * Z)) (s : Server) : Server := ltac:(set_field (Server_eta s) (tracker_ s) v).
Definition set_outbox (v : list action) (s : Server) : Server := ltac:(set_field (Server_eta s) (outbox s) v).

Definition Server_init : Server := {|
  heap_ := heap_empty; ps_kv_ := ∅; compr_ps_kv_ := ∅; local_iters := 0;
  sync_mode_ := false; sync_global_mode_ := false; multi_precision_ := false;
  gradient_compression_ := GradientCompression_init;
  store_ := ∅; store_milestone_ := ∅; store_realt_ := ∅; store_v_ := ∅; comm_buf_ := ∅;
  update_buf_ := ∅; update_buf_tmp_ := ∅; compr_words_ := ∅; compr_buf_ := ∅;
  velocity_ := ∅; accumulated_velocity_ := ∅; residual_ := ∅; num_stop_executor_ := 0;
  initialized_ := ∅; recv_kvs_ := ∅; key_map_ := ∅; ts_key_map_ := ∅; tracker_ := []; outbox := [] |}.

Abbreviation srv := (st Server).

(** ** Effects *)
Definition send (a : action) : srv unit := modify (fun s => set_outbox (outbox s ++ [a]) s).

(** An array operation in place, and one that returns a fresh array. *)
Definition on_heap (f : heap → result heap) : srv unit :=
  h ← gets heap_; h ← lift (f h); modify (set_heap h).
Definition on_heap_new (f : heap → result (NDArray * heap)) : srv NDArray :=
  h ← gets heap_; r ← lift (f h); modify (set_heap r.2);; mret r.1.
Definition new_nd (size : nat) (dtype : Z) : srv NDArray := on_heap_new (fun h => Ok (new_array h size dtype)).
Definition read_nd (a : NDArray) : srv chunk := h ← gets heap_; lift (deref h a).

(** The slots [store_[key]] and [store_realt_[key]], chosen as the code chooses them. *)
Definition slot (realt : bool) (key : Z) : srv NDArray :=
  gets (fun s => default None ((if realt then store_realt_ s else store_ s) !! key)).
Definition set_slot (realt : bool) (key : Z) (a : NDArray) : srv unit :=
  modify (fun s => if realt then set_store_realt (<[key := a]> (store_realt_ s)) s
                   else set_store (<[key := a]> (store_ s)) s).

Definition get_updates (key : Z) : srv UpdateBuf := gets (fun s => default UpdateBuf_empty (update_buf_ s !! key)).
Definition put_updates (key : Z) (u : UpdateBuf) : srv unit :=
  modify (fun s => set_update_buf (<[key := u]> (update_buf_ s)) s).
Definition get_updates_tmp (key : Z) : srv UpdateBuf := gets (fun s => default UpdateBuf_empty (update_buf_tmp_ s !! key)).
Definition put_updates_tmp (key : Z) (u : UpdateBuf) : srv unit :=
  modify (fun s => set_update_buf_tmp (<[key := u]> (update_buf_tmp_ s)) s).

(** The first [n] elements of a message, read as numbers. *)
Definition message_values (kvs : KVPairs) (n : nat) : result (list float) :=
  match kv_vals kvs with
  | Vals l => if (n <=? length l)%nat then Ok (take n l) else Err (Undefined "message shorter than its length")
  | Words _ => Err (Undefined "2-bit words read as numbers")
  end.
Definition message_words (kvs : KVPairs) (n : nat) : result (list (list Z)) :=
  match kv_vals kvs with
  | Words l => if (n <=? length l)%nat then Ok (take n l) else Err (Undefined "message shorter than its length")
  | Vals _ => Err (Undefined "numbers read as 2-bit words")
  end.

(** A field of an updated state is the field of the old state or the new value; the
    equation is checked for any value and state, so that it is cheap. *)
Lemma field_kept {A V} (p : Server → A) (set : V → Server → Server) :
  (∀ v s, p (set v s) = p s) → ∀ v s, p (set v s) = p s.
Proof. done. Qed.
Lemma field_new {V} (p : Server → V) (set : V → Server → Server) :
  (∀ v s, p (set v s) = v) → ∀ v s, p (set v s) = v.
Proof. done. Qed.
Ltac field_eq p set v s :=
  match constr:(tt) with
  | _ => constr:(field_kept p set (fun v0 s0 => eq_refl (p s0)) v s)
  | _ => constr:(field_new p set (fun v0 s0 => eq_refl v0) v s)
  end.
Ltac sproj :=
  repeat match goal with
  | |- context [?p (?set ?v ?s)] =>
      is_const p; lazymatch type of (set v s) with Server =>
        let e := field_eq p set v s in rewrite e end
  | H : context [?p (?set ?v ?s)] |- _ =>
      is_const p; lazymatch type of (set v s) with Server =>
        let e := field_eq p set v s in rewrite e in H end
  end.
