(* ===== verification/DistServer.v ===== *)
(** * The parameter server: handlers

    The handlers of [KVStoreDistServer] for dense values: aggregation of pushes, updates,
    the traffic between a local server and the global servers, pulls and commands.
    Source: src/src/kvstore/kvstore_dist_server.h, and the sending half of [KVServer] in
    src/3rdparty/ps-lite/include/ps/kv_app.h.

    Each handler is a transition of the state of [ServerState]; it fails where the code
    aborts.  The optimizer ([updater_], Python code run through the executor) and
    [std::shuffle] are parameters.  Zero-copy sends are taken at the time of the call. *)

From Stdlib Require Import SpecFloat Ascii String.
From stdpp Require Import sorting.
From S2P Require Import Prelude Floats Command Text Postoffice Customer TwoBit GradientCompression KeyEncoding KVApp NDArray ServerState.
Local Open Scope Z_scope.

(** The slices of a message for [k] servers, whose lengths are in bytes. *)
Definition of_slice {A} (wrap : list A → payload) (bytes : Z) (s : bool * KVs A) : bool * KVPairs :=
  (s.1, {| kv_keys := keys s.2; kv_lens := map (fun n => n * bytes) (lens s.2); kv_vals := wrap (vals s.2) |}).
Definition slice_values {A} (k : Z) (wrap : list A → payload) (bytes : Z) (kvs : KVPairs) (l : list A)
    : result (list (bool * KVPairs)) :=
  if forallb (fun n => Z.rem n bytes =? 0) (kv_lens kvs) then
    s ← DefaultSlicer (Build_KVs A (kv_keys kvs) l (map (fun n => Z.quot n bytes) (kv_lens kvs)))
          (GetServerKeyRanges k);
    Ok (map (of_slice wrap bytes) s)
  else Err (Undefined "an element split between servers").
Definition slice_message (k bytes : Z) (kvs : KVPairs) : result (list (bool * KVPairs)) :=
  match kv_vals kvs with
  | Vals l => slice_values k Vals bytes kvs l
  | Words w => slice_values k Words 4 kvs w
  end.

Section Handlers.
Context (env : Env).
Context (updater : option (Z → chunk → chunk → list float)).
Context (shuffle : list nat → list nat).

(** ** Sending to the global servers (KVServer) *)

(** [KVServer::Send] without DGT and towards the owners of the keys. *)
Definition server_send (ts : Z) (push : bool) (cmd bytes : Z) (kvs : KVPairs) (uniq_key : Z) : srv unit :=
  sliced ← lift (slice_message (num_global_servers env) bytes kvs);
  t ← gets tracker_;
  t ← lift (AddResponse t ts (Z.of_nat (skipped sliced)));
  modify (set_tracker t);;
  for_each (fun '(i, (nonempty, kv)) =>
    when nonempty (send (if push then PushGlobal ts (ServerRankToID (Z.of_nat i) true) kv cmd uniq_key
                         else PullGlobal ts (ServerRankToID (Z.of_nat i) true) (kv_keys kv) cmd uniq_key)))
    (imap pair sliced).

(** [KVServer::Push]; with inter-domain transmission scheduling the data goes to the
    merging handler instead of the wire. *)
Definition server_push (kvs : KVPairs) (cmd bytes uniq_key : Z) : srv Z :=
  t ← gets tracker_;
  let '(ts, t) := NewRequest t (num_global_servers env) in
  modify (set_tracker t);;
  (if enable_inter_ts env && negb (bool_decide (kv_keys kvs = [])) then
     send (MergePush {| m_cmd := cmd; m_push := true; m_sender := my_global_id env; m_timestamp := ts;
                        m_customer_id := 0; m_key := uniq_key; m_version := 0; m_num_merge := 1; m_app_id := 0 |} kvs)
   else server_send ts true cmd bytes kvs uniq_key);;
  mret ts.

(** [KVServer::Pull]: the request is registered for the group of the local servers. *)
Definition server_pull (ks : list Z) (cmd uniq_key : Z) : srv unit :=
  t ← gets tracker_;
  let '(ts, t) := NewRequest t (num_servers env) in
  modify (set_tracker t);;
  server_send ts false cmd 1 {| kv_keys := ks; kv_lens := []; kv_vals := Vals [] |} uniq_key.

(** ** Arrays and messages *)

(** The elements of an array read as [d]; bytes of one type read as another are not
    given a meaning. *)
Definition elements (c : chunk) (d : Z) : result (list float) :=
  if ch_dtype c =? d then Ok (ch_data c) else Err (Undefined "elements of one type read as another").
(** [TBlob::dptr<float>] *)
Definition dptr_float (c : chunk) : result (list float) :=
  check (ch_dtype c =? kFloat32) "TBlob.get_with_shape: data type do not match specified type";; Ok (ch_data c).

(** The array made from the received values, of [lens[i] / sizeof(dtype)] elements. *)
Definition recv_array (type : DataHandleType) (kvs : KVPairs) (i : nat) : result chunk :=
  len ← rd (kv_lens kvs) i;
  size ← mshadow_sizeof (dtype type);
  check (is_real_type (dtype type)) "This operation only supports floating point types";;
  data ← message_values kvs (Z.to_nat (u64 len / size));
  Ok {| ch_dtype := dtype type; ch_data := data |}.

Definition nd_size (a : NDArray) : srv Z := c ← read_nd a; mret (Z.of_nat (length (ch_data c))).
Definition copy (from to : NDArray) : srv unit := on_heap (fun h => CopyFromTo h from to).
Definition copy_raw (c : chunk) (to : NDArray) : srv unit := on_heap (fun h => CopyRaw h (ch_data c) to).

(** [gradient_compression_] applied to arrays. *)
Definition decompress (from to : chunk) (target : NDArray) : srv unit :=
  gc ← gets gradient_compression_;
  zip ← lift (dptr_float from);
  out ← lift (dptr_float to);
  out ← lift (BSCDecompress gc zip out);
  on_heap (fun h => store_data h target out).

(** The storage of [key] for the values the handlers work on. *)
Definition has_multi_precision_copy (type : DataHandleType) : srv bool :=
  m ← gets multi_precision_; mret (m && negb (dtype type =? kFloat32)).
Definition working_type (mp : bool) (type : DataHandleType) : Z := if mp then kFloat32 else dtype type.

Definition pskv_default (key num_arr_elems num_bytes : Z) : srv PSKV :=
  m ← gets ps_kv_;
  r ← lift (EncodeDefaultKey_global (bigarray_bound_ env) (num_global_servers env) m key num_arr_elems num_bytes);
  modify (set_ps_kv r.1);; mret r.2.
Definition pskv_compressed (key original_size : Z) (is_push : bool) (num_bytes : Z) : srv PSKV :=
  m ← gets compr_ps_kv_;
  gc ← gets gradient_compression_;
  r ← lift (EncodeCompressedKey_global (bigarray_bound_ env) (num_global_servers env) (num_global_workers env)
              gc m key original_size is_push num_bytes);
  modify (set_compr_ps_kv r.1);; mret r.2.

(** ** Updating the store *)

(** Offer the stored value to other nodes ([inter_domain]: to the local servers). *)
Definition DefaultAutoPull (type : DataHandleType) (key version : Z) (req_meta : KVMeta) (req_data : KVPairs)
    (inter_domain : bool) : srv unit :=
  ensure (bool_decide (requestType type = Some kDefaultPushPull)) "Check failed: requestType == kDefaultPushPull";;
  stored ← slot false key;
  ensure (negb (is_none stored)) "Init key first";;
  c ← read_nd stored;
  size ← lift (mshadow_sizeof (ch_dtype c));
  let len := i32 (Z.of_nat (length (ch_data c)) * size) in
  send (AutoPullUpdate version req_meta
          {| kv_keys := kv_keys req_data; kv_lens := [len]; kv_vals := Vals (ch_data c) |} inter_domain).

Definition get_version (key : Z) : srv Z := gets (fun s => default 0 (store_v_ s !! key)).

(** [ApplyUpdates]: the optimizer on a global server, otherwise the aggregate becomes the
    stored value. *)
Definition ApplyUpdates (type : DataHandleType) (key : Z) (sync_mode : bool) (enable_ts : bool)
    (req_meta : KVMeta) (req_data : KVPairs) : srv unit :=
  mp ← has_multi_precision_copy type;
  stored ← slot mp key;
  updates ← get_updates key;
  let update := if sync_mode then merged updates else temp_array updates in
  match updater with
  | Some f =>
      if is_global_server env then
        cu ← read_nd update;
        cs ← read_nd stored;
        on_heap (fun h => store_data h stored (f key cu cs))
      else ensure sync_mode "Check failed: sync_mode";; copy (merged updates) stored
  | None => ensure sync_mode "Check failed: sync_mode";; copy (merged updates) stored
  end;;
  when mp (stored_dtype ← slot false key; copy stored stored_dtype);;
  when enable_ts (v ← get_version key; DefaultAutoPull type key v req_meta req_data true).

(** ** A local server towards the global servers *)
Definition push_dense (stored : NDArray) (type : DataHandleType) (key : Z) : srv Z :=
  c ← read_nd stored;
  num_bytes ← lift (mshadow_sizeof (dtype type));
  pskv ← pskv_default key (Z.of_nat (length (ch_data c))) num_bytes;
  data ← lift (elements c (dtype type));
  server_push {| kv_keys := pskv_keys pskv; kv_lens := pskv_lens pskv; kv_vals := Vals data |}
    (GetCommandType kDefaultPushPull (dtype type)) num_bytes key.

Definition DataPushToGlobalServersDefault (type : DataHandleType) (key : Z) : srv Z :=
  ensure (negb (is_global_server env)) "Invalid push operation on global servers";;
  gc ← gets gradient_compression_;
  ensure (is_type gc kNone) "Check failed: get_type() == kNone";;
  mp ← has_multi_precision_copy type;
  stored ← slot mp key;
  ensure (negb (is_none stored)) "Init key first";;
  push_dense stored type key.

(** Words of the buffer that the quantizer does not reach keep arbitrary contents. *)
Definition zero_word : list Z := [0; 0; 0; 0].

Definition DataPushToGlobalServersCompressed (type : DataHandleType) (key : Z) : srv Z :=
  ensure (negb (is_global_server env)) "Invalid push operation on global servers";;
  gc ← gets gradient_compression_;
  ensure (is_type gc kTwoBit) "Check failed: get_type() == kTwoBit";;
  ensure (dtype type =? kFloat32) "Gradient compression is only supported for float32 type of parameters";;
  stored ← slot false key;
  ensure (negb (is_none stored)) "Init key first";;
  c ← read_nd stored;
  num_bytes ← lift (mshadow_sizeof (ch_dtype c));
  pskv ← pskv_compressed key (Z.of_nat (length (ch_data c))) true num_bytes;
  small ← gets (fun s => compr_words_ s !! key);
  small_buf ← (match small with
    | Some w => mret w
    | None =>
        res ← new_nd (length (ch_data c)) (ch_dtype c);
        on_heap (fun h => set_value h res f32_zero);;
        modify (fun s => set_residual (<[key := res]> (residual_ s)) s);;
        mret (replicate (Z.to_nat (pskv_size pskv)) zero_word)
    end);
  res_buf ← gets (fun s => default None (residual_ s !! key));
  r ← read_nd res_buf;
  from ← lift (dptr_float c);
  residual ← lift (dptr_float r);
  q ← lift (Quantize gc 1 1 1 cpu_kDevMask cpu_kDevMask from small_buf residual);
  modify (fun s => set_compr_words (<[key := q.1]> (compr_words_ s)) s);;
  on_heap (fun h => store_data h res_buf q.2);;
  server_push {| kv_keys := pskv_keys pskv; kv_lens := pskv_lens pskv; kv_vals := Words q.1 |}
    (GetCommandType kCompressedPushPull (ch_dtype c)) num_bytes kEmpty.

(** The buffers of bi-sparse compression, created on first use. *)
Definition bsc_buffers (key : Z) (original_size : nat) (zipped_size : Z) : srv unit :=
  small ← gets (fun s => default None (compr_buf_ s !! key));
  when (is_none small)
    (small ← new_nd (Z.to_nat zipped_size) kFloat32;
     modify (fun s => set_compr_buf (<[key := small]> (compr_buf_ s)) s);;
     u ← new_nd original_size kFloat32;
     v ← new_nd original_size kFloat32;
     on_heap (fun h => set_value h u f32_zero);;
     on_heap (fun h => set_value h v f32_zero);;
     modify (fun s => set_velocity (<[key := u]> (velocity_ s)) s);;
     modify (fun s => set_accumulated_velocity (<[key := v]> (accumulated_velocity_ s)) s)).

(** [BSCompress] on the arrays of [key]. *)
Definition bsc_compress (stored : NDArray) (key : Z) : srv (list float) :=
  gc ← gets gradient_compression_;
  small_buf ← gets (fun s => default None (compr_buf_ s !! key));
  velocity ← gets (fun s => default None (velocity_ s !! key));
  accumulated ← gets (fun s => default None (accumulated_velocity_ s !! key));
  cg ← read_nd stored; co ← read_nd small_buf; cu ← read_nd velocity; cv ← read_nd accumulated;
  grad ← lift (dptr_float cg); out ← lift (dptr_float co); u ← lift (dptr_float cu); v ← lift (dptr_float cv);
  r ← lift (BSCompress shuffle gc grad out u v);
  on_heap (fun h => store_data h small_buf r.1.1);;
  on_heap (fun h => store_data h velocity r.1.2);;
  on_heap (fun h => store_data h accumulated r.2);;
  mret r.1.1.

Definition DataPushToGlobalServersBSCompressed (type : DataHandleType) (key : Z) : srv Z :=
  ensure (negb (is_global_server env)) "Invalid push operation on global servers";;
  gc ← gets gradient_compression_;
  ensure (is_type gc kBiSparseCompression) "Check failed: get_type() == kBiSparseCompression";;
  mp ← has_multi_precision_copy type;
  stored ← slot mp key;
  ensure (negb (is_none stored)) "Init key first";;
  original_size ← nd_size stored;
  if size_lower_bound env <=? original_size then
    num_bytes ← lift (mshadow_sizeof kFloat32);
    pskv ← pskv_compressed key original_size true num_bytes;
    zipped_size ← lift (to_int (f32_mul (f32_mul (f32_of_Z original_size) (threshold_ gc)) (f32_of_Z 2)));
    bsc_buffers key (Z.to_nat original_size) zipped_size;;
    data ← bsc_compress stored key;
    server_push {| kv_keys := pskv_keys pskv; kv_lens := pskv_lens pskv; kv_vals := Vals data |}
      (GetCommandType kBSCompressedPushPull kFloat32) num_bytes key
  else push_dense stored type key.

Definition DataPullFromGlobalServersDefault (type : DataHandleType) (key : Z) : srv unit :=
  ensure (negb (is_global_server env)) "Invalid pull operation on global servers";;
  gc ← gets gradient_compression_;
  mp ← has_multi_precision_copy type;
  let is_compressed := is_type gc kTwoBit in
  let is_bscompressed := bool_decide (requestType type = Some kBSCompressedPushPull) in
  stored ← slot (negb (is_compressed || negb mp || negb is_bscompressed)) key;
  num_arr_elems ← nd_size stored;
  num_bytes ← lift (mshadow_sizeof (dtype type));
  '(cmd, pskv) ←
    (if is_compressed then
       pskv ← pskv_compressed key num_arr_elems false num_bytes;
       mret (GetCommandType kCompressedPushPull (dtype type), pskv)
     else if is_bscompressed then
       pskv ← pskv_compressed key num_arr_elems false num_bytes;
       mret (GetCommandType kBSCompressedPushPull (dtype type), pskv)
     else
       pskv ← pskv_default key num_arr_elems num_bytes;
       mret (GetCommandType kDefaultPushPull (dtype type), pskv));
  for_each (fun ps_key => modify (fun s => set_key_map (<[ps_key := key]> (key_map_ s)) s)) (pskv_keys pskv);;
  init ← gets (fun s => default false (initialized_ s !! key));
  when (negb (enable_inter_ts env) || negb init) (server_pull (pskv_keys pskv) cmd key).

Definition DataHandlePushResponseDefault (type : DataHandleType) (req_meta : KVMeta) : srv unit :=
  ensure (m_push req_meta) "Check failed: req_meta.push";;
  ensure (negb (is_global_server env)) "Invalid push response on global servers";;
  let ts := m_timestamp req_meta in
  t ← gets tracker_;
  n ← lift (NumResponse t ts);
  if negb (n =? num_global_servers env - 1) then mret tt
  else
    key ← gets (fun s => default 0 (ts_key_map_ s !! ts));
    modify (fun s => set_ts_key_map (delete ts (ts_key_map_ s)) s);;
    DataPullFromGlobalServersDefault type key.

(** ** Answers of the global servers *)

(** [HandleHFAAccumulate]: [stored] and [stored_milestone] are the slots of [key]; the last
    assignment makes both slots one array. *)
Definition HandleHFAAccumulate (type : DataHandleType) (realt : bool) (key : Z) (recved : chunk) : srv unit :=
  ensure (use_hfa env) "Invalid operation, hfa is not enabled";;
  stored ← slot realt key;
  milestone ← gets (fun s => default None (store_milestone_ s !! key));
  if is_none milestone then
    n ← nd_size stored;
    milestone ← new_nd (Z.to_nat n) (dtype type);
    modify (fun s => set_store_milestone (<[key := milestone]> (store_milestone_ s)) s);;
    copy stored milestone
  else
    cm ← read_nd milestone;
    data ← lift (binary_data dadd cm recved);
    sum ← on_heap_new (fun h => Ok (alloc h {| ch_dtype := ch_dtype cm; ch_data := data |}));
    set_slot realt key sum;;
    modify (fun s => set_store_milestone (<[key := sum]> (store_milestone_ s)) s).

(** The received value, dense or to be decompressed, becomes the stored one. *)
Definition store_received (type : DataHandleType) (realt : bool) (key : Z) (is_bscompressed : bool) (recved : chunk)
    : srv unit :=
  stored ← slot realt key;
  value ← (if is_bscompressed then
      n ← nd_size stored;
      temp ← new_nd (Z.to_nat n) (dtype type);
      on_heap (fun h => set_value h temp f32_zero);;
      c ← read_nd temp;
      decompress recved c temp;;
      read_nd temp
    else mret recved);
  if use_hfa env then HandleHFAAccumulate type realt key value
  else copy_raw value stored.

(** The storage in the type of the request is renewed. *)
Definition renew_copy (type : DataHandleType) (realt : bool) (key : Z) (size : nat) : srv unit :=
  stored ← slot realt key;
  stored_dtype ← new_nd size (dtype type);
  set_slot false key stored_dtype;;
  copy stored stored_dtype.

Definition as_KVs (kvs : KVPairs) : result (KVs float) :=
  match kv_vals kvs with
  | Vals l => Ok (Build_KVs float (kv_keys kvs) l (kv_lens kvs))
  | Words _ => Err (Undefined "2-bit words read as numbers")
  end.

(** The parts of a large tensor put together in key order over the receive buffer: the
    lengths received and the new contents of the buffer.  The checks, the sorting and the
    copying are the code of the worker's [Pull_]; with bi-sparse compression the size of
    the values is not checked. *)
Definition assemble (ks old_lens : list Z) (kvs : list KVPairs) (any_size : bool) (buf : list float)
    : result (list Z * list float) :=
  l ← foldM (fun acc s => p ← as_KVs s; Ok (acc ++ [p])) [] kvs;
  '(vals, ls) ← pull_callback {| cb_keys := ks; cb_vals_size := if any_size then 0 else length buf;
                                 cb_lens_size := Some (length old_lens) |} l;
  if (length vals <=? length buf)%nat
  then Ok (default [] ls, vals ++ drop (length vals) buf)
  else Err (Undefined "write past the receive buffer").

(** Answer the workers that wait for the result of this round. *)
Definition respond_waiting (realt : bool) (key : Z) (req_data : KVPairs) (type : DataHandleType) : srv unit :=
  tmp ← get_updates_tmp key;
  (if enable_intra_ts env then
     first ← lift (rd (request tmp) 0);
     v ← get_version key;
     DefaultAutoPull type key v first req_data false
   else if negb (enable_p3 env) then
     for_each (fun req => send (Response req None false)) (request tmp)
   else
     stored ← slot realt key;
     for_each (fun req =>
       c ← read_nd stored;
       size ← lift (mshadow_sizeof (ch_dtype c));
       let len := Z.of_nat (length (ch_data c)) * size in
       send (Response req (Some {| kv_keys := [u64 key]; kv_lens := [i32 len]; kv_vals := Vals (ch_data c) |}) false))
       (request tmp));;
  put_updates_tmp key {| request := []; merged := merged tmp; temp_array := temp_array tmp |}.

(** A large tensor, when all its parts are there. *)
Definition store_large (type : DataHandleType) (realt : bool) (key : Z) (is_compressed is_bscompressed : bool)
    (kvs : list KVPairs) : srv unit :=
  stored ← slot realt key;
  c ← read_nd stored;
  let n := length (ch_data c) in
  num_bytes ← lift (mshadow_sizeof (dtype type));
  let compr := is_compressed || is_bscompressed in
  pskv ← (if compr then pskv_compressed key (Z.of_nat n) false num_bytes
          else pskv_default key (Z.of_nat n) num_bytes);
  buf0 ← gets (fun s => default None (comm_buf_ s !! key));
  recv_buf ← (if is_none buf0 then
      b ← new_nd n (dtype type);
      modify (fun s => set_comm_buf (<[key := b]> (comm_buf_ s)) s);; mret b
    else mret buf0);
  cb ← read_nd recv_buf;
  r ← lift (assemble (pskv_keys pskv) (pskv_lens pskv) kvs is_bscompressed (ch_data cb));
  let pskv := {| pskv_keys := pskv_keys pskv; pskv_lens := r.1; pskv_size := pskv_size pskv |} in
  modify (fun s =>
    if compr then
      set_compr_ps_kv (alter (fun c => {| compr_push := compr_push c; compr_pull := pskv |}) key (compr_ps_kv_ s)) s
    else set_ps_kv (<[key := pskv]> (ps_kv_ s)) s);;
  on_heap (fun h => store_data h recv_buf r.2);;
  store_received type realt key is_bscompressed {| ch_dtype := ch_dtype cb; ch_data := r.2 |}.

Definition DataHandlePullResponseDefault (type : DataHandleType) (req_meta : KVMeta) (req_data : KVPairs) : srv unit :=
  ensure (negb (is_global_server env)) "Invalid pull operation on global servers";;
  let is_compressed := bool_decide (requestType type = Some kCompressedPushPull) in
  let is_bscompressed := bool_decide (requestType type = Some kBSCompressedPushPull) in
  let is_default := bool_decide (requestType type = Some kDefaultPushPull) in
  ensure (negb is_compressed || (dtype type =? kFloat32)) "Gradient compression is currently supported for fp32 only";;
  k0 ← lift (rd (kv_keys req_data) 0);
  key ← gets (fun s => default 0 (key_map_ s !! k0));
  kvs ← gets (fun s => default [] (recv_kvs_ s !! key) ++ [req_data]);
  modify (fun s => set_recv_kvs (<[key := kvs]> (recv_kvs_ s)) s);;
  mp ← has_multi_precision_copy type;
  let realt := negb (is_compressed || negb mp) in
  stored ← slot realt key;
  num_arr_elems ← nd_size stored;
  if (bigarray_bound_ env <=? num_arr_elems) && negb (Z.of_nat (length kvs) =? num_global_servers env) then mret tt
  else
    (if num_arr_elems <? bigarray_bound_ env then
       recved ← lift (recv_array type req_data 0);
       when (is_default || is_compressed || is_bscompressed) (store_received type realt key is_bscompressed recved);;
       when (negb is_compressed && mp) (renew_copy type realt key (length (ch_data recved)))
     else
       when (is_default || is_compressed || is_bscompressed) (store_large type realt key is_compressed is_bscompressed kvs);;
       when (negb is_compressed && mp) (renew_copy type realt key (Z.to_nat num_arr_elems)));;
    modify (fun s => set_recv_kvs (delete key (recv_kvs_ s)) s);;
    init ← gets (fun s => default false (initialized_ s !! key));
    if negb init then
      modify (fun s => set_initialized (<[key := true]> (initialized_ s)) s);;
      when (enable_intra_ts env) (v ← get_version key; DefaultAutoPull type key v req_meta req_data false)
    else respond_waiting realt key req_data type.

(** ** Answering pulls *)
Definition DefaultStorageResponse (type : DataHandleType) (key : Z) (req_meta : KVMeta) (req_data : KVPairs) : srv unit :=
  stored ← slot false key;
  ensure (negb (is_none stored)) "init key first";;
  c ← read_nd stored;
  let is_global := m_sender req_meta <? kOffset in
  size ← lift (mshadow_sizeof (dtype type));
  match requestType type with
  | Some kDefaultPushPull | Some kCompressedPushPull =>
      data ← lift (elements c (dtype type));
      let len := i32 (Z.of_nat (length data) * size) in
      send (Response req_meta (Some {| kv_keys := kv_keys req_data; kv_lens := [len]; kv_vals := Vals data |}) is_global)
  | Some kBSCompressedPushPull =>
      gc ← gets gradient_compression_;
      let original_size := Z.of_nat (length (ch_data c)) in
      zipped_size ← lift (to_int (f32_mul (f32_mul (f32_mul (f32_of_Z original_size) (threshold_ gc))
                                    (f32_of_Z (num_global_workers env))) (f32_of_Z 2)));
      let len := i32 (zipped_size * size) in
      small_buf ← new_nd (Z.to_nat zipped_size) (dtype type);
      stored_copy ← new_nd (length (ch_data c)) (dtype type);
      on_heap (fun h => set_value h small_buf f32_zero);;
      copy stored stored_copy;;
      cs ← read_nd stored_copy; co ← read_nd small_buf;
      from ← lift (dptr_float cs); to ← lift (dptr_float co);
      data ← lift (BSCPullCompress gc from to (num_global_workers env));
      on_heap (fun h => store_data h small_buf data);;
      send (Response req_meta (Some {| kv_keys := kv_keys req_data; kv_lens := [len]; kv_vals := Vals data |}) is_global)
  | _ => fail (CheckFailed "Unsupported RequestType")
  end.

(** [DecodeKey] at this server. *)
Definition decode_key (key : Z) (is_global : bool) : result Z :=
  DecodeKey (if is_global then num_global_servers env else num_servers env)
            (if is_global then my_global_rank env else my_rank env) key.
(** The key a request names; with P3 the keys are not offset. *)
Definition request_key (req_data : KVPairs) (p3 : bool) : srv Z :=
  k ← lift (rd (kv_keys req_data) 0);
  if p3 then mret (i32 k) else lift (decode_key k (is_global_server env)).

(** A pull request waits until the key has been initialized. *)
Definition answer_pull (type : DataHandleType) (req_meta : KVMeta) (req_data : KVPairs) (p3 : bool) : srv unit :=
  key ← request_key req_data p3;
  init ← gets (fun s => default false (initialized_ s !! key));
  if init : bool then DefaultStorageResponse type key req_meta req_data
  else fail (Blocked "pull of a key that is not initialized").

Definition DataHandlePullDefault (type : DataHandleType) (req_meta : KVMeta) (req_data : KVPairs) : srv unit :=
  ensure (negb (m_push req_meta)) "Check failed: !req_meta.push";;
  ensure (length (kv_keys req_data) =? 1)%nat "Check failed: req_data.keys.size() == 1";;
  let is_request := Z.rem (m_sender req_meta) 2 =? 1 in
  if 100 <? m_sender req_meta then
    if is_request then answer_pull type req_meta req_data (enable_p3 env)
    else DataHandlePullResponseDefault type req_meta req_data
  else if enable_inter_ts env then
    if is_request && is_global_server env then answer_pull type req_meta req_data false
    else DataHandlePullResponseDefault type req_meta req_data
  else
    if is_request then answer_pull type req_meta req_data (enable_p3 env)
    else DataHandlePullResponseDefault type req_meta req_data.

(** ** Pushes *)

(** The checks on a push of one key. *)
Definition check_push (req_meta : KVMeta) (req_data : KVPairs) (bytes : Z) : srv unit :=
  ensure (m_push req_meta) "Check failed: req_meta.push";;
  ensure (length (kv_keys req_data) =? 1)%nat "Check failed: req_data.keys.size() == 1";;
  ensure (length (kv_lens req_data) =? 1)%nat "Check failed: req_data.lens.size() == 1";;
  len ← lift (rd (kv_lens req_data) 0);
  ensure (vals_size bytes (kv_vals req_data) =? u64 len) "Check failed: req_data.vals.size() == req_data.lens[0]".

(** The first push of a key: storage is created, in both types if there are two. *)
Definition init_stored (type : DataHandleType) (mp : bool) (key : Z) (recved : chunk) : srv unit :=
  let n := length (ch_data recved) in
  stored ← new_nd n (working_type mp type);
  set_slot mp key stored;;
  copy_raw recved stored;;
  when mp (stored_dtype ← new_nd n (dtype type); set_slot false key stored_dtype;; copy stored stored_dtype).

(** The buffers of the aggregation, created on first use. *)
Definition prepare_updates (type : DataHandleType) (mp : bool) (key : Z) (n : nat) : srv UpdateBuf :=
  u ← get_updates key;
  m ← (if is_none (merged u) then new_nd n (working_type mp type) else mret (merged u));
  t ← (if mp && is_none (temp_array u) then new_nd n kFloat32 else mret (temp_array u));
  let u := {| request := request u; merged := m; temp_array := t |} in
  put_updates key u;; mret u.

(** The received values start an aggregate or are added to it. *)
Definition aggregate (mp : bool) (u : UpdateBuf) (recved : chunk) : srv unit :=
  if bool_decide (request u = []) then copy_raw recved (merged u)
  else if mp then
    copy_raw recved (temp_array u);;
    on_heap (fun h => plus_assign h (merged u) (temp_array u))
  else on_heap (fun h => plus_assign_raw h (merged u) recved).

Definition clear_requests (key : Z) : srv unit :=
  u ← get_updates key;
  put_updates key {| request := []; merged := merged u; temp_array := temp_array u |}.

(** Acknowledge the pushes of a finished round. *)
Definition respond_all (reqs : list KVMeta) : srv unit :=
  for_each (fun req => send (Response req None (m_sender req <? kOffset))) reqs.

Definition central_workers : Z := if enable_central_workers env then num_workers env else 0.
(** The pushes that make a round on a global server. *)
Definition global_round : Z := central_workers + num_global_workers env.

Definition finish_global (type : DataHandleType) (key : Z) (ts : bool) (req_meta : KVMeta) (req_data : KVPairs) : srv unit :=
  u ← get_updates key;
  when (Z.of_nat (length (request u)) =? global_round)
    (ApplyUpdates type key true ts req_meta req_data;;
     respond_all (request u);;
     clear_requests key).

(** A local server whose workers have all pushed. *)
Definition push_to_global (type : DataHandleType) (key : Z) : srv unit :=
  gc ← gets gradient_compression_;
  ts ← (if is_type gc kNone then DataPushToGlobalServersDefault type key
        else if is_type gc kTwoBit then DataPushToGlobalServersCompressed type key
        else if is_type gc kBiSparseCompression then DataPushToGlobalServersBSCompressed type key
        else fail (Undefined "timestamp not initialized"));
  modify (fun s => set_ts_key_map (<[ts := key]> (ts_key_map_ s)) s).

(** With HFA a round that is not a multiple of [period_k2] stays inside the data center. *)
Definition finish_local (type : DataHandleType) (mp : bool) (key : Z) (req_meta : KVMeta) (req_data : KVPairs) : srv unit :=
  u ← get_updates key;
  when (Z.of_nat (length (request u)) =? num_workers env)
    (ApplyUpdates type key true false req_meta req_data;;
     when (key =? 0) (modify (fun s => set_local_iters (u64 (local_iters s + 1)) s));;
     it ← gets local_iters;
     if period_k2 env =? 0 then fail (Undefined "division by zero")
     else if negb (Z.rem it (period_k2 env) =? 0) && use_hfa env then
       for_each (fun req => send (Response req None false)) (request u);;
       clear_requests key
     else
       when (use_hfa env)
         (milestone ← gets (fun s => default None (store_milestone_ s !! key));
          ensure (negb (is_none milestone)) "init stored_milestone first!";;
          stored ← slot mp key;
          diff ← on_heap_new (fun h => binary_op dsub h stored milestone);
          mean ← on_heap_new (fun h => div_scalar h diff (f32_of_Z (num_global_workers env)));
          set_slot mp key mean);;
       tmp ← get_updates_tmp key;
       put_updates_tmp key {| request := request u; merged := merged tmp; temp_array := temp_array tmp |};;
       clear_requests key;;
       when (enable_intra_ts env) (for_each (fun req => send (Response req None false)) (request u));;
       push_to_global type key).

(** The answer to the first push of a key. *)
Definition init_response (type : DataHandleType) (mp : bool) (key : Z) (req_meta : KVMeta) : srv unit :=
  if is_global_server env then
    send (Response req_meta None false);;
    modify (fun s => set_initialized (<[key := true]> (initialized_ s)) s)
  else
    (if negb (enable_p3 env) then send (Response req_meta None false)
     else
       stored ← slot mp key;
       c ← read_nd stored;
       size ← lift (mshadow_sizeof (ch_dtype c));
       let len := Z.of_nat (length (ch_data c)) * size in
       send (Response req_meta (Some {| kv_keys := [u64 key]; kv_lens := [i32 len]; kv_vals := Vals (ch_data c) |}) false));;
    DataPullFromGlobalServersDefault type key.

Definition DataHandleSyncDefault (type : DataHandleType) (req_meta : KVMeta) (req_data : KVPairs) : srv unit :=
  size ← lift (mshadow_sizeof (dtype type));
  check_push req_meta req_data size;;
  sync_global ← gets sync_global_mode_;
  ensure (negb (is_global_server env) || sync_global) "Check failed: sync_global_mode_";;
  key ← request_key req_data (enable_p3 env);
  mp ← has_multi_precision_copy type;
  stored ← slot mp key;
  recved ← lift (recv_array type req_data 0);
  if is_none stored then
    init_stored type mp key recved;;
    init_response type mp key req_meta
  else
    sync ← gets sync_mode_;
    ensure sync "Check failed: sync_mode_";;
    if is_global_server env && (kOffset <? m_sender req_meta) && negb (enable_central_workers env) then mret tt
    else
      u ← prepare_updates type mp key (length (ch_data recved));
      aggregate mp u recved;;
      put_updates key {| request := request u ++ replicate (Z.to_nat (m_num_merge req_meta)) req_meta;
                         merged := merged u; temp_array := temp_array u |};;
      if is_global_server env then finish_global type key (enable_inter_ts env) req_meta req_data
      else finish_local type mp key req_meta req_data.

(** Pushes compressed by a local server or a central worker carry the original size as a
    second key. *)
Definition compressed_request (req_meta : KVMeta) (req_data : KVPairs) (bytes : Z) : srv (Z * Z) :=
  ensure (m_push req_meta) "Check failed: req_meta.push";;
  ensure (length (kv_keys req_data) =? 2)%nat "Check failed: req_data.keys.size() == 2";;
  ensure (length (kv_lens req_data) =? 2)%nat "Check failed: req_data.lens.size() == 2";;
  len ← lift (rd (kv_lens req_data) 1);
  ensure (vals_size bytes (kv_vals req_data) =? u64 len) "Check failed: req_data.vals.size() == req_data.lens[1]";;
  k0 ← lift (rd (kv_keys req_data) 0);
  original_size ← lift (decode_key k0 true);
  k1 ← lift (rd (kv_keys req_data) 1);
  key ← lift (decode_key k1 true);
  mret (original_size, key).

Definition dequantize_into (req_data : KVPairs) (target : NDArray) : srv unit :=
  gc ← gets gradient_compression_;
  len ← lift (rd (kv_lens req_data) 1);
  words ← lift (message_words req_data (Z.to_nat (u64 len / 4)));
  c ← read_nd target;
  to ← lift (dptr_float c);
  out ← lift (Dequantize gc 1 1 cpu_kDevMask cpu_kDevMask words to);
  on_heap (fun h => store_data h target out).

Definition init_compressed (req_meta : KVMeta) (req_data : KVPairs) (key original_size : Z) : srv unit :=
  stored ← new_nd (Z.to_nat original_size) kFloat32;
  set_slot false key stored;;
  dequantize_into req_data stored;;
  send (Response req_meta None false);;
  when (is_global_server env) (modify (fun s => set_initialized (<[key := true]> (initialized_ s)) s)).

Definition no_data : KVPairs := {| kv_keys := []; kv_lens := []; kv_vals := Vals [] |}.

Definition DataHandleSyncCompressed (type : DataHandleType) (req_meta : KVMeta) (req_data : KVPairs) : srv unit :=
  ensure (is_global_server env) "Check failed: IsGlobalServer()";;
  sync_global ← gets sync_global_mode_;
  ensure (m_push req_meta) "Check failed: req_meta.push";;
  ensure sync_global "Check failed: sync_global_mode_";;
  '(original_size, key) ← compressed_request req_meta req_data 4;
  ensure (dtype type =? kFloat32) "Gradient compression is currently supported for fp32 only";;
  stored ← slot false key;
  decomp_buf ← new_nd (Z.to_nat original_size) kFloat32;
  if is_none stored then init_compressed req_meta req_data key original_size
  else if (kOffset <? m_sender req_meta) && negb (enable_central_workers env) then mret tt
  else
    u ← prepare_updates type false key (Z.to_nat original_size);
    (if bool_decide (request u = []) then dequantize_into req_data (merged u)
     else dequantize_into req_data decomp_buf;; on_heap (fun h => plus_assign h (merged u) decomp_buf));;
    put_updates key {| request := request u ++ [req_meta]; merged := merged u; temp_array := temp_array u |};;
    finish_global type key false req_meta no_data.

Definition DataHandleSyncBSCompressed (type : DataHandleType) (req_meta : KVMeta) (req_data : KVPairs) : srv unit :=
  ensure (is_global_server env) "Check failed: IsGlobalServer()";;
  sync_global ← gets sync_global_mode_;
  ensure (m_push req_meta) "Check failed: req_meta.push";;
  ensure sync_global "Check failed: sync_global_mode_";;
  size ← lift (mshadow_sizeof (dtype type));
  '(original_size, key) ← compressed_request req_meta req_data size;
  mp ← has_multi_precision_copy type;
  stored ← slot mp key;
  ensure (negb (is_none stored)) "init key first";;
  recved ← lift (recv_array type req_data 1);
  if (kOffset <? m_sender req_meta) && negb (enable_central_workers env) then mret tt
  else
    u ← get_updates key;
    m ← (if is_none (merged u) then new_nd (Z.to_nat original_size) (working_type mp type) else mret (merged u));
    t ← (if is_none (temp_array u) then new_nd (Z.to_nat original_size) (working_type mp type) else mret (temp_array u));
    (if bool_decide (request u = []) then c ← read_nd m; decompress recved c m
     else c ← read_nd t; decompress recved c t;; on_heap (fun h => plus_assign h m t));;
    put_updates key {| request := request u ++ [req_meta]; merged := m; temp_array := t |};;
    finish_global type key false req_meta no_data.

(** In asynchronous global mode central workers are aggregated among themselves and a
    local server's push is applied at once. *)
Definition finish_central (type : DataHandleType) (key : Z) : srv unit :=
  u ← get_updates key;
  when (Z.of_nat (length (request u)) =? num_workers env)
    (ApplyUpdates type key true false (Build_KVMeta 0 false 0 0 0 0 0 0 0) no_data;;
     for_each (fun req => ensure (kOffset <? m_sender req) "Check failed: req.sender > kOffset";;
                          send (Response req None false)) (request u);;
     clear_requests key).

Definition DataHandleAsyncDefault (type : DataHandleType) (req_meta : KVMeta) (req_data : KVPairs) : srv unit :=
  size ← lift (mshadow_sizeof (dtype type));
  check_push req_meta req_data size;;
  sync_global ← gets sync_global_mode_;
  ensure (is_global_server env && negb sync_global) "Check failed: IsGlobalServer() && !sync_global_mode_";;
  k ← lift (rd (kv_keys req_data) 0);
  key ← lift (decode_key k true);
  mp ← has_multi_precision_copy type;
  stored ← slot mp key;
  recved ← lift (recv_array type req_data 0);
  if is_none stored then
    init_stored type mp key recved;;
    send (Response req_meta None false);;
    modify (fun s => set_initialized (<[key := true]> (initialized_ s)) s)
  else if (kOffset <? m_sender req_meta) && negb (enable_central_workers env) then mret tt
  else
    u ← prepare_updates type mp key (length (ch_data recved));
    if kOffset <? m_sender req_meta then
      aggregate mp u recved;;
      put_updates key {| request := request u ++ [req_meta]; merged := merged u; temp_array := temp_array u |};;
      finish_central type key
    else
      t ← (if mp then copy_raw recved (temp_array u);; mret (temp_array u)
           else on_heap_new (fun h => Ok (alloc h recved)));
      put_updates key {| request := request u; merged := merged u; temp_array := t |};;
      ApplyUpdates type key false false req_meta no_data;;
      send (Response req_meta None true).

Definition DataHandleAsyncCompressed (type : DataHandleType) (req_meta : KVMeta) (req_data : KVPairs) : srv unit :=
  '(original_size, key) ← compressed_request req_meta req_data 4;
  sync_global ← gets sync_global_mode_;
  ensure (is_global_server env && negb sync_global) "Check failed: IsGlobalServer() && !sync_global_mode_";;
  ensure (dtype type =? kFloat32) "Gradient compression is currently supported for fp32 only";;
  stored ← slot false key;
  decomp_buf ← new_nd (Z.to_nat original_size) kFloat32;
  if is_none stored then init_compressed req_meta req_data key original_size
  else if (kOffset <? m_sender req_meta) && negb (enable_central_workers env) then mret tt
  else
    u ← prepare_updates type false key (Z.to_nat original_size);
    if kOffset <? m_sender req_meta then
      (if bool_decide (request u = []) then dequantize_into req_data (merged u)
       else dequantize_into req_data decomp_buf;; on_heap (fun h => plus_assign h (merged u) decomp_buf));;
      put_updates key {| request := request u ++ [req_meta]; merged := merged u; temp_array := temp_array u |};;
      finish_central type key
    else
      dequantize_into req_data decomp_buf;;
      match updater with
      | Some f =>
          cu ← read_nd decomp_buf;
          cs ← read_nd stored;
          on_heap (fun h => store_data h stored (f key cu cs));;
          send (Response req_meta None true)
      | None => fail (CheckFailed "Check failed: updater_")
      end.

(** Not implemented in the code: the push is dropped without an answer. *)
Definition DataHandleAsyncBSCompressed (type : DataHandleType) (req_meta : KVMeta) (req_data : KVPairs) : srv unit :=
  mret tt.

(** ** Dispatch of data messages *)
Definition DataHandleEx (DataHandleRowSparse : DataHandleType → KVMeta → KVPairs → srv unit)
    (req_meta : KVMeta) (req_data : KVPairs) : srv unit :=
  type ← lift (DepairDataHandleType (m_cmd req_meta));
  sync_global ← gets sync_global_mode_;
  let from_requester := Z.rem (m_sender req_meta) 2 =? 1 in
  let async := is_global_server env && negb sync_global in
  match requestType type with
  | Some kRowSparsePushPull => DataHandleRowSparse type req_meta req_data
  | Some kCompressedPushPull =>
      if m_push req_meta then
        if from_requester then
          if async then DataHandleAsyncCompressed type req_meta req_data
          else DataHandleSyncCompressed type req_meta req_data
        else DataHandlePushResponseDefault type req_meta
      else DataHandlePullDefault type req_meta req_data
  | Some kDefaultPushPull =>
      if m_push req_meta then
        if (if enable_inter_ts env then negb (m_app_id req_meta =? 0) else from_requester) then
          if async then DataHandleAsyncDefault type req_meta req_data
          else DataHandleSyncDefault type req_meta req_data
        else DataHandlePushResponseDefault type req_meta
      else DataHandlePullDefault type req_meta req_data
  | Some kBSCompressedPushPull =>
      if m_push req_meta then
        if from_requester then
          if async then DataHandleAsyncBSCompressed type req_meta req_data
          else DataHandleSyncBSCompressed type req_meta req_data
        else DataHandlePushResponseDefault type req_meta
      else DataHandlePullDefault type req_meta req_data
  | None => fail (CheckFailed "Unsupported RequestType")
  end.

(** ** Commands *)

(** One stored array gets its float32 copy. *)
Definition create_copy (entry : Z * NDArray) : srv unit :=
  let '(key, stored) := entry in
  c ← read_nd stored;
  when (negb (ch_dtype c =? kFloat32))
    (realt ← new_nd (length (ch_data c)) kFloat32;
     set_slot true key realt;;
     u ← get_updates key;
     m ← (if is_none (merged u) then mret (merged u)
          else n ← nd_size (merged u); new_nd (Z.to_nat n) kFloat32);
     put_updates key {| request := request u; merged := m; temp_array := temp_array u |};;
     ensure (bool_decide (request u = [])) "Multiprecision mode can not be set while pushes are underway";;
     copy stored realt).
Definition CreateMultiPrecisionCopies : srv unit :=
  l ← gets (fun s => map_to_list (store_ s));
  for_each create_copy l.

(** [SetProfilerConfig]: the pairs given to [MXSetProfilerConfig]. *)
Definition profiler_param (elem : string) : result (string * string) :=
  match split ":" elem with
  | [k; v] =>
      check (negb (bool_decide (k = EmptyString))) "ProfilerConfig parameter is empty";;
      check (negb (bool_decide (v = EmptyString))) "ProfilerConfig value is empty for parameter";;
      Ok (k, if bool_decide (k = "filename"%string) then
               String.append "rank" (String.append (to_string_int (my_rank env)) (String.append "_" v))
             else v)
  | _ => Err (CheckFailed "Improper profiler config passed from worker")
  end.
Definition SetProfilerConfig (params_str : string) : srv unit :=
  args ← lift (foldM (fun acc e => p ← profiler_param e; Ok (acc ++ [p])) [] (split "," params_str));
  send (ProfilerCommand 0 args).

(** The digit at one end of the body; [None] for an empty body. *)
Definition digit_code (c : ascii) : Z := Z.of_N (N_of_ascii c) - 48.
Definition first_digit (s : string) : option Z := match s with String c _ => Some (digit_code c) | EmptyString => None end.
Fixpoint last_digit (s : string) : option Z :=
  match s with
  | EmptyString => None
  | String c EmptyString => Some (digit_code c)
  | String _ s => last_digit s
  end.

Definition ProcessServerProfilerCommands (type : Z) (body : string) : srv unit :=
  if type =? 0 then SetProfilerConfig (substring 0 (String.length body - 1) body)
  else if (1 <=? type) && (type <=? 3) then
    d ← lift (of_option (Undefined "front of an empty string") (first_digit body));
    send (ProfilerCommand type [(to_string_int d, EmptyString)])
  else mret tt.

(** [CommandHandle]; every command that does not abort is acknowledged. *)
Definition CommandHandle (head : Z) (body : string) (sender timestamp : Z) : srv unit :=
  match CommandType_of_int head with
  | Some kStopServer =>
      if is_global_server env then
        modify (fun s => set_num_stop_executor (num_stop_executor_ s + 1) s);;
        n ← gets num_stop_executor_;
        when (n =? num_global_workers env) (send StopExecutor)
      else
        send (Request (CommandType_to_int kStopServer) EmptyString kServerGroup true);;
        send StopExecutor
  | Some kSyncMode => modify (set_sync_mode true)
  | Some kSyncGlobalMode =>
      ensure (is_global_server env) "only global server could perform global synchronous mode";;
      modify (set_sync_global_mode true)
  | Some kSetGradientCompression =>
      gc ← gets gradient_compression_;
      gc ← lift (DecodeParams gc body);
      modify (set_gradient_compression gc);;
      when (is_global_server env && (my_global_rank env =? 0))
        (send (Request head body kWorkerGroup true);; send (Request head body kWorkerGroup false))
  | Some kSetProfilerParams =>
      d ← lift (of_option (Undefined "back of an empty string") (last_digit body));
      ProcessServerProfilerCommands d body
  | Some kSetMultiPrecision =>
      m ← gets multi_precision_;
      when (negb m) (modify (set_multi_precision true);; CreateMultiPrecisionCopies)
  | Some kController => send (RunController head body)
  | None => mret tt
  end;;
  send (SimpleResponse head sender timestamp).
End Handlers.
