(* ===== verification/RowSparseServer.v ===== *)
(** * The parameter server: row-sparse keys

    Values with few non-zero rows are pushed and pulled by row: the first key of a message
    names the value, each further key one row.
    Source: src/src/kvstore/kvstore_dist_server.h ([DecodeRowIds],
    [AccumulateRowSparseGrads], [RowSparsePullResponse], [InitRowSparseStored],
    [DataHandleRowSparse], and [ApplyUpdates] as these handlers call it).

    The state holds the members of [KVStoreDistServer] the handlers use, for keys whose
    arrays are row-sparse.  Arrays of different variables never share storage here, so they
    are values. *)

From Stdlib Require Import SpecFloat.
From S2P Require Import Prelude StdAlgo Floats Sparse Command Postoffice KeyEncoding NDArray SparseOps ServerState DistServer.
Local Open Scope Z_scope.

Record RspBuf := { r_request : list KVMeta; r_merged : option RowSparse; r_temp : option RowSparse }.

Record RspServer := {
  r_sync : bool;                          (* [sync_mode_] *)
  r_multi_precision : bool;
  r_store : gmap Z RowSparse;             (* [store_] *)
  r_realt : gmap Z RowSparse;             (* [store_realt_] *)
  r_updates : gmap Z RspBuf;              (* [update_buf_] *)
  r_outbox : list action
}.
Abbreviation rsv := (st RspServer).

Definition r_send (a : action) : rsv unit := modify (fun s =>
  {| r_sync := r_sync s; r_multi_precision := r_multi_precision s; r_store := r_store s; r_realt := r_realt s; r_updates := r_updates s; r_outbox := r_outbox s ++ [a] |}).
Definition r_set_store (realt : bool) (key : Z) (a : RowSparse) : rsv unit := modify (fun s =>
  {| r_sync := r_sync s; r_multi_precision := r_multi_precision s; r_store := if realt then r_store s else <[key := a]> (r_store s);
     r_realt := if realt then <[key := a]> (r_realt s) else r_realt s; r_updates := r_updates s; r_outbox := r_outbox s |}).
Definition r_set_updates (key : Z) (u : RspBuf) : rsv unit := modify (fun s =>
  {| r_sync := r_sync s; r_multi_precision := r_multi_precision s; r_store := r_store s; r_realt := r_realt s; r_updates := <[key := u]> (r_updates s); r_outbox := r_outbox s |}).

(** [NDArray(kRowSparseStorage, shape, ctx, true, dtype)]: no rows are stored. *)
Definition rsp_empty (shape : RowSparse) : RowSparse := {| rsp_rows := rsp_rows shape; rsp_width := rsp_width shape; rsp_idx := []; rsp_data := [] |}.

(** Memory read as a matrix. *)
Definition as_rows (num_rows width : nat) (l : list float) : list (list float) := (fun i => take width (drop (i * width) l)) <$> seq 0 num_rows.

Section Handlers.
Context (env : Env) (updater : option (Z → RowSparse → RowSparse → RowSparse)).

Definition r_has_multi_precision_copy (type : DataHandleType) : rsv bool :=
  m ← gets r_multi_precision; mret (m && negb (dtype type =? kFloat32)).

Definition r_decode (key : Z) : result Z := decode_key env key false.

Definition DecodeRowIds (keys : list Z) (master_key : Z) (num_rows : nat) : result (list Z) :=
  for_range 1 (S num_rows) (fun i indices =>
    k ← rd keys i;
    key ← r_decode k;
    wr indices (i - 1) (key - master_key)) (replicate num_rows 0).

Definition AccumulateRowSparseGrads (type : DataHandleType) (mp : bool) (recved : RowSparse) (u : RspBuf) : result RspBuf :=
  merged ← of_option (Undefined "use of an empty NDArray") (r_merged u);
  let to_merge := if mp then rsp_copy kFloat32 recved else recved in
  out ← RspRspOp (dadd (working_type mp type)) false to_merge merged;
  Ok {| r_request := r_request u; r_merged := Some (rsp_copy (working_type mp type) out); r_temp := if mp then Some to_merge else r_temp u |}.

(** [ApplyUpdates] of the merged array. *)
Definition r_ApplyUpdates (type : DataHandleType) (mp : bool) (key : Z) (u : RspBuf) : rsv unit :=
  s ← gets (fun s => (if mp then r_realt s else r_store s) !! key);
  stored ← lift (of_option (Undefined "use of an empty NDArray") s);
  merged ← lift (of_option (Undefined "use of an empty NDArray") (r_merged u));
  let new := match updater with
             | Some f => if is_global_server env then f key merged stored else rsp_copy (working_type mp type) merged
             | None => rsp_copy (working_type mp type) merged
             end in
  r_set_store mp key new;;
  when mp (r_set_store false key (rsp_copy (dtype type) new)).

(** The rows are read from the memory of the stored array, row [i] at [i * unit_size]. *)
Definition RowSparsePullResponse (type : DataHandleType) (master_key : Z) (num_rows : nat) (req_meta : KVMeta) (req_data : KVPairs) : rsv unit :=
  let keys := kv_keys req_data in
  if (num_rows =? 0)%nat then
    r_send (Response req_meta (Some {| kv_keys := keys; kv_lens := replicate (length keys) 0; kv_vals := Vals [] |}) false)
  else
    s ← gets (fun s => r_store s !! master_key);
    ensure (match s with Some _ => true | None => false end) "Init first";;
    stored ← lift (of_option (Undefined "use of an empty NDArray") s);
    vals ← lift (for_range 1 (S num_rows) (fun i vals =>
      k ← rd keys i;
      key ← r_decode k;
      r ← rdz (rsp_data stored) (key - master_key);
      Ok (vals ++ r)) []);
    r_send (Response req_meta (Some {| kv_keys := keys; kv_lens := <[0%nat := 0]> (replicate (length keys) (Z.of_nat (rsp_width stored))); kv_vals := Vals vals |}) false).

Definition InitRowSparseStored (type : DataHandleType) (mp : bool) (master_key : Z) (num_rows : nat) (req_meta : KVMeta) (req_data : KVPairs) : rsv unit :=
  num_bytes ← lift (mshadow_sizeof (dtype type));
  len ← lift (rd (kv_lens req_data) 1);
  let unit_len := Z.quot len num_bytes in
  ensure (0 <? unit_len) "Check failed: unit_len > 0";;
  ensure (vals_size num_bytes (kv_vals req_data) =? Z.of_nat num_rows * unit_len * num_bytes) "Check failed: req_data.vals.size() == num_rows * unit_len * num_bytes";;
  ensure (is_real_type (dtype type)) "This operation only supports floating point types";;
  data ← lift (message_values req_data (num_rows * Z.to_nat unit_len));
  let recved := {| rsp_rows := Z.of_nat num_rows; rsp_width := Z.to_nat unit_len; rsp_idx := Z.of_nat <$> seq 0 num_rows;
                   rsp_data := as_rows num_rows (Z.to_nat unit_len) data |} in
  let stored := rsp_copy (working_type mp type) recved in
  r_set_store mp master_key stored;;
  when mp (r_set_store false master_key (rsp_copy (dtype type) stored));;
  r_send (Response req_meta None false).

(** The array of a push message. *)
Definition r_recved (type : DataHandleType) (stored : RowSparse) (master_key : Z) (num_rows : nat) (req_data : KVPairs) : result RowSparse :=
  num_bytes ← mshadow_sizeof (dtype type);
  len ← rd (kv_lens req_data) 1;
  let unit_len := Z.quot len num_bytes in
  check (0 <? unit_len) "Check failed: unit_len > 0";;
  indices ← DecodeRowIds (kv_keys req_data) master_key num_rows;
  check (is_real_type (dtype type)) "This operation only supports floating point types";;
  data ← message_values req_data (num_rows * Z.to_nat unit_len);
  Ok {| rsp_rows := rsp_rows stored; rsp_width := rsp_width stored; rsp_idx := indices; rsp_data := as_rows num_rows (Z.to_nat unit_len) data |}.

Definition DataHandleRowSparse (type : DataHandleType) (req_meta : KVMeta) (req_data : KVPairs) : rsv unit :=
  k ← lift (rd (kv_keys req_data) 0);
  master_key ← lift (r_decode k);
  let num_rows := (length (kv_keys req_data) - 1)%nat in
  mp ← r_has_multi_precision_copy type;
  if m_push req_meta then
    ensure (negb (length (kv_lens req_data) =? 0)%nat) "req_data.lens cannot be empty";;
    len ← lift (rd (kv_lens req_data) 0);
    ensure (len =? 0) "Check failed: req_data.lens[0] == 0";;
    s ← gets (fun s => r_store s !! master_key);
    match s with
    | None =>
        ensure (negb (num_rows =? 0)%nat) "Init with empty data is not supported";;
        InitRowSparseStored type mp master_key num_rows req_meta req_data
    | Some stored =>
        sync ← gets r_sync;
        u ← gets (fun s => default {| r_request := []; r_merged := None; r_temp := None |} (r_updates s !! master_key));
        let u := {| r_request := r_request u;
                    r_merged := if sync : bool then Some (default (rsp_empty stored) (r_merged u)) else r_merged u;
                    r_temp := if mp : bool then Some (default (rsp_empty stored) (r_temp u)) else r_temp u |} in
        if (num_rows =? 0)%nat then
          if sync : bool then
            let u := {| r_request := r_request u ++ [req_meta]; r_merged := if bool_decide (r_request u = []) then Some (rsp_empty stored) else r_merged u; r_temp := r_temp u |} in
            r_set_updates master_key u;;
            r_ApplyUpdates type mp master_key u
          else
            r_set_updates master_key u;;
            r_send (Response req_meta None false)
        else
          recved ← lift (r_recved type stored master_key num_rows req_data);
          u ← (if bool_decide (r_request u = []) then
                 mret (if sync : bool then {| r_request := r_request u; r_merged := Some (rsp_copy (working_type mp type) recved); r_temp := r_temp u |}
                       else {| r_request := r_request u; r_merged := r_merged u; r_temp := Some (if mp : bool then rsp_copy kFloat32 recved else recved) |})
               else
                 ensure sync "Check failed: sync_mode_";;
                 lift (AccumulateRowSparseGrads type mp recved u));
          let u := {| r_request := r_request u ++ [req_meta]; r_merged := r_merged u; r_temp := r_temp u |} in
          r_set_updates master_key u;;
          r_ApplyUpdates type mp master_key u
    end
  else RowSparsePullResponse type master_key num_rows req_meta req_data.
End Handlers.

(** ** Initialising a key and pulling its rows *)
Section InitPull.
Context (env : Env) (updater : option (Z → RowSparse → RowSparse → RowSparse)) (type : DataHandleType) (key : Z) (n w : nat) (vals : list float) (size : Z).
Hypothesis Hrank : 0 ≤ my_rank env < num_servers env.
Hypothesis Hkey : 0 ≤ key ∧ key + Z.of_nat n < 2 ^ 31.
Hypothesis Hreal : is_real_type (dtype type) = true.
Hypothesis Hsize : mshadow_sizeof (dtype type) = Ok size.
Hypothesis Hn : (0 < n)%nat.
Hypothesis Hw : (0 < w)%nat.
Hypothesis Hvals : length vals = (n * w)%nat.

(** The server keys of the value and of rows of it. *)
Definition server_key (off : Z) : Z := width (num_servers env) * my_rank env + off.
Definition row_keys (rows : list nat) : list Z := server_key key :: ((fun r => server_key (key + Z.of_nat r)) <$> rows).

Definition init_msg : KVPairs := {| kv_keys := row_keys (seq 0 n); kv_lens := 0 :: replicate n (Z.of_nat w * size); kv_vals := Vals vals |}.
Definition pull_msg (rows : list nat) : KVPairs := {| kv_keys := row_keys rows; kv_lens := []; kv_vals := Vals [] |}.

(** Row [r] of the pushed matrix, converted to the element type. *)
Definition pushed_row (r : nat) : list float := map (cast_to (dtype type)) (take w (drop (r * w) vals)).
Definition init_array : RowSparse :=
  {| rsp_rows := Z.of_nat n; rsp_width := w; rsp_idx := Z.of_nat <$> seq 0 n; rsp_data := pushed_row <$> seq 0 n |}.

Lemma decode_server_key off : 0 ≤ off < 2 ^ 31 → r_decode env (server_key off) = Ok off.
Proof. intros Ho. unfold r_decode, decode_key, server_key. by apply DecodeKey_ok. Qed.

Lemma elem_size_pos : 0 < size.
Proof. destruct (dtype type) as [|[[[]|[]|]|[[]|[]|]|]|]; cbn in Hsize; try done; injection Hsize as <-; lia. Qed.

Lemma init_handled (meta : KVMeta) (s : RspServer) : m_push meta = true → r_store s !! key = None → r_multi_precision s = false →
  ∃ s', DataHandleRowSparse env updater type meta init_msg s = Ok (tt, s') ∧ r_store s' = <[key := init_array]> (r_store s) ∧ r_multi_precision s' = r_multi_precision s ∧
    r_outbox s' = r_outbox s ++ [Response meta None false].
Proof.
  intros Hp Hs Hmp. unfold DataHandleRowSparse. cbn [init_msg kv_keys row_keys kv_lens length]. rewrite (lift_bind _ _ (server_key key)) by done.
  rewrite (lift_bind _ _ _ _ (decode_server_key key ltac:(lia))). rewrite length_fmap, length_seq. unfold r_has_multi_precision_copy. rewrite (st_bind_Ok _ _ _ false s) by (unfold mbind, st_bind, gets; rewrite Hmp; done).
  rewrite Hp. rewrite ensure_bind by done. rewrite (lift_bind _ _ 0) by done. rewrite ensure_bind by done. rewrite gets_bind, Hs. rewrite ensure_bind by (destruct n; [lia|done]).
  unfold InitRowSparseStored. replace (S n - 1)%nat with n by lia. rewrite (lift_bind _ _ _ _ Hsize). rewrite (lift_bind _ _ (Z.of_nat w * size)) by (apply rd_ok; cbn; destruct n; [lia|done]). pose proof elem_size_pos.
  rewrite Z.quot_mul by lia. rewrite ensure_bind by (apply Z.ltb_lt; lia). rewrite ensure_bind by (cbn; rewrite Hvals; apply Z.eqb_eq; nia). rewrite ensure_bind by done. rewrite Nat2Z.id.
  rewrite (lift_bind _ _ vals) by (unfold message_values; cbn; rewrite (proj2 (Nat.leb_le _ _)), take_ge by lia; done). eexists. split; [done|]. split; [|done].
  cbn. unfold rsp_copy, init_array. cbn. do 2 f_equal. unfold as_rows. generalize (seq 0 n). intros l. induction l as [|r l IH]; [done|]. cbn. f_equal. exact IH.
Qed.

Lemma pull_handled (meta : KVMeta) (rows : list nat) (s : RspServer) : m_push meta = false → r_multi_precision s = false →
  r_store s !! key = Some init_array → Forall (fun r => (r < n)%nat) rows →
  ∃ s', DataHandleRowSparse env updater type meta (pull_msg rows) s = Ok (tt, s') ∧ r_store s' = r_store s ∧
    r_outbox s' = r_outbox s ++ [Response meta (Some {| kv_keys := row_keys rows; kv_lens := 0 :: replicate (length rows) (Z.of_nat w); kv_vals := Vals (mjoin (pushed_row <$> rows)) |}) false].
Proof.
  intros Hp Hmp Hs Hrows. unfold DataHandleRowSparse. cbn [pull_msg kv_keys row_keys kv_lens length]. rewrite (lift_bind _ _ (server_key key)) by done.
  rewrite (lift_bind _ _ _ _ (decode_server_key key ltac:(lia))). rewrite length_fmap. unfold r_has_multi_precision_copy. rewrite (st_bind_Ok _ _ _ false s) by (unfold mbind, st_bind, gets; rewrite Hmp; done).
  rewrite Hp. unfold RowSparsePullResponse. cbn [pull_msg kv_keys row_keys length]. replace (S (length rows) - 1)%nat with (length rows) by lia. rewrite length_fmap. destruct (Nat.eqb_spec (length rows) 0) as [H0|H0].
  { apply nil_length_inv in H0 as ->. eexists. split; [done|]. done. }
  rewrite gets_bind, Hs. rewrite ensure_bind by done. rewrite (lift_bind _ _ init_array) by done. rewrite (lift_bind _ _ (mjoin (pushed_row <$> rows))).
  - eexists. split; [done|]. split; [done|]. cbn. done.
  - apply (for_range_trace (fun j => mjoin (pushed_row <$> take (j - 1) rows))); [lia|done|by replace (S (length rows) - 1)%nat with (length rows) by lia; rewrite take_ge by lia|].
    intros j Hj. destruct j as [|j]; [lia|]. destruct (lookup_lt_is_Some_2 rows j) as [r Hr]; [lia|]. rewrite Forall_lookup in Hrows. pose proof (Hrows j r Hr).
    rewrite (rd_ok _ _ (server_key (key + Z.of_nat r))) by (unfold row_keys; rewrite lookup_cons; by rewrite list_lookup_fmap, Hr). rstep. rewrite decode_server_key by lia. rstep.
    rewrite (rdz_ok _ _ (pushed_row r)) by (lia || (replace (Z.to_nat (key + Z.of_nat r - key)) with r by lia; cbn; by rewrite list_lookup_fmap, lookup_seq_lt)). rstep.
    replace (S j - 1)%nat with j by lia. replace (S (S j) - 1)%nat with (S j) by lia. rewrite (take_S_r _ _ _ Hr), fmap_app, join_app. cbn. by rewrite app_nil_r.
Qed.
End InitPull.

(** A row-sparse value that a worker has initialised by pushing all its rows can be
    pulled by row: the push is answered once, and a pull of any rows, in any order and with
    repetitions, is answered with exactly these rows. *)
Theorem rowsparse_init_pull env updater type key (n w : nat) vals size (push pull : KVMeta) rows s :
  0 ≤ my_rank env < num_servers env → 0 ≤ key ∧ key + Z.of_nat n < 2 ^ 31 →
  is_real_type (dtype type) = true → mshadow_sizeof (dtype type) = Ok size → (0 < n)%nat → (0 < w)%nat → length vals = (n * w)%nat →
  m_push push = true → m_push pull = false → r_store s !! key = None → r_multi_precision s = false → Forall (fun r => (r < n)%nat) rows →
  ∃ s1 s2, DataHandleRowSparse env updater type push (init_msg env key n w vals size) s = Ok (tt, s1) ∧
    DataHandleRowSparse env updater type pull (pull_msg env key rows) s1 = Ok (tt, s2) ∧
    r_outbox s2 = r_outbox s ++ [Response push None false;
      Response pull (Some {| kv_keys := row_keys env key rows; kv_lens := 0 :: replicate (length rows) (Z.of_nat w); kv_vals := Vals (mjoin (pushed_row type w vals <$> rows)) |}) false].
Proof.
  intros Hr Hkey Hreal Hsize Hn Hw Hv Hp1 Hp2 Hs Hmp Hrows.
  destruct (init_handled env updater type key n w vals size Hr Hkey Hreal Hsize Hn Hw Hv push s Hp1 Hs Hmp) as (s1 & H1 & Hst & Hmp1 & Ho).
  destruct (pull_handled env updater type key n w vals Hr Hkey Hn Hw Hv pull rows s1 Hp2) as (s2 & H2 & _ & Ho2); [by rewrite Hmp1|by rewrite Hst, lookup_insert_eq|done|].
  exists s1, s2. split; [done|]. split; [done|]. rewrite Ho2, Ho, <- (assoc_L (++)). done.
Qed.

Definition w_rs_env : Env := {| is_global_server := false; enable_central_workers := false; num_workers := 2; num_servers := 1; num_global_workers := 0; num_global_servers := 0;
  my_rank := 0; my_global_rank := 0; my_global_id := 0; bigarray_bound_ := 1000; size_lower_bound := 0; use_hfa := false; period_k2 := 1; enable_p3 := false;
  enable_intra_ts := false; enable_inter_ts := false |}.
Definition w_rs_type : DataHandleType := {| requestType := Some kRowSparsePushPull; dtype := 0 |}.
Definition w_rs_meta (push : bool) (ts : Z) : KVMeta :=
  {| m_cmd := 0; m_push := push; m_sender := 9; m_timestamp := ts; m_customer_id := 0; m_key := 0; m_version := 0; m_num_merge := 1; m_app_id := 0 |}.
Definition w_rs_start : RspServer := {| r_sync := true; r_multi_precision := false; r_store := ∅; r_realt := ∅; r_updates := ∅; r_outbox := [] |}.
Definition w_rs_vals : list float := f32_of_Z <$> [10; 11; 12].

Lemma rowsparse_init_pull_witness :
  ∃ s1 s2, DataHandleRowSparse w_rs_env None w_rs_type (w_rs_meta true 1) (init_msg w_rs_env 7 3 1 w_rs_vals 4) w_rs_start = Ok (tt, s1) ∧
    DataHandleRowSparse w_rs_env None w_rs_type (w_rs_meta false 2) (pull_msg w_rs_env 7 [2; 0]%nat) s1 = Ok (tt, s2) ∧
    r_outbox s2 = [Response (w_rs_meta true 1) None false;
      Response (w_rs_meta false 2) (Some {| kv_keys := [7; 9; 7]; kv_lens := [0; 1; 1]; kv_vals := Vals (f32_of_Z <$> [12; 10]) |}) false].
Proof.
  destruct (rowsparse_init_pull w_rs_env None w_rs_type 7 3 1 w_rs_vals 4 (w_rs_meta true 1) (w_rs_meta false 2) [2; 0]%nat w_rs_start) as (s1 & s2 & H1 & H2 & H3);
    [by_decision|lia|reflexivity|reflexivity|lia|lia|reflexivity|reflexivity|reflexivity|reflexivity|reflexivity|repeat constructor|].
  exists s1, s2. split; [exact H1|]. split; [exact H2|]. rewrite H3. vm_compute. reflexivity.
Defined.

(** ** Pushes after the initialisation *)
Definition w_rs_push (row : Z) (x : Z) : KVPairs := {| kv_keys := [7; 7 + row]; kv_lens := [0; 4]; kv_vals := Vals [f32_of_Z x] |}.
Definition w_rs_run (pull_row : nat) : result (list action) :=
  r1 ← DataHandleRowSparse w_rs_env None w_rs_type (w_rs_meta true 1) (init_msg w_rs_env 7 3 1 w_rs_vals 4) w_rs_start;
  r2 ← DataHandleRowSparse w_rs_env None w_rs_type (w_rs_meta true 2) (w_rs_push 2 5) r1.2;
  r3 ← DataHandleRowSparse w_rs_env None w_rs_type (w_rs_meta false 3) (pull_msg w_rs_env 7 [pull_row]) r2.2;
  Ok (r_outbox r3.2).

(** C33: in the synchronous mode a row-sparse push to an initialised key is never answered.
    Whatever the message, a handler that succeeds sends nothing, and the request joins a
    list that no later push empties, so that the next round adds to the gradients of this
    one.  Moreover, on a server without optimizer a push of row 2 of a value with rows
    10, 11, 12 leaves only this row in memory: a pull of row 0 is answered with the pushed
    value 5, and a pull of row 2 reads out of range. *)
Theorem rowsparse_push_lost :
  (∀ env updater type meta data s s' k key stored,
     m_push meta = true → rd (kv_keys data) 0 = Ok k → r_decode env k = Ok key → r_store s !! key = Some stored → r_sync s = true →
     DataHandleRowSparse env updater type meta data s = Ok (tt, s') →
     r_outbox s' = r_outbox s ∧
     ∃ u, r_updates s' !! key = Some u ∧ r_request u = match r_updates s !! key with Some u0 => r_request u0 | None => [] end ++ [meta]) ∧
  w_rs_run 0 = Ok [Response (w_rs_meta true 1) None false;
    Response (w_rs_meta false 3) (Some {| kv_keys := [7; 7]; kv_lens := [0; 1]; kv_vals := Vals [f32_of_Z 5] |}) false] ∧
  w_rs_run 2 = Err (Undefined "read out of range").
Proof.
  split; [|split; vm_compute; reflexivity]. intros env updater type meta data s s' k key stored Hp Hk Hkey Hs Hsync H.
  assert (∀ mp u (s1 s2 : RspServer), r_ApplyUpdates env updater type mp key u s1 = Ok (tt, s2) → r_outbox s2 = r_outbox s1 ∧ r_updates s2 = r_updates s1) as Happly.
  { intros mp u s1 s2 Ha. unfold r_ApplyUpdates in Ha. apply st_bind_inv in Ha as (a1 & t1 & [= <- <-] & Ha). apply st_bind_inv in Ha as (a2 & t2 & E2 & Ha). apply st_bind_inv in Ha as (a3 & t3 & E3 & Ha).
    unfold lift in E2, E3. destruct (of_option _ _) in E2; [injection E2 as <- <-|done]. destruct (of_option _ _) in E3; [injection E3 as <- <-|done].
    destruct mp; injection Ha as <-; done. }
  unfold DataHandleRowSparse in H. rewrite (lift_bind _ _ _ _ Hk), (lift_bind _ _ _ _ Hkey) in H.
  apply st_bind_inv in H as (mp & t & Ht & H). unfold r_has_multi_precision_copy in Ht. injection Ht as <- <-. rewrite Hp in H.
  apply st_bind_inv in H as (? & t & Ht & H). unfold ensure, lift, check in Ht. destruct (negb _) in Ht; [injection Ht as <- <-|done].
  apply st_bind_inv in H as (len & t & Ht & H). unfold lift in Ht. destruct (rd _ _) in Ht; [injection Ht as <- <-|done].
  apply st_bind_inv in H as (? & t & Ht & H). unfold ensure, lift, check in Ht. destruct (_ =? _) in Ht; [injection Ht as <- <-|done].
  rewrite gets_bind, Hs, !gets_bind in H. rewrite Hsync in H. cbn iota in H.
  set (u0 := default {| r_request := []; r_merged := None; r_temp := None |} (r_updates s !! key)) in H.
  assert (r_request u0 = match r_updates s !! key with Some u0 => r_request u0 | None => [] end) as <- by (subst u0; by destruct (r_updates s !! key)).
  destruct (_ =? 0)%nat in H.
  - unfold r_set_updates in H. rewrite modify_bind in H. apply Happly in H as [-> ->]. split; [done|]. cbn. rewrite lookup_insert_eq. eexists. split; [done|]. done.
  - apply st_bind_inv in H as (recved & t & Ht & H). unfold lift in Ht. destruct (r_recved _ _ _ _ _ _) in Ht; [injection Ht as <- <-|done].
    apply st_bind_inv in H as (u & t & Ht & H). unfold r_set_updates in H. rewrite modify_bind in H. apply Happly in H as [-> ->]. cbn [r_outbox r_updates]. rewrite lookup_insert_eq.
    assert (t = s ∧ r_request u = r_request u0) as [-> Hu].
    { destruct (bool_decide _) in Ht; [injection Ht as <- <-; done|]. rewrite ensure_bind in Ht by done. unfold lift in Ht. destruct (AccumulateRowSparseGrads _ _ _ _) as [u'|e] eqn:E; [|done].
      injection Ht as <- <-. split; [done|]. unfold AccumulateRowSparseGrads in E. rinv E. injection E as <-. done. }
    split; [done|]. eexists. split; [done|]. cbn. by rewrite Hu.
Qed.

Definition w_rs_ready : RspServer :=
  match DataHandleRowSparse w_rs_env None w_rs_type (w_rs_meta true 1) (init_msg w_rs_env 7 3 1 w_rs_vals 4) w_rs_start with Ok r => r.2 | Err _ => w_rs_start end.

Lemma rowsparse_push_lost_witness :
  ∃ s', DataHandleRowSparse w_rs_env None w_rs_type (w_rs_meta true 2) (w_rs_push 2 5) w_rs_ready = Ok (tt, s') ∧ r_outbox s' = [Response (w_rs_meta true 1) None false].
Proof.
  destruct (DataHandleRowSparse w_rs_env None w_rs_type (w_rs_meta true 2) (w_rs_push 2 5) w_rs_ready) as [[[] s']|e] eqn:E; [|vm_compute in E; discriminate E].
  destruct (r_store w_rs_ready !! 7) as [stored|] eqn:Es; [|vm_compute in Es; discriminate Es].
  destruct (proj1 rowsparse_push_lost w_rs_env None w_rs_type (w_rs_meta true 2) (w_rs_push 2 5) w_rs_ready s' 7 7 stored) as [H _]; [reflexivity|reflexivity|vm_compute; reflexivity|exact Es|vm_compute; reflexivity|exact E|].
  exists s'. split; [reflexivity|]. rewrite H. vm_compute. reflexivity.
Defined.
