(* ===== verification/ServerSpec.v ===== *)
(** * What the synchronous global server promises

    The handlers of [DistServer] keep gradients and weights in shared arrays and count
    requests; seen from outside, a synchronous global server is a map from keys to values
    with the pushes of the current round.  This file states that view as a machine of its
    own and proves that the handlers implement it.
    Source: src/src/kvstore/kvstore_dist_server.h. *)

From Stdlib Require Import SpecFloat.
From S2P Require Import Prelude Floats Command Text Postoffice Customer TwoBit GradientCompression KeyEncoding KVApp NDArray ServerState DistServer.
Local Open Scope Z_scope.

(** ** Running handlers *)
Lemma run_bind {S A B} (m : st S A) (f : A → st S B) s a s' r :
  m s = Ok (a, s') → f a s' = r → (m ≫= f) s = r.
Proof. intros H <-. by apply st_bind_Ok. Qed.

Lemma bind_assoc {S A B C} (m : st S A) (f : A → st S B) (g : B → st S C) s :
  ((m ≫= f) ≫= g) s = (m ≫= (fun a => f a ≫= g)) s.
Proof. unfold mbind, st_bind. by destruct (m s) as [[a s']|e]. Qed.

Lemma on_heap_Ok f h s : f (heap_ s) = Ok h → on_heap f s = Ok (tt, set_heap h s).
Proof. intros H. unfold on_heap. rewrite gets_bind. by rewrite (lift_bind _ _ h). Qed.

Lemma new_nd_Ok n d s :
  new_nd n d s = Ok (Some (next_cell (heap_ s)), set_heap (new_array (heap_ s) n d).2 s).
Proof. done. Qed.

Lemma send_bind {A} a (k : srv A) s : (send a;; k) s = k (set_outbox (outbox s ++ [a]) s).
Proof. done. Qed.

Lemma when_true {S} (m : st S unit) s : when true m s = m s.
Proof. done. Qed.

Lemma when_true_bind {S A} (m : st S unit) (k : st S A) s : (when true m;; k) s = (m;; k) s.
Proof. done. Qed.

(** One step of a handler. *)
Ltac srun :=
  lazymatch goal with
  | |- ((_ ≫= _) ≫= _) _ = _ => rewrite bind_assoc
  | |- (gets _ ≫= _) _ = _ => rewrite gets_bind
  | |- (modify _;; _) _ = _ => rewrite modify_bind
  | |- (mret _ ≫= _) _ = _ => eapply run_bind; [reflexivity|]
  | |- (ensure _ _;; _) _ = _ => rewrite ensure_bind; [|try reflexivity]
  | |- (send _;; _) _ = _ => rewrite send_bind
  | |- (when true _;; _) _ = _ => rewrite when_true_bind
  | |- (when false _;; _) _ = _ => eapply run_bind; [reflexivity|]
  end; cbv beta; sproj.

(** ** The abstract machine *)

(** A key: the type and contents of its value, and the pushes of the current round. *)
Record KeyState := { ks_dtype : Z; ks_value : list float; ks_pending : list (KVMeta * list float) }.
Abbreviation Spec := (gmap Z KeyState).

(** The aggregate of a round, added up in order of arrival. *)
Definition total (d : Z) (l : list (list float)) : list float :=
  match l with
  | [] => []
  | v :: l => foldl (zip_with (dadd d)) (cast_to d <$> v) l
  end.

(** The requests a round has to acknowledge; a merged push counts for several. *)
Definition requests (l : list (KVMeta * list float)) : list KVMeta :=
  l ≫= (fun p => replicate (Z.to_nat (m_num_merge p.1)) p.1).

Section Machine.
Context (env : Env) (updater : option (Z → chunk → chunk → list float)).

Definition updated (key : Z) (st : KeyState) (agg : list float) : list float :=
  match updater with
  | Some f => f key {| ch_dtype := ks_dtype st; ch_data := agg |} {| ch_dtype := ks_dtype st; ch_data := ks_value st |}
  | None => cast_to (ks_dtype st) <$> agg
  end.

(** End the round of [key] if it is complete. *)
Definition close_round (key : Z) (st : KeyState) : KeyState * list action :=
  let reqs := requests (ks_pending st) in
  if Z.of_nat (length reqs) =? global_round env then
    ({| ks_dtype := ks_dtype st; ks_value := updated key st (total (ks_dtype st) (ks_pending st).*2); ks_pending := [] |},
     (fun req => Response req None (m_sender req <? kOffset)) <$> reqs)
  else (st, []).

(** A push of values [v] of type [d]. *)
Definition spec_push (σ : Spec) (key : Z) (d : Z) (meta : KVMeta) (v : list float) : Spec * list action :=
  match σ !! key with
  | None => (<[key := {| ks_dtype := d; ks_value := cast_to d <$> v; ks_pending := [] |}]> σ, [Response meta None false])
  | Some st =>
      if (kOffset <? m_sender meta) && negb (enable_central_workers env) then (σ, [])
      else
        let '(st', out) := close_round key {| ks_dtype := ks_dtype st; ks_value := ks_value st;
                                               ks_pending := ks_pending st ++ [(meta, v)] |} in
        (<[key := st']> σ, out)
  end.
End Machine.

(** ** The relation between the machine and the server

    [own] says which cell belongs to which key, as its value ([false]) or as its
    aggregate ([true]): no array is shared. *)
Definition key_inv (s : Server) (own : gmap nat (Z * bool)) (k : Z) (st : KeyState) : Prop :=
  (∃ c, store_ s !! k = Some (Some c) ∧ own !! c = Some (k, false) ∧
     cells (heap_ s) !! c = Some {| ch_dtype := ks_dtype st; ch_data := ks_value st |}) ∧
  initialized_ s !! k = Some true ∧
  (let u := default UpdateBuf_empty (update_buf_ s !! k) in
   request u = requests (ks_pending st) ∧
   Forall (fun p => 0 < m_num_merge p.1 ∧ length p.2 = length (ks_value st)) (ks_pending st) ∧
   match merged u with
   | None => ks_pending st = []
   | Some m => own !! m = Some (k, true) ∧ ∃ data,
       cells (heap_ s) !! m = Some {| ch_dtype := ks_dtype st; ch_data := data |} ∧
       length data = length (ks_value st) ∧
       (ks_pending st ≠ [] → data = total (ks_dtype st) (ks_pending st).*2)
   end).

Record refines_own (g : bool) (own : gmap nat (Z * bool)) (σ : Spec) (s : Server) : Prop := {
  ref_wf : heap_wf (heap_ s);
  ref_sync : sync_mode_ s = true;
  ref_sync_global : sync_global_mode_ s = g;
  ref_precision : multi_precision_ s = false;
  ref_own : ∀ c, is_Some (own !! c) → is_Some (cells (heap_ s) !! c);
  ref_keys : ∀ k st, σ !! k = Some st → key_inv s own k st;
  ref_absent : ∀ k, σ !! k = None → default None (store_ s !! k) = None ∧ update_buf_ s !! k = None ∧
                                    default false (initialized_ s !! k) = false
}.
Definition refines (g : bool) (σ : Spec) (s : Server) : Prop := ∃ own, refines_own g own σ s.

(** What belongs to a key is not affected by changes elsewhere. *)
Lemma key_inv_frame s s' own own' k st :
  store_ s' !! k = store_ s !! k → initialized_ s' !! k = initialized_ s !! k → update_buf_ s' !! k = update_buf_ s !! k →
  (∀ c r, own !! c = Some (k, r) → own' !! c = Some (k, r) ∧ cells (heap_ s') !! c = cells (heap_ s) !! c) →
  key_inv s own k st → key_inv s' own' k st.
Proof.
  intros Hs Hi Hu Hc ((c & Hc1 & Hc2 & Hc3) & Hinit & Hreq & Hall & Hm). unfold key_inv. rewrite Hs, Hi, Hu.
  split; [|split; [done|]].
  - exists c. destruct (Hc _ _ Hc2) as [-> ->]. done.
  - split; [done|]. split; [done|]. destruct (merged _) as [m|]; [|done].
    destruct Hm as [Ho (data & Hd & Hl)]. destruct (Hc _ _ Ho) as [-> ->]. eauto.
Qed.

(** A step that only concerns [key]. *)
Lemma refines_key g own own' σ s s' key st' :
  refines_own g own σ s → heap_wf (heap_ s') →
  sync_mode_ s' = sync_mode_ s → sync_global_mode_ s' = sync_global_mode_ s → multi_precision_ s' = multi_precision_ s →
  (∀ k, k ≠ key → store_ s' !! k = store_ s !! k ∧ initialized_ s' !! k = initialized_ s !! k ∧
                  update_buf_ s' !! k = update_buf_ s !! k) →
  (∀ c k r, k ≠ key → own !! c = Some (k, r) → own' !! c = Some (k, r) ∧ cells (heap_ s') !! c = cells (heap_ s) !! c) →
  (∀ c, is_Some (own' !! c) → is_Some (cells (heap_ s') !! c)) →
  key_inv s' own' key st' → refines_own g own' (<[key := st']> σ) s'.
Proof.
  intros [Hwf Hsy Hsg Hmp Hown Hkeys Habs] Hwf' H1 H2 H3 Hf Hc Hown' Hkey. split; [done|congruence..|done| |].
  - intros k st Hk. destruct (decide (k = key)) as [->|Hne].
    + rewrite lookup_insert_eq in Hk. by injection Hk as <-.
    + rewrite lookup_insert_ne in Hk by done. destruct (Hf k Hne) as (? & ? & ?).
      eapply key_inv_frame; [done..| |by apply Hkeys]. intros c r. by apply Hc.
  - intros k Hk. destruct (decide (k = key)) as [->|Hne]; [by rewrite lookup_insert_eq in Hk|].
    rewrite lookup_insert_ne in Hk by done. destruct (Hf k Hne) as (-> & -> & ->). by apply Habs.
Qed.

(** Allocation and writing at a key's own cell keep the ownership in order. *)
Lemma own_alloc g own σ s key r :
  refines_own g own σ s → own !! next_cell (heap_ s) = None ∧
  ∀ ch c, (is_Some (<[next_cell (heap_ s) := (key, r)]> own !! c) → is_Some (cells (alloc (heap_ s) ch).2 !! c)) ∧
    (∀ k r', own !! c = Some (k, r') → <[next_cell (heap_ s) := (key, r)]> own !! c = Some (k, r') ∧
       cells (alloc (heap_ s) ch).2 !! c = cells (heap_ s) !! c).
Proof.
  intros [Hwf _ _ _ Hown _ _].
  assert (own !! next_cell (heap_ s) = None) as Hfresh.
  { apply eq_None_not_Some. intros H. by apply (fresh_cell (heap_ s) (next_cell (heap_ s))); [|apply Hown|]. }
  split; [done|]. intros ch c. cbn. destruct (decide (c = next_cell (heap_ s))) as [->|Hne].
  - rewrite !lookup_insert_eq. split; [done|]. congruence.
  - rewrite !lookup_insert_ne by done. split; [apply Hown|done].
Qed.

Lemma own_put g own σ s key r c ch :
  refines_own g own σ s → own !! c = Some (key, r) →
  (∀ c', is_Some (own !! c') → is_Some (cells (put (heap_ s) c ch) !! c')) ∧ heap_wf (put (heap_ s) c ch) ∧
  (∀ c' k r', own !! c' = Some (k, r') → (k, r') ≠ (key, r) → cells (put (heap_ s) c ch) !! c' = cells (heap_ s) !! c').
Proof.
  intros [Hwf _ _ _ Hown _ _] Hc. split_and!.
  - intros c' H. cbn. destruct (decide (c' = c)) as [->|Hne]; [by rewrite lookup_insert_eq|].
    rewrite lookup_insert_ne by done. by apply Hown.
  - apply heap_wf_put; [done|]. apply Hown. by rewrite Hc.
  - intros c' k r' Hk Hne. cbn. rewrite lookup_insert_ne; congruence.
Qed.

(** The relation looks at these parts of the state only. *)
Lemma refines_ext g σ s s' :
  heap_ s' = heap_ s → store_ s' = store_ s → initialized_ s' = initialized_ s → update_buf_ s' = update_buf_ s →
  sync_mode_ s' = sync_mode_ s → sync_global_mode_ s' = sync_global_mode_ s → multi_precision_ s' = multi_precision_ s →
  refines g σ s → refines g σ s'.
Proof.
  intros H1 H2 H3 H4 H5 H6 H7 [own [Hwf Hs Hg Hm Hown Hkeys Habs]]. exists own.
  split; rewrite ?H1, ?H2, ?H3, ?H4, ?H5, ?H6, ?H7; try done.
  intros k st Hk. unfold key_inv. rewrite H1, H2, H3, H4. by apply Hkeys.
Qed.

(** A new value of the same size. *)
Lemma value_refines g own σ s key st c v' :
  refines_own g own σ s → σ !! key = Some st → store_ s !! key = Some (Some c) → own !! c = Some (key, false) →
  length v' = length (ks_value st) →
  refines g (<[key := {| ks_dtype := ks_dtype st; ks_value := v'; ks_pending := ks_pending st |}]> σ)
    (set_heap (put (heap_ s) c {| ch_dtype := ks_dtype st; ch_data := v' |}) s).
Proof.
  intros Href Hst Hs Hc Hl. pose proof (ref_keys _ _ _ _ Href _ _ Hst) as (_ & Hi & Hreq & Hall & Hm).
  destruct (own_put g own σ s key false c {| ch_dtype := ks_dtype st; ch_data := v' |} Href Hc) as (Hp1 & Hp2 & Hp3'). exists own.
  eapply refines_key; sproj; [exact Href|done|done..|intros; split; [done|]; eapply Hp3'; [done|congruence]|done|].
  unfold key_inv. sproj. cbn [ks_pending ks_value ks_dtype]. rewrite Hl.
  split; [exists c; split; [done|]; split; [done|]; apply lookup_insert_eq|]. split; [done|]. split; [done|]. split; [done|].
  destruct (merged _) as [m|]; [|done]. destruct Hm as (Ho & data & Hd & Hld). split; [done|]. exists data.
  split; [|done]. rewrite <- Hd. eapply Hp3'; [done|congruence].
Qed.

(** The end of a round: a new value, no pushes. *)
Lemma closed_refines g own σ s key st c m t v' :
  refines_own g own σ s → σ !! key = Some st → store_ s !! key = Some (Some c) → own !! c = Some (key, false) →
  own !! m = Some (key, true) → length v' = length (ks_value st) →
  (∃ data, cells (heap_ s) !! m = Some {| ch_dtype := ks_dtype st; ch_data := data |} ∧ length data = length (ks_value st)) →
  refines g (<[key := {| ks_dtype := ks_dtype st; ks_value := v'; ks_pending := [] |}]> σ)
    (set_update_buf (<[key := {| request := []; merged := Some m; temp_array := t |}]> (update_buf_ s))
       (set_heap (put (heap_ s) c {| ch_dtype := ks_dtype st; ch_data := v' |}) s)).
Proof.
  intros Href Hst Hs Hc Hm Hl (data & Hd & Hld). pose proof (ref_keys _ _ _ _ Href _ _ Hst) as (_ & Hi & _).
  destruct (own_put g own σ s key false c {| ch_dtype := ks_dtype st; ch_data := v' |} Href Hc) as (Hp1 & Hp2 & Hp3'). exists own.
  eapply refines_key; sproj; [exact Href|done|done..| |intros; split; [done|]; eapply Hp3'; [done|congruence]|done|].
  - intros k Hk. by rewrite lookup_insert_ne.
  - unfold key_inv. sproj. rewrite lookup_insert_eq. cbn [default from_option request merged ks_pending ks_value ks_dtype].
    unfold id. cbn [request merged].
    split; [exists c; split; [done|]; split; [done|]; apply lookup_insert_eq|]. split; [done|]. split; [done|]. split; [done|].
    split; [done|]. exists data. split; [rewrite <- Hd; eapply Hp3'; [done|congruence]|]. split; [congruence|done].
Qed.

Lemma requests_app l1 l2 : requests (l1 ++ l2) = requests l1 ++ requests l2.
Proof. unfold requests. apply bind_app. Qed.

Lemma requests_nil l (P : KVMeta * list float → Prop) :
  Forall (fun p => 0 < m_num_merge p.1 ∧ P p) l → requests l = [] ↔ l = [].
Proof.
  intros H. split; [|by intros ->]. destruct H as [|p l [Hp _] _]; [done|]. cbn.
  destruct (Z.to_nat (m_num_merge p.1)) eqn:E; [lia|]. done.
Qed.

Lemma length_foldl_zip {A} (f : A → A → A) l : ∀ v : list A,
  Forall (fun w => length w = length v) l → length (foldl (zip_with f) v l) = length v.
Proof.
  induction l as [|w l IH]; intros v H; [done|]. apply Forall_cons in H as [Hw H]. cbn [foldl].
  assert (length (zip_with f v w) = length v) as Hz by (rewrite length_zip_with; lia).
  rewrite IH; [done|]. by rewrite Hz.
Qed.

Lemma total_snoc d l v : l ≠ [] → total d (l ++ [v]) = zip_with (dadd d) (total d l) v.
Proof. destruct l as [|w l]; [done|]. intros _. cbn. by rewrite foldl_app. Qed.

Lemma length_total d n l : l ≠ [] → Forall (fun w => length w = n) l → length (total d l) = n.
Proof.
  intros Hne H. destruct H as [|v l Hv H]; [done|]. cbn. rewrite length_foldl_zip; rewrite length_fmap; [done|].
  by rewrite Hv.
Qed.

(** Only arrays and the bookkeeping of rounds change. *)
Definition only_updates (s s' : Server) : Prop := ∃ h ub, s' = set_update_buf ub (set_heap h s).

(** ** The handlers implement the machine *)
Section Refinement.
Context (env : Env) (updater : option (Z → chunk → chunk → list float)).
Hypothesis Hglobal : is_global_server env = true.
Hypothesis Hp3 : enable_p3 env = false.
Hypothesis Hts : enable_inter_ts env = false.

Lemma prepare_refines g σ s key st type n :
  refines g σ s → σ !! key = Some st → dtype type = ks_dtype st → n = length (ks_value st) →
  ∃ m t s', let u := {| request := requests (ks_pending st); merged := Some m; temp_array := t |} in
    prepare_updates type false key n s = Ok (u, s') ∧
    refines g σ s' ∧ only_updates s s' ∧ update_buf_ s' !! key = Some u.
Proof.
  intros [own Href] Hst Hd ->. pose proof (ref_keys _ _ _ _ Href _ _ Hst) as ((c & Hc1 & Hc2 & Hc3) & Hi & Hreq & Hall & Hm).
  unfold prepare_updates, get_updates. destruct (default UpdateBuf_empty (update_buf_ s !! key)) as [rq mg ta] eqn:Eu.
  cbn [request merged] in Hreq, Hm. subst rq. destruct mg as [m|].
  - (* the aggregate exists *)
    eexists m, ta, _. split.
    { srun. rewrite Eu. cbn [merged temp_array is_none andb request]. srun. srun. unfold put_updates. srun. done. }
    split; [|split; [exists (heap_ s); eexists; by destruct s|sproj; apply lookup_insert_eq]]. exists own.
    rewrite <- (insert_id σ key st) by done. eapply refines_key; sproj; [exact Href|apply Href|done..| |done|apply Href|].
    + intros k Hk. by rewrite lookup_insert_ne.
    + unfold key_inv. sproj. rewrite lookup_insert_eq. cbn. eauto 10.
  - (* a fresh cell *)
    destruct (own_alloc g own σ s key true Href) as [Hfresh Hal].
    eexists (next_cell (heap_ s)), ta, _. split.
    { srun. rewrite Eu. cbn [merged temp_array is_none andb request]. eapply run_bind; [apply new_nd_Ok|]. cbv beta.
      srun. unfold put_updates. srun. done. }
    split; [|split; [by eexists _, _|sproj; apply lookup_insert_eq]]. exists (<[next_cell (heap_ s) := (key, true)]> own).
    rewrite <- (insert_id σ key st) by done.
    eapply refines_key; sproj; [exact Href|apply heap_wf_alloc, Href|done..| | | |].
    + intros k Hk. by rewrite lookup_insert_ne.
    + intros c' k r _ H. by apply Hal.
    + intros c'. apply Hal.
    + destruct (Hal {| ch_dtype := dtype type; ch_data := replicate (length (ks_value st)) S754_nan |} c) as [_ Hf].
      destruct (Hf _ _ Hc2) as [Hf1 Hf2]. unfold key_inv. sproj. rewrite lookup_insert_eq. cbn in *.
      split; [exists c; by rewrite Hf2|]. split; [done|]. split; [done|]. split; [done|].
      rewrite !lookup_insert_eq. split; [done|]. rewrite Hd.
      eexists. split; [done|]. split; [by rewrite length_replicate|]. done.
Qed.

(** A push joins the aggregate. *)
Lemma aggregate_refines g σ s key st m t meta v :
  let u := {| request := requests (ks_pending st); merged := Some m; temp_array := t |} in
  refines g σ s → σ !! key = Some st → update_buf_ s !! key = Some u →
  length v = length (ks_value st) → 0 < m_num_merge meta →
  ∃ s', (aggregate false u {| ch_dtype := ks_dtype st; ch_data := v |};;
         put_updates key {| request := request u ++ replicate (Z.to_nat (m_num_merge meta)) meta;
                            merged := Some m; temp_array := t |}) s = Ok (tt, s') ∧
    refines g (<[key := {| ks_dtype := ks_dtype st; ks_value := ks_value st;
                         ks_pending := ks_pending st ++ [(meta, v)] |}]> σ) s' ∧ only_updates s s'.
Proof.
  intros u [own Href] Hst Hu Hv Hn.
  pose proof (ref_keys _ _ _ _ Href _ _ Hst) as ((c & Hc1 & Hc2 & Hc3) & Hi & Hreq & Hall & Hm).
  rewrite Hu in Hreq, Hm. cbn in Hreq, Hm. destruct Hm as (Ho & data & Hd & Hl & Hdata).
  set (data' := total (ks_dtype st) (ks_pending st ++ [(meta, v)]).*2).
  set (h' := put (heap_ s) m {| ch_dtype := ks_dtype st; ch_data := data' |}).
  assert (aggregate false u {| ch_dtype := ks_dtype st; ch_data := v |} s = Ok (tt, set_heap h' s)) as Hagg.
  { unfold aggregate. cbn [request u merged]. case_bool_decide as E.
    - apply (requests_nil _ _ Hall) in E. apply on_heap_Ok. unfold h', data'. rewrite E.
      by rewrite (CopyRaw_put _ _ _ Hd) by (cbn; congruence).
    - apply on_heap_Ok. unfold h', data'. rewrite fmap_app. cbn [fmap list_fmap].
      assert (ks_pending st ≠ []) as Hne by (intros H; by rewrite H in E).
      rewrite total_snoc by (by destruct (ks_pending st)). rewrite <- Hdata by done.
      rewrite (plus_assign_raw_put _ _ _ Hd) by (cbn; congruence). done. }
  destruct (own_put g own σ s key true m {| ch_dtype := ks_dtype st; ch_data := data' |} Href Ho) as (Hp1 & Hp2 & Hp3').
  eexists. split; [eapply run_bind; [exact Hagg|]; done|]. split; [|by eexists _, _]. exists own.
  eapply refines_key; sproj; [exact Href|done|done..| |intros; split; [done|]; eapply Hp3'; [done|congruence]|done|].
  - intros k Hk. by rewrite lookup_insert_ne.
  - unfold key_inv. sproj. rewrite lookup_insert_eq. cbn [default from_option request merged ks_pending ks_value ks_dtype].
    split; [exists c; split; [done|]; split; [done|]; rewrite <- Hc3; eapply Hp3'; [done|congruence]|]. split; [done|].
    unfold id. cbn [request merged]. split; [rewrite requests_app; cbn; by rewrite app_nil_r|].
    split; [apply Forall_app; split; [done|by constructor]|]. split; [done|].
    exists data'. split; [apply lookup_insert_eq|]. split; [|done].
    unfold data'. apply length_total; [by destruct (ks_pending st)|].
    rewrite Forall_fmap. apply Forall_app. split; [|by constructor]. eapply Forall_impl; [exact Hall|]. simpl. naive_solver.
Qed.

Hypothesis Hlen : ∀ f k a b, updater = Some f → length (ch_data a) = length (ch_data b) →
  length (f k a b) = length (ch_data b).

Lemma send_all {A} (f : A → action) l : ∀ s,
  for_each (fun x => send (f x)) l s = Ok (tt, set_outbox (outbox s ++ (f <$> l)) s).
Proof.
  induction l as [|x l IH]; intros s; cbn [for_each fmap list_fmap].
  - rewrite app_nil_r. by destruct s.
  - eapply run_bind; [reflexivity|]. cbv beta. rewrite IH. sproj. by rewrite <- app_assoc.
Qed.

Lemma length_updated key st agg :
  length agg = length (ks_value st) → length (updated updater key st agg) = length (ks_value st).
Proof.
  intros H. unfold updated. destruct updater as [f|] eqn:E; [|by rewrite length_fmap].
  by rewrite (Hlen f) by done.
Qed.

(** The aggregate of a round is applied to the value. *)
Lemma ApplyUpdates_run own σ s key st type meta data c m :
  refines_own true own σ s → σ !! key = Some st → ks_pending st ≠ [] →
  store_ s !! key = Some (Some c) → own !! c = Some (key, false) →
  cells (heap_ s) !! c = Some {| ch_dtype := ks_dtype st; ch_data := ks_value st |} →
  merged (default UpdateBuf_empty (update_buf_ s !! key)) = Some m → own !! m = Some (key, true) →
  cells (heap_ s) !! m = Some {| ch_dtype := ks_dtype st; ch_data := total (ks_dtype st) (ks_pending st).*2 |} →
  length (total (ks_dtype st) (ks_pending st).*2) = length (ks_value st) →
  ApplyUpdates env updater type key true false meta data s =
    Ok (tt, set_heap (put (heap_ s) c {| ch_dtype := ks_dtype st;
                        ch_data := updated updater key st (total (ks_dtype st) (ks_pending st).*2) |}) s).
Proof.
  intros Href Hst Hne Hs Hoc Hc Hm Hom Hcm Hl. unfold ApplyUpdates, has_multi_precision_copy, slot, get_updates.
  srun. srun. srun. rewrite (ref_precision _ _ _ _ Href). cbn [andb]. srun. rewrite Hs.
  change (default None (Some (Some c))) with (Some c). srun. rewrite Hm. set (h' := put _ _ _). eapply (run_bind _ _ _ tt (set_heap h' s)); [|done].
  unfold h', updated. destruct updater as [f|].
  - rewrite Hglobal. unfold read_nd. srun. srun. eapply run_bind; [unfold lift; by rewrite (deref_cell _ _ _ Hcm)|]. cbv beta.
    srun. srun. eapply run_bind; [unfold lift; by rewrite (deref_cell _ _ _ Hc)|]. cbv beta.
    apply on_heap_Ok. by rewrite (store_data_put _ _ _ Hc).
  - srun. apply on_heap_Ok. rewrite (CopyFromTo_put _ _ _ Hc _ _ Hcm); [done|congruence|done].
Qed.

Lemma finish_refines σ s key st type meta data :
  refines true σ s → σ !! key = Some st → ks_pending st ≠ [] →
  ∃ s', finish_global env updater type key false meta data s = Ok (tt, s') ∧
    refines true (<[key := (close_round env updater key st).1]> σ) s' ∧
    outbox s' = outbox s ++ (close_round env updater key st).2.
Proof.
  intros [own Href] Hst Hne. pose proof (ref_keys _ _ _ _ Href _ _ Hst) as ((c & Hc1 & Hc2 & Hc3) & Hi & Hreq & Hall & Hm).
  unfold finish_global, close_round, get_updates.
  destruct (default UpdateBuf_empty (update_buf_ s !! key)) as [rq mg ta] eqn:Eu. cbn [request merged] in Hreq, Hm. subst rq.
  destruct (Z.eqb_spec (Z.of_nat (length (requests (ks_pending st)))) (global_round env)) as [Hr|Hr]; cbn [fst snd].
  2:{ exists s. rewrite app_nil_r, (insert_id σ key st) by done. split; [|by split; [exists own|]].
      srun. rewrite Eu. cbn [request]. by rewrite (proj2 (Z.eqb_neq _ _) Hr). }
  destruct mg as [m|]; [|done]. destruct Hm as (Ho & d & Hd & Hl & Hdata). specialize (Hdata Hne). subst d.
  set (v' := updated updater key st (total (ks_dtype st) (ks_pending st).*2)).
  eexists. split.
  { srun. rewrite Eu. cbn [request]. rewrite (proj2 (Z.eqb_eq _ _) Hr), when_true.
    eapply run_bind; [eapply (ApplyUpdates_run own σ s key st type meta data c m); first [done|by rewrite Eu]|]. cbv beta.
    eapply run_bind; [apply send_all|]. cbv beta. unfold clear_requests, get_updates. srun. rewrite Eu. cbn [merged temp_array].
    unfold put_updates. done. }
  split; [|sproj; done]. eapply refines_ext; [..|eapply (closed_refines true own σ s key st c m ta v')]; sproj; try done.
  - unfold v'. by rewrite length_updated.
  - by eexists.
Qed.

(** The first push of a key. *)
Lemma init_refines σ s key type meta v :
  refines true σ s → σ !! key = None →
  ∃ s', (init_stored type false key {| ch_dtype := dtype type; ch_data := v |};; init_response env type false key meta) s =
      Ok (tt, s') ∧
    refines true (<[key := {| ks_dtype := dtype type; ks_value := cast_to (dtype type) <$> v; ks_pending := [] |}]> σ) s' ∧
    outbox s' = outbox s ++ [Response meta None false].
Proof.
  intros [own Href] Hst. destruct (ref_absent _ _ _ _ Href key Hst) as (Hs & Hu & Hi).
  destruct (own_alloc true own σ s key false Href) as [Hfresh Hal].
  eexists. split.
  { unfold init_stored. srun. eapply run_bind; [apply new_nd_Ok|]. cbv beta. cbn [ch_data]. unfold set_slot. srun. srun.
    unfold copy_raw. srun. eapply run_bind.
    { apply on_heap_Ok. sproj. cbn [ch_data].
      rewrite (CopyRaw_put _ _ {| ch_dtype := dtype type; ch_data := replicate (length v) S754_nan |});
        [done|apply lookup_insert_eq|cbn [ch_data]; by rewrite length_replicate]. }
    cbv beta. sproj. srun. unfold init_response. rewrite Hglobal. srun. unfold modify. sproj. done. }
  split; [|sproj; done]. exists (<[next_cell (heap_ s) := (key, false)]> own).
  eapply refines_key; sproj; [exact Href| |done..| | | |].
  - apply heap_wf_put; [apply heap_wf_alloc, Href|]. cbn. by rewrite lookup_insert_eq.
  - intros k Hk. by rewrite !lookup_insert_ne.
  - intros c k r Hk Hc. destruct (Hal {| ch_dtype := dtype type; ch_data := replicate (length v) S754_nan |} c) as [_ Hf].
    destruct (Hf _ _ Hc) as [Hf1 Hf2]. split; [done|]. rewrite <- Hf2. cbn. rewrite lookup_insert_ne; [done|congruence].
  - intros c Hc. cbn. destruct (decide (c = next_cell (heap_ s))) as [->|Hne]; [by rewrite lookup_insert_eq|].
    rewrite !lookup_insert_ne by done. rewrite lookup_insert_ne in Hc by done. by apply (ref_own _ _ _ _ Href).
  - unfold key_inv. sproj. rewrite Hu, !lookup_insert_eq. cbn.
    split; [eexists; split; [done|]; by rewrite !lookup_insert_eq|]. done.
Qed.

(** A message that pushes the values [v] of type [d] for [key]. *)
Record push_of (d key : Z) (meta : KVMeta) (data : KVPairs) (v : list float) : Prop := {
  po_cmd : m_cmd meta = GetCommandType kDefaultPushPull d;
  po_real : is_real_type d = true;
  po_push : m_push meta = true;
  po_sender : Z.rem (m_sender meta) 2 = 1;
  po_merge : 0 < m_num_merge meta;
  po_vals : kv_vals data = Vals v;
  po_size : ∃ size, mshadow_sizeof d = Ok size ∧ kv_lens data = [Z.of_nat (length v) * size] ∧
                    Z.of_nat (length v) * size < 2 ^ 31;
  po_key : ∃ k, kv_keys data = [k] ∧ decode_key env k (is_global_server env) = Ok key
}.

Lemma depair_default d : is_real_type d = true →
  DepairDataHandleType (GetCommandType kDefaultPushPull d) = Ok {| requestType := Some kDefaultPushPull; dtype := d |}.
Proof.
  unfold is_real_type. intros H. apply orb_true_iff in H as [[H|H]%orb_true_iff|H]; apply Z.eqb_eq in H as ->; vm_compute; done.
Qed.

Lemma sizeof_real d size : is_real_type d = true → mshadow_sizeof d = Ok size → 0 < size.
Proof.
  unfold is_real_type. intros H. apply orb_true_iff in H as [[H|H]%orb_true_iff|H]; apply Z.eqb_eq in H as ->; cbn; intros [= <-]; lia.
Qed.

(** The array made from a message with a whole value. *)
Lemma recv_dense d size data v rt :
  is_real_type d = true → mshadow_sizeof d = Ok size → kv_vals data = Vals v →
  kv_lens data = [Z.of_nat (length v) * size] → Z.of_nat (length v) * size < 2 ^ 31 →
  recv_array {| requestType := rt; dtype := d |} data 0 = Ok {| ch_dtype := d; ch_data := v |}.
Proof.
  intros Hr Hsz Hv Hl Hb. pose proof (sizeof_real d size Hr Hsz) as Hpos.
  unfold recv_array. rewrite Hl. change (rd [Z.of_nat (length v) * size] 0) with (Ok (Z.of_nat (length v) * size)).
  cbn [dtype mbind result_bind]. rewrite Hsz. rstep. rewrite check_bind_ok by done.
  rewrite u64_id by lia. rewrite Z.div_mul by lia. rewrite Nat2Z.id. unfold message_values. rewrite Hv, Nat.leb_refl.
  rewrite take_ge by lia. done.
Qed.

(** The received array of a push. *)
Lemma push_recv d key meta data v :
  push_of d key meta data v → ∀ rt,
  recv_array {| requestType := rt; dtype := d |} data 0 = Ok {| ch_dtype := d; ch_data := v |} ∧
  ∃ size, mshadow_sizeof d = Ok size ∧ ∀ s, check_push meta data size s = Ok (tt, s).
Proof.
  intros [Hc Hr Hp Hs Hm Hv (size & Hsz & Hl & Hb) (k & Hk & Hd)] rt. pose proof (sizeof_real d size Hr Hsz) as Hpos. split.
  - by eapply recv_dense.
  - exists size. split; [done|]. intros s. unfold check_push. rewrite Hp, Hk, Hl, Hv. srun. srun. srun.
    eapply run_bind; [reflexivity|]. cbv beta. cbn [vals_size]. rewrite u64_id by lia. unfold ensure. by rewrite Z.eqb_refl.
Qed.

(** What a push runs after the checks of the dispatcher and of the handler. *)
Definition push_body (shuffle : list nat → list nat) (type : DataHandleType) (key : Z) (meta : KVMeta) (data : KVPairs)
    (stored : NDArray) (recved : chunk) : srv unit :=
  if is_none stored then init_stored type false key recved;; init_response env type false key meta
  else
    sync ← gets sync_mode_; ensure sync "Check failed: sync_mode_";;
    if is_global_server env && (kOffset <? m_sender meta) && negb (enable_central_workers env) then mret tt
    else
      u ← prepare_updates type false key (length (ch_data recved)); aggregate false u recved;;
      put_updates key {| request := request u ++ replicate (Z.to_nat (m_num_merge meta)) meta;
                         merged := merged u; temp_array := temp_array u |};;
      if is_global_server env then finish_global env updater type key (enable_inter_ts env) meta data
      else finish_local env updater shuffle type false key meta data.

Lemma push_run DataHandleRowSparse shuffle g own σ s d key meta data v :
  implb (is_global_server env) g = true → refines_own g own σ s → push_of d key meta data v →
  DataHandleEx env updater shuffle DataHandleRowSparse meta data s =
    push_body shuffle {| requestType := Some kDefaultPushPull; dtype := d |} key meta data
      (default None (store_ s !! key)) {| ch_dtype := d; ch_data := v |} s.
Proof.
  clear Hglobal Hlen. intros Hg Ho Hpo. set (type := {| requestType := Some kDefaultPushPull; dtype := d |}).
  destruct (push_recv _ _ _ _ _ Hpo (Some kDefaultPushPull)) as [Hrecv (size & Hsz & Hchk)].
  destruct Hpo as [Hc Hr Hp Hs Hm Hv _ (k & Hk & Hdk)].
  unfold DataHandleEx. eapply run_bind; [unfold lift; rewrite Hc, depair_default by done; reflexivity|]. cbv beta.
  srun. cbn [requestType]. rewrite Hp, Hts, Hs, (ref_sync_global _ _ _ _ Ho).
  assert (is_global_server env && negb g = false) as -> by (destruct (is_global_server env), g; done). cbn [Z.eqb Pos.eqb].
  unfold DataHandleSyncDefault. eapply run_bind; [unfold lift; cbn [dtype]; by rewrite Hsz|]. cbv beta.
  eapply run_bind; [apply Hchk|]. cbv beta. srun. srun; [|rewrite (ref_sync_global _ _ _ _ Ho); by destruct (is_global_server env), g].
  unfold request_key. rewrite Hk, Hp3. srun. eapply run_bind; [reflexivity|]. cbv beta.
  eapply run_bind; [unfold lift; rewrite Hdk; reflexivity|]. cbv beta.
  unfold has_multi_precision_copy. srun. srun. srun. rewrite (ref_precision _ _ _ _ Ho). cbn [andb]. unfold slot. srun.
  eapply run_bind; [unfold lift; rewrite Hrecv; reflexivity|]. cbv beta. done.
Qed.

Lemma push_refines DataHandleRowSparse shuffle σ s d key meta data v :
  refines true σ s → push_of d key meta data v →
  (∀ st, σ !! key = Some st → d = ks_dtype st ∧ length v = length (ks_value st)) →
  ∃ s', DataHandleEx env updater shuffle DataHandleRowSparse meta data s = Ok (tt, s') ∧
    refines true (spec_push env updater σ key d meta v).1 s' ∧
    outbox s' = outbox s ++ (spec_push env updater σ key d meta v).2.
Proof.
  intros Href Hpo Hst. pose proof Href as [own Ho]. rewrite (push_run _ _ true own σ s d key meta data v ltac:(by rewrite Hglobal) Ho Hpo).
  pose proof (po_merge _ _ _ _ _ Hpo) as Hm. set (type := {| requestType := Some kDefaultPushPull; dtype := d |}).
  unfold push_body, spec_push. destruct (σ !! key) as [st|] eqn:Est.
  2:{ destruct (ref_absent _ _ _ _ Ho key Est) as (-> & _ & _). cbn [is_none]. by apply init_refines. }
  destruct (Hst st eq_refl) as [-> Hl]. pose proof (ref_keys _ _ _ _ Ho _ _ Est) as ((c & Hc1 & _) & _). rewrite Hc1.
  cbn [default from_option is_none id]. rewrite gets_bind, ensure_bind by apply Ho.
  rewrite Hglobal, Hts. cbn [andb].
  destruct ((kOffset <? m_sender meta) && negb (enable_central_workers env)); cbn [fst snd].
  { exists s. by rewrite app_nil_r. }
  destruct (prepare_refines true σ s key st type (length v) Href Est eq_refl Hl) as (m & t & s1 & Hprep & Href1 & (h1 & ub1 & Ho1) & Hu1).
  destruct (aggregate_refines true σ s1 key st m t meta v Href1 Est Hu1 Hl Hm) as (s2 & Hagg & Href2 & (h2 & ub2 & Ho2)).
  set (st2 := {| ks_dtype := ks_dtype st; ks_value := ks_value st; ks_pending := ks_pending st ++ [(meta, v)] |}) in *.
  destruct (finish_refines (<[key := st2]> σ) s2 key st2 type meta data Href2 ltac:(by rewrite lookup_insert_eq)
    ltac:(cbn; by destruct (ks_pending st))) as (s3 & Hfin & Href3 & Ho3).
  rewrite insert_insert_eq in Href3.
  destruct (close_round env updater key st2) as [st' out] eqn:Ecl. cbn [fst snd] in *.
  exists s3. split; [|split; [done|by rewrite Ho3, Ho2, Ho1]]. eapply run_bind; [exact Hprep|]. cbv beta.
  rewrite <- bind_assoc. eapply run_bind; [exact Hagg|]. cbv beta. exact Hfin.
Qed.

(** A message that pulls the value of [key] as type [d]. *)
Record pull_of (d key : Z) (meta : KVMeta) (data : KVPairs) : Prop := {
  pl_cmd : m_cmd meta = GetCommandType kDefaultPushPull d;
  pl_real : is_real_type d = true;
  pl_push : m_push meta = false;
  pl_sender : Z.rem (m_sender meta) 2 = 1;
  pl_key : ∃ k, kv_keys data = [k] ∧ decode_key env k (is_global_server env) = Ok key
}.

(** The answer to a pull. *)
Definition pull_answer (meta : KVMeta) (data : KVPairs) (d : Z) (v : list float) : action :=
  Response meta (Some {| kv_keys := kv_keys data;
                         kv_lens := [i32 (Z.of_nat (length v) * match mshadow_sizeof d with Ok n => n | Err _ => 0 end)];
                         kv_vals := Vals v |}) (m_sender meta <? kOffset).

Lemma pull_run DataHandleRowSparse shuffle s d key meta data :
  pull_of d key meta data →
  DataHandleEx env updater shuffle DataHandleRowSparse meta data s =
    (if default false (initialized_ s !! key)
     then DefaultStorageResponse env {| requestType := Some kDefaultPushPull; dtype := d |} key meta data s
     else Err (Blocked "pull of a key that is not initialized")).
Proof.
  intros [Hc Hr Hp Hs (k & Hk & Hdk)].
  unfold DataHandleEx. eapply run_bind; [unfold lift; rewrite Hc, depair_default by done; reflexivity|]. cbv beta.
  srun. cbn [requestType]. rewrite Hp. unfold DataHandlePullDefault. rewrite Hp, Hk, Hs, Hp3, Hts. srun. srun.
  set (type := {| requestType := Some kDefaultPushPull; dtype := d |}).
  assert (answer_pull env type meta data false s =
    if default false (initialized_ s !! key) then DefaultStorageResponse env type key meta data s
    else Err (Blocked "pull of a key that is not initialized")) as E.
  { unfold answer_pull, request_key. rewrite Hk. srun. eapply run_bind; [reflexivity|]. cbv beta.
    eapply run_bind; [unfold lift; rewrite Hdk; reflexivity|]. cbv beta. srun.
    by destruct (default false (initialized_ s !! key)). }
  destruct (100 <? m_sender meta); exact E.
Qed.

Lemma pull_refines DataHandleRowSparse shuffle g σ s st d key meta data :
  refines g σ s → pull_of d key meta data → σ !! key = Some st → d = ks_dtype st →
  ∃ s', DataHandleEx env updater shuffle DataHandleRowSparse meta data s = Ok (tt, s') ∧
    refines g σ s' ∧ outbox s' = outbox s ++ [pull_answer meta data d (ks_value st)].
Proof.
  intros [own Ho] Hpl Hst ->. rewrite (pull_run _ _ _ _ _ _ _ Hpl).
  pose proof (ref_keys _ _ _ _ Ho _ _ Hst) as ((c & Hc1 & Hc2 & Hc3) & Hi & _). rewrite Hi. cbn [default from_option id].
  destruct (mshadow_sizeof (ks_dtype st)) as [size|e] eqn:Esz.
  2:{ exfalso. pose proof (pl_real _ _ _ _ Hpl) as Hr. unfold is_real_type in Hr.
      apply orb_true_iff in Hr as [[H|H]%orb_true_iff|H]; apply Z.eqb_eq in H; rewrite H in Esz; discriminate Esz. }
  eexists. split.
  { unfold DefaultStorageResponse, slot. srun. rewrite Hc1. cbn [default from_option id is_none negb]. srun. unfold read_nd.
    srun. srun. eapply run_bind; [unfold lift; rewrite (deref_cell _ _ _ Hc3); reflexivity|]. cbv beta.
    eapply run_bind; [unfold lift; cbn [dtype]; rewrite Esz; reflexivity|]. cbv beta. cbn [requestType].
    eapply run_bind; [unfold lift, elements; cbn [dtype ch_dtype ch_data]; rewrite Z.eqb_refl; reflexivity|]. cbv beta.
    cbn [ch_data]. reflexivity. }
  split; [|unfold pull_answer; by rewrite Esz]. exists own. destruct Ho. split; try done.
Qed.

(** ** Traces *)
Inductive event :=
  | EPush (d key : Z) (meta : KVMeta) (data : KVPairs) (v : list float)
  | EPull (d key : Z) (meta : KVMeta) (data : KVPairs).

Definition event_msg (e : event) : KVMeta * KVPairs :=
  match e with EPush _ _ meta data _ => (meta, data) | EPull _ _ meta data => (meta, data) end.
Definition event_ok (e : event) : Prop :=
  match e with EPush d key meta data v => push_of d key meta data v | EPull d key meta data => pull_of d key meta data end.

(** The machine's step; it has none for a push whose type or size does not fit the key,
    and for a pull of a key that does not exist yet. *)
Definition spec_step (σ : Spec) (e : event) : option (Spec * list action) :=
  match e with
  | EPush d key meta _ v =>
      match σ !! key with
      | Some st => if bool_decide (d = ks_dtype st ∧ length v = length (ks_value st))
                   then Some (spec_push env updater σ key d meta v) else None
      | None => Some (spec_push env updater σ key d meta v)
      end
  | EPull d key meta data =>
      match σ !! key with
      | Some st => if bool_decide (d = ks_dtype st) then Some (σ, [pull_answer meta data d (ks_value st)]) else None
      | None => None
      end
  end.

Fixpoint spec_run (σ : Spec) (l : list event) : option (Spec * list action) :=
  match l with
  | [] => Some (σ, [])
  | e :: l => '(σ1, o1) ← spec_step σ e; '(σ2, o2) ← spec_run σ1 l; Some (σ2, o1 ++ o2)
  end.

(** The server handles the messages of a trace one after the other. *)
Definition server_run (DataHandleRowSparse : DataHandleType → KVMeta → KVPairs → srv unit)
    (shuffle : list nat → list nat) (l : list event) : srv unit :=
  for_each (fun e => let '(meta, data) := event_msg e in DataHandleEx env updater shuffle DataHandleRowSparse meta data) l.

Lemma event_refines DataHandleRowSparse shuffle σ s e σ' out :
  refines true σ s → event_ok e → spec_step σ e = Some (σ', out) →
  ∃ s', (let '(meta, data) := event_msg e in DataHandleEx env updater shuffle DataHandleRowSparse meta data) s = Ok (tt, s') ∧
    refines true σ' s' ∧ outbox s' = outbox s ++ out.
Proof.
  intros Href Hok Hstep. destruct e as [d key meta data v|d key meta data]; cbn in *.
  - assert (spec_push env updater σ key d meta v = (σ', out) ∧
      (∀ st, σ !! key = Some st → d = ks_dtype st ∧ length v = length (ks_value st))) as [E Hst].
    { destruct (σ !! key) as [st|]; [case_bool_decide as Hb; [|done]|]; injection Hstep as ->; split; naive_solver. }
    destruct (push_refines DataHandleRowSparse shuffle σ s d key meta data v Href Hok Hst) as (s' & H). rewrite E in H. eauto.
  - destruct (σ !! key) as [st|] eqn:Est; [|done]. case_bool_decide as Hd; [|done]. injection Hstep as <- <-.
    by eapply pull_refines.
Qed.

Lemma run_refines DataHandleRowSparse shuffle l : ∀ σ s σ' out,
  refines true σ s → Forall event_ok l → spec_run σ l = Some (σ', out) →
  ∃ s', server_run DataHandleRowSparse shuffle l s = Ok (tt, s') ∧ refines true σ' s' ∧ outbox s' = outbox s ++ out.
Proof.
  induction l as [|e l IH]; intros σ s σ' out Href Hok Hrun; cbn in Hrun.
  - injection Hrun as <- <-. exists s. by rewrite app_nil_r.
  - apply Forall_cons in Hok as [He Hok]. destruct (spec_step σ e) as [[σ1 o1]|] eqn:E1; [|done]. cbn in Hrun.
    destruct (spec_run σ1 l) as [[σ2 o2]|] eqn:E2; [|done]. cbn in Hrun. injection Hrun as <- <-.
    destruct (event_refines DataHandleRowSparse shuffle σ s e σ1 o1 Href He E1) as (s1 & H1 & Href1 & Ho1).
    destruct (IH σ1 s1 σ2 o2 Href1 Hok E2) as (s2 & H2 & Href2 & Ho2).
    exists s2. split; [|split; [done|by rewrite Ho2, Ho1, app_assoc]].
    unfold server_run. cbn [for_each]. eapply run_bind; [exact H1|]. exact H2.
Qed.

(** ** A round *)
Definition pushes_of (d key : Z) (l : list (KVMeta * KVPairs * list float)) : list event :=
  (fun p => EPush d key p.1.1 p.1.2 p.2) <$> l.
Definition arrived (l : list (KVMeta * KVPairs * list float)) : list (KVMeta * list float) :=
  (fun p => (p.1.1, p.2)) <$> l.
(** A push that counts once and that is not ignored. *)
Definition counted (st : KeyState) (p : KVMeta * KVPairs * list float) : Prop :=
  m_num_merge p.1.1 = 1 ∧ length p.2 = length (ks_value st) ∧
  (kOffset <? m_sender p.1.1) && negb (enable_central_workers env) = false.

Lemma requests_once l : Forall (fun p => m_num_merge p.1.1 = 1) l → requests (arrived l) = (fun p => p.1.1) <$> l.
Proof.
  induction 1 as [|p l H _ IH]; [done|]. cbn in *. rewrite H. cbn. f_equal. exact IH.
Qed.
Lemma requests_counted st l : Forall (counted st) l → requests (arrived l) = (fun p => p.1.1) <$> l.
Proof. intros H. apply requests_once. eapply Forall_impl; [exact H|]. intros p Hp. apply Hp. Qed.

Lemma spec_run_app l1 l2 : ∀ σ,
  spec_run σ (l1 ++ l2) = '(σ1, o1) ← spec_run σ l1; '(σ2, o2) ← spec_run σ1 l2; Some (σ2, o1 ++ o2).
Proof.
  induction l1 as [|e l1 IH]; intros σ; cbn.
  - destruct (spec_run σ l2) as [[σ2 o2]|]; done.
  - destruct (spec_step σ e) as [[σ1 o1]|]; [|done]. cbn. rewrite IH.
    destruct (spec_run σ1 l1) as [[σ2 o2]|]; [|done]. cbn.
    destruct (spec_run σ2 l2) as [[σ3 o3]|]; [|done]. cbn. by rewrite app_assoc.
Qed.

(** A push while the round is open. *)
Lemma spec_push_open σ key st l p :
  σ !! key = Some st → ks_pending st = [] → Forall (counted st) l → counted st p →
  let st_of l := {| ks_dtype := ks_dtype st; ks_value := ks_value st; ks_pending := arrived l |} in
  spec_step (<[key := st_of l]> σ) (EPush (ks_dtype st) key p.1.1 p.1.2 p.2) =
    let '(st', out) := close_round env updater key (st_of (l ++ [p])) in Some (<[key := st']> σ, out).
Proof.
  intros Hst Hpd Hl (H1 & H2 & H3) st_of. unfold spec_step. rewrite lookup_insert_eq.
  rewrite bool_decide_eq_true_2 by done. unfold spec_push. rewrite lookup_insert_eq, H3.
  cbn [ks_dtype ks_value ks_pending st_of].
  replace (arrived l ++ [(p.1.1, p.2)]) with (arrived (l ++ [p])) by (unfold arrived; by rewrite fmap_app).
  fold (st_of (l ++ [p])). destruct (close_round env updater key (st_of (l ++ [p]))) as [st' out].
  by rewrite insert_insert_eq.
Qed.

Lemma spec_run_open σ key st l :
  σ !! key = Some st → ks_pending st = [] → Forall (counted st) l → Z.of_nat (length l) < global_round env →
  spec_run σ (pushes_of (ks_dtype st) key l) =
    Some (<[key := {| ks_dtype := ks_dtype st; ks_value := ks_value st; ks_pending := arrived l |}]> σ, []).
Proof.
  intros Hst Hpd. induction l as [|p l IH] using rev_ind; intros Hl Hlt.
  - cbn. rewrite insert_id; [done|]. rewrite Hst. by destruct st; cbn in *; subst.
  - apply Forall_app in Hl as [Hl Hp]. rewrite Forall_singleton in Hp. rewrite length_app in Hlt. cbn [length] in Hlt.
    unfold pushes_of. rewrite fmap_app, spec_run_app. unfold pushes_of in IH. rewrite IH by (done || lia). cbn [mbind option_bind].
    cbn [spec_run fmap list_fmap]. rewrite (spec_push_open σ key st l p) by done. unfold close_round. cbn [ks_pending ks_dtype ks_value].
    rewrite (requests_counted st) by (apply Forall_app; split; [done|by constructor]). rewrite length_fmap, length_app. cbn [length].
    rewrite (proj2 (Z.eqb_neq _ _)) by lia. done.
Qed.

Lemma spec_run_round σ key st l :
  σ !! key = Some st → ks_pending st = [] → Forall (counted st) l → l ≠ [] → Z.of_nat (length l) = global_round env →
  spec_run σ (pushes_of (ks_dtype st) key l) =
    Some (<[key := {| ks_dtype := ks_dtype st; ks_value := updated updater key st (total (ks_dtype st) l.*2); ks_pending := [] |}]> σ,
          (fun p => Response p.1.1 None (m_sender p.1.1 <? kOffset)) <$> l).
Proof.
  intros Hst Hpd Hl Hne Hlen'. destruct l as [|p l _] using rev_ind; [done|].
  apply Forall_app in Hl as [Hl Hp]. rewrite Forall_singleton in Hp. rewrite length_app in Hlen'. cbn [length] in Hlen'.
  unfold pushes_of. rewrite fmap_app, spec_run_app. fold (pushes_of (ks_dtype st) key l).
  rewrite (spec_run_open σ key st l) by (done || lia). cbn [mbind option_bind spec_run fmap list_fmap].
  rewrite (spec_push_open σ key st l p) by done. unfold close_round. cbn [ks_pending ks_dtype ks_value].
  rewrite (requests_counted st) by (apply Forall_app; split; [done|by constructor]). rewrite length_fmap, length_app. cbn [length].
  rewrite (proj2 (Z.eqb_eq _ _)) by lia. cbn [mbind option_bind app].
  rewrite app_nil_r, <- list_fmap_compose. unfold arrived. rewrite <- list_fmap_compose.
  done.
Qed.
End Refinement.

(** ** Properties *)

(** The server after [kSyncMode] and [kSyncGlobalMode]. *)
Definition sync_server : Server := set_sync_global_mode true (set_sync_mode true Server_init).

Lemma refines_init : refines true ∅ sync_server.
Proof.
  exists ∅. split; [|done..| |done|done].
  - intros c [x Hx]. done.
  - intros c [x Hx]. done.
Qed.

(** What the optimizer has to respect: it does not change the size of a value. *)
Definition keeps_size (updater : option (Z → chunk → chunk → list float)) : Prop :=
  ∀ f k a b, updater = Some f → length (ch_data a) = length (ch_data b) → length (f k a b) = length (ch_data b).

(** C1: a synchronous global server implements the abstract machine.  For every trace of
    pushes and pulls, in any interleaving over any number of keys, that the machine can
    run from the state it has, the handlers run without failing, end in a state that
    refines the machine's, and send exactly the machine's answers in its order; the
    server as it is configured at start refines the empty machine. *)
Theorem sync_server_refines env updater shuffle DataHandleRowSparse (σ : Spec) (s : Server) (l : list event) σ' out :
  is_global_server env = true → enable_p3 env = false → enable_inter_ts env = false → keeps_size updater →
  refines true σ s → Forall (event_ok env) l → spec_run env updater σ l = Some (σ', out) →
  refines true ∅ sync_server ∧
  ∃ s', server_run env updater DataHandleRowSparse shuffle l s = Ok (tt, s') ∧ refines true σ' s' ∧ outbox s' = outbox s ++ out.
Proof. intros. split; [apply refines_init|]. by eapply run_refines. Qed.

(** A round of a synchronous global server.  When as many pushes of a key have come
    in as there are local servers (and central workers, if they take part), its value is
    the optimizer's result on the sum of exactly these pushes, and each of them is
    acknowledged exactly once, in order of arrival; before the last one nothing is sent
    and the value is the old one. *)
Theorem sync_round env updater shuffle DataHandleRowSparse (σ : Spec) (s : Server) key st
    (l : list (KVMeta * KVPairs * list float)) :
  is_global_server env = true → enable_p3 env = false → enable_inter_ts env = false → keeps_size updater →
  refines true σ s → σ !! key = Some st → ks_pending st = [] →
  Forall (event_ok env) (pushes_of (ks_dtype st) key l) → Forall (counted env st) l → l ≠ [] →
  Z.of_nat (length l) = global_round env →
  (∃ s', server_run env updater DataHandleRowSparse shuffle (pushes_of (ks_dtype st) key l) s = Ok (tt, s') ∧
     refines true (<[key := {| ks_dtype := ks_dtype st; ks_value := updated updater key st (total (ks_dtype st) l.*2);
                          ks_pending := [] |}]> σ) s' ∧
     outbox s' = outbox s ++ ((fun p => Response p.1.1 None (m_sender p.1.1 <? kOffset)) <$> l)) ∧
  (∀ l1 p l2, l = l1 ++ p :: l2 →
     ∃ s', server_run env updater DataHandleRowSparse shuffle (pushes_of (ks_dtype st) key l1) s = Ok (tt, s') ∧
       refines true (<[key := {| ks_dtype := ks_dtype st; ks_value := ks_value st; ks_pending := arrived l1 |}]> σ) s' ∧
       outbox s' = outbox s).
Proof.
  intros Hg Hp Ht Hk Href Hst Hpd Hok Hc Hne Hlen. split.
  - eapply run_refines; try done. by apply spec_run_round.
  - intros l1 p l2 ->. apply Forall_app in Hc as [Hc _]. unfold pushes_of in Hok. rewrite fmap_app in Hok.
    apply Forall_app in Hok as [Hok _]. rewrite length_app in Hlen. cbn [length] in Hlen.
    destruct (run_refines env updater Hg Hp Ht Hk DataHandleRowSparse shuffle (pushes_of (ks_dtype st) key l1) σ s
      _ _ Href Hok (spec_run_open env updater σ key st l1 Hst Hpd Hc ltac:(lia))) as (s' & H1 & H2 & H3).
    exists s'. by rewrite app_nil_r in H3.
Qed.

(** A global server with two local servers, its first key pushed by the master worker. *)
Definition w_env : Env := {|
  is_global_server := true; enable_central_workers := false; num_workers := 1; num_servers := 1;
  num_global_workers := 2; num_global_servers := 1; my_rank := 0; my_global_rank := 0; my_global_id := 8;
  bigarray_bound_ := 1000000; size_lower_bound := 200000; use_hfa := false; period_k2 := 1;
  enable_p3 := false; enable_intra_ts := false; enable_inter_ts := false |}.
Definition w_meta (push : bool) (sender ts : Z) : KVMeta := {|
  m_cmd := 0; m_push := push; m_sender := sender; m_timestamp := ts; m_customer_id := 0; m_key := 7;
  m_version := 0; m_num_merge := 1; m_app_id := 1 |}.
Definition w_data (v : list float) : KVPairs := {|
  kv_keys := [7]; kv_lens := [4 * Z.of_nat (length v)]; kv_vals := Vals v |}.
(** The optimizer [weight + grad]. *)
Definition w_updater : option (Z → chunk → chunk → list float) :=
  Some (fun _ g w => zip_with f32_add (ch_data w) (take (length (ch_data w)) (ch_data g ++ ch_data w))).
Definition no_row_sparse (t : DataHandleType) (m : KVMeta) (d : KVPairs) : srv unit := mret tt.

Lemma w_updater_keeps_size : keeps_size w_updater.
Proof.
  intros f k a b [= <-] H. rewrite length_zip_with, length_take, length_app. lia.
Qed.

Definition w_values (l : list Z) : list float := f32_of_Z <$> l.
Definition w_trace : list event :=
  [EPush 0 7 (w_meta true 101 1) (w_data (w_values [10; 20])) (w_values [10; 20]);
   EPush 0 7 (w_meta true 9 2) (w_data (w_values [1; 2])) (w_values [1; 2]);
   EPush 0 7 (w_meta true 11 3) (w_data (w_values [3; 4])) (w_values [3; 4]);
   EPull 0 7 (w_meta false 9 4) (w_data [])].

Lemma w_event_ok : Forall (event_ok w_env) w_trace.
Proof.
  assert (decode_key w_env 7 true = Ok 7) as Hk by (vm_compute; done).
  repeat constructor; cbn; try done; first [exists 4; split; [done|]; split; [done|lia] | by exists 7].
Qed.

Lemma sync_server_refines_witness :
  ∃ s', server_run w_env w_updater no_row_sparse (fun l => l) w_trace sync_server = Ok (tt, s') ∧
    outbox s' = [Response (w_meta true 101 1) None false; Response (w_meta true 9 2) None true;
                 Response (w_meta true 11 3) None true;
                 pull_answer (w_meta false 9 4) (w_data []) 0 (w_values [14; 26])].
Proof.
  destruct (spec_run w_env w_updater ∅ w_trace) as [[σ' out]|] eqn:E; [|vm_compute in E; discriminate E].
  destruct (sync_server_refines w_env w_updater (fun l => l) no_row_sparse ∅ sync_server w_trace σ' out) as (_ & s' & H1 & _ & H2);
    [done|done|done|apply w_updater_keeps_size|apply refines_init|apply w_event_ok|done|].
  exists s'. split; [exact H1|]. rewrite H2. vm_compute in E. injection E as _ <-. vm_compute. reflexivity.
Defined.

Lemma sync_round_witness :
  ∃ s s', outbox s = [Response (w_meta true 101 1) None false] ∧
    server_run w_env w_updater no_row_sparse (fun l => l) (take 2 (drop 1 w_trace)) s = Ok (tt, s') ∧
    outbox s' = outbox s ++ [Response (w_meta true 9 2) None true; Response (w_meta true 11 3) None true].
Proof.
  pose proof w_event_ok as Hok.
  destruct (spec_run w_env w_updater ∅ (take 1 w_trace)) as [[σ out]|] eqn:E; [|vm_compute in E; discriminate E].
  destruct (run_refines w_env w_updater eq_refl eq_refl eq_refl w_updater_keeps_size no_row_sparse (fun l => l) (take 1 w_trace)
    ∅ sync_server σ out refines_init ltac:(by apply Forall_take) E) as (s & _ & Href & Ho).
  vm_compute in E. injection E as <- <-.
  destruct (sync_round w_env w_updater (fun l => l) no_row_sparse _ s 7
    {| ks_dtype := 0; ks_value := w_values [10; 20]; ks_pending := [] |}
    [(w_meta true 9 2, w_data (w_values [1; 2]), w_values [1; 2]); (w_meta true 11 3, w_data (w_values [3; 4]), w_values [3; 4])]
    eq_refl eq_refl eq_refl w_updater_keeps_size Href) as [(s' & H1 & _ & H3) _]; [done|done| |by repeat constructor|done|done|].
  - exact (Forall_take _ 2 _ (Forall_drop _ 1 _ Hok)).
  - exists s, s'. split; [exact Ho|]. split; [exact H1|]. exact H3.
Defined.
