(* ===== verification/LocalServer.v ===== *)
(** * A local server between its workers and the global servers

    One round of a key on the server of a data center: the workers' pushes are added up,
    the sum goes to the global server that owns the key, its acknowledgement triggers a
    pull, and the pulled value is stored and the workers released.
    Source: src/src/kvstore/kvstore_dist_server.h. *)

From Stdlib Require Import SpecFloat Sorted.
From S2P Require Import Prelude StdAlgo Floats Command Text Postoffice Customer TwoBit GradientCompression KeyEncoding KVApp NDArray ServerState DistServer ServerSpec.
Local Open Scope Z_scope.

(** ** One owner among the servers *)
Lemma for_each_app {S A} (m : A → st S unit) l1 l2 s :
  for_each m (l1 ++ l2) s = (for_each m l1;; for_each m l2) s.
Proof.
  revert s. induction l1 as [|x l1 IH]; intros s; [done|]. cbn [app for_each]. rewrite bind_assoc.
  unfold mbind, st_bind. destruct (m x s) as [[[] s']|e]; [|done]. apply IH.
Qed.

(** A request whose keys all belong to server [r]. *)
Section Owner.
Context {A : Type} (f : nat → bool * A) (r n : nat).
Hypothesis Hf : ∀ i, (i < n)%nat → (f i).1 = bool_decide (i = r).
Hypothesis Hr : (r < n)%nat.

Lemma owner_split : seq 0 n = seq 0 r ++ r :: seq (S r) (n - S r).
Proof. replace n with (r + S (n - S r))%nat at 1 by lia. by rewrite seq_app. Qed.

Lemma skipped_owner : skipped (f <$> seq 0 n) = (n - 1)%nat.
Proof.
  unfold skipped. rewrite owner_split, fmap_app, List.filter_app, length_app. cbn [fmap list_fmap List.filter].
  rewrite Hf, bool_decide_eq_true_2 by done. cbn [negb].
  assert (∀ l : list nat, Forall (fun i => (i < n)%nat ∧ i ≠ r) l →
    List.filter (fun s : bool * A => negb s.1) (f <$> l) = f <$> l) as Hall.
  { induction 1 as [|i l [Hi Hne] _ IH]; [done|]. cbn. rewrite Hf, bool_decide_eq_false_2 by done. cbn. by f_equal. }
  rewrite !Hall; [rewrite !length_fmap, !length_seq; lia|..]; apply Forall_forall; intros i Hi; apply elem_of_seq in Hi; lia.
Qed.

Lemma for_each_skip (a : nat → A → action) l : ∀ s g, Forall (fun i => (i < n)%nat ∧ i ≠ r) l →
  for_each (fun '(i, (nonempty, kv)) => when nonempty (send (a i kv))) (imap (fun i => pair (g i)) (f <$> l)) s = Ok (tt, s).
Proof.
  induction l as [|i l IH]; intros s g H; [done|]. apply Forall_cons in H as [[Hi Hne] H].
  cbn [fmap list_fmap imap for_each]. pose proof (Hf i Hi) as E. destruct (f i) as [b kv]. cbn [fst] in E. subst b.
  rewrite bool_decide_eq_false_2 by done. eapply run_bind; [reflexivity|]. cbv beta. by apply (IH s (fun i => g (S i))).
Qed.

Lemma for_each_owner (a : nat → A → action) s :
  for_each (fun '(i, (nonempty, kv)) => when nonempty (send (a i kv))) (imap pair (f <$> seq 0 n)) s =
    Ok (tt, set_outbox (outbox s ++ [a r (f r).2]) s).
Proof.
  rewrite owner_split, fmap_app, imap_app, for_each_app. eapply run_bind.
  { apply (for_each_skip a (seq 0 r) s (fun i => i)). apply Forall_forall. intros i Hi%elem_of_seq. lia. }
  cbv beta. rewrite length_fmap, length_seq. cbn [fmap list_fmap imap for_each].
  pose proof (Hf r Hr) as E. destruct (f r) as [b kv]. cbn [fst snd] in *. subst b. rewrite bool_decide_eq_true_2 by done.
  cbn [compose]. rewrite Nat.add_0_r. eapply run_bind; [reflexivity|]. cbv beta.
  apply (for_each_skip a (seq (S r) (n - S r)) _ (fun i => (r + S i)%nat)).
  apply Forall_forall. intros i Hi%elem_of_seq. lia.
Qed.
End Owner.

Section Local.
Context (env : Env) (updater : option (Z → chunk → chunk → list float)) (shuffle : list nat → list nat).
Context (key d : Z) (size : Z).
Hypothesis Hlocal : is_global_server env = false.
Hypothesis Hp3 : enable_p3 env = false.
Hypothesis Hintra : enable_intra_ts env = false.
Hypothesis Hinter : enable_inter_ts env = false.
Hypothesis Hservers : 0 < num_global_servers env < 2 ^ 20.
Hypothesis Hkey : 0 ≤ key ∧ key * 9973 < 2 ^ 31.
Hypothesis Hreal : is_real_type d = true.
Hypothesis Hsize : mshadow_sizeof d = Ok size.

Local Abbreviation k := (num_global_servers env).

(** The global server that owns [key], and the key it is known by there. *)
Definition owner : Z := (key * 9973) mod k.
Definition global_key : Z := width k * owner + key.
Definition owner_id : Z := ServerRankToID owner true.

Lemma owner_range : 0 ≤ owner < k.
Proof. apply Z.mod_pos_bound. lia. Qed.

Lemma size_pos : 0 < size.
Proof. by apply (sizeof_real d). Qed.

Lemma single_kpos i : kpos k [global_key] i = if (Z.to_nat owner <? i)%nat then 1%nat else 0%nat.
Proof.
  unfold kpos. cbn [lower_bound]. pose proof (width_large k Hservers). pose proof owner_range. unfold global_key in *.
  destruct (Z.ltb_spec (width k * owner + key) (width k * Z.of_nat i)), (Nat.ltb_spec (Z.to_nat owner) i); try done; exfalso; nia.
Qed.

Lemma single_range : Forall (fun x => 0 ≤ x < width k * k) [global_key].
Proof.
  constructor; [|constructor]. pose proof (width_large k Hservers). pose proof owner_range. unfold global_key. nia.
Qed.

Lemma single_flag i : negb (kpos k [global_key] (S i) =? kpos k [global_key] i)%nat = bool_decide (i = Z.to_nat owner).
Proof.
  rewrite !single_kpos. destruct (Nat.ltb_spec (Z.to_nat owner) (S i)), (Nat.ltb_spec (Z.to_nat owner) i); cbn;
    case_bool_decide; try done; lia.
Qed.

Lemma seg_owner {A} (l : list A) : seg l (kpos k [global_key]) (Z.to_nat owner) = take 1 l.
Proof. unfold seg. rewrite !single_kpos, Nat.ltb_irrefl, (proj2 (Nat.ltb_lt _ _)) by lia. done. Qed.

(** ** Sending a small tensor *)
Definition dense_msg (w : list float) : KVPairs :=
  {| kv_keys := [global_key]; kv_lens := [Z.of_nat (length w) * size]; kv_vals := Vals w |}.

Lemma slice_dense w : (0 < length w)%nat → Z.of_nat (length w) * size < 2 ^ 31 →
  ∃ f, slice_message k size (dense_msg w) = Ok (f <$> seq 0 (Z.to_nat k)) ∧
    (∀ i, (f i).1 = bool_decide (i = Z.to_nat owner)) ∧ (f (Z.to_nat owner)).2 = dense_msg w.
Proof.
  intros Hw Hb. pose proof size_pos as Hs.
  set (send := Build_KVs float [global_key] w [Z.of_nat (length w)]).
  exists (fun i => of_slice Vals size (slice_of k send i)). split_and!.
  - unfold slice_message, slice_values, dense_msg. cbn [kv_vals kv_lens kv_keys map forallb].
    rewrite Z.rem_mul, Z.quot_mul by lia. cbn [andb Z.eqb]. fold send. rewrite (DefaultSlicer_spec k send).
    + rstep. f_equal. unfold fmap. by rewrite <- list_fmap_compose.
    + done.
    + cbn. repeat constructor.
    + apply single_range.
    + done.
    + done.
    + cbn. repeat constructor. lia.
    + cbn. lia.
    + cbn. nia.
  - intros i. cbn [fst of_slice slice_of]. apply single_flag.
  - cbn [snd of_slice slice_of keys lens vals]. unfold slice_of. cbn [snd keys lens vals send].
    rewrite !seg_owner. cbn [take map]. unfold seg, vpos. cbn [keys lens vals send].
    rewrite !single_kpos, Nat.ltb_irrefl, (proj2 (Nat.ltb_lt _ _)) by lia. cbn [take zsum foldr].
    rewrite Z.add_0_r, Nat2Z.id, Nat.sub_0_r, drop_0, take_ge by lia. done.
Qed.

Lemma tracker_run s n skip : 0 ≤ skip < 2 ^ 31 →
  AddResponse (tracker_ s ++ [(n, 0)]) (Z.of_nat (length (tracker_ s))) skip = Ok (tracker_ s ++ [(n, skip)]).
Proof. intros H. by rewrite AddResponse_last by lia. Qed.

Lemma server_push_run s w cmd uniq : (0 < length w)%nat → Z.of_nat (length w) * size < 2 ^ 31 →
  let ts := Z.of_nat (length (tracker_ s)) in
  server_push env (dense_msg w) cmd size uniq s =
    Ok (ts, set_outbox (outbox s ++ [PushGlobal ts owner_id (dense_msg w) cmd uniq])
              (set_tracker (tracker_ s ++ [(k, k - 1)]) s)).
Proof.
  intros Hw Hb ts. destruct (slice_dense w Hw Hb) as (f & Hslice & Hf & Hown). pose proof owner_range as Hr.
  unfold server_push, NewRequest. srun. srun. rewrite Hinter. cbn [andb]. fold ts.
  eapply run_bind; [|reflexivity]. unfold server_send.
  eapply run_bind; [unfold lift; rewrite Hslice; reflexivity|]. cbv beta. srun.
  rewrite (skipped_owner f (Z.to_nat owner)) by (intros; first [apply Hf|lia]).
  eapply run_bind; [unfold lift; unfold ts; rewrite (tracker_run s k) by lia; reflexivity|]. cbv beta. srun.
  rewrite (for_each_owner f (Z.to_nat owner) (Z.to_nat k)) by (intros; first [apply Hf|lia]). sproj.
  rewrite Hown, Z2Nat.id by lia. replace (Z.of_nat (Z.to_nat k - 1)) with (k - 1) by lia. reflexivity.
Qed.

Definition small_pskv (n : Z) : PSKV :=
  {| pskv_keys := [global_key]; pskv_lens := [n * size]; pskv_size := n * size |}.

Lemma pskv_default_run s n : 0 < n < bigarray_bound_ env → n * size < 2 ^ 31 →
  (ps_kv_ s !! key = None ∨ ps_kv_ s !! key = Some (small_pskv n)) →
  pskv_default env key n size s = Ok (small_pskv n, set_ps_kv (<[key := small_pskv n]> (ps_kv_ s)) s).
Proof.
  intros Hn Hb Hc. pose proof size_pos as Hs. pose proof owner_range as Hr. pose proof (width_large k Hservers).
  unfold pskv_default. srun. eapply (run_bind _ _ _ (<[key := small_pskv n]> (ps_kv_ s), small_pskv n) s); [|reflexivity]. unfold lift.
  assert (EncodeDefaultKey_global (bigarray_bound_ env) k (ps_kv_ s) key n size =
    Ok (<[key := small_pskv n]> (ps_kv_ s), small_pskv n)) as ->; [|done].
  unfold EncodeDefaultKey_global, encode_default.
  assert (fresh_default (bigarray_bound_ env) (GetServerKeyRanges k) key n size = Ok (small_pskv n)) as Hfr.
  { unfold fresh_default. rewrite krs_length by done. chk. rewrite (proj2 (Z.ltb_lt _ _)) by lia.
    destruct (pick_server_ok k Hservers key) as [-> _]; [lia..|]. rstep. fold owner.
    rewrite (rdz_ok _ _ _ (proj1 Hr) (krs_lookup k owner Hr)). rstep. rewrite checked_key_ok by lia. rstep.
    by rewrite bytes_ok by lia. }
  destruct Hc as [-> | ->]; cbn [default from_option id pskv_keys PSKV_empty small_pskv].
  - rewrite bool_decide_eq_false_2 by (intros H'; by apply H'). rewrite Hfr. rstep. cbn [pskv_size small_pskv].
    rewrite check_bind_ok by (apply Z.eqb_refl). done.
  - rewrite bool_decide_eq_true_2 by done. rstep. rewrite check_bind_ok by (apply Z.eqb_refl). done.
Qed.

(** The stored value, not compressed, to its owner. *)
Lemma push_default_run s c w rt :
  is_type (gradient_compression_ s) kNone = true → multi_precision_ s = false →
  store_ s !! key = Some (Some c) → cells (heap_ s) !! c = Some {| ch_dtype := d; ch_data := w |} →
  0 < Z.of_nat (length w) < bigarray_bound_ env → Z.of_nat (length w) * size < 2 ^ 31 →
  (ps_kv_ s !! key = None ∨ ps_kv_ s !! key = Some (small_pskv (Z.of_nat (length w)))) →
  let ts := Z.of_nat (length (tracker_ s)) in
  DataPushToGlobalServersDefault env {| requestType := rt; dtype := d |} key s =
    Ok (ts, set_outbox (outbox s ++ [PushGlobal ts owner_id (dense_msg w) (GetCommandType kDefaultPushPull d) key])
              (set_tracker (tracker_ s ++ [(k, k - 1)])
                 (set_ps_kv (<[key := small_pskv (Z.of_nat (length w))]> (ps_kv_ s)) s))).
Proof.
  intros Hgc Hmp Hs Hc Hw Hb Hps ts. unfold DataPushToGlobalServersDefault, has_multi_precision_copy, slot. rewrite Hlocal.
  srun. srun. srun; [|done]. srun. srun. srun. rewrite Hmp. cbn [andb]. srun. rewrite Hs. cbn [default from_option id is_none negb].
  srun. unfold push_dense, read_nd. srun. srun. eapply run_bind; [unfold lift; rewrite (deref_cell _ _ _ Hc); reflexivity|]. cbv beta.
  eapply run_bind; [unfold lift; cbn [dtype]; rewrite Hsize; reflexivity|]. cbv beta. cbn [ch_data].
  eapply run_bind; [apply pskv_default_run; done|]. cbv beta.
  eapply run_bind; [unfold lift, elements; cbn [dtype ch_dtype]; rewrite Z.eqb_refl; reflexivity|]. cbv beta.
  set (s1 := set_ps_kv _ _).
  change (server_push env (dense_msg w) (GetCommandType kDefaultPushPull d) size key s1 =
    Ok (ts, set_outbox (outbox s1 ++ [PushGlobal ts owner_id (dense_msg w) (GetCommandType kDefaultPushPull d) key])
              (set_tracker (tracker_ s1 ++ [(k, k - 1)]) s1))).
  by rewrite (server_push_run s1 w) by lia.
Qed.

(** ** The workers' pushes *)
Lemma only_updates_trans s1 s2 s3 : only_updates s1 s2 → only_updates s2 s3 → only_updates s1 s3.
Proof. intros (h1 & u1 & ->) (h2 & u2 & ->). by exists h2, u2. Qed.

Local Abbreviation type := {| requestType := Some kDefaultPushPull; dtype := d |}.

(** Until the round is complete a push only joins the aggregate; [finish_local] then
    decides. *)
Lemma local_push DataHandleRowSparse σ s st meta data v :
  refines false σ s → σ !! key = Some st → ks_dtype st = d → push_of env d key meta data v →
  length v = length (ks_value st) →
  let st' := {| ks_dtype := d; ks_value := ks_value st; ks_pending := ks_pending st ++ [(meta, v)] |} in
  ∃ s', DataHandleEx env updater shuffle DataHandleRowSparse meta data s = finish_local env updater shuffle type false key meta data s' ∧
    refines false (<[key := st']> σ) s' ∧ only_updates s s'.
Proof.
  intros Href Hst Hd Hpo Hl st'. pose proof Href as [own Ho].
  rewrite (push_run env updater Hp3 Hinter _ _ false own σ s d key meta data v ltac:(by rewrite Hlocal) Ho Hpo).
  pose proof (ref_keys _ _ _ _ Ho _ _ Hst) as ((c & Hc1 & _) & _).
  destruct (prepare_refines false σ s key st type (length v) Href Hst ltac:(done) Hl) as (m & t & s1 & Hprep & Href1 & Hs1 & Hu1).
  destruct (aggregate_refines false σ s1 key st m t meta v Href1 Hst Hu1 Hl (po_merge _ _ _ _ _ _ Hpo)) as (s2 & Hagg & Href2 & Hs2).
  exists s2. split; [|split; [by rewrite Hd in Href2|by eapply only_updates_trans]].
  unfold push_body. rewrite Hc1. cbn [default from_option is_none id]. rewrite gets_bind, ensure_bind by apply Ho.
  rewrite Hlocal. cbn [andb]. eapply run_bind; [exact Hprep|]. cbv beta. rewrite <- bind_assoc.
  rewrite Hd in Hagg. eapply run_bind; [exact Hagg|]. done.
Qed.

(** The cells of a key of the relation. *)
Lemma key_cells own σ s st :
  refines_own false own σ s → σ !! key = Some st → ks_pending st ≠ [] →
  ∃ c m t, store_ s !! key = Some (Some c) ∧ own !! c = Some (key, false) ∧
    cells (heap_ s) !! c = Some {| ch_dtype := ks_dtype st; ch_data := ks_value st |} ∧
    default UpdateBuf_empty (update_buf_ s !! key) = {| request := requests (ks_pending st); merged := Some m; temp_array := t |} ∧
    own !! m = Some (key, true) ∧
    cells (heap_ s) !! m = Some {| ch_dtype := ks_dtype st; ch_data := total (ks_dtype st) (ks_pending st).*2 |} ∧
    length (total (ks_dtype st) (ks_pending st).*2) = length (ks_value st).
Proof.
  intros Ho Hst Hne. destruct (ref_keys _ _ _ _ Ho _ _ Hst) as ((c & Hc1 & Hc2 & Hc3) & Hi & Hreq & Hall & Hm).
  destruct (default UpdateBuf_empty (update_buf_ s !! key)) as [rq mg ta] eqn:Eu. cbn [request merged] in *. subst rq.
  destruct mg as [m|]; [|done]. destruct Hm as (Hom & data & Hdm & Hl & Hdata). rewrite Hdata in Hdm, Hl by done.
  exists c, m, ta. split_and!; done.
Qed.

(** On a local server the aggregate replaces the value. *)
Lemma ApplyUpdates_local own σ s st c m meta data :
  refines_own false own σ s → σ !! key = Some st → ks_dtype st = d →
  store_ s !! key = Some (Some c) → own !! c = Some (key, false) →
  cells (heap_ s) !! c = Some {| ch_dtype := d; ch_data := ks_value st |} →
  merged (default UpdateBuf_empty (update_buf_ s !! key)) = Some m → own !! m = Some (key, true) →
  cells (heap_ s) !! m = Some {| ch_dtype := d; ch_data := total d (ks_pending st).*2 |} →
  length (total d (ks_pending st).*2) = length (ks_value st) →
  ApplyUpdates env updater type key true false meta data s =
    Ok (tt, set_heap (put (heap_ s) c {| ch_dtype := d; ch_data := cast_to d <$> total d (ks_pending st).*2 |}) s).
Proof.
  intros Ho Hst Hd Hs Hoc Hc Hm Hom Hcm Hl. unfold ApplyUpdates, has_multi_precision_copy, slot, get_updates.
  srun. srun. srun. rewrite (ref_precision _ _ _ _ Ho). cbn [andb]. srun. rewrite Hs.
  change (default None (Some (Some c))) with (Some c). srun. rewrite Hm. set (h' := put _ _ _).
  assert ((ensure true "Check failed: sync_mode";; copy (Some m) (Some c)) s = Ok (tt, set_heap h' s)) as Hcopy.
  { srun. apply on_heap_Ok. rewrite (CopyFromTo_put _ _ _ Hc _ _ Hcm); [done|congruence|done]. }
  eapply (run_bind _ _ _ tt (set_heap h' s)); [|done]. by destruct updater; rewrite ?Hlocal.
Qed.

(** What has been sent when the last worker has pushed: the sum [w], to its owner. *)
Record sent (s s' : Server) (w : list float) (reqs : list KVMeta) : Prop := {
  sent_outbox : outbox s' = outbox s ++ [PushGlobal (Z.of_nat (length (tracker_ s))) owner_id (dense_msg w)
                                           (GetCommandType kDefaultPushPull d) key];
  sent_tracker : tracker_ s' = tracker_ s ++ [(k, k - 1)];
  sent_keys : ts_key_map_ s' = <[Z.of_nat (length (tracker_ s)) := key]> (ts_key_map_ s);
  sent_waiting : request (default UpdateBuf_empty (update_buf_tmp_ s' !! key)) = reqs;
  sent_encoding : ps_kv_ s' = <[key := small_pskv (Z.of_nat (length w))]> (ps_kv_ s);
  sent_gc : gradient_compression_ s' = gradient_compression_ s;
  sent_recv : recv_kvs_ s' = recv_kvs_ s
}.

Lemma finish_local_sends σ s st meta data :
  use_hfa env = false → period_k2 env ≠ 0 →
  refines false σ s → σ !! key = Some st → ks_dtype st = d → ks_pending st ≠ [] →
  Z.of_nat (length (requests (ks_pending st))) = num_workers env →
  is_type (gradient_compression_ s) kNone = true →
  0 < Z.of_nat (length (ks_value st)) < bigarray_bound_ env → Z.of_nat (length (ks_value st)) * size < 2 ^ 31 →
  (ps_kv_ s !! key = None ∨ ps_kv_ s !! key = Some (small_pskv (Z.of_nat (length (ks_value st))))) →
  let w := cast_to d <$> total d (ks_pending st).*2 in
  ∃ s', finish_local env updater shuffle type false key meta data s = Ok (tt, s') ∧
    refines false (<[key := {| ks_dtype := d; ks_value := w; ks_pending := [] |}]> σ) s' ∧
    sent s s' w (requests (ks_pending st)).
Proof.
  intros Hhfa Hk2 [own Ho] Hst Hd Hne Hcount Hgc Hn Hb Hps w.
  destruct (key_cells own σ s st Ho Hst Hne) as (c & m & t & Hs & Hoc & Hc & Hu & Hom & Hcm & Hlt). rewrite Hd in Hc, Hcm, Hlt.
  assert (length w = length (ks_value st)) as Hw by (unfold w; by rewrite length_fmap).
  set (h1 := put (heap_ s) c {| ch_dtype := d; ch_data := w |}).
  pose proof (closed_refines false own σ s key st c m t w Ho Hst Hs Hoc Hom Hw
    ltac:(exists (total d (ks_pending st).*2); rewrite Hd; done)) as Hclosed. rewrite Hd in Hclosed. fold h1 in Hclosed.
  unfold finish_local, get_updates. eexists. split; [|split].
  { srun. rewrite Hu. cbn [request]. rewrite (proj2 (Z.eqb_eq _ _) Hcount), when_true.
    eapply run_bind; [eapply (ApplyUpdates_local own σ s st c m); first [done|by rewrite Hu]|]. cbv beta. fold w. fold h1.
    eapply (run_bind _ _ _ tt (set_local_iters (if key =? 0 then u64 (local_iters s + 1) else local_iters s) (set_heap h1 s))).
    { destruct (key =? 0); [reflexivity|]. by destruct s. }
    cbv beta. srun. rewrite (proj2 (Z.eqb_neq _ _) Hk2), Hhfa, andb_false_r. cbn [when].
    eapply run_bind; [reflexivity|]. cbv beta. unfold get_updates_tmp. srun. unfold put_updates_tmp. srun.
    unfold clear_requests, get_updates. srun. srun. rewrite Hu. cbn [merged temp_array]. unfold put_updates. srun.
    rewrite Hintra. srun. unfold push_to_global. srun. rewrite Hgc.
    eapply run_bind; [apply (push_default_run _ c w); sproj; rewrite ?Hw; first [done|apply Ho|apply lookup_insert_eq]|].
    cbv beta. unfold modify. sproj. done. }
  { eapply refines_ext; [..|exact Hclosed]; sproj; done. }
  split; sproj; try done. by rewrite lookup_insert_eq.
Qed.

(** ** The acknowledgement, and the pull it triggers *)
Lemma slice_keys :
  ∃ f, slice_message k 1 {| kv_keys := [global_key]; kv_lens := []; kv_vals := Vals [] |} = Ok (f <$> seq 0 (Z.to_nat k)) ∧
    (∀ i, (f i).1 = bool_decide (i = Z.to_nat owner)) ∧ kv_keys (f (Z.to_nat owner)).2 = [global_key].
Proof.
  exists (fun i => of_slice Vals 1 (key_slice k [global_key] i)). split_and!.
  - unfold slice_message, slice_values. cbn [kv_vals kv_lens kv_keys map forallb].
    rewrite (key_slicer_spec k [global_key]); [|done|cbn; repeat constructor|apply single_range|done].
    rstep. f_equal. unfold fmap. by rewrite <- list_fmap_compose.
  - intros i. cbn [fst of_slice key_slice]. apply single_flag.
  - cbn [snd of_slice key_slice keys kv_keys]. by rewrite seg_owner.
Qed.

Lemma server_pull_run s cmd uniq :
  let ts := Z.of_nat (length (tracker_ s)) in
  server_pull env [global_key] cmd uniq s =
    Ok (tt, set_outbox (outbox s ++ [PullGlobal ts owner_id [global_key] cmd uniq])
              (set_tracker (tracker_ s ++ [(num_servers env, k - 1)]) s)).
Proof.
  intros ts. destruct slice_keys as (f & Hslice & Hf & Hown). pose proof owner_range as Hr.
  unfold server_pull, NewRequest. srun. srun. fold ts. unfold server_send.
  eapply run_bind; [unfold lift; rewrite Hslice; reflexivity|]. cbv beta. srun.
  rewrite (skipped_owner f (Z.to_nat owner)) by (intros; first [apply Hf|lia]).
  eapply run_bind; [unfold lift; unfold ts; rewrite (tracker_run s (num_servers env)) by lia; reflexivity|]. cbv beta. srun.
  rewrite (for_each_owner f (Z.to_nat owner) (Z.to_nat k)) by (intros; first [apply Hf|lia]). sproj.
  rewrite Hown, Z2Nat.id by lia. replace (Z.of_nat (Z.to_nat k - 1)) with (k - 1) by lia. reflexivity.
Qed.

(** A message of the owner: the acknowledgement of a push. *)
Record ack_of (ts : Z) (meta : KVMeta) : Prop := {
  ack_cmd : m_cmd meta = GetCommandType kDefaultPushPull d;
  ack_push : m_push meta = true;
  ack_sender : Z.rem (m_sender meta) 2 = 0;
  ack_ts : m_timestamp meta = ts
}.

Lemma kNone_types gc : is_type gc kNone = true → is_type gc kTwoBit = false.
Proof. unfold is_type. intros H%Z.eqb_eq. rewrite H. done. Qed.

(** When the last acknowledgement of the push is handled, the value is pulled. *)
Record pulled (s s' : Server) : Prop := {
  pulled_outbox : outbox s' = outbox s ++ [PullGlobal (Z.of_nat (length (tracker_ s))) owner_id [global_key]
                                             (GetCommandType kDefaultPushPull d) key];
  pulled_tracker : tracker_ s' = tracker_ s ++ [(num_servers env, k - 1)];
  pulled_keys : key_map_ s' = <[global_key := key]> (key_map_ s);
  pulled_waiting : update_buf_tmp_ s' = update_buf_tmp_ s;
  pulled_recv : recv_kvs_ s' = recv_kvs_ s
}.

Lemma ack_pulls DataHandleRowSparse σ s st ts meta data :
  refines false σ s → σ !! key = Some st → ks_dtype st = d →
  is_type (gradient_compression_ s) kNone = true →
  0 < Z.of_nat (length (ks_value st)) < bigarray_bound_ env → Z.of_nat (length (ks_value st)) * size < 2 ^ 31 →
  ps_kv_ s !! key = Some (small_pskv (Z.of_nat (length (ks_value st)))) →
  ack_of ts meta → NumResponse (tracker_ s) ts = Ok (k - 1) → ts_key_map_ s !! ts = Some key →
  ∃ s', DataHandleEx env updater shuffle DataHandleRowSparse meta data s = Ok (tt, s') ∧
    refines false σ s' ∧ pulled s s'.
Proof.
  intros Href Hst Hd Hgc Hn Hb Hps [Hc Hp Hsd Hts] Hnum Hmap. pose proof Href as [own Ho].
  pose proof (ref_keys _ _ _ _ Ho _ _ Hst) as ((c & Hc1 & Hc2 & Hc3) & Hi & _).
  eexists. split; [|split].
  { unfold DataHandleEx. eapply run_bind; [unfold lift; rewrite Hc, depair_default by done; reflexivity|]. cbv beta.
    srun. cbn [requestType]. rewrite Hp, Hinter, Hsd. cbn [Z.eqb]. unfold DataHandlePushResponseDefault. rewrite Hp, Hlocal, Hts.
    srun. srun. srun. eapply run_bind; [unfold lift; rewrite Hnum; reflexivity|]. cbv beta. rewrite Z.eqb_refl. cbn [negb].
    srun. srun. rewrite Hmap. change (default 0 (Some key)) with key.
    unfold DataPullFromGlobalServersDefault, has_multi_precision_copy, slot, nd_size, read_nd. rewrite Hlocal.
    srun. srun. srun. srun. srun. rewrite (ref_precision _ _ _ _ Ho), (kNone_types _ Hgc). cbn [andb orb negb requestType dtype].
    rewrite bool_decide_eq_false_2 by done. cbn [negb orb]. srun. rewrite Hc1. change (default None (Some (Some c))) with (Some c).
    srun. srun. srun. eapply run_bind; [unfold lift; rewrite (deref_cell _ _ _ Hc3); reflexivity|]. cbv beta. srun. cbn [ch_data].
    eapply run_bind; [unfold lift; rewrite Hsize; reflexivity|]. cbv beta.
    srun. eapply run_bind; [apply (pskv_default_run _ (Z.of_nat (length (ks_value st)))); sproj; [done..|by right]|]. cbv beta.
    srun. cbn [pskv_keys small_pskv for_each]. srun. srun. srun. srun. rewrite Hi, Hinter. cbn [negb orb].
    rewrite when_true. rewrite server_pull_run. sproj. reflexivity. }
  { eapply refines_ext; [..|exact Href]; sproj; done. }
  split; sproj; done.
Qed.

(** ** The pulled value *)
Record answer_of (meta : KVMeta) : Prop := {
  ans_cmd : m_cmd meta = GetCommandType kDefaultPushPull d;
  ans_push : m_push meta = false;
  ans_sender : Z.rem (m_sender meta) 2 = 0
}.

Lemma answer_releases DataHandleRowSparse σ s st meta v :
  use_hfa env = false → refines false σ s → σ !! key = Some st → ks_dtype st = d →
  0 < Z.of_nat (length (ks_value st)) < bigarray_bound_ env → Z.of_nat (length (ks_value st)) * size < 2 ^ 31 →
  answer_of meta → length v = length (ks_value st) → key_map_ s !! global_key = Some key → recv_kvs_ s !! key = None →
  ∃ s', DataHandleEx env updater shuffle DataHandleRowSparse meta (dense_msg v) s = Ok (tt, s') ∧
    refines false (<[key := {| ks_dtype := d; ks_value := cast_to d <$> v; ks_pending := ks_pending st |}]> σ) s' ∧
    outbox s' = outbox s ++ ((fun req => Response req None false) <$> request (default UpdateBuf_empty (update_buf_tmp_ s !! key))) ∧
    request (default UpdateBuf_empty (update_buf_tmp_ s' !! key)) = [] ∧ recv_kvs_ s' !! key = None ∧ tracker_ s' = tracker_ s.
Proof.
  intros Hhfa Href Hst Hd Hn Hb [Hc Hp Hsd] Hv Hkm Hrecv. pose proof Href as [own Ho].
  pose proof (ref_keys _ _ _ _ Ho _ _ Hst) as ((c & Hc1 & Hc2 & Hc3) & Hi & _). rewrite Hd in Hc3.
  pose proof (value_refines false own σ s key st c (cast_to d <$> v) Ho Hst Hc1 Hc2 ltac:(by rewrite length_fmap)) as Hval.
  rewrite Hd in Hval. set (h1 := put (heap_ s) c {| ch_dtype := d; ch_data := cast_to d <$> v |}) in *.
  eexists. split; [|split].
  { unfold DataHandleEx. eapply run_bind; [unfold lift; rewrite Hc, depair_default by done; reflexivity|]. cbv beta.
    srun. cbn [requestType]. rewrite Hp. unfold DataHandlePullDefault. rewrite Hp, Hsd, Hinter. cbn [kv_keys dense_msg length Nat.eqb Z.eqb].
    srun. srun.
    assert (∀ b (m : srv unit), (if b : bool then m else m) = m) as -> by (by intros []).
    unfold DataHandlePullResponseDefault, has_multi_precision_copy, slot, nd_size, read_nd. rewrite Hlocal. srun. srun.
    cbn [kv_keys dense_msg]. eapply run_bind; [reflexivity|]. cbv beta. srun. rewrite Hkm. change (default 0 (Some key)) with key.
    srun. rewrite Hrecv. change (default [] None ++ [dense_msg v]) with [dense_msg v]. srun. srun. srun. srun.
    rewrite (ref_precision _ _ _ _ Ho). cbn [andb negb orb requestType dtype]. rewrite orb_true_r. cbn [negb]. srun. rewrite Hc1.
    change (default None (Some (Some c))) with (Some c). srun. srun. srun.
    eapply run_bind; [unfold lift; rewrite (deref_cell _ _ _ Hc3); reflexivity|]. cbv beta. srun. cbn [ch_data].
    rewrite (proj2 (Z.leb_gt _ _)) by lia. rewrite (proj2 (Z.ltb_lt _ _)) by lia. cbn [andb]. srun.
    eapply run_bind; [unfold lift; rewrite (recv_dense d size _ v) by (done || (rewrite Hv; done)); reflexivity|]. cbv beta.
    rewrite bool_decide_eq_false_2 by done. rewrite bool_decide_eq_true_2 by done. rewrite (bool_decide_eq_false_2 (Some kDefaultPushPull = Some kBSCompressedPushPull)) by done.
    cbn [orb negb andb]. unfold store_received, slot. srun. srun. srun. srun. rewrite Hc1. change (default None (Some (Some c))) with (Some c).
    srun. srun. rewrite Hhfa. unfold copy_raw. eapply run_bind.
    { apply on_heap_Ok. sproj. cbn [ch_data]. by rewrite (CopyRaw_put _ _ _ Hc3) by done. }
    cbv beta. sproj. fold h1. srun. srun. srun. rewrite Hi. cbn [default from_option id negb]. unfold respond_waiting, get_updates_tmp.
    srun. rewrite Hintra, Hp3. cbn [negb]. eapply run_bind; [apply send_all|]. cbv beta. unfold put_updates_tmp, modify. sproj. reflexivity. }
  { eapply refines_ext; [..|exact Hval]; sproj; done. }
  sproj. rewrite lookup_insert_eq, lookup_delete_eq. done.
Qed.

(** The response counted by the receiving thread after the handler has run. *)
Definition handle_response (handler : srv unit) (ts : Z) : srv unit :=
  Receiving_step tracker_ set_tracker handler false ts.

Lemma handle_response_run handler ts s s' n c :
  handler s = Ok (tt, s') → 0 ≤ ts → tracker_ s' !! Z.to_nat ts = Some (n, c) → - 2 ^ 31 ≤ c + 1 < 2 ^ 31 →
  handle_response handler ts s = Ok (tt, set_tracker (<[Z.to_nat ts := (n, c + 1)]> (tracker_ s')) s').
Proof.
  intros H Hts Ht Hc. unfold handle_response, Receiving_step. eapply run_bind; [exact H|]. cbv beta. srun.
  eapply run_bind; [unfold lift; rewrite (AddResponse_ok _ _ _ _ _ Hts Ht Hc); reflexivity|]. done.
Qed.

Lemma ack_phase DataHandleRowSparse σ s st t meta data :
  let ts := Z.of_nat (length t) in
  refines false σ s → σ !! key = Some st → ks_dtype st = d →
  is_type (gradient_compression_ s) kNone = true →
  0 < Z.of_nat (length (ks_value st)) < bigarray_bound_ env → Z.of_nat (length (ks_value st)) * size < 2 ^ 31 →
  ps_kv_ s !! key = Some (small_pskv (Z.of_nat (length (ks_value st)))) →
  ack_of ts meta → tracker_ s = t ++ [(k, k - 1)] → ts_key_map_ s !! ts = Some key →
  ∃ s', handle_response (DataHandleEx env updater shuffle DataHandleRowSparse meta data) ts s = Ok (tt, s') ∧
    refines false σ s' ∧ tracker_ s' = (t ++ [(k, k)]) ++ [(num_servers env, k - 1)] ∧
    outbox s' = outbox s ++ [PullGlobal (ts + 1) owner_id [global_key] (GetCommandType kDefaultPushPull d) key] ∧
    key_map_ s' !! global_key = Some key ∧ update_buf_tmp_ s' = update_buf_tmp_ s ∧ recv_kvs_ s' = recv_kvs_ s.
Proof.
  intros ts Href Hst Hd Hgc Hn Hb Hps Hack Ht Hmap.
  destruct (ack_pulls DataHandleRowSparse σ s st ts meta data Href Hst Hd Hgc Hn Hb Hps Hack) as (s' & Hrun & Href' & [Ho Ht' Hk Hw Hr]);
    [rewrite Ht; apply NumResponse_last|done|]. rewrite Ht in Ht', Ho.
  assert (Z.of_nat (length (t ++ [(k, k - 1)])) = ts + 1) as Hts by (rewrite length_app; cbn [length]; unfold ts; lia).
  rewrite Hts in Ho.
  assert (tracker_ s' !! Z.to_nat ts = Some (k, k - 1)) as Hlk.
  { rewrite Ht', lookup_app_l by (rewrite length_app; cbn [length]; unfold ts; lia). apply lookup_last_request. }
  eexists. split; [apply (handle_response_run _ ts s s' _ _ Hrun ltac:(unfold ts; lia) Hlk); lia|].
  sproj. split; [eapply refines_ext; [..|exact Href']; sproj; done|]. rewrite Hk, lookup_insert_eq. split_and!; try done.
  rewrite Ht'. unfold ts. rewrite Nat2Z.id, insert_app_l by (rewrite length_app; cbn [length]; lia).
  rewrite insert_app_r_alt, Nat.sub_diag by lia. cbn. do 4 f_equal. lia.
Qed.

Lemma answer_phase DataHandleRowSparse σ s st t n meta v :
  let ts := Z.of_nat (length t) in
  use_hfa env = false → refines false σ s → σ !! key = Some st → ks_dtype st = d →
  0 < Z.of_nat (length (ks_value st)) < bigarray_bound_ env → Z.of_nat (length (ks_value st)) * size < 2 ^ 31 →
  answer_of meta → length v = length (ks_value st) → key_map_ s !! global_key = Some key → recv_kvs_ s !! key = None →
  tracker_ s = t ++ [(n, k - 1)] →
  ∃ s', handle_response (DataHandleEx env updater shuffle DataHandleRowSparse meta (dense_msg v)) ts s = Ok (tt, s') ∧
    refines false (<[key := {| ks_dtype := d; ks_value := cast_to d <$> v; ks_pending := ks_pending st |}]> σ) s' ∧
    outbox s' = outbox s ++ ((fun req => Response req None false) <$> request (default UpdateBuf_empty (update_buf_tmp_ s !! key))).
Proof.
  intros ts Hhfa Href Hst Hd Hn Hb Hans Hv Hkm Hrecv Ht.
  destruct (answer_releases DataHandleRowSparse σ s st meta v Hhfa Href Hst Hd Hn Hb Hans Hv Hkm Hrecv) as (s' & Hrun & Href' & Ho & _ & _ & Ht').
  assert (tracker_ s' !! Z.to_nat ts = Some (n, k - 1)) as Hlk by (rewrite Ht', Ht; apply lookup_last_request).
  eexists. split; [apply (handle_response_run _ ts s s' _ _ Hrun ltac:(unfold ts; lia) Hlk); lia|].
  sproj. split; [eapply refines_ext; [..|exact Href']; sproj; done|done].
Qed.

(** ** A round *)
Definition handle_pushes (DataHandleRowSparse : DataHandleType → KVMeta → KVPairs → srv unit)
    (l : list (KVMeta * KVPairs * list float)) : srv unit :=
  for_each (fun p => DataHandleEx env updater shuffle DataHandleRowSparse p.1.1 p.1.2) l.

(** A worker's push of the values of [key]. *)
Definition worker_push (n : nat) (p : KVMeta * KVPairs * list float) : Prop :=
  push_of env d key p.1.1 p.1.2 p.2 ∧ m_num_merge p.1.1 = 1 ∧ length p.2 = n.

Lemma worker_requests n l : Forall (worker_push n) l → requests (arrived l) = (fun p => p.1.1) <$> l.
Proof. intros H. apply requests_once. eapply Forall_impl; [exact H|]. intros p Hp. apply Hp. Qed.

Lemma pushes_open DataHandleRowSparse σ st l : ∀ s,
  refines false σ s → σ !! key = Some st → ks_dtype st = d → ks_pending st = [] →
  Forall (worker_push (length (ks_value st))) l → Z.of_nat (length l) < num_workers env →
  ∃ s', handle_pushes DataHandleRowSparse l s = Ok (tt, s') ∧
    refines false (<[key := {| ks_dtype := d; ks_value := ks_value st; ks_pending := arrived l |}]> σ) s' ∧ only_updates s s'.
Proof.
  intros s Href Hst Hd Hpd. induction l as [|p l IH] using rev_ind; intros Hl Hlt.
  - exists s. split; [done|]. split; [|exists (heap_ s), (update_buf_ s); by destruct s].
    rewrite insert_id; [done|]. rewrite Hst. destruct st; cbn in *; by subst.
  - pose proof (worker_requests _ _ Hl) as Hreq. apply Forall_app in Hl as [Hl Hp]. rewrite Forall_singleton in Hp.
    destruct Hp as (Hpo & Hm & Hlen). rewrite length_app in Hlt. cbn [length] in Hlt.
    destruct (IH Hl ltac:(lia)) as (s1 & Hrun & Href1 & Hs1).
    destruct (local_push DataHandleRowSparse _ s1 _ _ _ _ Href1 ltac:(apply lookup_insert_eq) eq_refl Hpo Hlen) as (s2 & Hex & Href2 & Hs2).
    cbn [ks_pending ks_value] in Href2. rewrite insert_insert_eq in Href2.
    replace (arrived l ++ [(p.1.1, p.2)]) with (arrived (l ++ [p])) in Href2 by (unfold arrived; by rewrite fmap_app).
    exists s2. split; [|split; [done|by eapply only_updates_trans]].
    unfold handle_pushes. rewrite for_each_app. eapply run_bind; [exact Hrun|]. cbv beta. cbn [for_each].
    eapply run_bind; [|reflexivity]. rewrite Hex. unfold finish_local, get_updates. srun.
    destruct Href2 as [own Ho]. destruct (ref_keys _ _ _ _ Ho key _ ltac:(apply lookup_insert_eq)) as (_ & _ & Hrq & _).
    rewrite Hrq. cbn [ks_pending]. rewrite Hreq, length_fmap, length_app. cbn [length].
    rewrite (proj2 (Z.eqb_neq _ _)) by lia. done.
Qed.

(** The round's last push reaches the end of the round with all gradients aggregated. *)
Lemma pushes_last DataHandleRowSparse σ st l s :
  refines false σ s → σ !! key = Some st → ks_dtype st = d → ks_pending st = [] →
  Forall (worker_push (length (ks_value st))) l → l ≠ [] → Z.of_nat (length l) = num_workers env →
  ∃ h ub (p : KVMeta * KVPairs * list float), let s2 := set_heap h (set_update_buf ub s) in
    (∀ s3, finish_local env updater shuffle type false key p.1.1 p.1.2 s2 = Ok (tt, s3) →
       handle_pushes DataHandleRowSparse l s = Ok (tt, s3)) ∧
    requests (arrived l) = (fun q => q.1.1) <$> l ∧ (arrived l).*2 = l.*2 ∧ arrived l ≠ [] ∧
    refines false (<[key := {| ks_dtype := d; ks_value := ks_value st; ks_pending := arrived l |}]> σ) s2.
Proof.
  intros Href Hst Hd Hpd Hl Hne Hcount. destruct l as [|p l _] using rev_ind; [done|].
  pose proof (worker_requests _ _ Hl) as Hreq. apply Forall_app in Hl as [Hl Hp]. rewrite Forall_singleton in Hp.
  destruct Hp as (Hpo & Hm & Hlen). rewrite length_app in Hcount. cbn [length] in Hcount.
  destruct (pushes_open DataHandleRowSparse σ st l s Href Hst Hd Hpd Hl ltac:(lia)) as (s1 & Hrun & Href1 & Hs1).
  destruct (local_push DataHandleRowSparse _ s1 _ _ _ _ Href1 ltac:(apply lookup_insert_eq) eq_refl Hpo Hlen) as (s2 & Hex & Href2 & Hs2).
  cbn [ks_pending ks_value] in Href2. rewrite insert_insert_eq in Href2.
  replace (arrived l ++ [(p.1.1, p.2)]) with (arrived (l ++ [p])) in Href2 by (unfold arrived; by rewrite fmap_app).
  destruct (only_updates_trans _ _ _ Hs1 Hs2) as (h & ub & ->). exists h, ub, p. split_and!; [|done| | |exact Href2].
  - intros s3 Hfin. unfold handle_pushes. rewrite for_each_app. eapply run_bind; [exact Hrun|]. cbv beta. cbn [for_each].
    eapply run_bind; [|reflexivity]. rewrite Hex. exact Hfin.
  - unfold arrived. rewrite <- list_fmap_compose. done.
  - unfold arrived. rewrite fmap_app. by destruct (_ <$> l).
Qed.

Lemma pushes_round DataHandleRowSparse σ st l s :
  use_hfa env = false → period_k2 env ≠ 0 →
  refines false σ s → σ !! key = Some st → ks_dtype st = d → ks_pending st = [] →
  Forall (worker_push (length (ks_value st))) l → l ≠ [] → Z.of_nat (length l) = num_workers env →
  is_type (gradient_compression_ s) kNone = true →
  0 < Z.of_nat (length (ks_value st)) < bigarray_bound_ env → Z.of_nat (length (ks_value st)) * size < 2 ^ 31 →
  (ps_kv_ s !! key = None ∨ ps_kv_ s !! key = Some (small_pskv (Z.of_nat (length (ks_value st))))) →
  let w := cast_to d <$> total d l.*2 in
  ∃ s', handle_pushes DataHandleRowSparse l s = Ok (tt, s') ∧
    refines false (<[key := {| ks_dtype := d; ks_value := w; ks_pending := [] |}]> σ) s' ∧
    sent s s' w ((fun p => p.1.1) <$> l).
Proof.
  intros Hhfa Hk2 Href Hst Hd Hpd Hl Hne Hcount Hgc Hn Hb Hps w.
  destruct (pushes_last DataHandleRowSparse σ st l s Href Hst Hd Hpd Hl Hne Hcount) as (h & ub & p & Hrun & Hreq & Hval & Hnil & Href2).
  destruct (finish_local_sends _ _ {| ks_dtype := d; ks_value := ks_value st; ks_pending := arrived l |} p.1.1 p.1.2
    Hhfa Hk2 Href2 ltac:(apply lookup_insert_eq) eq_refl) as (s3 & Hfin & Href3 & Hsent); cbn [ks_pending ks_value]; sproj; try done.
  - rewrite Hreq, length_fmap. done.
  - cbn [ks_pending] in Hsent, Href3. rewrite Hval in Hsent, Href3. rewrite insert_insert_eq in Href3. rewrite Hreq in Hsent.
    exists s3. split; [by apply Hrun|split; [exact Href3|]]. destruct Hsent. sproj. by split.
Qed.
End Local.

(** A local server without compression or HFA that holds [key], with no push pending. *)
Record local_ready (env : Env) (key d size : Z) (σ : Spec) (s : Server) (st : KeyState) : Prop := {
  lr_local : is_global_server env = false;
  lr_p3 : enable_p3 env = false;
  lr_intra : enable_intra_ts env = false;
  lr_inter : enable_inter_ts env = false;
  lr_hfa : use_hfa env = false;
  lr_period : period_k2 env ≠ 0;
  lr_servers : 0 < num_global_servers env < 2 ^ 20;
  lr_key : 0 ≤ key ∧ key * 9973 < 2 ^ 31;
  lr_real : is_real_type d = true;
  lr_size : mshadow_sizeof d = Ok size;
  lr_refines : refines false σ s;
  lr_state : σ !! key = Some st;
  lr_dtype : ks_dtype st = d;
  lr_pending : ks_pending st = [];
  lr_gc : is_type (gradient_compression_ s) kNone = true;
  lr_ps_kv : ps_kv_ s !! key = None;
  lr_recv : recv_kvs_ s !! key = None;
  lr_small : 0 < Z.of_nat (length (ks_value st)) < bigarray_bound_ env;
  lr_bytes : Z.of_nat (length (ks_value st)) * size < 2 ^ 31
}.

(** A round: while workers are missing nothing is sent; the last worker's push makes the
    server send the sum of the workers' gradients, once, to the global server that owns the
    key; the answer to this push triggers one pull; and the pulled value [v] becomes the
    stored value and every worker of the round is released, exactly once and in the order of
    the pushes. *)
Definition local_round env updater shuffle DataHandleRowSparse (key d size : Z) (σ : Spec) (s : Server)
    (l : list (KVMeta * KVPairs * list float)) (ack answer : KVMeta) (ack_data : KVPairs) (v : list float) (s3 : Server) : Prop :=
  let ts := Z.of_nat (length (tracker_ s)) in
  let cmd := GetCommandType kDefaultPushPull d in
  ∃ s1 s2,
    handle_pushes env updater shuffle DataHandleRowSparse l s = Ok (tt, s1) ∧
    outbox s1 = outbox s ++ [PushGlobal ts (owner_id env key) (dense_msg env key size (cast_to d <$> total d l.*2)) cmd key] ∧
    handle_response (DataHandleEx env updater shuffle DataHandleRowSparse ack ack_data) ts s1 = Ok (tt, s2) ∧
    outbox s2 = outbox s1 ++ [PullGlobal (ts + 1) (owner_id env key) [global_key env key] cmd key] ∧
    WaitRequest (tracker_ s2) ts = Ok tt ∧
    handle_response (DataHandleEx env updater shuffle DataHandleRowSparse answer (dense_msg env key size v)) (ts + 1) s2 = Ok (tt, s3) ∧
    outbox s3 = outbox s2 ++ ((fun p => Response p.1.1 None false) <$> l) ∧
    refines false (<[key := {| ks_dtype := d; ks_value := cast_to d <$> v; ks_pending := [] |}]> σ) s3 ∧
    (∀ l1 p l2, l = l1 ++ p :: l2 → ∃ s', handle_pushes env updater shuffle DataHandleRowSparse l1 s = Ok (tt, s') ∧ outbox s' = outbox s).

Lemma local_round_trip env updater shuffle DataHandleRowSparse key d size (σ : Spec) (s : Server) st
    (l : list (KVMeta * KVPairs * list float)) (ack answer : KVMeta) (ack_data : KVPairs) (v : list float) :
  local_ready env key d size σ s st →
  Forall (worker_push env key d (length (ks_value st))) l → l ≠ [] → Z.of_nat (length l) = num_workers env →
  ack_of d (Z.of_nat (length (tracker_ s))) ack → answer_of d answer → length v = length (ks_value st) →
  ∃ s3, local_round env updater shuffle DataHandleRowSparse key d size σ s l ack answer ack_data v s3.
Proof.
  intros [Hloc Hp3 Hintra Hinter Hhfa Hk2 Hk Hkey Hreal Hsize Href Hst Hd Hpd Hgc Hps Hrecv Hn Hb] Hl Hne Hcount Hack Hans Hv.
  set (ts := Z.of_nat (length (tracker_ s))) in *.
  destruct (pushes_round env updater shuffle key d size Hloc Hp3 Hintra Hinter Hk Hkey Hreal Hsize DataHandleRowSparse σ st l s
    Hhfa Hk2 Href Hst Hd Hpd Hl Hne Hcount Hgc Hn Hb ltac:(by left)) as (s1 & Hrun1 & Href1 & [Ho1 Ht1 Hk1 Hw1 He1 Hg1 Hr1]).
  set (w := cast_to d <$> total d l.*2) in *.
  assert (length w = length (ks_value st)) as Hlw.
  { unfold w. rewrite length_fmap. apply length_total; [by destruct l|]. rewrite Forall_fmap.
    eapply Forall_impl; [exact Hl|]. intros p Hp. apply Hp. }
  destruct (ack_phase env updater shuffle key d size Hloc Hinter Hk Hkey Hreal Hsize DataHandleRowSparse _ s1
    {| ks_dtype := d; ks_value := w; ks_pending := [] |} (tracker_ s) ack ack_data Href1) as (s2 & Hrun2 & Href2 & Ht2 & Ho2 & Hm2 & Hw2 & Hr2);
    cbn [ks_value ks_dtype]; rewrite ?Hlw; try done.
  { apply lookup_insert_eq. } { by rewrite Hg1. } { rewrite He1, Hlw. apply lookup_insert_eq. } { rewrite Hk1. apply lookup_insert_eq. }
  destruct (answer_phase env updater shuffle key d size Hloc Hp3 Hintra Hinter Hk Hreal Hsize DataHandleRowSparse _ s2
    {| ks_dtype := d; ks_value := w; ks_pending := [] |} _ _ answer v Hhfa Href2 ltac:(apply lookup_insert_eq) eq_refl
    ltac:(cbn; by rewrite Hlw) ltac:(cbn; by rewrite Hlw) Hans ltac:(cbn; by rewrite Hlw) Hm2 ltac:(by rewrite Hr2, Hr1) Ht2)
    as (s3 & Hrun3 & Href3 & Ho3).
  assert (Z.of_nat (length (tracker_ s ++ [(num_global_servers env, num_global_servers env)])) = ts + 1) as Hts
    by (rewrite length_app; cbn [length]; unfold ts; lia). rewrite Hts in Hrun3.
  exists s3. unfold local_round. fold ts. cbv zeta. exists s1, s2. split_and!; [exact Hrun1|exact Ho1|exact Hrun2|exact Ho2| |exact Hrun3| | |].
  - unfold WaitRequest. assert (tracker_ s2 !! Z.to_nat ts = Some (num_global_servers env, num_global_servers env)) as Hlk.
    { rewrite Ht2, lookup_app_l by (rewrite length_app; cbn [length]; unfold ts; lia). apply lookup_last_request. }
    rewrite (rdz_ok _ ts _ ltac:(unfold ts; lia) Hlk). rstep. by rewrite Z.eqb_refl.
  - rewrite Ho3, Hw2, Hw1, <- list_fmap_compose. done.
  - rewrite insert_insert_eq in Href3. exact Href3.
  - intros l1 p l2 ->. apply Forall_app in Hl as [Hl _]. rewrite length_app in Hcount. cbn [length] in Hcount.
    destruct (pushes_open env updater shuffle key d Hloc Hp3 Hinter DataHandleRowSparse σ st l1 s Href Hst Hd Hpd Hl ltac:(lia))
      as (s' & Hr' & _ & (h & ub & ->)). by eexists.
Qed.

(** A data center with two workers whose server holds key 7. *)
Definition w_local_env : Env := {|
  is_global_server := false; enable_central_workers := false; num_workers := 2; num_servers := 1;
  num_global_workers := 2; num_global_servers := 3; my_rank := 0; my_global_rank := 0; my_global_id := 9;
  bigarray_bound_ := 1000000; size_lower_bound := 200000; use_hfa := false; period_k2 := 1;
  enable_p3 := false; enable_intra_ts := false; enable_inter_ts := false |}.
Definition w_local (v : list float) : Server :=
  set_initialized {[7 := true]} (set_store {[7 := Some 0%nat]}
    (set_heap {| cells := {[0%nat := {| ch_dtype := 0; ch_data := v |}]}; next_cell := 1 |} (set_sync_mode true Server_init))).
Definition w_key_state (v : list float) : KeyState := {| ks_dtype := 0; ks_value := v; ks_pending := [] |}.

Lemma w_local_refines v : refines false {[7 := w_key_state v]} (w_local v).
Proof.
  exists {[0%nat := (7, false)]}. split; try done.
  - intros c [x Hx]. cbn in *. apply lookup_singleton_Some in Hx as [<- _]. lia.
  - intros c [x Hx]. apply lookup_singleton_Some in Hx as [<- _]. cbn. by rewrite lookup_singleton_eq.
  - intros k st Hk. apply lookup_singleton_Some in Hk as [<- <-]. split; [|done]. exists 0%nat. cbn. by rewrite !lookup_singleton_eq.
  - intros k Hk. apply lookup_singleton_None in Hk. cbn. by rewrite !lookup_singleton_ne.
Qed.
