(* ===== verification/DistWorker.v ===== *)
(** * The distributed store on a worker

    A worker adds up the gradients of its devices, cuts the sum into one part per server of
    its data center and pushes the parts; a pull puts the parts together again and copies
    them to the devices.
    Source: [KVStoreDist] of src/src/kvstore/kvstore_dist.h, with [ZPush], [P3_ZPush],
    [ZPull], [AutoPull] and [Send] of [KVWorker] (src/3rdparty/ps-lite/include/ps/kv_app.h).

    All arrays are on the CPU.  The operations given to the engine run in the order in which
    they are pushed (EngineSerial.v); what the servers answer is a parameter, the list of
    the answers to each timestamp in the order of their arrival. *)

From Stdlib Require Import SpecFloat Sorted.
From S2P Require Import Prelude StdAlgo Floats Sparse Command Text Postoffice Customer TwoBit GradientCompression KeyEncoding KVApp NDArray SparseOps Comm KVStoreLocal LocalStoreSpec ServerState DistServer RowSparseServer.
Local Open Scope Z_scope.

(** ** State *)

(** A message to a server or, with scheduled transmission, to another worker. *)
Record WMsg := {
  wm_recver : Z; wm_push : bool; wm_cmd : Z; wm_timestamp : Z; wm_key : Z; wm_version : Z; wm_iters : Z; wm_data : KVPairs
}.
Inductive waction :=
  | WSend (queued : bool) (m : WMsg)               (* [queued]: by way of the priority queue *)
  | WAskReceiver (app customer ts : Z)
  | WResponse (req : KVMeta)
  | WRequest (head : Z) (body : string) (group : Z)
  | WSimpleResponse (head : Z)
  | WBarrier (group : Z) (is_global : bool).

Record KVStoreDist := {
  base : KVStoreLocal;                             (* the members of the base class *)
  w_comm_buf_ : gmap Z array;
  w_compr_buf_ : gmap Z (list (list Z));           (* 2-bit words *)
  w_residual_ : gmap Z (list float);
  w_ps_kv_ : gmap Z PSKV;
  w_compr_ps_kv_ : gmap Z ComprPSKV;
  key_temp : Z;
  w_gc_ : GradientCompression;
  w_tracker_ : tracker;
  auto_pull_kvs_ : gmap Z (gmap Z (KVs float));
  send_push : Z;
  send_q : list Z;
  req_meta_buf : gmap Z KVMeta;
  req_data_buf : gmap Z KVPairs;
  w_update_buf_ : gmap Z NDArray;                  (* [merged] *)
  w_outbox : list waction
}.
Abbreviation wst := (st KVStoreDist).

Definition Dist_eta (s : KVStoreDist) : KVStoreDist := {|
  base := base s; w_comm_buf_ := w_comm_buf_ s; w_compr_buf_ := w_compr_buf_ s; w_residual_ := w_residual_ s;
  w_ps_kv_ := w_ps_kv_ s; w_compr_ps_kv_ := w_compr_ps_kv_ s; key_temp := key_temp s; w_gc_ := w_gc_ s;
  w_tracker_ := w_tracker_ s; auto_pull_kvs_ := auto_pull_kvs_ s; send_push := send_push s; send_q := send_q s;
  req_meta_buf := req_meta_buf s; req_data_buf := req_data_buf s; w_update_buf_ := w_update_buf_ s; w_outbox := w_outbox s |}.
Definition set_base (x : KVStoreLocal) (s : KVStoreDist) : KVStoreDist := ltac:(set_field (Dist_eta s) (base s) x).
Definition set_comm_buf (x : gmap Z array) (s : KVStoreDist) : KVStoreDist := ltac:(set_field (Dist_eta s) (w_comm_buf_ s) x).
Definition set_w_compr_buf (x : gmap Z (list (list Z))) (s : KVStoreDist) : KVStoreDist := ltac:(set_field (Dist_eta s) (w_compr_buf_ s) x).
Definition set_w_residual (x : gmap Z (list float)) (s : KVStoreDist) : KVStoreDist := ltac:(set_field (Dist_eta s) (w_residual_ s) x).
Definition set_w_ps_kv (x : gmap Z PSKV) (s : KVStoreDist) : KVStoreDist := ltac:(set_field (Dist_eta s) (w_ps_kv_ s) x).
Definition set_w_compr_ps_kv (x : gmap Z ComprPSKV) (s : KVStoreDist) : KVStoreDist := ltac:(set_field (Dist_eta s) (w_compr_ps_kv_ s) x).
Definition set_key_temp (x : Z) (s : KVStoreDist) : KVStoreDist := ltac:(set_field (Dist_eta s) (key_temp s) x).
Definition set_w_gc (x : GradientCompression) (s : KVStoreDist) : KVStoreDist := ltac:(set_field (Dist_eta s) (w_gc_ s) x).
Definition set_w_tracker (x : tracker) (s : KVStoreDist) : KVStoreDist := ltac:(set_field (Dist_eta s) (w_tracker_ s) x).
Definition set_auto_pull_kvs (x : gmap Z (gmap Z (KVs float))) (s : KVStoreDist) : KVStoreDist := ltac:(set_field (Dist_eta s) (auto_pull_kvs_ s) x).
Definition set_send_push (x : Z) (s : KVStoreDist) : KVStoreDist := ltac:(set_field (Dist_eta s) (send_push s) x).
Definition set_send_q (x : list Z) (s : KVStoreDist) : KVStoreDist := ltac:(set_field (Dist_eta s) (send_q s) x).
Definition set_req_meta (x : gmap Z KVMeta) (s : KVStoreDist) : KVStoreDist := ltac:(set_field (Dist_eta s) (req_meta_buf s) x).
Definition set_req_data (x : gmap Z KVPairs) (s : KVStoreDist) : KVStoreDist := ltac:(set_field (Dist_eta s) (req_data_buf s) x).
Definition set_w_update_buf (x : gmap Z NDArray) (s : KVStoreDist) : KVStoreDist := ltac:(set_field (Dist_eta s) (w_update_buf_ s) x).
Definition emit_action (a : waction) : wst unit := modify (fun s => ltac:(set_field (Dist_eta s) (w_outbox s) (w_outbox s ++ [a]))).

Definition on_base {A} (m : lst A) : wst A := fun s => r ← m (base s); Ok (r.1, set_base r.2 s).
Definition on_devices {A} (m : st CommCPU A) : wst A := on_base (on_comm m).

(** The array of a dense handle, as a chunk. *)
Definition read_dense (a : NDArray) : wst chunk :=
  x ← on_devices (c_read (Dns a));
  match x with CDns c => mret c | CRsp _ => fail (Undefined "storage type") end.

(** The elements of a byte range of [l], whose elements have [bytes] bytes. *)
Definition byte_segment {A} (l : list A) (bytes b n : Z) : result (list A) :=
  if (Z.rem b bytes =? 0) && (Z.rem n bytes =? 0) then segment l (Z.to_nat (Z.quot b bytes)) (Z.to_nat (Z.quot (b + n) bytes))
  else Err (Undefined "an element split between servers").

Section Worker.
Context (env : Env).
Context (sort : list (Z * nat) → list (Z * nat)) (nthread_reduction : Z) (order : nat → list nat) (is_serial_push_ : bool) (max_threads : nat).
Context (is_recovery IsMasterWorker : bool).
Context (answers : Z → list (KVs float)).

Definition my_id : Z := WorkerRankToID (my_rank env) false.

(** ** Sending and receiving (KVWorker) *)
Definition new_request : wst Z :=
  t ← gets w_tracker_;
  let '(ts, t) := NewRequest t (num_servers env) in
  modify (set_w_tracker t);; mret ts.

(** [Send]: to the servers that own the keys, or to the receiver given by the scheduler when
    [app] is set. *)
Definition worker_send (ts : Z) (push : bool) (cmd bytes : Z) (kvs : KVPairs) (uniq_key version app num_merge : Z) (queued : bool) : wst unit :=
  sliced ← lift (slice_message (num_servers env) bytes kvs);
  t ← gets w_tracker_;
  t ← lift (AddResponse t ts (Z.of_nat (skipped sliced)));
  modify (set_w_tracker t);;
  for_each (fun '(i, (nonempty, kv)) =>
    when nonempty
      (r ← (if negb (app =? kEmpty) then gets send_push else mret (ServerRankToID (Z.of_nat i) false));
       emit_action (WSend queued {| wm_recver := r; wm_push := push; wm_cmd := cmd; wm_timestamp := ts; wm_key := uniq_key; wm_version := version;
                                    wm_iters := num_merge; wm_data := kv |});;
       when (negb queued && negb (app =? kEmpty)) (modify (set_send_push 0)))) (imap pair sliced).

(** ** Merging on the way (scheduled transmission) *)

(** [WorkersMerge]: keep the own push, add what another worker sent, or send the sum to the
    receiver the scheduler chose.  [view] is the array whose memory the values are, for a
    push of this worker; a received message has memory of its own. *)
Definition merge_send : wst unit :=
  q ← gets send_q;
  key ← lift (rd q 0);
  merged ← gets (fun s => default None (w_update_buf_ s !! key));
  c ← read_dense merged;
  data ← gets (fun s => default {| kv_keys := []; kv_lens := []; kv_vals := Vals [] |} (req_data_buf s !! key));
  bytes ← lift (mshadow_sizeof (ch_dtype c));
  len ← lift (rd (kv_lens data) 0);
  v ← lift (byte_segment (ch_data c) bytes 0 len);
  let data := {| kv_keys := kv_keys data; kv_lens := kv_lens data; kv_vals := Vals v |} in
  modify (fun s => set_req_data (<[key := data]> (req_data_buf s)) s);;
  m ← gets (fun s => req_meta_buf s !! key);
  m ← lift (of_option (Undefined "uninitialised fields") m);
  worker_send (m_timestamp m) (m_push m) (m_cmd m) bytes data (m_key m) (m_version m) (m_app_id m) (m_num_merge m) false;;
  modify (fun s => set_send_q (tail (send_q s)) s).

Definition add_num_merge (n : Z) (m : KVMeta) : result KVMeta :=
  k ← int_add (m_num_merge m) n;
  Ok {| m_cmd := m_cmd m; m_push := m_push m; m_sender := m_sender m; m_timestamp := m_timestamp m; m_customer_id := m_customer_id m;
        m_key := m_key m; m_version := m_version m; m_num_merge := k; m_app_id := m_app_id m |}.

Definition WorkersMerge (req_meta : KVMeta) (req_data : KVPairs) (view : NDArray) : wst unit :=
  if m_num_merge req_meta =? -1 then merge_send
  else
    ensure (length (kv_keys req_data) =? 1)%nat "Check failed: req_data.keys.size() == 1";;
    type ← lift (DepairDataHandleType (m_cmd req_meta));
    bytes ← lift (mshadow_sizeof (dtype type));
    when (m_push req_meta)
      (ensure (length (kv_lens req_data) =? 1)%nat "Check failed: req_data.lens.size() == 1";;
       len ← lift (rd (kv_lens req_data) 0);
       ensure (vals_size bytes (kv_vals req_data) =? len) "Check failed: req_data.vals.size() == req_data.lens[0]");;
    k ← lift (rd (kv_keys req_data) 0);
    let key := i32 k in
    let server_id := (my_rank env + 1) * 2 - 1 + 100 in
    (if m_sender req_meta =? server_id then
       modify (fun s => set_send_q (send_q s ++ [key]) s);;
       modify (fun s => set_req_meta (<[key := req_meta]> (req_meta_buf s)) s);;
       modify (fun s => set_req_data (<[key := {| kv_keys := kv_keys req_data; kv_lens := kv_lens req_data;
         kv_vals := default (Vals []) (kv_vals <$> req_data_buf s !! key) |}]> (req_data_buf s)) s)
     else emit_action (WResponse req_meta));;
    c ← lift (recv_array type req_data 0);
    merged ← gets (fun s => default None (w_update_buf_ s !! key));
    merged ← (if is_none merged then on_devices (c_new (length (ch_data c)) (dtype type)) else mret merged);
    if m_sender req_meta =? server_id then
      recved ← (match view with
                | Some _ => mret view
                | None => on_devices (fun x => let '(a, h) := alloc (c_heap x) c in Ok (a, set_c_heap h x))
                end);
      modify (fun s => set_w_update_buf (<[key := recved]> (w_update_buf_ s)) s)
    else
      modify (fun s => set_w_update_buf (<[key := merged]> (w_update_buf_ s)) s);;
      on_devices (c_on_heap (fun h => plus_assign_raw h merged c));;
      m ← gets (fun s => req_meta_buf s !! key);
      m ← lift (of_option (Undefined "uninitialised fields") m);
      m ← lift (add_num_merge (m_num_merge req_meta) m);
      modify (fun s => set_req_meta (<[key := m]> (req_meta_buf s)) s).

(** [TS_Process] on a push of another worker, and on the scheduler's choice of a receiver. *)
Definition TS_receive (req_meta : KVMeta) (req_data : KVPairs) : wst unit :=
  WorkersMerge req_meta req_data None;;
  emit_action (WAskReceiver (m_app_id req_meta) (m_customer_id req_meta) (m_timestamp req_meta)).
Definition TS_grant (receiver : Z) : wst unit :=
  modify (set_send_push receiver);;
  WorkersMerge {| m_cmd := 0; m_push := false; m_sender := 0; m_timestamp := 0; m_customer_id := 0; m_key := 0; m_version := 0; m_num_merge := -1; m_app_id := 0 |}
    {| kv_keys := []; kv_lens := []; kv_vals := Vals [] |} None.

(** The application and the customer are numbered 0. *)
Definition ZPush (kvs : KVPairs) (view : NDArray) (cmd bytes uniq_key : Z) : wst unit :=
  ts ← new_request;
  if enable_intra_ts env && negb (bool_decide (kv_keys kvs = [])) then
    WorkersMerge {| m_cmd := cmd; m_push := true; m_sender := my_id; m_timestamp := ts; m_customer_id := 0; m_key := uniq_key;
                    m_version := 0; m_num_merge := 1; m_app_id := 0 |} kvs view;;
    emit_action (WAskReceiver 0 0 ts)
  else worker_send ts true cmd bytes kvs uniq_key 0 kEmpty 1 false.

(** [P3_ZPush] of one key: what the answer brings, if it has data. *)
Definition P3_ZPush (key : Z) (vals : list float) (len cmd bytes : Z) : wst (option (list float)) :=
  ts ← new_request;
  worker_send ts true cmd bytes {| kv_keys := [key]; kv_lens := [len]; kv_vals := Vals vals |} kEmpty kEmpty kEmpty 1 true;;
  match answers ts with
  | [] => mret None
  | kv :: rest =>
      ensure (length (kv :: rest) =? 1)%nat "Check failed: kvs.size() == 1";;
      k ← lift (rd (KVApp.keys kv) 0);
      ensure (k =? key) "Check failed: kv.keys[0] == key";;
      n ← lift (rd (KVApp.lens kv) 0);
      ensure (n =? len) "Check failed: kv.lens[0] == len";;
      ensure (Z.of_nat (length vals) * bytes =? len) "Check failed: vals.size() == len";;
      ensure (Z.of_nat (length (KVApp.vals kv)) * bytes =? len) "Check failed: kv.vals.size() == len";;
      mret (Some (KVApp.vals kv))
  end.

(** [ZPull]: the values of the keys, for a buffer of [n] elements, and their lengths. *)
Definition ZPull (pskv : PSKV) (n : nat) (cmd : Z) : wst (list float * list Z) :=
  ts ← new_request;
  worker_send ts false cmd 1 {| kv_keys := pskv_keys pskv; kv_lens := []; kv_vals := Vals [] |} kEmpty kEmpty kEmpty 1 false;;
  r ← lift (pull_callback {| cb_keys := pskv_keys pskv; cb_vals_size := n; cb_lens_size := Some (length (pskv_lens pskv)) |} (answers ts));
  mret (r.1, default [] r.2).

(** [AutoPull]: the values other nodes have sent for [uniq_key]; it waits until there are as
    many as keys. *)
Definition AutoPull (uniq_key : Z) (pskv : PSKV) (n : nat) : wst (list float * list Z) :=
  autokvs ← gets (fun s => default (∅ : gmap Z (KVs float)) (auto_pull_kvs_ s !! uniq_key));
  if negb (size autokvs =? length (pskv_keys pskv))%nat then fail (Blocked "AutoPull")
  else
    let total := foldr Nat.add 0%nat ((fun p : Z * KVs float => length (KVApp.vals p.2)) <$> map_to_list autokvs) in
    ensure ((n =? 0) || (n =? total))%nat "Check failed: vals->size() == total_vals";;
    ensure ((length (pskv_lens pskv) =? 0) || (length (pskv_lens pskv) =? length (pskv_keys pskv)))%nat "Check failed: lens->size() == keys.size()";;
    let parts := (fun k => default KVs_empty (autokvs !! k)) <$> pskv_keys pskv in
    if (n =? 0)%nat || (length (mjoin (KVApp.vals <$> parts)) =? total)%nat then
      modify (fun s => set_auto_pull_kvs (delete uniq_key (auto_pull_kvs_ s)) s);;
      mret (mjoin (KVApp.vals <$> parts), mjoin (KVApp.lens <$> parts))
    else fail (Undefined "values of other keys").

(** ** Push *)
Definition encode_default_key (key n bytes : Z) : wst PSKV :=
  m ← gets w_ps_kv_;
  r ← lift (EncodeDefaultKey (bigarray_bound_ env) (num_servers env) m key n bytes);
  modify (set_w_ps_kv r.1);; mret r.2.
Definition encode_p3_key (key n bytes : Z) : wst PSKV :=
  m ← gets w_ps_kv_;
  t ← gets key_temp;
  r ← lift (default (Err (Undefined "no end of the loop")) (EncodeP3Key (bigarray_bound_ env) (num_servers env) m t key n bytes));
  modify (set_w_ps_kv r.1.1);; modify (set_key_temp r.1.2);; mret r.2.
Definition encode_compressed_key (key n : Z) (is_push : bool) (bytes : Z) : wst PSKV :=
  gc ← gets w_gc_;
  m ← gets w_compr_ps_kv_;
  r ← lift (EncodeCompressedKey (bigarray_bound_ env) (num_servers env) gc m key n is_push bytes);
  modify (set_w_compr_ps_kv r.1);; mret r.2.

(** One slice of a P3 push: its answer is written back to the array that was sent. *)
Definition push_p3_slice (send_buf : NDArray) (data : list float) (cmd bytes : Z) (len : Z) (k : Z * Z) : wst Z :=
  v ← lift (byte_segment data bytes len k.2);
  r ← P3_ZPush k.1 v k.2 cmd bytes;
  c ← read_dense send_buf;
  let b := Z.to_nat (Z.quot len bytes) in
  match r with
  | Some v => on_devices (c_on_heap (fun h => store_data h send_buf (take b (ch_data c) ++ v ++ drop (b + length v) (ch_data c))))
  | None => mret tt
  end;;
  lift (int_add len k.2).

Definition PushDefault (key : Z) (send_buf : NDArray) (pskv : PSKV) : wst unit :=
  c ← read_dense send_buf;
  bytes ← lift (mshadow_sizeof (ch_dtype c));
  let cmd := GetCommandType kDefaultPushPull (ch_dtype c) in
  if enable_p3 env then
    _ ← fold_st (push_p3_slice send_buf (ch_data c) cmd bytes) 0 (zip (pskv_keys pskv) (pskv_lens pskv));
    mret tt
  else ZPush {| kv_keys := pskv_keys pskv; kv_lens := pskv_lens pskv; kv_vals := Vals (ch_data c) |} send_buf cmd bytes key.

Definition PushCompressed (key : Z) (comm_buf : NDArray) (pskv : PSKV) : wst unit :=
  c ← read_dense comm_buf;
  bytes ← lift (mshadow_sizeof (ch_dtype c));
  small ← gets (fun s => w_compr_buf_ s !! key);
  small_buf ← (match small with
    | Some w => mret w
    | None =>
        modify (fun s => set_w_residual (<[key := replicate (length (ch_data c)) f32_zero]> (w_residual_ s)) s);;
        mret (replicate (Z.to_nat (pskv_size pskv)) zero_word)
    end);
  residual ← gets (fun s => default [] (w_residual_ s !! key));
  gc ← gets w_gc_;
  from ← lift (dptr_float c);
  q ← lift (Quantize gc 1 1 1 cpu_kDevMask cpu_kDevMask from small_buf residual);
  modify (fun s => set_w_compr_buf (<[key := q.1]> (w_compr_buf_ s)) s);;
  modify (fun s => set_w_residual (<[key := q.2]> (w_residual_ s)) s);;
  ZPush {| kv_keys := pskv_keys pskv; kv_lens := pskv_lens pskv; kv_vals := Words q.1 |} None (GetCommandType kCompressedPushPull (ch_dtype c)) bytes kEmpty.

Definition PushRowSparse (key : Z) (send_buf : rsp_chunk) : wst unit :=
  let a := rc_array send_buf in
  let size := Z.of_nat (length (rsp_idx a)) * Z.of_nat (rsp_width a) in
  bytes ← lift (mshadow_sizeof (rc_dtype send_buf));
  m ← gets w_ps_kv_;
  r ← lift (EncodeRowSparseKey (bigarray_bound_ env) (num_servers env) m key size (Some (rsp_idx a)) (Z.of_nat (rsp_width a)) (rsp_rows a) bytes);
  modify (set_w_ps_kv r.1);;
  ZPush {| kv_keys := pskv_keys r.2; kv_lens := pskv_lens r.2; kv_vals := Vals (mjoin (rsp_data a)) |} None
    (GetCommandType kRowSparsePushPull (rc_dtype send_buf)) bytes kEmpty.

Definition push_key (do_merge : bool) (key : Z) (vals : list array) : wst unit :=
  merged ← (if do_merge then on_devices (Reduce (bigarray_bound_ env) nthread_reduction order is_serial_push_ max_threads key vals)
            else lift (rd vals 0));
  modify (fun s => set_comm_buf (<[key := merged]> (w_comm_buf_ s)) s);;
  x ← on_devices (c_read merged);
  gc ← gets w_gc_;
  match merged, x with
  | Dns a, CDns c =>
      bytes ← lift (mshadow_sizeof (ch_dtype c));
      let n := Z.of_nat (length (ch_data c)) in
      if is_type gc kNone || is_type gc kBiSparseCompression then
        pskv ← (if enable_p3 env then encode_p3_key key n bytes else encode_default_key key n bytes);
        PushDefault key a pskv
      else
        ensure (ch_dtype c =? kFloat32) "Gradient compression is only supported for float32 type of parameters";;
        pskv ← encode_compressed_key key n do_merge bytes;
        if do_merge then PushCompressed key a pskv else PushDefault key a pskv
  | _, CRsp c =>
      ensure (is_type gc kNone) "Gradient compression for row sparse storage type is not supported";;
      PushRowSparse key c
  | _, _ => fail (Undefined "storage type")
  end.

Definition Push_ (keys : list Z) (values : list array) (do_merge : bool) : wst unit :=
  r ← on_base (GroupKVPairsPush sort keys values false);
  for_each (fun '(key, vals) => push_key do_merge key vals) (zip r.1 r.2).

Definition DistPushImpl (keys : list Z) (values : list array) : wst unit := Push_ keys values true.

(** ** Pull *)
Definition pull_mode (gc : GradientCompression) : result RequestType :=
  if is_type gc kNone then Ok kDefaultPushPull
  else if is_type gc kTwoBit then Ok kCompressedPushPull
  else if is_type gc kBiSparseCompression then Ok kDefaultPushPull
  else Err (CheckFailed "Unsupported compression of type").

(** The lengths of the answers are written to the cached encoding. *)
Definition set_lens (lens : list Z) (p : PSKV) : PSKV := {| pskv_keys := pskv_keys p; pskv_lens := lens; pskv_size := pskv_size p |}.
Definition set_pull_lens (compressed : bool) (key : Z) (lens : list Z) : wst unit :=
  modify (fun s =>
    if compressed then set_w_compr_ps_kv (alter (fun c => {| compr_push := compr_push c; compr_pull := set_lens lens (compr_pull c) |}) key (w_compr_ps_kv_ s)) s
    else set_w_ps_kv (alter (set_lens lens) key (w_ps_kv_ s)) s).

Definition pull_from_servers (key : Z) (recv_buf : NDArray) : wst unit :=
  c ← read_dense recv_buf;
  bytes ← lift (mshadow_sizeof (ch_dtype c));
  gc ← gets w_gc_;
  let n := length (ch_data c) in
  pskv ← (if is_type gc kTwoBit then encode_compressed_key key (Z.of_nat n) false bytes else encode_default_key key (Z.of_nat n) bytes);
  mode ← lift (pull_mode gc);
  let cmd := GetCommandType mode (ch_dtype c) in
  r ← (if enable_intra_ts env && is_type gc kNone then AutoPull key pskv n else ZPull pskv n cmd);
  when (negb (n =? 0)%nat) (on_devices (c_on_heap (fun h => store_data h recv_buf r.1)));;
  set_pull_lens (is_type gc kTwoBit) key r.2.

Definition pull_key (key : Z) (vals : list array) : wst unit :=
  v0 ← lift (rd vals 0);
  ensure (negb (is_rsp v0)) "Expected stype of value to be kDefaultStorage";;
  old ← gets (fun s => default (Dns None) (w_comm_buf_ s !! key));
  let first_init := array_none old in
  recv_buf ← (if first_init then
                x ← on_devices (c_read v0);
                a ← on_devices (c_new (Z.to_nat (contents_shape x).1) (contents_dtype x));
                modify (fun s => set_comm_buf (<[key := Dns a]> (w_comm_buf_ s)) s);;
                mret (Dns a)
              else mret old);
  match recv_buf with
  | Dns a =>
      when (negb (enable_p3 env && negb first_init)) (pull_from_servers key a);;
      on_devices (Broadcast true key recv_buf vals)
  | Rsp _ => fail (Undefined "storage type")
  end.

Definition DistPullImpl (keys : list Z) (values : list array) (ignore_sparse : bool) : wst unit :=
  ensure ignore_sparse "dist kvstore pull does not support ignore_sparse=false";;
  r ← on_base (GroupKVPairsPull sort keys values true);
  for_each (fun '(key, vals) => pull_key key vals) (zip r.1 r.2).

Definition PullRowSparse_ (key : Z) (recv_buf : option nat) (indices : list Z) : wst unit :=
  x ← on_devices (c_read (Rsp recv_buf));
  match x with
  | CRsp c =>
      let a := rc_array c in
      let num_rows := length indices in
      let n := (num_rows * rsp_width a)%nat in
      bytes ← lift (mshadow_sizeof (rc_dtype c));
      m ← gets w_ps_kv_;
      r ← lift (EncodeRowSparseKey (bigarray_bound_ env) (num_servers env) m key (Z.of_nat n) (Some indices) (Z.of_nat (rsp_width a)) (rsp_rows a) bytes);
      modify (set_w_ps_kv r.1);;
      v ← ZPull r.2 n (GetCommandType kRowSparsePushPull (rc_dtype c));
      on_devices (c_write_rsp recv_buf {| rc_dtype := rc_dtype c;
        rc_array := {| rsp_rows := rsp_rows a; rsp_width := rsp_width a; rsp_idx := indices; rsp_data := as_rows num_rows (rsp_width a) v.1 |} |});;
      set_pull_lens false key v.2
  | CDns _ => fail (Undefined "storage type")
  end.

Definition pull_rsp_key (key : Z) (val_rowids : list (array * list Z)) : wst unit :=
  v0 ← lift (rd val_rowids 0);
  ensure (is_rsp v0.1) "expected kRowSparseStorage";;
  old ← gets (fun s => default (Dns None) (w_comm_buf_ s !! key));
  recv_buf ← (if array_none old then
                x ← on_devices (c_read v0.1);
                a ← on_devices (c_new_rsp (contents_shape x).1 (contents_shape x).2 (contents_dtype x));
                modify (fun s => set_comm_buf (<[key := Rsp a]> (w_comm_buf_ s)) s);;
                mret (Rsp a)
              else mret old);
  ids ← lift (foldM (fun acc p => u ← UniqueImpl (Z.of_nat max_threads) p.2; Ok (acc ++ [u])) [] val_rowids);
  ensure (length val_rowids =? 1)%nat "RowSparsePull with multiple values is not supported yet";;
  indices ← lift (rd ids 0);
  match recv_buf with
  | Rsp a =>
      PullRowSparse_ key a indices;;
      on_devices (Broadcast true key recv_buf val_rowids.*1)
  | Dns _ => fail (Undefined "storage type")
  end.

Definition DistPullRowSparseImpl (keys : list Z) (val_rowids : list (array * list Z)) : wst unit :=
  r ← on_base (GroupKVPairsPullRsp sort keys val_rowids false);
  for_each (fun '(key, l) => pull_rsp_key key l) (zip r.1 r.2).

(** ** Start, commands *)
Definition DistBarrier (is_global : bool) : wst unit := emit_action (WBarrier (if is_global then kWorkerGroupGlobal else kWorkerGroup) is_global).

Definition DistInitImpl (keys : list Z) (values : list array) : wst unit :=
  lift (CheckUnique keys);;
  for_each (fun '(i, key) =>
    v ← lift (rd values i);
    x ← on_devices (c_read v);
    on_devices (Comm_Init key (contents_shape x) (contents_dtype x))) (zip (seq 0 (length keys)) keys);;
  when (my_rank env =? 0) (Push_ keys values false);;
  when (negb is_recovery) (DistBarrier false).

(** The command is sent to all servers; the call returns when they have answered. *)
Definition SendCommandToServers (cmd_id : Z) (cmd_body : string) : wst unit := emit_action (WRequest cmd_id cmd_body kServerGroup).

Definition DistSetGradientCompression (type : string) (threshold : float) : wst unit :=
  when IsMasterWorker
    (gc ← gets w_gc_;
     gc ← lift (SetParams gc type threshold);
     modify (set_w_gc gc);;
     SendCommandToServers (CommandType_to_int kSetGradientCompression) (EncodeParams gc)).

Definition CommandHandle (head : Z) (body : string) : wst unit :=
  when (bool_decide (CommandType_of_int head = Some kSetGradientCompression))
    (gc ← gets w_gc_; gc ← lift (DecodeParams gc body); modify (set_w_gc gc));;
  emit_action (WSimpleResponse head).

Definition SetServerProfilerCommand (type : Z) (params : string) : wst unit :=
  when (my_rank env =? 0) (SendCommandToServers (CommandType_to_int kSetProfilerParams) (String.append params (to_string_int type))).

(** [get_num_dead_node] *)
Definition get_num_dead_node (dead_nodes watch_nodes : list Z) : nat := length (List.filter (fun r => bool_decide (r ∈ watch_nodes)) dead_nodes).
End Worker.
