(* ===== verification/DistWorkerSpec.v ===== *)
(** * What a worker's push and pull do

    A push of a dense key sends each server of the data center its share of the sum over
    the devices, as a message the server accepts for this key; a pull asks the same servers
    and puts their answers together on all devices.  Source: src/src/kvstore/kvstore_dist.h. *)

From Stdlib Require Import SpecFloat Sorted.
From S2P Require Import Prelude StdAlgo Floats Sparse Command Text Postoffice Customer TwoBit GradientCompression KeyEncoding KVApp NDArray SparseOps Comm KVStoreLocal LocalStoreSpec ServerState DistServer ServerSpec RowSparseServer DistWorker.
Local Open Scope Z_scope.

(** ** Shares

    The servers that hold a part of a dense key, in increasing order, with the number of
    elements each holds. *)
Abbreviation shares := (list (nat * nat)).

Definition default_shares (bound k key n : Z) : shares :=
  if n <? bound then [(Z.to_nat ((key * 9973) mod k), Z.to_nat n)]
  else (fun i => (i, Z.to_nat (part n k i))) <$> seq 0 (Z.to_nat k).

Definition total_of (sh : shares) : nat := sum_list (sh.*2).

(** Shares for [k] servers of an array of [n] elements. *)
Record shares_ok (k : Z) (n : nat) (sh : shares) : Prop := {
  so_sorted : StronglySorted lt (sh.*1);
  so_range : Forall (fun s => (s.1 < Z.to_nat k)%nat) sh;
  so_pos : Forall (fun s => (0 < s.2)%nat) sh;
  so_total : total_of sh = n
}.

(** The encoding of [key] that says so, for elements of [nb] bytes. *)
Definition server_key_of (k key : Z) (i : nat) : Z := width k * Z.of_nat i + key.
Definition spread (k key nb : Z) (sh : shares) : PSKV :=
  {| pskv_keys := (fun s => server_key_of k key s.1) <$> sh; pskv_lens := (fun s => Z.of_nat s.2 * nb) <$> sh;
     pskv_size := Z.of_nat (total_of sh) * nb |}.

(** The parts of an array. *)
Fixpoint split_by {A} (cs : list nat) (v : list A) : list (list A) :=
  match cs with [] => [] | c :: cs => take c v :: split_by cs (drop c v) end.

Lemma length_split_by {A} cs : ∀ v : list A, length (split_by cs v) = length cs.
Proof. induction cs as [|c cs IH]; intros v; cbn; [done|]. by rewrite IH. Qed.
Lemma split_by_lookup {A} cs : ∀ (v : list A) j c, cs !! j = Some c →
  split_by cs v !! j = Some (take c (drop (sum_list (take j cs)) v)).
Proof.
  induction cs as [|c' cs IH]; intros v j c Hj; [done|]. destruct j as [|j]; cbn in Hj |- *; [by injection Hj as ->|].
  by rewrite (IH _ _ _ Hj), drop_drop.
Qed.
Lemma mjoin_split_by {A} cs : ∀ v : list A, length v = sum_list cs → mjoin (split_by cs v) = v.
Proof.
  induction cs as [|c cs IH]; intros v Hv; cbn in *; [by destruct v|]. rewrite IH by (rewrite length_drop; lia). apply take_drop.
Qed.
Lemma split_by_lengths {A} cs : ∀ v : list A, length v = sum_list cs → Forall2 (fun c p => length p = c) cs (split_by cs v).
Proof.
  induction cs as [|c cs IH]; intros v Hv; cbn in *; constructor; [rewrite length_take; lia|]. apply IH. rewrite length_drop. lia.
Qed.

Section Shares.
Context (bound k key : Z).
Hypothesis Hk : 0 < k < 2 ^ 20.
Hypothesis Hkey : 0 ≤ key.
Hypothesis Hkey' : key * 9973 < 2 ^ 31.
Hypothesis Hbound : 2 * k ≤ bound.

Lemma large_sorted (f : nat → nat) a m : StronglySorted lt (((fun i => (i, f i)) <$> seq a m).*1).
Proof.
  revert a. induction m as [|m IH]; intros a; cbn; constructor; [apply IH|]. apply Forall_forall. intros i Hi.
  apply list_elem_of_fmap in Hi as (s & -> & Hs). apply list_elem_of_fmap in Hs as (j & -> & Hj). apply elem_of_seq in Hj. cbn. lia.
Qed.

Lemma total_parts n l : (∀ i, i ∈ l → 0 ≤ part n k i) → Z.of_nat (total_of ((fun i => (i, Z.to_nat (part n k i))) <$> l)) = zsum (part n k <$> l).
Proof.
  unfold total_of. induction l as [|i l IH]; intros H; [done|]. rewrite !fmap_cons. unfold zsum in *. cbn [sum_list sum_list_with foldr fst snd].
  specialize (IH ltac:(intros; apply H; by right)). specialize (H i ltac:(by left)). cbn in *. lia.
Qed.

Lemma default_shares_ok n : 0 < n < 2 ^ 31 → shares_ok k (Z.to_nat n) (default_shares bound k key n).
Proof.
  intros Hn. unfold default_shares. destruct (Z.ltb_spec n bound) as [Hlt|Hge].
  - pose proof (Z.mod_pos_bound (key * 9973) k ltac:(lia)). split; cbn; [repeat constructor|repeat constructor; cbn; lia..|unfold total_of; cbn; lia].
  - split; [apply large_sorted|..].
    + apply Forall_fmap, Forall_forall. intros i Hi%elem_of_seq. cbn. lia.
    + apply Forall_fmap, Forall_forall. intros i Hi%elem_of_seq. cbn. pose proof (part_pos n k i ltac:(lia) Hk ltac:(lia) ltac:(lia)). lia.
    + apply Nat2Z.inj. rewrite total_parts; [rewrite part_sum by lia; lia|]. intros i Hi%elem_of_seq. pose proof (part_pos n k i ltac:(lia) Hk ltac:(lia) ltac:(lia)). lia.
Qed.

Lemma fresh_default_shares n nb : 0 < n → 0 < nb → n * nb < 2 ^ 31 →
  fresh_default bound (GetServerKeyRanges k) key n nb = Ok (spread k key nb (default_shares bound k key n)).
Proof.
  intros Hn Hnb Hsz. pose proof (width_large k Hk). pose proof (so_total _ _ _ (default_shares_ok n ltac:(nia))) as Ht. unfold spread. rewrite Ht. unfold default_shares.
  destruct (Z.ltb_spec n bound) as [Hlt|Hge].
  - unfold fresh_default. rewrite krs_length by done. chk. rewrite (proj2 (Z.ltb_lt _ _)) by lia.
    destruct (pick_server_ok k Hk key Hkey Hkey') as [-> Hr]. rstep.
    rewrite (rdz_ok _ _ _ (proj1 Hr) (krs_lookup k _ Hr)). rstep. rewrite checked_key_ok by lia. rstep.
    rewrite bytes_ok by lia. cbn. unfold server_key_of. cbn. rewrite !Z2Nat.id by lia. done.
  - rewrite fresh_default_large by lia. unfold parts_upto. rewrite Z2Nat.id, cut_last by lia. f_equal. f_equal.
    + by rewrite <- list_fmap_compose.
    + rewrite <- list_fmap_compose. apply list_fmap_ext. intros j i Hi. apply lookup_seq in Hi as [-> Hi]. cbn.
      pose proof (part_pos n k j ltac:(lia) Hk ltac:(lia) ltac:(lia)). rewrite Z2Nat.id by lia. done.
    + rewrite Z2Nat.id by lia. done.
Qed.
End Shares.

(** ** The slices of a spread key *)
Lemma lower_bound_eq l x : ∀ j, (j ≤ length l)%nat → Forall (fun y => y < x) (take j l) → (∀ y, l !! j = Some y → x ≤ y) → lower_bound l x = j.
Proof.
  induction l as [|z l IH]; intros j Hj Hlt Hge; cbn in *; [lia|]. destruct j as [|j]; cbn in *.
  - specialize (Hge z eq_refl). by rewrite (proj2 (Z.ltb_ge _ _)).
  - apply Forall_cons in Hlt as [Hz Hlt]. rewrite (proj2 (Z.ltb_lt _ _)) by done. f_equal. apply IH; [lia|done..].
Qed.

Lemma imap_pair_seq {A} (f : nat → A) : ∀ n, imap pair (f <$> seq 0 n) = (fun i => (i, f i)) <$> seq 0 n.
Proof.
  intros n. apply list_eq. intros j. rewrite list_lookup_imap, !list_lookup_fmap. destruct (seq 0 n !! j) as [i|] eqn:E; [|done].
  apply lookup_seq in E as [-> _]. done.
Qed.

Lemma strongly_sorted_lookup {A} (R : A → A → Prop) l : StronglySorted R l → ∀ i j x y, (i < j)%nat → l !! i = Some x → l !! j = Some y → R x y.
Proof.
  induction 1 as [|z l _ IH Hz]; intros i j x y Hlt Hi Hj; [done|]. destruct j as [|j]; [lia|]. destruct i as [|i]; cbn in Hi, Hj.
  - injection Hi as ->. rewrite Forall_forall in Hz. apply Hz. by eapply list_elem_of_lookup_2.
  - apply (IH i j); [lia|done..].
Qed.

(** Selecting a sorted list of indices. *)
Lemma omap_selected {B} (h : nat → B) : ∀ m a (l : list nat), StronglySorted lt l → Forall (fun i => (a ≤ i < a + m)%nat) l →
  omap (fun i => if bool_decide (i ∈ l) then Some (h i) else None) (seq a m) = h <$> l.
Proof.
  induction m as [|m IH]; intros a l Hs Hr; cbn [seq].
  { destruct l as [|x l]; [done|]. apply Forall_cons in Hr as [Hr _]. lia. }
  destruct l as [|x l].
  { cbn. clear. generalize (S a). induction m as [|m IH]; intros b; [done|]. apply IH. }
  apply StronglySorted_inv in Hs as [Hs Hx]. apply Forall_cons in Hr as [Hxr Hr]. rewrite Forall_forall in Hx, Hr. destruct (decide (x = a)) as [->|Hne].
  - cbn [omap list_omap]. rewrite bool_decide_eq_true_2 by (by left). cbn [fmap list_fmap]. f_equal. rewrite <- (IH (S a) l Hs).
    + apply list_omap_ext, Forall_Forall2_diag, Forall_forall. intros i Hi%elem_of_seq. rewrite (bool_decide_ext (i ∈ a :: l) (i ∈ l)); [done|]. rewrite elem_of_cons. split; [intros [->|?]; [lia|done]|by right].
    + apply Forall_forall. intros i Hi. specialize (Hx i Hi). specialize (Hr i Hi). lia.
  - cbn [omap list_omap]. rewrite bool_decide_eq_false_2; [|intros [->|Hin]%elem_of_cons; [done|specialize (Hx a Hin); lia]].
    apply IH; [constructor; [done|by apply Forall_forall]|]. constructor; [lia|]. apply Forall_forall. intros i Hi. specialize (Hx i Hi). specialize (Hr i Hi). lia.
Qed.

Section Slices.
Context (k key nb : Z) (n : nat) (sh : shares).
Hypothesis Hk : 0 < k < 2 ^ 20.
Hypothesis Hkey : 0 ≤ key < 2 ^ 31.
Hypothesis Hnb : 0 < nb.
Hypothesis Hsh : shares_ok k n sh.
Hypothesis Hne : sh ≠ [].
Hypothesis Hsz : Z.of_nat n * nb < 2 ^ 31.

Local Abbreviation ks := (pskv_keys (spread k key nb sh)).

Lemma share_before j j' i i' c c' : (j < j')%nat → sh !! j = Some (i, c) → sh !! j' = Some (i', c') → (i < i')%nat.
Proof.
  intros Hlt Hj Hj'. eapply (strongly_sorted_lookup _ (sh.*1) (so_sorted _ _ _ Hsh) j j'); [done|..]; rewrite list_lookup_fmap; [by rewrite Hj|by rewrite Hj'].
Qed.

Lemma share_kpos j i c : sh !! j = Some (i, c) → kpos k ks i = j ∧ kpos k ks (S i) = S j.
Proof.
  intros Hj. pose proof (width_large k Hk). assert (ks !! j = Some (server_key_of k key i)) as Hkj by (cbn; by rewrite list_lookup_fmap, Hj).
  pose proof (lookup_lt_Some _ _ _ Hkj) as Hlt. unfold server_key_of in Hkj. assert (∀ j' y, ks !! j' = Some y → ∃ i' c', sh !! j' = Some (i', c') ∧ y = width k * Z.of_nat i' + key) as Hks.
  { intros j' y Hy. cbn in Hy. apply list_lookup_fmap_Some in Hy as ([i' c'] & -> & Hy). by exists i', c'. }
  unfold kpos. split; apply lower_bound_eq; try lia.
  - apply Forall_forall. intros y (j' & Hy & Hj')%elem_of_take. apply Hks in Hy as (i' & c' & Hs & ->). pose proof (share_before _ _ _ _ _ _ Hj' Hs Hj). nia.
  - intros y Hy. rewrite Hkj in Hy. injection Hy as <-. nia.
  - apply Forall_forall. intros y (j' & Hy & Hj')%elem_of_take. apply Hks in Hy as (i' & c' & Hs & ->). destruct (decide (j' = j)) as [->|Hne'].
    + rewrite Hj in Hs. injection Hs as <- <-. nia.
    + pose proof (share_before j' j i' i c' c ltac:(lia) Hs Hj). nia.
  - intros y Hy. apply Hks in Hy as (i' & c' & Hs & ->). pose proof (share_before j (S j) i i' c c' ltac:(lia) Hj Hs). nia.
Qed.

Lemma share_sorted : StronglySorted Z.lt ks.
Proof.
  pose proof (so_sorted _ _ _ Hsh) as H'. clear -H' Hk Hkey. pose proof (width_large k Hk). cbn. induction sh as [|s l IH]; cbn in *; [constructor|].
  apply StronglySorted_inv in H' as [H1 H2]. constructor; [by apply IH|]. apply Forall_fmap. apply (Forall_fmap fst) in H2. eapply Forall_impl; [exact H2|].
  intros s' Hs'. cbn in Hs' |- *. unfold server_key_of. nia.
Qed.

Lemma share_flag i : negb (kpos k ks (S i) =? kpos k ks i)%nat = bool_decide (i ∈ sh.*1).
Proof.
  pose proof (width_large k Hk). case_bool_decide as Hin.
  - apply list_elem_of_fmap in Hin as ([i' c] & E & [j Hj]%list_elem_of_lookup). cbn in E. subst i'. destruct (share_kpos j i c Hj) as [-> ->]. by rewrite (proj2 (Nat.eqb_neq _ _)) by lia.
  - apply negb_false_iff, Nat.eqb_eq. destruct (decide (kpos k ks (S i) = kpos k ks i)) as [|Hneq]; [done|]. exfalso. apply Hin.
    pose proof (kpos_mono k ks Hk i) as Hm. pose proof (kpos_le k ks (S i)) as Hle. destruct (lookup_lt_is_Some_2 ks (kpos k ks i) ltac:(lia)) as [y Hy].
    pose proof Hy as Hy'. cbn in Hy. apply list_lookup_fmap_Some in Hy as ([i' c] & -> & Hs). unfold server_key_of in Hy'. cbn [fst] in Hy'.
    apply list_elem_of_fmap. exists (i', c). split; [|by eapply list_elem_of_lookup_2]. cbn.
    pose proof (lower_bound_after (width k * Z.of_nat i) ks share_sorted (kpos k ks i) _ ltac:(done) Hy'). 
    pose proof (lower_bound_before (width k * Z.of_nat (S i)) ks (kpos k ks i) _ ltac:(unfold kpos in *; lia) Hy'). nia.
Qed.

Lemma share_keys_range : Forall (fun x => 0 ≤ x < width k * k) ks.
Proof.
  pose proof (width_large k Hk). cbn. apply Forall_fmap. eapply Forall_impl; [apply Hsh|]. intros [i c] Hi. cbn in *. unfold server_key_of. nia.
Qed.

Lemma zsum_counts (l : shares) : zsum ((fun s => Z.of_nat s.2) <$> l) = Z.of_nat (total_of l).
Proof. unfold total_of. induction l as [|s l IH]; [done|]. rewrite !fmap_cons. unfold zsum in *. cbn in *. lia. Qed.

Lemma seg_share {A} (l : list A) j i c x : sh !! j = Some (i, c) → l !! j = Some x → seg l (kpos k ks) i = [x].
Proof.
  intros Hj Hx. unfold seg. destruct (share_kpos j i c Hj) as [-> ->]. replace (S j - j)%nat with 1%nat by lia. rewrite (drop_S _ _ _ Hx). done.
Qed.

(** The message with [part] for server [i]. *)
Definition share_msg (i : nat) (part : list float) : KVPairs :=
  {| kv_keys := [server_key_of k key i]; kv_lens := [Z.of_nat (length part) * nb]; kv_vals := Vals part |}.

Lemma slice_shares v : length v = n →
  ∃ f, slice_message k nb {| kv_keys := ks; kv_lens := pskv_lens (spread k key nb sh); kv_vals := Vals v |} = Ok (f <$> seq 0 (Z.to_nat k)) ∧
    (∀ i, (f i).1 = bool_decide (i ∈ sh.*1)) ∧
    (∀ j i c, sh !! j = Some (i, c) → (f i).2 = share_msg i (take c (drop (sum_list (take j sh.*2)) v))).
Proof.
  intros Hv. set (ls := (fun s : nat * nat => Z.of_nat s.2) <$> sh). set (send := Build_KVs float ks v ls). pose proof (so_total _ _ _ Hsh) as Ht.
  exists (fun i => of_slice Vals nb (slice_of k send i)). split_and!.
  - unfold slice_message, slice_values. cbn [kv_vals kv_lens kv_keys].
    assert (forallb (fun x => Z.rem x nb =? 0) (pskv_lens (spread k key nb sh)) = true) as ->.
    { apply forallb_forall. intros x Hx%list_elem_of_In. cbn in Hx. apply list_elem_of_fmap in Hx as (s & -> & _). rewrite Z.rem_mul by lia. done. }
    assert (map (fun x => Z.quot x nb) (pskv_lens (spread k key nb sh)) = ls) as ->.
    { cbn. unfold ls. change (map (fun x => Z.quot x nb) ?l) with ((fun x => Z.quot x nb) <$> l). rewrite <- list_fmap_compose. apply list_fmap_ext. intros j s _. cbn. by rewrite Z.quot_mul by lia. }
    fold send. rewrite (DefaultSlicer_spec k send); cbn [keys lens vals send].
    + rstep. f_equal. unfold fmap. by rewrite <- list_fmap_compose.
    + done.
    + apply share_sorted.
    + apply share_keys_range.
    + cbn. by destruct sh.
    + unfold ls. cbn. by rewrite !length_fmap.
    + apply Forall_fmap, Forall_forall. intros s _. cbn. lia.
    + unfold ls. rewrite zsum_counts. lia.
    + unfold ls. rewrite zsum_counts. nia.
  - intros i. cbn [fst of_slice slice_of]. apply share_flag.
  - intros j i c Hj. unfold of_slice, slice_of, share_msg. cbn [snd keys lens vals send].
    rewrite (seg_share ks j i c (server_key_of k key i) Hj) by (cbn; by rewrite list_lookup_fmap, Hj).
    rewrite (seg_share ls j i c (Z.of_nat c) Hj) by (unfold ls; by rewrite list_lookup_fmap, Hj).
    assert (sh.*2 !! j = Some c) as Hc by (by rewrite list_lookup_fmap, Hj).
    assert (∀ m, Z.to_nat (zsum (take m ls)) = sum_list (take m sh.*2)) as Hz.
    { intros m. unfold ls. rewrite <- fmap_take, zsum_counts, Nat2Z.id. unfold total_of. by rewrite fmap_take. }
    assert (seg v (vpos k send) i = take c (drop (sum_list (take j sh.*2)) v)) as ->.
    { unfold seg, vpos. cbn [keys lens send]. destruct (share_kpos j i c Hj) as [-> ->]. rewrite !Hz, (take_S_r _ _ _ Hc), sum_list_with_app. cbn. f_equal. lia. }
    assert (length (take c (drop (sum_list (take j sh.*2)) v)) = c) as ->; [|done].
    rewrite length_take, length_drop, Hv, <- Ht. unfold total_of.
    pose proof (f_equal sum_list (take_drop_middle _ _ _ Hc)) as E. rewrite sum_list_with_app in E. cbn in E. cbn. lia.
Qed.

(** A request without values. *)
Lemma slice_share_keys :
  ∃ f, slice_message k 1 {| kv_keys := ks; kv_lens := []; kv_vals := Vals [] |} = Ok (f <$> seq 0 (Z.to_nat k)) ∧
    (∀ i, (f i).1 = bool_decide (i ∈ sh.*1)) ∧
    (∀ j i c, sh !! j = Some (i, c) → (f i).2 = {| kv_keys := [server_key_of k key i]; kv_lens := []; kv_vals := Vals [] |}).
Proof.
  exists (fun i => of_slice Vals 1 (key_slice k ks i)). split_and!.
  - unfold slice_message, slice_values. cbn [kv_vals kv_lens kv_keys forallb map].
    rewrite (key_slicer_spec k ks); [|done|apply share_sorted|apply share_keys_range|cbn; by destruct sh].
    rstep. f_equal. unfold fmap. by rewrite <- list_fmap_compose.
  - intros i. cbn [fst of_slice key_slice]. apply share_flag.
  - intros j i c Hj. unfold of_slice, key_slice. cbn [snd keys lens vals].
    by rewrite (seg_share ks j i c (server_key_of k key i) Hj) by (cbn; by rewrite list_lookup_fmap, Hj).
Qed.

(** What [Send] puts on the wire. *)
Lemma selected_slices {B} (f : nat → bool * KVPairs) (g : nat → KVPairs → B) : (∀ i, (f i).1 = bool_decide (i ∈ sh.*1)) →
  omap (fun '(i, (nonempty, kv)) => if nonempty : bool then Some (g i kv) else None) (imap pair (f <$> seq 0 (Z.to_nat k))) =
    (fun s => g s.1 (f s.1).2) <$> sh.
Proof.
  intros Hf. rewrite imap_pair_seq. transitivity ((fun i => g i (f i).2) <$> sh.*1); [|by rewrite <- list_fmap_compose].
  rewrite <- (omap_selected (fun i => g i (f i).2) (Z.to_nat k) 0 (sh.*1)); [|apply Hsh|apply Forall_fmap; eapply Forall_impl; [apply Hsh|cbn; lia]].
  clear -Hf. induction (seq 0 (Z.to_nat k)) as [|i l IH]; [done|]. cbn. specialize (Hf i). destruct (f i) as [b kv]. cbn [fst snd] in *. rewrite <- Hf. destruct b; cbn; by rewrite IH.
Qed.

Lemma skipped_shares (f : nat → bool * KVPairs) : (∀ i, (f i).1 = bool_decide (i ∈ sh.*1)) →
  (skipped (f <$> seq 0 (Z.to_nat k)) + length sh = Z.to_nat k)%nat.
Proof.
  intros Hf. pose proof (selected_slices f (fun _ _ => tt) Hf) as E. apply (f_equal length) in E. rewrite length_fmap in E. rewrite <- E, imap_pair_seq.
  clear -Hf. unfold skipped. transitivity (length (seq 0 (Z.to_nat k))); [|apply length_seq]. induction (seq 0 (Z.to_nat k)) as [|i l IH]; [done|].
  cbn. destruct (f i) as [[] kv]; cbn; lia.
Qed.
End Slices.

(** ** Runs of the worker *)
Definition add_out (l : list waction) (s : KVStoreDist) : KVStoreDist := ltac:(set_field (Dist_eta s) (w_outbox s) (w_outbox s ++ l)).
Definition with_devices (c : CommCPU) (s : KVStoreDist) : KVStoreDist := set_base (set_comm c (base s)) s.
Definition devices (s : KVStoreDist) : CommCPU := comm_ (base s).

Lemma add_out_nil s : add_out [] s = s.
Proof. destruct s. unfold add_out, Dist_eta. cbn. by rewrite app_nil_r. Qed.
Lemma add_out_app l1 l2 s : add_out l2 (add_out l1 s) = add_out (l1 ++ l2) s.
Proof. unfold add_out, Dist_eta. cbn. by rewrite <- app_assoc. Qed.
Lemma with_devices_id s : with_devices (devices s) s = s.
Proof. destruct s as [b]. destruct b. done. Qed.

Lemma on_devices_run {A} (m : st CommCPU A) s x c : m (devices s) = Ok (x, c) → on_devices m s = Ok (x, with_devices c s).
Proof. intros E. unfold on_devices, on_base, on_comm. unfold devices in E. by rewrite E. Qed.
Lemma on_devices_read s a x : c_read a (devices s) = Ok (x, devices s) → on_devices (c_read a) s = Ok (x, s).
Proof. intros E. by rewrite (on_devices_run _ _ _ _ E), with_devices_id. Qed.
Lemma read_dense_run s m x : cell (devices s) m = Some x → read_dense (Some m) s = Ok (x, s).
Proof. intros H. unfold read_dense. by rewrite (st_bind_Ok _ _ _ _ _ (on_devices_read s (dns m) _ (read_dns _ _ _ H))). Qed.

Section Sends.
Context (env : Env).

(** What [Send] puts on the wire for the slices of a request. *)
Definition wire (ts : Z) (push : bool) (cmd uniq_key version num_merge : Z) (i : nat) (kv : KVPairs) : waction :=
  WSend false {| wm_recver := ServerRankToID (Z.of_nat i) false; wm_push := push; wm_cmd := cmd; wm_timestamp := ts; wm_key := uniq_key;
                 wm_version := version; wm_iters := num_merge; wm_data := kv |}.

Lemma worker_send_run ts push cmd bytes kvs uniq_key version num_merge s sliced t :
  slice_message (num_servers env) bytes kvs = Ok sliced → AddResponse (w_tracker_ s) ts (Z.of_nat (skipped sliced)) = Ok t →
  worker_send env ts push cmd bytes kvs uniq_key version kEmpty num_merge false s =
    Ok (tt, add_out (omap (fun '(i, (nonempty, kv)) => if nonempty : bool then Some (wire ts push cmd uniq_key version num_merge i kv) else None) (imap pair sliced)) (set_w_tracker t s)).
Proof.
  intros Hs Ht. unfold worker_send. rewrite (lift_bind _ _ _ _ Hs), gets_bind, (lift_bind _ _ _ _ Ht), modify_bind. generalize (set_w_tracker t s) as s0. clear.
  generalize (imap pair sliced) as l. induction l as [|[i [[] kv]] l IH]; intros s; cbn [for_each omap list_omap].
  - by rewrite add_out_nil.
  - erewrite st_bind_Ok by reflexivity. cbv beta iota. rewrite IH. f_equal. f_equal. exact (add_out_app [_] _ s).
  - erewrite st_bind_Ok by reflexivity. apply IH.
Qed.

Context (key nb : Z) (n : nat) (sh : shares).
Local Abbreviation k := (num_servers env).
Hypothesis Hk : 0 < k < 2 ^ 20.
Hypothesis Hkey : 0 ≤ key < 2 ^ 31.
Hypothesis Hnb : 0 < nb.
Hypothesis Hsh : shares_ok k n sh.
Hypothesis Hne : sh ≠ [].
Hypothesis Hsz : Z.of_nat n * nb < 2 ^ 31.

(** The request for which all servers without a share count as having answered. *)
Definition sent_tracker (t : tracker) : tracker := t ++ [(k, k - Z.of_nat (length sh))].

(** The messages of a push of [v]. *)
Definition push_msgs (ts d : Z) (v : list float) : list waction :=
  zip_with (fun s part => wire ts true (GetCommandType kDefaultPushPull d) key 0 1 s.1 (share_msg k key nb s.1 part)) sh (split_by sh.*2 v).
(** The messages of a pull. *)
Definition pull_msgs (ts cmd : Z) : list waction :=
  (fun s => wire ts false cmd kEmpty kEmpty 1 s.1 {| kv_keys := [server_key_of k key s.1]; kv_lens := []; kv_vals := Vals [] |}) <$> sh.

Lemma add_skipped f t : (∀ i : nat, (f i : bool * KVPairs).1 = bool_decide (i ∈ sh.*1)) →
  AddResponse (t ++ [(k, 0)]) (Z.of_nat (length t)) (Z.of_nat (skipped (f <$> seq 0 (Z.to_nat k)))) = Ok (sent_tracker t).
Proof.
  intros Hf. pose proof (skipped_shares k key n sh Hkey Hsh f Hf) as E. rewrite AddResponse_last by lia. unfold sent_tracker. do 4 f_equal. lia.
Qed.

Lemma push_sends ts d v s t : length v = n → w_tracker_ s = t ++ [(k, 0)] → ts = Z.of_nat (length t) →
  worker_send env ts true (GetCommandType kDefaultPushPull d) nb
    {| kv_keys := pskv_keys (spread k key nb sh); kv_lens := pskv_lens (spread k key nb sh); kv_vals := Vals v |} key 0 kEmpty 1 false s =
    Ok (tt, add_out (push_msgs ts d v) (set_w_tracker (sent_tracker t) s)).
Proof.
  intros Hv Ht ->. destruct (slice_shares k key nb n sh Hk Hkey Hnb Hsh Hne Hsz v Hv) as (f & Ef & Hf1 & Hf2).
  rewrite (worker_send_run _ _ _ _ _ _ _ _ s _ (sent_tracker t) Ef) by (rewrite Ht; by apply add_skipped). do 3 f_equal.
  rewrite (selected_slices k key n sh Hkey Hsh f _ Hf1). unfold push_msgs. apply list_eq. intros j. rewrite list_lookup_fmap, lookup_zip_with.
  destruct (sh !! j) as [[i c]|] eqn:Hj; [|done]. cbn [fmap option_fmap option_map mbind option_bind]. rewrite (split_by_lookup sh.*2 v j c) by (by rewrite list_lookup_fmap, Hj).
  cbn. by rewrite (Hf2 _ _ _ Hj).
Qed.

Lemma pull_sends ts cmd s t : w_tracker_ s = t ++ [(k, 0)] → ts = Z.of_nat (length t) →
  worker_send env ts false cmd 1 {| kv_keys := pskv_keys (spread k key nb sh); kv_lens := []; kv_vals := Vals [] |} kEmpty kEmpty kEmpty 1 false s =
    Ok (tt, add_out (pull_msgs ts cmd) (set_w_tracker (sent_tracker t) s)).
Proof.
  intros Ht ->. destruct (slice_share_keys k key nb n sh Hk Hkey Hsh Hne) as (f & Ef & Hf1 & Hf2).
  rewrite (worker_send_run _ _ _ _ _ _ _ _ s _ (sent_tracker t) Ef) by (rewrite Ht; by apply add_skipped). do 3 f_equal.
  rewrite (selected_slices k key n sh Hkey Hsh f _ Hf1). unfold pull_msgs. apply list_fmap_ext. intros j [i c] Hj. cbn. by rewrite (Hf2 _ _ _ Hj).
Qed.
End Sends.

(** Server [i] of a data center with [k] servers, and what it makes of a message. *)
Definition server_of (k : Z) (env : Env) (i : nat) : Prop := is_global_server env = false ∧ num_servers env = k ∧ my_rank env = Z.of_nat i.
Definition meta_of (sender : Z) (m : WMsg) : KVMeta :=
  {| m_cmd := wm_cmd m; m_push := wm_push m; m_sender := sender; m_timestamp := wm_timestamp m; m_customer_id := 0; m_key := wm_key m;
     m_version := wm_version m; m_num_merge := wm_iters m; m_app_id := 0 |}.

Section Worker.
Context (env : Env).
Context (key d nb : Z) (n : nat).
Local Abbreviation k := (num_servers env).
Local Abbreviation sh := (default_shares (bigarray_bound_ env) k key (Z.of_nat n)).
Local Abbreviation pskv := (spread k key nb sh).
Hypothesis Hk : 0 < k < 2 ^ 20.
Hypothesis Hkey : 0 ≤ key.
Hypothesis Hkey' : key * 9973 < 2 ^ 31.
Hypothesis Hbound : 2 * k ≤ bigarray_bound_ env.
Hypothesis Hreal : is_real_type d = true.
Hypothesis Hnb : mshadow_sizeof d = Ok nb.
Hypothesis Hn : (0 < n)%nat.
Hypothesis Hsz : Z.of_nat n * nb < 2 ^ 31.
Hypothesis Hp3 : enable_p3 env = false.
Hypothesis Hts : enable_intra_ts env = false.

Lemma nb_pos : 0 < nb.
Proof. by apply (sizeof_real d). Qed.
Lemma sh_ok : shares_ok k n sh.
Proof. pose proof nb_pos as Hp. clear -Hk Hkey Hkey' Hbound Hn Hsz Hp. assert (shares_ok k (Z.to_nat (Z.of_nat n)) sh) as H1 by (apply default_shares_ok; done || nia). by rewrite Nat2Z.id in H1. Qed.
Lemma sh_nonempty : sh ≠ [].
Proof. intros E. pose proof (so_total _ _ _ sh_ok) as H1. rewrite E in H1. cbn in H1. lia. Qed.

(** The key has not been encoded yet, or as it is now. *)
Definition encoded (s : KVStoreDist) : Prop := w_ps_kv_ s !! key = None ∨ w_ps_kv_ s !! key = Some pskv.

Lemma encode_default_run s : encoded s → encode_default_key env key (Z.of_nat n) nb s = Ok (pskv, set_w_ps_kv (<[key := pskv]> (w_ps_kv_ s)) s).
Proof.
  intros He. pose proof nb_pos. pose proof sh_ok as Hs. assert (pskv_keys pskv ≠ []) as Hnil by (cbn; pose proof sh_nonempty; by destruct sh).
  assert (pskv_size pskv = Z.of_nat n * nb) as Hsize by (cbn; by rewrite (so_total _ _ _ Hs)).
  unfold encode_default_key. rewrite gets_bind. rewrite (lift_bind _ _ (<[key := pskv]> (w_ps_kv_ s), pskv)); [done|]. unfold EncodeDefaultKey. destruct He as [He|He].
  - unfold encode_default. rewrite He. cbn [default from_option PSKV_empty pskv_keys]. rewrite bool_decide_eq_false_2 by (intros H1; by apply H1).
    rewrite fresh_default_shares by (done || lia). rstep. rewrite Hsize, !u64_id by nia. by rewrite Z.eqb_refl.
  - rewrite (encode_default_hit _ _ _ _ _ _ pskv He Hnil), Hsize, !u64_id by nia. rewrite Z.eqb_refl. cbn. by rewrite insert_id.
Qed.

Definition uncompressed (gc : GradientCompression) : bool := is_type gc kNone || is_type gc kBiSparseCompression.

(** Every message is a push of a part that its server accepts for [key]. *)
Lemma share_decoded env' i c : server_of k env' i → (i, c) ∈ sh → decode_key env' (server_key_of k key i) (is_global_server env') = Ok key.
Proof.
  intros (-> & Hs & Hr) Hin. unfold decode_key. rewrite Hs, Hr. apply DecodeKey_ok; [|lia].
  pose proof (so_range _ _ _ sh_ok) as H1. rewrite Forall_forall in H1. specialize (H1 _ Hin). cbn in H1. lia.
Qed.

Lemma part_bound (v : list float) (i c : nat) part : length v = n → (i, c, part) ∈ zip sh (split_by sh.*2 v) → length part = c ∧ (i, c) ∈ sh ∧ (c ≤ n)%nat.
Proof.
  intros Hv Hin. apply list_elem_of_lookup in Hin as [j Hj]. apply lookup_zip_with_Some in Hj as ([i0 c0] & p & E & Hs & Hp). injection E as <- <- <-.
  pose proof (split_by_lengths sh.*2 v ltac:(rewrite Hv; symmetry; apply (so_total _ _ _ sh_ok))) as HF.
  destruct (Forall2_lookup_r _ _ _ _ _ HF Hp) as (c' & Hc' & Hl). rewrite list_lookup_fmap, Hs in Hc'. cbn in Hc'. injection Hc' as <-. split; [done|]. split; [by eapply list_elem_of_lookup_2|].
  pose proof (f_equal length (mjoin_split_by sh.*2 v ltac:(rewrite Hv; symmetry; apply (so_total _ _ _ sh_ok)))) as E. rewrite Hv in E.
  rewrite <- (take_drop_middle _ _ _ Hp), join_app, length_app in E. cbn in E. rewrite length_app in E. cbn in Hl. lia.
Qed.

Lemma share_push_of env' ts sender v i c part : server_of k env' i → Z.rem sender 2 = 1 → length v = n → (i, c, part) ∈ zip sh (split_by sh.*2 v) →
  push_of env' d key
    {| m_cmd := GetCommandType kDefaultPushPull d; m_push := true; m_sender := sender; m_timestamp := ts; m_customer_id := 0; m_key := key;
       m_version := 0; m_num_merge := 1; m_app_id := 0 |} (share_msg k key nb i part) part.
Proof.
  intros Hs Hsd Hv Hin. pose proof nb_pos. destruct (part_bound v i c part Hv Hin) as (Hl & Hin' & Hle). split; try done.
  - exists nb. split; [done|]. split; [done|]. nia.
  - exists (server_key_of k key i). split; [done|]. by apply (share_decoded env' i c).
Qed.

(** ** A pull *)

(** The answers of the servers with shares, when server [i] holds [us !! i]. *)
Definition share_answers (us : list (list float)) : list (KVs float) :=
  zip_with (fun s u => Build_KVs float [server_key_of k key s.1] u [Z.of_nat s.2 * nb]) sh us.

Lemma answers_fields us : length us = length sh →
  mjoin (KVApp.keys <$> share_answers us) = pskv_keys pskv ∧ mjoin (KVApp.lens <$> share_answers us) = pskv_lens pskv ∧ mjoin (KVApp.vals <$> share_answers us) = mjoin us.
Proof.
  unfold share_answers. cbn [pskv_keys pskv_lens spread]. generalize sh. intros l. revert us. induction l as [|s l IH]; intros us Hl; destruct us as [|u us]; try done.
  destruct (IH us) as (E1 & E2 & E3); [by injection Hl|]. cbn. split_and!; [f_equal; exact E1|f_equal; exact E2|f_equal; exact E3].
Qed.

Lemma pull_answered us arrival : Forall2 (fun (s : nat * nat) u => length u = s.2) sh us → arrival ≡ₚ share_answers us →
  pull_callback {| cb_keys := pskv_keys pskv; cb_vals_size := n; cb_lens_size := Some (length (pskv_lens pskv)) |} arrival = Ok (mjoin us, Some (pskv_lens pskv)).
Proof.
  intros Hus Hp. destruct (answers_fields us) as (E1 & E2 & E3); [symmetry; by eapply Forall2_length|].
  set (args := {| cb_keys := _; cb_vals_size := _; cb_lens_size := _ |}). rewrite (pull_callback_spec args (share_answers us)).
  - by rewrite E2, E3.
  - apply (share_sorted k key nb n sh Hk ltac:(lia) sh_ok).
  - cbn [cb_keys args]. eapply Forall_impl; [apply (share_keys_range k key nb n sh Hk ltac:(lia) sh_ok)|]. intros x Hx. cbn in Hx. pose proof (width_mul k Hk (k - 1) ltac:(lia)) as [_ Hw].
    replace (k - 1 + 1) with k in Hw by lia. unfold kMaxKey in Hw. lia.
  - exact E1.
  - unfold share_answers. clear. generalize sh. intros l. revert us. induction l as [|s l IH]; intros [|u us]; cbn; constructor; [done|apply IH].
  - unfold share_answers. clear. generalize sh. intros l. revert us. induction l as [|s l IH]; intros [|u us]; cbn; constructor; [by right|apply IH].
  - done.
  - right. cbn [cb_vals_size args]. rewrite E3. rewrite <- (so_total _ _ _ sh_ok). unfold total_of. clear -Hus. induction Hus as [|s u l us Hs _ IH]; [done|].
    cbn in *. rewrite length_app. f_equal; [by rewrite Hs|exact IH].
  - intros m [= <-]. right. cbn. by rewrite !length_fmap.
Qed.

Lemma uncompressed_two_bit gc : uncompressed gc = true → is_type gc kTwoBit = false ∧ pull_mode gc = Ok kDefaultPushPull.
Proof.
  unfold uncompressed, pull_mode, is_type. intros H1. apply orb_true_iff in H1 as [H1|H1]; apply Z.eqb_eq in H1; rewrite H1; done.
Qed.

Context (answers : Z → list (KVs float)).

Definition pulled (m : nat) (us : list (list float)) (s : KVStoreDist) : KVStoreDist :=
  with_devices (put_cell m {| ch_dtype := d; ch_data := mjoin us |} (devices s))
    (add_out (pull_msgs env key sh (Z.of_nat (length (w_tracker_ s))) (GetCommandType kDefaultPushPull d))
      (set_w_tracker (sent_tracker env sh (w_tracker_ s)) (set_w_ps_kv (<[key := pskv]> (w_ps_kv_ s)) s))).

Lemma pull_from_servers_run s m old us :
  cell (devices s) m = Some {| ch_dtype := d; ch_data := old |} → length old = n → uncompressed (w_gc_ s) = true → encoded s →
  Forall2 (fun (s : nat * nat) u => length u = s.2) sh us → answers (Z.of_nat (length (w_tracker_ s))) ≡ₚ share_answers us →
  pull_from_servers env answers key (Some m) s = Ok (tt, pulled m us s).
Proof.
  intros Hc Hold Hgc He Hus Hans. destruct (uncompressed_two_bit _ Hgc) as [H2 Hmode]. unfold pull_from_servers.
  rewrite (st_bind_Ok _ _ _ _ _ (read_dense_run s m _ Hc)). cbn [ch_dtype ch_data]. rewrite (lift_bind _ _ _ _ Hnb), gets_bind, H2, Hold.
  rewrite (st_bind_Ok _ _ s pskv _ (encode_default_run s He)). set (s1 := set_w_ps_kv _ s). rewrite (lift_bind _ _ _ _ Hmode), Hts. cbn [andb].
  pose (s2 := add_out (pull_msgs env key sh (Z.of_nat (length (w_tracker_ s))) (GetCommandType kDefaultPushPull d)) (set_w_tracker (sent_tracker env sh (w_tracker_ s)) s1)).
  rewrite (st_bind_Ok _ _ s1 (mjoin us, pskv_lens pskv) s2).
  2:{ unfold ZPull, new_request. rewrite (st_bind_Ok _ _ s1 (Z.of_nat (length (w_tracker_ s))) (set_w_tracker (w_tracker_ s ++ [(k, 0)]) s1)) by done.
      rewrite (st_bind_Ok _ _ _ _ _ (pull_sends env key nb n sh Hk ltac:(lia) sh_ok sh_nonempty _ _ (set_w_tracker (w_tracker_ s ++ [(k, 0)]) s1) (w_tracker_ s) eq_refl eq_refl)).
      rewrite (lift_bind _ _ _ _ (pull_answered us _ Hus Hans)). done. }
  rewrite (proj2 (Nat.eqb_neq n 0)) by lia. cbn [negb when fst snd].
  rewrite (st_bind_Ok _ _ s2 tt (with_devices (put_cell m {| ch_dtype := d; ch_data := mjoin us |} (devices s)) s2)).
  2:{ apply on_devices_run. change (devices s2) with (devices s). unfold c_on_heap. by rewrite (store_data_put _ _ _ Hc). }
  unfold set_pull_lens, modify, pulled. subst s2 s1. f_equal. f_equal. unfold set_w_ps_kv, with_devices, add_out, set_w_tracker, set_base, Dist_eta. cbn. f_equal.
  apply map_eq. intros i. destruct (decide (i = key)) as [->|Hi]; [|by rewrite lookup_alter_ne by done]. rewrite lookup_alter_eq, !lookup_insert_eq. done.
Qed.

(** ** A push *)
Context (nthread_reduction : Z) (order : nat → list nat) (is_serial_push_ : bool) (max_threads : nat).

Definition pushed (m : nat) (c : CommCPU) (v : list float) (s : KVStoreDist) : KVStoreDist :=
  add_out (push_msgs env key nb sh (Z.of_nat (length (w_tracker_ s))) d v)
    (set_w_tracker (sent_tracker env sh (w_tracker_ s)) (set_w_ps_kv (<[key := pskv]> (w_ps_kv_ s)) (set_comm_buf (<[key := dns m]> (w_comm_buf_ s)) (with_devices c s)))).

(** [merged] is the array of the sum, or the first array when the key is initialised. *)
Lemma push_key_run (do_merge : bool) vals s m c v :
  (if do_merge then Reduce (bigarray_bound_ env) nthread_reduction order is_serial_push_ max_threads key vals (devices s) = Ok (dns m, c)
   else rd vals 0 = Ok (dns m) ∧ c = devices s) →
  cell c m = Some {| ch_dtype := d; ch_data := v |} → length v = n → uncompressed (w_gc_ s) = true → encoded s →
  push_key env nthread_reduction order is_serial_push_ max_threads answers do_merge key vals s = Ok (tt, pushed m c v s).
Proof.
  intros Hm Hc Hv Hgc He. unfold push_key.
  rewrite (st_bind_Ok _ _ s (dns m) (with_devices c s)).
  2:{ destruct do_merge; [by apply on_devices_run|]. destruct Hm as [Hm ->]. rewrite with_devices_id. unfold lift. by rewrite Hm. }
  rewrite modify_bind. set (s1 := set_comm_buf _ _). assert (cell (devices s1) m = Some {| ch_dtype := d; ch_data := v |}) as Hc1 by exact Hc.
  rewrite (st_bind_Ok _ _ _ _ _ (on_devices_read s1 (dns m) _ (read_dns _ _ _ Hc1))), gets_bind. unfold dns. cbv beta iota. cbn [ch_dtype ch_data].
  rewrite (lift_bind _ _ _ _ Hnb). change (w_gc_ s1) with (w_gc_ s). unfold uncompressed in Hgc. rewrite Hgc, Hp3, Hv. rewrite (st_bind_Ok _ _ s1 pskv _ (encode_default_run s1 He)).
  set (s2 := set_w_ps_kv _ s1). unfold PushDefault. rewrite (st_bind_Ok _ _ _ _ _ (read_dense_run s2 m _ Hc1)). cbn [ch_dtype ch_data].
  rewrite (lift_bind _ _ _ _ Hnb), Hp3. unfold ZPush, new_request. rewrite Hts. cbn [andb].
  rewrite (st_bind_Ok _ _ s2 (Z.of_nat (length (w_tracker_ s))) (set_w_tracker (w_tracker_ s ++ [(k, 0)]) s2)) by done.
  rewrite (push_sends env key nb n sh Hk ltac:(lia) nb_pos sh_ok sh_nonempty Hsz _ d v _ (w_tracker_ s)) by done. done.
Qed.

End Worker.
