(* ===== verification/DataCenter.v ===== *)
(** * A data center: workers and their servers together

    The workers of a data center push a key: every server adds up the workers' shares and
    passes the sum on to the global servers; the workers pull and find the new value on all
    their devices.  Composes [KVStoreDist] (DistWorkerSpec.v) with the servers
    (LocalServer.v, ServerSpec.v); sources: src/src/kvstore/kvstore_dist.h and
    src/src/kvstore/kvstore_dist_server.h. *)

From Stdlib Require Import SpecFloat Sorted.
From stdpp Require Import sorting.
From S2P Require Import Prelude StdAlgo Floats Sparse Command Text Postoffice Customer TwoBit GradientCompression KeyEncoding KVApp NDArray SparseOps Comm KVStoreLocal LocalStoreSpec ServerState DistServer ServerSpec RowSparseServer LocalServer DistWorker DistWorkerSpec.
Local Open Scope Z_scope.

(** ** Adding up the devices of a worker *)

(** The sum that is pushed: a single array is pushed as it is. *)
Definition device_sum (d : Z) (vs : list (list float)) : list float := match vs with [v] => v | _ => reduced d vs end.

Lemma length_device_sum d (n : nat) vs : vs ≠ [] → Forall (fun v => length v = n) vs → length (device_sum d vs) = n.
Proof.
  intros Hne Hl. destruct vs as [|v [|w vs]]; [done|by apply Forall_cons in Hl as [? _]|]. cbn [device_sum]. rewrite length_reduced. by apply Forall_cons in Hl as [? _].
Qed.

Lemma Reduce_any bound nthread_reduction order is_serial_push_ max_threads c key e d (n m : nat) L as_ vs :
  0 < bound → (∀ n, order n ≡ₚ seq 0 n) → heap_wf (c_heap c) → entry_ok c key e d n m L → as_ ≠ [] → (L = [] ∨ (length as_ - 1 ≤ length L)%nat) →
  Forall2 (fun a v => cell c a = Some {| ch_dtype := d; ch_data := v |} ∧ length v = n) as_ vs → (∀ a, a ∈ as_ → a ∉ m :: L) →
  ∃ m' c', Reduce bound nthread_reduction order is_serial_push_ max_threads key (dns <$> as_) c = Ok (dns m', c') ∧
    heap_wf (c_heap c') ∧ cell c' m' = Some {| ch_dtype := d; ch_data := device_sum d vs |} ∧
    (∀ i, (i < next_cell (c_heap c))%nat → i ∉ m :: L → cell c' i = cell c i).
Proof.
  intros Hb Ho Hwf He Hne HL Has Hdis. destruct Has as [|a v as_ vs (Ha & Hlv) Has]; [done|]. destruct as_ as [|a2 as_].
  - apply Forall2_nil_inv_l in Has as ->. exists a, c. split; [|done]. unfold Reduce. rewrite (st_bind_Ok _ _ _ _ _ (get_entry_ok c key e (eo_entry _ _ _ _ _ _ _ He))). done.
  - set (mk := fun v => {| ch_dtype := d; ch_data := v |}).
    destruct (Reduce_ok bound nthread_reduction order is_serial_push_ max_threads Hb Ho c key e d n m L (a :: a2 :: as_) (mk <$> v :: vs)) as (c' & L' & E & Hwf' & _ & _ & _ & _ & _ & Hfr & Hm); try done.
    + cbn. lia.
    + cbn. constructor; [done|]. clear -Has. induction Has as [|b w l vs [Hb Hw] _ IH]; cbn; by constructor.
    + exists m, c'. split; [done|]. split; [done|]. split; [|done]. rewrite Hm. f_equal. f_equal. unfold mk. rewrite <- list_fmap_compose.
      assert (∀ l : list (list float), (ch_data ∘ (fun v => {| ch_dtype := d; ch_data := v |})) <$> l = l) as El by (intros l; induction l as [|x l IH]; [done|]; cbn; by f_equal).
      rewrite El. destruct vs; [by apply Forall2_length in Has|done].
Qed.

(** The arrays of a call come in an order chosen by the sort. *)
Lemma fmap_perm {A B} (f : A → B) l g : g ≡ₚ f <$> l → ∃ l', g = f <$> l' ∧ l' ≡ₚ l.
Proof. intros Hp. destruct (Permutation_map_inv f l Hp) as (l' & E & Hl). by exists l'. Qed.

Lemma cells_perm {A B} (P : A → B → Prop) l1 l2 l1' : Forall2 P l1 l2 → l1' ≡ₚ l1 → ∃ l2', Forall2 P l1' l2' ∧ l2' ≡ₚ l2.
Proof. intros HF Hp. destruct (Permutation_Forall2 (Permutation_sym Hp) HF) as (l2' & H1 & H2). by exists l2'. Qed.

(** ** A worker that is ready to push *)

(** [n] elements of type [d], of [nb] bytes each, under [key], for [k] servers. *)
Record key_ok (k bound key d nb : Z) (n : nat) : Prop := {
  ko_servers : 0 < k < 2 ^ 20;
  ko_key : 0 ≤ key;
  ko_key' : key * 9973 < 2 ^ 31;
  ko_bound : 2 * k ≤ bound;
  ko_real : is_real_type d = true;
  ko_bytes : mshadow_sizeof d = Ok nb;
  ko_pos : (0 < n)%nat;
  ko_size : Z.of_nat n * nb < 2 ^ 31
}.

(** A worker of the data center. *)
Record worker_env (k bound : Z) (env : Env) : Prop := {
  we_servers : num_servers env = k;
  we_bound : bigarray_bound_ env = bound;
  we_p3 : enable_p3 env = false;
  we_ts : enable_intra_ts env = false;
  we_rank : 0 ≤ my_rank env
}.

(** The worker has initialised the key, and [as_] are arrays of its devices with the values
    [vs], apart from the buffers for the sum. *)
Record worker_ready (k bound key d nb : Z) (n : nat) (s : KVStoreDist) (as_ : list nat) (vs : list (list float)) : Prop := {
  wr_wf : heap_wf (c_heap (devices s));
  wr_nonempty : as_ ≠ [];
  wr_cells : Forall2 (fun a v => cell (devices s) a = Some {| ch_dtype := d; ch_data := v |} ∧ length v = n) as_ vs;
  wr_buffers : ∃ e m L, entry_ok (devices s) key e d n m L ∧ (L = [] ∨ (length as_ - 1 ≤ length L)%nat) ∧ (∀ a, a ∈ as_ → a ∉ m :: L);
  wr_gc : uncompressed (w_gc_ s) = true;
  wr_encoded : w_ps_kv_ s !! key = None ∨ w_ps_kv_ s !! key = Some (spread k key nb (default_shares bound k key (Z.of_nat n)))
}.

(** ** What arrives at a server *)

(** The messages to server [i] among the actions of worker [sender]. *)
Definition arrivals (i : nat) (sender : Z) (acts : list waction) : list (KVMeta * KVPairs * list float) :=
  omap (fun a => match a with
    | WSend _ m =>
        if wm_recver m =? ServerRankToID (Z.of_nat i) false
        then Some (meta_of sender m, wm_data m, match kv_vals (wm_data m) with Vals v => v | Words _ => [] end) else None
    | _ => None
    end) acts.

(** The share of server [i]. *)
Definition share_of (sh : shares) (i : nat) (v : list float) : list float :=
  mjoin (zip_with (fun (s : nat * nat) part => if decide (s.1 = i) then part else []) sh (split_by sh.*2 v)).

Lemma select_one {B} (f : nat → list float → B) (i c : nat) : ∀ (l : shares) ps, length ps = length l → NoDup l.*1 → (i, c) ∈ l →
  ∃ part, (i, c, part) ∈ zip l ps ∧ mjoin (zip_with (fun (s : nat * nat) p => if decide (s.1 = i) then p else []) l ps) = part ∧
    omap (fun x => x) (zip_with (fun (s : nat * nat) p => if decide (s.1 = i) then Some (f s.1 p) else None) l ps) = [f i part].
Proof.
  assert (∀ (l : shares) ps, i ∉ l.*1 → mjoin (zip_with (fun (s : nat * nat) p => if decide (s.1 = i) then p else [] : list float) l ps) = [] ∧
    omap (fun x => x) (zip_with (fun (s : nat * nat) p => if decide (s.1 = i) then Some (f s.1 p) else None) l ps) = []) as Hnone.
  { induction l as [|s l IH]; intros [|p ps] Hi; try done. cbn in Hi. apply not_elem_of_cons in Hi as [Hi Hl]. cbn. rewrite !decide_False by done. by apply IH. }
  induction l as [|[j c'] l IH]; intros [|p ps] Hl Hnd Hin; try done; [by apply not_elem_of_nil in Hin|]. cbn in Hnd, Hl. apply NoDup_cons in Hnd as [Hj Hnd].
  apply elem_of_cons in Hin as [E|Hin].
  - injection E as <- <-. exists p. split; [by left|]. destruct (Hnone l ps Hj) as [E1 E2]. cbn. rewrite !decide_True by done.
    split; [transitivity (p ++ []); [f_equal; exact E1|apply app_nil_r]|f_equal; exact E2].
  - assert (j ≠ i) as Hji by (intros ->; apply Hj, list_elem_of_fmap; by exists (i, c)). destruct (IH ps ltac:(lia) Hnd Hin) as (part & H1 & H2 & H3).
    exists part. split; [by right|]. cbn. rewrite !decide_False by done. done.
Qed.

Lemma share_of_split k n sh v : shares_ok k n sh → (fun s => share_of sh s.1 v) <$> sh = split_by sh.*2 v.
Proof.
  intros Hs. pose proof (sorted_nodup _ (so_sorted _ _ _ Hs)) as Hnd. pose proof (length_split_by sh.*2 v) as Hl. rewrite length_fmap in Hl.
  apply list_eq. intros j. rewrite list_lookup_fmap. destruct (sh !! j) as [[i c]|] eqn:Hj; [|symmetry; apply lookup_ge_None; apply lookup_ge_None in Hj; lia].
  destruct (select_one (fun _ _ => tt) i c sh (split_by sh.*2 v) Hl Hnd (list_elem_of_lookup_2 _ _ _ Hj)) as (part & Hp & E & _). cbn. unfold share_of. rewrite E.
  apply list_elem_of_lookup in Hp as [j' Hp]. apply lookup_zip_with_Some in Hp as (s & p & [= <- <-] & Hs' & Hp).
  assert (j' = j) as ->; [|done]. apply (NoDup_lookup sh.*1 j' j i Hnd); rewrite list_lookup_fmap; [by rewrite Hs'|by rewrite Hj].
Qed.

Lemma arrivals_push env key nb n sh ts d v i c sender : shares_ok (num_servers env) n sh → (i, c) ∈ sh →
  ∃ part, (i, c, part) ∈ zip sh (split_by sh.*2 v) ∧ share_of sh i v = part ∧
    arrivals i sender (push_msgs env key nb sh ts d v) =
      [({| m_cmd := GetCommandType kDefaultPushPull d; m_push := true; m_sender := sender; m_timestamp := ts; m_customer_id := 0; m_key := key;
           m_version := 0; m_num_merge := 1; m_app_id := 0 |}, share_msg (num_servers env) key nb i part, part)].
Proof.
  intros Hs Hin. pose proof (length_split_by sh.*2 v) as Hl. rewrite length_fmap in Hl.
  set (f := fun (i : nat) (part : list float) => ({| m_cmd := GetCommandType kDefaultPushPull d; m_push := true; m_sender := sender; m_timestamp := ts; m_customer_id := 0; m_key := key;
           m_version := 0; m_num_merge := 1; m_app_id := 0 |}, share_msg (num_servers env) key nb i part, part)).
  destruct (select_one f i c sh (split_by sh.*2 v) Hl (sorted_nodup _ (so_sorted _ _ _ Hs)) Hin) as (part & H1 & H2 & H3). exists part. split; [done|]. split; [done|].
  fold (f i part). rewrite <- H3. unfold arrivals, push_msgs. clear. generalize (split_by sh.*2 v) as ps. induction sh as [|s l IH]; intros [|p ps]; try done.
  cbn [zip_with omap list_omap]. unfold wire at 1. cbn [wm_recver]. unfold ServerRankToID. destruct (decide (s.1 = i)) as [<-|Hne].
  - rewrite Z.eqb_refl. cbn. f_equal. apply IH.
  - rewrite (proj2 (Z.eqb_neq _ _)) by (unfold kOffset; lia). cbn. apply IH.
Qed.

Section Cluster.
Context (sort : list (Z * nat) → list (Z * nat)) (nthread_reduction : Z) (order : nat → list nat) (is_serial_push_ : bool) (max_threads : nat).
Hypothesis sort_perm : ∀ l, sort l ≡ₚ l.
Hypothesis sort_sorted : ∀ l, StronglySorted Z.le (sort l).*1.
Hypothesis order_perm : ∀ n, order n ≡ₚ seq 0 n.

Lemma dist_push_run k bound key d nb n env answers s as_ vs : key_ok k bound key d nb n → worker_env k bound env → worker_ready k bound key d nb n s as_ vs →
  ∃ vs' m' c', vs' ≡ₚ vs ∧ vs' ≠ [] ∧ Forall (fun v => length v = n) vs' ∧ heap_wf (c_heap c') ∧
    cell c' m' = Some {| ch_dtype := d; ch_data := device_sum d vs' |} ∧
    DistPushImpl env sort nthread_reduction order is_serial_push_ max_threads answers (replicate (length as_) key) (dns <$> as_) s =
      Ok (tt, pushed env key d nb n m' c' (device_sum d vs') s).
Proof.
  intros [Hk Hk1 Hk2 Hbd Hr Hb Hp Hsz] [Ek Eb Ep Et Er] [Hwf Hne Hcells (e & m & L & He & HL & Hdis) Hgc Henc]. subst k bound.
  unfold DistPushImpl, Push_. destruct (one_group sort key (dns <$> as_) sort_perm sort_sorted) as (g & Eg & Hg); [by destruct as_|].
  rewrite length_fmap in Eg. destruct (fmap_perm _ _ _ Hg) as (as' & -> & Has'). destruct (cells_perm _ _ _ as' Hcells Has') as (vs' & Hcells' & Hvs').
  assert (length as' = length as_) as Hlen by (by apply Permutation_length).
  destruct (GroupKVPairs_ok sort sort_perm sort_sorted (push_valid false) (fun _ _ => true) (fun _ => True) (fun b => b = base s)) with (keys := replicate (length as_) key) (values := dns <$> as_) (s := base s)
    as (b & EG & ->); try done.
  { intros k' v s0 _ ->. by exists (base s). }
  { by destruct as_. }
  { by rewrite length_replicate, length_fmap. }
  { apply Forall_replicate. lia. }
  { by apply Forall_forall. }
  rewrite Eg in EG. destruct (Reduce_any (bigarray_bound_ env) nthread_reduction order is_serial_push_ max_threads (devices s) key e d n m L as' vs') as (m' & c' & ER & Hwf' & Hm' & _); try done; try lia.
  { intros ->. by destruct as_. } { by rewrite Hlen. } { intros a Ha. apply Hdis. by rewrite <- Has'. }
  exists vs', m', c'. assert (vs' ≠ []) as Hvne by (intros ->; apply Forall2_length in Hcells'; by destruct as_, as').
  assert (Forall (fun v => length v = n) vs') as Hvl by (clear -Hcells'; induction Hcells' as [|? ? ? ? [_ ?]]; by constructor).
  split_and!; try done. rewrite (st_bind_Ok _ _ s ([key], [dns <$> as']) s).
  2:{ unfold on_base, GroupKVPairsPush. rewrite EG. cbn. f_equal. f_equal. by destruct s. }
  cbn [zip zip_with fst snd for_each]. rewrite (st_bind_Ok _ _ s tt (pushed env key d nb n m' c' (device_sum d vs') s)); [done|].
  apply push_key_run; try done. by apply length_device_sum.
Qed.

(** ** A round of the data center *)
Record member := { mb_env : Env; mb_state : KVStoreDist; mb_arrays : list nat; mb_values : list (list float) }.
Definition member_ok (k bound key d nb : Z) (n : nat) (w : member) : Prop :=
  worker_env k bound (mb_env w) ∧ worker_ready k bound key d nb n (mb_state w) (mb_arrays w) (mb_values w).

Definition push_call (answers : Z → list (KVs float)) (key : Z) (w : member) : result (unit * KVStoreDist) :=
  DistPushImpl (mb_env w) sort nthread_reduction order is_serial_push_ max_threads answers (replicate (length (mb_arrays w)) key) (dns <$> mb_arrays w) (mb_state w).
(** What the worker has sent to server [i] since. *)
Definition sent_to (i : nat) (w : member) (s : KVStoreDist) : list (KVMeta * KVPairs * list float) :=
  arrivals i (my_id (mb_env w)) (drop (length (w_outbox (mb_state w))) (w_outbox s)).

(** A run of the push of [w]: the state after it and the sum that was pushed. *)
Definition push_run_of answers key d (w : member) (r : KVStoreDist * list float) : Prop :=
  push_call answers key w = Ok (tt, r.1) ∧ ∃ vs, vs ≡ₚ mb_values w ∧ r.2 = device_sum d vs.

(** What server [i] gets of it. *)
Definition server_gets k key d sh (w : member) (r : KVStoreDist * list float) : Prop :=
  ∀ i c, (i, c) ∈ sh → ∃ p, sent_to i w r.1 = [p] ∧ p.2 = share_of sh i r.2 ∧
    ∀ env, server_of k env i → worker_push env key d c p.

Lemma member_push k bound key d nb n answers w : key_ok k bound key d nb n → member_ok k bound key d nb n w →
  ∃ r, push_run_of answers key d w r ∧ server_gets k key d (default_shares bound k key (Z.of_nat n)) w r.
Proof.
  intros Hko [Hwe Hwr]. destruct (dist_push_run k bound key d nb n (mb_env w) answers (mb_state w) (mb_arrays w) (mb_values w) Hko Hwe Hwr)
    as (vs & m & c & Hvs & Hne & Hlen & _ & _ & E).
  exists (pushed (mb_env w) key d nb n m c (device_sum d vs) (mb_state w), device_sum d vs). split; [split; [exact E|by exists vs]|].
  destruct Hko as [Hk Hk1 Hk2 Hbd Hr Hb Hp Hsz], Hwe as [Ek Eb Ep Et Er]. subst k bound.
  pose proof (length_device_sum d n vs Hne Hlen) as Hv. intros i cnt Hin.
  assert (shares_ok (num_servers (mb_env w)) n (default_shares (bigarray_bound_ (mb_env w)) (num_servers (mb_env w)) key (Z.of_nat n))) as Hsh by (by apply (sh_ok (mb_env w) key d nb n)).
  destruct (arrivals_push (mb_env w) key nb n _ (Z.of_nat (length (w_tracker_ (mb_state w)))) d (device_sum d vs) i cnt (my_id (mb_env w)) Hsh Hin) as (part & Hpart & Es & Ea).
  eexists. split.
  - unfold sent_to. cbn [fst]. unfold pushed at 1. cbn [w_outbox add_out Dist_eta set_w_tracker set_w_ps_kv set_comm_buf with_devices set_base]. rewrite drop_app_length. exact Ea.
  - split; [exact (eq_sym Es)|]. intros env' Hs'. unfold worker_push. cbn [fst snd]. split_and!; [|done|].
    + eapply (share_push_of (mb_env w) key d nb n); try done. unfold my_id, WorkerRankToID, kOffset. rewrite Z.rem_mod_nonneg by lia.
      replace (100 + my_rank (mb_env w) * 2 + 1) with (1 + (50 + my_rank (mb_env w)) * 2) by lia. by rewrite Z.mod_add by lia.
    + by destruct (part_bound (mb_env w) key d nb n Hk Hk1 Hbd Hr Hb Hp Hsz (device_sum d vs) i cnt part Hv Hpart).
Qed.
End Cluster.

Lemma members_push sort nthread_reduction order is_serial_push_ max_threads k bound key d nb n answers ws :
  (∀ l, sort l ≡ₚ l) → (∀ l, StronglySorted Z.le (sort l).*1) → (∀ n, order n ≡ₚ seq 0 n) →
  key_ok k bound key d nb n → Forall (member_ok k bound key d nb n) ws →
  ∃ runs, Forall2 (push_run_of sort nthread_reduction order is_serial_push_ max_threads answers key d) ws runs ∧
    Forall2 (server_gets k key d (default_shares bound k key (Z.of_nat n))) ws runs.
Proof.
  intros H1 H2 H3 Hko. induction 1 as [|w ws Hw _ (runs & IH1 & IH2)]; [exists []; by split|].
  destruct (member_push sort nthread_reduction order is_serial_push_ max_threads H1 H2 H3 k bound key d nb n answers w Hko Hw) as (r & Hr1 & Hr2).
  exists (r :: runs). split; by constructor.
Qed.

Definition inbox (i : nat) (ws : list member) (runs : list (KVStoreDist * list float)) : list (KVMeta * KVPairs * list float) :=
  mjoin (zip_with (fun w r => sent_to i w r.1) ws runs).

Lemma inbox_shares k key d sh ws runs i c : Forall2 (server_gets k key d sh) ws runs → (i, c) ∈ sh →
  (inbox i ws runs).*2 = (fun r => share_of sh i r.2) <$> runs ∧ ∀ env, server_of k env i → Forall (worker_push env key d c) (inbox i ws runs).
Proof.
  intros HF Hin. unfold inbox. induction HF as [|w r ws runs Hw _ [IH1 IH2]]; [done|]. destruct (Hw i c Hin) as (p & Ep & Ev & Hp). cbn. rewrite Ep. cbn. split.
  - rewrite Ev. f_equal. exact IH1.
  - intros env Henv. constructor; [by apply Hp|]. by apply IH2.
Qed.

Lemma shares_of_key k bound key d nb n : key_ok k bound key d nb n → shares_ok k n (default_shares bound k key (Z.of_nat n)).
Proof.
  intros [Hk Hk1 Hk2 Hbd Hr Hb Hp Hsz]. pose proof (sizeof_real d nb Hr Hb). assert (shares_ok k (Z.to_nat (Z.of_nat n)) (default_shares bound k key (Z.of_nat n))) as H1 by (apply default_shares_ok; done || nia).
  by rewrite Nat2Z.id in H1.
Qed.

Lemma member_sum k bound key d nb n s as_ vs' vs : worker_ready k bound key d nb n s as_ vs' → vs ≡ₚ vs' → length (device_sum d vs) = n.
Proof.
  intros [_ Hne Hc _ _ _] Hp. apply length_device_sum.
  - intros ->. apply Permutation_nil in Hp as ->. by apply Forall2_nil_inv_r in Hc.
  - rewrite Hp. clear -Hc. induction Hc as [|? ? ? ? [_ ?]]; by constructor.
Qed.


(** A data center with two servers and two workers, one with two devices; key 7 has four
    elements and is cut in two. *)
Definition w_worker_env (rank : Z) : Env := {|
  is_global_server := false; enable_central_workers := false; num_workers := 2; num_servers := 2;
  num_global_workers := 2; num_global_servers := 3; my_rank := rank; my_global_rank := 0; my_global_id := 9;
  bigarray_bound_ := 4; size_lower_bound := 200000; use_hfa := false; period_k2 := 1;
  enable_p3 := false; enable_intra_ts := false; enable_inter_ts := false |}.
Definition w_server_env : Env := {|
  is_global_server := false; enable_central_workers := false; num_workers := 2; num_servers := 2;
  num_global_workers := 2; num_global_servers := 3; my_rank := 0; my_global_rank := 0; my_global_id := 9;
  bigarray_bound_ := 1000000; size_lower_bound := 200000; use_hfa := false; period_k2 := 1;
  enable_p3 := false; enable_intra_ts := false; enable_inter_ts := false |}.
Definition w_cell (v : list Z) : chunk := {| ch_dtype := 0; ch_data := w_values v |}.
Definition w_devices : CommCPU := {|
  c_heap := {| cells := {[0%nat := w_cell [1; 2; 3; 4]; 1%nat := w_cell [10; 20; 30; 40]; 2%nat := w_cell [0; 0; 0; 0]]}; next_cell := 3 |};
  c_rsp := ∅; c_next := 0;
  merge_buf_ := {[7 := {| be_shape := (4, 1%nat); be_dtype := 0; be_merged := Some 2%nat; be_copy_buf := []; be_sparse_merged := None |}]} |}.
Definition w_store : KVStoreDist := {|
  base := {| comm_ := w_devices; local_ := ∅; str_key_dict_ := ∅; reverse_str_key_dict_ := ∅; next_str_key_ := 0; warnings_printed_ := ∅; key_type_ := kIntKey |};
  w_comm_buf_ := ∅; w_compr_buf_ := ∅; w_residual_ := ∅; w_ps_kv_ := ∅; w_compr_ps_kv_ := ∅; key_temp := 0; w_gc_ := GradientCompression_init;
  w_tracker_ := []; auto_pull_kvs_ := ∅; send_push := 0; send_q := []; req_meta_buf := ∅; req_data_buf := ∅; w_update_buf_ := ∅; w_outbox := [] |}.
Definition w_member (rank : Z) (as_ : list nat) (vs : list (list Z)) : member :=
  {| mb_env := w_worker_env rank; mb_state := w_store; mb_arrays := as_; mb_values := w_values <$> vs |}.
Definition w_members : list member := [w_member 0 [0%nat; 1%nat] [[1; 2; 3; 4]; [10; 20; 30; 40]]; w_member 1 [1%nat] [[10; 20; 30; 40]]].

Lemma w_key_ok : key_ok 2 4 7 0 4 4.
Proof. split; done || lia. Qed.
Lemma w_devices_wf : heap_wf (c_heap w_devices).
Proof.
  intros c H. assert (map_Forall (fun c _ => (c < 3)%nat) (cells (c_heap w_devices))) as HF by by_decision. destruct H as [x Hx]. exact (HF c x Hx).
Qed.
Lemma w_entry : entry_ok w_devices 7 {| be_shape := (4, 1%nat); be_dtype := 0; be_merged := Some 2%nat; be_copy_buf := []; be_sparse_merged := None |} 0 4 2 [].
Proof.
  split; try done; [by_decision|]. constructor; [|done]. by exists (w_cell [0; 0; 0; 0]).
Qed.
Lemma w_members_ok : Forall (member_ok 2 4 7 0 4 4) w_members.
Proof.
  apply Forall_cons; split; [|apply Forall_cons; split; [|constructor]]; (split; [split; done|]);
    (split; [apply w_devices_wf|done|repeat (apply Forall2_cons; split; [done|]); by apply Forall2_nil| |done|by left]);
    eexists _, _, _; (split; [apply w_entry|]); (split; [by left|]);
    intros a Ha; apply not_elem_of_cons; (split; [|apply not_elem_of_nil]); intros ->; revert Ha; by_decision.
Qed.


(** ** Pulling the new value *)

(** The buffer [m] is copied to the arrays [dst], among which it may be itself. *)
Lemma devices_broadcast_run key d (n m : nat) x : ch_dtype x = d → length (ch_data x) = n → ∀ dst c,
  heap_wf (c_heap c) → cell c m = Some x → Forall (buffer c d n) dst →
  ∃ c', Broadcast true key (dns m) (dns <$> dst) c = Ok (tt, c') ∧ heap_wf (c_heap c') ∧ cell c' m = Some x ∧
    (∀ b, b ∈ dst → b ≠ m → cell c' b = Some {| ch_dtype := d; ch_data := cast_to d <$> ch_data x |}) ∧ (∀ i, i ∉ dst → cell c' i = cell c i).
Proof.
  intros Hd Hn. unfold Broadcast. induction dst as [|b dst IH] using rev_ind; intros c Hwf Hm Hb.
  { exists c. split_and!; try done. intros b Hin. by apply not_elem_of_nil in Hin. }
  apply Forall_app in Hb as [Hb Hb1]. apply Forall_singleton in Hb1 as (y & Hy & Hyd & Hyl). destruct (IH c Hwf Hm Hb) as (c1 & E & Hwf1 & Hm1 & Hnew & Hold).
  rewrite fmap_app, for_each_app, (st_bind_Ok _ _ _ _ _ E). cbn [fmap list_fmap for_each]. destruct (decide (b = m)) as [->|Hne].
  - exists c1. split; [rewrite (st_bind_Ok _ _ c1 tt c1); [done|]; unfold Comm.copy; by rewrite bool_decide_eq_true_2|]. split_and!; try done.
    + intros b [Hin|Hin]%elem_of_app Hbm; [by apply Hnew|]. apply list_elem_of_singleton in Hin. done.
    + intros i [Hi _]%not_elem_of_app. by apply Hold.
  - assert (buffer c1 d n b) as (z & Hz & Hzd & Hzl).
    { destruct (decide (b ∈ dst)) as [Hin|Hin]; [eexists; split; [by apply Hnew|]; cbn; by rewrite length_fmap|exists y; by rewrite Hold]. }
    set (v := {| ch_dtype := d; ch_data := cast_to d <$> ch_data x |}). exists (put_cell b v c1). split.
    { rewrite (st_bind_Ok _ _ c1 tt (put_cell b v c1)); [done|]. apply (copy_dns c1 m b x d); [done|by exists z; rewrite Hn|done]. }
    assert (∀ i, i ≠ b → cell (put_cell b v c1) i = cell c1 i) as Hput by (intros i Hi; unfold cell; cbn; by rewrite lookup_insert_ne).
    split_and!.
    + apply heap_wf_put; [done|by exists z].
    + by rewrite Hput.
    + intros i Hi Him. destruct (decide (i = b)) as [->|Hib]; [unfold cell; cbn; by rewrite lookup_insert_eq|]. rewrite Hput by done. apply Hnew; [|done].
      apply elem_of_app in Hi as [Hi|Hi]; [done|]. by apply list_elem_of_singleton in Hi.
    + intros i [Hi Hi']%not_elem_of_app. rewrite Hput; [by apply Hold|]. intros ->. apply Hi'. by left.
Qed.

(** The worker can pull into the arrays [dst]: it has a buffer for the key from an earlier
    push or pull, or none yet. *)
Record pull_ready (k bound key d nb : Z) (n : nat) (s : KVStoreDist) (dst : list nat) : Prop := {
  pr_wf : heap_wf (c_heap (devices s));
  pr_nonempty : dst ≠ [];
  pr_dst : Forall (buffer (devices s) d n) dst;
  pr_buffer : w_comm_buf_ s !! key = None ∨ ∃ m, w_comm_buf_ s !! key = Some (dns m) ∧ buffer (devices s) d n m;
  pr_gc : uncompressed (w_gc_ s) = true;
  pr_encoded : w_ps_kv_ s !! key = None ∨ w_ps_kv_ s !! key = Some (spread k key nb (default_shares bound k key (Z.of_nat n)))
}.

(** Where the pulled value [v] is afterwards. *)
Definition delivered (key d : Z) (v : list float) (dst : list nat) (s s' : KVStoreDist) : Prop :=
  ∃ m, w_comm_buf_ s' !! key = Some (dns m) ∧ cell (devices s') m = Some {| ch_dtype := d; ch_data := v |} ∧
    (∀ b, b ∈ dst → b ≠ m → cell (devices s') b = Some {| ch_dtype := d; ch_data := cast_to d <$> v |}) ∧
    (∀ i, (i < next_cell (c_heap (devices s)))%nat → i ∉ m :: dst → cell (devices s') i = cell (devices s) i).

Section Pulls.
Context (env : Env) (answers : Z → list (KVs float)) (k bound key d nb : Z) (n : nat).
Local Abbreviation sh := (default_shares bound k key (Z.of_nat n)).
Hypothesis Hko : key_ok k bound key d nb n.
Hypothesis Henv : worker_env k bound env.

(** The answers the servers give when they hold [us]. *)
Definition answered (us : list (list float)) (s : KVStoreDist) : Prop :=
  Forall2 (fun (s : nat * nat) u => length u = s.2) sh us ∧ answers (Z.of_nat (length (w_tracker_ s))) ≡ₚ share_answers env key nb n us.

Lemma pull_tail s m us dst : buffer (devices s) d n m → heap_wf (c_heap (devices s)) → Forall (buffer (devices s) d n) dst → uncompressed (w_gc_ s) = true →
  (w_ps_kv_ s !! key = None ∨ w_ps_kv_ s !! key = Some (spread k key nb sh)) → answered us s → w_comm_buf_ s !! key = Some (dns m) →
  ∃ s', (pull_from_servers env answers key (Some m);; on_devices (Broadcast true key (dns m) (dns <$> dst))) s = Ok (tt, s') ∧
    w_outbox s' = w_outbox s ++ pull_msgs env key sh (Z.of_nat (length (w_tracker_ s))) (GetCommandType kDefaultPushPull d) ∧ delivered key d (mjoin us) dst s s'.
Proof.
  intros (x & Hx & Hxd & Hxl) Hwf Hdst Hgc Henc [Hus Hans] Hbuf. destruct Hko as [Hk Hk1 Hk2 Hbd Hr Hb Hp Hsz], Henv as [Ek Eb Ep Et Er].
  destruct x as [xd xv]. cbn in Hxd, Hxl. subst xd.
  assert (length (mjoin us) = n) as Hl.
  { rewrite <- (so_total _ _ _ (shares_of_key k bound key d nb n Hko)). unfold total_of. clear -Hus. induction Hus as [|s u l us Hs _ IH]; [done|]. cbn in *. rewrite length_app. by rewrite Hs, <- IH. }
  rewrite (st_bind_Ok _ _ s tt (pulled env key d nb n m us s)).
  2:{ revert Hus Hans Henc Hk Hbd. rewrite <- Ek, <- Eb. intros Hus Hans Henc Hk Hbd. by eapply pull_from_servers_run. }
  set (c1 := put_cell m {| ch_dtype := d; ch_data := mjoin us |} (devices s)).
  assert (∀ i, i ≠ m → cell c1 i = cell (devices s) i) as Hput by (intros i Hi; unfold cell; cbn; by rewrite lookup_insert_ne).
  destruct (devices_broadcast_run key d n m {| ch_dtype := d; ch_data := mjoin us |} eq_refl Hl dst c1) as (c' & E & Hwf' & Hm' & Hnew & Hold).
  { apply heap_wf_put; [done|by eexists]. }
  { unfold cell. cbn. by rewrite lookup_insert_eq. }
  { rewrite Forall_forall in Hdst |- *. intros b Hb'. destruct (decide (b = m)) as [->|Hne]; [eexists; split; [unfold cell; cbn; by rewrite lookup_insert_eq|done]|].
    destruct (Hdst b Hb') as (y & Hy & Hy'). exists y. by rewrite Hput. }
  rewrite (on_devices_run _ (pulled env key d nb n m us s) tt c' E). eexists. split; [done|]. split; [cbn; by rewrite Ek, Eb|].
  exists m. split_and!; try done. intros i Hi [Him Hid]%not_elem_of_cons. change (cell c' i = cell (devices s) i). rewrite Hold by done. by apply Hput.
Qed.

Lemma pull_key_run s us dst : pull_ready k bound key d nb n s dst → answered us s →
  ∃ s', pull_key env answers key (dns <$> dst) s = Ok (tt, s') ∧
    w_outbox s' = w_outbox s ++ pull_msgs env key sh (Z.of_nat (length (w_tracker_ s))) (GetCommandType kDefaultPushPull d) ∧ delivered key d (mjoin us) dst s s'.
Proof.
  intros [Hwf Hne Hdst Hbuf Hgc Henc] Hans. destruct dst as [|b0 dst0]; [done|]. set (dst := b0 :: dst0) in *. pose proof (we_p3 _ _ _ Henv) as Ep.
  unfold pull_key. rewrite (lift_bind _ _ (dns b0)) by done. rewrite ensure_bind by done. rewrite gets_bind. destruct Hbuf as [Hbuf|(m & Hbuf & Hm)].
  - rewrite Hbuf. cbn [default from_option array_none is_none]. apply Forall_cons in Hdst as Hd0. destruct Hd0 as [(y & Hy & Hyd & Hyl) _].
    set (m := next_cell (c_heap (devices s))). set (x := {| ch_dtype := d; ch_data := replicate n S754_nan |}).
    set (c1 := set_c_heap (alloc (c_heap (devices s)) x).2 (devices s)). set (s1 := set_comm_buf (<[key := dns m]> (w_comm_buf_ s)) (with_devices c1 s)).
    assert (∀ i, (i < m)%nat → cell c1 i = cell (devices s) i) as Hold by (intros i Hi; unfold cell; cbn; rewrite lookup_insert_ne by (fold m; lia); done).
    assert (∀ b, buffer (devices s) d n b → buffer c1 d n b) as Hbufs.
    { intros b (z & Hz & Hz'). exists z. rewrite Hold; [done|]. apply Hwf. by exists z. }
    rewrite (st_bind_Ok _ _ s (dns m) s1).
    2:{ rewrite (st_bind_Ok _ _ _ _ _ (on_devices_read s (dns b0) _ (read_dns _ _ _ Hy))). cbn [contents_shape contents_dtype fst]. rewrite Nat2Z.id, Hyl, Hyd.
        rewrite (st_bind_Ok _ _ s (Some m) (with_devices c1 s)) by (by apply on_devices_run). done. }
    unfold dns at 1. cbv beta iota. rewrite Ep. cbn [andb negb when].
    destruct (pull_tail s1 m us dst) as (s' & E & Ho & m' & H1 & H2 & H3 & H4); try done.
    { exists x. split; [unfold cell; cbn; by rewrite lookup_insert_eq|]. cbn. by rewrite length_replicate. }
    { apply heap_wf_alloc. exact Hwf. }
    { eapply Forall_impl; [exact Hdst|exact Hbufs]. }
    { cbn. by rewrite lookup_insert_eq. }
    exists s'. split; [exact E|]. split; [done|]. exists m'. split_and!; try done. intros i Hi Hi'. rewrite H4; [by apply Hold|cbn; lia|done].
  - rewrite Hbuf. cbn [default from_option]. change (array_none (id (dns m))) with false. cbv iota. unfold id at 1.
    rewrite (st_bind_Ok _ _ s (dns m) s) by done. unfold dns at 1. cbv beta iota. rewrite Ep. cbn [andb negb when]. by apply pull_tail.
Qed.

Context (sort : list (Z * nat) → list (Z * nat)).
Hypothesis sort_perm : ∀ l, sort l ≡ₚ l.
Hypothesis sort_sorted : ∀ l, StronglySorted Z.le (sort l).*1.

Lemma dist_pull_run s us dst : pull_ready k bound key d nb n s dst → answered us s →
  ∃ s', DistPullImpl env sort answers (replicate (length dst) key) (dns <$> dst) true s = Ok (tt, s') ∧
    w_outbox s' = w_outbox s ++ pull_msgs env key sh (Z.of_nat (length (w_tracker_ s))) (GetCommandType kDefaultPushPull d) ∧ delivered key d (mjoin us) dst s s'.
Proof.
  intros [Hwf Hne Hdst Hbuf Hgc Henc] Hans. unfold DistPullImpl. rewrite ensure_bind by done. destruct Hko as [_ Hk1 Hk2 _ _ _ _ _].
  destruct (one_group sort key (dns <$> dst) sort_perm sort_sorted) as (g & Eg & Hg); [by destruct dst|].
  rewrite length_fmap in Eg. destruct (fmap_perm _ _ _ Hg) as (dst' & -> & Hdst').
  destruct (GroupKVPairs_ok sort sort_perm sort_sorted (pull_valid true) (fun _ _ => true) (fun v => is_rsp v = false) (fun b => b = base s)) with (keys := replicate (length dst) key) (values := dns <$> dst) (s := base s)
    as (b & EG & ->); try done.
  { intros k' v s0 Hv ->. exists (base s). unfold pull_valid. by rewrite Hv. }
  { by destruct dst. } { by rewrite length_replicate, length_fmap. } { apply Forall_replicate. lia. } { apply Forall_fmap. by apply Forall_forall. }
  rewrite Eg in EG. rewrite (st_bind_Ok _ _ s ([key], [dns <$> dst']) s).
  2:{ unfold on_base, GroupKVPairsPull. rewrite EG. cbn. f_equal. f_equal. by destruct s. }
  destruct (pull_key_run s us dst') as (s' & E & Ho & m & H1 & H2 & H3 & H4); [split; try done; [intros ->; by apply Permutation_nil in Hdst'|by rewrite Hdst']|done|].
  cbn [zip zip_with fst snd for_each]. rewrite (st_bind_Ok _ _ s tt s' E). exists s'. split; [done|]. split; [done|]. exists m. split_and!; try done.
  - intros b Hb. apply H3. by rewrite Hdst'.
  - intros i Hi Hn. apply H4; [done|]. by rewrite Hdst'.
Qed.
End Pulls.

(** ** The servers answer *)
Record holder := { hd_env : Env; hd_spec : Spec; hd_state : Server; hd_value : list float }.
(** Server [i], which holds [c] elements of the key. *)
Definition holds (k key d : Z) (share : nat * nat) (h : holder) : Prop :=
  server_of k (hd_env h) share.1 ∧ enable_p3 (hd_env h) = false ∧ enable_inter_ts (hd_env h) = false ∧
  refines false (hd_spec h) (hd_state h) ∧
  (∃ st, hd_spec h !! key = Some st ∧ ks_dtype st = d ∧ ks_value st = hd_value h) ∧ length (hd_value h) = share.2.

Definition as_kvs (kvs : KVPairs) : KVs float := Build_KVs float (kv_keys kvs) (match kv_vals kvs with Vals v => v | Words _ => [] end) (kv_lens kvs).

(** The server's handler answers the pull [p] of a worker with [reply]. *)
Definition replies updater shuffle DataHandleRowSparse (h : holder) (p : KVMeta * KVPairs * list float) (reply : KVPairs) : Prop :=
  ∃ s', DataHandleEx (hd_env h) updater shuffle DataHandleRowSparse p.1.1 p.1.2 (hd_state h) = Ok (tt, s') ∧
    refines false (hd_spec h) s' ∧ outbox s' = outbox (hd_state h) ++ [Response p.1.1 (Some reply) false].

Lemma arrivals_pull env key n sh ts cmd i c sender : shares_ok (num_servers env) n sh → (i, c) ∈ sh →
  arrivals i sender (pull_msgs env key sh ts cmd) =
    [({| m_cmd := cmd; m_push := false; m_sender := sender; m_timestamp := ts; m_customer_id := 0; m_key := kEmpty; m_version := kEmpty; m_num_merge := 1; m_app_id := 0 |},
      {| kv_keys := [server_key_of (num_servers env) key i]; kv_lens := []; kv_vals := Vals [] |}, [])].
Proof.
  intros Hs Hin. set (f := fun (i : nat) (_ : list float) => ({| m_cmd := cmd; m_push := false; m_sender := sender; m_timestamp := ts; m_customer_id := 0; m_key := kEmpty; m_version := kEmpty; m_num_merge := 1; m_app_id := 0 |},
      {| kv_keys := [server_key_of (num_servers env) key i]; kv_lens := []; kv_vals := Vals [] |}, @nil float)).
  destruct (select_one f i c sh (replicate (length sh) []) ltac:(apply length_replicate) (sorted_nodup _ (so_sorted _ _ _ Hs)) Hin) as (part & _ & _ & H3).
  change (arrivals i sender (pull_msgs env key sh ts cmd) = [f i part]). rewrite <- H3. unfold arrivals, pull_msgs. clear. induction sh as [|s l IH]; [done|].
  cbn [fmap list_fmap omap list_omap length replicate zip_with]. unfold wire at 1. cbn [wm_recver]. unfold ServerRankToID. destruct (decide (s.1 = i)) as [<-|Hne].
  - rewrite Z.eqb_refl. cbn. f_equal. apply IH.
  - rewrite (proj2 (Z.eqb_neq _ _)) by (unfold kOffset; lia). cbn. apply IH.
Qed.

Section Replies.
Context (updater : option (Z → chunk → chunk → list float)) (shuffle : list nat → list nat) (DataHandleRowSparse : DataHandleType → KVMeta → KVPairs → srv unit).
Context (env : Env) (k bound key d nb : Z) (n : nat) (ts : Z).
Local Abbreviation sh := (default_shares bound k key (Z.of_nat n)).
Local Abbreviation cmd := (GetCommandType kDefaultPushPull d).
Hypothesis Hko : key_ok k bound key d nb n.
Hypothesis Henv : worker_env k bound env.

Definition reply_of (i : nat) (v : list float) : KVPairs :=
  {| kv_keys := [server_key_of k key i]; kv_lens := [Z.of_nat (length v) * nb]; kv_vals := Vals v |}.

Lemma holder_replies i c h : (i, c) ∈ sh → holds k key d (i, c) h →
  ∃ p, arrivals i (my_id env) (pull_msgs env key sh ts cmd) = [p] ∧ replies updater shuffle DataHandleRowSparse h p (reply_of i (hd_value h)).
Proof.
  intros Hin (Hsrv & Hp3 & Hts & Href & (st & Hst & Hd & Hv) & Hl). destruct Henv as [Ek Eb Ep Et Er]. pose proof (shares_of_key k bound key d nb n Hko) as Hsh.
  eexists. split; [apply (arrivals_pull env key n sh ts cmd i c (my_id env)); [by rewrite Ek|done]|]. cbn [fst snd].
  set (meta := {| m_cmd := cmd |}). set (data := {| kv_keys := _; kv_lens := []; kv_vals := Vals [] |}).
  assert (pull_of (hd_env h) d key meta data) as Hpl.
  { destruct Hko. split; try done.
    - unfold meta. cbn. unfold my_id, WorkerRankToID, kOffset. rewrite Z.rem_mod_nonneg by lia. replace (100 + my_rank env * 2 + 1) with (1 + (50 + my_rank env) * 2) by lia. by rewrite Z.mod_add by lia.
    - exists (server_key_of k key i). split; [cbn; by rewrite Ek|]. destruct Hsrv as (-> & Hs & Hrk). unfold decode_key. rewrite Hs, Hrk. apply DecodeKey_ok; [|lia].
      pose proof (so_range _ _ _ Hsh) as H1. rewrite Forall_forall in H1. specialize (H1 _ Hin). cbn in H1. lia. }
  destruct (pull_refines (hd_env h) updater Hp3 Hts DataHandleRowSparse shuffle false (hd_spec h) (hd_state h) st d key meta data Href Hpl Hst (eq_sym Hd)) as (s' & E & Href' & Ho).
  exists s'. split; [exact E|]. split; [done|]. rewrite Ho. f_equal. f_equal. unfold pull_answer, reply_of. rewrite (ko_bytes _ _ _ _ _ _ Hko), Hv. cbn [snd] in Hl. f_equal.
  - f_equal. f_equal; [cbn; by rewrite Ek|]. f_equal. apply i32_id. pose proof (so_pos _ _ _ Hsh) as Hpos. pose proof (ko_size _ _ _ _ _ _ Hko).
    assert (c ≤ n)%nat. { rewrite <- (so_total _ _ _ Hsh). unfold total_of. clear -Hin. induction sh as [|s l IH]; [by apply not_elem_of_nil in Hin|]. apply elem_of_cons in Hin as [<-|Hin]; cbn; [lia|]. specialize (IH Hin). cbn in IH. lia. }
    pose proof (sizeof_real d nb (ko_real _ _ _ _ _ _ Hko) (ko_bytes _ _ _ _ _ _ Hko)). nia.
  - cbn. unfold my_id, WorkerRankToID, kOffset. apply Z.ltb_ge. lia.
Qed.
End Replies.

Lemma replies_answers env key nb k (hs : list holder) d (l : shares) :
  num_servers env = k → Forall2 (holds k key d) l hs →
  as_kvs <$> zip_with (fun s h => reply_of k key nb s.1 (hd_value h)) l hs =
    zip_with (fun s u => Build_KVs float [server_key_of (num_servers env) key s.1] u [Z.of_nat s.2 * nb]) l (hd_value <$> hs) ∧
  Forall2 (fun (s : nat * nat) u => length u = s.2) l (hd_value <$> hs).
Proof.
  intros Ek. induction 1 as [|s h l hs (_ & _ & _ & _ & _ & Hl) _ [IH1 IH2]]; [split; [done|by constructor]|]. split; [|by constructor].
  cbn. f_equal; [|exact IH1]. unfold as_kvs, reply_of. cbn. by rewrite Ek, Hl.
Qed.


(** The same worker pulls from the two servers into both devices, the second answer first. *)
Definition w_holder (rank : Z) (v : list Z) : holder := {|
  hd_env := {|
    is_global_server := false; enable_central_workers := false; num_workers := 2; num_servers := 2;
    num_global_workers := 2; num_global_servers := 3; my_rank := rank; my_global_rank := 0; my_global_id := 9;
    bigarray_bound_ := 1000000; size_lower_bound := 200000; use_hfa := false; period_k2 := 1;
    enable_p3 := false; enable_intra_ts := false; enable_inter_ts := false |};
  hd_spec := {[7 := w_key_state (w_values v)]}; hd_state := w_local (w_values v); hd_value := w_values v |}.


(** ** P3 and the first pull of a worker *)
Definition w_p3_env (rank : Z) : Env := {|
  is_global_server := false; enable_central_workers := false; num_workers := 2; num_servers := 2;
  num_global_workers := 2; num_global_servers := 3; my_rank := rank; my_global_rank := 0; my_global_id := 9;
  bigarray_bound_ := 1000; size_lower_bound := 200000; use_hfa := false; period_k2 := 1;
  enable_p3 := true; enable_intra_ts := false; enable_inter_ts := false |}.
(** The receivers and keys of the messages sent. *)
Definition w_sent (s : KVStoreDist) : list (Z * list Z) :=
  omap (fun a => match a with WSend _ m => Some (wm_recver m, kv_keys (wm_data m)) | _ => None end) (w_outbox s).

(** With two servers in P3 mode, worker 0 initialises keys 0 and 1 at server 100; another
    worker that starts by pulling key 1 asks server 102, for a key that no worker has
    initialised. *)
Lemma p3_first_pull_elsewhere :
  (∃ s, DistInitImpl (w_p3_env 0) w_sort 1 (seq 0) false 1 false (fun _ => []) [0; 1] [dns 0; dns 1] w_store = Ok (tt, s) ∧ w_sent s = [(100, [0]); (100, [1])]) ∧
  (∃ s, DistPullImpl (w_p3_env 1) w_sort (fun _ => [Build_KVs float [server_key_of 2 1 1] (w_values [1; 2; 3; 4]) [16]]) [1] [dns 0] true w_store = Ok (tt, s) ∧
     w_sent s = [(102, [server_key_of 2 1 1])]).
Proof. split; eexists; (split; [vm_compute; reflexivity|vm_compute; reflexivity]). Qed.
