(* ===== verification/WorkerMerge.v ===== *)
(** * Merging pushes on the way to a server

    With scheduled transmission (TSEngine) a worker does not send its push at once: it keeps
    it, adds the pushes that other workers send to it, and when the scheduler names a
    receiver it sends the sum, which counts for all the workers in it.
    Source: [WorkersMerge] of src/src/kvstore/kvstore_dist.h, [ZPush] and [TS_Process] of
    src/3rdparty/ps-lite/include/ps/kv_app.h. *)

From Stdlib Require Import SpecFloat Sorted.
From S2P Require Import Prelude StdAlgo Floats Sparse Command Text Postoffice Customer TwoBit GradientCompression KeyEncoding KVApp NDArray SparseOps Comm KVStoreLocal LocalStoreSpec ServerState DistServer ServerSpec RowSparseServer LocalServer DistWorker DistWorkerSpec DataCenter.
Local Open Scope Z_scope.

(** ** Sending one slice *)
Lemma for_each_one {S} (act : nat → KVPairs → st S unit) (f : nat → bool * KVPairs) (r n : nat) s :
  (∀ i, (f i).1 = bool_decide (i = r)) → (r < n)%nat →
  for_each (fun '(i, (nonempty, kv)) => when nonempty (act i kv)) ((fun i => (i, f i)) <$> seq 0 n) s = (act r (f r).2;; mret tt) s.
Proof.
  intros Hf Hr. assert (∀ l s, r ∉ l → for_each (fun '(i, (nonempty, kv)) => when nonempty (act i kv)) ((fun i => (i, f i)) <$> l) s = Ok (tt, s)) as Hskip.
  { induction l as [|i l IH]; intros s0 Hl; [done|]. apply not_elem_of_cons in Hl as [Hi Hl]. cbn. specialize (Hf i). destruct (f i) as [b kv]. cbn in Hf. subst b.
    rewrite bool_decide_eq_false_2 by done. rewrite (st_bind_Ok _ _ s0 tt s0) by done. by apply IH. }
  rewrite (owner_split r n Hr), fmap_app, for_each_app. rewrite (st_bind_Ok _ _ s tt s) by (apply Hskip; rewrite elem_of_seq; lia).
  cbn [fmap list_fmap for_each]. pose proof (Hf r) as E. destruct (f r) as [b kv]. cbn in E. subst b. rewrite bool_decide_eq_true_2 by done. cbn [when snd].
  unfold mbind at 1 2, st_bind. destruct (act r kv s) as [[[] s']|e]; [|done]. by apply Hskip; rewrite elem_of_seq; lia.
Qed.

(** ** One key in the merge buffer *)
Section Merge.
Context (env : Env) (d nb ps : Z) (n : nat).
Hypothesis Hreal : is_real_type d = true.
Hypothesis Hnb : mshadow_sizeof d = Ok nb.
Hypothesis Hsz : Z.of_nat n * nb < 2 ^ 31.
Hypothesis Hrank : 0 ≤ my_rank env.

(** The number the buffers use for the server key. *)
Local Abbreviation K := (i32 ps).

(** A message with the values [v] of the key. *)
Definition value_msg (v : list float) : KVPairs := {| kv_keys := [ps]; kv_lens := [Z.of_nat (length v) * nb]; kv_vals := Vals v |}.
Definition set_num_merge (num : Z) (m : KVMeta) : KVMeta :=
  {| m_cmd := m_cmd m; m_push := m_push m; m_sender := m_sender m; m_timestamp := m_timestamp m; m_customer_id := m_customer_id m;
     m_key := m_key m; m_version := m_version m; m_num_merge := num; m_app_id := m_app_id m |}.

(** The sum [v] of [num] pushes is held in the array [a], to be sent as [meta]. *)
Record merging (meta : KVMeta) (a : nat) (num : Z) (v : list float) (s : KVStoreDist) : Prop := {
  mg_meta : req_meta_buf s !! K = Some (set_num_merge num meta);
  mg_data : ∃ old, req_data_buf s !! K = Some {| kv_keys := [ps]; kv_lens := [Z.of_nat n * nb]; kv_vals := old |};
  mg_merged : w_update_buf_ s !! K = Some (Some a);
  mg_cell : cell (devices s) a = Some {| ch_dtype := d; ch_data := v |};
  mg_length : length v = n;
  mg_wf : heap_wf (c_heap (devices s))
}.

(** A push of [v] as the handler sees it. *)
Record push_meta (meta : KVMeta) : Prop := {
  pm_cmd : m_cmd meta = GetCommandType kDefaultPushPull d;
  pm_push : m_push meta = true;
  pm_merge : 0 < m_num_merge meta
}.

Lemma merge_checks meta v : push_meta meta → length v = n →
  DepairDataHandleType (m_cmd meta) = Ok {| requestType := Some kDefaultPushPull; dtype := d |} ∧
  vals_size nb (kv_vals (value_msg v)) = Z.of_nat (length v) * nb ∧
  recv_array {| requestType := Some kDefaultPushPull; dtype := d |} (value_msg v) 0 = Ok {| ch_dtype := d; ch_data := v |}.
Proof.
  intros [Hc Hp Hm] Hv. rewrite Hc. split; [by apply depair_default|]. split; [done|]. eapply recv_dense; try done. cbn. by rewrite Hv.
Qed.

Lemma server_id_own : (my_rank env + 1) * 2 - 1 + 100 = my_id env.
Proof. unfold my_id, WorkerRankToID, kOffset. lia. Qed.

Lemma merge_buffer_run s (merged : NDArray) m : heap_wf (c_heap (devices s)) →
  ∃ b c', (if is_none merged then on_devices (c_new m d) else mret merged) s = Ok (b, with_devices c' s) ∧ heap_wf (c_heap c') ∧
    (∀ i, (i < next_cell (c_heap (devices s)))%nat → cell c' i = cell (devices s) i).
Proof.
  intros Hwf. destruct merged as [b|]; cbn [is_none].
  - exists (Some b), (devices s). by rewrite with_devices_id.
  - eexists _, _. split; [by apply on_devices_run|]. split; [by apply heap_wf_alloc|]. intros i Hi. unfold cell. cbn. rewrite lookup_insert_ne by lia. done.
Qed.

Lemma own_merge_run meta v a s : push_meta meta → m_num_merge meta = 1 → m_sender meta = my_id env → length v = n →
  heap_wf (c_heap (devices s)) → cell (devices s) a = Some {| ch_dtype := d; ch_data := v |} →
  ∃ s', WorkersMerge env meta (value_msg v) (Some a) s = Ok (tt, s') ∧ merging meta a 1 v s' ∧
    send_q s' = send_q s ++ [K] ∧ w_outbox s' = w_outbox s ∧ w_tracker_ s' = w_tracker_ s.
Proof.
  intros Hpm Hm1 Hs Hv Hwf Ha. destruct (merge_checks meta v Hpm Hv) as (E1 & E2 & E3). destruct Hpm as [Hc Hp Hm]. unfold WorkersMerge. rewrite (proj2 (Z.eqb_neq (m_num_merge meta) (-1))) by lia.
  rewrite ensure_bind by done. rewrite (lift_bind _ _ _ _ E1). cbn [dtype]. rewrite (lift_bind _ _ _ _ Hnb), Hp. cbn [when].
  rewrite (st_bind_Ok _ _ s tt s).
  2:{ rewrite ensure_bind by done. rewrite (lift_bind _ _ (Z.of_nat (length v) * nb)) by done. unfold ensure. rewrite E2, Z.eqb_refl. done. }
  rewrite (lift_bind _ _ ps) by done. cbv zeta. rewrite server_id_own, Hs, Z.eqb_refl.
  erewrite st_bind_Ok by (rewrite !modify_bind; reflexivity). cbv beta. set (s1 := set_req_data _ _). rewrite (lift_bind _ _ _ _ E3), gets_bind.
  destruct (merge_buffer_run s1 (default None (w_update_buf_ s1 !! K)) (length v) Hwf) as (b & c' & Eb & Hwf' & Hold). cbn [ch_data]. rewrite (st_bind_Ok _ _ _ _ _ Eb).
  eexists. split; [reflexivity|]. split; [|done]. split.
  - cbn. rewrite lookup_insert_eq. f_equal. destruct meta. cbn in *. by subst.
  - eexists. cbn. rewrite lookup_insert_eq. cbn. by rewrite Hv.
  - cbn. by rewrite lookup_insert_eq.
  - change (cell c' a = Some {| ch_dtype := d; ch_data := v |}). rewrite Hold; [done|]. apply Hwf. by eexists.
  - done.
  - exact Hwf'.
Qed.

Lemma recv_merge_run meta a num v meta_j w s : merging meta a num v s → push_meta meta_j → m_sender meta_j ≠ my_id env → length w = n →
  - 2 ^ 31 ≤ num + m_num_merge meta_j < 2 ^ 31 →
  ∃ s', WorkersMerge env meta_j (value_msg w) None s = Ok (tt, s') ∧ merging meta a (num + m_num_merge meta_j) (zip_with (dadd d) v w) s' ∧
    send_q s' = send_q s ∧ w_outbox s' = w_outbox s ++ [WResponse meta_j] ∧ w_tracker_ s' = w_tracker_ s.
Proof.
  intros [Hmeta Hdata Hmerged Hcell Hlen Hwf] Hpm Hs Hw Hnum. destruct (merge_checks meta_j w Hpm Hw) as (E1 & E2 & E3). destruct Hpm as [Hc Hp Hm]. unfold WorkersMerge. rewrite (proj2 (Z.eqb_neq (m_num_merge meta_j) (-1))) by lia.
  rewrite ensure_bind by done. rewrite (lift_bind _ _ _ _ E1). cbn [dtype]. rewrite (lift_bind _ _ _ _ Hnb), Hp. cbn [when].
  rewrite (st_bind_Ok _ _ s tt s).
  2:{ rewrite ensure_bind by done. rewrite (lift_bind _ _ (Z.of_nat (length w) * nb)) by done. unfold ensure. rewrite E2, Z.eqb_refl. done. }
  rewrite (lift_bind _ _ ps) by done. cbv zeta. rewrite server_id_own, (proj2 (Z.eqb_neq _ _) Hs).
  rewrite (st_bind_Ok _ _ s tt (add_out [WResponse meta_j] s)) by done. set (s1 := add_out _ s). rewrite (lift_bind _ _ _ _ E3), gets_bind.
  change (w_update_buf_ s1) with (w_update_buf_ s). rewrite Hmerged. cbn [default from_option id is_none]. rewrite (st_bind_Ok _ _ s1 (Some a) s1) by done. rewrite modify_bind.
  set (s2 := set_w_update_buf _ s1). set (sum := {| ch_dtype := d; ch_data := zip_with (dadd d) v w |}).
  rewrite (st_bind_Ok _ _ s2 tt (with_devices (put_cell a sum (devices s)) s2)).
  2:{ apply on_devices_run. change (devices s2) with (devices s). unfold c_on_heap. by rewrite (plus_assign_raw_put _ _ _ Hcell) by (cbn; congruence). }
  rewrite gets_bind. change (req_meta_buf (with_devices _ s2)) with (req_meta_buf s). rewrite Hmeta. rewrite (lift_bind _ _ (set_num_merge num meta)) by done.
  rewrite (lift_bind _ _ (set_num_merge (num + m_num_merge meta_j) meta)).
  2:{ unfold add_num_merge, int_add. cbn [m_num_merge set_num_merge]. rewrite int_range_ok by lia. done. }
  eexists. split; [reflexivity|]. split; [|done]. destruct Hdata as [old Hdata]. split; cbn.
  - by rewrite lookup_insert_eq.
  - by exists old.
  - by rewrite lookup_insert_eq.
  - unfold cell. cbn. by rewrite lookup_insert_eq.
  - rewrite length_zip_with. lia.
  - apply heap_wf_put; [done|by eexists].
Qed.

(** The pushes of other workers, one after the other. *)
Definition merged_total (v : list float) (l : list (KVMeta * list float)) : list float := foldl (zip_with (dadd d)) v l.*2.
Definition merged_count (num : Z) (l : list (KVMeta * list float)) : Z := num + zsum (m_num_merge <$> l.*1).
Definition receives (l : list (KVMeta * list float)) : wst unit := for_each (fun p => TS_receive env p.1 (value_msg p.2)) l.
Definition receive_actions (l : list (KVMeta * list float)) : list waction :=
  l ≫= (fun p => [WResponse p.1; WAskReceiver (m_app_id p.1) (m_customer_id p.1) (m_timestamp p.1)]).

Lemma receives_run meta a l : ∀ num v s, merging meta a num v s →
  Forall (fun p => push_meta p.1 ∧ m_sender p.1 ≠ my_id env ∧ length p.2 = n) l → 0 ≤ num → merged_count num l < 2 ^ 31 →
  ∃ s', receives l s = Ok (tt, s') ∧ merging meta a (merged_count num l) (merged_total v l) s' ∧
    send_q s' = send_q s ∧ w_outbox s' = w_outbox s ++ receive_actions l ∧ w_tracker_ s' = w_tracker_ s.
Proof.
  unfold merged_count, merged_total, receives. induction l as [|p l IH]; intros num v s Hm Hl H0 Hc.
  { exists s. cbn in *. rewrite Z.add_0_r, app_nil_r. done. }
  apply Forall_cons in Hl as [(Hp & Hs & Hv) Hl]. rewrite !fmap_cons in *. cbn [zsum foldr] in Hc. fold (zsum (m_num_merge <$> l.*1)) in Hc. pose proof (pm_merge _ Hp) as Hpos.
  assert (0 ≤ zsum (m_num_merge <$> l.*1)) as Hz.
  { clear -Hl. induction Hl as [|q l [[_ _ Hq] _] _ IH]; [done|]. rewrite !fmap_cons. unfold zsum in *. cbn [foldr]. lia. }
  destruct (recv_merge_run meta a num v p.1 p.2 s Hm Hp Hs Hv ltac:(lia)) as (s1 & E1 & Hm1 & Hq1 & Ho1 & Ht1).
  set (s2 := add_out [WAskReceiver (m_app_id p.1) (m_customer_id p.1) (m_timestamp p.1)] s1).
  destruct (IH (num + m_num_merge p.1) (zip_with (dadd d) v p.2) s2) as (s' & E & Hm' & Hq & Ho & Ht); [by destruct Hm1|done|lia|lia|].
  exists s'. cbn [for_each].
  assert (TS_receive env p.1 (value_msg p.2) s = Ok (tt, s2)) as Er by (unfold TS_receive; rewrite (st_bind_Ok _ _ _ _ _ E1); done).
  rewrite (st_bind_Ok _ _ _ _ _ Er), E. split; [done|].
  split; [cbn [foldl zsum foldr]; fold (zsum (m_num_merge <$> l.*1)); by replace (num + (m_num_merge p.1 + zsum (m_num_merge <$> l.*1))) with (num + m_num_merge p.1 + zsum (m_num_merge <$> l.*1)) by lia|].
  split; [by rewrite Hq|]. split; [|by rewrite Ht]. rewrite Ho. cbn. rewrite Ho1. by rewrite <- !(assoc_L (++)).
Qed.

(** The scheduler names a receiver. *)
Lemma grant_run meta a num v s (i : nat) key t receiver :
  0 < num_servers env < 2 ^ 20 → 0 ≤ key < 2 ^ 31 → (i < Z.to_nat (num_servers env))%nat → ps = server_key_of (num_servers env) key i → (0 < n)%nat →
  merging meta a num v s → head (send_q s) = Some K → m_app_id meta ≠ kEmpty →
  w_tracker_ s = t ++ [(num_servers env, 0)] → m_timestamp meta = Z.of_nat (length t) →
  ∃ s', TS_grant env receiver s = Ok (tt, s') ∧ send_q s' = tail (send_q s) ∧
    w_outbox s' = w_outbox s ++ [WSend false {| wm_recver := receiver; wm_push := m_push meta; wm_cmd := m_cmd meta; wm_timestamp := m_timestamp meta; wm_key := m_key meta;
      wm_version := m_version meta; wm_iters := num; wm_data := value_msg v |}].
Proof.
  intros Hk Hkey Hi Hps Hn [Hmeta [old Hdata] Hmerged Hcell Hlen Hwf] Hq Happ Ht Hts. pose proof (sizeof_real d nb Hreal Hnb) as Hpos.
  unfold TS_grant. rewrite modify_bind. unfold WorkersMerge. change (m_num_merge _ =? -1) with true. cbv iota. unfold merge_send. rewrite gets_bind. cbn [send_q set_send_push].
  destruct (send_q s) as [|q0 qs] eqn:Eq; [done|]. injection Hq as ->. rewrite (lift_bind _ _ K) by done. rewrite gets_bind. set (s0 := set_send_push receiver s).
  change (w_update_buf_ s0) with (w_update_buf_ s). rewrite Hmerged. cbn [default from_option id]. rewrite (st_bind_Ok _ _ _ _ _ (read_dense_run s0 a _ Hcell)), gets_bind.
  change (req_data_buf s0) with (req_data_buf s). rewrite Hdata. cbn [default from_option id ch_dtype ch_data kv_lens kv_keys]. rewrite (lift_bind _ _ _ _ Hnb).
  rewrite (lift_bind _ _ (Z.of_nat n * nb)) by done. rewrite (lift_bind _ _ v).
  2:{ unfold byte_segment. rewrite Z.rem_0_l, Z.rem_mul by lia. cbn [andb Z.eqb]. rewrite Z.quot_0_l, Z.add_0_l, Z.quot_mul, Nat2Z.id by lia. cbn [Z.to_nat].
      rewrite segment_ok by lia. rewrite drop_0, take_ge by lia. done. }
  cbv zeta. rewrite modify_bind. set (s1 := set_req_data _ s0). rewrite gets_bind. change (req_meta_buf s1) with (req_meta_buf s). rewrite Hmeta. rewrite (lift_bind _ _ (set_num_merge num meta)) by done.
  cbn [m_timestamp m_push m_cmd m_key m_version m_app_id m_num_merge set_num_merge].
  assert (shares_ok (num_servers env) n [(i, n)]) as Hsh by (split; [repeat constructor|by repeat constructor|by repeat constructor|unfold total_of; cbn; lia]).
  destruct (slice_shares (num_servers env) key nb n [(i, n)] Hk Hkey Hpos Hsh ltac:(done) Hsz v Hlen) as (f & Ef & Hf1 & Hf2).
  pose proof (Hf2 0%nat i n eq_refl) as Hfi. cbn in Hfi. rewrite drop_0, take_ge in Hfi by lia.
  assert (∀ j, (f j).1 = bool_decide (j = i)) as Hf by (intros j; rewrite Hf1; apply bool_decide_ext; cbn; by rewrite list_elem_of_singleton).
  assert ((f i).2 = value_msg v) as Hfv by (rewrite Hfi; unfold share_msg, value_msg; by rewrite Hps).
  assert (slice_message (num_servers env) nb {| kv_keys := [ps]; kv_lens := [Z.of_nat n * nb]; kv_vals := Vals v |} = Ok (f <$> seq 0 (Z.to_nat (num_servers env)))) as Es by (rewrite Hps; exact Ef).
  unfold worker_send. rewrite bind_assoc, (lift_bind _ _ _ _ Es), bind_assoc, gets_bind, bind_assoc. change (w_tracker_ s1) with (w_tracker_ s). rewrite Ht, Hts.
  rewrite (lift_bind _ _ (sent_tracker env [(i, n)] t)) by (eapply add_skipped; done). cbv beta. rewrite bind_assoc, modify_bind. set (s2 := set_w_tracker _ s1).
  rewrite imap_pair_seq, (proj2 (Z.eqb_neq _ _) Happ). cbn [negb andb]. set (msg := WSend false _).
  rewrite (st_bind_Ok _ _ s2 tt (set_send_push 0 (add_out [msg] s2))); [eexists; split; [reflexivity|]; split; [cbn; by rewrite Eq|done]|].
  etransitivity; [apply (for_each_one (fun i0 kv => r ← gets send_push; emit_action (WSend false {| wm_recver := r; wm_push := m_push meta; wm_cmd := m_cmd meta;
    wm_timestamp := Z.of_nat (length t); wm_key := m_key meta; wm_version := m_version meta; wm_iters := num; wm_data := kv |});; when true (modify (set_send_push 0))) f i); done|].
  rewrite Hfv. done.
Qed.
End Merge.

(** C22: merging on a worker.  With scheduled transmission a push is kept, the pushes that
    other workers send for the same key are acknowledged and added to it, and when the
    scheduler names a receiver one message goes there: it carries the sum of all of them, in
    the order of their arrival, counts for as many workers as are in it, and is a push the
    key's server accepts.  Nothing is left to send. *)
Theorem ts_merge_sums env d nb n key i a v l s receiver :
  is_real_type d = true → mshadow_sizeof d = Ok nb → (0 < n)%nat → Z.of_nat n * nb < 2 ^ 31 →
  0 ≤ my_rank env → enable_intra_ts env = true → 0 < num_servers env < 2 ^ 20 → 0 ≤ key < 2 ^ 31 → (i < Z.to_nat (num_servers env))%nat →
  heap_wf (c_heap (devices s)) → cell (devices s) a = Some {| ch_dtype := d; ch_data := v |} → length v = n → send_q s = [] →
  Forall (fun p => push_meta d p.1 ∧ m_sender p.1 ≠ my_id env ∧ length p.2 = n) l → merged_count 1 l < 2 ^ 31 →
  let ps := server_key_of (num_servers env) key i in
  let ts := Z.of_nat (length (w_tracker_ s)) in
  let msg := {| wm_recver := receiver; wm_push := true; wm_cmd := GetCommandType kDefaultPushPull d; wm_timestamp := ts; wm_key := key; wm_version := 0;
                wm_iters := merged_count 1 l; wm_data := value_msg nb ps (merged_total d v l) |} in
  (∃ s', (ZPush env (value_msg nb ps v) (Some a) (GetCommandType kDefaultPushPull d) nb key;; receives env nb ps l;; TS_grant env receiver) s = Ok (tt, s') ∧
    send_q s' = [] ∧ w_outbox s' = w_outbox s ++ [WAskReceiver 0 0 ts] ++ receive_actions l ++ [WSend false msg]) ∧
  ∀ env', server_of (num_servers env) env' i → push_of env' d key (meta_of (my_id env) msg) (wm_data msg) (merged_total d v l).
Proof.
  intros Hreal Hnb Hn Hsz Hrank Hts Hk Hkey Hi Hwf Ha Hv Hq Hl Hc ps ts msg.
  set (meta := {| m_cmd := GetCommandType kDefaultPushPull d; m_push := true; m_sender := my_id env; m_timestamp := ts; m_customer_id := 0; m_key := key; m_version := 0; m_num_merge := 1; m_app_id := 0 |}).
  set (s0 := set_w_tracker (w_tracker_ s ++ [(num_servers env, 0)]) s).
  destruct (own_merge_run env d nb ps n Hreal Hnb Hsz meta v a s0) as (s1 & E1 & Hm1 & Hq1 & Ho1 & Ht1); try done.
  set (s2 := add_out [WAskReceiver 0 0 ts] s1). assert (merging d nb ps n meta a 1 v s2) as Hm2 by (by destruct Hm1).
  destruct (receives_run env d nb ps n Hreal Hnb Hsz meta a l 1 v s2 Hm2 Hl ltac:(lia) Hc) as (s3 & E3 & Hm3 & Hq3 & Ho3 & Ht3).
  destruct (grant_run env d nb ps n Hreal Hnb Hsz meta a (merged_count 1 l) (merged_total d v l) s3 i key (w_tracker_ s) receiver) as (s4 & E4 & Hq4 & Ho4); try done.
  { rewrite Hq3. change (send_q s2) with (send_q s1). rewrite Hq1. change (send_q s0) with (send_q s). by rewrite Hq. }
  { rewrite Ht3. change (w_tracker_ s2) with (w_tracker_ s1). by rewrite Ht1. }
  split.
  - exists s4. rewrite (st_bind_Ok _ _ s tt s2).
    2:{ unfold ZPush. rewrite (st_bind_Ok _ _ s ts s0) by done. rewrite Hts. cbn [andb]. rewrite bool_decide_eq_false_2 by done. cbn [negb]. fold meta. by rewrite (st_bind_Ok _ _ _ _ _ E1). }
    rewrite (st_bind_Ok _ _ _ _ _ E3), E4. split; [done|]. split.
    + rewrite Hq4, Hq3. change (send_q s2) with (send_q s1). rewrite Hq1. change (send_q s0) with (send_q s). by rewrite Hq.
    + rewrite Ho4, Ho3. change (w_outbox s2) with (w_outbox s1 ++ [WAskReceiver 0 0 ts]). rewrite Ho1. by rewrite <- !(assoc_L (++)).
  - intros env' Hs'. destruct Hm3 as [_ _ _ _ Hlen _]. split; try done.
    + unfold my_id, WorkerRankToID, kOffset. cbn [m_sender meta_of]. rewrite Z.rem_mod_nonneg by lia. replace (100 + my_rank env * 2 + 1) with (1 + (50 + my_rank env) * 2) by lia. by rewrite Z.mod_add by lia.
    + cbn. unfold merged_count. assert (0 ≤ zsum (m_num_merge <$> l.*1)); [|lia]. clear -Hl. induction Hl as [|q l [[_ _ Hq] _] _ IH]; [done|]. rewrite !fmap_cons. unfold zsum in *. cbn [foldr]. lia.
    + exists nb. split; [done|]. split; [done|]. by rewrite Hlen.
    + exists ps. split; [done|]. destruct Hs' as (-> & Hs & Hr). unfold decode_key. rewrite Hs, Hr. apply DecodeKey_ok; lia.
Qed.

(** A worker of a data center with one server, whose array 0 is pushed under key 7 and
    merged with the push of worker 103. *)
Definition w_ts_env (servers : Z) : Env := {|
  is_global_server := false; enable_central_workers := false; num_workers := 2; num_servers := servers;
  num_global_workers := 2; num_global_servers := 3; my_rank := 0; my_global_rank := 0; my_global_id := 9;
  bigarray_bound_ := 1000; size_lower_bound := 200000; use_hfa := false; period_k2 := 1;
  enable_p3 := false; enable_intra_ts := true; enable_inter_ts := false |}.

Lemma ts_merge_sums_witness :
  ∃ s', (ZPush (w_ts_env 1) (value_msg 4 7 (w_values [1; 2; 3; 4])) (Some 0%nat) 0 4 7;;
         receives (w_ts_env 1) 4 7 [(w_meta true 103 5, w_values [1; 1; 1; 1])];; TS_grant (w_ts_env 1) 100) w_store = Ok (tt, s') ∧
    w_outbox s' = [WAskReceiver 0 0 0; WResponse (w_meta true 103 5); WAskReceiver 1 0 5;
      WSend false {| wm_recver := 100; wm_push := true; wm_cmd := 0; wm_timestamp := 0; wm_key := 7; wm_version := 0; wm_iters := 2; wm_data := value_msg 4 7 (w_values [2; 3; 4; 5]) |}].
Proof.
  destruct (ts_merge_sums (w_ts_env 1) 0 4 4 7 0 0 (w_values [1; 2; 3; 4]) [(w_meta true 103 5, w_values [1; 1; 1; 1])] w_store 100) as [(s' & E & _ & Ho) _];
    [done|done|lia|lia|cbn; lia|done|cbn; lia|lia|cbn; lia|apply w_devices_wf|done|done|done| |done|].
  - apply Forall_singleton. split; [by split|]. by split.
  - exists s'. split; [exact E|]. rewrite Ho. vm_compute. reflexivity.
Defined.

(** ** Two keys in one buffer

    The buffers are indexed by the server key cut to an [int].  With two servers, key 0 of
    server 0 and key 1 of server 1 have the same number. *)

