(* ===== verification/Hfa.v ===== *)
(** * Hierarchical frequency aggregation: a shared array

    With HFA a local server pushes, every [period_k2] rounds, how far its value has moved
    since the last synchronisation.  [HandleHFAAccumulate] remembers the synchronised
    value by assigning one NDArray variable to another, which shares the array instead of
    copying it; the next aggregate is then written into both.
    Source: src/src/kvstore/kvstore_dist_server.h, lines 959-972 and 1320-1360. *)

From Stdlib Require Import SpecFloat.
From S2P Require Import Prelude Floats Command Text Postoffice Customer TwoBit GradientCompression KeyEncoding KVApp NDArray ServerState DistServer ServerSpec LocalServer.
Local Open Scope Z_scope.

(** A finite number minus itself. *)
Definition is_finite (x : float) : bool :=
  match x with S754_zero _ | S754_finite _ _ _ => true | _ => false end.

Lemma f32_sub_self x : is_finite x = true → f32_sub x x = S754_zero false.
Proof.
  destruct x as [s|s| |s m e]; try done; intros _; [by destruct s|]. unfold f32_sub, SFsub.
  rewrite Z.sub_diag. done.
Qed.

(** The delta of a round when the store and its milestone are one array. *)
Definition no_delta (n : Z) : float := ddiv 0 (S754_zero false) (cast_to 0 (f32_of_Z n)).

Lemma on_heap_new_Ok f s a h : f (heap_ s) = Ok (a, h) → on_heap_new f s = Ok (a, set_heap h s).
Proof. intros H. unfold on_heap_new. rewrite gets_bind. by rewrite (lift_bind _ _ (a, h)). Qed.

Section Shared.
Context (env : Env) (updater : option (Z → chunk → chunk → list float)) (shuffle : list nat → list nat).
Context (key : Z).
Hypothesis Hlocal : is_global_server env = false.
Hypothesis Hintra : enable_intra_ts env = false.
Hypothesis Hinter : enable_inter_ts env = false.
Hypothesis Hhfa : use_hfa env = true.
Hypothesis Hservers : 0 < num_global_servers env < 2 ^ 20.
Hypothesis Hkey : 0 ≤ key ∧ key * 9973 < 2 ^ 31.
Local Abbreviation type := {| requestType := Some kDefaultPushPull; dtype := 0 |}.

(** After a synchronisation that found a milestone the two slots are one array. *)
Lemma accumulate_shares recved s s' m cm :
  store_milestone_ s !! key = Some (Some m) → cells (heap_ s) !! m = Some cm →
  HandleHFAAccumulate env type false key recved s = Ok (tt, s') →
  ∃ c, store_ s' !! key = Some (Some c) ∧ store_milestone_ s' !! key = Some (Some c).
Proof.
  intros Hm Hcm. unfold HandleHFAAccumulate, slot, read_nd. rewrite Hhfa, ensure_bind by done.
  rewrite !gets_bind, Hm. cbn [default from_option id is_none]. rewrite bind_assoc, gets_bind.
  rewrite (lift_bind _ _ cm) by (cbn; by rewrite Hcm).
  destruct (binary_data dadd cm recved) as [data|e] eqn:E; [|intros H; discriminate H]. rewrite (lift_bind _ _ data) by done.
  intros H. apply st_bind_inv in H as (c & s1 & H1 & H). injection H1 as <- <-.
  apply st_bind_inv in H as (? & s2 & H1 & H). injection H1 as _ <-. injection H as <-. sproj.
  eexists. by rewrite !lookup_insert_eq.
Qed.

Section Round.
Context (s : Server) (c m : nat) (w agg : list float) (reqs : list KVMeta) (t : NDArray).
Hypothesis Hwf : heap_wf (heap_ s).
Hypothesis Hmp : multi_precision_ s = false.
Hypothesis Hgc : is_type (gradient_compression_ s) kNone = true.
Hypothesis Hstore : store_ s !! key = Some (Some c).
Hypothesis Hshared : store_milestone_ s !! key = Some (Some c).
Hypothesis Hc : cells (heap_ s) !! c = Some {| ch_dtype := 0; ch_data := w |}.
Hypothesis Hu : default UpdateBuf_empty (update_buf_ s !! key) = {| request := reqs; merged := Some m; temp_array := t |}.
Hypothesis Hm : cells (heap_ s) !! m = Some {| ch_dtype := 0; ch_data := agg |}.
Hypothesis Hcm : c ≠ m.
Hypothesis Hlen : length agg = length w.
Hypothesis Hn : 0 < Z.of_nat (length w) < bigarray_bound_ env.
Hypothesis Hb : Z.of_nat (length w) * 4 < 2 ^ 31.
Hypothesis Hps : ps_kv_ s !! key = None ∨ ps_kv_ s !! key = Some (small_pskv env key 4 (Z.of_nat (length w))).

Local Abbreviation iters := (if key =? 0 then u64 (local_iters s + 1) else local_iters s).
Hypothesis Hperiod : period_k2 env ≠ 0 ∧ Z.rem iters (period_k2 env) = 0.
Hypothesis Hcount : Z.of_nat (length reqs) = num_workers env.

(** The value the aggregate leaves in the shared array, and the heap with the delta. *)
Local Abbreviation x := (cast_to 0 <$> agg).
Local Abbreviation h1 := (put (heap_ s) c {| ch_dtype := 0; ch_data := x |}).
Local Abbreviation diff := {| ch_dtype := 0; ch_data := zip_with (dsub 0) x x |}.
Local Abbreviation h2 := (alloc h1 diff).2.
Local Abbreviation delta := ((fun y => ddiv 0 y (cast_to 0 (f32_of_Z (num_global_workers env)))) <$> zip_with (dsub 0) x x).
Local Abbreviation h3 := (alloc h2 {| ch_dtype := 0; ch_data := delta |}).2.

Lemma shared_apply meta data : ApplyUpdates env updater type key true false meta data s = Ok (tt, set_heap h1 s).
Proof.
  unfold ApplyUpdates, has_multi_precision_copy, slot, get_updates. srun. srun. srun. rewrite Hmp. cbn [andb]. srun.
  rewrite Hstore. change (default None (Some (Some c))) with (Some c). srun. rewrite Hu. cbn [merged].
  assert ((ensure true "Check failed: sync_mode";; copy (Some m) (Some c)) s = Ok (tt, set_heap h1 s)) as Hcopy.
  { srun. apply on_heap_Ok. rewrite (CopyFromTo_put _ _ _ Hc _ _ Hm); done. }
  eapply (run_bind _ _ _ tt (set_heap h1 s)); [|done]. by destruct updater; rewrite ?Hlocal.
Qed.

Lemma shared_delta : binary_op dsub h1 (Some c) (Some c) = Ok (Some (next_cell (heap_ s)), h2).
Proof.
  unfold binary_op. cbn [deref put cells]. rewrite lookup_insert_eq. cbn [of_option mbind result_bind]. unfold binary_data.
  cbn [ch_data ch_dtype]. rewrite Nat.eqb_refl. done.
Qed.

Lemma shared_mean :
  div_scalar h2 (Some (next_cell (heap_ s))) (f32_of_Z (num_global_workers env)) = Ok (Some (next_cell h2), h3).
Proof. unfold div_scalar. cbn [deref alloc put cells next_cell snd]. rewrite lookup_insert_eq. done. Qed.

Lemma hfa_finish meta data :
  let ts := Z.of_nat (length (tracker_ s)) in
  ∃ s', finish_local env updater shuffle type false key meta data s = Ok (tt, s') ∧
    outbox s' = outbox s ++ [PushGlobal ts (owner_id env key) (dense_msg env key 4 delta) (GetCommandType kDefaultPushPull 0) key].
Proof.
  intros ts. destruct Hperiod as [Hk2 Hrem]. eexists. split.
  { unfold finish_local, get_updates. srun. rewrite Hu. cbn [request].
    rewrite (proj2 (Z.eqb_eq _ _) Hcount), when_true. eapply run_bind; [apply shared_apply|]. cbv beta.
    eapply (run_bind _ _ _ tt (set_local_iters iters (set_heap h1 s))).
    { destruct (key =? 0); [reflexivity|]. by destruct s. }
    cbv beta. srun. rewrite (proj2 (Z.eqb_neq _ _) Hk2), Hrem, Hhfa. cbn [Z.eqb negb andb].
    srun. srun. srun. rewrite Hshared. cbn [default from_option id is_none negb]. srun. srun. unfold slot. srun. srun. rewrite Hstore.
    cbn [default from_option id]. srun. eapply run_bind; [apply on_heap_new_Ok; sproj; apply shared_delta|]. cbv beta. sproj.
    srun. eapply run_bind; [apply on_heap_new_Ok; sproj; apply shared_mean|]. cbv beta. sproj.
    unfold set_slot. srun. unfold get_updates_tmp. srun. unfold put_updates_tmp. srun.
    unfold clear_requests, get_updates. srun. srun. rewrite Hu. cbn [merged temp_array]. unfold put_updates. srun.
    rewrite Hintra. srun. unfold push_to_global. srun. rewrite Hgc.
    eapply run_bind; [apply (push_default_run env key 0 4 Hlocal Hinter Hservers Hkey eq_refl eq_refl _ (next_cell h2) delta)|];
      sproj; try done; rewrite ?length_fmap, ?length_zip_with, ?length_fmap, ?Hlen, ?Nat.min_id; try done.
    - apply lookup_insert_eq.
    - apply lookup_insert_eq. }
  sproj. done.
Qed.
End Round.
End Shared.

Lemma zip_self_zero l :
  Forall (fun x => is_finite x = true) l → zip_with (dsub 0) l l = replicate (length l) (S754_zero false).
Proof. induction 1 as [|x l Hx _ IH]; [done|]. cbn [zip_with length replicate]. f_equal; [by apply f32_sub_self|exact IH]. Qed.


(** A server at the end of a period: the milestone of key 7 exists. *)
Definition w_hfa_env : Env := {|
  is_global_server := false; enable_central_workers := false; num_workers := 2; num_servers := 1;
  num_global_workers := 2; num_global_servers := 3; my_rank := 0; my_global_rank := 0; my_global_id := 9;
  bigarray_bound_ := 1000000; size_lower_bound := 200000; use_hfa := true; period_k2 := 1;
  enable_p3 := false; enable_intra_ts := false; enable_inter_ts := false |}.
Definition w_hfa : Server :=
  set_store_milestone {[7 := Some 1%nat]} (set_heap {| cells := {[0%nat := {| ch_dtype := 0; ch_data := w_values [10; 20] |};
    1%nat := {| ch_dtype := 0; ch_data := w_values [10; 20] |}]}; next_cell := 2 |} (w_local (w_values [10; 20]))).
Definition w_synced : Server :=
  let h := alloc (heap_ w_hfa) {| ch_dtype := 0; ch_data := w_values [11; 22] |} in
  set_store_milestone {[7 := h.1]} (set_store {[7 := h.1]} (set_heap h.2 w_hfa)).

Lemma w_synced_refines : refines false {[7 := w_key_state (w_values [11; 22])]} w_synced.
Proof.
  exists {[2%nat := (7, false)]}. split; try done.
  - intros c. cbn. rewrite !lookup_insert_is_Some, lookup_singleton_is_Some. lia.
  - intros c [x Hx]. apply lookup_singleton_Some in Hx as [<- _]. by eexists.
  - intros k st Hk. apply lookup_singleton_Some in Hk as [<- <-]. split; [|done]. by exists 2%nat.
  - intros k Hk. apply lookup_singleton_None in Hk. cbn. by rewrite !lookup_singleton_ne.
Qed.

