(* ===== verification/Message.v ===== *)
(** * Messages and their wire format

    The header of a message: routing, the tracking fields of requests, the block fields
    of DGT, and the control part with node descriptions.  [PackMeta] copies a header into
    the protobuf message of meta.proto and [UnpackMeta] copies it back.
    Sources: src/3rdparty/ps-lite/include/ps/internal/message.h and
    src/3rdparty/ps-lite/src/van.cc, lines 1002-1126.

    The classes [PBMeta], [PBControl] and [PBNode] are generated from meta.proto; an
    optional field is an [option], and reading one that is absent gives its default.
    Their serialiser is a library: it is a parameter of [PackMeta] and [UnpackMeta]. *)

From Stdlib Require Import Ascii String.
From S2P Require Import Prelude Floats Customer.
Local Open Scope Z_scope.

(** ** Nodes *)
Inductive Role := SERVER | WORKER | SCHEDULER | GLOBAL_SERVER | GLOBAL_SCHEDULER.
Definition Role_to_int (r : Role) : Z :=
  match r with SERVER => 0 | WORKER => 1 | SCHEDULER => 2 | GLOBAL_SERVER => 3 | GLOBAL_SCHEDULER => 4 end.

#[export] Instance Role_eq_dec : EqDecision Role.
Proof. solve_decision. Defined.

(** A role is stored as the integer of the enum: [UnpackMeta] casts what it reads. *)
Record Node := {
  n_role : Z; n_id : Z; n_customer_id : Z; n_hostname : string; n_port : Z; n_udp_port : list Z; n_is_recovery : bool
}.

#[export] Instance Node_eq_dec : EqDecision Node.
Proof. solve_decision. Defined.

(** ** Control part *)
Inductive Command :=
  | EMPTY | TERMINATE | ADD_NODE | ADD_GLOBAL_NODE | BARRIER | BARRIER_GLOBAL
  | ACK | HEARTBEAT | AUTOPULLREPLY | ASKPULL | ASKPUSH | REPLY.

Definition Command_to_int (c : Command) : Z :=
  match c with
  | EMPTY => 0 | TERMINATE => 1 | ADD_NODE => 2 | ADD_GLOBAL_NODE => 3 | BARRIER => 4 | BARRIER_GLOBAL => 5
  | ACK => 6 | HEARTBEAT => 7 | AUTOPULLREPLY => 8 | ASKPULL => 9 | ASKPUSH => 10 | REPLY => 11
  end.

Record Control := { ct_cmd : Z; ct_node : list Node; ct_barrier_group : Z; ct_msg_sig : Z }.

Definition is_cmd (c : Control) (cmd : Command) : bool := ct_cmd c =? Command_to_int cmd.
Definition control_empty (c : Control) : bool := is_cmd c EMPTY.

(** The constructor sets [cmd] only; the other two integers are not initialised. *)
Definition Control_init : Control := {| ct_cmd := Command_to_int EMPTY; ct_node := []; ct_barrier_group := 0; ct_msg_sig := 0 |}.

#[export] Instance Control_eq_dec : EqDecision Control.
Proof. solve_decision. Defined.

(** ** Header *)
Record Meta := {
  mt_head : Z; mt_app_id : Z; mt_customer_id : Z; mt_timestamp : Z;
  mt_first_key : Z; mt_seq : Z; mt_seq_begin : Z; mt_seq_end : Z; mt_msg_type : Z; mt_push_op_num : Z;
  mt_val_bytes : Z; mt_total_bytes : Z; mt_channel : Z; mt_keys_len : Z; mt_vals_len : Z; mt_lens_len : Z; mt_tos : Z;
  mt_compr : list float; mt_bits_num : Z; mt_priority : Z;
  mt_sender : Z; mt_recver : Z; mt_request : bool; mt_push : bool;
  mt_key : Z; mt_version : Z; mt_iters : Z; mt_simple_app : bool; mt_body : string;
  mt_data_type : list Z; mt_control : Control
}.

#[export] Instance Meta_eq_dec : EqDecision Meta.
Proof. solve_decision. Defined.

Definition Meta_init : Meta := {|
  mt_head := kEmpty; mt_app_id := kEmpty; mt_customer_id := kEmpty; mt_timestamp := kEmpty;
  mt_first_key := 0; mt_seq := 0; mt_seq_begin := 0; mt_seq_end := 0; mt_msg_type := 0; mt_push_op_num := 0;
  mt_val_bytes := 0; mt_total_bytes := 0; mt_channel := 0; mt_keys_len := 0; mt_vals_len := 0; mt_lens_len := 0; mt_tos := 0;
  mt_compr := []; mt_bits_num := 32; mt_priority := 0;
  mt_sender := kEmpty; mt_recver := kEmpty; mt_request := false; mt_push := false;
  mt_key := kEmpty; mt_version := kEmpty; mt_iters := kEmpty; mt_simple_app := false; mt_body := EmptyString;
  mt_data_type := []; mt_control := Control_init |}.

(** A message: its header and its arrays, as bytes.  [contribution] is not sent. *)
Record Message := { meta : Meta; data : list (list Z); contribution : float }.

(** ** The protobuf messages of meta.proto *)
Record PBNode := {
  pbn_role : Z; pbn_id : option Z; pbn_hostname : option string; pbn_port : option Z; pbn_udp_port : list Z;
  pbn_is_recovery : option bool; pbn_customer_id : option Z
}.
Record PBControl := { pbc_cmd : Z; pbc_node : list PBNode; pbc_barrier_group : option Z; pbc_msg_sig : option Z }.
Record PBMeta := {
  pb_head : option Z; pb_body : option string; pb_control : option PBControl; pb_request : option bool;
  pb_app_id : option Z; pb_timestamp : option Z; pb_data_type : list Z; pb_customer_id : option Z;
  pb_push : option bool; pb_simple_app : option bool; pb_sender : option Z; pb_recver : option Z;
  pb_first_key : option Z; pb_seq : option Z; pb_seq_begin : option Z; pb_seq_end : option Z;
  pb_channel : option Z; pb_msg_type : option Z; pb_push_op : option Z; pb_val_bytes : option Z; pb_total_bytes : option Z;
  pb_keys_len : option Z; pb_vals_len : option Z; pb_lens_len : option Z; pb_compr : list float;
  pb_bits_num : option Z; pb_priority : option Z; pb_key : option Z; pb_version : option Z; pb_iters : option Z
}.

#[export] Instance PBNode_eq_dec : EqDecision PBNode.
Proof. solve_decision. Defined.
#[export] Instance PBControl_eq_dec : EqDecision PBControl.
Proof. solve_decision. Defined.
#[export] Instance PBMeta_eq_dec : EqDecision PBMeta.
Proof. solve_decision. Defined.

(** [if (x != kEmpty) set_f(x)] and [has_f() ? f() : kEmpty]. *)
Definition unless_empty (x : Z) : option Z := if x =? kEmpty then None else Some x.
Definition or_empty (o : option Z) : Z := default kEmpty o.

Definition pack_node (n : Node) : PBNode := {|
  pbn_role := n_role n; pbn_id := Some (n_id n); pbn_hostname := Some (n_hostname n); pbn_port := Some (n_port n);
  pbn_udp_port := n_udp_port n; pbn_is_recovery := Some (n_is_recovery n); pbn_customer_id := Some (n_customer_id n) |}.

Definition unpack_node (p : PBNode) : Node := {|
  n_role := pbn_role p; n_id := or_empty (pbn_id p); n_customer_id := default 0 (pbn_customer_id p);
  n_hostname := default EmptyString (pbn_hostname p); n_port := default 0 (pbn_port p); n_udp_port := pbn_udp_port p;
  n_is_recovery := default false (pbn_is_recovery p) |}.

Definition pack_control (c : Control) : option PBControl :=
  if control_empty c then None
  else
    let barrier := is_cmd c BARRIER || is_cmd c BARRIER_GLOBAL in
    Some {| pbc_cmd := ct_cmd c; pbc_node := pack_node <$> ct_node c;
            pbc_barrier_group := if barrier then Some (ct_barrier_group c) else None;
            pbc_msg_sig := if negb barrier && is_cmd c ACK then Some (ct_msg_sig c) else None |}.

(** [control] is the part of a freshly constructed [Meta]: only [cmd] is written when
    there is no control part. *)
Definition unpack_control (o : option PBControl) : Control :=
  match o with
  | Some p => {| ct_cmd := pbc_cmd p; ct_node := unpack_node <$> pbc_node p;
                 ct_barrier_group := default 0 (pbc_barrier_group p); ct_msg_sig := default 0 (pbc_msg_sig p) |}
  | None => Control_init
  end.

Definition to_pb (meta : Meta) (my_id : Z) : PBMeta := {|
  pb_head := Some (mt_head meta);
  pb_body := if bool_decide (mt_body meta = EmptyString) then None else Some (mt_body meta);
  pb_control := pack_control (mt_control meta);
  pb_request := Some (mt_request meta);
  pb_app_id := unless_empty (mt_app_id meta);
  pb_timestamp := unless_empty (mt_timestamp meta);
  pb_data_type := mt_data_type meta;
  pb_customer_id := Some (mt_customer_id meta);
  pb_push := Some (mt_push meta);
  pb_simple_app := Some (mt_simple_app meta);
  pb_sender := Some my_id;
  pb_recver := Some (mt_recver meta);
  pb_first_key := Some (mt_first_key meta);
  pb_seq := Some (mt_seq meta); pb_seq_begin := Some (mt_seq_begin meta); pb_seq_end := Some (mt_seq_end meta);
  pb_channel := Some (mt_channel meta); pb_msg_type := Some (mt_msg_type meta); pb_push_op := Some (mt_push_op_num meta);
  pb_val_bytes := Some (mt_val_bytes meta); pb_total_bytes := Some (mt_total_bytes meta);
  pb_keys_len := Some (mt_keys_len meta); pb_vals_len := Some (mt_vals_len meta); pb_lens_len := Some (mt_lens_len meta);
  pb_compr := mt_compr meta; pb_bits_num := Some (mt_bits_num meta); pb_priority := Some (mt_priority meta);
  pb_key := unless_empty (mt_key meta); pb_version := unless_empty (mt_version meta); pb_iters := unless_empty (mt_iters meta) |}.

Definition of_pb (pb : PBMeta) : Meta := {|
  mt_head := default 0 (pb_head pb);
  mt_app_id := or_empty (pb_app_id pb);
  mt_customer_id := default 0 (pb_customer_id pb);
  mt_timestamp := or_empty (pb_timestamp pb);
  mt_first_key := default 0 (pb_first_key pb);
  mt_seq := default 0 (pb_seq pb); mt_seq_begin := default 0 (pb_seq_begin pb); mt_seq_end := default 0 (pb_seq_end pb);
  mt_msg_type := default 0 (pb_msg_type pb); mt_push_op_num := default 0 (pb_push_op pb);
  mt_val_bytes := default 0 (pb_val_bytes pb); mt_total_bytes := default 0 (pb_total_bytes pb);
  mt_channel := default 0 (pb_channel pb);
  mt_keys_len := default 0 (pb_keys_len pb); mt_vals_len := default 0 (pb_vals_len pb); mt_lens_len := default 0 (pb_lens_len pb);
  mt_tos := mt_tos Meta_init;
  mt_compr := pb_compr pb; mt_bits_num := default 0 (pb_bits_num pb); mt_priority := default 0 (pb_priority pb);
  mt_sender := default 0 (pb_sender pb); mt_recver := default 0 (pb_recver pb);
  mt_request := default false (pb_request pb); mt_push := default false (pb_push pb);
  mt_key := or_empty (pb_key pb); mt_version := or_empty (pb_version pb); mt_iters := or_empty (pb_iters pb);
  mt_simple_app := default false (pb_simple_app pb);
  mt_body := default EmptyString (pb_body pb);
  mt_data_type := pb_data_type pb;
  mt_control := unpack_control (pb_control pb) |}.

Section Wire.
Context (SerializeToArray : PBMeta → option (list Z)) (ParseFromArray : list Z → option PBMeta).

Definition PackMeta (meta : Meta) (my_id : Z) : result (list Z) :=
  of_option (CheckFailed "failed to serialize protbuf") (SerializeToArray (to_pb meta my_id)).

Definition UnpackMeta (meta_buf : list Z) : result Meta :=
  pb ← of_option (CheckFailed "failed to parse string into protobuf") (ParseFromArray meta_buf);
  Ok (of_pb pb).
End Wire.

(** ** Round trip *)

(** What the control part keeps: the group of barriers, the signature of ACKs. *)
Definition sent_control (c : Control) : Control :=
  if control_empty c then Control_init
  else
    let barrier := is_cmd c BARRIER || is_cmd c BARRIER_GLOBAL in
    {| ct_cmd := ct_cmd c; ct_node := ct_node c;
       ct_barrier_group := if barrier then ct_barrier_group c else 0;
       ct_msg_sig := if is_cmd c ACK then ct_msg_sig c else 0 |}.

(** The header the receiver sees: the sender's id is filled in and [tos] is not sent. *)
Definition received (meta : Meta) (my_id : Z) : Meta := {|
  mt_head := mt_head meta; mt_app_id := mt_app_id meta; mt_customer_id := mt_customer_id meta; mt_timestamp := mt_timestamp meta;
  mt_first_key := mt_first_key meta; mt_seq := mt_seq meta; mt_seq_begin := mt_seq_begin meta; mt_seq_end := mt_seq_end meta;
  mt_msg_type := mt_msg_type meta; mt_push_op_num := mt_push_op_num meta;
  mt_val_bytes := mt_val_bytes meta; mt_total_bytes := mt_total_bytes meta; mt_channel := mt_channel meta;
  mt_keys_len := mt_keys_len meta; mt_vals_len := mt_vals_len meta; mt_lens_len := mt_lens_len meta; mt_tos := 0;
  mt_compr := mt_compr meta; mt_bits_num := mt_bits_num meta; mt_priority := mt_priority meta;
  mt_sender := my_id; mt_recver := mt_recver meta; mt_request := mt_request meta; mt_push := mt_push meta;
  mt_key := mt_key meta; mt_version := mt_version meta; mt_iters := mt_iters meta; mt_simple_app := mt_simple_app meta;
  mt_body := mt_body meta; mt_data_type := mt_data_type meta; mt_control := sent_control (mt_control meta) |}.

Lemma or_unless_empty x : or_empty (unless_empty x) = x.
Proof. unfold or_empty, unless_empty. destruct (Z.eqb_spec x kEmpty) as [->|]; done. Qed.

Lemma unpack_pack_node n : unpack_node (pack_node n) = n.
Proof. by destruct n. Qed.

Lemma unpack_pack_nodes (l : list Node) : unpack_node <$> (pack_node <$> l) = l.
Proof. rewrite <- list_fmap_compose. induction l as [|n l IH]; [done|]. rewrite fmap_cons, IH. by cbn; rewrite unpack_pack_node. Qed.

Lemma unpack_pack_control c : unpack_control (pack_control c) = sent_control c.
Proof.
  unfold pack_control, sent_control. destruct (control_empty c); [done|]. cbn [unpack_control pbc_cmd pbc_node pbc_barrier_group pbc_msg_sig].
  rewrite unpack_pack_nodes. f_equal.
  - by destruct (is_cmd c BARRIER || is_cmd c BARRIER_GLOBAL).
  - destruct (is_cmd c ACK) eqn:E; [|by rewrite andb_false_r]. unfold is_cmd in *. apply Z.eqb_eq in E. by rewrite E.
Qed.

Lemma of_to_pb m my_id : of_pb (to_pb m my_id) = received m my_id.
Proof.
  unfold of_pb, to_pb, received. cbn [pb_app_id pb_timestamp pb_key pb_version pb_iters pb_body pb_control].
  rewrite !or_unless_empty, unpack_pack_control. f_equal. case_bool_decide as E; [by rewrite E|done].
Qed.

(** A message header survives the wire.  With a serialiser that parses back what it
    writes, the receiver of a packed header gets every field the sender set, with the
    sender's own id filled in; only [tos], and the barrier group and signature of control
    messages that have no use for them, are reset. *)
Theorem meta_roundtrip SerializeToArray ParseFromArray m my_id buf :
  (∀ pb bytes, SerializeToArray pb = Some bytes → ParseFromArray bytes = Some pb) →
  PackMeta SerializeToArray m my_id = Ok buf →
  UnpackMeta ParseFromArray buf = Ok (received m my_id).
Proof.
  intros Hparse. unfold PackMeta, UnpackMeta. destruct (SerializeToArray _) as [b|] eqn:E; [|done].
  intros [= <-]. rewrite (Hparse _ _ E). cbn. by rewrite of_to_pb.
Qed.

(** A channel that carries one header: the request that starts a barrier. *)
Definition w_barrier : Meta := {|
  mt_head := kEmpty; mt_app_id := 0; mt_customer_id := 0; mt_timestamp := 3;
  mt_first_key := 0; mt_seq := 0; mt_seq_begin := 0; mt_seq_end := 0; mt_msg_type := 0; mt_push_op_num := 0;
  mt_val_bytes := 0; mt_total_bytes := 0; mt_channel := 0; mt_keys_len := 0; mt_vals_len := 0; mt_lens_len := 0; mt_tos := 32;
  mt_compr := []; mt_bits_num := 32; mt_priority := 0;
  mt_sender := kEmpty; mt_recver := 1; mt_request := true; mt_push := false;
  mt_key := kEmpty; mt_version := kEmpty; mt_iters := kEmpty; mt_simple_app := false; mt_body := EmptyString;
  mt_data_type := []; mt_control := {| ct_cmd := Command_to_int BARRIER; ct_node := []; ct_barrier_group := 7; ct_msg_sig := 5 |} |}.
Definition w_serialize (pb : PBMeta) : option (list Z) := if decide (pb = to_pb w_barrier 9) then Some [1] else None.
Definition w_parse (bytes : list Z) : option PBMeta := Some (to_pb w_barrier 9).

Lemma meta_roundtrip_witness :
  UnpackMeta w_parse [1] = Ok (received w_barrier 9) ∧ mt_sender (received w_barrier 9) = 9 ∧
  mt_control (received w_barrier 9) = {| ct_cmd := 4; ct_node := []; ct_barrier_group := 7; ct_msg_sig := 0 |}.
Proof.
  split; [|split; reflexivity]. apply (meta_roundtrip w_serialize w_parse w_barrier 9 [1]).
  - intros pb bytes. unfold w_serialize, w_parse. case_decide as E; [by rewrite E|done].
  - unfold PackMeta, w_serialize. by rewrite decide_True.
Defined.
