(* ===== verification/Resender.v ===== *)
(** * Resending lost messages

    With PS_RESEND a node keeps the messages it has sent until they are acknowledged, sends
    them again when no acknowledgement arrives in time, and drops messages it has received
    before: src/3rdparty/ps-lite/src/resender.h, called from [Van::Send] and
    [Van::Receiving] of src/3rdparty/ps-lite/src/van.cc.

    The nodes of a data center run over a network that may lose and repeat messages.  A
    message is identified by a key of 64 bits; where keys are distinct, a message is
    delivered at most once, the sender keeps it until then, and a sender whose retries are
    not used up can get it delivered. *)

From Stdlib Require Import String.
From stdpp Require Import functions.
From S2P Require Import Prelude Floats Customer Message.
Local Open Scope Z_scope.

(** ** The resender of a node *)
Record Entry := { msg : Message; send : Z; num_retry : Z }.
Record Resender := { send_buff_ : gmap Z Entry; acked_ : gset Z }.

Definition is_ack (m : Message) : bool := is_cmd (mt_control (meta m)) ACK.
Definition is_terminate (m : Message) : bool := is_cmd (mt_control (meta m)) TERMINATE.

(** The shift of the timestamp is one of int; the result is converted to 64 bits. *)
Definition GetKey (my_id : Z) (m : Message) : result Z :=
  let t := meta m in
  check (negb (mt_timestamp t =? kEmpty)) "msg.meta.timestamp != Meta::kEmpty";;
  let id := u16 (mt_app_id t) in
  let sender := u8 (if mt_sender t =? kEmpty then my_id else mt_sender t) in
  let recver := u8 (mt_recver t) in
  Ok (Z.lor (Z.lor (Z.lor (Z.lor (Z.shiftl id 48) (Z.shiftl sender 40)) (Z.shiftl recver 32))
                   (u64 (i32 (Z.shiftl (mt_timestamp t) 1)))) (Z.b2z (mt_request t))).

Definition AddOutgoing (my_id now : Z) (m : Message) (r : Resender) : result Resender :=
  if is_ack m then Ok r else
  check (negb (mt_timestamp (meta m) =? kEmpty)) "msg.meta.timestamp != Meta::kEmpty";;
  key ← GetKey my_id m;
  match send_buff_ r !! key with
  | Some _ => Ok r
  | None => Ok {| send_buff_ := <[key := {| msg := m; send := now; num_retry := 0 |}]> (send_buff_ r); acked_ := acked_ r |}
  end.

Definition ack_message (m : Message) (key : Z) : Message :=
  let t := Meta_init in
  {| meta := {| mt_head := mt_head t; mt_app_id := mt_app_id t; mt_customer_id := mt_customer_id t; mt_timestamp := mt_timestamp t;
       mt_first_key := mt_first_key t; mt_seq := mt_seq t; mt_seq_begin := mt_seq_begin t; mt_seq_end := mt_seq_end t;
       mt_msg_type := mt_msg_type t; mt_push_op_num := mt_push_op_num t;
       mt_val_bytes := mt_val_bytes t; mt_total_bytes := mt_total_bytes t; mt_channel := mt_channel t;
       mt_keys_len := mt_keys_len t; mt_vals_len := mt_vals_len t; mt_lens_len := mt_lens_len t; mt_tos := mt_tos t;
       mt_compr := mt_compr t; mt_bits_num := mt_bits_num t; mt_priority := mt_priority t;
       mt_sender := mt_recver (meta m); mt_recver := mt_sender (meta m); mt_request := mt_request t; mt_push := mt_push t;
       mt_key := mt_key t; mt_version := mt_version t; mt_iters := mt_iters t; mt_simple_app := mt_simple_app t;
       mt_body := mt_body t; mt_data_type := mt_data_type t;
       mt_control := {| ct_cmd := Command_to_int ACK; ct_node := []; ct_barrier_group := 0; ct_msg_sig := key |} |};
     data := []; contribution := f32_zero |}.

(** The result: whether the message is dropped, the new state and the message sent back. *)
Definition AddIncomming (my_id : Z) (m : Message) (r : Resender) : result (bool * Resender * option Message) :=
  if is_terminate m then Ok (false, r, None)
  else if is_ack m then
    Ok (true, {| send_buff_ := delete (ct_msg_sig (mt_control (meta m))) (send_buff_ r); acked_ := acked_ r |}, None)
  else
    key ← GetKey my_id m;
    let duplicated := bool_decide (key ∈ acked_ r) in
    Ok (duplicated, {| send_buff_ := send_buff_ r; acked_ := if duplicated then acked_ r else {[key]} ∪ acked_ r |}, Some (ack_message m key)).

Definition expired (timeout now : Z) (e : Entry) : bool := send e + timeout * (1 + num_retry e) <? now.

(** One round of the monitor: the messages to send again, and the entries with the retries
    counted. *)
Definition monitor_entry (timeout max_num_retry now : Z) (x : list Message * gmap Z Entry) (it : Z * Entry) : result (list Message * gmap Z Entry) :=
  let e := it.2 in
  if expired timeout now e then
    let e' := {| msg := msg e; send := send e; num_retry := num_retry e + 1 |} in
    check (num_retry e' <? max_num_retry) "it.second.num_retry < max_num_retry_";;
    Ok (x.1 ++ [msg e], <[it.1 := e']> x.2)
  else Ok x.
Definition Monitoring (timeout max_num_retry now : Z) (r : Resender) : result (list Message * Resender) :=
  x ← foldM (monitor_entry timeout max_num_retry now) ([], send_buff_ r) (map_to_list (send_buff_ r));
  Ok (x.1, {| send_buff_ := x.2; acked_ := acked_ r |}).

(** ** Nodes and network *)

(** [to_send] are the messages that threads of the node are about to send, [sending] those
    between [SendMsg] and [AddOutgoing] in [Van::Send], [delivered] those [Van::Receiving]
    has handed on. *)
Record node := { resender_ : Resender; to_send : list Message; sending : list Message; delivered : list Message }.

Record system := { nodes : Z → node; net : list (Z * Message); submitted : list (Z * Message) }.

(** A message of node [a] as its receiver sees it. *)
Definition wire (a : Z) (m : Message) : Message := {| meta := received (meta m) a; data := data m; contribution := f32_zero |}.
Definition packet (a : Z) (m : Message) : Z * Message := (mt_recver (meta m), wire a m).

(** [Van::Send] up to [SendMsg], and from [AddOutgoing]. *)
Definition send_msg (a : Z) (m : Message) (rest : list Message) (s : system) : system :=
  let n := nodes s a in
  {| nodes := <[a := {| resender_ := resender_ n; to_send := rest; sending := m :: sending n; delivered := delivered n |}]> (nodes s);
     net := packet a m :: net s; submitted := submitted s |}.
Definition add_outgoing (a now : Z) (m : Message) (rest : list Message) (s : system) : result system :=
  let n := nodes s a in
  r ← AddOutgoing a now m (resender_ n);
  Ok {| nodes := <[a := {| resender_ := r; to_send := to_send n; sending := rest; delivered := delivered n |}]> (nodes s);
        net := net s; submitted := submitted s |}.

(** The start of a round of [Van::Receiving]: duplicates and acknowledgements are dropped. *)
Definition receive (b : Z) (m : Message) (rest : list (Z * Message)) (s : system) : result system :=
  let n := nodes s b in
  x ← AddIncomming b m (resender_ n);
  let '(dropped, r, ack) := x in
  Ok {| nodes := <[b := {| resender_ := r; to_send := to_send n; sending := sending n;
                           delivered := if (dropped : bool) then delivered n else delivered n ++ [m] |}]> (nodes s);
        net := match (ack : option Message) with Some ack => packet b ack :: rest | None => rest end; submitted := submitted s |}.

Definition monitor (timeout max_num_retry a now : Z) (s : system) : result system :=
  let n := nodes s a in
  x ← Monitoring timeout max_num_retry now (resender_ n);
  Ok {| nodes := <[a := {| resender_ := x.2; to_send := to_send n ++ x.1; sending := sending n; delivered := delivered n |}]> (nodes s);
        net := net s; submitted := submitted s |}.

Definition submit (a : Z) (m : Message) (s : system) : system :=
  let n := nodes s a in
  {| nodes := <[a := {| resender_ := resender_ n; to_send := to_send n ++ [m]; sending := sending n; delivered := delivered n |}]> (nodes s);
     net := net s; submitted := (a, m) :: submitted s |}.

(** What a node sends of its own: no acknowledgements, and with its own id or none. *)
Definition sendable (a : Z) (m : Message) : Prop := is_ack m = false ∧ a ≠ kEmpty ∧ (mt_sender (meta m) = kEmpty ∨ mt_sender (meta m) = a).

Section Steps.
Context (timeout max_num_retry : Z).

Inductive step : system → system → Prop :=
  | step_submit a m s : sendable a m → step s (submit a m s)
  | step_send_msg a m l1 l2 s : to_send (nodes s a) = l1 ++ m :: l2 → step s (send_msg a m (l1 ++ l2) s)
  | step_add_outgoing a now m l1 l2 s s' : sending (nodes s a) = l1 ++ m :: l2 → add_outgoing a now m (l1 ++ l2) s = Ok s' → step s s'
  | step_receive b m l1 l2 s s' : net s = l1 ++ (b, m) :: l2 → receive b m (l1 ++ l2) s = Ok s' → step s s'
  | step_lose x l1 l2 s : net s = l1 ++ x :: l2 → step s {| nodes := nodes s; net := l1 ++ l2; submitted := submitted s |}
  | step_repeat x s : x ∈ net s → step s {| nodes := nodes s; net := x :: net s; submitted := submitted s |}
  | step_monitor a now s s' : monitor timeout max_num_retry a now s = Ok s' → step s s'.

Definition init : system := {|
  nodes := fun _ => {| resender_ := {| send_buff_ := ∅; acked_ := ∅ |}; to_send := []; sending := []; delivered := [] |}; net := []; submitted := [] |}.
Definition reachable (s : system) : Prop := rtc step init s.
End Steps.

(** ** Keys *)
Lemma is_ack_wire a m : is_ack (wire a m) = is_ack m.
Proof. unfold is_ack, is_cmd, wire. cbn [meta received mt_control]. unfold sent_control, control_empty, is_cmd. destruct (Z.eqb_spec (ct_cmd (mt_control (meta m))) (Command_to_int EMPTY)) as [->|]; done. Qed.
Lemma is_terminate_wire a m : is_terminate (wire a m) = is_terminate m.
Proof. unfold is_terminate, is_cmd, wire. cbn [meta received mt_control]. unfold sent_control, control_empty, is_cmd. destruct (Z.eqb_spec (ct_cmd (mt_control (meta m))) (Command_to_int EMPTY)) as [->|]; done. Qed.
Lemma GetKey_wire a b m : sendable a m → GetKey b (wire a m) = GetKey a m.
Proof. intros (_ & Ha & Hs). unfold GetKey, wire. cbn [meta received mt_timestamp mt_sender mt_app_id mt_recver mt_request]. rewrite (proj2 (Z.eqb_neq a kEmpty) Ha). by destruct Hs as [-> | ->]; [rewrite Z.eqb_refl|rewrite (proj2 (Z.eqb_neq a kEmpty) Ha)]. Qed.

Lemma lor_add x n y : 0 ≤ n → 0 ≤ y < 2 ^ n → Z.lor (x * 2 ^ n) y = x * 2 ^ n + y.
Proof.
  intros Hn Hy. assert (Z.lor (x * 2 ^ n) y mod 2 ^ n = y) as Hm by (rewrite <- Z.land_ones, Z.land_lor_distr_l, !Z.land_ones, Z.mod_mul, Z.lor_0_l, Z.mod_small by lia; done).
  assert (Z.lor (x * 2 ^ n) y / 2 ^ n = x) as Hd by (rewrite <- Z.shiftr_div_pow2, Z.shiftr_lor, !Z.shiftr_div_pow2, Z.div_mul, Z.div_small, Z.lor_0_r by lia; done).
  pose proof (Z.div_mod (Z.lor (x * 2 ^ n) y) (2 ^ n) ltac:(lia)). lia.
Qed.

Definition sender_of (a : Z) (m : Message) : Z := if mt_sender (meta m) =? kEmpty then a else mt_sender (meta m).

(** Timestamps up to 2^30: above, the shift of the code overflows an int. *)
Lemma GetKey_sum a m : 0 ≤ mt_timestamp (meta m) < 2 ^ 30 →
  GetKey a m = Ok (u16 (mt_app_id (meta m)) * 2 ^ 48 + u8 (sender_of a m) * 2 ^ 40 + u8 (mt_recver (meta m)) * 2 ^ 32 + mt_timestamp (meta m) * 2 + Z.b2z (mt_request (meta m))).
Proof.
  intros Ht. unfold GetKey. rewrite check_bind_ok by (apply negb_true_iff, Z.eqb_neq; unfold kEmpty, INT_MAX; lia). fold (sender_of a m). f_equal.
  assert (0 ≤ u16 (mt_app_id (meta m)) < 2 ^ 16) as Hi by (apply Z.mod_pos_bound; lia). assert (0 ≤ u8 (sender_of a m) < 2 ^ 8) as Hs by (apply Z.mod_pos_bound; lia). assert (0 ≤ u8 (mt_recver (meta m)) < 2 ^ 8) as Hr by (apply Z.mod_pos_bound; lia).
  assert (0 ≤ Z.b2z (mt_request (meta m)) < 2 ^ 1) as Hb by (destruct (mt_request _); cbn; lia). generalize dependent (u16 (mt_app_id (meta m))). generalize dependent (u8 (sender_of a m)). generalize dependent (u8 (mt_recver (meta m))). generalize dependent (Z.b2z (mt_request (meta m))).
  intros b Hb r Hr s Hs i Hi. rewrite !Z.shiftl_mul_pow2 by lia. rewrite i32_id, u64_id by lia. generalize dependent (mt_timestamp (meta m)). intros t Ht.
  rewrite (lor_add i 48) by lia. replace (i * 2 ^ 48 + s * 2 ^ 40) with ((i * 2 ^ 8 + s) * 2 ^ 40) by lia. rewrite (lor_add _ 40) by lia. replace ((i * 2 ^ 8 + s) * 2 ^ 40 + r * 2 ^ 32) with (((i * 2 ^ 8 + s) * 2 ^ 8 + r) * 2 ^ 32) by lia.
  rewrite (lor_add _ 32) by lia. replace (((i * 2 ^ 8 + s) * 2 ^ 8 + r) * 2 ^ 32 + t * 2 ^ 1) with ((((i * 2 ^ 8 + s) * 2 ^ 8 + r) * 2 ^ 31 + t) * 2 ^ 1) by lia. rewrite (lor_add _ 1) by lia. lia.
Qed.

(** The fields a key is made of, and where they fit. *)
Definition key_fields (a : Z) (m : Message) : Z * Z * Z * Z * bool :=
  (mt_app_id (meta m), sender_of a m, mt_recver (meta m), mt_timestamp (meta m), mt_request (meta m)).
Definition key_fits (a : Z) (m : Message) : Prop :=
  0 ≤ mt_app_id (meta m) < 2 ^ 16 ∧ 0 ≤ sender_of a m < 2 ^ 8 ∧ 0 ≤ mt_recver (meta m) < 2 ^ 8 ∧ 0 ≤ mt_timestamp (meta m) < 2 ^ 30.

(** Within the widths of the key, that is 16 bits for the application, 8 for each node id
    and 30 for the timestamp, every message has a key of 64 bits, and two messages have the
    same key exactly if they agree on application, sender, receiver, timestamp and direction. *)
Theorem resender_key_unique a m a' m' : key_fits a m → key_fits a' m' →
  ∃ k k', GetKey a m = Ok k ∧ GetKey a' m' = Ok k' ∧ 0 ≤ k < 2 ^ 64 ∧ (k = k' ↔ key_fields a m = key_fields a' m').
Proof.
  intros (Hi & Hs & Hr & Ht) (Hi' & Hs' & Hr' & Ht'). eexists _, _. split; [by apply GetKey_sum|]. split; [by apply GetKey_sum|]. unfold u8, u16. rewrite !Z.mod_small by done. unfold key_fields.
  assert (∀ i s r t b i' s' r' t' b', 0 ≤ s < 2 ^ 8 → 0 ≤ r < 2 ^ 8 → 0 ≤ t < 2 ^ 30 → 0 ≤ b < 2 → 0 ≤ s' < 2 ^ 8 → 0 ≤ r' < 2 ^ 8 → 0 ≤ t' < 2 ^ 30 → 0 ≤ b' < 2 →
    i * 2 ^ 48 + s * 2 ^ 40 + r * 2 ^ 32 + t * 2 + b = i' * 2 ^ 48 + s' * 2 ^ 40 + r' * 2 ^ 32 + t' * 2 + b' → i = i' ∧ s = s' ∧ r = r' ∧ t = t' ∧ b = b') as Hinj by lia.
  assert (∀ b : bool, 0 ≤ Z.b2z b < 2) as Hb by (intros []; cbn; lia). split; [pose proof (Hb (mt_request (meta m))); lia|]. split; [|by intros [= -> -> -> -> ->]].
  intros Heq. apply Hinj in Heq as (-> & -> & -> & -> & ->%Z.b2z_inj); done.
Qed.

(** A request of node 8 to node 9, and the next one. *)
Definition w_request_at (timestamp : Z) : Message := {|
  meta := {| mt_head := 0; mt_app_id := 0; mt_customer_id := 0; mt_timestamp := timestamp;
    mt_first_key := 0; mt_seq := 0; mt_seq_begin := 0; mt_seq_end := 0; mt_msg_type := 0; mt_push_op_num := 0;
    mt_val_bytes := 0; mt_total_bytes := 0; mt_channel := 0; mt_keys_len := 0; mt_vals_len := 0; mt_lens_len := 0; mt_tos := 0;
    mt_compr := []; mt_bits_num := 32; mt_priority := 0; mt_sender := kEmpty; mt_recver := 9; mt_request := true; mt_push := true;
    mt_key := kEmpty; mt_version := kEmpty; mt_iters := kEmpty; mt_simple_app := false; mt_body := EmptyString;
    mt_data_type := []; mt_control := Control_init |};
  data := []; contribution := f32_zero |}.
Lemma resender_key_unique_witness : ∃ k k', GetKey 8 (w_request_at 7) = Ok k ∧ GetKey 8 (w_request_at 8) = Ok k' ∧ 0 ≤ k < 2 ^ 64 ∧
  (k = k' ↔ key_fields 8 (w_request_at 7) = key_fields 8 (w_request_at 8)).
Proof. apply (resender_key_unique 8 (w_request_at 7) 8 (w_request_at 8)); by_decision. Defined.

(** ** Keys that do not match *)

(** The messages of [AutoPullUpdate] carry the timestamp -1, which fills the upper half of the
    key as well. *)
Lemma autopull_key b m : mt_timestamp (meta m) = -1 → GetKey b m = Ok (Z.lor (2 ^ 64 - 2) (Z.b2z (mt_request (meta m)))).
Proof.
  intros Ht. unfold GetKey. rewrite Ht. rewrite check_bind_ok by done. f_equal. f_equal. change (u64 (i32 (Z.shiftl (-1) 1))) with (Z.shiftl (Z.ones 63) 1).
  assert (0 ≤ u16 (mt_app_id (meta m)) < 2 ^ 16) as Hi by (apply Z.mod_pos_bound; lia). assert (∀ z, 0 ≤ u8 z < 2 ^ 8) as Hs by (intros z; apply Z.mod_pos_bound; lia). fold (sender_of b m). pose proof (Hs (sender_of b m)) as Ha. pose proof (Hs (mt_recver (meta m))) as Hr.
  revert Hi Ha Hr. generalize (u16 (mt_app_id (meta m))) (u8 (sender_of b m)) (u8 (mt_recver (meta m))). intros i a r Hi Ha Hr. rewrite !Z.shiftl_mul_pow2 by lia.
  rewrite (lor_add i 48) by lia. replace (i * 2 ^ 48 + a * 2 ^ 40) with ((i * 2 ^ 8 + a) * 2 ^ 40) by lia. rewrite (lor_add _ 40) by lia. replace ((i * 2 ^ 8 + a) * 2 ^ 40 + r * 2 ^ 32) with ((((i * 2 ^ 8 + a) * 2 ^ 8 + r) * 2 ^ 31) * 2 ^ 1) by lia.
  assert (0 ≤ ((i * 2 ^ 8 + a) * 2 ^ 8 + r) * 2 ^ 31 < 2 ^ 63) as Hy by lia. revert Hy. generalize (((i * 2 ^ 8 + a) * 2 ^ 8 + r) * 2 ^ 31). intros y Hy.
  rewrite <- (Z.shiftl_mul_pow2 y 1), <- (Z.shiftl_mul_pow2 (Z.ones 63) 1), <- Z.shiftl_lor by lia. rewrite Z.lor_ones_low; [done|lia|]. destruct (decide (y = 0)) as [->|Hne]; [done|]. apply Z.log2_lt_pow2; lia.
Qed.

(** So a node takes one such message, and any other for a repetition of it. *)
Lemma autopull_dropped b m1 m2 r dup r1 ack : mt_timestamp (meta m1) = -1 → mt_timestamp (meta m2) = -1 → mt_request (meta m1) = mt_request (meta m2) →
  is_terminate m1 = false → is_ack m1 = false → is_terminate m2 = false → is_ack m2 = false → AddIncomming b m1 r = Ok (dup, r1, ack) →
  ∃ ack', AddIncomming b m2 r1 = Ok (true, r1, Some ack').
Proof.
  intros H1 H2 Hreq Ht1 Ha1 Ht2 Ha2 Hin. unfold AddIncomming in *. rewrite Ht1, Ha1, (autopull_key b m1 H1) in Hin. rewrite Ht2, Ha2, (autopull_key b m2 H2), <- Hreq. eexists. revert Hin. rstep. intros [= <- <- <-]. cbn [acked_ send_buff_].
  rewrite !bool_decide_eq_true_2 by (case_bool_decide; set_solver). done.
Qed.

(** C36: A message that a server sends to the global tier carries its global id, but the key it
    is buffered under is made with its local id.  Where the two differ, the acknowledgement
    of the receiver names another key and leaves the buffer as it is: the message is sent
    again until the retries are used up. *)
Theorem resender_global_unacknowledged (local global b now : Z) (m : Message) (r r1 rb rb' : Resender) (dup : bool) (ack : Message) :
  is_ack m = false → is_terminate m = false → mt_sender (meta m) = kEmpty → 0 ≤ mt_timestamp (meta m) < 2 ^ 30 → global ≠ kEmpty → u8 local ≠ u8 global →
  send_buff_ r = ∅ → AddOutgoing local now m r = Ok r1 → AddIncomming b (wire global m) rb = Ok (dup, rb', Some ack) →
  ∃ r2, AddIncomming local (wire b ack) r1 = Ok (true, r2, None) ∧ send_buff_ r2 = send_buff_ r1 ∧ send_buff_ r2 ≠ ∅.
Proof.
  intros Hack Ht Hsend Hts Hg Hne Hr Hout Hin. unfold AddOutgoing in Hout. rewrite Hack in Hout. apply check_inv in Hout as [_ Hout]. rewrite GetKey_sum in Hout by done. cbn [mbind result_bind] in Hout. rewrite Hr, lookup_empty in Hout. injection Hout as <-.
  unfold AddIncomming in Hin. rewrite is_terminate_wire, is_ack_wire, Ht, Hack, GetKey_sum in Hin by done. cbn [mbind result_bind] in Hin. injection Hin as _ _ <-. eexists. split; [done|]. cbn [send_buff_].
  cbn [wire received ack_message meta mt_control sent_control control_empty is_cmd ct_cmd ct_msg_sig Command_to_int Z.eqb Pos.eqb mt_app_id mt_recver mt_timestamp mt_request].
  assert (sender_of local m = local ∧ sender_of b (wire global m) = global) as [-> ->].
  { unfold sender_of, wire. cbn [meta received mt_sender]. rewrite Hsend, Z.eqb_refl, (proj2 (Z.eqb_neq _ _) Hg). done. }
  rewrite delete_id; [split; [done|apply insert_non_empty]|]. apply lookup_insert_None. split; [apply lookup_empty|]. assert (∀ z, 0 ≤ u8 z < 2 ^ 8) as H8 by (intros z; apply Z.mod_pos_bound; lia). pose proof (H8 local). pose proof (H8 global).
  lia.
Qed.

(** A server with id 8 in its data center and 9 in the global tier. *)
Definition w_empty : Resender := {| send_buff_ := ∅; acked_ := ∅ |}.
Definition w_buffered : Resender := {| send_buff_ := {[8 * 2 ^ 40 + 9 * 2 ^ 32 + 15 := {| msg := w_request_at 7; send := 0; num_retry := 0 |}]}; acked_ := ∅ |}.
Definition w_acked : Resender := {| send_buff_ := ∅; acked_ := {[9 * 2 ^ 40 + 9 * 2 ^ 32 + 15]} |}.
Lemma resender_global_unacknowledged_witness :
  ∃ r2, AddIncomming 8 (wire 9 (ack_message (wire 9 (w_request_at 7)) (9 * 2 ^ 40 + 9 * 2 ^ 32 + 15))) w_buffered = Ok (true, r2, None) ∧ send_buff_ r2 = send_buff_ w_buffered ∧ send_buff_ r2 ≠ ∅.
Proof.
  apply (resender_global_unacknowledged 8 9 9 0 (w_request_at 7) w_empty w_buffered w_empty w_acked false (ack_message (wire 9 (w_request_at 7)) (9 * 2 ^ 40 + 9 * 2 ^ 32 + 15)));
    try reflexivity; try by_decision.
Defined.
