(* ===== verification/ResenderSafe.v ===== *)
(** * Messages are delivered exactly once

    The invariant of the nodes and the network of Resender.v: what a node has buffered or is
    about to send was submitted by it, what was delivered was submitted and has a key of its
    own, and an acknowledgement on the network names a message that has arrived. *)

From Stdlib Require Import String.
From stdpp Require Import functions.
From S2P Require Import Prelude Floats Customer Message Resender.
Local Open Scope Z_scope.

(** ** What every step keeps *)
Definition ordinary (m : Message) : Prop := is_ack m = false ∧ is_terminate m = false.

(** No two messages have the same key. *)
Definition distinct (sub : list (Z * Message)) : Prop :=
  ∀ a m a' m' k, (a, m) ∈ sub → (a', m') ∈ sub → GetKey a m = Ok k → GetKey a' m' = Ok k → a = a' ∧ m = m'.

(** The keys of the messages delivered at [b], other than TERMINATE. *)
Definition delivered_key (b : Z) (x : Message) : option Z :=
  if is_terminate x then None else match GetKey b x with Ok k => Some k | Err _ => None end.
Definition delivered_keys (b : Z) (n : node) : list Z := omap (delivered_key b) (delivered n).

Record node_ok (sub : list (Z * Message)) (a : Z) (n : node) : Prop := {
  ok_own : ∀ m, m ∈ to_send n ++ sending n → (a, m) ∈ sub;
  ok_buff : ∀ k e, send_buff_ (resender_ n) !! k = Some e → (a, msg e) ∈ sub ∧ GetKey a (msg e) = Ok k;
  ok_delivered : ∀ x, x ∈ delivered n → ∃ c m, (c, m) ∈ sub ∧ mt_recver (meta m) = a ∧ x = wire c m;
  ok_acked : ∀ k, k ∈ acked_ (resender_ n) ↔ k ∈ delivered_keys a n;
  ok_once : NoDup (delivered_keys a n) }.

Definition arrived (ns : Z → node) (a : Z) (m : Message) : Prop := wire a m ∈ delivered (ns (mt_recver (meta m))).
Definition kept (n : node) (m : Message) : Prop :=
  m ∈ to_send n ∨ m ∈ sending n ∨ ∃ k e, send_buff_ (resender_ n) !! k = Some e ∧ msg e = m.

(** A packet is a message that was submitted, or the acknowledgement of one that arrived. *)
Definition acknowledges (s : system) (b : Z) (x : Message) : Prop :=
  is_ack x = true ∧ ∃ m, (b, m) ∈ submitted s ∧ GetKey b m = Ok (ct_msg_sig (mt_control (meta x))) ∧ arrived (nodes s) b m.
Definition packet_ok (s : system) (p : Z * Message) : Prop :=
  (∃ a m, (a, m) ∈ submitted s ∧ p = packet a m) ∨ acknowledges s p.1 p.2.

Record Inv (s : system) : Prop := {
  inv_sendable : ∀ a m, (a, m) ∈ submitted s → sendable a m;
  inv_nodes : ∀ a, node_ok (submitted s) a (nodes s a);
  inv_net : ∀ p, p ∈ net s → packet_ok s p;
  inv_kept : ∀ a m, (a, m) ∈ submitted s → ordinary m → kept (nodes s a) m ∨ arrived (nodes s) a m }.

(** A step that keeps what was delivered keeps what the network carries. *)
Lemma packet_ok_mono s s' p : (∀ q, q ∈ submitted s → q ∈ submitted s') → (∀ b x, x ∈ delivered (nodes s b) → x ∈ delivered (nodes s' b)) → packet_ok s p → packet_ok s' p.
Proof.
  intros Hsub Hd [(a & m & Hm & ->)|(Hack & m & Hm & Hk & Ha)]; [left; exists a, m; auto|]. right. split; [done|]. exists m. split; [auto|]. split; [done|]. by apply Hd.
Qed.

(** A change of one node. *)
Lemma inv_update s a n' net' :
  let s' := {| nodes := <[a := n']> (nodes s); net := net'; submitted := submitted s |} in
  Inv s → node_ok (submitted s) a n' → (∀ x, x ∈ delivered (nodes s a) → x ∈ delivered n') → (∀ p, p ∈ net' → p ∈ net s ∨ packet_ok s' p) →
  (∀ m, (a, m) ∈ submitted s → kept (nodes s a) m → kept n' m ∨ arrived (nodes s') a m) → Inv s'.
Proof.
  intros s' HI Hn Hd Hnet Hkept.
  assert (∀ b x, x ∈ delivered (nodes s b) → x ∈ delivered (<[a := n']> (nodes s) b)) as Hdel.
  { intros b x Hx. destruct (decide (a = b)) as [<-|Hne]; [rewrite fn_lookup_insert; auto|by rewrite fn_lookup_insert_ne]. }
  split; unfold s' in *; cbn [nodes net submitted] in *.
  - apply (inv_sendable s HI).
  - intros b. destruct (decide (a = b)) as [<-|Hne]; [by rewrite fn_lookup_insert|rewrite fn_lookup_insert_ne by done]. apply (inv_nodes s HI).
  - intros p Hp. destruct (Hnet p Hp) as [Hold|?]; [|done]. by eapply (packet_ok_mono s); [..|apply (inv_net s HI)].
  - intros b m Hm Ho. destruct (inv_kept s HI b m Hm Ho) as [Hk|Ha]; [|right; by apply Hdel]. destruct (decide (a = b)) as [<-|Hne].
    + rewrite fn_lookup_insert. by apply Hkept.
    + rewrite fn_lookup_insert_ne by done. by left.
Qed.

Lemma inv_submit a m s : sendable a m → Inv s → Inv (submit a m s).
Proof.
  intros Hs HI. assert (∀ b, delivered (<[a := {| resender_ := resender_ (nodes s a); to_send := to_send (nodes s a) ++ [m]; sending := sending (nodes s a); delivered := delivered (nodes s a) |}]> (nodes s) b) = delivered (nodes s b)) as Hd.
  { intros b. destruct (decide (a = b)) as [<-|Hne]; [by rewrite fn_lookup_insert|by rewrite fn_lookup_insert_ne]. }
  split; unfold submit; cbn [nodes net submitted].
  - intros b x. rewrite elem_of_cons. intros [[= -> ->]|Hx]; [done|]. by apply (inv_sendable s HI).
  - intros b. assert (node_ok ((a, m) :: submitted s) b (nodes s b)) as Hn.
    { destruct (inv_nodes s HI b) as [H1 H2 H3 H4 H5]. split; try done; [by right; auto| |]; [intros k e He; split; [right|]; by apply (H2 k e)|]. intros x Hx. destruct (H3 x Hx) as (c & y & ? & ?). exists c, y. by split; [right|]. }
    destruct (decide (a = b)) as [<-|Hne]; [rewrite fn_lookup_insert|by rewrite fn_lookup_insert_ne]. destruct Hn as [H1 H2 H3 H4 H5]. split; try done; cbn [to_send sending].
    intros x. rewrite <- (assoc_L (++)), !elem_of_app, list_elem_of_singleton. intros [?|[->|?]]; [apply H1, elem_of_app; by left|by left|apply H1, elem_of_app; by right].
  - intros p Hp. eapply (packet_ok_mono s); [..|by apply (inv_net s HI)]; cbn [submitted nodes]; [by right|]. intros b x. by rewrite Hd.
  - intros b x Hx Ho. unfold arrived. rewrite Hd. destruct (decide (a = b)) as [<-|Hne].
    + rewrite fn_lookup_insert. apply elem_of_cons in Hx as [[= ->]|Hx]; [left; left; cbn; apply elem_of_app; right; by left|].
      destruct (inv_kept s HI a x Hx Ho) as [[?|[?|?]]|?]; [left; left; cbn; apply elem_of_app; by left|left; by right; left|left; by right; right|by right].
    + rewrite fn_lookup_insert_ne by done. apply elem_of_cons in Hx as [[= ? ?]|Hx]; [by subst|]. by apply (inv_kept s HI).
Qed.

Lemma inv_send_msg a m l1 l2 s : to_send (nodes s a) = l1 ++ m :: l2 → Inv s → Inv (send_msg a m (l1 ++ l2) s).
Proof.
  intros Hl HI. destruct (inv_nodes s HI a) as [H1 H2 H3 H4 H5]. rewrite Hl in H1. assert ((a, m) ∈ submitted s) as Hm by (apply H1; set_solver).
  apply inv_update; [done| |done| |].
  - split; try done. cbn [to_send sending]. intros x Hx. apply H1. set_solver.
  - intros p. rewrite elem_of_cons. intros [->|?]; [right|by left]. left. by exists a, m.
  - intros x _ Hk. left. unfold kept in *. rewrite Hl in Hk. cbn [to_send sending resender_]. set_solver.
Qed.

Lemma AddOutgoing_inv a now m r r' : is_ack m = false → AddOutgoing a now m r = Ok r' → ∃ k, GetKey a m = Ok k ∧ acked_ r' = acked_ r ∧
  ((∃ e, send_buff_ r !! k = Some e ∧ r' = r) ∨ send_buff_ r' = <[k := {| msg := m; send := now; num_retry := 0 |}]> (send_buff_ r)).
Proof.
  unfold AddOutgoing. intros -> H. apply check_inv in H as [_ H]. apply bind_Ok_inv in H as (k & Hk & H). exists k. split; [done|].
  destruct (send_buff_ r !! k) as [e|] eqn:He; simplify_eq; split; try done; [left; by exists e|by right].
Qed.

Lemma inv_add_outgoing a now m l1 l2 s s' : sending (nodes s a) = l1 ++ m :: l2 → distinct (submitted s) → add_outgoing a now m (l1 ++ l2) s = Ok s' → Inv s → Inv s'.
Proof.
  intros Hl Hdist Hadd HI. destruct (inv_nodes s HI a) as [H1 H2 H3 H4 H5]. rewrite Hl in H1. assert ((a, m) ∈ submitted s) as Hm by (apply H1; set_solver).
  unfold add_outgoing in Hadd. apply bind_Ok_inv in Hadd as (r & Hr & [= <-]). destruct (AddOutgoing_inv a now m _ r (proj1 (inv_sendable s HI a m Hm)) Hr) as (k & Hk & Hacked & Hcases).
  assert (∀ x, x ∈ to_send (nodes s a) ++ l1 ++ l2 → (a, x) ∈ submitted s) as H1' by (intros x Hx; apply H1; set_solver).
  apply inv_update; [done| |done|by left|].
  - split; cbn [to_send sending resender_ delivered]; try done; [|intros k'; by rewrite Hacked]. destruct Hcases as [(e & He & ->)|Hb]; [done|]. intros k' e'. rewrite Hb. intros [[<- <-]|[_ ?]]%lookup_insert_Some; [done|by apply H2].
  - intros x Hx Hkx. left. unfold kept in *. cbn [to_send sending resender_]. assert (x ∈ to_send (nodes s a) ∨ x ∈ l1 ++ l2 ∨ (x = m ∨ ∃ k e, send_buff_ (resender_ (nodes s a)) !! k = Some e ∧ msg e = x)) as [?|[?|Hbuf]] by (rewrite Hl in Hkx; set_solver); [by left|by right; left|].
    right; right. destruct Hcases as [(e & He & ->)|Hb].
    + destruct Hbuf as [->|?]; [|done]. exists k, e. split; [done|]. destruct (H2 k e He) as [Hin Hke]. by destruct (Hdist a (msg e) a m k).
    + rewrite Hb. destruct Hbuf as [->|(k' & e & He & <-)]; [eexists k, _; by rewrite lookup_insert_eq|]. destruct (decide (k = k')) as [<-|Hne]; [|exists k', e; by rewrite lookup_insert_ne].
      destruct (H2 k e He) as [Hin Hke]. destruct (Hdist a (msg e) a m k) as [_ ->]; try done. eexists k, _. by rewrite lookup_insert_eq.
Qed.

(** Receiving an acknowledgement: the message it names has arrived. *)
Lemma inv_receive_ack b x l1 l2 s s' : net s = l1 ++ (b, x) :: l2 → distinct (submitted s) → is_terminate x = false → acknowledges s b x → receive b x (l1 ++ l2) s = Ok s' → Inv s → Inv s'.
Proof.
  intros Hl Hdist Ht (Hack & m & Hm & Hk & Ha) Hr HI. unfold receive, AddIncomming in Hr. rewrite Ht, Hack in Hr. cbn in Hr. injection Hr as <-. destruct (inv_nodes s HI b) as [H1 H2 H3 H4 H5].
  apply inv_update; [done| |done| |].
  - split; try done. cbn [resender_ send_buff_]. intros k e [_ He]%lookup_delete_Some. by apply H2.
  - intros p Hp. left. rewrite Hl. set_solver.
  - intros y Hy [?|[?|(k & e & He & <-)]]; [by left; left|by left; right; left|]. destruct (decide (k = ct_msg_sig (mt_control (meta x)))) as [->|Hne].
    + right. destruct (H2 _ e He) as [Hin Hke]. destruct (Hdist b (msg e) b m _ Hin Hm Hke Hk) as [_ ->]. unfold arrived in *. cbn [nodes]. destruct (decide (b = mt_recver (meta m))) as [Heq|Hne]; [by rewrite <- Heq in *; rewrite fn_lookup_insert|by rewrite fn_lookup_insert_ne].
    + left. right; right. exists k, e. cbn [resender_ send_buff_]. by rewrite lookup_delete_ne.
Qed.

Lemma delivered_keys_snoc b n x k r : is_terminate x = false → GetKey b x = Ok k →
  delivered_keys b {| resender_ := r; to_send := to_send n; sending := sending n; delivered := delivered n ++ [x] |} = delivered_keys b n ++ [k].
Proof. intros Ht Hk. unfold delivered_keys. cbn [delivered]. rewrite omap_app. cbn. unfold delivered_key at 2. by rewrite Ht, Hk. Qed.

(** A message whose key was delivered has arrived itself. *)
Lemma key_arrived s a m k : Inv s → distinct (submitted s) → (a, m) ∈ submitted s → ordinary m → GetKey a m = Ok k → k ∈ delivered_keys (mt_recver (meta m)) (nodes s (mt_recver (meta m))) → arrived (nodes s) a m.
Proof.
  intros HI Hdist Hm Ho Hk Hin. unfold delivered_keys in Hin. apply list_elem_of_omap in Hin as (x & Hx & Hkx). destruct (ok_delivered _ _ _ (inv_nodes s HI _) x Hx) as (c & m' & Hm' & Hb & ->).
  unfold delivered_key in Hkx. rewrite is_terminate_wire in Hkx. destruct (is_terminate m'); [done|]. rewrite GetKey_wire in Hkx by (by apply (inv_sendable s HI)).
  destruct (GetKey c m') as [k'|] eqn:Hk'; simplify_eq. destruct (Hdist a m c m' k) as [-> ->]; done.
Qed.

(** Receiving any other message. *)
Lemma inv_receive_data a m l1 l2 s s' : net s = l1 ++ packet a m :: l2 → distinct (submitted s) → (a, m) ∈ submitted s → ordinary m → receive (mt_recver (meta m)) (wire a m) (l1 ++ l2) s = Ok s' → Inv s → Inv s'.
Proof.
  intros Hl Hdist Hm [Hack Ht] Hr HI. unfold receive, AddIncomming in Hr. rewrite is_terminate_wire, is_ack_wire, Ht, Hack, GetKey_wire in Hr by (by apply (inv_sendable s HI)).
  apply bind_Ok_inv in Hr as (z & Hz & Hr). apply bind_Ok_inv in Hz as (k & Hk & [= <-]). cbn match in Hr. injection Hr as <-. set (b := mt_recver (meta m)) in *. pose proof (inv_nodes s HI b) as [H1 H2 H3 H4 H5].
  assert (GetKey b (wire a m) = Ok k) as Hkw by (by rewrite GetKey_wire by (by apply (inv_sendable s HI))).
  assert (∀ ns, wire a m ∈ delivered (ns b) → ∀ net', packet_ok {| nodes := ns; net := net'; submitted := submitted s |} (packet b (ack_message (wire a m) k))) as Hpk.
  { intros ns Hin net'. right. split; [done|]. exists m. by repeat split. }
  destruct (bool_decide_reflect (k ∈ acked_ (resender_ (nodes s b)))) as [Hin|Hout].
  - assert (arrived (nodes s) a m) as Harr by (apply (key_arrived s a m k); try done; by apply H4). apply inv_update; [done|by split|done| |by left].
    intros p. rewrite elem_of_cons. intros [->|Hp]; [right; apply Hpk; by rewrite fn_lookup_insert|left; rewrite Hl; set_solver].
  - apply inv_update; [done| | | |by left].
    + split; try done; cbn [resender_ send_buff_ acked_]; [|intros k'; rewrite (delivered_keys_snoc b _ _ k) by (by rewrite ?is_terminate_wire)|rewrite (delivered_keys_snoc b _ _ k) by (by rewrite ?is_terminate_wire)].
      * cbn [delivered]. intros x. rewrite elem_of_app, list_elem_of_singleton. intros [?| ->]; [by apply H3|]. by exists a, m.
      * rewrite elem_of_union, elem_of_singleton, elem_of_app, list_elem_of_singleton, H4. tauto.
      * apply NoDup_app. split; [done|]. split; [|apply NoDup_singleton]. intros k' Hk'. rewrite list_elem_of_singleton. intros ->. by apply Hout, H4.
    + intros x Hx. cbn. apply elem_of_app. by left.
    + intros p. rewrite elem_of_cons. intros [->|Hp]; [right; apply Hpk; rewrite fn_lookup_insert; cbn; set_solver|left; rewrite Hl; set_solver].
Qed.

(** Receiving TERMINATE. *)
Lemma inv_receive_terminate a m l1 l2 s s' : net s = l1 ++ packet a m :: l2 → (a, m) ∈ submitted s → is_terminate m = true → receive (mt_recver (meta m)) (wire a m) (l1 ++ l2) s = Ok s' → Inv s → Inv s'.
Proof.
  intros Hl Hm Ht Hr HI. unfold receive, AddIncomming in Hr. rewrite is_terminate_wire, Ht in Hr. cbn in Hr. injection Hr as <-. set (b := mt_recver (meta m)) in *. destruct (inv_nodes s HI b) as [H1 H2 H3 H4 H5].
  assert (∀ r t u, delivered_keys b {| resender_ := r; to_send := t; sending := u; delivered := delivered (nodes s b) ++ [wire a m] |} = delivered_keys b (nodes s b)) as Hkeys.
  { intros r t u. unfold delivered_keys. cbn [delivered]. rewrite omap_app. cbn. unfold delivered_key at 2. rewrite is_terminate_wire, Ht. by rewrite app_nil_r. }
  apply inv_update; [done| | | |by left].
  - split; [done|done| |intros k; by rewrite Hkeys|by rewrite Hkeys]. cbn [delivered]. intros x. rewrite elem_of_app, list_elem_of_singleton. intros [?| ->]; [by apply H3|]. by exists a, m.
  - intros x Hx. cbn. apply elem_of_app. by left.
  - intros p Hp. left. rewrite Hl. set_solver.
Qed.

(** ** The monitor *)
Section Monitor.
Context (timeout max_num_retry : Z).
Local Abbreviation step := (step timeout max_num_retry).

Lemma monitor_fold now l : ∀ x x', foldM (monitor_entry timeout max_num_retry now) x l = Ok x' → (∀ k e, (k, e) ∈ l → msg <$> (x.2 !! k) = Some (msg e)) →
  (∀ k, msg <$> (x'.2 !! k) = msg <$> (x.2 !! k)) ∧ (∀ m, m ∈ x'.1 → m ∈ x.1 ∨ ∃ k e, (k, e) ∈ l ∧ msg e = m).
Proof.
  induction l as [|[k e] l IH]; intros x x' H Hin; cbn [foldM] in H; [injection H as <-; split; [done|by left]|]. apply bind_Ok_inv in H as (y & Hy & H). unfold monitor_entry in Hy. cbn [fst snd] in Hy.
  assert ((∀ k', msg <$> (y.2 !! k') = msg <$> (x.2 !! k')) ∧ (∀ m, m ∈ y.1 → m ∈ x.1 ∨ msg e = m)) as [Hmsg Hres].
  { destruct (expired timeout now e); [|injection Hy as <-; split; [done|by left]]. apply check_inv in Hy as [_ [= <-]]. cbn [fst snd]. split; [|set_solver].
    intros k'. destruct (decide (k = k')) as [<-|Hne]; [rewrite lookup_insert_eq|by rewrite lookup_insert_ne]. cbn. by rewrite (Hin k e) by (by left). }
  destruct (IH y x' H) as [Hm Hr]; [intros k' e' Hk'; rewrite Hmsg; apply Hin; by right|]. split; [intros k'; by rewrite Hm, Hmsg|].
  intros m Hx. destruct (Hr m Hx) as [Hy'|(k' & e' & ? & <-)]; [|right; exists k', e'; by split; [right|]]. destruct (Hres m Hy') as [?|<-]; [by left|]. right. exists k, e. by split; [left|].
Qed.

Lemma Monitoring_inv now r resend r' : Monitoring timeout max_num_retry now r = Ok (resend, r') →
  acked_ r' = acked_ r ∧ (∀ k, msg <$> (send_buff_ r' !! k) = msg <$> (send_buff_ r !! k)) ∧ (∀ m, m ∈ resend → ∃ k e, send_buff_ r !! k = Some e ∧ msg e = m).
Proof.
  intros H. unfold Monitoring in H. apply bind_Ok_inv in H as (x & Hx & [= <- <-]). destruct (monitor_fold now _ _ x Hx) as [Hm Hr]; [intros k e He%elem_of_map_to_list; cbn [snd]; by rewrite He|].
  split; [done|]. split; [done|]. intros m Hin. destruct (Hr m Hin) as [[]%elem_of_nil|(k & e & He%elem_of_map_to_list & <-)]. by exists k, e.
Qed.

Lemma same_msg (r r' : gmap Z Entry) k e : (∀ k, msg <$> (r' !! k) = msg <$> (r !! k)) → r !! k = Some e → ∃ e', r' !! k = Some e' ∧ msg e' = msg e.
Proof. intros H He. specialize (H k). rewrite He in H. destruct (r' !! k) as [e'|]; [|done]. exists e'. split; [done|]. by injection H. Qed.

Lemma inv_monitor a now s s' : monitor timeout max_num_retry a now s = Ok s' → Inv s → Inv s'.
Proof.
  intros Hmon HI. unfold monitor in Hmon. apply bind_Ok_inv in Hmon as ([resend r] & Hr & [= <-]). destruct (Monitoring_inv now _ _ _ Hr) as (Hack & Hmsg & Hres). cbn [fst snd]. destruct (inv_nodes s HI a) as [H1 H2 H3 H4 H5].
  apply inv_update; [done| |done|by left|].
  - split; cbn [to_send sending resender_]; try done; [| |intros k; by rewrite Hack].
    + intros m. rewrite <- (assoc_L (++)), !elem_of_app. intros [?|[Hm|?]]; [apply H1; set_solver| |apply H1; set_solver]. destruct (Hres m Hm) as (k & e & He & <-). by apply (H2 k e).
    + intros k e He. destruct (same_msg r.(send_buff_) (send_buff_ (resender_ (nodes s a))) k e) as (e' & He' & <-); [intros; by rewrite Hmsg|done|]. by apply H2.
  - intros m _ [?|[?|(k & e & He & <-)]]; left; [left; cbn; set_solver|by right; left|]. right; right. destruct (same_msg _ _ k e Hmsg He) as (e' & ? & ?). by exists k, e'.
Qed.

(** ** Every reachable state *)
Lemma ack_not_terminate x : is_ack x = true → is_terminate x = false.
Proof. unfold is_ack, is_terminate, is_cmd. by intros ->%Z.eqb_eq. Qed.

Lemma inv_receive b x l1 l2 s s' : net s = l1 ++ (b, x) :: l2 → distinct (submitted s) → receive b x (l1 ++ l2) s = Ok s' → Inv s → Inv s'.
Proof.
  intros Hl Hdist Hr HI. destruct (inv_net s HI (b, x)) as [(a & m & Hm & Hp)|Hack]; [rewrite Hl; set_solver| |].
  - injection Hp as -> ->. destruct (is_terminate m) eqn:Ht; [by eapply inv_receive_terminate|]. eapply inv_receive_data; try done. split; [|done]. by destruct (inv_sendable s HI a m Hm).
  - eapply inv_receive_ack; try done. by apply ack_not_terminate, Hack.
Qed.

Lemma inv_net_sub s net' : (∀ p, p ∈ net' → p ∈ net s) → Inv s → Inv {| nodes := nodes s; net := net'; submitted := submitted s |}.
Proof. intros Hsub [H1 H2 H3 H4]. split; try done. intros p Hp. destruct (H3 p (Hsub p Hp)) as [?|?]; [by left|by right]. Qed.

Lemma step_submitted s s' : step s s' → ∀ q, q ∈ submitted s → q ∈ submitted s'.
Proof.
  intros Hs q Hq. destruct Hs as [a m s _|a m l1 l2 s _|a now m l1 l2 s s' _ H|b m l1 l2 s s' _ H|x l1 l2 s _|x s _|a now s s' H]; try done; [by right|..]; (apply bind_Ok_inv in H as (z & _ & H)); [by injection H as <-| |by injection H as <-]. destruct z as [[??]?]. by injection H as <-.
Qed.

Lemma resent_step s s' : step s s' → distinct (submitted s) → Inv s → Inv s'.
Proof.
  intros Hs Hdist HI. destruct Hs as [| | | |x l1 l2 s Hl|x s Hx|].
  - by apply inv_submit.
  - by apply inv_send_msg.
  - by eapply inv_add_outgoing.
  - by eapply inv_receive.
  - apply inv_net_sub; [|done]. intros p Hp. rewrite Hl. set_solver.
  - apply inv_net_sub; [|done]. set_solver.
  - by eapply inv_monitor.
Qed.

Lemma distinct_sub sub sub' : (∀ q, q ∈ sub → q ∈ sub') → distinct sub' → distinct sub.
Proof. intros Hsub H a m a' m' k ? ? ? ?. apply (H a m a' m' k); auto. Qed.

Lemma resent_init : Inv init.
Proof. split; try (intros ??? || intros ??); try set_solver. intros a. split; try set_solver. constructor. Qed.

Lemma resent_reachable s : reachable timeout max_num_retry s → distinct (submitted s) → Inv s.
Proof.
  revert s. apply (rtc_ind_r (fun s => distinct (submitted s) → Inv s)); [intros _; apply resent_init|]. intros s s' _ Hs IH Hd.
  pose proof (distinct_sub _ _ (step_submitted s s' Hs) Hd). apply (resent_step s s' Hs); auto.
Qed.

(** C5: Over a network that loses and repeats messages, and however sends, receptions,
    acknowledgements and the monitor interleave, where keys are distinct every message is
    delivered at most once and only at its receiver, and until it is delivered its sender
    still holds it: it is about to be sent, or in the buffer of messages to send again. *)
Theorem resender_exactly_once s : reachable timeout max_num_retry s → distinct (submitted s) →
  (∀ b, NoDup (delivered_keys b (nodes s b)) ∧ ∀ x, x ∈ delivered (nodes s b) → ∃ a m, (a, m) ∈ submitted s ∧ mt_recver (meta m) = b ∧ x = wire a m) ∧
  (∀ a m, (a, m) ∈ submitted s → ordinary m → kept (nodes s a) m ∨ arrived (nodes s) a m).
Proof.
  intros Hr Hd. pose proof (resent_reachable s Hr Hd) as HI. split; [|apply (inv_kept s HI)]. intros b. destruct (inv_nodes s HI b) as [_ _ H3 _ H5]. by split.
Qed.

(** ** A message gets through *)
Lemma monitor_all now l : (∀ k e, (k, e) ∈ l → expired timeout now e = true ∧ num_retry e + 1 < max_num_retry) →
  ∀ x, ∃ x', foldM (monitor_entry timeout max_num_retry now) x l = Ok x' ∧ (∀ m, m ∈ x.1 → m ∈ x'.1) ∧ (∀ k e, (k, e) ∈ l → msg e ∈ x'.1).
Proof.
  induction l as [|[k e] l IH]; intros Hl x; cbn [foldM]; [exists x; repeat split; [done|set_solver]|]. destruct (Hl k e ltac:(by left)) as [He Hn]. 
  assert (monitor_entry timeout max_num_retry now x (k, e) = Ok (x.1 ++ [msg e], <[k := {| msg := msg e; send := send e; num_retry := num_retry e + 1 |}]> x.2)) as -> by (unfold monitor_entry; cbn [fst snd]; rewrite He, check_bind_ok; [done|by apply Z.ltb_lt]). rstep.
  destruct (IH ltac:(intros; apply (Hl k0); by right) (x.1 ++ [msg e], <[k := {| msg := msg e; send := send e; num_retry := num_retry e + 1 |}]> x.2)) as (x' & Hx & H1 & H2). exists x'. split; [done|]. cbn [fst] in H1. split; [set_solver|].
  intros k' e'. rewrite elem_of_cons. intros [[= -> ->]|?]; [apply H1; set_solver|by eapply H2].
Qed.

(** Late enough, every entry has expired. *)
Lemma all_expired (l : list (Z * Entry)) : ∃ now, ∀ k e, (k, e) ∈ l → expired timeout now e = true.
Proof.
  induction l as [|[k e] l [now IH]]; [exists 0; set_solver|]. exists (Z.max now (send e + timeout * (1 + num_retry e) + 1)). intros k' e'. unfold expired in *. rewrite Z.ltb_lt. rewrite elem_of_cons. intros [[= -> ->]|Hin]; [lia|].
  specialize (IH k' e' Hin). apply Z.ltb_lt in IH. lia.
Qed.

Lemma monitor_resends s a : (∀ k e, send_buff_ (resender_ (nodes s a)) !! k = Some e → num_retry e + 1 < max_num_retry) →
  ∃ now s', monitor timeout max_num_retry a now s = Ok s' ∧ submitted s' = submitted s ∧ (∀ k e, send_buff_ (resender_ (nodes s a)) !! k = Some e → msg e ∈ to_send (nodes s' a)).
Proof.
  intros Hn. destruct (all_expired (map_to_list (send_buff_ (resender_ (nodes s a))))) as [now Hnow].
  destruct (monitor_all now (map_to_list (send_buff_ (resender_ (nodes s a))))) with (x := ([] : list Message, send_buff_ (resender_ (nodes s a)))) as (x' & Hx & _ & Hall).
  { intros k e He. split; [by eapply Hnow|]. by eapply Hn, elem_of_map_to_list. }
  exists now. eexists. unfold monitor, Monitoring. rewrite Hx. rstep. split; [done|]. split; [done|]. intros k e He. cbn [nodes fst snd]. rewrite fn_lookup_insert. cbn. apply elem_of_app. right. by eapply Hall, elem_of_map_to_list.
Qed.

(** A packet of a message that is received, and its acknowledgement after it. *)
Lemma deliver_packet s a m k : Inv s → distinct (submitted s) → (a, m) ∈ submitted s → ordinary m → GetKey a m = Ok k → packet a m ∈ net s →
  ∃ s', rtc step s s' ∧ Inv s' ∧ submitted s' = submitted s ∧ arrived (nodes s') a m ∧ send_buff_ (resender_ (nodes s' a)) !! k = None.
Proof.
  intros HI Hd Hm Ho Hk Hin. destruct Ho as [Hack Ht]. pose proof (inv_sendable s HI a m Hm) as Hsend. apply list_elem_of_split in Hin as (l1 & l2 & Hl). set (b := mt_recver (meta m)).
  assert (∃ s1, receive b (wire a m) (l1 ++ l2) s = Ok s1 ∧ net s1 = packet b (ack_message (wire a m) k) :: l1 ++ l2 ∧ submitted s1 = submitted s ∧ k ∈ acked_ (resender_ (nodes s1 b))) as (s1 & Hr & Hnet & Hsub & Hacked).
  { eexists. unfold receive, AddIncomming. rewrite is_terminate_wire, is_ack_wire, Ht, Hack, GetKey_wire, Hk by done. rstep. split; [done|]. split; [done|]. split; [done|]. cbn [nodes]. rewrite fn_lookup_insert. cbn [resender_ acked_]. case_bool_decide; set_solver. }
  assert (step s s1) as Hstep1 by (by eapply step_receive). pose proof (resent_step s s1 Hstep1 Hd HI) as HI1. rewrite <- Hsub in Hd, Hm.
  assert (arrived (nodes s1) a m) as Harr by (apply (key_arrived s1 a m k); try done; by apply (ok_acked _ _ _ (inv_nodes s1 HI1 b))).
  assert (∃ s2, receive a (wire b (ack_message (wire a m) k)) ([] ++ l1 ++ l2) s1 = Ok s2 ∧ submitted s2 = submitted s1 ∧ send_buff_ (resender_ (nodes s2 a)) !! k = None ∧ ∀ c, delivered (nodes s2 c) = delivered (nodes s1 c)) as (s2 & Hr2 & Hsub2 & Hnone & Hdel).
  { eexists. unfold receive. cbn [AddIncomming]. split; [done|]. split; [done|]. cbn [nodes]. split; [rewrite fn_lookup_insert; cbn [resender_ send_buff_]; apply lookup_delete_eq|].
    intros c. destruct (decide (a = c)) as [<-|Hne]; [by rewrite fn_lookup_insert|by rewrite fn_lookup_insert_ne]. }
  assert (step s1 s2) as Hstep2 by (eapply (step_receive _ _ a _ [] (l1 ++ l2)); [by rewrite Hnet|done]).
  exists s2. split; [by eapply rtc_l, rtc_once|]. split; [by eapply resent_step|]. split; [by rewrite Hsub2|]. split; [|done]. unfold arrived. by rewrite Hdel.
Qed.

(** C17: From every reachable state, a message that its sender still buffers can be delivered
    and acknowledged, after which the buffer has forgotten it, as long as the entries of the
    sender have retries left: the monitor sends it again, the receiver takes it or knows it
    already, and its acknowledgement clears the entry. *)
Theorem resender_delivers s a k e : reachable timeout max_num_retry s → distinct (submitted s) → send_buff_ (resender_ (nodes s a)) !! k = Some e → ordinary (msg e) →
  (∀ k' e', send_buff_ (resender_ (nodes s a)) !! k' = Some e' → num_retry e' + 1 < max_num_retry) →
  ∃ s', rtc step s s' ∧ arrived (nodes s') a (msg e) ∧ send_buff_ (resender_ (nodes s' a)) !! k = None.
Proof.
  intros Hr Hd He Ho Hn. pose proof (resent_reachable s Hr Hd) as HI. destruct (ok_buff _ _ _ (inv_nodes s HI a) k e He) as [Hm Hk]. destruct (monitor_resends s a Hn) as (now & s1 & Hmon & Hsub & Hin).
  assert (step s s1) as H1 by (by eapply step_monitor). pose proof (resent_step s s1 H1 Hd HI) as HI1. specialize (Hin k e He). apply list_elem_of_split in Hin as (l1 & l2 & Hl).
  assert (step s1 (send_msg a (msg e) (l1 ++ l2) s1)) as H2 by (by apply step_send_msg). rewrite <- Hsub in Hd, Hm.
  destruct (deliver_packet (send_msg a (msg e) (l1 ++ l2) s1) a (msg e) k) as (s2 & H3 & _ & _ & ? & ?); try done; [by eapply resent_step|by left|].
  exists s2. split; [|done]. by eapply rtc_l, rtc_l.
Qed.
End Monitor.

(** ** An example *)

(** A request of node 8 to node 9, sent and lost. *)
Abbreviation w_request := (w_request_at 7).
Definition w_entry : Entry := {| msg := w_request; send := 100; num_retry := 0 |}.
Definition w_key : Z := 8 * 2 ^ 40 + 9 * 2 ^ 32 + 15.
Definition w_lost : system := {|
  nodes := <[8 := {| resender_ := {| send_buff_ := {[w_key := w_entry]}; acked_ := ∅ |}; to_send := []; sending := []; delivered := [] |}]>
    (<[8 := {| resender_ := {| send_buff_ := ∅; acked_ := ∅ |}; to_send := []; sending := [w_request]; delivered := [] |}]>
    (<[8 := {| resender_ := {| send_buff_ := ∅; acked_ := ∅ |}; to_send := [w_request]; sending := []; delivered := [] |}]> (nodes init)));
  net := []; submitted := [(8, w_request)] |}.

Lemma w_lost_reachable : reachable 1000 10 w_lost.
Proof.
  eapply rtc_l; [apply (step_submit _ _ 8 w_request init); by_decision || (split; [done|split; [done|by left]])|].
  eapply rtc_l; [by apply (step_send_msg _ _ 8 w_request [] [])|].
  eapply rtc_l; [by eapply (step_add_outgoing _ _ 8 100 w_request [] [])|].
  eapply rtc_l; [by eapply (step_lose _ _ (packet 8 w_request) [] [])|]. apply rtc_refl.
Qed.
Lemma w_lost_distinct : distinct (submitted w_lost).
Proof. intros a m a' m' k [= -> ->]%list_elem_of_singleton [= -> ->]%list_elem_of_singleton. done. Qed.

Lemma resender_exactly_once_witness : kept (nodes w_lost 8) w_request ∨ arrived (nodes w_lost) 8 w_request.
Proof. apply (resender_exactly_once 1000 10 w_lost w_lost_reachable w_lost_distinct); [by left|by split]. Defined.
Lemma resender_delivers_witness : ∃ s', rtc (step 1000 10) w_lost s' ∧ arrived (nodes s') 8 w_request ∧ send_buff_ (resender_ (nodes s' 8)) !! w_key = None.
Proof.
  apply (resender_delivers 1000 10 w_lost 8 w_key w_entry w_lost_reachable w_lost_distinct); [by vm_compute|by split|]. intros k e. change (({[w_key := w_entry]} : gmap Z Entry) !! k = Some e → num_retry e + 1 < 10). intros [_ <-]%lookup_singleton_Some. by vm_compute.
Defined.
