(* ===== verification/Queue.v ===== *)
(** * The message queue

    [ThreadsafeQueue] is the queue between the threads of a node: received messages,
    DGT's two send queues and the sender's queue.  It is a [std::priority_queue] whose
    comparison is [l.meta.priority <= r.meta.priority].
    Source: src/3rdparty/ps-lite/include/ps/internal/threadsafe_queue.h.

    [std::priority_queue] keeps a binary heap in a vector; [push_heap] and [pop_heap]
    below are the algorithms of the C++ standard library (libstdc++'s [__push_heap] and
    [__adjust_heap]), written for the comparison they are given. *)

From Stdlib Require Import String.
From S2P Require Import Prelude Floats Customer Message.
From Stdlib Require Import ZifyNat.
Local Open Scope nat_scope.

(** ** The heap *)
Section Heap.
Context {A : Type} (comp : A → A → bool).

Definition parent (i : nat) : nat := (i - 1) / 2.

(** [__push_heap(first, hole, 0, value)]: move the hole up, then fill it. *)
Fixpoint sift_up (fuel : nat) (l : list A) (hole : nat) (value : A) : list A :=
  match fuel with
  | O => <[hole := value]> l
  | S fuel =>
      if 0 <? hole then
        match l !! parent hole with
        | Some p => if comp p value then sift_up fuel (<[hole := p]> l) (parent hole) value else <[hole := value]> l
        | None => l
        end
      else <[hole := value]> l
  end.

(** The loop of [__adjust_heap]: move the hole down to a leaf. *)
Fixpoint sift_down (fuel : nat) (l : list A) (hole : nat) : list A * nat :=
  match fuel with
  | O => (l, hole)
  | S fuel =>
      if hole <? (length l - 1) / 2 then
        match l !! (2 * (hole + 1)), l !! (2 * (hole + 1) - 1) with
        | Some r, Some c =>
            if comp r c then sift_down fuel (<[hole := c]> l) (2 * (hole + 1) - 1)
            else sift_down fuel (<[hole := r]> l) (2 * (hole + 1))
        | _, _ => (l, hole)
        end
      else if (Nat.even (length l) && (hole =? (length l - 2) / 2) && (2 <=? length l)) then
        match l !! (2 * (hole + 1) - 1) with
        | Some c => (<[hole := c]> l, 2 * (hole + 1) - 1)
        | None => (l, hole)
        end
      else (l, hole)
  end.

(** [queue_.push(v)] *)
Definition push_heap (l : list A) (v : A) : list A :=
  let l := l ++ [v] in sift_up (length l) l (length l - 1) v.

(** [queue_.pop()]: the last element takes the place of the first. *)
Definition pop_heap (l : list A) : list A :=
  match last l with
  | Some value =>
      let l := take (length l - 1) l in
      match l with
      | [] => []
      | _ => let '(l, hole) := sift_down (length l) l 0 in sift_up (length l) l hole value
      end
  | None => []
  end.
End Heap.

(** ** [ThreadsafeQueue] *)
Definition Compare (l r : Message) : bool := (mt_priority (meta l) <=? mt_priority (meta r))%Z.

Definition Push (queue : list Message) (new_value : Message) : list Message := push_heap Compare queue new_value.

Definition WaitAndPop (queue : list Message) : result (Message * list Message) :=
  match queue with
  | top :: _ => Ok (top, pop_heap Compare queue)
  | [] => Err (Blocked "WaitAndPop")
  end.

(** ** Correctness of the heap *)
Section HeapCorrect.
Context {A : Type} (prio : A → Z).
Local Abbreviation comp := (fun a b : A => (prio a <=? prio b)%Z).

(** [b] lies below [a]. *)
Definition below (l : list A) (i j : nat) : Prop :=
  ∀ a b, l !! i = Some a → l !! j = Some b → (prio b ≤ prio a)%Z.
Definition is_heap (l : list A) : Prop := ∀ i, 0 < i → below l (parent i) i.

(** A heap but for the element at [h]. *)
Definition holed (l : list A) (h : nat) : Prop :=
  (∀ i, 0 < i → i ≠ h → parent i ≠ h → below l (parent i) i) ∧
  (∀ i, 0 < i → 0 < h → parent i = h → below l (parent h) i).

Lemma parent_lt i : 0 < i → parent i < i.
Proof. unfold parent. lia. Qed.

Lemma below_insert l h x i j : i ≠ h → j ≠ h → below l i j → below (<[h := x]> l) i j.
Proof. intros Hi Hj H a b. rewrite !list_lookup_insert_ne by done. apply H. Qed.

Lemma below_trans l i j k b : l !! j = Some b → below l i j → below l j k → below l i k.
Proof. intros Hj H1 H2 a c Ha Hc. pose proof (H1 _ _ Ha Hj). pose proof (H2 _ _ Hj Hc). lia. Qed.

Lemma insert_below_upper l h x j :
  h < length l → j ≠ h → (∀ b, l !! j = Some b → (prio b ≤ prio x)%Z) → below (<[h := x]> l) h j.
Proof.
  intros Hh Hj H a b. rewrite list_lookup_insert_eq, list_lookup_insert_ne by done. intros [= <-]. apply H.
Qed.

Lemma insert_below_lower l h x i :
  h < length l → i ≠ h → (∀ a, l !! i = Some a → (prio x ≤ prio a)%Z) → below (<[h := x]> l) i h.
Proof.
  intros Hh Hi H a b. rewrite (list_lookup_insert_ne _ _ _ _ (not_eq_sym Hi)), list_lookup_insert_eq by done.
  intros Ha [= <-]. by apply H.
Qed.

(** Filling the hole. *)
Lemma fill_hole l h v :
  h < length l → holed l h →
  (∀ i b, 0 < i → parent i = h → l !! i = Some b → (prio b ≤ prio v)%Z) →
  (0 < h → ∀ a, l !! parent h = Some a → (prio v ≤ prio a)%Z) → is_heap (<[h := v]> l).
Proof.
  intros Hh [Hl _] Hc Hp i Hi. pose proof (parent_lt i Hi). destruct (decide (i = h)) as [->|Hne].
  - apply insert_below_lower; [done|lia|by apply Hp].
  - destruct (decide (parent i = h)) as [<-|Hpar].
    + apply insert_below_upper; [done|lia|]. intros b. by apply Hc.
    + apply below_insert; [done|done|by apply Hl].
Qed.

Lemma sift_up_heap fuel : ∀ l h v,
  h < fuel → h < length l → holed l h →
  (∀ i b, 0 < i → parent i = h → l !! i = Some b → (prio b ≤ prio v)%Z) →
  is_heap (sift_up comp fuel l h v).
Proof.
  induction fuel as [|fuel IH]; [lia|]. intros l h v Hf Hh Hl Hc. cbn [sift_up].
  destruct (Nat.ltb_spec 0 h) as [Hpos|]; [|apply fill_hole; try done; lia].
  pose proof (parent_lt h Hpos). destruct (lookup_lt_is_Some_2 l (parent h) ltac:(lia)) as [p Hp]. rewrite Hp.
  destruct (Z.leb_spec (prio p) (prio v)) as [Hle|Hlt].
  2: { apply fill_hole; try done. intros _ a Ha. rewrite Hp in Ha. injection Ha as <-. lia. }
  assert (∀ i b, 0 < i → parent i = parent h → <[h := p]> l !! i = Some b → (prio b ≤ prio p)%Z) as Hsib.
  { intros i b Hi Hpi. destruct (decide (i = h)) as [->|Hne]; [rewrite list_lookup_insert_eq by done; by intros [= <-]|].
    rewrite list_lookup_insert_ne by done. intros Hb. destruct Hl as [Hl _].
    assert (below l (parent i) i) as Hbel by (apply Hl; lia). rewrite Hpi in Hbel. by apply (Hbel p b). }
  apply IH; [lia|by rewrite length_insert; lia| |].
  - split.
    + intros i Hi Hip Hpar. pose proof (parent_lt i Hi). destruct (decide (i = h)) as [->|Hne]; [done|].
      destruct (decide (parent i = h)) as [Hph|Hph].
      * rewrite Hph. apply insert_below_upper; [done|lia|]. intros b Hb. destruct Hl as [_ Hl].
        apply (Hl i Hi Hpos Hph p b Hp Hb).
      * apply below_insert; [done|done|]. by apply Hl.
    + intros i Hi Hpp Hpi a b. pose proof (parent_lt (parent h) Hpp). rewrite list_lookup_insert_ne by lia. intros Ha Hb.
      pose proof (Hsib i b Hi Hpi Hb). destruct Hl as [Hl _].
      pose proof (Hl (parent h) Hpp ltac:(lia) ltac:(lia) a p Ha Hp). lia.
  - intros i b Hi Hpi Hb. pose proof (Hsib i b Hi Hpi Hb). lia.
Qed.

Lemma length_sift_up fuel : ∀ l h v, length (sift_up comp fuel l h v) = length l.
Proof.
  induction fuel as [|fuel IH]; intros l h v; cbn [sift_up]; [by rewrite length_insert|].
  destruct (0 <? h); [|by rewrite length_insert]. destruct (l !! parent h) as [p|]; [|done].
  destruct (_ <=? _)%Z; [by rewrite IH, length_insert|by rewrite length_insert].
Qed.

Lemma insert_perm (l : list A) h w v : l !! h = Some w → w :: <[h := v]> l ≡ₚ v :: l.
Proof.
  intros H. pose proof (lookup_lt_Some _ _ _ H). rewrite <- (take_drop_middle l h w H) at 2. rewrite insert_take_drop by done.
  rewrite <- Permutation_middle. rewrite <- (Permutation_middle (take h l) (drop (S h) l) w). constructor.
Qed.

Lemma move_hole (l : list A) h p x v : h < length l → h ≠ p → l !! p = Some x → <[p := v]> (<[h := x]> l) ≡ₚ <[h := v]> l.
Proof.
  intros Hh Hne Hp. destruct (lookup_lt_is_Some_2 l h Hh) as [w Hw].
  pose proof (insert_perm (<[h := x]> l) p x v ltac:(by rewrite list_lookup_insert_ne)) as H1.
  pose proof (insert_perm l h w x Hw) as H2. pose proof (insert_perm l h w v Hw) as H3.
  apply (Permutation_cons_inv (a := x)). apply (Permutation_cons_inv (a := w)).
  rewrite H1, (Permutation_swap v w), H2, (Permutation_swap x w), H3. constructor.
Qed.

Lemma sift_up_perm fuel : ∀ l h v, h < length l → sift_up comp fuel l h v ≡ₚ <[h := v]> l.
Proof.
  induction fuel as [|fuel IH]; intros l h v Hh; cbn [sift_up]; [done|]. destruct (Nat.ltb_spec 0 h) as [Hpos|]; [|done].
  pose proof (parent_lt h Hpos). destruct (l !! parent h) as [p|] eqn:Hp; [|apply lookup_ge_None in Hp; lia].
  destruct (_ <=? _)%Z; [|done]. rewrite IH by (rewrite length_insert; lia). apply move_hole; [done|lia|done].
Qed.

(** The hole is at a leaf of an almost-heap with the same elements. *)
Definition sunk (l : list A) (h : nat) (r : list A * nat) : Prop :=
  length r.1 = length l ∧ r.2 < length l ∧ length l ≤ 2 * r.2 + 1 ∧ (holed l h → holed r.1 r.2) ∧
  (∀ v, <[r.2 := v]> r.1 ≡ₚ <[h := v]> l).

Lemma move_down l h c x :
  c < length l → 0 < c → parent c = h → l !! c = Some x →
  (∀ i b, 0 < i → parent i = h → l !! i = Some b → (prio b ≤ prio x)%Z) →
  holed l h → holed (<[h := x]> l) c.
Proof.
  intros Hc Hpos Hpc Hx Hmax [Hl1 Hl2]. pose proof (parent_lt c Hpos). split.
  - intros i Hi Hic Hpi. pose proof (parent_lt i Hi). destruct (decide (i = h)) as [->|Hih].
    + apply insert_below_lower; [lia|lia|]. intros a Ha. by apply (Hl2 c Hpos Hi Hpc a x).
    + destruct (decide (parent i = h)) as [Hph|Hph].
      * rewrite Hph. apply insert_below_upper; [lia|done|]. intros b. by apply Hmax.
      * apply below_insert; [done|done|by apply Hl1].
  - intros i Hi _ Hpi. pose proof (parent_lt i Hi). rewrite Hpc. apply insert_below_upper; [lia|lia|].
    intros b Hb. assert (below l (parent i) i) as Hbel by (apply Hl1; lia). rewrite Hpi in Hbel. by apply (Hbel x b).
Qed.

Lemma sunk_step l h c x r :
  h < length l → c < length l → 0 < c → parent c = h → l !! c = Some x →
  (∀ i b, 0 < i → parent i = h → l !! i = Some b → (prio b ≤ prio x)%Z) →
  sunk (<[h := x]> l) c r → sunk l h r.
Proof.
  intros Hh Hc Hpos Hpc Hx Hmax. pose proof (parent_lt c Hpos). unfold sunk. rewrite length_insert. intros (H1 & H2 & H3 & H4 & H5).
  split_and!; [done|done|done| |].
  - intros Hl. apply H4. by apply move_down.
  - intros v. rewrite H5. apply move_hole; [done|lia|done].
Qed.

Lemma child_cases i h : 0 < i → parent i = h → i = 2 * (h + 1) - 1 ∨ i = 2 * (h + 1).
Proof. unfold parent. lia. Qed.

Lemma sift_down_sunk fuel : ∀ l h, length l - h ≤ fuel → h < length l → sunk l h (sift_down comp fuel l h).
Proof.
  induction fuel as [|fuel IH]; [lia|]. intros l h Hf Hh. cbn [sift_down].
  destruct (Nat.ltb_spec h ((length l - 1) / 2)) as [Hlt|Hge].
  - destruct (lookup_lt_is_Some_2 l (2 * (h + 1)) ltac:(lia)) as [r Hr].
    destruct (lookup_lt_is_Some_2 l (2 * (h + 1) - 1) ltac:(lia)) as [c Hc]. rewrite Hr, Hc.
    destruct (Z.leb_spec (prio r) (prio c)).
    + eapply (sunk_step l h (2 * (h + 1) - 1) c); [lia|lia|lia|unfold parent; lia|done| |apply IH; rewrite length_insert; lia].
      intros i b Hi Hp Hb. destruct (child_cases i h Hi Hp); simplify_eq; lia.
    + eapply (sunk_step l h (2 * (h + 1)) r); [lia|lia|lia|unfold parent; lia|done| |apply IH; rewrite length_insert; lia].
      intros i b Hi Hp Hb. destruct (child_cases i h Hi Hp); simplify_eq; lia.
  - destruct (_ && _ && _) eqn:E.
    + apply andb_true_iff in E as [E E2]. apply andb_true_iff in E as [E0 E1].
      apply Nat.even_spec in E0 as [k Hk]. apply Nat.eqb_eq in E1. apply Nat.leb_le in E2.
      destruct (lookup_lt_is_Some_2 l (2 * (h + 1) - 1) ltac:(lia)) as [c Hc]. rewrite Hc.
      eapply (sunk_step l h (2 * (h + 1) - 1) c); [lia|lia|lia|unfold parent; lia|done| |].
      * intros i b Hi Hp Hb. destruct (child_cases i h Hi Hp) as [->| ->]; [by simplify_eq|apply lookup_lt_Some in Hb; lia].
      * unfold sunk; cbn [fst snd]; rewrite length_insert; split_and!; done || lia.
    + assert (length l ≤ 2 * h + 1); [|unfold sunk; cbn [fst snd]; by split_and!].
      destruct (Nat.even (length l)) eqn:He; [|rewrite <- Nat.negb_odd, negb_false_iff, Nat.odd_spec in He; destruct He as [k Hk]; lia].
      apply Nat.even_spec in He as [k Hk]. destruct (Nat.eqb_spec h ((length l - 2) / 2)), (Nat.leb_spec 2 (length l)); done || lia.
Qed.

Lemma push_heap_perm l v : push_heap comp l v ≡ₚ v :: l.
Proof.
  unfold push_heap. rewrite length_app. cbn [length]. rewrite sift_up_perm by (rewrite length_app; cbn [length]; lia).
  rewrite insert_app_r_alt by lia. replace (length l + 1 - 1 - length l) with 0 by lia. cbn. by rewrite <- Permutation_cons_append.
Qed.

Lemma push_heap_heap l v : is_heap l → is_heap (push_heap comp l v).
Proof.
  intros Hl. unfold push_heap. rewrite length_app. cbn [length].
  apply sift_up_heap; [lia|rewrite length_app; cbn [length]; lia| |].
  - split; [|intros i Hi _ Hp a b _ Hb; apply lookup_lt_Some in Hb; rewrite length_app in Hb; cbn [length] in Hb; unfold parent in Hp; lia].
    intros i Hi Hne Hp a b. destruct (decide (i < length l)) as [Hlt|Hge].
    + pose proof (parent_lt i Hi). rewrite !lookup_app_l by lia. by apply Hl.
    + intros _ Hb. apply lookup_lt_Some in Hb. rewrite length_app in Hb. cbn [length] in Hb. lia.
  - intros i b Hi Hp Hb. apply lookup_lt_Some in Hb. rewrite length_app in Hb. cbn [length] in Hb. unfold parent in Hp. lia.
Qed.

Lemma heap_root_max l x : is_heap l → l !! 0 = Some x → ∀ i b, l !! i = Some b → (prio b ≤ prio x)%Z.
Proof.
  intros Hl Hx i. induction i as [i IH] using lt_wf_ind. intros b Hb. destruct (decide (i = 0)) as [->|Hi]; [by simplify_eq|].
  pose proof (parent_lt i ltac:(lia)). pose proof (lookup_lt_Some _ _ _ Hb).
  destruct (lookup_lt_is_Some_2 l (parent i) ltac:(lia)) as [a Ha]. pose proof (IH _ ltac:(done) _ Ha).
  pose proof (Hl i ltac:(lia) a b Ha Hb). lia.
Qed.

(** What [pop_heap] computes on a vector of at least two elements. *)
Lemma pop_heap_eq x l y :
  pop_heap comp (x :: l ++ [y]) = (let r := sift_down comp (S (length l)) (x :: l) 0 in sift_up comp (length r.1) r.1 r.2 y).
Proof.
  unfold pop_heap. change (x :: l ++ [y]) with ((x :: l) ++ [y]). rewrite last_snoc, length_app. cbn [length].
  rewrite Nat.add_sub, take_app_length' by done. cbn [length]. by destruct (sift_down _ _ _ _).
Qed.

Lemma pop_heap_perm x l : x :: pop_heap comp (x :: l) ≡ₚ x :: l.
Proof.
  destruct l as [|y l _] using rev_ind; [done|]. rewrite pop_heap_eq. cbv zeta.
  destruct (sift_down_sunk (S (length l)) (x :: l) 0 ltac:(cbn; lia) ltac:(cbn; lia)) as (Hlen & Hlt & _ & _ & Hp).
  rewrite sift_up_perm by lia. rewrite Hp. cbn. constructor. apply Permutation_cons_append.
Qed.

Lemma pop_heap_heap x l : is_heap (x :: l) → is_heap (pop_heap comp (x :: l)).
Proof.
  destruct l as [|y l _] using rev_ind; [by intros _ i _ a b Ha|]. intros Hl. rewrite pop_heap_eq. cbv zeta.
  destruct (sift_down_sunk (S (length l)) (x :: l) 0 ltac:(cbn; lia) ltac:(cbn; lia)) as (Hlen & Hlt & Hleaf & Hh & _).
  apply sift_up_heap; [lia|lia| |].
  - apply Hh. split; [|lia]. intros i Hi _ _ a b Ha Hb. pose proof (parent_lt i Hi).
    apply (Hl i Hi a b); change (x :: l ++ [y]) with ((x :: l) ++ [y]); by apply lookup_app_l_Some.
  - intros i b Hi Hp Hb. apply lookup_lt_Some in Hb. unfold parent in Hp. lia.
Qed.

(** A value that is at least as large as all others goes to the top. *)
Lemma sift_up_top fuel : ∀ l h v,
  h < fuel → h < length l → (∀ i b, i < h → l !! i = Some b → (prio b ≤ prio v)%Z) → head (sift_up comp fuel l h v) = Some v.
Proof.
  induction fuel as [|fuel IH]; [lia|]. intros l h v Hf Hh Hmax. cbn [sift_up].
  destruct (Nat.ltb_spec 0 h) as [Hpos|]; [|replace h with 0 by lia; by destruct l; cbn in Hh; [lia|]].
  pose proof (parent_lt h Hpos). destruct (lookup_lt_is_Some_2 l (parent h) ltac:(lia)) as [p Hp]. rewrite Hp.
  rewrite (proj2 (Z.leb_le _ _) (Hmax _ _ ltac:(done) Hp)). apply IH; [lia|rewrite length_insert; lia|].
  intros i b Hi. rewrite list_lookup_insert_ne by lia. apply Hmax. lia.
Qed.

Lemma push_heap_top l v : Forall (fun a => (prio a ≤ prio v)%Z) l → head (push_heap comp l v) = Some v.
Proof.
  intros Hl. unfold push_heap. rewrite length_app. cbn [length]. apply sift_up_top; [lia|rewrite length_app; cbn [length]; lia|].
  intros i b Hi Hb. rewrite lookup_app_l in Hb by lia. by apply (Forall_lookup_1 _ _ i b Hl).
Qed.
End HeapCorrect.

(** ** The queue against a bag of messages *)
Inductive op := OpPush (m : Message) | OpPop.

(** The calls in the order in which they take the lock. *)
Fixpoint queue_run (ops : list op) (queue : list Message) : result (list Message * list Message) :=
  match ops with
  | [] => Ok ([], queue)
  | OpPush m :: ops => queue_run ops (Push queue m)
  | OpPop :: ops => p ← WaitAndPop queue; r ← queue_run ops p.2; Ok (p.1 :: r.1, r.2)
  end.

Definition priority (m : Message) : Z := mt_priority (meta m).

(** A bag that hands out one of its messages of highest priority at a time. *)
Inductive served : list Message → list op → list Message → list Message → Prop :=
  | served_done bag bag' : bag ≡ₚ bag' → served bag [] [] bag'
  | served_push bag m ops out bag' : served (m :: bag) ops out bag' → served bag (OpPush m :: ops) out bag'
  | served_pop bag m rest ops out bag' :
      bag ≡ₚ m :: rest → Forall (fun x => (priority x ≤ priority m)%Z) rest → served rest ops out bag' →
      served bag (OpPop :: ops) (m :: out) bag'.

Definition pushed (ops : list op) : nat := length (List.filter (fun o => match o with OpPush _ => true | OpPop => false end) ops).

Lemma queue_run_served ops : ∀ bag queue out q,
  bag ≡ₚ queue → is_heap priority queue → queue_run ops queue = Ok (out, q) → served bag ops out q.
Proof.
  induction ops as [|[m|] ops IH]; intros bag queue out q Hbag Hheap; cbn [queue_run].
  - intros [= <- <-]. by constructor.
  - intros Hrun. constructor. eapply IH; [|by apply push_heap_heap|exact Hrun].
    by rewrite (push_heap_perm priority), Hbag.
  - destruct queue as [|x l]; [done|]. cbn [WaitAndPop mbind result_bind fst snd].
    destruct (queue_run ops _) as [[out' q']|] eqn:E; [|done]. intros [= <- <-].
    pose proof (pop_heap_perm priority x l) as Hp. apply Permutation_cons_inv in Hp.
    apply (served_pop _ _ l); [done| |].
    + apply Forall_forall. intros y Hy. apply list_elem_of_lookup in Hy as [i Hi]. apply (heap_root_max priority _ _ Hheap eq_refl (S i)). done.
    + eapply IH; [by symmetry|by apply pop_heap_heap|exact E].
Qed.

Lemma queue_run_progress ops : ∀ queue,
  (∀ ops1 ops2, ops = ops1 ++ OpPop :: ops2 → length ops1 - pushed ops1 < length queue + pushed ops1) →
  is_ok (queue_run ops queue) = true.
Proof.
  induction ops as [|[m|] ops IH]; intros queue Hb; cbn [queue_run]; [done| |].
  - apply IH. intros ops1 ops2 ->. specialize (Hb (OpPush m :: ops1) ops2 eq_refl). unfold pushed in *. cbn [length List.filter] in *.
    unfold Push. rewrite (push_heap_perm priority). cbn [length]. lia.
  - pose proof (Hb [] ops eq_refl) as H0. cbn in H0. destruct queue as [|x l]; [cbn in H0; lia|]. cbn [WaitAndPop mbind result_bind fst snd].
    pose proof (Permutation_length (pop_heap_perm priority x l)) as Hl. cbn [length] in Hl.
    assert (is_ok (queue_run ops (pop_heap Compare (x :: l))) = true) as Hok; [|by destruct (queue_run ops _)].
    apply IH. intros ops1 ops2 ->. specialize (Hb (OpPop :: ops1) ops2 eq_refl). unfold pushed in *. cbn [length List.filter] in *.
    change (pop_heap Compare (x :: l)) with (pop_heap (fun a b => (priority a <=? priority b)%Z) (x :: l)). lia.
Qed.

(** C30: the queue is a bag that serves highest priorities first.  For every sequence of
    pushes and pops in which no pop finds the queue empty, every pop returns a message of
    highest priority among those that are in the queue, and no message is lost or
    returned twice. *)
Theorem queue_serves_highest ops :
  (∀ ops1 ops2, ops = ops1 ++ OpPop :: ops2 → length ops1 - pushed ops1 < pushed ops1) →
  ∃ out q, queue_run ops [] = Ok (out, q) ∧ served [] ops out q.
Proof.
  intros Hops. pose proof (queue_run_progress ops [] Hops) as Hok. destruct (queue_run ops []) as [[out q]|] eqn:E; [|done].
  exists out, q. split; [done|]. eapply queue_run_served; [done| |exact E]. by intros i _ a b Ha.
Qed.

(** A message of a given priority, numbered by its timestamp. *)
Definition w_msg (ts priority : Z) : Message :=
  {| meta := {| mt_head := 0; mt_app_id := 0; mt_customer_id := 0; mt_timestamp := ts;
       mt_first_key := 0; mt_seq := 0; mt_seq_begin := 0; mt_seq_end := 0; mt_msg_type := 0; mt_push_op_num := 0;
       mt_val_bytes := 0; mt_total_bytes := 0; mt_channel := 0; mt_keys_len := 0; mt_vals_len := 0; mt_lens_len := 0; mt_tos := 0;
       mt_compr := []; mt_bits_num := 32; mt_priority := priority;
       mt_sender := 9; mt_recver := 8; mt_request := true; mt_push := true;
       mt_key := 0; mt_version := 0; mt_iters := 0; mt_simple_app := false; mt_body := EmptyString;
       mt_data_type := []; mt_control := Control_init |};
     data := []; contribution := f32_zero |}.

Lemma queue_serves_highest_witness :
  ∃ out q, queue_run [OpPush (w_msg 1 0); OpPush (w_msg 2 5); OpPop; OpPush (w_msg 3 2); OpPop; OpPop] [] = Ok (out, q) ∧
    (fun m => mt_timestamp (meta m)) <$> out = [2; 3; 1]%Z ∧ q = [] ∧
    served [] [OpPush (w_msg 1 0); OpPush (w_msg 2 5); OpPop; OpPush (w_msg 3 2); OpPop; OpPop] out q.
Proof.
  destruct (queue_serves_highest [OpPush (w_msg 1 0); OpPush (w_msg 2 5); OpPop; OpPush (w_msg 3 2); OpPop; OpPop]) as (out & q & Hrun & Hs).
  - intros ops1 ops2 E. do 6 (destruct ops1 as [|? ops1]; cbn in E; [simplify_eq; cbn; lia|]; injection E as <- E).
    by destruct ops1.
  - exists out, q. split; [done|]. vm_compute in Hrun. injection Hrun as <- <-. split_and!; done.
Defined.

(** Among equal priorities the queue is not first-in first-out.  A message that has
    just been pushed is the next one to be popped whenever no other message in the queue
    has a higher priority: messages of one priority overtake each other, although [Push]
    is documented to push to the end and [WaitAndPop] to pop from the beginning. *)
Theorem queue_equal_priority_overtakes queue v :
  Forall (fun m => (priority m ≤ priority v)%Z) queue →
  ∃ rest, WaitAndPop (Push queue v) = Ok (v, rest) ∧ rest ≡ₚ queue.
Proof.
  intros Hq. pose proof (push_heap_top priority queue v Hq) as Htop. pose proof (push_heap_perm priority queue v) as Hp.
  change (fun a b => (priority a <=? priority b)%Z) with Compare in *. unfold Push.
  destruct (push_heap Compare queue v) as [|x l] eqn:E; [done|]. cbn in Htop. injection Htop as ->. eexists. split; [done|].
  apply (Permutation_cons_inv (a := v)). rewrite <- Hp. apply (pop_heap_perm priority).
Qed.

Lemma queue_equal_priority_overtakes_witness :
  ∃ rest, WaitAndPop (Push [w_msg 1 0] (w_msg 2 0)) = Ok (w_msg 2 0, rest) ∧ rest ≡ₚ [w_msg 1 0].
Proof. apply (queue_equal_priority_overtakes [w_msg 1 0] (w_msg 2 0)). repeat constructor. done. Defined.
