(* ===== verification/DGT.v ===== *)
(** * Differential gradient transmission (DGT)

    With DGT a local server cuts a pushed tensor into blocks, rates each block by a
    moving average of its mean magnitude, and sends important blocks over a reliable
    channel and the others over channels that may lose them.  The receiver collects the
    blocks of a tensor and delivers it when the last block arrives; a block that arrives
    late is added to the same block of the next push.
    Sources: src/3rdparty/ps-lite/include/ps/kv_app.h ([KVServer::Send],
    [EvalMsgContribution], [GetChannel]) and src/3rdparty/ps-lite/src/van.cc
    ([AssignMsg], [ProcessDataMsg], [MergeMsg], [MergeMsg_HALF], [encode], [decode]).

    Arrays are lists of bytes, as in the code, which reinterprets them as floats.
    [std::sort] leaves the order of equal elements open: it is a parameter that returns
    a sorted permutation.  [std::unordered_map] is iterated in any order. *)

From Stdlib Require Import SpecFloat String ZifyNat.
From stdpp Require Import sorting.
From S2P Require Import Prelude Floats Command Postoffice Customer TwoBit GradientCompression NDArray Message.
Local Open Scope Z_scope.

(** ** Numbers as bytes *)

(** IEEE 754 interchange formats with [mw] bits of mantissa and [ew] of exponent. *)
Definition of_bits (mw ew b : Z) : spec_float :=
  let s := Z.testbit b (mw + ew) in
  let e := Z.shiftr b mw mod 2 ^ ew in
  let m := b mod 2 ^ mw in
  let emin := 3 - 2 ^ (ew - 1) - (mw + 1) in
  if e =? 0 then match m with Zpos p => S754_finite s p emin | _ => S754_zero s end
  else if e =? 2 ^ ew - 1 then (if m =? 0 then S754_infinity s else S754_nan)
  else match m + 2 ^ mw with Zpos p => S754_finite s p (e + emin - 1) | _ => S754_nan end.

Definition to_bits (mw ew : Z) (x : spec_float) : Z :=
  let sign (s : bool) := if s then 2 ^ (mw + ew) else 0 in
  let emin := 3 - 2 ^ (ew - 1) - (mw + 1) in
  match x with
  | S754_zero s => sign s
  | S754_infinity s => sign s + (2 ^ ew - 1) * 2 ^ mw
  | S754_nan => (2 ^ ew - 1) * 2 ^ mw + 2 ^ (mw - 1)
  | S754_finite s m e =>
      if Zpos m <? 2 ^ mw then sign s + Zpos m else sign s + (e - emin + 1) * 2 ^ mw + (Zpos m - 2 ^ mw)
  end.

(** Little-endian words at a position. *)
Definition word_at (size : nat) (bs : list Z) (i : nat) : Z := le_word (take size (drop (size * i) bs)).

(** [(float* )data], [size() / sizeof(float)] elements, and back. *)
Definition as_floats (bs : list Z) : list float := (fun i => of_bits 23 8 (word_at 4 bs i)) <$> seq 0 (length bs / 4).
Definition of_floats (l : list float) : list Z := mjoin ((fun x => le_bytes 4 (to_bits 23 8 x)) <$> l).
Definition as_halves (n : nat) (bs : list Z) : list float := (fun i => of_bits 10 5 (word_at 2 bs i)) <$> seq 0 n.
Definition of_halves (l : list float) : list Z := mjoin ((fun x => le_bytes 2 (to_bits 10 5 x)) <$> l).

(** ** The sender *)
Record Config := { contribution_alpha : float; block_size : Z; dmlc_k_init : float; udp_channel_num : Z }.

(** [contribution], by key and block. *)
Abbreviation ratings := (gmap Z (gmap Z float)).

Definition EvalMsgContribution (alpha : float) (contribution : ratings) (key seq : Z) (vals : list Z) : float * ratings :=
  let pd := as_floats vals in
  let N := foldl (fun acc x => f32_add acc (f_abs x)) f32_zero pd in
  let row := default ∅ (contribution !! key) in
  let old := default f32_zero (row !! seq) in
  let new := f32_add (f32_mul alpha old)
                     (f32_mul (f32_sub (f32_of_Z 1) alpha) (f32_div N (f32_of_Z (Z.of_nat (length pd))))) in
  (new, <[key := <[seq := new]> row]> contribution).

(** [GetChannel]; [random] is what [rand()] returns if it is called. *)
Definition GetChannel (index max_index C : Z) (k : float) (random : Z) : result Z :=
  let min_index := round_Z (f32_mul k (f32_of_Z (max_index + 1))) in
  if index <? min_index then Ok 0
  else
    let bound (i : Z) := f32_add (f32_of_Z min_index)
      (f32_div (f32_mul (f32_of_Z i) (f32_of_Z (max_index - min_index))) (f32_of_Z C)) in
    let takes (i : nat) := if 0 <? max_index - min_index
      then f_ge (f32_of_Z index) (bound (Z.of_nat i)) && f_lt (f32_of_Z index) (bound (Z.of_nat i + 1)) else true in
    match List.find takes (seq 0 (Z.to_nat C)) with
    | Some i => Ok (Z.of_nat i + 1)
    | None => if C =? 0 then Err (Undefined "remainder by zero") else Ok (Z.rem random C + 1)
    end.

Definition with_channel (m : Message) (channel tos : Z) : Message :=
  let t := meta m in
  {| meta := {| mt_head := mt_head t; mt_app_id := mt_app_id t; mt_customer_id := mt_customer_id t; mt_timestamp := mt_timestamp t;
       mt_first_key := mt_first_key t; mt_seq := mt_seq t; mt_seq_begin := mt_seq_begin t; mt_seq_end := mt_seq_end t;
       mt_msg_type := mt_msg_type t; mt_push_op_num := mt_push_op_num t;
       mt_val_bytes := mt_val_bytes t; mt_total_bytes := mt_total_bytes t; mt_channel := channel;
       mt_keys_len := mt_keys_len t; mt_vals_len := mt_vals_len t; mt_lens_len := mt_lens_len t; mt_tos := tos;
       mt_compr := mt_compr t; mt_bits_num := mt_bits_num t; mt_priority := mt_priority t;
       mt_sender := mt_sender t; mt_recver := mt_recver t; mt_request := mt_request t; mt_push := mt_push t;
       mt_key := mt_key t; mt_version := mt_version t; mt_iters := mt_iters t; mt_simple_app := mt_simple_app t;
       mt_body := mt_body t; mt_data_type := mt_data_type t; mt_control := mt_control t |};
     data := data m; contribution := contribution m |}.

Section Sender.
Context (cfg : Config) (app_id customer_id timestamp cmd recver : Z).
Context (keys lens vals : list Z).            (* [vals] in bytes *)
Context (sort : list Message → list Message) (random : nat → Z).

Definition bits_of_dtype (d : Z) : Z := if d =? 0 then 32 else if d =? 2 then 16 else mt_bits_num Meta_init.

(** [AddData]: the type codes UINT64 of keys, CHAR of values, INT32 of lengths. *)
Definition block_data (block : list Z) : list (list Z) * list Z :=
  if bool_decide (keys = []) then ([], [])
  else ([mjoin (le_bytes 8 <$> keys); block] ++ (if bool_decide (lens = []) then [] else [mjoin (le_bytes 4 <$> lens)]),
        [8; 0] ++ (if bool_decide (lens = []) then [] else [3])).

Definition block_message (first_key bits seq seq_num val_bytes : Z) (block : list Z) : Message :=
  let '(d, types) := block_data block in
  {| meta := {| mt_head := cmd; mt_app_id := app_id; mt_customer_id := customer_id; mt_timestamp := timestamp;
       mt_first_key := first_key; mt_seq := seq; mt_seq_begin := 0; mt_seq_end := seq_num - 1;
       mt_msg_type := 1; mt_push_op_num := 0;
       mt_val_bytes := val_bytes; mt_total_bytes := Z.of_nat (length vals); mt_channel := 0;
       mt_keys_len := if bool_decide (keys = []) then 0 else 8 * Z.of_nat (length keys);
       mt_vals_len := if bool_decide (keys = []) then 0 else Z.of_nat (length block);
       mt_lens_len := if bool_decide (keys = []) then 0 else 4 * Z.of_nat (length lens); mt_tos := 0;
       mt_compr := []; mt_bits_num := bits; mt_priority := 0;
       mt_sender := kEmpty; mt_recver := recver; mt_request := true; mt_push := true;
       mt_key := kEmpty; mt_version := kEmpty; mt_iters := kEmpty; mt_simple_app := false;
       mt_body := EmptyString; mt_data_type := types; mt_control := Control_init |};
     data := d; contribution := f32_zero |}.

(** The [while (remain_bytes != 0)] loop. *)
Fixpoint dgt_loop (fuel : nat) (first_key bits seq_num remain val_bytes seq : Z) (rates : ratings) (acc : list Message)
    : result (ratings * list Message) :=
  if remain =? 0 then Ok (rates, acc)
  else match fuel with
  | O => Err (Undefined "endless loop")
  | S fuel =>
      let l := Z.min remain (block_size cfg) in
      check (val_bytes <=? val_bytes + l) "Check failed: end >= begin";;
      check (val_bytes + l <=? Z.of_nat (length vals)) "Check failed: end <= size()";;
      let block := take (Z.to_nat l) (drop (Z.to_nat val_bytes) vals) in
      let msg := block_message first_key bits seq seq_num val_bytes block in
      d1 ← rd (data msg) 1;
      let '(c, rates) := EvalMsgContribution (contribution_alpha cfg) rates first_key seq d1 in
      let msg := {| meta := meta msg; data := data msg; contribution := c |} in
      let acc := if f_ne c f32_zero || (seq =? seq_num - 1) then acc ++ [msg] else acc in
      dgt_loop fuel first_key bits seq_num (remain - l) (val_bytes + l) (seq + 1) rates acc
  end.

(** The channel of the [j]-th of [n] messages. *)
Definition assign_channel (n : nat) (j : nat) (m : Message) : result Message :=
  c ← GetChannel (Z.of_nat j) (Z.of_nat n - 1) (udp_channel_num cfg) (dmlc_k_init cfg) (random j);
  let c := if mt_seq (meta m) =? mt_seq_end (meta m) then 0 else c in
  Ok (with_channel m c ((udp_channel_num cfg - c) * 32)).

Fixpoint assign_channels (n j : nat) (l : list Message) : result (list Message) :=
  match l with
  | [] => Ok []
  | m :: l => m ← assign_channel n j m; l ← assign_channels n (S j) l; Ok (m :: l)
  end.

(** The DGT branch of [Send]: the messages in the order they are handed to [AssignMsg]. *)
Definition dgt_send (rates : ratings) : result (ratings * list Message) :=
  type ← DepairDataHandleType cmd;
  let total_bytes := Z.of_nat (length vals) in
  first ← rd keys 0;
  if block_size cfg =? 0 then Err (Undefined "division by zero")
  else
    let seq_num := Z.quot (total_bytes + block_size cfg - 1) (block_size cfg) in
    r ← dgt_loop (length vals) (i32 first) (bits_of_dtype (dtype type)) seq_num total_bytes 0 0 rates [];
    match last r.2 with
    | None => Err (Undefined "end() - 1 of an empty vector")
    | Some m =>
        let msg_vector := sort (take (length r.2 - 1) r.2) ++ [m] in
        l ← assign_channels (length msg_vector) 0 msg_vector;
        Ok (r.1, l)
    end.
End Sender.

(** [AssignMsg]: channel 0 is the reliable one. *)
Inductive send_queue := Important | Unimportant.
Definition AssignMsg (m : Message) : send_queue := if mt_channel (meta m) =? 0 then Important else Unimportant.

(** ** The receiver *)
Definition with_vals (m : Message) (d : list Z) : Message :=
  {| meta := meta m; data := <[1%nat := d]> (data m); contribution := contribution m |}.

(** [MergeMsg]: [p2] is read over the length of [p1]; the two are assumed equal. *)
Definition MergeMsg (msg1 msg2 : Message) : result Message :=
  d1 ← rd (data msg1) 1;
  d2 ← rd (data msg2) 1;
  if (length d1 / 4 =? length d2 / 4)%nat
  then Ok (with_vals msg1 (of_floats (zip_with f32_add (as_floats d1) (as_floats d2))))
  else Err (Undefined "assert(nlen1 == nlen2)").

(** [MergeMsg_HALF] divides the number of bytes by 16 to count 2-byte halves. *)
Definition MergeMsg_HALF (msg1 msg2 : Message) : result Message :=
  d1 ← rd (data msg1) 1;
  d2 ← rd (data msg2) 1;
  let nlen1 := (length d1 / 16)%nat in
  if (nlen1 =? length d2 / 16)%nat
  then Ok (with_vals msg1 (of_halves (zip_with (dadd kFloat16) (as_halves nlen1 d1) (as_halves nlen1 d2))))
  else Err (Undefined "assert(nlen1 == nlen2)").

(** ** 4-bit coding of unimportant blocks ([enable_dgt] 3) *)
Abbreviation residuals := (gmap Z (gmap Z (list float))).

(** The 16 centres of the quantisation intervals; [pow] makes the arithmetic [double]. *)
Definition centre (min_v max_v : float) (bits_num : Z) (i : Z) : float :=
  let d := f64_of_f32 in
  let width := f64_of_Z (2 ^ bits_num) in
  let edge (j : Z) := SFadd 53 1024 (d min_v) (f64_div (d (f32_mul (f32_of_Z j) (f32_sub max_v min_v))) width) in
  f32_of_f64 (f64_div (SFadd 53 1024 (edge i) (edge (i + 1))) (f64_of_Z 2)).

(** [std::max(max_v, x)] and [std::min(min_v, x)]. *)
Definition std_max (a b : float) : float := if f_lt a b then b else a.
Definition std_min (a b : float) : float := if f_lt b a then b else a.

(** One iteration of the coding loop of [encode]: [pd] is an index into [d_val]. *)
Definition encode_step (bits_num : Z) (min_v max_v : float) (compr : list float) (i : nat)
    (acc : list Z * nat * list float) : result (list Z * nat * list float) :=
  let '(d_val, pd, pr) := acc in
  r ← rd pr i;
  q ← to_integer (-128) 127
        (f64_div (f64_of_f32 (f32_sub r min_v)) (f64_div (f64_of_f32 (f32_sub max_v min_v)) (f64_of_Z (2 ^ bits_num))));
  let per := 8 / bits_num in
  let shift := (per - 1 - Z.rem (Z.of_nat i) per) * bits_num in
  old ← rd d_val pd;
  d_val ← wr d_val pd (u8 (Z.lor old (Z.shiftl q shift)));
  c ← rdz compr q;
  pr ← wr pr i (f32_sub r c);
  Ok (d_val, if Z.rem (Z.of_nat i) per =? 0 then S pd else pd, pr).

Definition with_code (m : Message) (compr : list float) (bits_num : Z) (d : list Z) : Message :=
  let t := meta m in
  {| meta := {| mt_head := mt_head t; mt_app_id := mt_app_id t; mt_customer_id := mt_customer_id t; mt_timestamp := mt_timestamp t;
       mt_first_key := mt_first_key t; mt_seq := mt_seq t; mt_seq_begin := mt_seq_begin t; mt_seq_end := mt_seq_end t;
       mt_msg_type := mt_msg_type t; mt_push_op_num := mt_push_op_num t;
       mt_val_bytes := mt_val_bytes t; mt_total_bytes := mt_total_bytes t; mt_channel := mt_channel t;
       mt_keys_len := mt_keys_len t; mt_vals_len := mt_vals_len t; mt_lens_len := mt_lens_len t; mt_tos := mt_tos t;
       mt_compr := compr; mt_bits_num := bits_num; mt_priority := mt_priority t;
       mt_sender := mt_sender t; mt_recver := mt_recver t; mt_request := mt_request t; mt_push := mt_push t;
       mt_key := mt_key t; mt_version := mt_version t; mt_iters := mt_iters t; mt_simple_app := mt_simple_app t;
       mt_body := mt_body t; mt_data_type := mt_data_type t; mt_control := mt_control t |};
     data := <[1%nat := d]> (data m); contribution := contribution m |}.

Definition encode (residual : residuals) (msg : Message) (bits_num : Z) : result (residuals * Message) :=
  s_val ← rd (data msg) 1;
  let size := Z.of_nat (length s_val) in
  let ratio := Z.quot (mt_bits_num (meta msg)) bits_num in
  if ratio =? 0 then Err (Undefined "remainder by zero")
  else
    let d_val_size := if Z.rem size ratio =? 0 then Z.quot size ratio else Z.quot size ratio + 1 in
    let row := default ∅ (residual !! mt_first_key (meta msg)) in
    let ps := as_floats s_val in
    let pr := default (replicate (length ps) f32_zero) (row !! mt_seq (meta msg)) in
    pr ← for_range 0 (length ps) (fun i pr => r ← rd pr i; x ← rd ps i; wr pr i (f32_add r x)) pr;
    let max_v := foldl std_max f32_zero pr in
    let min_v := foldl std_min f32_zero pr in
    let compr := mt_compr (meta msg) ++ ((fun i => centre min_v max_v bits_num (Z.of_nat i)) <$> seq 0 (Z.to_nat (2 ^ bits_num))) in
    r ← for_range 0 (length ps) (encode_step bits_num min_v max_v compr) (replicate (Z.to_nat d_val_size) 0, 0%nat, pr);
    let '(d_val, _, pr) := r in
    Ok (<[mt_first_key (meta msg) := <[mt_seq (meta msg) := pr]> row]> residual, with_code msg compr bits_num d_val).

(** One byte of [decode]: its codes, highest first, until [param_n] values are written. *)
Fixpoint decode_byte (fuel : nat) (bits_num : Z) (compr : list float) (byte : Z) (j : Z)
    (acc : list float * Z) : result (list float * Z) :=
  match fuel with
  | O => Ok acc
  | S fuel =>
      let qj := Z.land (Z.shiftr byte (8 - bits_num - bits_num * j)) (2 ^ bits_num - 1) in
      c ← rdz compr qj;
      let '(out, param_n) := acc in
      let acc := (out ++ [c], param_n - 1) in
      if param_n - 1 =? 0 then Ok acc else decode_byte fuel bits_num compr byte (j + 1) acc
  end.

(** The values written beyond [vals_len / 4] elements are outside [d_val]. *)
Definition decode (msg : Message) : result Message :=
  type ← DepairDataHandleType (mt_head (meta msg));
  let bits_num := mt_bits_num (meta msg) in
  if ((dtype type =? 0) && (bits_num =? 32)) || ((dtype type =? 2) && (bits_num =? 16)) then Ok msg
  else
    s_val ← rd (data msg) 1;
    let n := Z.quot (mt_vals_len (meta msg)) 4 in
    if negb (2 ^ bits_num =? Z.of_nat (length (mt_compr (meta msg)))) then Err (Undefined "assert(pow(2, bits_num) == compr.size())")
    else
      r ← foldM (fun acc byte => decode_byte (Z.to_nat (8 / bits_num)) bits_num (mt_compr (meta msg)) byte 0 acc) ([], n) s_val;
      if Z.of_nat (length r.1) <=? n
      then Ok (with_vals msg (of_floats (r.1 ++ replicate (Z.to_nat (n - Z.of_nat (length r.1))) f32_zero)))
      else Err (Undefined "write out of range").

(** ** [ProcessDataMsg] *)

(** [msg_map]: sender, first key, block. *)
Abbreviation blocks := (gmap Z Message).
Abbreviation msg_map := (gmap Z (gmap Z blocks)).

(** [memcpy(buf + val_bytes, data, size)] *)
Definition place (buf : list Z) (m : Message) : result (list Z) :=
  d ← rd (data m) 1;
  let off := Z.to_nat (mt_val_bytes (meta m)) in
  if (0 <=? mt_val_bytes (meta m)) && (Z.of_nat (off + length d) <=? Z.of_nat (length buf))
  then Ok (take off buf ++ d ++ drop (off + length d) buf)
  else Err (Undefined "memcpy out of range").

Section Receiver.
Context (iterate : blocks → list Message).      (* the order of [std::unordered_map] *)
Context (enable_dgt : Z) (is_worker is_global_server : bool) (registry : Registry).

Definition get_blocks (mm : msg_map) (sender key : Z) : blocks := default ∅ (default ∅ (mm !! sender) !! key).
Definition put_blocks (mm : msg_map) (sender key : Z) (b : blocks) : msg_map :=
  <[sender := <[key := b]> (default ∅ (mm !! sender))]> mm.

(** A block is stored or merged into the one that is there. *)
Definition add_block (d : Z) (b : blocks) (msg : Message) : result blocks :=
  let seq := mt_seq (meta msg) in
  match b !! seq with
  | None => Ok (<[seq := msg]> b)
  | Some old =>
      if d =? 0 then m ← MergeMsg old msg; Ok (<[seq := m]> b)
      else if d =? 2 then m ← MergeMsg_HALF old msg; Ok (<[seq := m]> b)
      else Ok b
  end.

Definition assemble_blocks (b : blocks) (msg : Message) : result Message :=
  buf ← foldM place (replicate (Z.to_nat (mt_total_bytes (meta msg))) 0) (iterate b);
  _ ← rd (data msg) 1;
  Ok (with_vals msg buf).

(** The message handed to the customer, if there is one. *)
Definition ProcessDataMsg (mm : msg_map) (msg : Message) : result (msg_map * option Message) :=
  let t := meta msg in
  check (negb (mt_sender t =? kEmpty)) "Check failed: sender";;
  check (negb (mt_recver t =? kEmpty)) "Check failed: recver";;
  check (negb (mt_app_id t =? kEmpty)) "Check failed: app_id";;
  check (match GetCustomer registry (mt_app_id t) (if is_worker then mt_customer_id t else mt_app_id t) with Some _ => true | None => false end)
    "timeout (5 sec) to wait App customer ready";;
  if enable_dgt =? 0 then Ok (mm, Some msg)
  else
    type ← DepairDataHandleType (mt_head t);
    if bool_decide (requestType type = Some kDefaultPushPull) && is_global_server && (mt_msg_type t =? 1) then
      msg ← (if enable_dgt =? 3 then decode msg else Ok msg);
      b ← add_block (dtype type) (get_blocks mm (mt_sender t) (mt_first_key t)) msg;
      if mt_seq t =? mt_seq_end t then
        whole ← assemble_blocks b msg;
        Ok (put_blocks mm (mt_sender t) (mt_first_key t) ∅, Some whole)
      else Ok (put_blocks mm (mt_sender t) (mt_first_key t) b, None)
    else Ok (mm, Some msg).
End Receiver.

(** [Unimportant_send]: what leaves the node, and how. *)
Inductive transport := UDP (channel : Z) | TCP.
Definition Unimportant_send (enable_dgt : Z) (residual : residuals) (msg : Message) : result (residuals * option (transport * Message)) :=
  if enable_dgt =? 1 then Ok (residual, Some (UDP (mt_channel (meta msg) - 1), msg))
  else if enable_dgt =? 2 then Ok (residual, Some (TCP, msg))
  else if enable_dgt =? 3 then r ← encode residual msg 4; Ok (r.1, Some (TCP, r.2))
  else Ok (residual, None).

(** ** The blocks of a tensor *)
Section Blocks.
Context (B : nat) (vals : list Z).
Hypothesis HB : (0 < B)%nat.
Hypothesis Hvals : vals ≠ [].

Definition nblocks : nat := (length vals + B - 1) / B.
Definition block (i : nat) : list Z := take B (drop (B * i) vals).

Lemma length_vals : (0 < length vals)%nat.
Proof. by destruct vals; cbn; [|lia]. Qed.

Lemma nblocks_bounds : (0 < nblocks)%nat ∧ (B * (nblocks - 1) < length vals)%nat ∧ (length vals ≤ B * nblocks)%nat.
Proof.
  pose proof length_vals. unfold nblocks. set (q := (_ / B)%nat).
  pose proof (Nat.div_mod_eq (length vals + B - 1) B) as E. pose proof (Nat.mod_upper_bound (length vals + B - 1) B ltac:(lia)).
  fold q in E. assert (0 < q)%nat by (destruct q; nia). split; [done|]. split; [|nia]. destruct q as [|q]; [lia|]. nia.
Qed.

Lemma nblocks_quot : Z.quot (Z.of_nat (length vals) + Z.of_nat B - 1) (Z.of_nat B) = Z.of_nat nblocks.
Proof.
  unfold nblocks. pose proof length_vals. rewrite Z.quot_div_nonneg by lia. rewrite Nat2Z.inj_div. f_equal. lia.
Qed.

Lemma block_end i : (i < nblocks)%nat → (B * i < length vals)%nat.
Proof. pose proof nblocks_bounds. intros. nia. Qed.

Lemma length_block i : length (block i) = (B `min` (length vals - B * i))%nat.
Proof. unfold block. by rewrite length_take, length_drop. Qed.

(** The position of a byte gives its block. *)
Lemma lookup_block i j : (B * i ≤ j < B * S i)%nat → block i !! (j - B * i)%nat = vals !! j.
Proof.
  intros Hj. unfold block. rewrite lookup_take_lt by nia. rewrite lookup_drop. f_equal. lia.
Qed.

Lemma block_index i j : (B * i ≤ j < B * S i)%nat ↔ (j / B = i)%nat.
Proof.
  pose proof (Nat.div_mod_eq j B). pose proof (Nat.mod_upper_bound j B ltac:(lia)). split; [|nia].
  intros Hj. symmetry. apply (Nat.div_unique j B i (j - B * i)); nia.
Qed.

(** A message that carries block [i]. *)
Record block_of (first_key : Z) (m : Message) (i : nat) : Prop := {
  bo_lt : (i < nblocks)%nat;
  bo_key : mt_first_key (meta m) = first_key;
  bo_seq : mt_seq (meta m) = Z.of_nat i;
  bo_end : mt_seq_end (meta m) = Z.of_nat nblocks - 1;
  bo_off : mt_val_bytes (meta m) = Z.of_nat (B * i);
  bo_total : mt_total_bytes (meta m) = Z.of_nat (length vals);
  bo_type : mt_msg_type (meta m) = 1;
  bo_data : data m !! 1%nat = Some (block i)
}.

(** Copying a block changes its bytes of the buffer to the tensor's. *)
Lemma place_block first_key buf m i :
  block_of first_key m i → length buf = length vals →
  ∃ buf', place buf m = Ok buf' ∧ length buf' = length vals ∧
    ∀ j, buf' !! j = if decide (j / B = i)%nat then vals !! j else buf !! j.
Proof.
  intros Hb Hlen. pose proof (block_end i (bo_lt _ _ _ Hb)) as Hi. pose proof (length_block i) as Hl.
  unfold place. rewrite (rd_ok _ _ _ (bo_data _ _ _ Hb)), (bo_off _ _ _ Hb), Nat2Z.id. rstep.
  rewrite (proj2 (Z.leb_le _ _)), (proj2 (Z.leb_le _ _)) by lia. cbn [andb]. eexists. split; [done|].
  split; [rewrite !length_app, length_take, length_drop; lia|]. intros j.
  destruct (decide (j / B = i)%nat) as [Hj|Hj].
  - apply block_index in Hj. rewrite lookup_app_r; rewrite length_take_le by lia; [|lia].
    destruct (decide (j < length vals)%nat) as [Hlt|Hge].
    + rewrite lookup_app_l by lia. by apply lookup_block.
    + rewrite lookup_app_r by lia. rewrite lookup_drop, (lookup_ge_None_2 vals) by lia. apply lookup_ge_None_2. lia.
  - assert (j < B * i ∨ B * S i ≤ j)%nat as [Hlt|Hge].
    { destruct (decide (j < B * i)%nat); [by left|]. destruct (decide (B * S i ≤ j)%nat); [by right|].
      exfalso. apply Hj, block_index. lia. }
    + rewrite lookup_app_l by (rewrite length_take; lia). apply lookup_take_lt. lia.
    + rewrite lookup_app_r; rewrite length_take_le by lia; [|nia].
      destruct (decide (j < length vals)%nat) as [Hlt|Hge'].
      * rewrite lookup_app_r by nia. rewrite lookup_drop. f_equal. nia.
      * rewrite (lookup_ge_None_2 buf) by lia. apply lookup_ge_None_2. rewrite length_app, length_drop. nia.
Qed.

Definition delivered (got : list Z) : list Z :=
  imap (fun j b => if bool_decide (Z.of_nat (j / B) ∈ got) then b else 0) vals.

Lemma place_blocks first_key ms : ∀ got buf,
  Forall (fun m => ∃ i, block_of first_key m i) ms → buf = delivered got →
  foldM place buf ms = Ok (delivered (((fun m => mt_seq (meta m)) <$> ms) ++ got)).
Proof.
  induction ms as [|m ms IH]; intros got buf Hms Hbuf; cbn [foldM]; [by rewrite Hbuf|].
  apply Forall_cons in Hms as [[i Hm] Hms].
  assert (length buf = length vals) as Hlen by (rewrite Hbuf; unfold delivered; by rewrite length_imap).
  destruct (place_block first_key buf m i Hm Hlen) as (buf' & E & Hlen' & Hj). rewrite E. rstep.
  rewrite (IH (Z.of_nat i :: got)); [|done|].
  - f_equal. rewrite fmap_cons, (bo_seq _ _ _ Hm). unfold delivered. apply imap_ext. intros j b _.
    erewrite bool_decide_ext; [reflexivity|set_solver].
  - apply list_eq. intros j. rewrite Hj, Hbuf. unfold delivered. rewrite !list_lookup_imap.
    destruct (vals !! j) as [b|]; cbn; [|by destruct (decide _)].
    destruct (decide (j / B = i)%nat) as [->|Hne]; [rewrite bool_decide_true by set_solver; done|].
    erewrite bool_decide_ext; [reflexivity|]. rewrite elem_of_cons. split; [by right|]. intros [?|?]; [lia|done].
Qed.

Lemma delivered_nil : delivered [] = replicate (length vals) 0.
Proof.
  unfold delivered. apply list_eq. intros j. rewrite list_lookup_imap. destruct (vals !! j) as [b|] eqn:E.
  - cbn. rewrite bool_decide_false by set_solver. symmetry. apply lookup_replicate_2. by eapply lookup_lt_Some.
  - symmetry. apply lookup_ge_None_2. rewrite length_replicate. by apply lookup_ge_None.
Qed.
End Blocks.

(** ** What the sender produces *)
Section Sending.
Context (cfg : Config) (B : nat) (app_id customer_id timestamp cmd recver : Z) (key : Z) (keys lens vals : list Z).
Hypothesis HB : (0 < B)%nat.
Hypothesis Hcfg : block_size cfg = Z.of_nat B.
Hypothesis Hvals : vals ≠ [].
Local Abbreviation N := (nblocks B vals).
Local Abbreviation ks := (key :: keys).

Definition sent_block (bits : Z) (c : nat → float) (i : nat) : Message :=
  let m := block_message app_id customer_id timestamp cmd recver ks lens vals (i32 key) bits (Z.of_nat i) (Z.of_nat N)
             (Z.of_nat (B * i)) (block B vals i) in
  {| meta := meta m; data := data m; contribution := c i |}.

Definition kept (c : nat → float) (i : nat) : bool := f_ne (c i) f32_zero || (i =? N - 1)%nat.

Lemma sent_block_of bits c i : (i < N)%nat → block_of B vals (i32 key) (sent_block bits c i) i.
Proof. intros Hi. by split. Qed.

(** The rating of block [j]. *)
Definition rate (rates : ratings) (j : nat) : option float := row ← rates !! i32 key; row !! Z.of_nat j.

Lemma rate_eval alpha rates seq d c rates' :
  EvalMsgContribution alpha rates (i32 key) (Z.of_nat seq) d = (c, rates') →
  rate rates' seq = Some c ∧ ∀ j, j ≠ seq → rate rates' j = rate rates j.
Proof.
  unfold EvalMsgContribution, rate. intros [= <- <-]. rewrite lookup_insert_eq. cbn. split; [apply lookup_insert_eq|].
  intros j Hj. rewrite lookup_insert_ne by lia. by destruct (rates !! i32 key).
Qed.

Lemma dgt_loop_spec bits k : ∀ i fuel rates acc,
  (i + k = N)%nat → (k ≤ fuel)%nat →
  ∃ rates' c, dgt_loop cfg app_id customer_id timestamp cmd recver ks lens vals fuel (i32 key) bits (Z.of_nat N)
      (Z.of_nat (length vals - B * i)) (Z.of_nat ((B * i) `min` length vals)) (Z.of_nat i) rates acc =
    Ok (rates', acc ++ (sent_block bits c <$> List.filter (kept c) (seq i k))) ∧
    (∀ j, (i ≤ j < N)%nat → rate rates' j = Some (c j)) ∧ (∀ j, (j < i)%nat → rate rates' j = rate rates j).
Proof.
  pose proof (nblocks_bounds B vals HB Hvals) as (_ & HN1 & HN2). induction k as [|k IH]; intros i fuel rates acc Hi Hf.
  - exists rates, (fun _ => f32_zero). cbn. replace (length vals - B * i)%nat with 0%nat by nia. rewrite app_nil_r. split; [by destruct fuel|]. split; [lia|done].
  - destruct fuel as [|fuel]; [lia|]. pose proof (block_end B vals HB Hvals i ltac:(lia)) as Hend.
    cbn [dgt_loop]. rewrite (proj2 (Z.eqb_neq _ _)) by lia. rewrite Hcfg.
    replace ((B * i) `min` length vals)%nat with (B * i)%nat by lia.
    set (l := Z.min _ _). assert (l = Z.of_nat (B `min` (length vals - B * i))) as El by (unfold l; lia).
    rewrite check_bind_ok by (apply Z.leb_le; lia). rewrite check_bind_ok by (apply Z.leb_le; lia). rewrite Nat2Z.id.
    replace (take (Z.to_nat l) (drop (B * i) vals)) with (block B vals i).
    2: { unfold block. rewrite El, Nat2Z.id. symmetry. rewrite <- (take_ge (drop (B * i) vals) (length vals - B * i)) at 2 by (rewrite length_drop; lia).
         by rewrite take_take. }
    change (rd _ 1) with (Ok (block B vals i)). rstep.
    destruct (EvalMsgContribution _ _ _ _ _) as [ci rates1] eqn:Eval. apply rate_eval in Eval as [Hci Hother]. rewrite El.
    replace (Z.of_nat (length vals - B * i) - Z.of_nat (B `min` (length vals - B * i))) with (Z.of_nat (length vals - B * S i)) by nia.
    replace (Z.of_nat (B * i) + Z.of_nat (B `min` (length vals - B * i))) with (Z.of_nat ((B * S i) `min` length vals)) by nia.
    replace (Z.of_nat i + 1) with (Z.of_nat (S i)) by lia.
    match goal with |- context [if ?b then ?x else acc] => set (acc' := if b then x else acc) end.
    destruct (IH (S i) fuel rates1 acc' ltac:(lia) ltac:(lia)) as (rates' & c & E & Hnew & Hold). rewrite E.
    set (c1 := fun j => if (j =? i)%nat then ci else c j). exists rates', c1.
    split; [|split].
    2: { intros j Hj. unfold c1. destruct (Nat.eqb_spec j i) as [->|Hne]; [by rewrite Hold by lia|by apply Hnew; lia]. }
    2: { intros j Hj. rewrite Hold by lia. apply Hother. lia. }
    assert (∀ j, j ∈ seq (S i) k → c1 j = c j) as Hc1.
    { intros j Hj. apply elem_of_seq in Hj. unfold c1. by rewrite (proj2 (Nat.eqb_neq _ _)) by lia. }
    assert (sent_block bits c1 <$> List.filter (kept c1) (seq (S i) k) = sent_block bits c <$> List.filter (kept c) (seq (S i) k)) as Hrest.
    { rewrite (List.filter_ext_in (kept c1) (kept c)).
      - apply list_fmap_ext. intros j x Hx. apply list_elem_of_lookup_2, list_elem_of_In, List.filter_In in Hx as [Hx _].
        unfold sent_block. by rewrite Hc1 by by apply list_elem_of_In.
      - intros j Hj. unfold kept. by rewrite Hc1 by by apply list_elem_of_In. }
    cbn [seq List.filter]. assert (kept c1 i = f_ne ci f32_zero || (Z.of_nat i =? Z.of_nat N - 1)) as ->.
    { unfold kept, c1. rewrite Nat.eqb_refl. f_equal. destruct (Nat.eqb_spec i (N - 1)), (Z.eqb_spec (Z.of_nat i) (Z.of_nat N - 1)); done || lia. }
    unfold acc'. destruct (_ || _); [|by rewrite Hrest]. rewrite fmap_cons, Hrest, <- (assoc_L (++)). cbn [app]. do 4 f_equal.
    unfold sent_block, c1. by rewrite Nat.eqb_refl.
Qed.

Lemma GetChannel_range index max_index C k random :
  0 < C → 0 ≤ random → ∃ c, GetChannel index max_index C k random = Ok c ∧ 0 ≤ c ≤ C.
Proof.
  intros HC Hr. unfold GetChannel. destruct (_ <? _); [eexists; split; [done|lia]|].
  match goal with |- context [List.find ?f ?l] => destruct (List.find f l) as [i|] eqn:E end.
  - apply List.find_some in E as [E _]. apply List.in_seq in E. eexists. split; [done|lia].
  - rewrite (proj2 (Z.eqb_neq _ _)) by lia. eexists. split; [done|]. pose proof (Z.rem_bound_pos random C). lia.
Qed.

(** A message of this push, on its way. *)
Record outgoing (m : Message) (i : nat) : Prop := {
  out_block : block_of B vals (i32 key) m i;
  out_head : mt_head (meta m) = cmd;
  out_app : mt_app_id (meta m) = app_id;
  out_recver : mt_recver (meta m) = recver;
  out_channel : 0 ≤ mt_channel (meta m) ≤ udp_channel_num cfg
}.

Lemma assign_channels_spec random n l : ∀ j,
  0 < udp_channel_num cfg → (∀ j, 0 ≤ random j) →
  ∃ l', assign_channels cfg random n j l = Ok l' ∧
    Forall2 (fun m m' => ∃ ch tos, m' = with_channel m ch tos ∧ 0 ≤ ch ≤ udp_channel_num cfg ∧
      (mt_seq (meta m) = mt_seq_end (meta m) → ch = 0)) l l'.
Proof.
  intros j HC Hr. revert j. induction l as [|m l IH]; intros j; cbn [assign_channels]; [by eexists|].
  destruct (GetChannel_range (Z.of_nat j) (Z.of_nat n - 1) (udp_channel_num cfg) (dmlc_k_init cfg) (random j) HC (Hr j)) as (ch & E & Hch).
  unfold assign_channel. rewrite E. rstep. destruct (IH (S j)) as (l' & -> & Hl). rstep. eexists. split; [done|].
  constructor; [|done]. do 2 eexists. split; [done|]. destruct (Z.eqb_spec (mt_seq (meta m)) (mt_seq_end (meta m))); split; done || lia.
Qed.

Lemma outgoing_sent bits c i ch tos :
  (i < N)%nat → 0 ≤ ch ≤ udp_channel_num cfg → outgoing (with_channel (sent_block bits c i) ch tos) i.
Proof. intros Hi Hch. by split. Qed.

Lemma filter_kept c : List.filter (kept c) (seq 0 N) = List.filter (kept c) (seq 0 (N - 1)) ++ [(N - 1)%nat].
Proof.
  pose proof (nblocks_bounds B vals HB Hvals) as (Hpos & _). replace N with (S (N - 1)) at 1 by lia.
  rewrite seq_S, List.filter_app. cbn. unfold kept at 2. by rewrite Nat.eqb_refl, orb_true_r.
Qed.

(** The messages of a push: blocks of the tensor, none twice, without those rated zero;
    the last block comes last and takes the reliable channel. *)
Lemma dgt_send_spec sort random rates type :
  DepairDataHandleType cmd = Ok type → 0 < udp_channel_num cfg → (∀ j, 0 ≤ random j) → (∀ l, sort l ≡ₚ l) →
  ∃ rates' pre lst,
    dgt_send cfg app_id customer_id timestamp cmd recver ks lens vals sort random rates = Ok (rates', pre ++ [lst]) ∧
    outgoing lst (N - 1) ∧ mt_channel (meta lst) = 0 ∧
    Forall (fun m => ∃ i, outgoing m i ∧ (i < N - 1)%nat) pre ∧ NoDup ((fun m => mt_seq (meta m)) <$> pre) ∧
    (∀ i, (i < N - 1)%nat → Z.of_nat i ∈ (fun m => mt_seq (meta m)) <$> pre ↔ ∃ c, rate rates' i = Some c ∧ f_ne c f32_zero = true).
Proof.
  intros Htype HC Hr Hsort. pose proof (nblocks_bounds B vals HB Hvals) as (Hpos & Hn1 & Hn2).
  unfold dgt_send. rewrite Htype. rstep. change (rd ks 0) with (Ok key). rstep. rewrite Hcfg.
  rewrite (proj2 (Z.eqb_neq _ _)) by lia. rewrite (nblocks_quot B vals HB Hvals).
  destruct (dgt_loop_spec (bits_of_dtype (dtype type)) N 0 (length vals) rates [] eq_refl) as (rates' & c & E & Hrate & _).
  { pose proof (length_vals B vals HB Hvals). unfold nblocks. apply Nat.Div0.div_le_upper_bound. nia. }
  rewrite Nat.mul_0_r, Nat.sub_0_r in E. cbn [Nat.min app] in E. change (Z.of_nat 0) with 0 in E. rewrite E. rstep. clear E.
  set (bits := bits_of_dtype (dtype type)). rewrite filter_kept, fmap_app. set (pre := sent_block bits c <$> _).
  cbn [fmap list_fmap]. rewrite last_snoc.
  replace (take (length (pre ++ [sent_block bits c (N - 1)]) - 1) (pre ++ [sent_block bits c (N - 1)])) with pre
    by (rewrite length_app; cbn [length]; by rewrite Nat.add_sub, take_app_length).
  destruct (assign_channels_spec random (length (sort pre ++ [sent_block bits c (N - 1)])) (sort pre ++ [sent_block bits c (N - 1)]) 0 HC Hr) as (l' & -> & Hl).
  rstep. apply Forall2_app_inv_l in Hl as (pre' & lst' & Hpre & Hlst & ->).
  apply Forall2_cons_inv_l in Hlst as (lst & nil' & (ch & tos & -> & Hch & Hz) & Hnil & ->). apply Forall2_nil_inv_l in Hnil as ->.
  assert ((fun m => mt_seq (meta m)) <$> pre' ≡ₚ Z.of_nat <$> List.filter (kept c) (seq 0 (N - 1))) as Hseqs.
  { transitivity ((fun m => mt_seq (meta m)) <$> pre); [|unfold pre; by rewrite <- list_fmap_compose]. rewrite <- (Hsort pre).
    clear -Hpre. induction Hpre as [|m m' l l' (ch & tos & -> & _) _ IH]; [done|]. rewrite !fmap_cons. cbn. by rewrite IH. }
  exists rates', pre', (with_channel (sent_block bits c (N - 1)) ch tos). split_and!; [done| |apply Hz; cbn; lia| | |].
  - apply outgoing_sent; [lia|done].
  - apply Forall_forall. intros m Hm. apply list_elem_of_lookup in Hm as [j Hj].
    destruct (Forall2_lookup_r _ _ _ _ _ Hpre Hj) as (m0 & Hm0 & ch0 & tos0 & -> & Hch0 & _).
    apply list_elem_of_lookup_2 in Hm0. rewrite Hsort in Hm0. unfold pre in Hm0. apply list_elem_of_fmap in Hm0 as (i & -> & Hi).
    apply list_elem_of_In, List.filter_In in Hi as [Hi _]. apply List.in_seq in Hi. exists i. split; [by apply outgoing_sent; [lia|]|lia].
  - rewrite Hseqs. apply NoDup_fmap_2; [apply _|]. apply NoDup_ListNoDup, List.NoDup_filter, NoDup_ListNoDup, NoDup_seq.
  - intros i Hi. rewrite Hseqs, list_elem_of_fmap. rewrite Hrate by lia. split.
    + intros (j & Hj & Hin). apply Nat2Z.inj in Hj as <-. apply list_elem_of_In, List.filter_In in Hin as [_ Hk]. exists (c i). split; [done|].
      unfold kept in Hk. rewrite (proj2 (Nat.eqb_neq _ _)), orb_false_r in Hk by lia. done.
    + intros (x & [= <-] & Hx). exists i. split; [done|]. apply list_elem_of_In, List.filter_In. split; [apply List.in_seq; lia|].
      unfold kept. by rewrite Hx.
Qed.
End Sending.

(** ** Delivery *)

(** The message as the receiver unpacks it. *)
Definition on_arrival (sender : Z) (m : Message) : Message :=
  {| meta := received (meta m) sender; data := data m; contribution := f32_zero |}.

Fixpoint process_all (iterate : blocks → list Message) (enable_dgt : Z) (is_worker is_gs : bool) (registry : Registry)
    (mm : msg_map) (ms : list Message) : result (msg_map * list Message) :=
  match ms with
  | [] => Ok (mm, [])
  | m :: ms =>
      r ← ProcessDataMsg iterate enable_dgt is_worker is_gs registry mm m;
      r' ← process_all iterate enable_dgt is_worker is_gs registry r.1 ms;
      Ok (r'.1, (match r.2 with Some m => [m] | None => [] end) ++ r'.2)
  end.

Lemma process_all_app iterate dgt w gs reg ms1 ms2 : ∀ mm,
  process_all iterate dgt w gs reg mm (ms1 ++ ms2) =
    (r ← process_all iterate dgt w gs reg mm ms1; r' ← process_all iterate dgt w gs reg r.1 ms2; Ok (r'.1, r.2 ++ r'.2)).
Proof.
  induction ms1 as [|m ms1 IH]; intros mm; cbn [process_all app].
  - rstep. destruct (process_all _ _ _ _ _ _ _) as [[? ?]|]; done.
  - destruct (ProcessDataMsg _ _ _ _ _ _ _) as [[mm1 o]|]; [|done]. rstep. rewrite IH.
    destruct (process_all _ _ _ _ _ mm1 ms1) as [[mm2 out]|]; [|done]. rstep.
    destruct (process_all _ _ _ _ _ mm2 ms2) as [[mm3 out']|]; [|done]. rstep. by rewrite (assoc_L (++)).
Qed.

Lemma get_put_blocks mm sender key b : get_blocks (put_blocks mm sender key b) sender key = b.
Proof. unfold get_blocks, put_blocks. by rewrite lookup_insert_eq; cbn; rewrite lookup_insert_eq. Qed.

Lemma put_put_blocks mm sender key b b' : put_blocks (put_blocks mm sender key b) sender key b' = put_blocks mm sender key b'.
Proof. unfold put_blocks. rewrite lookup_insert_eq. cbn. by rewrite !insert_insert_eq. Qed.

Section Delivery.
Context (cfg : Config) (B : nat) (app_id cmd recver : Z) (key : Z) (vals : list Z).
Hypothesis HB : (0 < B)%nat.
Hypothesis Hvals : vals ≠ [].
Context (iterate : blocks → list Message) (enable_dgt : Z) (registry : Registry) (sender : Z) (type : DataHandleType).
Hypothesis Hiterate : ∀ b, iterate b ≡ₚ (map_to_list b).*2.
Hypothesis Hdgt : enable_dgt = 1 ∨ enable_dgt = 2.
Hypothesis Htype : DepairDataHandleType cmd = Ok type.
Hypothesis Hdefault : requestType type = Some kDefaultPushPull.
Hypothesis Hsender : sender ≠ kEmpty.
Hypothesis Hrecver : recver ≠ kEmpty.
Hypothesis Happ : app_id ≠ kEmpty.
Hypothesis Hcustomer : is_Some (GetCustomer registry app_id app_id).
Local Abbreviation N := (nblocks B vals).
Local Abbreviation outgoing := (outgoing cfg B app_id cmd recver key vals).
Local Abbreviation process := (ProcessDataMsg iterate enable_dgt false true registry).
Local Abbreviation seqs l := ((fun m => mt_seq (meta m)) <$> l).

(** The map holds the messages of [l]. *)
Definition holds (b : blocks) (l : list Message) : Prop :=
  ∀ s m, b !! s = Some m ↔ m ∈ l ∧ mt_seq (meta m) = s.

Lemma arrival_add mm m i l :
  outgoing m i → holds (get_blocks mm sender (i32 key)) l → mt_seq (meta m) ∉ seqs l →
  let m' := on_arrival sender m in
  let b := <[mt_seq (meta m) := m']> (get_blocks mm sender (i32 key)) in
  holds b (m' :: l) ∧
  process mm m' = if (Z.of_nat i =? Z.of_nat N - 1)
    then (whole ← assemble_blocks iterate b m'; Ok (put_blocks mm sender (i32 key) ∅, Some whole))
    else Ok (put_blocks mm sender (i32 key) b, None).
Proof.
  intros Hm Hh Hnew m' b. destruct Hm as [Hb Hhead Happid Hrec _]. split.
  - intros s x. destruct (decide (s = mt_seq (meta m))) as [->|Hne].
    + unfold b. rewrite lookup_insert_eq. rewrite elem_of_cons. split.
      * intros [= <-]. split; [by left|done].
      * intros [[->|Hx] Hs]; [done|]. exfalso. apply Hnew. rewrite <- Hs. by apply (list_elem_of_fmap_2 (fun m => mt_seq (meta m))).
    + unfold b. rewrite lookup_insert_ne by done. rewrite (Hh s x), elem_of_cons. split; [naive_solver|].
      intros [[->|Hx] Hs]; [by destruct Hne|done].
  - unfold ProcessDataMsg. unfold m', on_arrival. cbn [meta received mt_sender mt_recver mt_app_id mt_customer_id mt_head mt_msg_type mt_seq mt_seq_end mt_first_key].
    rewrite Happid, Hrec, Hhead, (bo_type _ _ _ _ _ Hb), (bo_seq _ _ _ _ _ Hb), (bo_end _ _ _ _ _ Hb), (bo_key _ _ _ _ _ Hb).
    rewrite !check_bind_ok by first [by apply negb_true_iff, Z.eqb_neq | by destruct Hcustomer as [? ->]].
    rewrite (proj2 (Z.eqb_neq enable_dgt 0)), Htype by lia. rstep. rewrite Hdefault, (proj2 (Z.eqb_neq enable_dgt 3)) by lia.
    rewrite bool_decide_true by done. cbn [andb Z.eqb Pos.eqb]. rstep.
    unfold add_block. cbn [meta received mt_seq]. rewrite (bo_seq _ _ _ _ _ Hb).
    destruct (get_blocks mm sender (i32 key) !! Z.of_nat i) as [old|] eqn:Eold.
    { exfalso. apply Hnew. apply Hh in Eold as [Hold Hs]. rewrite (bo_seq _ _ _ _ _ Hb), <- Hs. by apply (list_elem_of_fmap_2 (fun m => mt_seq (meta m))). }
    rstep. unfold b. by rewrite (bo_seq _ _ _ _ _ Hb).
Qed.

(** Blocks other than the last are kept, whatever their order. *)
Lemma arrivals_kept arr : ∀ mm l,
  Forall (fun m => ∃ i, outgoing m i ∧ (i < N - 1)%nat) arr → NoDup (seqs arr) →
  (∀ s, s ∈ seqs arr → s ∉ seqs l) → holds (get_blocks mm sender (i32 key)) l →
  ∃ mm' l', process_all iterate enable_dgt false true registry mm (on_arrival sender <$> arr) = Ok (mm', []) ∧
    holds (get_blocks mm' sender (i32 key)) l' ∧ l' ≡ₚ (on_arrival sender <$> arr) ++ l.
Proof.
  induction arr as [|m arr IH]; intros mm l Hall Hnd Hdisj Hh; cbn [process_all fmap list_fmap]; [by exists mm, l|].
  apply Forall_cons in Hall as [(i & Hm & Hi) Hall]. rewrite fmap_cons in Hnd, Hdisj. apply NoDup_cons in Hnd as [Hnot Hnd].
  destruct (arrival_add mm m i l Hm Hh (Hdisj _ ltac:(by left))) as [Hh' E]. rewrite (proj2 (Z.eqb_neq _ _)) in E by lia.
  rewrite E. rstep.
  destruct (IH (put_blocks mm sender (i32 key) (<[mt_seq (meta m) := on_arrival sender m]> (get_blocks mm sender (i32 key)))) (on_arrival sender m :: l))
    as (mm' & l' & E' & Hh'' & Hp); [done|done| |by rewrite get_put_blocks|].
  - intros s Hs. rewrite fmap_cons, not_elem_of_cons. split; [by intros ->|]. apply Hdisj. by right.
  - cbn [fmap list_fmap] in E'. exists mm', l'. split; [by rewrite E'|]. split; [done|]. rewrite Hp. symmetry. apply Permutation_middle.
Qed.

(** The last block makes the receiver deliver what it has. *)
Lemma last_arrival mm l lst :
  outgoing lst (N - 1) → holds (get_blocks mm sender (i32 key)) l → Forall (fun m => ∃ i, block_of B vals (i32 key) m i ∧ (i < N - 1)%nat) l →
  process mm (on_arrival sender lst) =
    Ok (put_blocks mm sender (i32 key) ∅, Some (with_vals (on_arrival sender lst) (delivered B vals (seqs (on_arrival sender lst :: l))))).
Proof.
  intros Hlst Hh Hl. pose proof (nblocks_bounds B vals HB Hvals) as (Hpos & _). pose proof (out_block _ _ _ _ _ _ _ _ _ Hlst) as Hb.
  destruct (arrival_add mm lst (N - 1) l Hlst Hh) as [Hh' E].
  { intros Hin. apply list_elem_of_fmap in Hin as (m & Hs & Hin). eapply Forall_forall in Hl as (i & Hi & Hlt); [|exact Hin].
    rewrite (bo_seq _ _ _ _ _ Hi), (bo_seq _ _ _ _ _ Hb) in Hs. lia. }
  rewrite (proj2 (Z.eqb_eq _ _)) in E by lia. rewrite E. clear E. set (b := <[_ := _]> _) in *.
  unfold assemble_blocks. cbn [on_arrival meta received mt_total_bytes]. rewrite (bo_total _ _ _ _ _ Hb), Nat2Z.id.
  rewrite (place_blocks B vals HB Hvals (i32 key) (iterate b) []); [| |by rewrite delivered_nil].
  - rstep. rewrite (rd_ok _ _ (block B vals (N - 1))) by (by apply (bo_data _ _ _ _ _ Hb)). rstep. do 4 f_equal.
    unfold delivered. apply imap_ext. intros j x _. erewrite bool_decide_ext; [reflexivity|]. rewrite app_nil_r, !list_elem_of_fmap.
    split; intros (m & Hs & Hm); exists m; (split; [done|]).
    + rewrite Hiterate in Hm. apply list_elem_of_fmap in Hm as ([s y] & -> & Hy). apply elem_of_map_to_list in Hy. by apply Hh' in Hy as [? _].
    + rewrite Hiterate. apply list_elem_of_fmap. exists (mt_seq (meta m), m). split; [done|]. apply elem_of_map_to_list. by apply Hh'.
  - apply Forall_forall. intros m Hm. rewrite Hiterate in Hm. apply list_elem_of_fmap in Hm as ([s y] & -> & Hy).
    apply elem_of_map_to_list in Hy. apply Hh' in Hy as [Hy _]. apply elem_of_cons in Hy as [->|Hy].
    + exists (N - 1)%nat. by destruct Hb; split.
    + eapply Forall_forall in Hl as (i & Hi & _); [|exact Hy]. by exists i.
Qed.
End Delivery.

Local Abbreviation seqs l := ((fun m => mt_seq (meta m)) <$> l).


(** Five floats in blocks of two; the first two blocks are lost. *)
Definition w_cfg : Config := {| contribution_alpha := f32_of_Z 0; block_size := 8; dmlc_k_init := f32_of_Z 1; udp_channel_num := 1 |}.
Definition w_vals : list Z := of_floats (f32_of_Z <$> [1; 2; 0; 0; 5]).
Definition rated_more (a b : Message) : Prop := f_ge (contribution a) (contribution b) = true.
#[export] Instance rated_more_dec : RelDecision rated_more.
Proof. intros a b. apply bool_eq_dec. Defined.
Definition w_sort (l : list Message) : list Message := merge_sort rated_more l.
Definition w_registry : Registry := {| customers := {[0 := {[0 := 1]}]}; barrier_done := ∅ |}.


(** ** The fp16 merge *)

(** Merging two fp16 blocks keeps an eighth of them.  A late fp16 block and the same
    block of the next push have the same size; the merged block that the receiver stores
    has 2 bytes for every 16 bytes of the block, so the rest of it is dropped. *)
Theorem half_merge_truncates msg1 msg2 d1 d2 :
  data msg1 !! 1%nat = Some d1 → data msg2 !! 1%nat = Some d2 → length d1 = length d2 →
  ∃ m d, MergeMsg_HALF msg1 msg2 = Ok m ∧ data m !! 1%nat = Some d ∧ length d = (2 * (length d1 / 16))%nat.
Proof.
  intros H1 H2 Hl. unfold MergeMsg_HALF. rewrite (rd_ok _ _ _ H1), (rd_ok _ _ _ H2). rstep. rewrite Hl, Nat.eqb_refl.
  do 2 eexists. split; [done|]. split; [apply list_lookup_insert_eq; by eapply lookup_lt_Some|].
  unfold of_halves. set (l := zip_with _ _ _). assert (length l = length d2 / 16)%nat as <-.
  { unfold l, as_halves. rewrite length_zip_with, !length_fmap, length_seq. lia. }
  clearbody l. induction l as [|x l IH]; [done|]. rewrite fmap_cons.
  change (mjoin (?a :: ?b)) with (a ++ mjoin b). rewrite length_app, IH. cbn [le_bytes length]. lia.
Qed.

Definition w_halves : Message := {| meta := Meta_init; data := [[]; mjoin (replicate 8 [0; 60])]; contribution := f32_zero |}.

Lemma half_merge_truncates_witness :
  ∃ m d, MergeMsg_HALF w_halves w_halves = Ok m ∧ data m !! 1%nat = Some d ∧ length d = 2%nat.
Proof.
  destruct (half_merge_truncates w_halves w_halves (mjoin (replicate 8 [0; 60])) (mjoin (replicate 8 [0; 60]))) as (m & d & H1 & H2 & H3);
    [done|done|done|]. exists m, d. split; [exact H1|]. split; [exact H2|]. exact H3.
Defined.

(** ** The 4-bit coder *)
Definition undefined {A} (r : result A) : Prop := ∃ what, r = Err (Undefined what).

(** A loop whose iterations succeed or are undefined, and whose last one is undefined. *)
Lemma for_count_undefined {A} (P : nat → A → Prop) n : ∀ lo body a,
  P lo a →
  (∀ i a, (lo ≤ i < lo + n)%nat → P i a → (∃ a', body i a = Ok a' ∧ P (S i) a') ∨ undefined (body i a)) →
  (∀ a, P (lo + n)%nat a → undefined (body (lo + n)%nat a)) →
  undefined (for_count lo (S n) body a).
Proof.
  induction n as [|n IH]; intros lo body a HP Hstep Hlast.
  - cbn [for_count]. destruct (Hlast a) as [w E]; [by rewrite Nat.add_0_r|]. rewrite Nat.add_0_r in E. rewrite E. by exists w.
  - destruct (Hstep lo a ltac:(lia) HP) as [(a' & E & HP')|[w E]]; cbn [for_count]; rewrite E; rstep; [|by exists w].
    apply IH; [done| |by replace (S lo + n)%nat with (lo + S n)%nat by lia].
    intros i x Hi. apply Hstep. lia.
Qed.

Lemma undefined_bind {A B} (m : result A) (f : A → result B) :
  undefined m ∨ (∃ a, m = Ok a ∧ undefined (f a)) → undefined (m ≫= f).
Proof. intros [[w ->]|(a & -> & H)]; [by exists w|done]. Qed.

Lemma rd_total {A} (l : list A) i : (∃ x, rd l i = Ok x) ∨ undefined (rd l i).
Proof. unfold rd. destruct (l !! i); [by left; eexists|right; by eexists]. Qed.
Lemma rdz_total {A} (l : list A) i : (∃ x, rdz l i = Ok x) ∨ undefined (rdz l i).
Proof. unfold rdz. destruct (i <? 0); [right; by eexists|apply rd_total]. Qed.
Lemma wr_total {A} (l : list A) i x : wr l i x = Ok (<[i := x]> l) ∨ undefined (wr l i x).
Proof. unfold wr. case_decide; [by left|right; by eexists]. Qed.
Lemma to_integer_total lo hi x : (∃ z, to_integer lo hi x = Ok z) ∨ undefined (to_integer lo hi x).
Proof. unfold to_integer. destruct x; try (destruct (_ && _)); first [by left; eexists | by right; eexists]. Qed.

(** An iteration keeps the size of the output, and moves on after even positions. *)
Definition coding (k i : nat) (a : list Z * nat * list float) : Prop := length a.1.1 = k ∧ a.1.2 = ((i + 1) / 2)%nat.

Lemma encode_step_coding min_v max_v compr k i a :
  coding k i a → (∃ a', encode_step 4 min_v max_v compr i a = Ok a' ∧ coding k (S i) a') ∨ undefined (encode_step 4 min_v max_v compr i a).
Proof.
  destruct a as [[d_val pd] pr]. intros [Hd Hpd]. cbn [fst snd] in Hd, Hpd. unfold encode_step.
  destruct (rd_total pr i) as [[r ->]|[w ->]]; [|by right; exists w]. rstep.
  match goal with |- context [to_integer ?a ?b ?x] => destruct (to_integer_total a b x) as [[q ->]|[w ->]] end; [|by right; exists w]. rstep.
  destruct (rd_total d_val pd) as [[old ->]|[w ->]]; [|by right; exists w]. rstep.
  match goal with |- context [wr d_val pd ?x] => destruct (wr_total d_val pd x) as [->|[w ->]] end; [|by right; exists w]. rstep.
  destruct (rdz_total compr q) as [[c ->]|[w ->]]; [|by right; exists w]. rstep.
  match goal with |- context [wr pr i ?x] => destruct (wr_total pr i x) as [->|[w ->]] end; [|by right; exists w]. rstep.
  left. eexists. split; [done|]. split; cbn [fst snd]; [by rewrite length_insert|]. rewrite Hpd. change (8 / 4) with 2.
  destruct (Z.eqb_spec (Z.rem (Z.of_nat i) 2) 0); divlia.
Qed.

Lemma encode_step_overrun min_v max_v compr k a :
  (0 < k)%nat → coding k (2 * k - 1) a → undefined (encode_step 4 min_v max_v compr (2 * k - 1) a).
Proof.
  destruct a as [[d_val pd] pr]. intros Hk [Hd Hpd]. cbn [fst snd] in Hd, Hpd. unfold encode_step.
  destruct (rd_total pr (2 * k - 1)) as [[r ->]|[w ->]]; [|by exists w]. rstep.
  match goal with |- context [to_integer ?a ?b ?x] => destruct (to_integer_total a b x) as [[q ->]|[w ->]] end; [|by exists w]. rstep.
  unfold rd at 1. rewrite lookup_ge_None_2 by divlia. by eexists.
Qed.

(** The 4-bit coder writes out of its buffer.  For every float32 block with an even,
    positive number of values, which is every block of the default block size, coding it
    with 4 bits is undefined: the low half of a pair is written into the byte after the
    one that was allocated for it. *)
Theorem encode_overruns residual msg s_val k :
  data msg !! 1%nat = Some s_val → length s_val = (8 * k)%nat → (0 < k)%nat → mt_bits_num (meta msg) = 32 →
  undefined (encode residual msg 4).
Proof.
  intros Hd Hlen Hk Hbits. unfold encode. rewrite (rd_ok _ _ _ Hd), Hbits. rstep. change (Z.quot 32 4) with 8. cbn [Z.eqb].
  assert (length (as_floats s_val) = (2 * k)%nat) as Hn by (unfold as_floats; rewrite length_fmap, length_seq, Hlen; divlia).
  assert (Z.quot (Z.of_nat (length s_val)) 8 = Z.of_nat k ∧ Z.rem (Z.of_nat (length s_val)) 8 = 0) as [Hq Hr] by (rewrite Hlen; divlia).
  rewrite Hr, Hq. cbn [Z.eqb]. rewrite Nat2Z.id. match goal with |- undefined (?m ≫= _) => assert ((∃ pr, m = Ok pr) ∨ undefined m) as [[pr ->]|Hu] end.
  - set (body := fun i pr => _). generalize (default (replicate (length (as_floats s_val)) f32_zero) (default ∅ (residual !! mt_first_key (meta msg)) !! mt_seq (meta msg))).
    unfold for_range. generalize (length (as_floats s_val) - 0)%nat. intros n. generalize 0%nat. induction n as [|n IH]; intros lo pr; [by left; eexists|].
    cbn [for_count]. assert ((∃ pr', body lo pr = Ok pr') ∨ undefined (body lo pr)) as [[pr' ->]|[w ->]]; [|rstep; apply IH|rstep; right; by exists w].
    unfold body. destruct (rd_total pr lo) as [[r ->]|[w ->]]; [|by right; exists w]. rstep.
    destruct (rd_total (as_floats s_val) lo) as [[x ->]|[w ->]]; [|by right; exists w]. rstep.
    match goal with |- context [wr pr lo ?y] => destruct (wr_total pr lo y) as [->|[w ->]] end; [by left; eexists|by right; exists w].
  - rstep. apply undefined_bind. left. unfold for_range. rewrite Hn. replace (2 * k - 0)%nat with (S (2 * k - 1)) by lia.
    apply (for_count_undefined (coding k)).
    + split; cbn; [by rewrite length_replicate|done].
    + intros i a _. apply encode_step_coding.
    + intros a. cbn [Nat.add]. by apply encode_step_overrun.
  - by apply undefined_bind; left.
Qed.

Definition w_block : Message := {| meta := Meta_init; data := [[]; of_floats (f32_of_Z <$> [1; 2])]; contribution := f32_zero |}.

Lemma encode_overruns_witness : undefined (encode ∅ w_block 4).
Proof. apply (encode_overruns ∅ w_block (of_floats (f32_of_Z <$> [1; 2])) 1); [reflexivity|reflexivity|lia|reflexivity]. Defined.
