(* ===== verification/Van.v ===== *)
(** * The van: membership and barriers

    Every process has a van that connects it to the others.  Nodes register with the
    scheduler of their tier; when all have arrived the scheduler assigns ids and tells
    everybody.  The scheduler also counts barrier requests and answers when a group is
    complete.  Sources: src/3rdparty/ps-lite/src/van.cc, lines 35-288 and 372-419, and
    [Postoffice::Barrier] and [Postoffice::Manage] of src/3rdparty/ps-lite/src/postoffice.cc.

    What a van sends or connects to is collected in [wire].  [nodes_], [recovery_nodes_] and
    [nodes_global_] are the variables of the receiving threads that are passed to the
    handlers by reference.  [std::sort] is called with a comparison that is not an order:
    it is a parameter, of which only that it permutes its argument is assumed. *)

From Stdlib Require Import Ascii String.
From S2P Require Import Prelude Floats Text Postoffice Customer Message.
Local Open Scope Z_scope.

Inductive event :=
  | Connected (node : Node) (is_global : bool)
  | ConnectedUDP (node : Node)
  | Sent (recver timestamp app_id customer_id : Z) (request : bool) (control : Control) (is_global : bool).

#[export] Instance event_eq_dec : EqDecision event.
Proof. solve_decision. Defined.

Record Van := {
  is_scheduler_ : bool; is_global_scheduler_ : bool;
  my_node_ : Node; my_node_global_ : Node;
  connected_nodes_ : gmap string Z;
  shared_node_mapping_ : gmap Z Z;
  num_servers_ : Z; num_workers_ : Z; num_global_servers_ : Z; num_global_workers_ : Z;
  timestamp_ : Z;
  barrier_count_ : list Z;
  ready_ : bool; ready_global_ : bool;
  heartbeats_ : gmap Z Z;
  dmlc_rank : option string; dmlc_global_rank : option string;
  nodes_ : list Node; recovery_nodes_ : list Node; nodes_global_ : list Node;
  wire : list event
}.
Definition Van_eta (v : Van) : Van := {|
  is_scheduler_ := is_scheduler_ v; is_global_scheduler_ := is_global_scheduler_ v;
  my_node_ := my_node_ v; my_node_global_ := my_node_global_ v;
  connected_nodes_ := connected_nodes_ v; shared_node_mapping_ := shared_node_mapping_ v;
  num_servers_ := num_servers_ v; num_workers_ := num_workers_ v;
  num_global_servers_ := num_global_servers_ v; num_global_workers_ := num_global_workers_ v;
  timestamp_ := timestamp_ v; barrier_count_ := barrier_count_ v; ready_ := ready_ v; ready_global_ := ready_global_ v;
  heartbeats_ := heartbeats_ v; dmlc_rank := dmlc_rank v; dmlc_global_rank := dmlc_global_rank v;
  nodes_ := nodes_ v; recovery_nodes_ := recovery_nodes_ v; nodes_global_ := nodes_global_ v; wire := wire v |}.
Definition set_my_node (x : Node) (v : Van) : Van := ltac:(set_field (Van_eta v) (my_node_ v) x).
Definition set_my_node_global (x : Node) (v : Van) : Van := ltac:(set_field (Van_eta v) (my_node_global_ v) x).
Definition set_connected (x : gmap string Z) (v : Van) : Van := ltac:(set_field (Van_eta v) (connected_nodes_ v) x).
Definition set_shared (x : gmap Z Z) (v : Van) : Van := ltac:(set_field (Van_eta v) (shared_node_mapping_ v) x).
Definition set_num_servers (x : Z) (v : Van) : Van := ltac:(set_field (Van_eta v) (num_servers_ v) x).
Definition set_num_workers (x : Z) (v : Van) : Van := ltac:(set_field (Van_eta v) (num_workers_ v) x).
Definition set_num_global_servers (x : Z) (v : Van) : Van := ltac:(set_field (Van_eta v) (num_global_servers_ v) x).
Definition set_num_global_workers (x : Z) (v : Van) : Van := ltac:(set_field (Van_eta v) (num_global_workers_ v) x).
Definition set_timestamp (x : Z) (v : Van) : Van := ltac:(set_field (Van_eta v) (timestamp_ v) x).
Definition set_barrier_count (x : list Z) (v : Van) : Van := ltac:(set_field (Van_eta v) (barrier_count_ v) x).
Definition set_ready (x : bool) (v : Van) : Van := ltac:(set_field (Van_eta v) (ready_ v) x).
Definition set_ready_global (x : bool) (v : Van) : Van := ltac:(set_field (Van_eta v) (ready_global_ v) x).
Definition set_heartbeats (x : gmap Z Z) (v : Van) : Van := ltac:(set_field (Van_eta v) (heartbeats_ v) x).
Definition set_dmlc_rank (x : option string) (v : Van) : Van := ltac:(set_field (Van_eta v) (dmlc_rank v) x).
Definition set_dmlc_global_rank (x : option string) (v : Van) : Van := ltac:(set_field (Van_eta v) (dmlc_global_rank v) x).
Definition set_nodes (x : list Node) (v : Van) : Van := ltac:(set_field (Van_eta v) (nodes_ v) x).
Definition set_recovery_nodes (x : list Node) (v : Van) : Van := ltac:(set_field (Van_eta v) (recovery_nodes_ v) x).
Definition set_nodes_global (x : list Node) (v : Van) : Van := ltac:(set_field (Van_eta v) (nodes_global_ v) x).
Definition set_wire (x : list event) (v : Van) : Van := ltac:(set_field (Van_eta v) (wire v) x).

Abbreviation van := (st Van).

Definition emit (e : event) : van unit := modify (fun v => set_wire (wire v ++ [e]) v).
(** [timestamp_++] *)
Definition next_timestamp : van Z := t ← gets timestamp_; modify (set_timestamp (t + 1));; mret t.

Definition address (n : Node) : string := String.append (n_hostname n) (String.append ":" (to_string_int (n_port n))).
Definition has_role (n : Node) (r : Role) : bool := n_role n =? Role_to_int r.
Definition with_id (n : Node) (id : Z) : Node :=
  {| n_role := n_role n; n_id := id; n_customer_id := n_customer_id n; n_hostname := n_hostname n; n_port := n_port n;
     n_udp_port := n_udp_port n; n_is_recovery := n_is_recovery n |}.
Definition recovered (n : Node) (id : Z) : Node :=
  {| n_role := n_role n; n_id := id; n_customer_id := n_customer_id n; n_hostname := n_hostname n; n_port := n_port n;
     n_udp_port := n_udp_port n; n_is_recovery := true |}.

Definition add_node_control (cmd : Command) (nodes : list Node) : Control :=
  {| ct_cmd := Command_to_int cmd; ct_node := nodes; ct_barrier_group := 0; ct_msg_sig := 0 |}.

Section Membership.
Context (cfg : Config).                                  (* the postoffice *)
Context (sort : list Node → list Node).
Context (time : Z) (start_time heartbeat_timeout : Z).

(** ** Assigning ids *)

(** The body of the loop over the sorted nodes, at the local and at the global scheduler. *)
Definition assign_local (node : Node) : van Node :=
  let addr := address node in
  c ← gets connected_nodes_;
  ns ← gets num_servers_;
  nw ← gets num_workers_;
  let id := if has_role node SERVER then ServerRankToID ns false else WorkerRankToID nw false in
  node ← match c !! addr with
  | None =>
      ensure (n_id node =? kEmpty) "Check failed: node.id == Node::kEmpty";;
      let node := with_id node id in
      emit (Connected node false);;
      modify (fun v => set_heartbeats (UpdateHeartbeat (heartbeats_ v) id time) v);;
      modify (fun v => set_connected (<[addr := id]> (connected_nodes_ v)) v);;
      mret node
  | Some old =>
      modify (fun v => set_shared (<[id := old]> (shared_node_mapping_ v)) v);;
      mret (with_id node old)
  end;
  when (has_role node SERVER) (modify (set_num_servers (ns + 1)));;
  when (has_role node WORKER) (modify (set_num_workers (nw + 1)));;
  mret node.

Definition assign_global (node : Node) : van Node :=
  let addr := address node in
  c ← gets connected_nodes_;
  ns ← gets num_global_servers_;
  nw ← gets num_global_workers_;
  let id := if has_role node GLOBAL_SERVER then ServerRankToID ns true else WorkerRankToID nw true in
  node ← match c !! addr with
  | None =>
      ensure (n_id node =? kEmpty) "Check failed: node.id == Node::kEmpty";;
      let node := with_id node id in
      emit (Connected node true);;
      modify (fun v => set_connected (<[addr := id]> (connected_nodes_ v)) v);;
      mret node
  | Some old =>
      modify (fun v => set_shared (<[id := old]> (shared_node_mapping_ v)) v);;
      mret (with_id node old)
  end;
  when (has_role node GLOBAL_SERVER) (modify (set_num_global_servers (ns + 1)));;
  when (has_role node SERVER) (modify (set_num_global_workers (nw + 1)));;
  mret node.

Fixpoint assign_all (assign : Node → van Node) (l : list Node) : van (list Node) :=
  match l with
  | [] => mret []
  | n :: l => n ← assign n; l ← assign_all assign l; mret (n :: l)
  end.

(** The answer to a group, without the ids that share a process with another one. *)
Definition broadcast (ids : list Z) (app_id customer_id : Z) (control : Control) (is_global : bool) : van unit :=
  for_each (fun r =>
    shared ← gets shared_node_mapping_;
    when (bool_decide (shared !! r = None))
      (t ← next_timestamp; emit (Sent r t app_id customer_id false control is_global))) ids.

Definition ProcessAddNodeCommandAtScheduler : van unit :=
  nodes ← gets nodes_;
  recovery ← gets recovery_nodes_;
  if Z.of_nat (length nodes) =? num_servers cfg + num_workers cfg then
    nodes ← assign_all assign_local (sort nodes);
    me ← gets my_node_;
    let nodes := nodes ++ [me] in
    modify (set_nodes nodes);;
    ids ← lift (GetNodeIDs (Start_node_ids cfg) (kWorkerGroup + kServerGroup));
    broadcast ids kEmpty kEmpty (add_node_control ADD_NODE nodes) false;;
    modify (set_ready true)
  else
    match recovery with
    | [] => mret tt
    | node :: rest =>
        ready ← gets ready_;
        hb ← gets heartbeats_;
        dead ← lift (GetDeadNodes ready true (Start_node_ids cfg) hb start_time time heartbeat_timeout);
        ensure (bool_decide (rest = [])) "Check failed: recovery_nodes->control.node.size() == 1";;
        emit (Connected node false);;
        modify (fun v => set_heartbeats (UpdateHeartbeat (heartbeats_ v) (n_id node) time) v);;
        ids ← lift (GetNodeIDs (Start_node_ids cfg) (kWorkerGroup + kServerGroup));
        for_each (fun r =>
          if negb (r =? n_id node) && bool_decide (r ∈ dead) then mret tt
          else t ← next_timestamp;
               emit (Sent r t kEmpty kEmpty false (add_node_control ADD_NODE (if r =? n_id node then nodes else recovery)) false)) ids
    end.

Definition ProcessAddGlobalNodeCommandAtScheduler : van unit :=
  nodes ← gets nodes_global_;
  when (Z.of_nat (length nodes) =? num_global_servers cfg + num_global_workers cfg)
    (nodes ← assign_all assign_global (sort nodes);
     me ← gets my_node_global_;
     let nodes := nodes ++ [me] in
     modify (set_nodes_global nodes);;
     ids ← lift (GetNodeIDs (StartGlobal_node_ids cfg) (kWorkerGroupGlobal + kServerGroupGlobal));
     broadcast ids kEmpty kEmpty (add_node_control ADD_GLOBAL_NODE nodes) true;;
     modify (set_ready true);;
     modify (set_ready_global true)).

(** ** Registration *)

(** The first registered node that is dead and has the role of [n]. *)
Fixpoint find_dead (dead : list Z) (n : Node) (l : list Node) (i : nat) : option (nat * Node) :=
  match l with
  | [] => None
  | m :: l => if bool_decide (n_id m ∈ dead) && (n_role m =? n_role n) then Some (i, m) else find_dead dead n l (S i)
  end.

(** [UpdateLocalID]: returns the nodes of the message, of which the first may have been
    given the id of a dead node. *)
Definition UpdateLocalID (sender : Z) (ctrl : list Node) (dead : list Z) : van (list Node) :=
  ctrl ← (if sender =? kEmpty then
    sched ← gets is_scheduler_;
    ensure sched "Check failed: is_scheduler_";;
    match ctrl with
    | [n] =>
        nodes ← gets nodes_;
        if Z.of_nat (length nodes) <? num_servers cfg + num_workers cfg then modify (set_nodes (nodes ++ [n]));; mret ctrl
        else
          ready ← gets ready_;
          ensure ready "Check failed: ready_.load()";;
          match find_dead dead n (take (length nodes - 1) nodes) 0 with
          | Some (i, old) =>
              let n := recovered n (n_id old) in
              modify (set_nodes (<[i := n]> nodes));;
              modify (fun v => set_recovery_nodes (recovery_nodes_ v ++ [n]) v);;
              mret [n]
          | None => mret ctrl
          end
    | _ => fail (CheckFailed "Check failed: ctrl.node.size() == 1")
    end
  else mret ctrl);
  for_each (fun node =>
    me ← gets my_node_;
    rank ← gets dmlc_rank;
    when (bool_decide (n_hostname me = n_hostname node) && (n_port me =? n_port node)
          && (bool_decide (rank = None) || (n_id me =? kEmpty)))
      (modify (set_my_node node);;
       modify (set_dmlc_rank (Some (to_string_int (IDtoRank (n_id node))))))) ctrl;;
  mret ctrl.

Definition UpdateServerID (sender : Z) (ctrl : list Node) : van unit :=
  (if sender =? kEmpty then
    sched ← gets is_global_scheduler_;
    ensure sched "Check failed: is_global_scheduler_";;
    match ctrl with
    | [n] =>
        nodes ← gets nodes_global_;
        when (Z.of_nat (length nodes) <? num_global_servers cfg + num_global_workers cfg)
          (modify (set_nodes_global (nodes ++ [n])))
    | _ => fail (CheckFailed "Check failed: ctrl.node.size() == 1")
    end
  else mret tt);;
  for_each (fun node =>
    me ← gets my_node_global_;
    when (bool_decide (n_hostname me = n_hostname node) && (n_port me =? n_port node))
      (modify (set_my_node_global node);;
       modify (set_dmlc_global_rank (Some (to_string_int (IDtoRank (n_id node))))))) ctrl.

Definition ProcessAddNodeCommand (sender : Z) (ctrl : list Node) : van unit :=
  ready ← gets ready_;
  hb ← gets heartbeats_;
  sched ← gets is_scheduler_;
  dead ← lift (GetDeadNodes ready sched (Start_node_ids cfg) hb start_time time heartbeat_timeout);
  ctrl ← UpdateLocalID sender ctrl dead;
  if sched : bool then ProcessAddNodeCommandAtScheduler
  else
    for_each (fun node =>
      c ← gets connected_nodes_;
      when (bool_decide (c !! address node = None))
        (emit (Connected node false);; modify (set_connected (<[address node := n_id node]> c)));;
      when (negb (n_is_recovery node) && has_role node SERVER) (modify (fun v => set_num_servers (num_servers_ v + 1) v));;
      when (negb (n_is_recovery node) && has_role node WORKER) (modify (fun v => set_num_workers (num_workers_ v + 1) v))) ctrl;;
    modify (set_ready true).

Definition ProcessAddGlobalNodeCommand (sender : Z) (ctrl : list Node) : van unit :=
  UpdateServerID sender ctrl;;
  sched ← gets is_global_scheduler_;
  if sched : bool then ProcessAddGlobalNodeCommandAtScheduler
  else
    for_each (fun node =>
      c ← gets connected_nodes_;
      when (bool_decide (c !! address node = None))
        (emit (Connected node true);;
         when (negb (has_role node GLOBAL_SCHEDULER)) (emit (ConnectedUDP node));;
         modify (set_connected (<[address node := n_id node]> c)));;
      when (has_role node GLOBAL_SERVER) (modify (fun v => set_num_global_servers (num_global_servers_ v + 1) v));;
      when (has_role node SERVER) (modify (fun v => set_num_global_workers (num_global_workers_ v + 1) v))) ctrl;;
    modify (set_ready_global true).

Definition ProcessHeartbeat (ctrl : list Node) : van unit :=
  for_each (fun node =>
    modify (fun v => set_heartbeats (UpdateHeartbeat (heartbeats_ v) (n_id node) time) v);;
    sched ← gets is_scheduler_;
    me ← gets my_node_;
    when sched (t ← next_timestamp; emit (Sent (n_id node) t kEmpty kEmpty false (add_node_control HEARTBEAT [me]) false))) ctrl.

(** ** Barriers *)

(** A barrier request at the scheduler. *)
Definition ProcessBarrierRequest (app_id customer_id group : Z) (is_global : bool) : van unit :=
  modify (fun v => if bool_decide (barrier_count_ v = []) then set_barrier_count (replicate 8 0) v else v);;
  counts ← gets barrier_count_;
  c ← lift (rdz counts group);
  ids ← lift (GetNodeIDs (if is_global : bool then StartGlobal_node_ids cfg else Start_node_ids cfg) group);
  if c + 1 =? Z.of_nat (length ids) then
    modify (set_barrier_count (<[Z.to_nat group := 0]> counts));;
    broadcast ids app_id customer_id
      {| ct_cmd := Command_to_int (if is_global : bool then BARRIER_GLOBAL else BARRIER); ct_node := []; ct_barrier_group := 0; ct_msg_sig := 0 |} is_global
  else modify (set_barrier_count (<[Z.to_nat group := c + 1]> counts)).
End Membership.

(** ** Registration assigns every id once *)

(** The nodes with consecutive ids: the next server rank is [a], the next worker rank [b]. *)
Fixpoint numbered (a b : Z) (l : list Node) : list Node :=
  match l with
  | [] => []
  | n :: l =>
      if has_role n SERVER then with_id n (ServerRankToID a false) :: numbered (a + 1) b l
      else with_id n (WorkerRankToID b false) :: numbered a (b + 1) l
  end.

Definition servers_in (l : list Node) : nat := length (List.filter (fun n => has_role n SERVER) l).
Definition workers_in (l : list Node) : nat := length (List.filter (fun n => has_role n WORKER) l).

Definition registrable (n : Node) : Prop := n_id n = kEmpty ∧ (n_role n = Role_to_int SERVER ∨ n_role n = Role_to_int WORKER).

Definition add_tier (f : Z → Z) (a : Z) (k : nat) : list Z := (fun i => f (a + Z.of_nat i)) <$> seq 0 k.

Lemma add_tier_S f a k : add_tier f a (S k) = f a :: add_tier f (a + 1) k.
Proof.
  unfold add_tier. cbn [seq fmap list_fmap]. f_equal; [f_equal; lia|]. rewrite <- fmap_S_seq, <- list_fmap_compose.
  apply list_fmap_ext. intros i x _. cbn. f_equal. lia.
Qed.

Lemma numbered_ids l : ∀ a b, Forall registrable l →
  n_id <$> numbered a b l ≡ₚ add_tier (fun i => WorkerRankToID i false) b (workers_in l) ++ add_tier (fun i => ServerRankToID i false) a (servers_in l).
Proof.
  induction l as [|n l IH]; intros a b Hl; [done|]. apply Forall_cons in Hl as [[_ Hr] Hl]. cbn [numbered].
  unfold workers_in, servers_in, has_role in *. cbn [List.filter].
  destruct Hr as [-> | ->]; cbn [Role_to_int Z.eqb Pos.eqb length]; rewrite add_tier_S, fmap_cons, IH by done; cbn [n_id with_id]; [by rewrite Permutation_middle|done].
Qed.

Lemma assign_local_run time v n :
  registrable n → connected_nodes_ v !! address n = None →
  let srv := has_role n SERVER in
  let id := if srv then ServerRankToID (num_servers_ v) false else WorkerRankToID (num_workers_ v) false in
  ∃ v', assign_local time n v = Ok (with_id n id, v') ∧
    connected_nodes_ v' = <[address n := id]> (connected_nodes_ v) ∧
    num_servers_ v' = (if srv then num_servers_ v + 1 else num_servers_ v) ∧
    num_workers_ v' = (if srv then num_workers_ v else num_workers_ v + 1) ∧
    shared_node_mapping_ v' = shared_node_mapping_ v ∧ timestamp_ v' = timestamp_ v ∧ my_node_ v' = my_node_ v ∧
    wire v' = wire v ++ [Connected (with_id n id) false].
Proof.
  intros [Hid Hrole] Hc srv id. unfold assign_local. rewrite !gets_bind, Hc.
  assert (has_role n WORKER = negb srv) as Hw by (unfold srv, has_role; by destruct Hrole as [-> | ->]).
  fold srv. fold id. rewrite (st_bind_Ok _ _ _ (with_id n id)
    (set_connected (<[address n := id]> (connected_nodes_ v)) (set_heartbeats (UpdateHeartbeat (heartbeats_ v) id time)
       (set_wire (wire v ++ [Connected (with_id n id) false]) v)))).
  2: { by rewrite Hid, ensure_bind. }
  change (has_role (with_id n id) SERVER) with srv. change (has_role (with_id n id) WORKER) with (has_role n WORKER). rewrite Hw.
  destruct srv; (eexists; split; [reflexivity|]); by cbn.
Qed.

Lemma assign_all_run time l : ∀ v,
  Forall registrable l → NoDup (address <$> l) → (∀ n, n ∈ l → connected_nodes_ v !! address n = None) →
  let l' := numbered (num_servers_ v) (num_workers_ v) l in
  ∃ v', assign_all (assign_local time) l v = Ok (l', v') ∧
    shared_node_mapping_ v' = shared_node_mapping_ v ∧ timestamp_ v' = timestamp_ v ∧ my_node_ v' = my_node_ v ∧
    wire v' = wire v ++ ((fun n => Connected n false) <$> l').
Proof.
  induction l as [|n l IH]; intros v Hl Hnd Hfresh l'.
  - exists v. by rewrite app_nil_r.
  - apply Forall_cons in Hl as [Hn Hl]. rewrite fmap_cons in Hnd. apply NoDup_cons in Hnd as [Hnot Hnd].
    destruct (assign_local_run time v n Hn (Hfresh n ltac:(by left))) as (v1 & E1 & Hc & Hs & Hw & Hsh & Ht & Hme & Hwire).
    destruct (IH v1 Hl Hnd) as (v2 & E2 & Hsh2 & Ht2 & Hme2 & Hwire2).
    { intros m Hm. rewrite Hc, lookup_insert_ne; [apply Hfresh; by right|]. intros Ha. apply Hnot. rewrite Ha. by apply list_elem_of_fmap_2. }
    exists v2. rewrite Hsh2, Ht2, Hme2, Hwire2, Hwire, <- (assoc_L (++)), Hs, Hw in *. cbn [assign_all]. rewrite (st_bind_Ok _ _ _ _ _ E1), (st_bind_Ok _ _ _ _ _ E2).
    unfold l'. cbn [numbered]. destruct (has_role n SERVER); done.
Qed.

Lemma broadcast_run ids app customer ctrl g : ∀ v,
  shared_node_mapping_ v = ∅ →
  ∃ v', broadcast ids app customer ctrl g v = Ok (tt, v') ∧ nodes_ v' = nodes_ v ∧
    shared_node_mapping_ v' = ∅ ∧ barrier_count_ v' = barrier_count_ v ∧
    wire v' = wire v ++ imap (fun i r => Sent r (timestamp_ v + Z.of_nat i) app customer false ctrl g) ids.
Proof.
  induction ids as [|r ids IH]; intros v Hv; [exists v; by rewrite app_nil_r|]. unfold broadcast. cbn [for_each].
  set (v1 := set_wire (wire v ++ [Sent r (timestamp_ v) app customer false ctrl g]) (set_timestamp (timestamp_ v + 1) v)).
  destruct (IH v1) as (v' & E & Hn & Hs & Hb & Hw); [done|]. exists v'.
  rewrite (st_bind_Ok _ _ _ tt v1) by (rewrite gets_bind, Hv, lookup_empty; done). split; [exact E|]. split; [by rewrite Hn|]. split; [done|]. split; [by rewrite Hb|].
  rewrite Hw. cbn [v1 wire timestamp_ set_wire set_timestamp imap]. rewrite <- (assoc_L (++)), Z.add_0_r. cbn [List.app]. do 2 f_equal.
  apply imap_ext. intros i x _. cbn. f_equal. lia.
Qed.

Lemma length_filter_perm {A} (f : A → bool) l l' : l ≡ₚ l' → length (List.filter f l) = length (List.filter f l').
Proof. induction 1; cbn; repeat destruct (f _); cbn; congruence. Qed.

(** The scheduler assigns every id of its tier exactly once.  When all servers and
    workers of a data center have registered from different addresses, it connects to
    each, gives them the ids of the worker and server groups, one each and roles
    respected, and tells every id of the two groups once, with increasing timestamps, the
    complete list, its own entry last. *)
Theorem scheduler_assigns_ids cfg sort time start_time timeout v :
  (∀ l, sort l ≡ₚ l) →
  Forall registrable (nodes_ v) → NoDup (address <$> nodes_ v) → (∀ n, n ∈ nodes_ v → connected_nodes_ v !! address n = None) →
  num_servers_ v = 0 → num_workers_ v = 0 → shared_node_mapping_ v = ∅ →
  Z.of_nat (servers_in (nodes_ v)) = num_servers cfg → Z.of_nat (workers_in (nodes_ v)) = num_workers cfg → nodes_ v ≠ [] →
  ∃ v' l, ProcessAddNodeCommandAtScheduler cfg sort time start_time timeout v = Ok (tt, v') ∧
    l = numbered 0 0 (sort (nodes_ v)) ∧ nodes_ v' = l ++ [my_node_ v] ∧ ready_ v' = true ∧
    n_id <$> l ≡ₚ members (num_workers cfg) (num_servers cfg) false (kWorkerGroup + kServerGroup) ∧
    wire v' = wire v ++ ((fun n => Connected n false) <$> l) ++
      imap (fun i r => Sent r (timestamp_ v + Z.of_nat i) kEmpty kEmpty false (add_node_control ADD_NODE (nodes_ v')) false)
        (members (num_workers cfg) (num_servers cfg) false (kWorkerGroup + kServerGroup)).
Proof.
  intros Hsort Hreg Hnd Hfresh Hns Hnw Hsh Hs Hw Hne. set (ids := members _ _ _ _).
  assert (length (nodes_ v) = servers_in (nodes_ v) + workers_in (nodes_ v))%nat as Hlen.
  { clear -Hreg. unfold servers_in, workers_in, has_role. induction Hreg as [|n l [_ Hr] _ IH]; [done|]. cbn [List.filter].
    destruct Hr as [-> | ->]; cbn in *; lia. }
  destruct (assign_all_run time (sort (nodes_ v)) v) as (v1 & E1 & Hsh1 & Ht1 & Hme1 & Hwire1).
  { by rewrite Hsort. } { by rewrite Hsort. } { intros n. rewrite Hsort. apply Hfresh. }
  rewrite Hns, Hnw in *. set (l := numbered 0 0 (sort (nodes_ v))) in *.
  assert (n_id <$> l ≡ₚ ids) as Hids.
  { unfold l. rewrite numbered_ids by (by rewrite Hsort). unfold workers_in, servers_in. rewrite !(length_filter_perm _ _ _ (Hsort (nodes_ v))).
    unfold ids, members. change (Z.testbit _ 2) with true. change (Z.testbit _ 1) with true. change (Z.testbit _ 0) with false. cbv iota.
    rewrite app_nil_r, <- Hs, <- Hw. unfold add_tier, ranks. rewrite <- !list_fmap_compose, !Nat2Z.id. done. }
  set (v2 := set_nodes (l ++ [my_node_ v1]) v1).
  destruct (broadcast_run ids kEmpty kEmpty (add_node_control ADD_NODE (l ++ [my_node_ v1])) false v2) as (v3 & E3 & Hn3 & _ & _ & Hw3).
  { cbn. by rewrite Hsh1. }
  exists (set_ready true v3), l. split_and!; [|done|cbn; rewrite Hn3; cbn; by rewrite Hme1|done|done|].
  - unfold ProcessAddNodeCommandAtScheduler. rewrite !gets_bind, (proj2 (Z.eqb_eq (Z.of_nat (length (nodes_ v))) (num_servers cfg + num_workers cfg))) by lia.
    rewrite (st_bind_Ok _ _ _ _ _ E1), gets_bind, modify_bind. fold v2.
    rewrite (lift_bind _ _ ids). { by rewrite (st_bind_Ok _ _ _ _ _ E3). }
    unfold GetNodeIDs, Start_node_ids. rewrite init_node_ids_lookup by (unfold kWorkerGroup, kServerGroup; lia). fold ids.
    destruct ids as [|x ids'] eqn:Ei; [|done]. exfalso. apply Permutation_length in Hids. unfold l in Hids.
    pose proof (numbered_ids (sort (nodes_ v)) 0 0 ltac:(by rewrite Hsort)) as Hp. apply Permutation_length in Hp. rewrite Hids in Hp.
    rewrite length_app in Hp. unfold add_tier in Hp. rewrite !length_fmap, !length_seq in Hp.
    unfold workers_in, servers_in in Hp, Hlen. rewrite !(length_filter_perm _ _ _ (Hsort (nodes_ v))) in Hp. destruct (nodes_ v); cbn in *; [done|lia].
  - cbn [wire set_ready nodes_]. rewrite Hw3, Hn3. cbn [v2 wire set_nodes nodes_ timestamp_]. by rewrite Hwire1, Ht1, <- (assoc_L (++)).
Qed.

(** Two workers and a server register. *)
Definition w_config : Config := {| is_worker := false; is_server := false; is_scheduler := true; is_master_worker := false;
  is_global_server := false; is_global_scheduler := false; enable_central_workers := false;
  num_workers := 2; num_servers := 1; num_global_workers := 0; num_global_servers := 0; num_all_workers := 0 |}.
Definition w_node (role : Role) (port : Z) : Node :=
  {| n_role := Role_to_int role; n_id := kEmpty; n_customer_id := 0; n_hostname := "10.0.0.1"; n_port := port; n_udp_port := []; n_is_recovery := false |}.
Definition w_van : Van := {|
  is_scheduler_ := true; is_global_scheduler_ := false;
  my_node_ := with_id (w_node SCHEDULER 9000) kScheduler; my_node_global_ := with_id (w_node SCHEDULER 9000) kEmpty;
  connected_nodes_ := ∅; shared_node_mapping_ := ∅;
  num_servers_ := 0; num_workers_ := 0; num_global_servers_ := 0; num_global_workers_ := 0;
  timestamp_ := 0; barrier_count_ := []; ready_ := false; ready_global_ := false; heartbeats_ := ∅;
  dmlc_rank := None; dmlc_global_rank := None;
  nodes_ := [w_node WORKER 9001; w_node SERVER 9002; w_node WORKER 9003]; recovery_nodes_ := []; nodes_global_ := []; wire := [] |}.

Lemma scheduler_assigns_ids_witness :
  ∃ v', ProcessAddNodeCommandAtScheduler w_config (fun l => l) 0 0 0 w_van = Ok (tt, v') ∧
    n_id <$> nodes_ v' = [101; 100; 103; 1] ∧ length (wire v') = 6%nat.
Proof.
  destruct (scheduler_assigns_ids w_config (fun l => l) 0 0 0 w_van) as (v' & l & Hrun & -> & Hn & _ & _ & Hw);
    [done|by repeat (constructor; [split; [done|]; first [by left|by right]|])|by_decision|done|done|done|done|done|done|done|].
  exists v'. split; [exact Hrun|]. split; [rewrite Hn; vm_compute; reflexivity|]. rewrite Hw. vm_compute. reflexivity.
Defined.
