(* ===== verification/Barrier.v ===== *)
(** * Barriers: nodes, scheduler and network together

    A node that reaches a barrier sends a request to the scheduler, then clears its flag
    and waits for it to be set; the scheduler answers every node of the group when it has
    counted one request of each.  The steps below interleave the nodes' threads, the
    receiving threads and a network that delivers in any order.
    Sources: [Postoffice::Barrier] and [Postoffice::Manage] of
    src/3rdparty/ps-lite/src/postoffice.cc, [Van::ProcessBarrierCommand] of
    src/3rdparty/ps-lite/src/van.cc.

    A group of at most one node has no barrier: [Barrier] returns at once.
    One customer (id 0) of every node of one group uses the barrier, any number of times.
    [entered], [exited], [processed], [seen] and [rounds] count events; the code does not
    have them and no step depends on them. *)

From Stdlib Require Import Ascii String.
From stdpp Require Import relations.
From S2P Require Import Prelude Floats Text Postoffice Customer Message Van.
Local Open Scope Z_scope.

(** Where the thread of a node is: outside, after [Send], in [cond_.wait]. *)
Inductive phase := Running | Requested | Waiting.
#[export] Instance phase_eq_dec : EqDecision phase.
Proof. solve_decision. Defined.

Record World := {
  scheduler : Van;
  requests : list Z;                  (* senders of requests on their way *)
  replies : list Z;                   (* receivers of answers on their way *)
  phase_of : Z → phase;
  barrier_done_of : Z → gmap Z bool;    (* [barrier_done_[0]] of each node *)
  entered : Z → nat; exited : Z → nat; processed : Z → nat; seen : Z → nat; rounds : nat
}.

Definition upd {A} (f : Z → A) (i : Z) (x : A) : Z → A := fun j => if decide (j = i) then x else f j.

Lemma upd_eq {A} (f : Z → A) i x : upd f i x i = x.
Proof. unfold upd. by rewrite decide_True. Qed.
Lemma upd_ne {A} (f : Z → A) i j x : j ≠ i → upd f i x j = f j.
Proof. intros. unfold upd. by rewrite decide_False. Qed.

(** [Barrier] up to and including [van_->Send]. *)
Definition send_request (i : Z) (w : World) : World :=
  {| scheduler := scheduler w; requests := requests w ++ [i]; replies := replies w;
     phase_of := upd (phase_of w) i Requested; barrier_done_of := barrier_done_of w;
     entered := upd (entered w) i (S (entered w i)); exited := exited w; processed := processed w; seen := seen w; rounds := rounds w |}.

(** [barrier_done_[0][customer_id] = false], with the lock, and into the wait. *)
Definition clear_and_wait (i : Z) (w : World) : World :=
  {| scheduler := scheduler w; requests := requests w; replies := replies w;
     phase_of := upd (phase_of w) i Waiting; barrier_done_of := upd (barrier_done_of w) i (<[0 := false]> (barrier_done_of w i));
     entered := entered w; exited := exited w; processed := processed w; seen := seen w; rounds := rounds w |}.

(** The wait's condition holds: [Barrier] returns. *)
Definition return_from_wait (i : Z) (w : World) : World :=
  {| scheduler := scheduler w; requests := requests w; replies := replies w;
     phase_of := upd (phase_of w) i Running; barrier_done_of := barrier_done_of w;
     entered := entered w; exited := upd (exited w) i (S (exited w i)); processed := processed w; seen := seen w; rounds := rounds w |}.

(** The scheduler's van handles a request and may send answers. *)
Definition receivers (l : list event) : list Z := omap (fun e => match e with Sent r _ _ _ _ _ _ => Some r | _ => None end) l.

Definition after_request (i : Z) (rest : list Z) (v : Van) (w : World) : World :=
  let sent := receivers (drop (length (wire (scheduler w))) (wire v)) in
  {| scheduler := v; requests := rest; replies := replies w ++ sent; phase_of := phase_of w; barrier_done_of := barrier_done_of w;
     entered := entered w; exited := exited w; processed := upd (processed w) i (S (processed w i)); seen := seen w;
     rounds := if bool_decide (sent = []) then rounds w else S (rounds w) |}.

(** [Manage] on an answer: all flags are set. *)
Definition after_reply (i : Z) (rest : list Z) (flags : gmap Z bool) (w : World) : World :=
  {| scheduler := scheduler w; requests := requests w; replies := rest; phase_of := phase_of w;
     barrier_done_of := upd (barrier_done_of w) i flags;
     entered := entered w; exited := exited w; processed := processed w; seen := upd (seen w) i (S (seen w i)); rounds := rounds w |}.

Section Protocol.
Context (cfg : Config) (is_global : bool) (group : Z).
Local Abbreviation table := (if is_global then StartGlobal_node_ids cfg else Start_node_ids cfg).

Inductive step : World → World → Prop :=
  | step_enter w i ids : GetNodeIDs table group = Ok ids → (1 < length ids)%nat → i ∈ ids → phase_of w i = Running → step w (send_request i w)
  | step_wait w i : phase_of w i = Requested → step w (clear_and_wait i w)
  | step_leave w i : phase_of w i = Waiting → barrier_done_of w i !! 0 = Some true → step w (return_from_wait i w)
  | step_request w i rest v : requests w ≡ₚ i :: rest →
      ProcessBarrierRequest cfg 0 0 group is_global (scheduler w) = Ok (tt, v) → step w (after_request i rest v w)
  | step_reply w i rest flags : replies w ≡ₚ i :: rest →
      set_all_done (S (size (barrier_done_of w i))) 0 (barrier_done_of w i) = Some flags → step w (after_reply i rest flags w).

(** Before the first barrier: customers are registered, nothing is on its way. *)
Definition initial (w : World) : Prop :=
  barrier_count_ (scheduler w) = [] ∧ shared_node_mapping_ (scheduler w) = ∅ ∧ requests w = [] ∧ replies w = [] ∧
  (∀ i, phase_of w i = Running ∧ barrier_done_of w i = {[0 := false]} ∧ entered w i = 0%nat ∧ exited w i = 0%nat ∧
        processed w i = 0%nat ∧ seen w i = 0%nat) ∧ rounds w = 0%nat.

Definition reachable (w : World) : Prop := ∃ w0, initial w0 ∧ rtc step w0 w.

(** ** The scheduler's counter *)
Context (ids : list Z).
Hypothesis Hids : GetNodeIDs table group = Ok ids.
Hypothesis Hgroup : 1 ≤ group ≤ 7.
Hypothesis Hnd : NoDup ids.
Hypothesis Hne : ids ≠ [].

Definition counts (v : Van) (c : nat) : Prop :=
  (barrier_count_ v = [] ∧ c = 0%nat) ∨ (length (barrier_count_ v) = 8%nat ∧ barrier_count_ v !! Z.to_nat group = Some (Z.of_nat c)).

Lemma receivers_sent l ctrl : ∀ f, receivers (imap (fun i r => Sent r (f i) 0 0 false ctrl is_global) l) = l.
Proof. induction l as [|r l IH]; intros f; [done|]. cbn. f_equal. apply (IH (fun i => f (S i))). Qed.

Lemma request_run v c :
  counts v c → shared_node_mapping_ v = ∅ →
  let full := (S c =? length ids)%nat in
  ∃ v', ProcessBarrierRequest cfg 0 0 group is_global v = Ok (tt, v') ∧ shared_node_mapping_ v' = ∅ ∧
    counts v' (if full then 0%nat else S c) ∧ receivers (drop (length (wire v)) (wire v')) = if full then ids else [].
Proof.
  intros Hc Hs full. set (cs := if bool_decide (barrier_count_ v = []) then replicate 8 0 else barrier_count_ v).
  assert (length cs = 8%nat ∧ cs !! Z.to_nat group = Some (Z.of_nat c)) as [Hlen Hlk].
  { unfold cs. destruct Hc as [[-> ->]|[Hl Hlk]].
    - split; [done|]. rewrite bool_decide_true by done. apply lookup_replicate_2. lia.
    - rewrite bool_decide_false; [done|]. intros E. by rewrite E in Hl. }
  set (v1 := if bool_decide (barrier_count_ v = []) then set_barrier_count (replicate 8 0) v else v).
  assert (barrier_count_ v1 = cs ∧ shared_node_mapping_ v1 = ∅ ∧ wire v1 = wire v) as (Hb1 & Hs1 & Hw1)
    by (unfold v1, cs; by case_bool_decide).
  unfold ProcessBarrierRequest. rewrite modify_bind. fold v1. rewrite gets_bind, Hb1.
  rewrite (lift_bind _ _ (Z.of_nat c)) by (apply rdz_ok; [lia|done]). rewrite (lift_bind _ _ ids) by done.
  replace (Z.of_nat c + 1 =? Z.of_nat (length ids)) with full by (unfold full; destruct (Nat.eqb_spec (S c) (length ids)), (Z.eqb_spec (Z.of_nat c + 1) (Z.of_nat (length ids))); done || lia).
  assert (∀ z k, Z.of_nat k = z → counts (set_barrier_count (<[Z.to_nat group := z]> cs) v1) k) as Hcounts.
  { intros z k <-. right. cbn [barrier_count_ set_barrier_count]. rewrite length_insert. split; [done|]. apply list_lookup_insert_eq. lia. }
  destruct full.
  - rewrite modify_bind. match goal with |- context [broadcast ids 0 0 ?ctrl is_global ?v2] =>
      destruct (broadcast_run ids 0 0 ctrl is_global v2) as (v3 & E & _ & Hs3 & Hb3 & Hw3); [done|] end.
    exists v3. split; [exact E|]. split; [done|]. split.
    + destruct (Hcounts 0 0%nat eq_refl) as [Hx|Hx]; [left|right]; by rewrite Hb3.
    + rewrite Hw3. cbn [wire set_barrier_count]. rewrite Hw1, drop_app_length. apply receivers_sent.
  - eexists. split; [reflexivity|]. split; [done|]. split; [apply Hcounts; lia|]. cbn [wire set_barrier_count]. by rewrite Hw1, drop_ge.
Qed.

(** ** The invariant *)
Definition occ (i : Z) (l : list Z) : nat := length (List.filter (Z.eqb i) l).
Definition pending (w : World) : nat := length (List.filter (fun i => (processed w i =? S (rounds w))%nat) ids).

#[local] Arguments occ : simpl never.
#[local] Arguments upd : simpl never.
#[local] Arguments pending : simpl never.
#[local] Arguments Nat.add : simpl never.

Record inv (w : World) : Prop := {
  inv_shared : shared_node_mapping_ (scheduler w) = ∅;
  inv_counts : counts (scheduler w) (pending w);
  inv_open : (pending w < length ids)%nat;
  inv_processed : ∀ i, i ∈ ids → processed w i = rounds w ∨ processed w i = S (rounds w);
  inv_requests : ∀ i, i ∈ ids → entered w i = (processed w i + occ i (requests w))%nat;
  inv_replies : ∀ i, i ∈ ids → rounds w = (seen w i + occ i (replies w))%nat;
  inv_members : (∀ i, i ∈ requests w → i ∈ ids) ∧ (∀ i, i ∈ replies w → i ∈ ids);
  inv_entered : ∀ i, entered w i = (exited w i + if decide (phase_of w i = Running) then 0 else 1)%nat;
  inv_seen : ∀ i, i ∈ ids → (exited w i ≤ seen w i ≤ S (exited w i))%nat ∧ (phase_of w i = Running → seen w i = exited w i) ∧
               (phase_of w i = Waiting → barrier_done_of w i !! 0 = Some true → seen w i = S (exited w i));
  inv_flags : ∀ i, ∃ b, barrier_done_of w i = {[0 := b]};
  inv_outside : ∀ i, i ∉ ids → phase_of w i = Running
}.

Lemma occ_app i l1 l2 : occ i (l1 ++ l2) = (occ i l1 + occ i l2)%nat.
Proof. unfold occ. by rewrite List.filter_app, length_app. Qed.
Lemma occ_cons i j l : occ i (j :: l) = ((if decide (i = j) then 1 else 0) + occ i l)%nat.
Proof. unfold occ. cbn [List.filter]. destruct (Z.eqb_spec i j), (decide (i = j)); done. Qed.
Lemma occ_perm i l l' : l ≡ₚ l' → occ i l = occ i l'.
Proof. apply length_filter_perm. Qed.
Lemma occ_none i l : i ∉ l → occ i l = 0%nat.
Proof. induction l as [|j l IH]; [done|]. rewrite not_elem_of_cons, occ_cons. intros [? ?]. rewrite decide_False by done. by apply IH. Qed.
Lemma occ_one i l : NoDup l → i ∈ l → occ i l = 1%nat.
Proof.
  induction 1 as [|j l Hj _ IH]; [by intros ?%not_elem_of_nil|]. rewrite occ_cons, elem_of_cons. intros [->|Hi].
  - rewrite decide_True, occ_none by done. done.
  - rewrite decide_False by (intros ->; done). by apply IH.
Qed.

Lemma inv_initial w : initial w → inv w.
Proof.
  intros (Hb & Hs & Hq & Hp & Hn & Hr).
  assert (pending w = 0%nat) as E by (apply count_none; intros i _; by rewrite Hr, (proj1 (proj2 (proj2 (proj2 (proj2 (Hn i))))))).
  split; rewrite ?E, ?Hq, ?Hp, ?Hr.
  - done.
  - by left.
  - by destruct ids; [|cbn; lia].
  - intros i _. left. apply Hn.
  - intros i _. destruct (Hn i) as (_ & _ & -> & _ & -> & _). done.
  - intros i _. destruct (Hn i) as (_ & _ & _ & _ & _ & ->). done.
  - by split; intros i ?%not_elem_of_nil.
  - intros i. destruct (Hn i) as (-> & _ & -> & -> & _). done.
  - intros i _. destruct (Hn i) as (-> & _ & _ & -> & _ & ->). split; [lia|]. done.
  - intros i. destruct (Hn i) as (_ & -> & _). by eexists.
  - intros i _. apply Hn.
Qed.

(** A node whose request is on its way has not been counted in this round. *)
Lemma fresh_request w i rest : inv w → requests w ≡ₚ i :: rest → i ∈ ids ∧ processed w i = rounds w.
Proof.
  intros H Hp. assert (i ∈ ids) as Hi by (apply (proj1 (inv_members w H)); rewrite Hp; by left). split; [done|].
  pose proof (inv_requests w H i Hi) as He. rewrite (occ_perm _ _ _ Hp), occ_cons, decide_True in He by done.
  pose proof (inv_entered w H i). pose proof (inv_replies w H i Hi). destruct (inv_seen w H i Hi) as [Hs _].
  destruct (inv_processed w H i Hi) as [?|E]; [done|]. destruct (decide (phase_of w i = Running)); lia.
Qed.

(** A node whose answer is on its way has not returned, and has not seen it. *)
Lemma fresh_reply w i rest : inv w → replies w ≡ₚ i :: rest → i ∈ ids ∧ phase_of w i ≠ Running ∧ seen w i = exited w i.
Proof.
  intros H Hp. assert (i ∈ ids) as Hi by (apply (proj2 (inv_members w H)); rewrite Hp; by left). split; [done|].
  pose proof (inv_replies w H i Hi) as Hr. rewrite (occ_perm _ _ _ Hp), occ_cons, decide_True in Hr by done.
  pose proof (inv_requests w H i Hi). pose proof (inv_entered w H i) as He. destruct (inv_seen w H i Hi) as (Hs & Hrun & _).
  destruct (inv_processed w H i Hi); destruct (decide (phase_of w i = Running)) as [E|]; try (specialize (Hrun E)); split; done || lia.
Qed.

(** ** Every step keeps the invariant *)
Ltac at_node i j := destruct (decide (j = i)) as [->|?]; [rewrite ?upd_eq|rewrite ?upd_ne by done].

Lemma inv_enter w i : inv w → i ∈ ids → phase_of w i = Running → inv (send_request i w).
Proof.
  intros H Hi Hph. destruct H as [? ? ? ? Hq ? [Hm Hm'] He Hs ? Ho]. split; cbn; try done.
  - intros j Hj. rewrite occ_app, occ_cons. specialize (Hq j Hj). change (occ j []) with 0%nat. at_node i j; lia.
  - split; [|done]. intros j [?|Hj]%elem_of_app; [auto|]. by apply list_elem_of_singleton in Hj as ->.
  - intros j. specialize (He j). at_node i j; [|done]. rewrite Hph, decide_True in He by done. rewrite decide_False by done. lia.
  - intros j Hj. specialize (Hs j Hj). at_node i j; [|done]. naive_solver.
  - intros j Hj. rewrite upd_ne; [by apply Ho|]. by intros ->.
Qed.

Lemma inv_wait w i : inv w → phase_of w i = Requested → inv (clear_and_wait i w).
Proof.
  intros H Hph. destruct H as [? ? ? ? Hq ? ? He Hs Hf Ho]. split; cbn; try done.
  - intros j. specialize (He j). at_node i j; [|done]. rewrite Hph, decide_False in He by done. rewrite decide_False by done. lia.
  - intros j Hj. specialize (Hs j Hj). at_node i j; [|done]. split; [apply Hs|]. split; [done|]. intros _. by rewrite lookup_insert_eq.
  - intros j. at_node i j; [|done]. destruct (Hf i) as [b ->]. exists false. by rewrite insert_singleton_eq.
  - intros j Hj. rewrite upd_ne; [by apply Ho|]. intros ->. rewrite Ho in Hph; done.
Qed.

Lemma inv_leave w i : inv w → phase_of w i = Waiting → barrier_done_of w i !! 0 = Some true → inv (return_from_wait i w).
Proof.
  intros H Hph Hd. destruct H as [? ? ? ? Hq ? ? He Hs Hf Ho]. split; cbn; try done.
  - intros j. specialize (He j). at_node i j; [|done]. rewrite Hph, decide_False in He by done. rewrite decide_True by done. lia.
  - intros j Hj. specialize (Hs j Hj). at_node i j; [|done]. destruct Hs as (? & _ & Hs). specialize (Hs Hph Hd). split; [lia|]. done.
  - intros j Hj. at_node i j; [done|]. by apply Ho.
Qed.

Lemma inv_reply w i rest flags :
  inv w → replies w ≡ₚ i :: rest → set_all_done (S (size (barrier_done_of w i))) 0 (barrier_done_of w i) = Some flags →
  inv (after_reply i rest flags w).
Proof.
  intros H Hp Hfl. destruct (fresh_reply w i rest H Hp) as (Hi & Hph & Hse).
  destruct H as [? ? ? ? Hq Hr [Hm Hm'] He Hs Hf Ho].
  assert (flags = {[0 := true]}) as ->. { destruct (Hf i) as [b E]. rewrite E, map_size_singleton in Hfl. destruct b; vm_compute in Hfl; by injection Hfl as <-. }
  split; cbn; try done.
  - intros j Hj. specialize (Hr j Hj). rewrite (occ_perm _ _ _ Hp), occ_cons in Hr.
    at_node i j; lia.
  - split; [done|]. intros j Hj. apply Hm'. rewrite Hp. by right.
  - intros j Hj. specialize (Hs j Hj). at_node i j; [|done]. destruct Hs as (? & _ & _). split_and!; [lia|lia|done|lia].
  - intros j. at_node i j; [by eexists|done].
Qed.

Lemma inv_request w i rest v :
  inv w → requests w ≡ₚ i :: rest → ProcessBarrierRequest cfg 0 0 group is_global (scheduler w) = Ok (tt, v) →
  inv (after_request i rest v w).
Proof.
  intros H Hp Hrun. destruct (fresh_request w i rest H Hp) as (Hi & Hpr).
  destruct (request_run _ _ (inv_counts w H) (inv_shared w H)) as (v' & E & Hs' & Hc' & Hrc). rewrite Hrun in E. injection E as <-.
  destruct H as [? ? Hop Hproc Hq Hr [Hm Hm'] He Hs Hf Ho].
  assert (S (pending w) = length (List.filter (fun j => (upd (processed w) i (S (processed w i)) j =? S (rounds w))%nat) ids)) as Hcount.
  { symmetry. unfold pending. apply (count_set _ _ i); [done|done| | |].
    - apply Nat.eqb_neq. lia.
    - rewrite upd_eq. apply Nat.eqb_eq. lia.
    - intros j Hj. by rewrite upd_ne. }
  assert (∀ j, j ∈ ids → entered w j = (upd (processed w) i (S (processed w i)) j + occ j rest)%nat) as Hq'.
  { intros j Hj. specialize (Hq j Hj). rewrite (occ_perm _ _ _ Hp), occ_cons in Hq. at_node i j; lia. }
  assert (∀ j, j ∈ rest → j ∈ ids) as Hm1 by (intros j Hj; apply Hm; rewrite Hp; by right).
  unfold after_request. rewrite Hrc. destruct (Nat.eqb_spec (S (pending w)) (length ids)) as [Efull|Eopen].
  - assert (∀ j, j ∈ ids → upd (processed w) i (S (processed w i)) j = S (rounds w)) as Hall.
    { intros j Hj. apply Nat.eqb_eq. apply (count_all (fun j => (upd (processed w) i (S (processed w i)) j =? S (rounds w))%nat) ids); [lia|done]. }
    rewrite bool_decide_false by done.
    assert (∀ x, pending {| scheduler := v; requests := rest; replies := x; phase_of := phase_of w; barrier_done_of := barrier_done_of w;
      entered := entered w; exited := exited w; processed := upd (processed w) i (S (processed w i)); seen := seen w; rounds := S (rounds w) |} = 0%nat) as Hz.
    { intros x. apply count_none. intros j Hj. cbn. rewrite Hall by done. apply Nat.eqb_neq. lia. }
    split; rewrite ?Hz; cbn; try done; try lia.
    + intros j Hj. left. by apply Hall.
    + intros j Hj. rewrite occ_app, (occ_one j ids) by done. rewrite (Hr j Hj). lia.
    + split; [done|]. intros j [?|?]%elem_of_app; auto.
  - rewrite bool_decide_true, app_nil_r by done.
    assert (∀ x, pending {| scheduler := v; requests := rest; replies := x; phase_of := phase_of w; barrier_done_of := barrier_done_of w;
      entered := entered w; exited := exited w; processed := upd (processed w) i (S (processed w i)); seen := seen w; rounds := rounds w |} = S (pending w)) as Hz by done.
    split; rewrite ?Hz; cbn; try done; try lia.
    intros j Hj. specialize (Hproc j Hj). at_node i j; [lia|done].
Qed.

Lemma inv_step w w' : inv w → step w w' → inv w'.
Proof.
  intros H. destruct 1 as [w i ids' Hids' _|w i|w i|w i rest v|w i rest flags].
  - rewrite Hids in Hids'. injection Hids' as <-. by apply inv_enter.
  - by apply inv_wait.
  - by apply inv_leave.
  - by apply inv_request.
  - by apply inv_reply.
Qed.

Lemma inv_steps w w' : inv w → rtc step w w' → inv w'.
Proof. intros H. induction 1 as [|w1 w2 w3 Hst _ IH]; [done|]. apply IH. by apply (inv_step w1). Qed.

Lemma inv_reachable w : reachable w → inv w.
Proof. intros (w0 & H0 & Hst). by eapply inv_steps; [apply inv_initial|]. Qed.

(** Nobody leaves a barrier some node of the group has not entered. *)
Lemma inv_safe w i j : inv w → i ∈ ids → j ∈ ids → (exited w i ≤ entered w j)%nat.
Proof.
  intros H Hi Hj. destruct (inv_seen w H i Hi) as [? _]. pose proof (inv_replies w H i Hi). pose proof (inv_requests w H j Hj).
  destruct (inv_processed w H j Hj); lia.
Qed.

(** ** A lost answer *)

(** The node waits, its answer of this round was handled, and its flag is down. *)
Definition stuck (i : Z) (w : World) : Prop :=
  phase_of w i = Waiting ∧ barrier_done_of w i !! 0 = Some false ∧ seen w i = S (exited w i).

Lemma stuck_step i w w' : i ∈ ids → inv w → stuck i w → step w w' → stuck i w'.
Proof.
  intros Hi H (Hph & Hd & Hse). destruct 1 as [w j ? _ _ _ Hj|w j Hj|w j Hj Hdj|w j rest v Hp _|w j rest flags Hp _]; unfold stuck; cbn.
  - at_node j i; [congruence|done].
  - at_node j i; [congruence|done].
  - at_node j i; [congruence|done].
  - done.
  - at_node j i; [|done]. destruct (fresh_reply w j rest H Hp) as (_ & _ & ?). lia.
Qed.

Lemma stuck_forever i w w' : i ∈ ids → inv w → stuck i w → rtc step w w' → stuck i w'.
Proof.
  intros Hi H Hst Hr. revert H Hst. induction Hr as [|w1 w2 w3 H12 _ IH]; [done|]. intros H Hst.
  apply IH; [by apply (inv_step w1)|by apply (stuck_step i w1)].
Qed.

Lemma lost_forever i w w' :
  i ∈ ids → inv w → phase_of w i = Requested → seen w i = entered w i → rtc step (clear_and_wait i w) w' →
  phase_of w' i = Waiting ∧ exited w' i = exited w i.
Proof.
  intros Hi H Hph Hse Hst. pose proof (inv_entered w H i) as He. rewrite Hph, decide_False in He by done.
  assert (stuck i (clear_and_wait i w)) as Hk by (unfold stuck; cbn; rewrite !upd_eq, lookup_insert_eq; split_and!; done || lia).
  pose proof (inv_wait w i H Hph) as H1. destruct (stuck_forever i _ w' Hi H1 Hk Hst) as (Hp' & _ & Hs').
  pose proof (inv_steps _ _ H1 Hst) as H'. split; [done|]. clear Hk.
  assert (∀ w1 w2, rtc step w1 w2 → inv w1 → stuck i w1 → exited w2 i = exited w1 i) as Hex.
  { clear -Hi Hids Hgroup Hnd Hne. induction 1 as [|w1 w2 w3 H12 _ IH]; [done|]. intros H Hst.
    rewrite IH; [|by apply (inv_step w1)|by apply (stuck_step i w1)]. destruct Hst as (Hph & Hd & _).
    destruct H12 as [| |w j Hj Hdj| |]; cbn; try done. at_node j i; [congruence|done]. }
  rewrite (Hex _ _ Hst H1); [done|]. unfold stuck; cbn; rewrite !upd_eq, lookup_insert_eq; split_and!; done || lia.
Qed.

Lemma no_step_stuck w : inv w → (∀ i, i ∈ ids → phase_of w i = Waiting) → (∀ w', ¬ step w w') → ∃ i, i ∈ ids ∧ stuck i w.
Proof.
  intros H Hall Hno.
  assert (requests w = []) as Hq.
  { destruct (requests w) as [|i rest] eqn:E; [done|]. destruct (request_run _ _ (inv_counts w H) (inv_shared w H)) as (v & Hv & _).
    destruct (Hno (after_request i rest v w)). apply step_request; [by rewrite E|done]. }
  assert (replies w = []) as Hp.
  { destruct (replies w) as [|i rest] eqn:E; [done|]. destruct (inv_flags w H i) as [b Hb].
    destruct (Hno (after_reply i rest {[0 := true]} w)). apply step_reply; [by rewrite E|]. rewrite Hb, map_size_singleton. by destruct b. }
  destruct (count_some _ _ (inv_open w H)) as (i & Hi & Hpr%Nat.eqb_neq). destruct (inv_processed w H i Hi) as [Hpi|]; [|done].
  exists i. split; [done|]. split; [by apply Hall|]. destruct (inv_flags w H i) as [b Hb].
  pose proof (inv_entered w H i) as He. rewrite Hall, decide_False in He by done.
  pose proof (inv_requests w H i Hi) as Hr. pose proof (inv_replies w H i Hi) as Hs. rewrite Hq in Hr. rewrite Hp in Hs. change (occ i []) with 0%nat in *.
  split; [|lia]. rewrite Hb. destruct b; [|done]. destruct (Hno (return_from_wait i w)). apply step_leave; [by apply Hall|]. by rewrite Hb.
Qed.
End Protocol.


(** C11: in every state the nodes, the scheduler and the network can reach, a node has
    left the barrier at most as often as any node of its group has entered it: nobody
    passes a barrier before everybody reached it, however requests, answers and threads
    interleave and however often the barrier is used. *)
Theorem barrier_safe cfg (is_global : bool) group ids w i j :
  GetNodeIDs (if is_global then StartGlobal_node_ids cfg else Start_node_ids cfg) group = Ok ids →
  1 ≤ group ≤ 7 → NoDup ids → reachable cfg is_global group w → i ∈ ids → j ∈ ids →
  (exited w i ≤ entered w j)%nat.
Proof.
  intros Hids Hg Hnd Hw Hi Hj. assert (ids ≠ []) by (intros ->; by apply not_elem_of_nil in Hi).
  eapply inv_safe; [|done|done]. by apply (inv_reachable cfg is_global group).
Qed.

(** Two workers; the answer to the first reaches it before it waits. *)
Definition w_world : World := {| scheduler := w_van; requests := []; replies := []; phase_of := fun _ => Running;
  barrier_done_of := fun _ => {[0 := false]}; entered := fun _ => 0%nat; exited := fun _ => 0%nat; processed := fun _ => 0%nat;
  seen := fun _ => 0%nat; rounds := 0%nat |}.
Definition w_scheduled (w : World) : Van :=
  match ProcessBarrierRequest w_config 0 0 kWorkerGroup false (scheduler w) with Ok (_, v) => v | Err _ => scheduler w end.
Definition w_asked : World := send_request 103 (send_request 101 w_world).
Definition w_counted : World := after_request 101 [103] (w_scheduled w_asked) w_asked.
Definition w_answered : World := after_request 103 [] (w_scheduled w_counted) w_counted.
Definition w_early : World := after_reply 101 [103] {[0 := true]} w_answered.

Lemma w_early_reachable : reachable w_config false kWorkerGroup w_early.
Proof.
  exists w_world. split; [split_and!; done|].
  apply (rtc_l _ _ (send_request 101 w_world)); [apply (step_enter _ _ _ _ _ [101; 103]); [reflexivity|cbn; lia|by_decision|done]|].
  apply (rtc_l _ _ w_asked); [apply (step_enter _ _ _ _ _ [101; 103]); [reflexivity|cbn; lia|by_decision|done]|].
  apply (rtc_l _ _ w_counted); [apply step_request; [reflexivity|vm_compute; reflexivity]|].
  apply (rtc_l _ _ w_answered); [apply step_request; [reflexivity|vm_compute; reflexivity]|].
  apply rtc_once. apply step_reply; [|vm_compute; reflexivity].
  replace (replies w_answered) with [101; 103] by (vm_compute; reflexivity). reflexivity.
Qed.

Lemma barrier_safe_witness : (exited w_early 101 ≤ entered w_early 103)%nat.
Proof.
  apply (barrier_safe w_config false kWorkerGroup [101; 103]); [reflexivity|unfold kWorkerGroup; lia|by_decision|apply w_early_reachable|by_decision|by_decision].
Defined.

(** C38: the only deadlock of the barrier is a lost answer: when every node of the group
    waits and no step is possible, some node handled the scheduler's answer before it
    cleared its own flag; and such a node waits for ever, whatever the others do. *)
Theorem barrier_lost_answer cfg (is_global : bool) group ids w :
  GetNodeIDs (if is_global then StartGlobal_node_ids cfg else Start_node_ids cfg) group = Ok ids →
  1 ≤ group ≤ 7 → NoDup ids → ids ≠ [] → reachable cfg is_global group w →
  ((∀ i, i ∈ ids → phase_of w i = Waiting) → (∀ w', ¬ step cfg is_global group w w') → ∃ i, i ∈ ids ∧ stuck i w) ∧
  (∀ i, i ∈ ids → phase_of w i = Requested → seen w i = entered w i →
     ∀ w', rtc (step cfg is_global group) (clear_and_wait i w) w' → phase_of w' i = Waiting ∧ exited w' i = exited w i).
Proof.
  intros Hids Hg Hnd Hne Hw. pose proof (inv_reachable cfg is_global group ids Hids Hg Hnd Hne w Hw) as H. split.
  - intros Hall Hno. by apply (no_step_stuck cfg is_global group ids).
  - intros i Hi Hph Hse w' Hst. by apply (lost_forever cfg is_global group ids).
Qed.

Lemma barrier_lost_answer_witness :
  phase_of w_early 101 = Requested ∧
  ∀ w', rtc (step w_config false kWorkerGroup) (clear_and_wait 101 w_early) w' → phase_of w' 101 = Waiting ∧ exited w' 101 = 0%nat.
Proof.
  split; [reflexivity|]. apply (barrier_lost_answer w_config false kWorkerGroup [101; 103] w_early);
    [reflexivity|unfold kWorkerGroup; lia|by_decision|done|apply w_early_reachable|by_decision|reflexivity|reflexivity].
Defined.
