(* ===== verification/EngineVar.v ===== *)
(** * Variables of the dependency engine

    Every array of MXNet owns an engine variable.  A variable keeps the operations that
    wait for it in a linked list of [VersionedVarBlock]s: operations before the first
    waiting write run at once, the others wait in the list.  [ThreadedVar] below is the
    code's pointer structure; [VarState] is what it stands for, a counter and a queue; the
    class [VarQueue] is what the engine relies on.
    Sources: [VersionedVarBlock] and [ThreadedVar] of src/src/engine/threaded_engine.h and
    src/src/engine/threaded_engine.cc.

    Each operation here is the part of a method under the lock of the variable.  What the
    methods do after the lock is released, decrementing the wait counters of the operations
    they trigger, is returned to the caller.  Operations are numbered.  The asserts of the
    code are checks here.  Blocks come from an object pool and are owned by one variable. *)

From Stdlib Require Import String.
From S2P Require Import Prelude.
Local Open Scope Z_scope.

(** ** The pointer structure *)
Abbreviation ptr := positive.

Record VersionedVarBlock := { next : option ptr; trigger : option nat; write : bool }.
Definition block_New : VersionedVarBlock := {| next := None; trigger := None; write := false |}.
Definition block_empty (b : VersionedVarBlock) : bool :=
  bool_decide (next b = None) && bool_decide (trigger b = None) && negb (write b).

Record ThreadedVar := {
  blocks : gmap ptr VersionedVarBlock;          (* the live blocks of this variable *)
  num_pending_reads_ : Z;
  head_ : ptr;
  pending_write_ : option ptr;
  to_delete_ : bool;
  version_ : Z
}.

Definition kWriteTriggered : Z := -1.

Definition load (bs : gmap ptr VersionedVarBlock) (p : ptr) : result VersionedVarBlock :=
  of_option (Undefined "block is not allocated") (bs !! p).
Definition deref {A} (o : option A) : result A := of_option (Undefined "null pointer") o.

(** [ThreadedEngine::NewVariable] *)
Definition NewVariable : ThreadedVar := {|
  blocks := {[1%positive := block_New]}; num_pending_reads_ := 0; head_ := 1%positive; pending_write_ := None;
  to_delete_ := false; version_ := 0 |}.

(** Both return whether the operation may use the variable at once, that is whether its
    wait counter is to be decremented. *)
Definition AppendReadDependency (opr_block : nat) (v : ThreadedVar) : result (ThreadedVar * bool) :=
  match pending_write_ v with
  | None =>
      check (0 <=? num_pending_reads_ v) "Check failed: num_pending_reads_ >= 0";;
      Ok ({| blocks := blocks v; num_pending_reads_ := num_pending_reads_ v + 1; head_ := head_ v; pending_write_ := None;
             to_delete_ := to_delete_ v; version_ := version_ v |}, true)
  | Some w =>
      let new_var_block := fresh (dom (blocks v)) in
      h ← load (blocks v) (head_ v);
      check (block_empty h) "assertion on head_";;
      Ok ({| blocks := <[head_ v := {| next := Some new_var_block; trigger := Some opr_block; write := write h |}]>
                         (<[new_var_block := block_New]> (blocks v));
             num_pending_reads_ := num_pending_reads_ v; head_ := new_var_block; pending_write_ := Some w;
             to_delete_ := to_delete_ v; version_ := version_ v |}, false)
  end.

Definition AppendWriteDependency (opr_block : nat) (v : ThreadedVar) : result (ThreadedVar * bool) :=
  let new_var_block := fresh (dom (blocks v)) in
  h ← load (blocks v) (head_ v);
  check (block_empty h) "assertion on head_";;
  let bs := <[head_ v := {| next := Some new_var_block; trigger := Some opr_block; write := true |}]>
              (<[new_var_block := block_New]> (blocks v)) in
  match pending_write_ v with
  | None =>
      check (0 <=? num_pending_reads_ v) "Check failed: num_pending_reads_ >= 0";;
      let ready := num_pending_reads_ v =? 0 in
      Ok ({| blocks := bs; num_pending_reads_ := if ready then kWriteTriggered else num_pending_reads_ v; head_ := new_var_block;
             pending_write_ := Some (head_ v); to_delete_ := to_delete_ v; version_ := version_ v |}, ready)
  | Some w =>
      check (negb (num_pending_reads_ v =? 0)) "Check failed: num_pending_reads_ != 0";;
      Ok ({| blocks := bs; num_pending_reads_ := num_pending_reads_ v; head_ := new_var_block; pending_write_ := Some w;
             to_delete_ := to_delete_ v; version_ := version_ v |}, false)
  end.

(** Returns the write to trigger, if any. *)
Definition CompleteReadDependency (v : ThreadedVar) : result (ThreadedVar * option nat) :=
  check (0 <? num_pending_reads_ v) "Check failed: num_pending_reads_ > 0";;
  let n := num_pending_reads_ v - 1 in
  let set k := {| blocks := blocks v; num_pending_reads_ := k; head_ := head_ v; pending_write_ := pending_write_ v;
                  to_delete_ := to_delete_ v; version_ := version_ v |} in
  match pending_write_ v with
  | Some w => if n =? 0 then b ← load (blocks v) w; Ok (set kWriteTriggered, trigger b) else Ok (set n, None)
  | None => Ok (set n, None)
  end.

(** The search for the end of the reads behind a write that completes: counts them. *)
Fixpoint read_chain (fuel : nat) (bs : gmap ptr VersionedVarBlock) (head : ptr) (count : Z) (p : ptr) : result (Z * ptr) :=
  match fuel with
  | O => Err (Undefined "list without end")
  | S fuel =>
      if decide (p = head) then Ok (count, p)
      else
        b ← load bs p;
        if write b then Ok (count, p)
        else q ← deref (next b); read_chain fuel bs head (count + 1) q
  end.

(** The walk over the detached blocks: their operations, and the blocks that are left. *)
Fixpoint detach (fuel : nat) (bs : gmap ptr VersionedVarBlock) (stop p : ptr) : result (list nat * gmap ptr VersionedVarBlock) :=
  match fuel with
  | O => Err (Undefined "list without end")
  | S fuel =>
      if decide (p = stop) then Ok ([], bs)
      else
        b ← load bs p;
        t ← deref (trigger b);
        q ← deref (next b);
        r ← detach fuel (delete p bs) stop q;
        Ok (t :: r.1, r.2)
  end.

(** The pending write after the reads, the number of pending reads, and a write to trigger. *)
Definition next_write (bs : gmap ptr VersionedVarBlock) (head : ptr) (reads : Z) (p : ptr) : result (option ptr * Z * list nat) :=
  if decide (p = head) then Ok (None, reads, [])
  else
    b ← load bs p;
    check (write b) "assertion on end_of_read_chain";;
    if reads =? 0 then t ← deref (trigger b); Ok (Some p, kWriteTriggered, [t])
    else Ok (Some p, reads, []).

(** Returns whether the variable is to be deleted, and the operations to trigger. *)
Definition CompleteWriteDependency (v : ThreadedVar) : result (ThreadedVar * bool * list nat) :=
  old_pending_write ← deref (pending_write_ v);
  check (num_pending_reads_ v =? kWriteTriggered) "Check failed: num_pending_reads_ == kWriteTriggered";;
  let version := u64 (version_ v + 1) in
  b ← load (blocks v) old_pending_write;
  if to_delete_ v then
    h ← deref (next b);
    check (bool_decide (head_ v = h)) "assertion on head_";;
    Ok ({| blocks := delete h (delete old_pending_write (blocks v)); num_pending_reads_ := num_pending_reads_ v; head_ := head_ v;
           pending_write_ := pending_write_ v; to_delete_ := true; version_ := version |}, true, [])
  else
    first ← deref (next b);
    let fuel := S (size (blocks v)) in
    c ← read_chain fuel (blocks v) (head_ v) 0 first;
    let '(reads, end_of_read_chain) := c in
    w ← next_write (blocks v) (head_ v) reads end_of_read_chain;
    let '(pending, num, trigger_write) := w in
    d ← detach fuel (delete old_pending_write (blocks v)) end_of_read_chain first;
    Ok ({| blocks := d.2; num_pending_reads_ := num; head_ := head_ v; pending_write_ := pending;
           to_delete_ := false; version_ := version |}, false, d.1 ++ trigger_write).

Definition SetToDelete (v : ThreadedVar) : ThreadedVar := {|
  blocks := blocks v; num_pending_reads_ := num_pending_reads_ v; head_ := head_ v; pending_write_ := pending_write_ v;
  to_delete_ := true; version_ := version_ v |}.

Definition ready_to_read (v : ThreadedVar) : bool := bool_decide (pending_write_ v = None).
Definition version (v : ThreadedVar) : Z := version_ v.

(** ** What it stands for *)

(** The number of running reads, or -1 for a running write; then the queue, from the first
    write on, with a flag for writes.  A running write is the first of the queue. *)
Record VarState := { vs_reads : Z; vs_queue : list (nat * bool); vs_delete : bool; vs_version : Z }.

Definition var_init : VarState := {| vs_reads := 0; vs_queue := []; vs_delete := false; vs_version := 0 |}.

Definition spec_append_read (o : nat) (q : VarState) : VarState * bool :=
  match vs_queue q with
  | [] => ({| vs_reads := vs_reads q + 1; vs_queue := []; vs_delete := vs_delete q; vs_version := vs_version q |}, true)
  | l => ({| vs_reads := vs_reads q; vs_queue := l ++ [(o, false)]; vs_delete := vs_delete q; vs_version := vs_version q |}, false)
  end.

Definition spec_append_write (o : nat) (q : VarState) : VarState * bool :=
  let ready := bool_decide (vs_queue q = []) && (vs_reads q =? 0) in
  ({| vs_reads := if ready then -1 else vs_reads q; vs_queue := vs_queue q ++ [(o, true)]; vs_delete := vs_delete q;
      vs_version := vs_version q |}, ready).

Definition spec_complete_read (q : VarState) : VarState * option nat :=
  let set k := {| vs_reads := k; vs_queue := vs_queue q; vs_delete := vs_delete q; vs_version := vs_version q |} in
  match vs_queue q with
  | (o, _) :: _ => if vs_reads q =? 1 then (set (-1), Some o) else (set (vs_reads q - 1), None)
  | [] => (set (vs_reads q - 1), None)
  end.

(** The reads at the front of a queue, and what follows. *)
Fixpoint front_reads (l : list (nat * bool)) : list nat * list (nat * bool) :=
  match l with
  | (o, false) :: l => ((o :: (front_reads l).1), (front_reads l).2)
  | _ => ([], l)
  end.

Definition spec_complete_write (q : VarState) : VarState * list nat :=
  let '(rs, rest) := front_reads (tail (vs_queue q)) in
  let writer := match rs, rest with [], (o, _) :: _ => [o] | _, _ => [] end in
  ({| vs_reads := if bool_decide (writer = []) then Z.of_nat (length rs) else -1; vs_queue := rest; vs_delete := vs_delete q;
      vs_version := u64 (vs_version q + 1) |}, rs ++ writer).

Definition var_wf (q : VarState) : Prop :=
  match vs_queue q with [] => 0 ≤ vs_reads q | (_, w) :: _ => w = true ∧ (vs_reads q = -1 ∨ 0 < vs_reads q) end.

(** ** The interface of the engine *)
Class VarQueue (V : Type) := {
  vq_new : V;
  vq_append_read : nat → V → result (V * bool);
  vq_append_write : nat → V → result (V * bool);
  vq_complete_read : V → result (V * option nat);
  vq_complete_write : V → result (V * bool * list nat);
  vq_set_to_delete : V → V;
  vq_ready_to_read : V → bool;
  vq_rep : V → VarState → Prop;
  vq_new_rep : vq_rep vq_new var_init;
  vq_append_read_rep v q o : vq_rep v q → var_wf q →
    ∃ v', vq_append_read o v = Ok (v', (spec_append_read o q).2) ∧ vq_rep v' (spec_append_read o q).1;
  vq_append_write_rep v q o : vq_rep v q → var_wf q →
    ∃ v', vq_append_write o v = Ok (v', (spec_append_write o q).2) ∧ vq_rep v' (spec_append_write o q).1;
  vq_complete_read_rep v q : vq_rep v q → 0 < vs_reads q →
    ∃ v', vq_complete_read v = Ok (v', (spec_complete_read q).2) ∧ vq_rep v' (spec_complete_read q).1;
  vq_complete_write_rep v q o rest : vq_rep v q → vs_reads q = -1 → vs_queue q = (o, true) :: rest → vs_delete q = false →
    ∃ v', vq_complete_write v = Ok (v', false, (spec_complete_write q).2) ∧ vq_rep v' (spec_complete_write q).1;
  vq_delete_rep v q o : vq_rep v q → vs_reads q = -1 → vs_queue q = [(o, true)] → vs_delete q = true →
    ∃ v', vq_complete_write v = Ok (v', true, []);
  vq_set_to_delete_rep v q : vq_rep v q →
    vq_rep (vq_set_to_delete v) {| vs_reads := vs_reads q; vs_queue := vs_queue q; vs_delete := true; vs_version := vs_version q |};
  vq_ready_rep v q : vq_rep v q → vq_ready_to_read v = bool_decide (vs_queue q = [])
}.

(** ** The list of blocks *)

(** The blocks at [ps], linked from [p] to [e], carry the queue [l]. *)
Fixpoint chain (bs : gmap ptr VersionedVarBlock) (p : ptr) (l : list (nat * bool)) (e : ptr) (ps : list ptr) : Prop :=
  match l, ps with
  | [], [] => p = e
  | (o, w) :: l, x :: ps => x = p ∧ ∃ q, bs !! p = Some {| next := Some q; trigger := Some o; write := w |} ∧ chain bs q l e ps
  | _, _ => False
  end.

Lemma chain_frame bs bs' l : ∀ p e ps, chain bs p l e ps → (∀ x, x ∈ ps → bs' !! x = bs !! x) → chain bs' p l e ps.
Proof.
  induction l as [|[o w] l IH]; intros p e [|x ps]; cbn; try done. intros [-> (q & Hp & Hc)] Hf.
  split; [done|]. exists q. split; [rewrite Hf by (by left); done|]. apply IH; [done|]. intros y Hy. apply Hf. by right.
Qed.

Lemma chain_app bs l1 : ∀ l2 p m e ps1 ps2, chain bs p l1 m ps1 → chain bs m l2 e ps2 → chain bs p (l1 ++ l2) e (ps1 ++ ps2).
Proof.
  induction l1 as [|[o w] l1 IH]; intros l2 p m e [|x ps1] ps2; cbn; try done; [by intros ->|].
  intros [-> (q & Hp & Hc)] H2. split; [done|]. exists q. split; [done|]. by eapply IH.
Qed.

(** Appending fills the empty block and links a new one. *)
Lemma chain_snoc bs p l h ps n o w :
  chain bs p l h ps → NoDup (h :: ps) → n ∉ h :: ps →
  chain (<[h := {| next := Some n; trigger := Some o; write := w |}]> (<[n := block_New]> bs)) p (l ++ [(o, w)]) n (ps ++ [h]).
Proof.
  intros Hc [Hh _]%NoDup_cons Hn. apply not_elem_of_cons in Hn as [Hnh Hn].
  apply (chain_app _ _ _ _ h); [|split; [done|]; exists n; by rewrite lookup_insert_eq].
  apply (chain_frame bs); [done|]. intros x Hx. rewrite !lookup_insert_ne; [done|by intros ->|by intros ->].
Qed.

Lemma read_chain_run bs h l : ∀ fuel p ps k,
  chain bs p l h ps → h ∉ ps → (length l < fuel)%nat →
  ∃ e ps1 ps2, read_chain fuel bs h k p = Ok (k + Z.of_nat (length (front_reads l).1), e) ∧ ps = ps1 ++ ps2 ∧
    chain bs p ((., false) <$> (front_reads l).1) e ps1 ∧ chain bs e (front_reads l).2 h ps2 ∧ (e = h ↔ (front_reads l).2 = []).
Proof.
  induction l as [|[o w] l IH]; intros fuel p [|x ps] k Hc Hh Hf; try done.
  - destruct fuel as [|fuel]; [cbn in Hf; lia|]. cbn in Hc. subst p. exists h, [], []. cbn. rewrite decide_True, Z.add_0_r by done. done.
  - destruct fuel as [|fuel]; [cbn in Hf; lia|]. destruct Hc as [-> (q & Hp & Hc)].
    apply not_elem_of_cons in Hh as [Hhp Hh]. cbn [read_chain]. rewrite decide_False by done. unfold load. rewrite Hp. rstep. cbn [of_option].
    rstep. cbn [write next]. destruct w.
    + exists p, [], (p :: ps). cbn [front_reads fst snd length]. rewrite Z.add_0_r. split_and!; try done. cbn. split; [done|]. by exists q.
    + cbn [deref of_option]. rstep. destruct (IH fuel q ps (k + 1)) as (e & ps1 & ps2 & He & -> & H1 & H2 & H3); [done|done|cbn in Hf; lia|].
      exists e, (p :: ps1), ps2. cbn [front_reads fst snd length]. split_and!; try done.
      * rewrite He. do 2 f_equal. lia.
      * cbn. split; [done|]. by exists q.
Qed.

Lemma detach_run bs l : ∀ fuel p e ps,
  chain bs p l e ps → NoDup ps → e ∉ ps → (length l < fuel)%nat →
  ∃ bs', detach fuel bs e p = Ok (l.*1, bs') ∧ ∀ x, bs' !! x = if decide (x ∈ ps) then None else bs !! x.
Proof.
  revert bs. induction l as [|[o w] l IH]; intros bs fuel p e [|x ps] Hc Hnd He Hf; try done.
  - destruct fuel as [|fuel]; [cbn in Hf; lia|]. cbn in Hc. subst p. cbn. rewrite decide_True by done. exists bs. split; [done|].
    intros x. rewrite decide_False; [done|]. by apply not_elem_of_nil.
  - destruct fuel as [|fuel]; [cbn in Hf; lia|]. destruct Hc as [-> (q & Hp & Hc)]. apply NoDup_cons in Hnd as [Hpp Hnd].
    apply not_elem_of_cons in He as [Hep He]. cbn [detach]. rewrite decide_False by done. unfold load. rewrite Hp. rstep. cbn [of_option].
    rstep. cbn [trigger next deref of_option]. rstep.
    destruct (IH (delete p bs) fuel q e ps) as (bs' & E & Hbs'); [|done|done|cbn in Hf; lia|].
    { apply (chain_frame bs); [done|]. intros y Hy. apply lookup_delete_ne. by intros ->. }
    rewrite E. rstep. exists bs'. split; [done|]. intros y. rewrite Hbs'. destruct (decide (y ∈ ps)).
    + by rewrite decide_True by (by right).
    + destruct (decide (y = p)) as [->|Hy]; [rewrite lookup_delete_eq, decide_True; [done|by left]|].
      rewrite lookup_delete_ne, decide_False; [done| |done]. by intros [?|?]%elem_of_cons.
Qed.

(** ** Representation *)

(** The live blocks are those of the queue and the empty one at its end. *)
Definition linked (bs : gmap ptr VersionedVarBlock) (p h : ptr) (l : list (nat * bool)) : Prop :=
  ∃ ps, chain bs p l h ps ∧ bs !! h = Some block_New ∧ NoDup (h :: ps) ∧ (∀ x, is_Some (bs !! x) ↔ x ∈ h :: ps).

Definition rep (v : ThreadedVar) (q : VarState) : Prop :=
  num_pending_reads_ v = vs_reads q ∧ to_delete_ v = vs_delete q ∧ version_ v = vs_version q ∧
  (pending_write_ v = None ↔ vs_queue q = []) ∧
  linked (blocks v) (default (head_ v) (pending_write_ v)) (head_ v) (vs_queue q).

Lemma chain_length bs l : ∀ p e ps, chain bs p l e ps → length ps = length l.
Proof. induction l as [|[o w] l IH]; intros p e [|x ps]; cbn; try done. intros [_ (q & _ & Hc)]. f_equal. by eapply IH. Qed.

Lemma linked_size bs p h l : linked bs p h l → size bs = S (length l).
Proof.
  intros (ps & Hc & _ & Hnd & Hdom). rewrite <- (chain_length _ _ _ _ _ Hc), <- size_dom.
  assert (dom bs ≡ list_to_set (h :: ps)) as ->; [|by rewrite size_list_to_set].
  intros x. rewrite elem_of_dom, elem_of_list_to_set. apply Hdom.
Qed.

Lemma linked_snoc bs p h l o w :
  linked bs p h l → let n := fresh (dom bs) in
  linked (<[h := {| next := Some n; trigger := Some o; write := w |}]> (<[n := block_New]> bs)) p n (l ++ [(o, w)]).
Proof.
  intros (ps & Hc & Hh & Hnd & Hdom) n.
  assert (n ∉ h :: ps) as Hn. { rewrite <- Hdom, <- elem_of_dom. apply is_fresh. }
  assert (n ≠ h) by (intros ->; apply Hn; by left).
  exists (ps ++ [h]). split_and!.
  - by apply chain_snoc.
  - by rewrite lookup_insert_ne, lookup_insert_eq by done.
  - rewrite NoDup_cons, elem_of_app, list_elem_of_singleton. apply NoDup_cons in Hnd as [? ?]. apply not_elem_of_cons in Hn as [? ?].
    split; [naive_solver|]. apply NoDup_app. split_and!; [done| |apply NoDup_singleton]. intros x Hx ->%list_elem_of_singleton. done.
  - intros x. rewrite elem_of_cons, elem_of_app, list_elem_of_singleton. destruct (decide (x = h)) as [->|?].
    { rewrite lookup_insert_eq. naive_solver. }
    rewrite lookup_insert_ne by done. destruct (decide (x = n)) as [->|?]; [rewrite lookup_insert_eq; naive_solver|].
    rewrite lookup_insert_ne by done. rewrite Hdom, elem_of_cons. naive_solver.
Qed.

Lemma block_New_empty : block_empty block_New = true.
Proof. reflexivity. Qed.

Lemma default_none {A} (h : A) o : o = None → default h o = h.
Proof. by intros ->. Qed.

Lemma append_read_rep v q o : rep v q → var_wf q →
  ∃ v', AppendReadDependency o v = Ok (v', (spec_append_read o q).2) ∧ rep v' (spec_append_read o q).1.
Proof.
  intros (Hn & Hd & Hv & Hp & Hl) Hwf. unfold AppendReadDependency, spec_append_read, var_wf in *.
  destruct (pending_write_ v) as [w|] eqn:Ep.
  - destruct (vs_queue q) as [|e l] eqn:Eq; [by destruct Hp as [_ Hp]; specialize (Hp eq_refl)|].
    destruct Hl as (ps & Hc & Hh & Hrest) eqn:El. clear El. unfold load. rewrite Hh. cbn [of_option]. rstep.
    chk. eexists. split; [reflexivity|]. split_and!; cbn [fst num_pending_reads_ to_delete_ version_ pending_write_ vs_reads vs_delete vs_version vs_queue]; try done.
    apply (linked_snoc (blocks v) w (head_ v) (e :: l) o false). by exists ps.
  - rewrite (proj1 Hp) in * by done. rewrite check_bind_ok by (apply Z.leb_le; lia). eexists. split; [reflexivity|].
    split_and!; cbn; try done; lia.
Qed.

Lemma append_write_rep v q o : rep v q → var_wf q →
  ∃ v', AppendWriteDependency o v = Ok (v', (spec_append_write o q).2) ∧ rep v' (spec_append_write o q).1.
Proof.
  intros (Hn & Hd & Hv & Hp & Hl) Hwf. unfold AppendWriteDependency, spec_append_write, var_wf in *.
  pose proof (linked_snoc _ _ _ _ o true Hl) as Hl'. destruct Hl as (ps & Hc & Hh & _). unfold load. rewrite Hh. cbn [of_option]. rstep.
  chk. destruct (pending_write_ v) as [w|] eqn:Ep.
  - destruct (vs_queue q) as [|[o' w'] l] eqn:Eq; [by destruct Hp as [_ Hp]; specialize (Hp eq_refl)|].
    rewrite bool_decide_false by done. cbn [andb]. rewrite check_bind_ok by (apply negb_true_iff, Z.eqb_neq; lia).
    eexists. split; [reflexivity|]. split_and!; cbn [fst num_pending_reads_ to_delete_ version_ pending_write_ vs_reads vs_delete vs_version vs_queue]; done.
  - rewrite (proj1 Hp) in * by done. rewrite bool_decide_true by done. cbn [andb]. rewrite check_bind_ok by (apply Z.leb_le; lia). rewrite Hn.
    eexists. split; [reflexivity|]. split_and!; cbn [fst num_pending_reads_ to_delete_ version_ pending_write_ vs_reads vs_delete vs_version vs_queue]; done.
Qed.

Lemma complete_read_rep v q : rep v q → 0 < vs_reads q →
  ∃ v', CompleteReadDependency v = Ok (v', (spec_complete_read q).2) ∧ rep v' (spec_complete_read q).1.
Proof.
  intros (Hn & Hd & Hv & Hp & Hl) Hr. unfold CompleteReadDependency, spec_complete_read. rewrite check_bind_ok by (apply Z.ltb_lt; lia). rewrite Hn.
  replace (vs_reads q - 1 =? 0) with (vs_reads q =? 1) by (destruct (Z.eqb_spec (vs_reads q) 1), (Z.eqb_spec (vs_reads q - 1) 0); done || lia).
  destruct (pending_write_ v) as [w|] eqn:Ep.
  - destruct (vs_queue q) as [|[o w'] l] eqn:Eq; [by destruct Hp as [_ Hp]; specialize (Hp eq_refl)|].
    destruct Hl as ([|x ps] & Hc & Hl); [done|]. pose proof Hc as [_ (q' & Hw & _)]. cbn in Hw. destruct (vs_reads q =? 1).
    + unfold load. rewrite Hw. cbn [of_option]. rstep. eexists. split; [reflexivity|]. split_and!; cbn; try done. by exists (x :: ps).
    + eexists. split; [reflexivity|]. split_and!; cbn; try done. by exists (x :: ps).
  - rewrite (proj1 Hp) in * by done. eexists. split; [reflexivity|]. split_and!; cbn; done.
Qed.

Lemma front_reads_app l : l = ((., false) <$> (front_reads l).1) ++ (front_reads l).2.
Proof. induction l as [|[o []] l IH]; cbn; [done|done|]. by f_equal. Qed.

Lemma front_reads_rest l : match (front_reads l).2 with [] => True | (_, w) :: _ => w = true end.
Proof. induction l as [|[o []] l IH]; cbn; done. Qed.

Lemma next_write_run bs e h (rs : list nat) rest ps :
  chain bs e rest h ps → (e = h ↔ rest = []) → match rest with [] => True | (_, w) :: _ => w = true end →
  let writer := match rs, rest with [], (o, _) :: _ => [o] | _, _ => [] end in
  next_write bs h (Z.of_nat (length rs)) e =
    Ok (if bool_decide (rest = []) then None else Some e, if bool_decide (writer = []) then Z.of_nat (length rs) else -1, writer).
Proof.
  intros Hc He Hr writer. unfold next_write. destruct rest as [|[o w] rest].
  - rewrite decide_True by naive_solver. subst writer. destruct rs; done.
  - rewrite decide_False by naive_solver. rewrite bool_decide_false by done. destruct ps as [|x ps]; [done|]. destruct Hc as [-> (q & Hp & _)].
    unfold load. rewrite Hp. cbn [of_option]. rstep. cbn [write trigger]. subst w. chk. subst writer. destruct rs; [done|].
    rewrite (proj2 (Z.eqb_neq _ _)) by (cbn; lia). done.
Qed.

Lemma complete_write_rep v q o rest : rep v q → vs_reads q = -1 → vs_queue q = (o, true) :: rest → vs_delete q = false →
  ∃ v', CompleteWriteDependency v = Ok (v', false, (spec_complete_write q).2) ∧ rep v' (spec_complete_write q).1.
Proof.
  intros (Hn & Hd & Hv & Hp & Hl) Hr Hq Hdel. unfold CompleteWriteDependency, spec_complete_write.
  pose proof (linked_size _ _ _ _ Hl) as Hsz. destruct (pending_write_ v) as [w|] eqn:Ep; [|by rewrite (proj1 Hp) in Hq by done].
  rewrite Hq in Hl, Hsz. cbn [length] in Hsz. destruct Hl as ([|x ps] & Hc & Hh & Hnd & Hdom); [done|]. destruct Hc as [Hxw (f & Hw & Hc)].
  change (default (head_ v) (Some w)) with w in *. subst x.
  apply NoDup_cons in Hnd as [Hhp [Hwp Hnd]%NoDup_cons]. apply not_elem_of_cons in Hhp as [Hhw Hhp].
  cbn [deref of_option]. rstep. rewrite check_bind_ok by (by rewrite Hn, Hr). unfold load at 1. rewrite Hw. cbn [of_option]. rstep. rewrite Hd, Hdel. cbn [next deref of_option]. rstep.
  destruct (read_chain_run (blocks v) (head_ v) rest (S (size (blocks v))) f ps 0) as (e & ps1 & ps2 & -> & -> & H1 & H2 & H3); [done|done|lia|]. rstep.
  rewrite Z.add_0_l, (next_write_run _ _ _ _ _ _ H2 H3 (front_reads_rest rest)). rstep. rewrite Hq. cbn [tail].
  apply NoDup_app in Hnd as (Hnd1 & Hdisj & Hnd2). assert (e ∉ ps1) as He.
  { destruct (front_reads rest).2 as [|[o' w'] r] eqn:Er; [rewrite (proj2 H3) by done; intros Hx; apply Hhp, elem_of_app; by left|].
    destruct ps2 as [|y ps2]; [done|]. destruct H2 as [-> _]. intros Hx%Hdisj. apply Hx. by left. }
  destruct (detach_run (delete w (blocks v)) ((., false) <$> (front_reads rest).1) (S (size (blocks v))) f e ps1) as (bs' & E & Hbs').
  { apply (chain_frame (blocks v)); [done|]. intros y Hy. apply lookup_delete_ne. intros ->. apply Hwp. by apply elem_of_app; left. }
  { done. } { done. } { rewrite length_fmap. rewrite (front_reads_app rest), length_app, length_fmap in Hsz. lia. }
  rewrite E. rstep. destruct (front_reads rest) as [rs tl] eqn:Efr. cbn [fst snd] in *.
  assert (∀ y, y ∈ head_ v :: ps2 → bs' !! y = blocks v !! y) as Hkeep.
  { intros y Hy. rewrite Hbs', decide_False.
    - apply lookup_delete_ne. intros ->. apply elem_of_cons in Hy as [->|Hy]; [done|]. apply Hwp. by apply elem_of_app; right.
    - intros Hy1. apply elem_of_cons in Hy as [->|Hy]; [by apply Hhp, elem_of_app; left|]. by eapply Hdisj. }
  eexists. split.
  { rewrite <- list_fmap_compose. replace ((fst ∘ (., false)) <$> rs) with rs by (symmetry; apply list_fmap_id). reflexivity. }
  split_and!; cbn [fst num_pending_reads_ to_delete_ version_ pending_write_ vs_reads vs_delete vs_version vs_queue head_ blocks]; [done|done|by rewrite Hv| |].
  - destruct tl; [done|]. by rewrite bool_decide_false.
  - exists ps2. split_and!.
    + apply (chain_frame (blocks v)); [|intros y Hy; apply Hkeep; by right].
      destruct tl as [|]; [rewrite bool_decide_true by done|rewrite bool_decide_false by done]; [by rewrite (proj2 H3) in H2|done].
    + by rewrite Hkeep by (by left).
    + apply NoDup_cons. split; [|done]. intros ?. by apply Hhp, elem_of_app; right.
    + intros y. split; intros Hy.
      * rewrite Hbs' in Hy. destruct (decide (y ∈ ps1)) as [|Hy1]; [by destruct Hy|]. destruct (decide (y = w)) as [->|]; [rewrite lookup_delete_eq in Hy; by destruct Hy|].
        rewrite lookup_delete_ne in Hy by done. apply Hdom in Hy. rewrite !elem_of_cons, elem_of_app in Hy. rewrite elem_of_cons. naive_solver.
      * rewrite Hkeep by done. apply Hdom. rewrite !elem_of_cons, elem_of_app. apply elem_of_cons in Hy. naive_solver.
Qed.

Lemma delete_rep v q o : rep v q → vs_reads q = -1 → vs_queue q = [(o, true)] → vs_delete q = true →
  ∃ v', CompleteWriteDependency v = Ok (v', true, []).
Proof.
  intros (Hn & Hd & Hv & Hp & Hl) Hr Hq Hdel. unfold CompleteWriteDependency.
  destruct (pending_write_ v) as [w|] eqn:Ep; [|by rewrite (proj1 Hp) in Hq by done].
  rewrite Hq in Hl. destruct Hl as ([|x ps] & Hc & _); [done|]. destruct Hc as [Hxw (f & Hw & Hc)]. destruct ps; [|done]. cbn in Hc. subst f.
  cbn [deref of_option]. rstep. rewrite check_bind_ok by (by rewrite Hn, Hr). unfold load at 1. change (default (head_ v) (Some w)) with w in Hw. rewrite Hw. cbn [of_option]. rstep.
  rewrite Hd, Hdel. cbn [next deref of_option]. rstep. rewrite check_bind_ok by (by apply bool_decide_eq_true). by eexists.
Qed.

Lemma new_rep : rep NewVariable var_init.
Proof.
  split_and!; [done..|]. exists []. split_and!; [done|done|apply NoDup_singleton|]. intros x. cbn. rewrite list_elem_of_singleton.
  destruct (decide (x = 1%positive)) as [->|Hne]; [rewrite lookup_singleton_eq; naive_solver|]. rewrite lookup_singleton_ne by done. split; [by intros []|done].
Qed.

#[export] Program Instance ThreadedVar_queue : VarQueue ThreadedVar := {|
  vq_new := NewVariable; vq_append_read := AppendReadDependency; vq_append_write := AppendWriteDependency;
  vq_complete_read := CompleteReadDependency; vq_complete_write := CompleteWriteDependency; vq_set_to_delete := SetToDelete;
  vq_ready_to_read := ready_to_read; vq_rep := rep; vq_new_rep := new_rep; vq_append_read_rep := append_read_rep; vq_append_write_rep := append_write_rep;
  vq_complete_read_rep := complete_read_rep; vq_complete_write_rep := complete_write_rep; vq_delete_rep := delete_rep |}.
Next Obligation. intros v q (Hn & Hd & Hv & Hp & Hl). by split_and!. Qed.
Next Obligation. intros v q (_ & _ & _ & Hp & _). unfold ready_to_read. by apply bool_decide_ext. Qed.

(** ** Traces of one variable *)
Inductive var_op := ReadArrives (o : nat) | WriteArrives (o : nat) | ReadCompletes | WriteCompletes.

(** One operation, and the operations it lets run. *)
Definition spec_var_step (q : VarState) (op : var_op) : option (VarState * list nat) :=
  match op with
  | ReadArrives o => let '(q, b) := spec_append_read o q in Some (q, if b then [o] else [])
  | WriteArrives o => let '(q, b) := spec_append_write o q in Some (q, if b then [o] else [])
  | ReadCompletes => if 0 <? vs_reads q then let '(q, t) := spec_complete_read q in Some (q, option_list t) else None
  | WriteCompletes => if vs_reads q =? -1 then Some (spec_complete_write q) else None
  end.

Definition var_step (v : ThreadedVar) (op : var_op) : result (ThreadedVar * list nat) :=
  match op with
  | ReadArrives o => r ← AppendReadDependency o v; Ok (r.1, if (r : ThreadedVar * bool).2 then [o] else [])
  | WriteArrives o => r ← AppendWriteDependency o v; Ok (r.1, if (r : ThreadedVar * bool).2 then [o] else [])
  | ReadCompletes => r ← CompleteReadDependency v; Ok (r.1, option_list r.2)
  | WriteCompletes => r ← CompleteWriteDependency v; Ok (r.1.1, r.2)
  end.

Fixpoint spec_var_run (q : VarState) (ops : list var_op) : option (VarState * list (list nat)) :=
  match ops with
  | [] => Some (q, [])
  | op :: ops => match spec_var_step q op with
                 | Some (q, t) => match spec_var_run q ops with Some (q, ts) => Some (q, t :: ts) | None => None end
                 | None => None
                 end
  end.

Fixpoint var_run (v : ThreadedVar) (ops : list var_op) : result (ThreadedVar * list (list nat)) :=
  match ops with
  | [] => Ok (v, [])
  | op :: ops => r ← var_step v op; r' ← var_run r.1 ops; Ok (r'.1, r.2 :: r'.2)
  end.

(** A running write is the first of the queue. *)
Definition var_inv (q : VarState) : Prop := var_wf q ∧ vs_delete q = false.

Lemma var_step_refines v q op q' t : rep v q → var_inv q → spec_var_step q op = Some (q', t) →
  ∃ v', var_step v op = Ok (v', t) ∧ rep v' q' ∧ var_inv q'.
Proof.
  intros Hr [Hwf Hd] Hs. destruct op as [o|o| |]; cbn [spec_var_step var_step] in *.
  - destruct (append_read_rep v q o Hr Hwf) as (v' & -> & Hr'). destruct (spec_append_read o q) as [q1 b] eqn:E. injection Hs as <- <-.
    exists v'. split_and!; [done|done|]. unfold spec_append_read, var_inv, var_wf in *. destruct (vs_queue q) as [|[o' w] l]; injection E as <- <-; cbn; split; try done; lia.
  - destruct (append_write_rep v q o Hr Hwf) as (v' & -> & Hr'). destruct (spec_append_write o q) as [q1 b] eqn:E. injection Hs as <- <-.
    exists v'. split_and!; [done|done|]. unfold spec_append_write, var_inv, var_wf in *. injection E as <- <-. cbn [vs_queue vs_reads vs_delete].
    split; [|done]. destruct (vs_queue q) as [|[o' w] l]; cbn [List.app]; [|by rewrite bool_decide_false by done].
    rewrite bool_decide_true by done. cbn [andb]. split; [done|]. destruct (Z.eqb_spec (vs_reads q) 0); [by left|right; lia].
  - destruct (Z.ltb_spec 0 (vs_reads q)) as [Hp|]; [|done]. destruct (complete_read_rep v q Hr Hp) as (v' & -> & Hr').
    destruct (spec_complete_read q) as [q1 x] eqn:E. injection Hs as <- <-. exists v'. split_and!; [done|done|].
    unfold spec_complete_read, var_inv, var_wf in *. destruct (vs_queue q) as [|[o' w] l] eqn:Eq; [injection E as <- <-; cbn; rewrite ?Eq; split; [lia|done]|].
    destruct (Z.eqb_spec (vs_reads q) 1); injection E as <- <-; cbn; rewrite ?Eq; split; try done; split; try apply Hwf; [by left|right; lia].
  - destruct (Z.eqb_spec (vs_reads q) (-1)) as [Hm|]; [|done]. injection Hs as Hs. unfold var_wf in Hwf.
    destruct (vs_queue q) as [|[o' w] l] eqn:Eq; [lia|]. destruct Hwf as [-> _]. destruct (complete_write_rep v q o' l Hr Hm Eq Hd) as (v' & -> & Hr').
    exists v'. rstep. replace t with (spec_complete_write q).2 by (by rewrite Hs). replace q' with (spec_complete_write q).1 by (by rewrite Hs). split_and!; [done|done|].
    clear -Hd. unfold spec_complete_write, var_inv, var_wf. pose proof (front_reads_rest (tail (vs_queue q))) as Hf.
    destruct (front_reads (tail (vs_queue q))) as [rs rest]. cbn [fst snd vs_queue vs_reads vs_delete] in *. split; [|done].
    destruct rest as [|[o w] rest]; [destruct rs; cbn; lia|]. split; [done|]. destruct rs; [by left|right; cbn; lia].
Qed.

Lemma var_run_refines ops : ∀ v q0 q ts, rep v q0 → var_inv q0 → spec_var_run q0 ops = Some (q, ts) →
  ∃ v', var_run v ops = Ok (v', ts) ∧ rep v' q.
Proof.
  induction ops as [|op ops IH]; intros v q0 q ts Hr Hi Hs; cbn in Hs |- *; [injection Hs as <- <-; eauto|].
  destruct (spec_var_step q0 op) as [[q1 t]|] eqn:E1; [|done]. destruct (spec_var_run q1 ops) as [[q2 ts']|] eqn:E2; [|done]. injection Hs as <- <-.
  destruct (var_step_refines v q0 op q1 t Hr Hi E1) as (v1 & -> & Hr1 & Hi1). rstep.
  destruct (IH v1 q1 q2 ts' Hr1 Hi1 E2) as (v2 & -> & Hr2). rstep. by exists v2.
Qed.

(** C18: the linked list of a variable is the queue it stands for.  For every sequence of
    arriving and completing reads and writes that the queue allows, starting from a new
    variable, the pointer code runs without failing a check or touching memory it does not
    own, lets the same operations run at every step, and ends with exactly one block for
    every waiting operation and one more: no block is lost or leaked. *)
Theorem var_queue_refines ops q ts :
  spec_var_run var_init ops = Some (q, ts) →
  ∃ v, var_run NewVariable ops = Ok (v, ts) ∧ rep v q ∧ size (blocks v) = S (length (vs_queue q)).
Proof.
  intros Hs. destruct (var_run_refines ops NewVariable var_init q ts) as (v & Hv & Hr); [apply new_rep|by split|done|].
  exists v. split_and!; [done|done|]. destruct Hr as (_ & _ & _ & _ & Hl). by apply linked_size in Hl.
Qed.

(** A write behind two reads, with a read behind it. *)
Lemma var_queue_refines_witness :
  ∃ v, var_run NewVariable [ReadArrives 0; ReadArrives 1; WriteArrives 2; ReadArrives 3; ReadCompletes; ReadCompletes; WriteCompletes]
    = Ok (v, [[0]; [1]; []; []; []; [2]; [3]]%nat) ∧ size (blocks v) = 1%nat.
Proof.
  destruct (var_queue_refines [ReadArrives 0; ReadArrives 1; WriteArrives 2; ReadArrives 3; ReadCompletes; ReadCompletes; WriteCompletes]
    {| vs_reads := 1; vs_queue := []; vs_delete := false; vs_version := 1 |} [[0]; [1]; []; []; []; [2]; [3]]%nat) as (v & Hv & _ & Hs); [reflexivity|].
  exists v. split; [exact Hv|exact Hs].
Defined.
