(* ===== verification/Engine.v ===== *)
(** * The dependency engine

    Operations are pushed to the engine with the variables they read and the variables
    they change; the engine runs them on its worker threads as soon as no conflicting
    operation that was pushed before is left.  The model interleaves the pushing thread
    and the threads that run and complete operations, one locked section or one atomic
    decrement at a time.
    Sources: [ThreadedEngine] of src/src/engine/threaded_engine.h and
    src/src/engine/threaded_engine.cc, [Engine] of src/include/mxnet/engine.h and
    [NaiveEngine] of src/src/engine/naive_engine.cc.

    A program is the list of operations in the order in which they are pushed.  An
    operation is a function from the values of its variables to the new values of those
    it may change, and may throw; every push makes a temporary operator, as [PushAsync]
    does.  [PushToExecute], which belongs to the subclasses, may hold an operation back for
    any time: a dispatched operation starts at any later step.  [place_of] records where an
    operation is in the queue of a variable; the code does not have it and no step depends
    on it. *)

From Stdlib Require Import String.
From S2P Require Import Prelude EngineVar.
Local Open Scope Z_scope.

(** ** Operations and states *)
Record Opr (Val : Type) := {
  const_vars : list Z;
  mutable_vars : list Z;
  fn : list Val → list Val → list Val * bool;     (* new values of [mutable_vars]; whether it throws *)
  opr_wait : bool;                                (* pushed by [WaitForVar] *)
  deletes : bool                                  (* pushed by [DeleteVariable] *)
}.
Arguments const_vars {Val} _.
Arguments mutable_vars {Val} _.
Arguments fn {Val} _ _ _.
Arguments opr_wait {Val} _.
Arguments deletes {Val} _.

(** What a thread still has to do for an operation. *)
Inductive todo :=
  | AppendRead (v : Z) | AppendWrite (v : Z) | FinalDecr
  | Decr (o : nat) (v : Z) | CompleteRead (v : Z) | CompleteWrite (v : Z) | Finish.

Inductive phase (Val : Type) :=
  | NotPushed
  | Pushing (l : list todo)                        (* in [Push] *)
  | Waiting                                       (* for other operations *)
  | Ready                                         (* given to [PushToExecute] *)
  | Running (cs ms : list Val) (failed : bool)      (* in [fn]; values it sees, [opr_exception] *)
  | Completing (failed : bool) (l : list todo)      (* in [OnComplete] *)
  | Done.
Arguments NotPushed {Val}.
Arguments Pushing {Val} l.
Arguments Waiting {Val}.
Arguments Ready {Val}.
Arguments Running {Val} cs ms failed.
Arguments Completing {Val} failed l.
Arguments Done {Val}.

(** An operation in the queue of a variable: not there yet, waiting, released from the
    queue by a thread that has not yet told it, holding the variable, past it. *)
Inductive place := Fresh | Queued | Granted (by_ : nat) | Held | Released.

#[export] Instance place_eq_dec : EqDecision place.
Proof. solve_decision. Defined.

Record Engine (Val V : Type) := {
  next_ : nat;                                   (* operations pushed so far *)
  phase_of : nat → phase Val;
  wait_of : nat → Z;                              (* [OprBlock::wait] *)
  var_of : Z → option V;                          (* variables; none when deleted *)
  mem : Z → Val;                                  (* the arrays *)
  var_exception : Z → bool;
  pending_ : Z;
  place_of : nat → Z → place
}.
Arguments next_ {Val V} _.
Arguments phase_of {Val V} _ _.
Arguments wait_of {Val V} _ _.
Arguments var_of {Val V} _ _.
Arguments mem {Val V} _ _.
Arguments var_exception {Val V} _ _.
Arguments pending_ {Val V} _.
Arguments place_of {Val V} _ _ _.

Definition set {A B} `{EqDecision A} (f : A → B) (i : A) (x : B) : A → B := fun j => if decide (j = i) then x else f j.

Lemma set_eq {A B} `{EqDecision A} (f : A → B) i x : set f i x i = x.
Proof. unfold set. by rewrite decide_True. Qed.
Lemma set_ne {A B} `{EqDecision A} (f : A → B) i j x : j ≠ i → set f i x j = f j.
Proof. intros. unfold set. by rewrite decide_False. Qed.

(** [place_of] with the places of [os] in the queue of [v] set to [p]. *)
Definition move (f : nat → Z → place) (os : list nat) (v : Z) (p : place) : nat → Z → place :=
  fun i x => if decide (i ∈ os ∧ x = v) then p else f i x.

(** The arrays [vs] with the values [ys]. *)
Fixpoint write_vals {Val} (m : Z → Val) (vs : list Z) (ys : list Val) : Z → Val :=
  match vs, ys with
  | v :: vs, y :: ys => write_vals (set m v y) vs ys
  | _, _ => m
  end.

Section Model.
Context {Val V : Type} `{!VarQueue V}.
Context (P : list (Opr Val)).
Local Abbreviation Engine := (Engine Val V).

Definition set_phase (s : Engine) (i : nat) (p : phase Val) : Engine := {|
  next_ := next_ s; phase_of := set (phase_of s) i p; wait_of := wait_of s; var_of := var_of s; mem := mem s;
  var_exception := var_exception s; pending_ := pending_ s; place_of := place_of s |}.

Definition set_var (s : Engine) (v : Z) (x : option V) : Engine := {|
  next_ := next_ s; phase_of := phase_of s; wait_of := wait_of s; var_of := set (var_of s) v x; mem := mem s;
  var_exception := var_exception s; pending_ := pending_ s; place_of := place_of s |}.

Definition set_places (s : Engine) (os : list nat) (v : Z) (p : place) : Engine := {|
  next_ := next_ s; phase_of := phase_of s; wait_of := wait_of s; var_of := var_of s; mem := mem s;
  var_exception := var_exception s; pending_ := pending_ s; place_of := move (place_of s) os v p |}.

(** [OprBlock::decr_wait] *)
Definition decr_wait (s : Engine) (o : nat) : result (Engine * Z) :=
  let ret := wait_of s o - 1 in
  check (0 <=? ret) "Check failed: ret >= 0";;
  Ok ({| next_ := next_ s; phase_of := phase_of s; wait_of := set (wait_of s) o ret; var_of := var_of s; mem := mem s;
         var_exception := var_exception s; pending_ := pending_ s; place_of := place_of s |}, ret).

Definition get_var (s : Engine) (v : Z) : result V := of_option (Undefined "use of a deleted variable") (var_of s v).

(** ** [Push] *)
Definition is_pushing (p : phase Val) : bool := match p with Pushing _ => true | _ => false end.

(** A push begins; with [several] false there is one pushing thread. *)
Definition Push (several : bool) (s : Engine) : result Engine :=
  if negb several && match next_ s with S i => is_pushing (phase_of s i) | O => false end then Err (Blocked "the pushing thread is busy")
  else
    match P !! next_ s with
    | None => Err (Blocked "end of the program")
    | Some o =>
        let i := next_ s in
        let n := Z.of_nat (length (const_vars o) + length (mutable_vars o)) + 1 in
        Ok {| next_ := S i;
              phase_of := set (phase_of s) i (Pushing ((AppendRead <$> const_vars o) ++ (AppendWrite <$> mutable_vars o) ++ [FinalDecr]));
              wait_of := set (wait_of s) i n; var_of := var_of s; mem := mem s; var_exception := var_exception s;
              pending_ := pending_ s + 1; place_of := place_of s |}
    end.

(** One step of [Push]: [AppendReadDependency], [AppendWriteDependency], the last decrement. *)
Definition append (i : nat) (v : Z) (r : result (V * bool)) (l : list todo) (s : Engine) : result Engine :=
  x ← r;
  let s := set_phase (set_var (set_places s [i] v (if (x : V * bool).2 then Held else Queued)) v (Some x.1)) i (Pushing l) in
  if x.2 then d ← decr_wait s i; Ok d.1 else Ok s.

Definition push_step (i : nat) (t : todo) (l : list todo) (s : Engine) : result Engine :=
  match t with
  | AppendRead v => x ← get_var s v; append i v (vq_append_read i x) l s
  | AppendWrite v => x ← get_var s v; append i v (vq_append_write i x) l s
  | FinalDecr => d ← decr_wait s i; Ok (set_phase d.1 i (if (d : Engine * Z).2 =? 0 then Ready else Waiting))
  | _ => Err (Undefined "not a step of Push")
  end.

(** ** [ExecuteOprBlock] *)

(** [OnStart]: an exception of a variable is an exception of the operation. *)
Definition OnStart (o : Opr Val) (x : Z → bool) : bool := existsb x (const_vars o) || existsb x (mutable_vars o).

Definition start (i : nat) (o : Opr Val) (s : Engine) : Engine :=
  set_phase s i (Running (mem s <$> const_vars o) (mem s <$> mutable_vars o) (OnStart o (var_exception s))).

Definition completion (o : Opr Val) : list todo :=
  (CompleteRead <$> const_vars o) ++ (CompleteWrite <$> mutable_vars o) ++ [Finish].

(** [fn] is skipped when the operation carries an exception, unless it is a wait. *)
Definition execute (i : nat) (o : Opr Val) (cs ms : list Val) (failed : bool) (s : Engine) : Engine :=
  if failed && negb (opr_wait o) then set_phase s i (Completing true (completion o))
  else
    let '(out, threw) := fn o cs ms in
    set_phase
      {| next_ := next_ s; phase_of := phase_of s; wait_of := wait_of s;
         var_of := if deletes o then fun v => if bool_decide (v ∈ mutable_vars o) then vq_set_to_delete <$> var_of s v else var_of s v else var_of s;
         mem := write_vals (mem s) (mutable_vars o) out; var_exception := var_exception s; pending_ := pending_ s; place_of := place_of s |}
      i (Completing (failed || threw) (completion o)).

(** ** [OnComplete] *)
Definition complete_step (i : nat) (failed : bool) (t : todo) (l : list todo) (s : Engine) : result Engine :=
  match t with
  | CompleteRead v =>
      x ← get_var s v;
      r ← vq_complete_read x;
      let ts := option_list (r : V * option nat).2 in
      Ok (set_phase (set_var (set_places (set_places s [i] v Released) ts v (Granted i)) v (Some r.1)) i
            (Completing failed (((fun o => Decr o v) <$> ts) ++ l)))
  | CompleteWrite v =>
      x ← get_var s v;
      r ← vq_complete_write x;
      let '(x, to_delete, ts) := (r : V * bool * list nat) in
      let s := set_phase (set_var (set_places (set_places s [i] v Released) ts v (Granted i)) v (if to_delete then None else Some x)) i
                 (Completing failed (((fun o => Decr o v) <$> ts) ++ l)) in
      Ok {| next_ := next_ s; phase_of := phase_of s; wait_of := wait_of s; var_of := var_of s; mem := mem s;
            var_exception := if failed then set (var_exception s) v true else var_exception s; pending_ := pending_ s; place_of := place_of s |}
  | Decr o v =>
      d ← decr_wait s o;
      let s := set_places (set_phase d.1 i (Completing failed l)) [o] v Held in
      Ok (if (d : Engine * Z).2 =? 0 then set_phase s o Ready else s)
  | Finish =>
      let npending := pending_ s - 1 in
      check (0 <=? npending) "Check failed: npending >= 0";;
      Ok {| next_ := next_ s; phase_of := set (phase_of s) i Done; wait_of := wait_of s; var_of := var_of s; mem := mem s;
            var_exception := var_exception s; pending_ := npending; place_of := place_of s |}
  | _ => Err (Undefined "not a step of OnComplete")
  end.

(** One step of the thread that works on operation [i]. *)
Definition work (i : nat) (s : Engine) : result Engine :=
  match P !! i with
  | None => Err (Blocked "no such operation")
  | Some o =>
      match phase_of s i with
      | Pushing (t :: l) => push_step i t l s
      | Ready => Ok (start i o s)
      | Running cs ms failed => Ok (execute i o cs ms failed s)
      | Completing failed (t :: l) => complete_step i failed t l s
      | NotPushed | Waiting | Done => Err (Blocked "nothing to do")
      | Pushing [] | Completing _ [] => Err (Undefined "no such phase")
      end
  end.

(** A schedule says which thread moves. *)
Inductive choice := ChoosePush | Choose (i : nat).

Definition engine_step (several : bool) (s : Engine) (c : choice) : result Engine :=
  match c with ChoosePush => Push several s | Choose i => work i s end.

Definition engine_run (several : bool) : Engine → list choice → result Engine := foldM (engine_step several).

Definition engine_init (m : Z → Val) : Engine := {|
  next_ := 0; phase_of := fun _ => NotPushed; wait_of := fun _ => 0; var_of := fun _ => Some vq_new; mem := m;
  var_exception := fun _ => false; pending_ := 0; place_of := fun _ _ => Fresh |}.

Definition finished (s : Engine) : Prop := next_ s = length P ∧ ∀ i, (i < length P)%nat → phase_of s i = Done.

(** [WaitForAll] returns when [pending_] is 0. *)
Definition all_done (s : Engine) : bool := pending_ s =? 0.
End Model.

(** The operations that [WaitForVar] and [DeleteVariable] push. *)
Definition WaitForVar {Val} (var : Z) : Opr Val :=
  {| const_vars := [var]; mutable_vars := []; fn := fun _ _ => ([], false); opr_wait := true; deletes := false |}.
Definition DeleteVariable {Val} (delete_fn : Val → Val * bool) (var : Z) : Opr Val :=
  {| const_vars := []; mutable_vars := [var];
     fn := fun _ ms => match ms with [x] => ([(delete_fn x).1], (delete_fn x).2) | _ => (ms, false) end;
     opr_wait := false; deletes := true |}.

(** ** Reference: one operation after the other *)
Section Reference.
Context {Val : Type}.

(** The arrays and the exceptions of their variables after an operation. *)
Definition seq_step (o : Opr Val) (st : (Z → Val) * (Z → bool)) : (Z → Val) * (Z → bool) :=
  let '(m, x) := st in
  let failed := OnStart o x in
  if failed && negb (opr_wait o) then (m, fun v => bool_decide (v ∈ mutable_vars o) || x v)
  else
    let '(out, threw) := fn o (m <$> const_vars o) (m <$> mutable_vars o) in
    (write_vals m (mutable_vars o) out, if failed || threw then fun v => bool_decide (v ∈ mutable_vars o) || x v else x).

Fixpoint seq_run (P : list (Opr Val)) (n : nat) (m : Z → Val) : (Z → Val) * (Z → bool) :=
  match n with
  | O => (m, fun _ => false)
  | S n => match P !! n with Some o => seq_step o (seq_run P n m) | None => seq_run P n m end
  end.

(** [NaiveEngine::PushAsync] runs the function before it returns; an exception leaves it. *)
Definition naive_push (m : Z → Val) (o : Opr Val) : result (Z → Val) :=
  let '(out, threw) := fn o (m <$> const_vars o) (m <$> mutable_vars o) in
  if threw then Err (CheckFailed "exception of the operation") else Ok (write_vals m (mutable_vars o) out).

Definition naive_run (P : list (Opr Val)) (m : Z → Val) : result (Z → Val) := foldM naive_push m P.
End Reference.
