(* ===== verification/EngineInv.v ===== *)
(** * The dependency engine: invariant

    What holds in every state the engine of [Engine] can reach: first for the queue of one
    variable, then for all operations and variables together, with one lemma per step. *)

From stdpp Require Import sorting.
From S2P Require Import Prelude StdAlgo EngineVar Engine.
Local Open Scope Z_scope.

(** ** The queue of one variable *)
Definition active (p : place) : Prop := match p with Granted _ | Held => True | _ => False end.
Definition past (p : place) : Prop := active p ∨ p = Released.

#[export] Instance active_dec p : Decision (active p).
Proof. destruct p; cbn; apply _. Defined.

Ltac no_elem := intros; match goal with H : _ ∈ [] |- _ => by apply not_elem_of_nil in H end.

Lemma sorted_snoc (l : list nat) x : StronglySorted lt l → (∀ k, k ∈ l → (k < x)%nat) → StronglySorted lt (l ++ [x]).
Proof.
  intros Hs Hx. apply StronglySorted_app. split_and!; [|done|repeat constructor].
  intros a b Ha ->%list_elem_of_singleton. by apply Hx.
Qed.

Lemma past_fresh p : past p → p ≠ Fresh.
Proof. intros [H|H] ->; done. Qed.
Lemma past_queued p : past p → p ≠ Queued.
Proof. intros [H|H] ->; done. Qed.
Lemma place_cases p : p = Fresh ∨ p = Queued ∨ active p ∨ p = Released.
Proof. destruct p; cbn; tauto. Qed.

(** [U] the operations that use the variable, [W] those that change it, [col] their places,
    [hs] those that hold it. *)
Section Column.
Context (U W : nat → Prop).

Definition occupied (col : nat → place) (q : VarState) (hs : list nat) : Prop :=
  (vs_reads q = -1 ∧ ∃ i rest, vs_queue q = (i, true) :: rest ∧ hs = [i] ∧ ∀ k, col k = Queued ↔ k ∈ rest.*1) ∨
  (vs_reads q = Z.of_nat (length hs) ∧ (∀ i, i ∈ hs → ¬ W i) ∧ (∀ k, col k = Queued ↔ k ∈ (vs_queue q).*1) ∧
   match vs_queue q with [] => True | (_, w) :: _ => w = true ∧ hs ≠ [] end).

Record column (col : nat → place) (q : VarState) (hs : list nat) : Prop := {
  co_sorted : StronglySorted lt (vs_queue q).*1;
  co_flag : ∀ i w, (i, w) ∈ vs_queue q → (w = true ↔ W i);
  co_nodup : NoDup hs;
  co_holds : ∀ i, i ∈ hs ↔ active (col i);
  co_occupied : occupied col q hs;
  co_order : ∀ i k, past (col i) → col k = Queued → (i < k)%nat;
  co_prefix : ∀ i k, col k ≠ Fresh → (i < k)%nat → U i → col i ≠ Fresh;
  co_conflict : ∀ i k, (i < k)%nat → U i → W i ∨ W k → past (col k) → col i = Released
}.

Lemma column_wf col q hs : column col q hs → var_wf q.
Proof.
  intros H. unfold var_wf. destruct (co_occupied _ _ _ H) as [(Hr & i & rest & -> & _)|(Hr & _ & _ & Hm)]; [split; [done|by left]|].
  destruct (vs_queue q) as [|[i w] l]; [lia|]. destruct Hm as [-> Hm]. split; [done|]. right. destruct hs; [done|]. cbn in Hr. lia.
Qed.

Lemma column_queue col q hs k : column col q hs → k ∈ (vs_queue q).*1 → col k ≠ Fresh.
Proof.
  intros H Hk E. destruct (co_occupied _ _ _ H) as [(_ & i & rest & Hq & -> & Hqd)|(_ & _ & Hqd & _)].
  - rewrite Hq in Hk. apply elem_of_cons in Hk as [->|Hk].
    + assert (active (col i)) as Ha by (apply (co_holds _ _ _ H); by left). cbn in E. by rewrite E in Ha.
    + apply Hqd in Hk. congruence.
  - apply Hqd in Hk. congruence.
Qed.

(** An operation joins the end of the queue. *)
Lemma column_enqueue col col' q q' hs i w :
  column col q hs → (w = true ↔ W i) → col i = Fresh → (∀ k, col k ≠ Fresh → (k < i)%nat) → (∀ k, (k < i)%nat → U k → col k ≠ Fresh) →
  vs_reads q' = vs_reads q → vs_queue q' = vs_queue q ++ [(i, w)] → (vs_queue q = [] → w = true ∧ hs ≠ []) →
  (∀ k, col' k = if decide (k = i) then Queued else col k) → column col' q' hs.
Proof.
  intros H Hw Hi Hlast Hprev Hr' Hq' Hne Hcol. pose proof (fun k => column_queue col q hs k H) as Hcq. destruct H as [Hs Hfl Hnd Hh Hoc Ho Hp Hc].
  split; rewrite ?Hq'; try done.
  - rewrite fmap_app. apply sorted_snoc; [done|]. intros k Hk. by apply Hlast, Hcq.
  - intros k w' [?|Hk]%elem_of_app; [auto|]. apply list_elem_of_singleton in Hk. by injection Hk as -> ->.
  - intros k. rewrite Hh, Hcol. case_decide; [subst; rewrite Hi; done|done].
  - unfold occupied. rewrite Hr', Hq'. destruct Hoc as [(Hr & j & rest & Hq & Hhs & Hqd)|(Hr & Hrd & Hqd & Hm)].
    + left. split; [done|]. exists j, (rest ++ [(i, w)]). split_and!; [by rewrite Hq|done|].
      intros k. rewrite fmap_app, elem_of_app, <- Hqd, Hcol. cbn. rewrite list_elem_of_singleton. case_decide; naive_solver.
    + right. split_and!; [done|done| |by destruct (vs_queue q) as [|[]]; [apply Hne|]].
      intros k. rewrite fmap_app, elem_of_app, <- Hqd, Hcol. cbn. rewrite list_elem_of_singleton. case_decide; naive_solver.
  - intros k1 k2 Hpast E. rewrite Hcol in Hpast, E. apply past_fresh in Hpast as Hf. destruct (decide (k1 = i)) as [->|]; [by apply past_queued in Hpast|].
    destruct (decide (k2 = i)) as [->|]; eauto.
  - intros k1 k2 E Hlt HU. rewrite Hcol in E |- *. destruct (decide (k1 = i)) as [->|]; [done|]. destruct (decide (k2 = i)) as [->|]; eauto.
  - intros k1 k2 Hlt HU Hconf Hpast. rewrite Hcol in Hpast |- *. apply past_fresh in Hpast as Hf. apply past_queued in Hpast as Hf'.
    destruct (decide (k2 = i)) as [->|]; [done|]. destruct (decide (k1 = i)) as [->|]; [specialize (Hlast k2 Hf); lia|eauto].
Qed.

(** An operation that finds an empty queue holds the variable at once. *)
Lemma column_hold col col' q q' hs i :
  column col q hs → col i = Fresh → (∀ k, col k ≠ Fresh → (k < i)%nat) → (∀ k, (k < i)%nat → U k → col k ≠ Fresh) →
  vs_queue q = [] → (W i → hs = []) → (∀ j w, (j, w) ∈ vs_queue q' → j = i ∧ (w = true ↔ W i)) → StronglySorted lt (vs_queue q').*1 →
  (∀ k, col' k = if decide (k = i) then Held else col k) → ((∀ k, col' k ≠ Queued) → occupied col' q' (i :: hs)) → column col' q' (i :: hs).
Proof.
  intros H Hi Hlast Hprev Hq Hw Hfl' Hs' Hcol Hoc'. destruct H as [Hs Hfl Hnd Hh Hoc Ho Hp Hc].
  destruct Hoc as [(_ & ? & ? & ? & _)|(Hr & Hrd & Hqd & _)]; [congruence|]. rewrite Hq in Hqd.
  assert (∀ k, col k ≠ Queued) as Hnq by (intros k E%Hqd; by apply not_elem_of_nil in E).
  assert (∀ k, col' k ≠ Queued) as Hnq' by (intros k; rewrite Hcol; by case_decide).
  split; try done.
  - intros j w Hj. by destruct (Hfl' j w Hj) as [-> ?].
  - apply NoDup_cons. split; [|done]. rewrite Hh, Hi. intros [].
  - intros k. rewrite elem_of_cons, Hh, Hcol. case_decide; [subst; cbn; naive_solver|naive_solver].
  - by apply Hoc'.
  - intros k1 k2 _ E. by destruct (Hnq' k2).
  - intros k1 k2 E Hlt HU. rewrite Hcol in E |- *. destruct (decide (k1 = i)) as [->|]; [done|]. destruct (decide (k2 = i)) as [->|]; eauto.
  - intros k1 k2 Hlt HU Hconf Hpast. rewrite Hcol in Hpast |- *. destruct (decide (k2 = i)) as [->|Ek].
    + rewrite decide_False by lia. destruct (place_cases (col k1)) as [E|[E|[E|E]]]; [by destruct (Hprev k1)|by destruct (Hnq k1)| |done].
      apply Hh in E. destruct Hconf as [?|Hwi]; [by destruct (Hrd k1)|]. rewrite (Hw Hwi) in E. by apply not_elem_of_nil in E.
    + apply past_fresh in Hpast as Hf. destruct (decide (k1 = i)) as [->|]; [specialize (Hlast k2 Hf); lia|eauto].
Qed.

Lemma column_append_read col col' q hs i :
  column col q hs → ¬ W i → col i = Fresh → (∀ k, col k ≠ Fresh → (k < i)%nat) → (∀ k, (k < i)%nat → U k → col k ≠ Fresh) →
  (∀ k, col' k = if decide (k = i) then (if (spec_append_read i q).2 then Held else Queued) else col k) →
  ∃ hs', column col' (spec_append_read i q).1 hs'.
Proof.
  intros H Hw Hi Hlast Hprev Hcol. unfold spec_append_read in *. destruct (vs_queue q) as [|e l] eqn:Eq.
  - exists (i :: hs). apply (column_hold col _ q); try done; [by intros ? ? ?%not_elem_of_nil|constructor|].
    intros Hnq. destruct (co_occupied _ _ _ H) as [(_ & ? & ? & ? & _)|(Hr & Hrd & _ & _)]; [congruence|].
    right. cbn. split_and!; [lia| | |done].
    + intros k [->|Hk]%elem_of_cons; auto.
    + intros k. split; [by intros ?%Hnq|by intros ?%not_elem_of_nil].
  - exists hs. apply (column_enqueue col _ q _ _ i false); cbn; rewrite ?Eq; done.
Qed.

Lemma column_append_write col col' q hs i :
  column col q hs → W i → col i = Fresh → (∀ k, col k ≠ Fresh → (k < i)%nat) → (∀ k, (k < i)%nat → U k → col k ≠ Fresh) →
  (∀ k, col' k = if decide (k = i) then (if (spec_append_write i q).2 then Held else Queued) else col k) →
  ∃ hs', column col' (spec_append_write i q).1 hs'.
Proof.
  intros H Hw Hi Hlast Hprev Hcol. unfold spec_append_write in *. cbn [fst snd] in *.
  destruct (bool_decide (vs_queue q = []) && (vs_reads q =? 0)) eqn:Eb.
  - apply andb_true_iff in Eb as [Eq%bool_decide_eq_true Er%Z.eqb_eq].
    destruct (co_occupied _ _ _ H) as [(? & _)|(Hr & _)]; [lia|]. destruct hs; [|cbn in Hr; lia].
    exists [i]. apply (column_hold col _ q); try done; cbn [vs_queue].
    + rewrite Eq. intros j w Hj. apply list_elem_of_singleton in Hj. by injection Hj as -> ->.
    + rewrite Eq. repeat constructor.
    + intros Hnq. left. cbn [vs_reads vs_queue]. split; [done|]. exists i, []. rewrite Eq. split_and!; [done|done|].
      intros k. split; [by intros ?%Hnq|by intros ?%not_elem_of_nil].
  - exists hs. apply (column_enqueue col _ q _ _ i true); cbn; try done.
    intros Eq. split; [done|]. rewrite Eq, bool_decide_true in Eb by done. apply Z.eqb_neq in Eb.
    destruct (co_occupied _ _ _ H) as [(_ & ? & ? & ? & _)|(Hr & _)]; [congruence|]. intros ->. by cbn in Hr.
Qed.

(** An operation that holds the variable lets it go, and the operations [ts] hold it next. *)
Definition handed (col col' : nat → place) (i : nat) (ts : list nat) : Prop :=
  ∀ k, col' k = if decide (k ∈ ts) then Granted i else if decide (k = i) then Released else col k.

Lemma handed_nil col col' i : handed col col' i [] → ∀ k, col' k = if decide (k = i) then Released else col k.
Proof. intros H k. rewrite H, decide_False; [done|]. apply not_elem_of_nil. Qed.

Lemma handed_active col col' i ts : handed col col' i ts → (∀ k, k ∈ [i] ↔ active (col k)) → ∀ k, k ∈ ts ↔ active (col' k).
Proof.
  intros H Hh k. rewrite H. case_decide; [done|]. case_decide; [done|]. rewrite <- Hh, list_elem_of_singleton. done.
Qed.

Lemma handed_queued col col' i ts rest :
  handed col col' i ts → (∀ k, col k = Queued ↔ k ∈ ts ++ rest) → NoDup (ts ++ rest) → active (col i) → ∀ k, col' k = Queued ↔ k ∈ rest.
Proof.
  intros H Hq Hnd Ha k. apply NoDup_app in Hnd as (_ & Hd & _). rewrite H. case_decide as Hk; [split; [done|]; intros Hk'; by destruct (Hd k)|].
  case_decide as Hi; [subst|rewrite Hq, elem_of_app; naive_solver]. split; [done|]. intros Hk'.
  assert (col i = Queued) as E by (apply Hq, elem_of_app; by right). by rewrite E in Ha.
Qed.

Lemma column_holder col q hs i : column col q hs → active (col i) →
  (W i ∧ vs_reads q = -1 ∧ hs = [i] ∧ ∃ rest, vs_queue q = (i, true) :: rest ∧ ∀ k, col k = Queued ↔ k ∈ rest.*1) ∨
  (¬ W i ∧ vs_reads q = Z.of_nat (length hs) ∧ (∀ k, k ∈ hs → ¬ W k) ∧ (∀ k, col k = Queued ↔ k ∈ (vs_queue q).*1) ∧
   match vs_queue q with [] => True | (_, w) :: _ => w = true ∧ hs ≠ [] end).
Proof.
  intros H Ha. apply (co_holds _ _ _ H) in Ha. destruct (co_occupied _ _ _ H) as [(Hr & j & rest & Hq & -> & Hqd)|(Hr & Hrd & Hqd & Hm)].
  - apply list_elem_of_singleton in Ha as ->. left. split_and!; [|done|done|by exists rest].
    apply (co_flag _ _ _ H j true); [rewrite Hq; by left|done].
  - right. split_and!; auto.
Qed.

(** The parts of the invariant that do not depend on what the queue looks like. *)
Lemma column_hand_over col col' q q' hs hs' i ts rest :
  column col q hs → active (col i) → handed col col' i ts →
  (∀ k, col k = Queued ↔ k ∈ ts ++ rest) → StronglySorted lt (ts ++ rest) → (∀ k, k ∈ ts → hs = [i]) →
  (∀ k1 k2, k1 ∈ ts → k2 ∈ ts → (k1 < k2)%nat → ¬ W k1 ∧ ¬ W k2) →
  (∀ j w, (j, w) ∈ vs_queue q' → (j, w) ∈ vs_queue q) → StronglySorted lt (vs_queue q').*1 →
  NoDup hs' → (∀ k, k ∈ hs' ↔ active (col' k)) → occupied col' q' hs' → column col' q' hs'.
Proof.
  intros H Hact Hcol Hqd Hst Hall Hts Hsub Hs' Hnd' Hh' Hoc'. destruct H as [Hs Hfl Hnd Hh Hoc Ho Hp Hc].
  assert (∀ k, k ∈ ts → col k = Queued) as Hq by (intros k Hk; apply Hqd, elem_of_app; by left).
  assert (∀ k, past (col' k) → col' k = col k ∨ k ∈ ts ∨ k = i) as Hpast' by (intros k; rewrite Hcol; repeat case_decide; auto).
  assert (∀ k, col' k = Queued → col k = Queued ∧ k ∈ rest) as Hq'.
  { intros k. rewrite Hcol. repeat case_decide; try done. intros E. split; [done|]. apply Hqd, elem_of_app in E as [?|?]; done. }
  apply StronglySorted_app in Hst as (Hlt & Hst & _).
  split; try done.
  - intros j w Hj. by apply Hfl, Hsub.
  - intros k1 k2 Hp1 E2. apply Hq' in E2 as [E2 Hr2]. destruct (Hpast' k1 Hp1) as [E|[Hk| ->]]; [rewrite E in Hp1; eauto|auto|]. apply Ho; [by left|done].
  - intros k1 k2 E Hlt' HU. rewrite (Hcol k2) in E. rewrite (Hcol k1). destruct (decide (k1 ∈ ts)); [done|]. destruct (decide (k1 = i)); [done|]. apply (Hp k1 k2); [|done|done].
    destruct (decide (k2 ∈ ts)) as [Hk|]; [by rewrite Hq|]. destruct (decide (k2 = i)) as [->|]; [|done]. intros Ef. by rewrite Ef in Hact.
  - intros k1 k2 Hlt' HU Hconf Hpast. destruct (Hpast' k2 Hpast) as [E|[Hk| ->]].
    + rewrite E in Hpast. rewrite Hcol, (Hc k1 k2) by done. rewrite decide_False; [by case_decide|]. intros Hk%Hq. rewrite (Hc k1 k2) in Hk by done. done.
    + rewrite Hcol. destruct (decide (k1 ∈ ts)) as [Hk1|Hk1]; [destruct (Hts k1 k2 Hk1 Hk Hlt'); naive_solver|].
      case_decide; [done|]. destruct (place_cases (col k1)) as [E|[E|[E|E]]]; [|apply Hqd, elem_of_app in E as [?|E]; [done|]| |done].
      * destruct (Hp k1 k2); [by rewrite Hq|done|done|done].
      * specialize (Hlt k2 k1 Hk E). lia.
      * apply Hh in E. rewrite (Hall k2 Hk) in E. by apply list_elem_of_singleton in E.
    + rewrite Hcol, (Hc k1 i) by (done || by left). rewrite decide_False; [by case_decide|]. intros Hk%Hq. rewrite (Hc k1 i) in Hk by (done || by left). done.
Qed.

Lemma column_release_read col col' q hs i :
  column col q hs → active (col i) → ¬ W i → handed col col' i (option_list (spec_complete_read q).2) →
  0 < vs_reads q ∧ (∃ hs', column col' (spec_complete_read q).1 hs') ∧
  (∀ k, k ∈ option_list (spec_complete_read q).2 → col k = Queued) ∧ NoDup (option_list (spec_complete_read q).2).
Proof.
  intros H Ha Hw Hcol. destruct (column_holder _ _ _ _ H Ha) as [(? & _)|(_ & Hr & Hrd & Hqd & Hm)]; [done|].
  assert (i ∈ hs) as Hi by (by apply (co_holds _ _ _ H)). apply elem_of_Permutation in Hi as [hs0 Hperm].
  pose proof (co_nodup _ _ _ H) as Hnd. pose proof (co_holds _ _ _ H) as Hh. pose proof (co_sorted _ _ _ H) as Hs.
  rewrite Hperm in Hnd. apply NoDup_cons in Hnd as [Hni Hnd0]. rewrite Hperm in Hr. cbn [length] in Hr. split; [lia|].
  unfold spec_complete_read in *.
  assert (∀ k, k ≠ i → k ∈ hs0 ↔ active (col k)) as Hh0 by (intros k Hk; rewrite <- Hh, Hperm, elem_of_cons; naive_solver).
  destruct (vs_queue q) as [|[o w] l] eqn:Eq; [|destruct (Z.eqb_spec (vs_reads q) 1) as [E1|E1]]; cbn [fst snd option_list] in *.
  - split_and!; [|by intros ? ?%not_elem_of_nil|constructor]. exists hs0. eapply (column_hand_over col _ q _ hs _ i [] []); try done; cbn [vs_queue]; try no_elem.
    + intros k. rewrite (handed_nil _ _ _ Hcol). case_decide; [subst; split; [done|intros []]|by apply Hh0].
    + right. cbn. rewrite ?Eq. split_and!; [lia| | |done].
      * intros k Hk. apply Hrd. rewrite Hperm. by right.
      * intros k. rewrite (handed_nil _ _ _ Hcol). case_decide; [split; [done|by intros ?%not_elem_of_nil]|apply Hqd].
  - destruct hs0; [|cbn in Hr; lia]. destruct Hm as [-> _]. apply Permutation_singleton_r in Hperm as ->. cbn in Hs, Hqd. apply StronglySorted_inv in Hs as Hs'.
    change (handed col col' i [o]) in Hcol. split_and!; [|intros k ->%list_elem_of_singleton; apply Hqd; by left|apply NoDup_singleton]. exists [o]. assert (o ≠ i) as Hoi. { intros ->. assert (col i = Queued) as E by (apply Hqd; by left). by rewrite E in Ha. }
    eapply (column_hand_over col _ q _ [i] _ i [o] l.*1); try done; cbn [vs_queue].
    + intros k1 k2 ->%list_elem_of_singleton ->%list_elem_of_singleton. lia.
    + by rewrite Eq.
    + apply NoDup_singleton.
    + intros k. rewrite list_elem_of_singleton, Hcol. destruct (decide (k ∈ [o])) as [Hk|Hk]; rewrite list_elem_of_singleton in Hk; [naive_solver|].
      case_decide; [subst; split; [done|intros []]|]. rewrite <- Hh0 by done. split; [done|by intros ?%not_elem_of_nil].
    + left. cbn [vs_reads vs_queue]. rewrite ?Eq. split; [done|]. exists o, l. split_and!; [done|done|].
      intros k. rewrite Hcol. destruct (decide (k ∈ [o])) as [Hk|Hk]; rewrite list_elem_of_singleton in Hk.
      * subst. split; [done|]. intros Hk. destruct Hs' as [_ Hs']. rewrite Forall_forall in Hs'. specialize (Hs' _ Hk). lia.
      * case_decide; [subst|rewrite Hqd, elem_of_cons; naive_solver]. split; [done|]. intros Hk'.
        assert (col i = Queued) as E by (apply Hqd; by right). by rewrite E in Ha.
  - split_and!; [|by intros ? ?%not_elem_of_nil|constructor]. exists hs0. eapply (column_hand_over col _ q _ hs _ i [] (vs_queue q).*1); rewrite ?Eq; try done; cbn [vs_queue]; rewrite ?Eq; try done; try no_elem.
    + intros k. rewrite (handed_nil _ _ _ Hcol). case_decide; [subst; split; [done|intros []]|by apply Hh0].
    + right. cbn [vs_reads vs_queue]. rewrite ?Eq. split_and!; [lia| | |apply Hm|].
      * intros k Hk. apply Hrd. rewrite Hperm. by right.
      * intros k. rewrite (handed_nil _ _ _ Hcol). case_decide; [subst|apply Hqd]. split; [done|]. intros Hk'.
        assert (col i = Queued) as E by (by apply Hqd). by rewrite E in Ha.
      * intros ->. cbn in Hr. lia.
Qed.

Lemma column_release_write col col' q hs i :
  column col q hs → active (col i) → W i → handed col col' i (spec_complete_write q).2 →
  vs_reads q = -1 ∧ (∃ rest, vs_queue q = (i, true) :: rest) ∧ (∃ hs', column col' (spec_complete_write q).1 hs') ∧
  (∀ k, k ∈ (spec_complete_write q).2 → col k = Queued) ∧ NoDup (spec_complete_write q).2.
Proof.
  intros H Ha Hw Hcol. destruct (column_holder _ _ _ _ H Ha) as [(_ & Hr & -> & rest & Hq & Hqd)|(? & _)]; [|done].
  split; [done|]. split; [by exists rest|]. pose proof (co_sorted _ _ _ H) as Hs. pose proof (co_flag _ _ _ H) as Hfl. pose proof (co_holds _ _ _ H) as Hh.
  unfold spec_complete_write in *. rewrite Hq in *. cbn [tail] in *. cbn in Hs. apply StronglySorted_inv in Hs as [Hs Hi].
  pose proof (front_reads_app rest) as Happ. pose proof (front_reads_rest rest) as Hrest. destruct (front_reads rest) as [rs tl]. cbn [fst snd] in *.
  assert (rest.*1 = rs ++ tl.*1) as Hfst. { rewrite Happ, fmap_app, <- list_fmap_compose. f_equal. apply list_fmap_id. }
  assert (∀ k, k ∈ rs → ¬ W k) as Hrs. { intros k Hk. rewrite <- (Hfl k false); [done|]. right. rewrite Happ, elem_of_app. left. apply list_elem_of_fmap. by exists k. }
  rewrite Hfst in Hs, Hqd. pose proof (sorted_nodup _ Hs) as Hnd. apply StronglySorted_app in Hs as Hss. destruct Hss as (Hlt & Hsr & Hst).
  set (writer := match rs, tl with [], (o, _) :: _ => [o] | _, _ => [] end) in *. set (rest' := if bool_decide (writer = []) then tl.*1 else tail tl.*1).
  assert (rs ++ tl.*1 = (rs ++ writer) ++ rest') as Hsplit.
  { subst rest' writer. destruct rs; [destruct tl as [|[]]|]; cbn; [done|done|]. by rewrite app_nil_r. }
  rewrite Hsplit in Hqd, Hs, Hnd.
  assert (∀ j w, (j, w) ∈ tl → (j, w) ∈ (i, true) :: rest) as Hsub by (intros j w Hj; right; rewrite Happ; apply elem_of_app; by right).
  split_and!; [|intros k Hk; apply Hqd, elem_of_app; by left|by apply NoDup_app in Hnd as (Hnd & _ & _)].
  exists (rs ++ writer). eapply (column_hand_over col _ q _ [i] _ i (rs ++ writer) rest'); try done; cbn [vs_queue].
  - intros k1 k2 Hk1 Hk2 Hk. subst writer. destruct rs as [|r rs]; [destruct tl as [|[o w] tl]; cbn in *|rewrite app_nil_r in Hk1, Hk2; auto].
    + by apply not_elem_of_nil in Hk1.
    + apply list_elem_of_singleton in Hk1 as ->. apply list_elem_of_singleton in Hk2 as ->. lia.
  - by rewrite Hq.
  - by apply NoDup_app in Hnd as (Hnd & _ & _).
  - by apply (handed_active col _ i).
  - pose proof (handed_queued _ _ _ _ _ Hcol Hqd Hnd Ha) as Hqd'. subst writer rest'. unfold occupied. cbn [vs_reads vs_queue].
    destruct rs as [|r rs]; [destruct tl as [|[o w] tl]|]; cbn [List.app fmap list_fmap tail length] in *.
    + right. rewrite bool_decide_true in * by done. split_and!; done.
    + left. rewrite bool_decide_false in * by done. split; [done|]. subst w. by exists o, tl.
    + right. rewrite app_nil_r, bool_decide_true in * by done. split_and!; [done|done|done|]. destruct tl as [|[]]; done.
Qed.

Lemma column_told col col' q hs i j :
  column col q hs → col i = Granted j → (∀ k, col' k = if decide (k = i) then Held else col k) → column col' q hs.
Proof.
  intros H Hi Hcol. destruct H as [Hs Hfl Hnd Hh Hoc Ho Hp Hc].
  assert (∀ k, col' k = Queued ↔ col k = Queued) as Hq by (intros k; rewrite Hcol; case_decide; [subst; rewrite Hi; done|done]).
  assert (∀ k, active (col' k) ↔ active (col k)) as Hact by (intros k; rewrite Hcol; case_decide; [subst; rewrite Hi; done|done]).
  assert (∀ k, col' k = Released ↔ col k = Released) as Hrel by (intros k; rewrite Hcol; case_decide; [subst; rewrite Hi; done|done]).
  assert (∀ k, col' k = Fresh ↔ col k = Fresh) as Hfr by (intros k; rewrite Hcol; case_decide; [subst; rewrite Hi; done|done]).
  assert (∀ k, past (col' k) ↔ past (col k)) as Hpast by (intros k; unfold past; by rewrite Hact, Hrel).
  split; try done.
  - intros k. rewrite Hact. apply Hh.
  - destruct Hoc as [(? & j' & rest & ? & ? & Hq')|(? & ? & Hq' & ?)]; [left|right].
    + split; [done|]. exists j', rest. split_and!; [done|done|]. intros k. by rewrite Hq.
    + split_and!; [done|done| |done]. intros k. by rewrite Hq.
  - intros k1 k2. rewrite Hpast, Hq. apply Ho.
  - intros k1 k2. rewrite !Hfr. apply Hp.
  - intros k1 k2. rewrite Hpast, Hrel. apply Hc.
Qed.

Lemma column_ext col col' q hs : column col q hs → (∀ k, col' k = col k) → column col' q hs.
Proof.
  intros H He. destruct H as [Hs Hfl Hnd Hh Hoc Ho Hp Hc]. split; try done.
  - intros k. rewrite He. apply Hh.
  - destruct Hoc as [(? & j' & rest & ? & ? & Hq')|(? & ? & Hq' & ?)]; [left|right].
    + split; [done|]. exists j', rest. split_and!; [done|done|]. intros k. by rewrite He.
    + split_and!; [done|done| |done]. intros k. by rewrite He.
  - intros k1 k2. rewrite !He. apply Ho.
  - intros k1 k2. rewrite !He. apply Hp.
  - intros k1 k2. rewrite !He. apply Hc.
Qed.

Lemma column_init : column (fun _ => Fresh) var_init [].
Proof.
  split; cbn; try done.
  - constructor.
  - intros i w. no_elem.
  - constructor.
  - intros i. split; [by intros ?%not_elem_of_nil|intros []].
  - right. split_and!; try done; [intros i; no_elem|]. intros k. split; [done|by intros ?%not_elem_of_nil].
  - intros i k _ _ _ [Hp|Hp]; [destruct Hp|done].
Qed.

(** Of two operations that hold the variable, neither changes it. *)
Lemma column_exclusive col q hs i k : column col q hs → U i → U k → active (col i) → active (col k) → W i → i = k.
Proof.
  intros H HUi HUk Hi Hk Hw. destruct (Nat.lt_trichotomy i k) as [Hlt|[?|Hlt]]; [|done|].
  - rewrite (co_conflict _ _ _ H i k) in Hi; [done|done|done|by left|by left].
  - rewrite (co_conflict _ _ _ H k i) in Hk; [done|done|done|by right|by left].
Qed.
End Column.

(** ** The engine *)

(** Whether an operation has still to be granted its place. *)
Definition unready (p : place) : bool := match p with Fresh | Queued | Granted _ => true | _ => false end.

Definition todo_of {Val} (p : phase Val) : list todo := match p with Pushing l | Completing _ l => l | _ => [] end.

Section Invariant.
Context {Val V : Type} `{!VarQueue V}.
Context (P : list (Opr Val)).
Local Abbreviation Engine := (Engine Val V).

Definition vars_of (i : nat) : list Z := match P !! i with Some o => const_vars o ++ mutable_vars o | None => [] end.
Definition uses (v : Z) (i : nat) : Prop := v ∈ vars_of i.
Definition writes (v : Z) (i : nat) : Prop := match P !! i with Some o => v ∈ mutable_vars o | None => False end.

#[export] Instance uses_dec v i : Decision (uses v i).
Proof. unfold uses. apply _. Defined.

(** What the engine asks of its clients: an operation names a variable once, and a deleted
    variable is not used any more. *)
Definition wf_program : Prop :=
  ∀ i o, P !! i = Some o → NoDup (const_vars o ++ mutable_vars o) ∧
    (deletes o = true → ∀ k v, (i < k)%nat → v ∈ mutable_vars o → ¬ uses v k).

Definition phase_ok (s : Engine) (i : nat) (o : Opr Val) : Prop :=
  let at_ v := place_of s i v in
  match phase_of s i with
  | NotPushed => False
  | Pushing l => S i = next_ s ∧ ∃ cs ms, l = (AppendRead <$> cs) ++ (AppendWrite <$> ms) ++ [FinalDecr] ∧
      cs `suffix_of` const_vars o ∧ ms `suffix_of` mutable_vars o ∧
      ∀ v, uses v i → (at_ v = Fresh ↔ v ∈ cs ++ ms) ∧ at_ v ≠ Released
  | Waiting => wait_of s i ≠ 0 ∧ ∀ v, uses v i → at_ v ≠ Fresh ∧ at_ v ≠ Released
  | Ready | Running _ _ _ => ∀ v, uses v i → at_ v = Held
  | Completing _ l => ∃ ds cs ms, l = ((fun d : nat * Z => Decr d.1 d.2) <$> ds) ++ (CompleteRead <$> cs) ++ (CompleteWrite <$> ms) ++ [Finish] ∧
      NoDup ds ∧ cs `suffix_of` const_vars o ∧ ms `suffix_of` mutable_vars o ∧
      ∀ v, uses v i → at_ v = if decide (v ∈ cs ++ ms) then Held else Released
  | Done => ∀ v, uses v i → at_ v = Released
  end.

Definition unready_count (s : Engine) (i : nat) : nat := length (List.filter (fun v => unready (place_of s i v)) (vars_of i)).
Definition unfinished (s : Engine) : nat := length (List.filter (fun i => match phase_of s i with Done => false | _ => true end) (seq 0 (next_ s))).

(** A variable whose deletion has been requested, and by whom. *)
Definition deleted_by (v : Z) (i : nat) : Prop := ∃ o, P !! i = Some o ∧ deletes o = true ∧ v ∈ mutable_vars o.

Definition var_ok (s : Engine) (v : Z) : Prop :=
  ∃ q hs, column (uses v) (writes v) (fun i => place_of s i v) q hs ∧
    match var_of s v with
    | Some x => vq_rep x q ∧ (vs_delete q = true → ∃ i, deleted_by v i ∧ place_of s i v = Held)
    | None => ∃ i, deleted_by v i ∧ place_of s i v = Released
    end.

Record inv (s : Engine) : Prop := {
  iv_next : (next_ s ≤ length P)%nat;
  iv_fresh : ∀ i, (next_ s ≤ i)%nat → phase_of s i = NotPushed ∧ ∀ v, place_of s i v = Fresh;
  iv_outside : ∀ i v, ¬ uses v i → place_of s i v = Fresh;
  iv_phase : ∀ i o, P !! i = Some o → (i < next_ s)%nat → phase_ok s i o;
  iv_wait : ∀ i, (i < next_ s)%nat → wait_of s i = Z.of_nat (unready_count s i) + if is_pushing (phase_of s i) then 1 else 0;
  iv_granted : ∀ j k v, place_of s k v = Granted j ↔ Decr k v ∈ todo_of (phase_of s j);
  iv_var : ∀ v, var_ok s v;
  iv_pending : pending_ s = Z.of_nat (unfinished s)
}.

Lemma inv_init m : inv (engine_init m).
Proof.
  split; cbn; try done; try lia.
  - intros j k v. split; [done|by intros ?%not_elem_of_nil].
  - intros v. exists var_init, []. split; [apply column_init|]. cbn. split; [apply vq_new_rep|done].
Qed.

(** ** Parts of the invariant a step does not touch *)
Hypothesis Hwf : wf_program.

Lemma vars_nodup i : NoDup (vars_of i).
Proof. unfold vars_of. destruct (P !! i) as [o|] eqn:E; [by apply (Hwf i)|constructor]. Qed.

Lemma uses_opr i o v : P !! i = Some o → uses v i ↔ v ∈ const_vars o ++ mutable_vars o.
Proof. intros Ho. unfold uses, vars_of. by rewrite Ho. Qed.

Lemma writes_opr i o v : P !! i = Some o → writes v i ↔ v ∈ mutable_vars o.
Proof. intros Ho. unfold writes. by rewrite Ho. Qed.

Lemma reads_not_writes i o v : P !! i = Some o → v ∈ const_vars o → ¬ writes v i.
Proof. intros Ho Hv. rewrite (writes_opr i o) by done. destruct (Hwf i o Ho) as [(_ & Hd & _)%NoDup_app _]. by apply Hd. Qed.

Lemma pushed s i v : inv s → place_of s i v ≠ Fresh → (i < next_ s)%nat ∧ uses v i.
Proof.
  intros H Hp. split.
  - destruct (decide (i < next_ s)%nat); [done|]. destruct (iv_fresh s H i) as [_ Hf]; [lia|]. by rewrite Hf in Hp.
  - destruct (decide (uses v i)) as [|Hn]; [done|]. by rewrite (iv_outside s H i v Hn) in Hp.
Qed.

Lemma move_at f os v p k x : move f os v p k x = if decide (k ∈ os ∧ x = v) then p else f k x.
Proof. reflexivity. Qed.

Lemma move_other f os v p k x : x ≠ v → move f os v p k x = f k x.
Proof. intros. rewrite move_at. rewrite decide_False; [done|]. by intros [_ ?]. Qed.

Lemma move_row f os v p k x : k ∉ os → move f os v p k x = f k x.
Proof. intros. rewrite move_at. rewrite decide_False; [done|]. by intros [? _]. Qed.

Lemma move_one f i v p k : move f [i] v p k v = if decide (k = i) then p else f k v.
Proof.
  rewrite move_at. destruct (decide (k = i)) as [->|Hk]; [by rewrite decide_True by (split; [by left|done])|].
  rewrite decide_False; [done|]. by intros [?%list_elem_of_singleton _].
Qed.

Lemma var_ok_frame s s' v : (∀ k, place_of s' k v = place_of s k v) → var_of s' v = var_of s v → var_ok s v → var_ok s' v.
Proof.
  intros Hp Hv (q & hs & Hc & Hx). exists q, hs. split; [by apply (column_ext _ _ (fun i => place_of s i v))|]. rewrite Hv.
  destruct (var_of s v); [|destruct Hx as (i & ? & ?); exists i; by rewrite Hp]. destruct Hx as [? Hd]. split; [done|]. intros E.
  destruct (Hd E) as (i & ? & ?). exists i. by rewrite Hp.
Qed.

Lemma count_same s s' i : (∀ v, uses v i → unready (place_of s' i v) = unready (place_of s i v)) → unready_count s' i = unready_count s i.
Proof. intros H. unfold unready_count. f_equal. apply List.filter_ext_in. intros v Hv. apply H. by apply list_elem_of_In. Qed.

Lemma count_drop s s' i v :
  uses v i → unready (place_of s i v) = true → unready (place_of s' i v) = false → (∀ x, x ≠ v → place_of s' i x = place_of s i x) →
  unready_count s i = S (unready_count s' i).
Proof. intros Hu H1 H2 H3. unfold unready_count. apply (count_set _ _ v); [apply vars_nodup|done|done|done|]. intros x Hx. by rewrite H3. Qed.

Lemma count_zero s i : unready_count s i = 0%nat → ∀ v, uses v i → unready (place_of s i v) = false.
Proof.
  intros H v Hv. destruct (unready (place_of s i v)) eqn:E; [|done].
  assert (v ∈ List.filter (fun x => unready (place_of s i x)) (vars_of i)) as Hin by (apply list_elem_of_In, List.filter_In; split; [by apply list_elem_of_In|done]).
  unfold unready_count in H. apply nil_length_inv in H. rewrite H in Hin. by apply not_elem_of_nil in Hin.
Qed.

Lemma unfinished_same s s' :
  next_ s' = next_ s → (∀ i, (phase_of s' i = Done ↔ phase_of s i = Done)) → unfinished s' = unfinished s.
Proof.
  intros Hn Hp. unfold unfinished. rewrite Hn. f_equal. apply List.filter_ext. intros i. specialize (Hp i).
  destruct (phase_of s' i), (phase_of s i); try done; by destruct Hp as [H1 H2]; (discriminate H1 || discriminate H2).
Qed.

(** Places that other threads may change. *)
Definition row_step (p p' : place) : Prop := p' = p ∨ (p = Queued ∧ ∃ j, p' = Granted j) ∨ (∃ j, p = Granted j ∧ p' = Held).

Lemma phase_ok_frame s s' i o :
  phase_of s' i = phase_of s i → next_ s' = next_ s → (phase_of s i = Waiting → wait_of s i ≠ 0 → wait_of s' i ≠ 0) →
  (∀ v, uses v i → row_step (place_of s i v) (place_of s' i v)) → phase_ok s i o → phase_ok s' i o.
Proof.
  intros Hp Hn Hw Hr. unfold phase_ok. rewrite Hp, Hn. destruct (phase_of s i) as [|l| | | |failed l|]; try done.
  - intros (? & cs & ms & ? & ? & ? & Hat). split; [done|]. exists cs, ms. split_and!; try done. intros v Hv.
    destruct (Hat v Hv) as [Ha1 Ha2]. destruct (Hr v Hv) as [->|[(E & j & ->)|(j & E & ->)]]; [done| |]; rewrite E in *; split; try done; rewrite <- Ha1; done.
  - intros [Hw0 Hat]. split; [auto|]. intros v Hv. destruct (Hat v Hv) as [Ha1 Ha2]. destruct (Hr v Hv) as [->|[(E & j & ->)|(j & E & ->)]]; done.
  - intros Hat v Hv. destruct (Hr v Hv) as [->|[(E & j & ->)|(j & E & ->)]]; [auto| |]; by rewrite Hat in E.
  - intros Hat v Hv. destruct (Hr v Hv) as [->|[(E & j & ->)|(j & E & ->)]]; [auto| |]; by rewrite Hat in E.
  - intros (ds & cs & ms & ? & ? & ? & ? & Hat). exists ds, cs, ms. split_and!; try done. intros v Hv.
    destruct (Hr v Hv) as [->|[(E & j & ->)|(j & E & ->)]]; [auto| |]; rewrite Hat in E by done; case_decide; done.
  - intros Hat v Hv. destruct (Hr v Hv) as [->|[(E & j & ->)|(j & E & ->)]]; [auto| |]; by rewrite Hat in E.
Qed.

(** A variable is there as long as an operation that uses it is not past it. *)
Lemma alive s i v : inv s → uses v i → place_of s i v ≠ Released →
  ∃ x q hs, var_of s v = Some x ∧ column (uses v) (writes v) (fun i => place_of s i v) q hs ∧ vq_rep x q ∧
    (vs_delete q = true → ∃ i, deleted_by v i ∧ place_of s i v = Held).
Proof.
  intros H Hu Hr. destruct (iv_var s H v) as (q & hs & Hc & Hx). destruct (var_of s v) as [x|]; [exists x, q, hs; by split_and!; [| |apply Hx|apply Hx]|].
  destruct Hx as (j & (o & Ho & Hd & Hv) & Hj). destruct (Nat.lt_trichotomy i j) as [Hlt|[->|Hlt]]; [|done|].
  - destruct Hr. apply (co_conflict _ _ _ _ _ Hc i j Hlt Hu); [right; by apply (writes_opr j o)|by right].
  - destruct (Hwf j o Ho) as [_ Hdel]. by destruct (Hdel Hd i v Hlt Hv).
Qed.
End Invariant.
