(* ===== verification/EngineSteps.v ===== *)
(** * The dependency engine: every step keeps the invariant

    One lemma per kind of step of [Engine], then safety: no check of the engine fails,
    whatever the schedule. *)

From Stdlib Require Import String.
From stdpp Require Import sorting.
From S2P Require Import Prelude EngineVar Engine EngineInv.
Local Open Scope Z_scope.

Section Steps.
Context {Val V : Type} `{!VarQueue V}.
Context (P : list (Opr Val)) (Hwf : wf_program P).
Local Abbreviation Engine := (Engine Val V).
Local Abbreviation inv := (inv P).
Local Abbreviation uses := (uses P).
Local Abbreviation writes := (writes P).

Lemma decr_wait_ok (s : Engine) o : 0 < wait_of s o →
  decr_wait s o = Ok ({| next_ := next_ s; phase_of := phase_of s; wait_of := set (wait_of s) o (wait_of s o - 1); var_of := var_of s; mem := mem s;
     var_exception := var_exception s; pending_ := pending_ s; place_of := place_of s |}, wait_of s o - 1).
Proof. intros. unfold decr_wait. by rewrite check_bind_ok by (apply Z.leb_le; lia). Qed.

(** ** Push *)
Lemma inv_push s s' : inv s → Push P false s = Ok s' → inv s'.
Proof.
  intros H. unfold Push. cbn [negb andb]. destruct (match next_ s with O => false | S i => is_pushing (phase_of s i) end) eqn:Eb; [done|].
  destruct (P !! next_ s) as [o|] eqn:Eo; [|done]. intros [= <-]. apply lookup_lt_Some in Eo as Hlt.
  assert (∀ i, (i < next_ s)%nat → is_pushing (phase_of s i) = false) as Hnp.
  { intros i Hi. destruct (phase_of s i) as [|l| | | | |] eqn:E; try done. destruct (lookup_lt_is_Some_2 P i) as [oi Hoi]; [lia|].
    pose proof (iv_phase P s H i oi Hoi Hi) as Hok. unfold phase_ok in Hok. rewrite E in Hok. destruct Hok as [Hn _]. rewrite <- Hn, E in Eb. done. }
  destruct (iv_fresh P s H (next_ s)) as [Hph Hpl]; [lia|]. destruct H as [Hn Hfr Hout Hok Hwait Hgr Hvar Hpend].
  split; cbn [next_ phase_of wait_of var_of mem var_exception pending_ place_of].
  - lia.
  - intros i Hi. rewrite set_ne by lia. apply Hfr. lia.
  - done.
  - intros i oi Hoi Hi. destruct (decide (i = next_ s)) as [->|Hne].
    + rewrite Eo in Hoi. injection Hoi as <-. unfold phase_ok. cbn. rewrite set_eq. split; [done|]. exists (const_vars o), (mutable_vars o).
      split_and!; [done|done|done|]. intros v Hv. rewrite Hpl. split; [|done]. split; [|done]. intros _. by apply (uses_opr P _ _ _ Eo).
    + specialize (Hok i oi Hoi ltac:(lia)). specialize (Hnp i ltac:(lia)). unfold phase_ok in *. cbn. rewrite !set_ne by done. by destruct (phase_of s i).
  - intros i Hi. unfold unready_count. cbn [place_of]. destruct (decide (i = next_ s)) as [->|Hne].
    + rewrite !set_eq. cbn [is_pushing]. unfold vars_of. rewrite Eo. rewrite (List.filter_ext _ (fun _ => true)) by (intros v; by rewrite Hpl).
      rewrite List.filter_true, length_app. lia.
    + rewrite !set_ne by done. rewrite Hwait by lia. done.
  - intros j k v. rewrite Hgr. destruct (decide (j = next_ s)) as [->|Hne]; [|by rewrite set_ne].
    rewrite set_eq, Hph. cbn [todo_of]. split; [by intros ?%not_elem_of_nil|]. rewrite !elem_of_app, !list_elem_of_fmap, list_elem_of_singleton. naive_solver.
  - intros v. by apply (var_ok_frame P s).
  - unfold unfinished in *. cbn [next_ phase_of]. rewrite seq_S, List.filter_app, length_app. cbn [List.filter Nat.add]. rewrite set_eq. cbn [length].
    rewrite (List.filter_ext_in _ (fun i => match phase_of s i with Done => false | _ => true end)); [lia|].
    intros i Hi. apply List.in_seq in Hi. by rewrite set_ne by lia.
Qed.

Lemma push_items t l cs ms :
  t :: l = (AppendRead <$> cs) ++ (AppendWrite <$> ms) ++ [FinalDecr] →
  (∃ v cs', t = AppendRead v ∧ cs = v :: cs' ∧ l = (AppendRead <$> cs') ++ (AppendWrite <$> ms) ++ [FinalDecr]) ∨
  (∃ v ms', t = AppendWrite v ∧ cs = [] ∧ ms = v :: ms' ∧ l = (AppendRead <$> []) ++ (AppendWrite <$> ms') ++ [FinalDecr]) ∨
  (t = FinalDecr ∧ l = [] ∧ cs = [] ∧ ms = []).
Proof.
  destruct cs as [|v cs]; [destruct ms as [|v ms]|]; cbn; intros [= -> ->]; [by right; right|right; left; by exists v, ms|left; by exists v, cs].
Qed.

Lemma suffixes_nodup o i cs ms : P !! i = Some o → cs `suffix_of` const_vars o → ms `suffix_of` mutable_vars o → NoDup (cs ++ ms).
Proof.
  intros Ho [c Hc] [m Hm]. destruct (Hwf i o Ho) as [Hnd _]. rewrite Hc, Hm in Hnd. apply NoDup_app in Hnd as ((_ & _ & H1)%NoDup_app & H2 & (_ & _ & H3)%NoDup_app).
  apply NoDup_app. split_and!; [done| |done]. intros x Hx Hx'. apply (H2 x); apply elem_of_app; by right.
Qed.

(** Items of a thread that are not decrements do not matter for [Granted]. *)
Lemma granted_other (s : Engine) i p : (∀ k v, Decr k v ∈ todo_of p ↔ Decr k v ∈ todo_of (phase_of s i)) →
  ∀ j k v, Decr k v ∈ todo_of (set (phase_of s) i p j) ↔ Decr k v ∈ todo_of (phase_of s j).
Proof. intros H j k v. destruct (decide (j = i)) as [->|Hne]; [by rewrite set_eq|by rewrite set_ne]. Qed.

Lemma phase_ok_other (s s' : Engine) i : inv s → next_ s' = next_ s → (∀ k, k ≠ i → phase_of s' k = phase_of s k) → (∀ k, k ≠ i → wait_of s' k = wait_of s k) →
  (∀ k v, k ≠ i → row_step (place_of s k v) (place_of s' k v)) → (∀ o, P !! i = Some o → phase_ok P s i o → phase_ok P s' i o) →
  ∀ k o, P !! k = Some o → (k < next_ s)%nat → phase_ok P s' k o.
Proof.
  intros H Hn Hp Hw Hr Hi k o Ho Hk. destruct (decide (k = i)) as [->|Hne]; [apply Hi; [done|by apply (iv_phase P s H)]|].
  apply (phase_ok_frame P s); auto.
  - by rewrite Hw.
  - by apply (iv_phase P s H).
Qed.

Lemma inv_append s i o v t l (x : V) q (b : bool) :
  inv s → P !! i = Some o → (i < next_ s)%nat → phase_of s i = Pushing (t :: l) → t = AppendRead v ∨ t = AppendWrite v →
  vq_rep x q → (vs_delete q = true → ∃ i, deleted_by P v i ∧ place_of s i v = Held) →
  (∃ hs, column (uses v) (writes v) (fun k => if decide (k = i) then (if b then Held else Queued) else place_of s k v) q hs) →
  ∃ s', append i v (Ok (x, b)) l s = Ok s' ∧ inv s'.
Proof.
  intros H Ho Hi Hph Ht Hx Hdel [hs Hcol]. pose proof (iv_phase P s H i o Ho Hi) as Hok. unfold phase_ok in Hok. rewrite Hph in Hok.
  destruct Hok as (Hnext & cs & ms & Hl & Hcs & Hms & Hat).
  assert (∃ cs' ms', l = (AppendRead <$> cs') ++ (AppendWrite <$> ms') ++ [FinalDecr] ∧ cs ++ ms = v :: cs' ++ ms' ∧ cs' `suffix_of` const_vars o ∧ ms' `suffix_of` mutable_vars o)
    as (cs' & ms' & Hl' & Hrem & Hcs' & Hms').
  { destruct (push_items t l cs ms Hl) as [(v' & cs' & -> & -> & ->)|[(v' & ms' & -> & -> & -> & ->)|(-> & _)]].
    - exists cs', ms. destruct Ht as [[= ->]|?]; [|done]. split_and!; try done. by eapply suffix_cons_l.
    - exists [], ms'. destruct Ht as [?|[= ->]]; [done|]. split_and!; try done. by eapply suffix_cons_l.
    - by destruct Ht. }
  pose proof (suffixes_nodup o i cs ms Ho Hcs Hms) as Hnd. rewrite Hrem in Hnd. apply NoDup_cons in Hnd as [Hv Hnd].
  assert (uses v i) as Hu.
  { apply (uses_opr P i o); [done|]. assert (v ∈ cs ++ ms) as Hin by (rewrite Hrem; by left). apply elem_of_app in Hin. apply elem_of_app.
    destruct Hin as [Hin|Hin]; [left; by eapply elem_of_suffix|right; by eapply elem_of_suffix]. }
  assert (place_of s i v = Fresh) as Hfresh by (apply (Hat v Hu); rewrite Hrem; by left).
  pose proof (iv_wait P s H i Hi) as Hwi. rewrite Hph in Hwi. cbn [is_pushing] in Hwi.
  set (w := if b then set (wait_of s) i (wait_of s i - 1) else wait_of s).
  set (p := if b then Held else Queued) in *.
  exists {| next_ := next_ s; phase_of := set (phase_of s) i (Pushing l); wait_of := w; var_of := set (var_of s) v (Some x); mem := mem s;
            var_exception := var_exception s; pending_ := pending_ s; place_of := move (place_of s) [i] v p |}.
  split. { unfold append. rstep. unfold w, p. destruct b; [|done]. rewrite decr_wait_ok by (cbn; lia). done. }
  assert (∀ k x', k ≠ i → move (place_of s) [i] v p k x' = place_of s k x') as Hrow by (intros k x' Hk; apply move_row; by rewrite list_elem_of_singleton).
  assert (∀ k, k ≠ i → w k = wait_of s k) as Hw by (intros k Hk; unfold w; destruct b; [by rewrite set_ne|done]).
  assert (p ≠ Fresh ∧ p ≠ Released ∧ ∀ j, p ≠ Granted j) as (Hpf & Hpr & Hpg) by (unfold p; by destruct b).
  split; cbn [next_ phase_of wait_of var_of mem var_exception pending_ place_of].
  - apply H.
  - intros k Hk. rewrite set_ne by lia. split; [by apply (iv_fresh P s H)|]. intros y. rewrite Hrow by lia. by apply (iv_fresh P s H).
  - intros k y Hy. rewrite move_at, decide_False; [by apply (iv_outside P s H)|]. intros [->%list_elem_of_singleton ->]. done.
  - apply (phase_ok_other s _ i H); cbn; [done|intros k Hk; by rewrite set_ne|done|intros k y Hk; left; auto|]. intros o' Ho' _. rewrite Ho in Ho'. injection Ho' as <-.
    unfold phase_ok. cbn. rewrite set_eq. split; [done|]. exists cs', ms'. split_and!; try done. intros y Hy. destruct (decide (y = v)) as [->|Hne].
    + rewrite move_one, decide_True by done. split; [|done]. split; [done|]. intros ?. done.
    + rewrite move_other by done. destruct (Hat y Hy) as [H1 H2]. split; [|done]. rewrite H1, Hrem, elem_of_cons. naive_solver.
  - intros k Hk. destruct (decide (k = i)) as [->|Hne].
    + rewrite set_eq. cbn [is_pushing]. unfold w, p. destruct b.
      * rewrite set_eq, Hwi. rewrite (count_drop P Hwf s {| next_ := next_ s; phase_of := set (phase_of s) i (Pushing l); wait_of := w; var_of := set (var_of s) v (Some x); mem := mem s;
            var_exception := var_exception s; pending_ := pending_ s; place_of := move (place_of s) [i] v Held |} i v); cbn [place_of]; [unfold unready_count; cbn [place_of]; lia|done|by rewrite Hfresh|by rewrite move_one, decide_True|].
        intros y Hy. by apply move_other.
      * rewrite Hwi. do 2 f_equal. symmetry. apply count_same. intros y _. cbn [place_of]. destruct (decide (y = v)) as [->|Hy]; [rewrite move_one, decide_True, Hfresh by done; done|by rewrite move_other].
    + rewrite set_ne, Hw by done. rewrite (iv_wait P s H k Hk). do 2 f_equal. symmetry. apply count_same. intros y _. cbn [place_of]. by rewrite Hrow.
  - intros j k y. rewrite granted_other.
    + rewrite <- (iv_granted P s H). rewrite move_at. destruct (decide (k ∈ [i] ∧ y = v)) as [[->%list_elem_of_singleton ->]|]; [|done].
      rewrite Hfresh. split; [by intros ?%Hpg|done].
    + intros k' y'. rewrite Hph. cbn [todo_of]. rewrite elem_of_cons. destruct Ht as [-> | ->]; naive_solver.
  - intros y. destruct (decide (y = v)) as [->|Hne].
    + exists q, hs. cbn. rewrite set_eq. split; [|split; [done|]].
      * apply (column_ext _ _ (fun k => if decide (k = i) then p else place_of s k v)); [done|]. intros k. apply move_one.
      * intros Hd. destruct (Hdel Hd) as (j & Hj & Hpl). exists j. split; [done|]. rewrite move_one. destruct (decide (j = i)) as [->|]; [congruence|done].
    + apply (var_ok_frame P s); [intros k; by apply move_other|by apply set_ne|by apply (iv_var P s H)].
  - rewrite (iv_pending P s H). f_equal. symmetry. apply unfinished_same; [done|]. intros k. cbn. destruct (decide (k = i)) as [->|]; [rewrite set_eq, Hph; done|by rewrite set_ne].
Qed.

Lemma phase_pushed s i : inv s → phase_of s i ≠ NotPushed → (i < next_ s)%nat.
Proof. intros H Hp. destruct (decide (i < next_ s)%nat); [done|]. destruct (iv_fresh P s H i) as [E _]; [lia|]. by rewrite E in Hp. Qed.

Lemma not_fresh s k v : inv s → (k < next_ s)%nat → is_pushing (phase_of s k) = false → uses v k → place_of s k v ≠ Fresh.
Proof.
  intros H Hk Hp Hu. destruct (lookup_lt_is_Some_2 P k) as [o Ho]; [pose proof (iv_next P s H); lia|].
  pose proof (iv_phase P s H k o Ho Hk) as Hok. unfold phase_ok in Hok. destruct (phase_of s k) as [|l| | | |failed l|]; try done.
  - by apply Hok.
  - by rewrite Hok.
  - by rewrite Hok.
  - destruct Hok as (ds & cs & ms & _ & _ & _ & _ & Hat). rewrite Hat by done. by case_decide.
  - by rewrite Hok.
Qed.

(** What the operation that is being pushed finds in the queue of a variable. *)
Lemma newest s i v : inv s → is_pushing (phase_of s i) = true → place_of s i v = Fresh →
  (∀ k, place_of s k v ≠ Fresh → (k < i)%nat) ∧ (∀ k, (k < i)%nat → uses v k → place_of s k v ≠ Fresh).
Proof.
  intros H Hp Hf. assert (i < next_ s)%nat as Hi by (apply phase_pushed; [done|by destruct (phase_of s i)]).
  assert (S i = next_ s) as Hn.
  { destruct (lookup_lt_is_Some_2 P i) as [o Ho]; [pose proof (iv_next P s H); lia|]. pose proof (iv_phase P s H i o Ho Hi) as Hok.
    unfold phase_ok in Hok. destruct (phase_of s i); try done. by destruct Hok. }
  split.
  - intros k Hk. destruct (pushed P s k v H Hk) as [Hlt _]. assert (k ≠ i) by (by intros ->). lia.
  - intros k Hk Hu. apply not_fresh; [done|lia| |done]. destruct (is_pushing (phase_of s k)) eqn:E; [|done].
    destruct (lookup_lt_is_Some_2 P k) as [o Ho]; [pose proof (iv_next P s H); lia|]. pose proof (iv_phase P s H k o Ho ltac:(lia)) as Hok.
    unfold phase_ok in Hok. destruct (phase_of s k); try done. destruct Hok. lia.
Qed.

Lemma inv_final s i o l :
  inv s → P !! i = Some o → (i < next_ s)%nat → phase_of s i = Pushing (FinalDecr :: l) → ∃ s', push_step i FinalDecr l s = Ok s' ∧ inv s'.
Proof.
  intros H Ho Hi Hph. pose proof (iv_wait P s H i Hi) as Hwi. rewrite Hph in Hwi. cbn [is_pushing] in Hwi.
  pose proof (iv_phase P s H i o Ho Hi) as Hok. unfold phase_ok in Hok. rewrite Hph in Hok. destruct Hok as (Hnext & cs & ms & Hl & Hcs & Hms & Hat).
  destruct (push_items _ _ _ _ Hl) as [(? & ? & ? & _)|[(? & ? & ? & _)|(_ & -> & -> & ->)]]; [done|done|].
  unfold push_step. rewrite decr_wait_ok by lia. rstep. eexists. split; [reflexivity|].
  set (p := if wait_of s i - 1 =? 0 then Ready else Waiting).
  assert (todo_of p = []) as Hp by (unfold p; by case_match).
  assert (is_pushing p = false) as Hpp by (unfold p; by case_match).
  split; cbn [next_ phase_of wait_of var_of mem var_exception pending_ place_of set_phase].
  - apply H.
  - intros k Hk. rewrite set_ne by lia. by apply (iv_fresh P s H).
  - apply H.
  - apply (phase_ok_other s _ i H); cbn; [done|intros k Hk; by rewrite set_ne|intros k Hk; by rewrite set_ne|by left|]. intros o' Ho' _.
    unfold phase_ok. cbn. rewrite !set_eq. destruct (Z.eqb_spec (wait_of s i - 1) 0) as [E|E]; subst p.
    + intros v Hv. pose proof (count_zero P s i ltac:(lia) v Hv) as Hr. destruct (Hat v Hv) as [_ Hnr]. by destruct (place_of s i v).
    + split; [done|]. intros v Hv. destruct (Hat v Hv) as [H1 H2]. split; [|done]. rewrite H1. apply not_elem_of_nil.
  - intros k Hk. destruct (decide (k = i)) as [->|Hne]; [rewrite !set_eq, Hpp; unfold unready_count in *; cbn; lia|]. rewrite !set_ne by done. by apply (iv_wait P s H).
  - intros j k v. rewrite granted_other; [apply (iv_granted P s H)|]. intros k' v'. rewrite Hp, Hph. cbn [todo_of]. rewrite list_elem_of_singleton.
    split; [by intros ?%not_elem_of_nil|done].
  - intros v. by apply (var_ok_frame P s); [| |apply (iv_var P s H)].
  - rewrite (iv_pending P s H). f_equal. symmetry. apply unfinished_same; [done|]. intros k. cbn.
    destruct (decide (k = i)) as [->|]; [rewrite set_eq, Hph; unfold p; by case_match|by rewrite set_ne].
Qed.

Lemma inv_push_step s i o t l :
  inv s → P !! i = Some o → phase_of s i = Pushing (t :: l) → ∃ s', push_step i t l s = Ok s' ∧ inv s'.
Proof.
  intros H Ho Hph. assert (i < next_ s)%nat as Hi by (apply phase_pushed; [done|by rewrite Hph]).
  pose proof (iv_phase P s H i o Ho Hi) as Hok. unfold phase_ok in Hok. rewrite Hph in Hok. destruct Hok as (Hnext & cs & ms & Hl & Hcs & Hms & Hat).
  assert (∀ v, v ∈ cs ++ ms → uses v i ∧ place_of s i v = Fresh) as Hfresh.
  { intros v Hv. assert (uses v i) as Hu; [|split; [done|by apply Hat]]. apply (uses_opr P i o); [done|]. rewrite elem_of_app in *.
    destruct Hv; [left|right]; by eapply elem_of_suffix. }
  destruct (push_items _ _ _ _ Hl) as [(v & cs' & -> & -> & _)|[(v & ms' & -> & -> & -> & _)|(-> & _)]]; [| |by apply (inv_final s i o)].
  - destruct (Hfresh v) as [Hu Hf]; [by left|]. destruct (newest s i v H) as [Hlast Hprev]; [by rewrite Hph|done|].
    destruct (alive P Hwf s i v H Hu) as (x & q & hs & Hx & Hc & Hrep & Hd); [by rewrite Hf|]. unfold push_step, get_var. rewrite Hx. cbn [of_option]. rstep.
    destruct (vq_append_read_rep x q i Hrep (column_wf _ _ _ _ _ Hc)) as (x' & -> & Hrep').
    apply (inv_append s i o v (AppendRead v) l x' (spec_append_read i q).1); auto.
    + intros Hd'. apply Hd. unfold spec_append_read in Hd'. by destruct (vs_queue q).
    + apply (column_append_read _ _ (fun k => place_of s k v) _ q hs i); try done. apply (reads_not_writes P Hwf i o); [done|]. eapply elem_of_suffix; [|done]. by left.
  - destruct (Hfresh v) as [Hu Hf]; [by left|]. destruct (newest s i v H) as [Hlast Hprev]; [by rewrite Hph|done|].
    destruct (alive P Hwf s i v H Hu) as (x & q & hs & Hx & Hc & Hrep & Hd); [by rewrite Hf|]. unfold push_step, get_var. rewrite Hx. cbn [of_option]. rstep.
    destruct (vq_append_write_rep x q i Hrep (column_wf _ _ _ _ _ Hc)) as (x' & -> & Hrep').
    apply (inv_append s i o v (AppendWrite v) l x' (spec_append_write i q).1); auto.
    apply (column_append_write _ _ (fun k => place_of s k v) _ q hs i); try done. apply (writes_opr P i o); [done|]. eapply elem_of_suffix; [|done]. by left.
Qed.

(** ** Running *)

(** A change of the phase of one operation, and of nothing else the invariant is about. *)
Lemma inv_phase s (s' : Engine) i p :
  inv s → (i < next_ s)%nat → next_ s' = next_ s → (∀ k, phase_of s' k = set (phase_of s) i p k) → (∀ k, wait_of s' k = wait_of s k) → pending_ s' = pending_ s →
  (∀ k v, place_of s' k v = place_of s k v) → (∀ v, var_ok P s' v) →
  is_pushing p = is_pushing (phase_of s i) → p ≠ Done → phase_of s i ≠ Done →
  (∀ k v, Decr k v ∈ todo_of p ↔ Decr k v ∈ todo_of (phase_of s i)) →
  (∀ o, P !! i = Some o → phase_ok P s i o → phase_ok P s' i o) → inv s'.
Proof.
  intros H Hi Hn Hp Hw Hpe Hpl Hv Hpush Hd Hd' Htodo Hok. split.
  - rewrite Hn. apply H.
  - intros k Hk. rewrite Hn in Hk. rewrite Hp, set_ne by lia. split; [by apply (iv_fresh P s H)|]. intros v. rewrite Hpl. by apply (iv_fresh P s H).
  - intros k v Hu. rewrite Hpl. by apply (iv_outside P s H).
  - rewrite Hn. apply (phase_ok_other s _ i H); auto; [|by left]. intros k Hk. by rewrite Hp, set_ne.
  - intros k Hk. rewrite Hn in Hk. rewrite Hw, (iv_wait P s H k Hk), Hp. f_equal; [f_equal; symmetry; apply count_same; intros v _; by rewrite Hpl|].
    destruct (decide (k = i)) as [->|]; [by rewrite set_eq, Hpush|by rewrite set_ne].
  - intros j k v. rewrite Hpl, Hp, granted_other by done. apply (iv_granted P s H).
  - done.
  - rewrite Hpe, (iv_pending P s H). f_equal. symmetry. apply unfinished_same; [done|]. intros k. rewrite Hp.
    destruct (decide (k = i)) as [->|]; [by rewrite set_eq|by rewrite set_ne].
Qed.

Lemma inv_start s i o : inv s → P !! i = Some o → phase_of s i = Ready → inv (start i o s).
Proof.
  intros H Ho Hph. eapply (inv_phase s (start i o s) i); try done.
  - apply phase_pushed; [done|by rewrite Hph].
  - intros v. by apply (var_ok_frame P s); [| |apply (iv_var P s H)].
  - by rewrite Hph.
  - by rewrite Hph.
  - intros k v. by rewrite Hph.
  - intros o' _. unfold phase_ok. cbn. by rewrite set_eq, Hph.
Qed.

Lemma column_q U W col q q' hs : column U W col q hs → vs_reads q' = vs_reads q → vs_queue q' = vs_queue q → column U W col q' hs.
Proof. intros [] E1 E2. split; try done; rewrite ?E2; try done. unfold occupied. by rewrite E1, E2. Qed.

Lemma completion_no_decr (o : Opr Val) k v : Decr k v ∉ completion o.
Proof. unfold completion. rewrite !elem_of_app, !list_elem_of_fmap, list_elem_of_singleton. naive_solver. Qed.

Lemma inv_execute s i o cs ms failed : inv s → P !! i = Some o → phase_of s i = Running cs ms failed → inv (execute i o cs ms failed s).
Proof.
  intros H Ho Hph. assert (i < next_ s)%nat as Hi by (apply phase_pushed; [done|by rewrite Hph]).
  pose proof (iv_phase P s H i o Ho Hi) as Hheld. unfold phase_ok in Hheld. rewrite Hph in Hheld.
  assert (∀ (s' : Engine) f, phase_of s' i = Completing f (completion o) → (∀ v, place_of s' i v = place_of s i v) → phase_ok P s' i o) as Hok.
  { intros s' f E Hpl. unfold phase_ok. rewrite E. exists [], (const_vars o), (mutable_vars o). split_and!; try done; [constructor|].
    intros v Hv. rewrite Hpl, Hheld, decide_True; [done| |done]. by apply (uses_opr P i o). }
  unfold execute. destruct (failed && negb (opr_wait o)).
  - eapply (inv_phase s _ i (Completing true (completion o))); rewrite ?Hph; try done.
    + intros v. by apply (var_ok_frame P s); [| |apply (iv_var P s H)].
    + intros k v. cbn [todo_of]. split; [by intros ?%completion_no_decr|by intros ?%not_elem_of_nil].
    + intros o' Ho' _. rewrite Ho in Ho'. injection Ho' as <-. eapply Hok; [cbn; by rewrite set_eq|done].
  - destruct (fn o cs ms) as [out threw]. eapply (inv_phase s _ i (Completing (failed || threw) (completion o))); rewrite ?Hph; try done.
    + intros v. destruct (iv_var P s H v) as (q & hs & Hc & Hx). unfold var_ok. cbn [place_of var_of set_phase].
      destruct (deletes o) eqn:Edel; [|by exists q, hs]. case_bool_decide as Hv; [|by exists q, hs].
      destruct (var_of s v) as [x|]; cbn [fmap option_fmap option_map]; [|by exists q, hs]. destruct Hx as [Hrep Hdel].
      exists {| vs_reads := vs_reads q; vs_queue := vs_queue q; vs_delete := true; vs_version := vs_version q |}, hs. split; [by apply (column_q _ _ _ q)|].
      split; [by apply vq_set_to_delete_rep|]. intros _. exists i. split; [by exists o|]. apply Hheld, (uses_opr P i o); [done|]. apply elem_of_app. by right.
    + intros k v. cbn [todo_of]. split; [by intros ?%completion_no_decr|by intros ?%not_elem_of_nil].
    + intros o' Ho' _. rewrite Ho in Ho'. injection Ho' as <-. eapply Hok; [cbn; by rewrite set_eq|done].
Qed.

(** ** Completing *)
Local Abbreviation decrs ds := ((fun d : nat * Z => Decr d.1 d.2) <$> ds).

Lemma complete_items t l ds cs ms :
  t :: l = decrs ds ++ (CompleteRead <$> cs) ++ (CompleteWrite <$> ms) ++ [Finish] →
  (∃ k v ds', t = Decr k v ∧ ds = (k, v) :: ds' ∧ l = decrs ds' ++ (CompleteRead <$> cs) ++ (CompleteWrite <$> ms) ++ [Finish]) ∨
  (∃ v cs', t = CompleteRead v ∧ ds = [] ∧ cs = v :: cs' ∧ l = (CompleteRead <$> cs') ++ (CompleteWrite <$> ms) ++ [Finish]) ∨
  (∃ v ms', t = CompleteWrite v ∧ ds = [] ∧ cs = [] ∧ ms = v :: ms' ∧ l = (CompleteRead <$> []) ++ (CompleteWrite <$> ms') ++ [Finish]) ∨
  (t = Finish ∧ l = [] ∧ ds = [] ∧ cs = [] ∧ ms = []).
Proof.
  destruct ds as [|[k v] ds]; [destruct cs as [|v cs]; [destruct ms as [|v ms]|]|]; cbn; intros [= -> ->].
  - by do 3 right.
  - do 2 right. left. by exists v, ms.
  - right. left. by exists v, cs.
  - left. by exists k, v, ds.
Qed.

Lemma decr_in_rest k v cs ms : Decr k v ∉ (CompleteRead <$> cs) ++ (CompleteWrite <$> ms) ++ [Finish].
Proof. rewrite !elem_of_app, !list_elem_of_fmap, list_elem_of_singleton. naive_solver. Qed.

Lemma decr_in_decrs k v (ds : list (nat * Z)) : Decr k v ∈ decrs ds ↔ (k, v) ∈ ds.
Proof. rewrite list_elem_of_fmap. split; [intros ([k' v'] & [= -> ->] & ?); done|intros ?; by exists (k, v)]. Qed.

(** Places after an operation has let a variable go. *)
Lemma handed_move (f : nat → Z → place) i v ts k :
  move (move f [i] v Released) ts v (Granted i) k v = if decide (k ∈ ts) then Granted i else if decide (k = i) then Released else f k v.
Proof. rewrite move_at, move_one. destruct (decide (k ∈ ts)) as [Hk|Hk]; [by rewrite decide_True|]. rewrite decide_False; [done|]. by intros [? _]. Qed.

Lemma inv_release s i o v failed t l ts (newvar : option V) exn :
  inv s → P !! i = Some o → phase_of s i = Completing failed (t :: l) → t = CompleteRead v ∨ t = CompleteWrite v →
  (∀ k, k ∈ ts → place_of s k v = Queued) → NoDup ts →
  let s' := {| next_ := next_ s; phase_of := set (phase_of s) i (Completing failed (((fun o => Decr o v) <$> ts) ++ l)); wait_of := wait_of s;
       var_of := set (var_of s) v newvar; mem := mem s; var_exception := exn; pending_ := pending_ s;
       place_of := move (move (place_of s) [i] v Released) ts v (Granted i) |} in
  var_ok P s' v → inv s'.
Proof.
  intros H Ho Hph Ht Hts Hnd s' Hv. assert (i < next_ s)%nat as Hi by (apply phase_pushed; [done|by rewrite Hph]).
  pose proof (iv_phase P s H i o Ho Hi) as Hok. unfold phase_ok in Hok. rewrite Hph in Hok. destruct Hok as (ds & cs & ms & Hl & _ & Hcs & Hms & Hat).
  assert (∃ cs' ms', ds = [] ∧ l = (CompleteRead <$> cs') ++ (CompleteWrite <$> ms') ++ [Finish] ∧ cs ++ ms = v :: cs' ++ ms' ∧ cs' `suffix_of` const_vars o ∧ ms' `suffix_of` mutable_vars o)
    as (cs' & ms' & -> & Hl' & Hrem & Hcs' & Hms').
  { destruct (complete_items t l ds cs ms Hl) as [(? & ? & ? & -> & _)|[(v' & cs' & -> & -> & -> & ->)|[(v' & ms' & -> & -> & -> & -> & ->)|(-> & _)]]].
    - by destruct Ht.
    - exists cs', ms. destruct Ht as [[= ->]|?]; [|done]. split_and!; try done. by eapply suffix_cons_l.
    - exists [], ms'. destruct Ht as [?|[= ->]]; [done|]. split_and!; try done. by eapply suffix_cons_l.
    - by destruct Ht. }
  pose proof (suffixes_nodup o i cs ms Ho Hcs Hms) as Hndr. rewrite Hrem in Hndr. apply NoDup_cons in Hndr as [Hvr _].
  assert (uses v i) as Hu.
  { apply (uses_opr P i o); [done|]. assert (v ∈ cs ++ ms) as Hin by (rewrite Hrem; by left). apply elem_of_app in Hin. apply elem_of_app.
    destruct Hin as [Hin|Hin]; [left; by eapply elem_of_suffix|right; by eapply elem_of_suffix]. }
  assert (place_of s i v = Held) as Hheld by (rewrite Hat, decide_True; [done|rewrite Hrem; by left|done]).
  assert (i ∉ ts) as Hits by (intros Hin; rewrite (Hts i Hin) in Hheld; done).
  assert (∀ k y, place_of s' k y = if decide (y = v) then (if decide (k ∈ ts) then Granted i else if decide (k = i) then Released else place_of s k v) else place_of s k y) as Hpl.
  { intros k y. cbn. destruct (decide (y = v)) as [->|Hy]; [apply handed_move|by rewrite !move_other]. }
  assert (∀ k y, k ≠ i → row_step (place_of s k y) (place_of s' k y)) as Hrow.
  { intros k y Hk. rewrite Hpl. destruct (decide (y = v)) as [->|]; [|by left]. destruct (decide (k ∈ ts)) as [Hin|]; [right; left; split; [auto|by exists i]|].
    rewrite decide_False by done. by left. }
  assert (∀ k y, unready (place_of s' k y) = unready (place_of s k y)) as Hun.
  { intros k y. rewrite Hpl. destruct (decide (y = v)) as [->|]; [|done]. destruct (decide (k ∈ ts)) as [Hin|]; [by rewrite Hts|].
    destruct (decide (k = i)) as [->|]; [by rewrite Hheld|done]. }
  split.
  - apply H.
  - intros k Hk. cbn [next_ s'] in Hk. cbn [phase_of s']. rewrite set_ne by lia. split; [by apply (iv_fresh P s H)|]. intros y. destruct (iv_fresh P s H k Hk) as [_ Hf].
    destruct (Hrow k y ltac:(lia)) as [->|[(E & _)|(j & E & _)]]; [done| |]; by rewrite Hf in E.
  - intros k y Hy. pose proof (iv_outside P s H k y Hy) as Hf. assert (k ≠ i ∨ y ≠ v) as Hne by (destruct (decide (k = i)), (decide (y = v)); subst; auto).
    rewrite Hpl. destruct (decide (y = v)) as [->|]; [|done]. rewrite decide_False; [rewrite decide_False; [done|naive_solver]|]. intros Hin. by rewrite Hts in Hf.
  - apply (phase_ok_other s _ i H); [done|intros k Hk; cbn; by rewrite set_ne|done|done|]. intros o' Ho' _. rewrite Ho in Ho'. injection Ho' as <-.
    unfold phase_ok. cbn [phase_of s']. rewrite set_eq. exists ((., v) <$> ts), cs', ms'. split_and!.
    + rewrite Hl', <- list_fmap_compose. done.
    + apply NoDup_fmap_2; [by intros ? ? [=]|done].
    + done.
    + done.
    + intros y Hy. rewrite Hpl. destruct (decide (y = v)) as [->|Hne].
      * by rewrite decide_False, decide_True, decide_False by done.
      * rewrite (Hat y Hy), Hrem. apply decide_ext. rewrite elem_of_cons. naive_solver.
  - intros k Hk. cbn [wait_of s']. rewrite (iv_wait P s H k Hk). f_equal; [f_equal; symmetry; apply count_same; intros y _; apply Hun|].
    cbn [phase_of s']. destruct (decide (k = i)) as [->|]; [by rewrite set_eq, Hph|by rewrite set_ne].
  - intros j k y. rewrite Hpl. cbn [phase_of s']. assert (∀ k y, Decr k y ∈ todo_of (phase_of s i) → False) as Hno.
    { intros k' y'. rewrite Hph, Hl. apply decr_in_rest. }
    destruct (decide (j = i)) as [->|Hne].
    + rewrite set_eq. cbn [todo_of]. rewrite elem_of_app, list_elem_of_fmap, Hl'. destruct (decide (y = v)) as [->|Hy].
      * destruct (decide (k ∈ ts)) as [Hin|Hin]; [split; [intros _; left; by exists k|done]|].
        split; [|intros [(k' & [= ->] & ?)|?%decr_in_rest]; done]. destruct (decide (k = i)); [done|]. intros E. apply (iv_granted P s H) in E. by apply Hno in E.
      * split; [intros E; apply (iv_granted P s H) in E; by apply Hno in E|]. intros [(k' & [= -> ->] & ?)|?%decr_in_rest]; done.
    + rewrite set_ne by done. rewrite <- (iv_granted P s H). destruct (decide (y = v)) as [->|]; [|done].
      destruct (decide (k ∈ ts)) as [Hin|]; [rewrite (Hts k Hin); split; [by intros [= ->]|done]|]. destruct (decide (k = i)) as [->|]; [by rewrite Hheld|done].
  - intros y. destruct (decide (y = v)) as [->|Hne]; [done|]. apply (var_ok_frame P s); [|by apply set_ne|by apply (iv_var P s H)].
    intros k. rewrite Hpl. by rewrite decide_False.
  - cbn [pending_ s']. rewrite (iv_pending P s H). f_equal. symmetry. apply unfinished_same; [done|]. intros k. cbn.
    destruct (decide (k = i)) as [->|]; [by rewrite set_eq, Hph|by rewrite set_ne].
Qed.

(** An operation that completes holds the variables it has not completed yet. *)
Lemma completing_holds s i o failed v l :
  inv s → P !! i = Some o → phase_of s i = Completing failed (CompleteRead v :: l) ∨ phase_of s i = Completing failed (CompleteWrite v :: l) →
  uses v i ∧ place_of s i v = Held ∧
  (phase_of s i = Completing failed (CompleteRead v :: l) → v ∈ const_vars o) ∧ (phase_of s i = Completing failed (CompleteWrite v :: l) → v ∈ mutable_vars o).
Proof.
  intros H Ho Hph. assert (i < next_ s)%nat as Hi by (apply phase_pushed; [done|by destruct Hph as [-> | ->]]).
  pose proof (iv_phase P s H i o Ho Hi) as Hok. unfold phase_ok in Hok.
  destruct Hph as [Hph|Hph]; rewrite Hph in Hok |- *; destruct Hok as (ds & cs & ms & Hl & _ & Hcs & Hms & Hat);
    destruct (complete_items _ _ ds cs ms Hl) as [(? & ? & ? & ? & _)|[(v' & cs' & E & -> & -> & _)|[(v' & ms' & E & -> & -> & -> & _)|(? & _)]]]; try done; injection E as <-.
  - assert (v ∈ const_vars o) by (eapply elem_of_suffix; [|done]; by left).
    assert (uses v i) as Hu by (apply (uses_opr P i o); [done|]; apply elem_of_app; by left). split_and!; try done. rewrite Hat, decide_True; [done|by left|done].
  - assert (v ∈ mutable_vars o) by (eapply elem_of_suffix; [|done]; by left).
    assert (uses v i) as Hu by (apply (uses_opr P i o); [done|]; apply elem_of_app; by right). split_and!; try done. rewrite Hat, decide_True; [done|by left|done].
Qed.

Lemma inv_complete_read s i o failed v l :
  inv s → P !! i = Some o → phase_of s i = Completing failed (CompleteRead v :: l) →
  ∃ s', complete_step i failed (CompleteRead v) l s = Ok s' ∧ inv s'.
Proof.
  intros H Ho Hph. destruct (completing_holds s i o failed v l H Ho (or_introl Hph)) as (Hu & Hheld & Hc & _). specialize (Hc Hph).
  destruct (alive P Hwf s i v H Hu) as (x & q & hs & Hx & Hcol & Hrep & Hd); [by rewrite Hheld|].
  unfold complete_step, get_var. rewrite Hx. cbn [of_option]. rstep.
  set (ts := option_list (spec_complete_read q).2).
  destruct (column_release_read _ _ (fun k => place_of s k v) (fun k => move (move (place_of s) [i] v Released) ts v (Granted i) k v) q hs i Hcol)
    as (Hpos & (hs' & Hcol') & Hts & Hnd); [by rewrite Hheld|by apply (reads_not_writes P Hwf i o)|intros k; apply handed_move|].
  destruct (vq_complete_read_rep x q Hrep Hpos) as (x' & -> & Hrep'). rstep. eexists. split; [reflexivity|].
  apply (inv_release s i o v failed (CompleteRead v) l ts (Some x') (var_exception s)); auto.
  exists (spec_complete_read q).1, hs'. split; [done|]. cbn [var_of place_of]. rewrite set_eq. split; [done|]. intros Hdel.
  assert (vs_delete q = true) as Hdel' by (unfold spec_complete_read in Hdel; destruct (vs_queue q) as [|[]]; [done|]; by case_match).
  destruct (Hd Hdel') as (j & Hj & Hpl). exists j. split; [done|]. destruct Hj as (oj & Hoj & Hdj & Hvj).
  assert (j = i) as ->; [|by destruct (reads_not_writes P Hwf i o v Ho Hc); apply (writes_opr P i oj)].
  apply (column_exclusive _ _ _ _ _ _ _ Hcol); [apply (uses_opr P j oj); [done|apply elem_of_app; by right]|done|by rewrite Hpl|by rewrite Hheld|by apply (writes_opr P j oj)].
Qed.

(** A write that completes: what the variable does and whom it wakes. *)
Lemma complete_write_facts s i o failed v l :
  inv s → P !! i = Some o → phase_of s i = Completing failed (CompleteWrite v :: l) →
  ∃ x x' to_delete ts, var_of s v = Some x ∧ vq_complete_write x = Ok (x', to_delete, ts) ∧ (∀ k, k ∈ ts → place_of s k v = Queued) ∧ NoDup ts ∧
    ∀ s' : Engine, var_of s' v = (if to_delete then None else Some x') → (∀ k, place_of s' k v = move (move (place_of s) [i] v Released) ts v (Granted i) k v) → var_ok P s' v.
Proof.
  intros H Ho Hph. destruct (completing_holds s i o failed v l H Ho (or_intror Hph)) as (Hu & Hheld & _ & Hm). specialize (Hm Hph).
  destruct (alive P Hwf s i v H Hu) as (x & q & hs & Hx & Hcol & Hrep & Hd); [by rewrite Hheld|].
  assert (writes v i) as Hw by (by apply (writes_opr P i o)). set (ts := (spec_complete_write q).2).
  destruct (column_release_write _ _ (fun k => place_of s k v) (fun k => move (move (place_of s) [i] v Released) ts v (Granted i) k v) q hs i Hcol)
    as (Hr & (rest & Hq) & (hs' & Hcol') & Hts & Hnd); [by rewrite Hheld|done|intros k; apply handed_move|].
  destruct (vs_delete q) eqn:Hdel.
  - destruct (Hd eq_refl) as (j & (oj & Hoj & Hdj & Hvj) & Hpl).
    assert (j = i) as ->.
    { apply (column_exclusive _ _ _ _ _ _ _ Hcol); [apply (uses_opr P j oj); [done|apply elem_of_app; by right]|done|by rewrite Hpl|by rewrite Hheld|by apply (writes_opr P j oj)]. }
    destruct (Hwf i oj Hoj) as [_ Hlater]. specialize (Hlater Hdj).
    assert (rest = []) as ->.
    { destruct rest as [|[k w] rest]; [done|]. pose proof (co_sorted _ _ _ _ _ Hcol) as Hs. rewrite Hq in Hs. cbn in Hs. apply StronglySorted_inv in Hs as [_ Hs].
      apply Forall_cons in Hs as [Hlt _]. destruct (Hlater k v Hlt Hvj). apply (pushed P s k v H), (column_queue _ _ _ _ _ _ Hcol). rewrite Hq. right. by left. }
    destruct (vq_delete_rep x q i Hrep Hr Hq Hdel) as (x' & Ex). assert (ts = []) as Hnil by (unfold ts, spec_complete_write; by rewrite Hq). rewrite Hnil in Hcol'.
    exists x, x', true, []. split_and!; [done|done|by intros ? ?%not_elem_of_nil|constructor|]. intros s' Hv' Hpl'.
    exists (spec_complete_write q).1, hs'. split; [by eapply column_ext|]. rewrite Hv'. exists i. split; [by exists oj|].
    by rewrite Hpl', handed_move, decide_False, decide_True by (done || apply not_elem_of_nil).
  - destruct (vq_complete_write_rep x q i rest Hrep Hr Hq Hdel) as (x' & Ex & Hrep'). exists x, x', false, ts. split_and!; [done|done|done|done|]. intros s' Hv' Hpl'.
    exists (spec_complete_write q).1, hs'. split; [by eapply column_ext|]. rewrite Hv'. split; [done|].
    unfold spec_complete_write. destruct (front_reads (tail (vs_queue q))). cbn. by rewrite Hdel.
Qed.

Lemma inv_complete_write s i o failed v l :
  inv s → P !! i = Some o → phase_of s i = Completing failed (CompleteWrite v :: l) →
  ∃ s', complete_step i failed (CompleteWrite v) l s = Ok s' ∧ inv s'.
Proof.
  intros H Ho Hph. destruct (complete_write_facts s i o failed v l H Ho Hph) as (x & x' & del & ts & Hx & Ex & Hts & Hnd & Hv).
  unfold complete_step, get_var. rewrite Hx. cbn [of_option]. rstep. rewrite Ex. rstep. eexists. split; [reflexivity|].
  eapply (inv_release s i o v failed (CompleteWrite v) l ts (if del then None else Some x')); auto. apply Hv; [by cbn; rewrite set_eq|done].
Qed.

Lemma inv_finish s i o failed l : inv s → P !! i = Some o → phase_of s i = Completing failed (Finish :: l) →
  ∃ s', complete_step i failed Finish l s = Ok s' ∧ inv s'.
Proof.
  intros H Ho Hph. assert (i < next_ s)%nat as Hi by (apply phase_pushed; [done|by rewrite Hph]).
  pose proof (iv_phase P s H i o Ho Hi) as Hok. unfold phase_ok in Hok. rewrite Hph in Hok. destruct Hok as (ds & cs & ms & Hl & _ & _ & _ & Hat).
  destruct (complete_items _ _ ds cs ms Hl) as [(? & ? & ? & ? & _)|[(v' & cs' & E & _)|[(v' & ms' & E & _)|(_ & -> & -> & -> & ->)]]]; try done.
  assert (unfinished s = S (length (List.filter (fun k => match set (phase_of s) i Done k with Done => false | _ => true end) (seq 0 (next_ s))))) as Hun.
  { unfold unfinished. apply (count_set _ _ i).
    - apply NoDup_seq.
    - apply elem_of_seq. lia.
    - by rewrite set_eq.
    - by rewrite Hph.
    - intros k Hk. by rewrite set_ne. }
  unfold complete_step. rewrite check_bind_ok by (apply Z.leb_le; rewrite (iv_pending P s H); lia). eexists. split; [reflexivity|].
  split; cbn [next_ phase_of wait_of var_of mem var_exception pending_ place_of].
  - apply H.
  - intros k Hk. rewrite set_ne by lia. by apply (iv_fresh P s H).
  - apply H.
  - apply (phase_ok_other s _ i H); cbn; [done|intros k Hk; by rewrite set_ne|done|by left|]. intros o' _ _. unfold phase_ok. cbn. rewrite set_eq.
    intros v Hv. rewrite (Hat v Hv). rewrite decide_False; [done|]. apply not_elem_of_nil.
  - intros k Hk. rewrite (iv_wait P s H k Hk). f_equal. destruct (decide (k = i)) as [->|]; [by rewrite set_eq, Hph|by rewrite set_ne].
  - intros j k v. rewrite granted_other; [apply (iv_granted P s H)|]. intros k' v'. rewrite Hph. cbn [todo_of]. rewrite list_elem_of_singleton.
    split; [by intros ?%not_elem_of_nil|done].
  - intros v. by apply (var_ok_frame P s); [| |apply (iv_var P s H)].
  - rewrite (iv_pending P s H), Hun. unfold unfinished. cbn. lia.
Qed.

(** The operation that a decrement is for waits for it. *)
Lemma granted_waits s i k v : inv s → place_of s k v = Granted i →
  uses v k ∧ (k < next_ s)%nat ∧ (is_pushing (phase_of s k) = true ∨ phase_of s k = Waiting) ∧ (0 < unready_count P s k)%nat.
Proof.
  intros H Hg. destruct (pushed P s k v H) as [Hk Hu]; [by rewrite Hg|]. split_and!; [done|done| |].
  - destruct (lookup_lt_is_Some_2 P k) as [o Ho]; [pose proof (iv_next P s H); lia|]. pose proof (iv_phase P s H k o Ho Hk) as Hok. unfold phase_ok in Hok.
    destruct (phase_of s k) as [|l| | | |failed l|]; cbn; auto; try done; [by rewrite Hok in Hg|by rewrite Hok in Hg| |by rewrite Hok in Hg].
    destruct Hok as (ds & cs & ms & _ & _ & _ & _ & Hat). rewrite Hat in Hg by done. by case_decide.
  - destruct (unready_count P s k) eqn:E; [|lia]. pose proof (count_zero P s k E v Hu) as Hr. by rewrite Hg in Hr.
Qed.

Lemma inv_decr s i o failed k v l : inv s → P !! i = Some o → phase_of s i = Completing failed (Decr k v :: l) →
  ∃ s', complete_step i failed (Decr k v) l s = Ok s' ∧ inv s'.
Proof.
  intros H Ho Hph. assert (i < next_ s)%nat as Hi by (apply phase_pushed; [done|by rewrite Hph]).
  pose proof (iv_phase P s H i o Ho Hi) as Hok. unfold phase_ok in Hok. rewrite Hph in Hok. destruct Hok as (ds & cs & ms & Hl & Hnd & Hcs & Hms & Hat).
  destruct (complete_items _ _ ds cs ms Hl) as [(k' & v' & ds' & E & -> & Hl')|[(? & ? & ? & _)|[(? & ? & ? & _)|(? & _)]]]; try done. injection E as <- <-.
  apply NoDup_cons in Hnd as [Hkv Hnd].
  assert (place_of s k v = Granted i) as Hg by (apply (iv_granted P s H); rewrite Hph; by left).
  destruct (granted_waits s i k v H Hg) as (Hu & Hk & Hkp & Hcnt).
  assert (k ≠ i) as Hki by (intros ->; rewrite Hph in Hkp; by destruct Hkp).
  pose proof (iv_wait P s H k Hk) as Hwk. assert (0 < wait_of s k) as Hpos by (destruct (is_pushing (phase_of s k)); lia).
  unfold complete_step. rewrite decr_wait_ok by done. rstep. eexists. split; [reflexivity|].
  set (zero := wait_of s k - 1 =? 0).
  assert (zero = true → phase_of s k = Waiting) as Hzero.
  { unfold zero. intros E%Z.eqb_eq. destruct Hkp as [Hkp|]; [|done]. rewrite Hkp in Hwk. lia. }
  match goal with |- inv ?x => set (s' := x) end.
  assert (next_ s' = next_ s ∧ pending_ s' = pending_ s ∧ var_of s' = var_of s ∧ wait_of s' = set (wait_of s) k (wait_of s k - 1) ∧
    place_of s' = move (place_of s) [k] v Held) as (En & Ep & Ev & Ew & Epl) by (subst s'; by destruct zero).
  assert (∀ j, phase_of s' j = if decide (j = k) then (if zero then Ready else phase_of s k) else set (phase_of s) i (Completing failed l) j) as Eph.
  { intros j. subst s'. destruct zero; cbn; destruct (decide (j = k)) as [->|]; rewrite ?set_eq; rewrite ?set_ne by done; done. }
  clearbody s'.
  assert (unready_count P s k = S (unready_count P s' k)) as Hcount.
  { apply (count_drop P Hwf s s' k v); [done|by rewrite Hg|by rewrite Epl, move_one, decide_True|]. intros y Hy. rewrite Epl. by apply move_other. }
  assert (∀ j y, j ≠ k → place_of s' j y = place_of s j y) as Hrow by (intros j y Hj; rewrite Epl; apply move_row; by rewrite list_elem_of_singleton).
  split.
  - rewrite En. apply H.
  - intros j Hj. rewrite En in Hj. rewrite Eph, decide_False, set_ne by lia. split; [by apply (iv_fresh P s H)|]. intros y. rewrite Hrow by lia. by apply (iv_fresh P s H).
  - intros j y Hy. destruct (decide (j = k)) as [->|]; [|rewrite Hrow by done; by apply (iv_outside P s H)].
    rewrite Epl, move_other; [by apply (iv_outside P s H)|]. by intros ->.
  - intros j oj Hoj Hj. rewrite En in Hj. destruct (decide (j = i)) as [->|Hji]; [|destruct (decide (j = k)) as [->|Hjk]].
    + rewrite Ho in Hoj. injection Hoj as <-. unfold phase_ok. rewrite Eph, decide_False, set_eq by done. exists ds', cs, ms. split_and!; try done.
      intros y Hy. rewrite Hrow by done. by apply Hat.
    + pose proof (iv_phase P s H k oj Hoj Hk) as Hokk. destruct zero eqn:Ez.
      * specialize (Hzero eq_refl). unfold phase_ok in Hokk |- *. rewrite Hzero in Hokk. destruct Hokk as [_ Hokk]. rewrite Eph, decide_True by done.
        intros y Hy. rewrite Hzero in Hwk. cbn in Hwk. apply Z.eqb_eq in Ez. pose proof (count_zero P s' k ltac:(lia) y Hy) as Hr.
        destruct (decide (y = v)) as [->|Hyv]; [by rewrite Epl, move_one, decide_True|]. rewrite Epl, move_other in Hr |- * by done.
        destruct (Hokk y Hy) as [_ ?]. by destruct (place_of s k y).
      * apply (phase_ok_frame P s); [by rewrite Eph, decide_True|done| | |done].
        -- intros _ _. rewrite Ew, set_eq. by apply Z.eqb_neq in Ez.
        -- intros y _. rewrite Epl. destruct (decide (y = v)) as [->|]; [|left; by rewrite move_other]. right. right. exists i. by rewrite move_one, decide_True.
    + apply (phase_ok_frame P s); [by rewrite Eph, decide_False, set_ne|done|by rewrite Ew, set_ne| |by apply (iv_phase P s H)]. intros y _. left. by rewrite Hrow.
  - intros j Hj. rewrite En in Hj. rewrite Ew, Eph. destruct (decide (j = k)) as [->|Hjk].
    + rewrite set_eq. destruct zero eqn:Ez; [|lia]. specialize (Hzero eq_refl). rewrite Hzero in Hwk. cbn in *. lia.
    + rewrite (set_ne (wait_of s)) by done. rewrite (iv_wait P s H j Hj). f_equal; [f_equal; symmetry; apply count_same; intros y _; by rewrite Hrow|].
      destruct (decide (j = i)) as [->|]; [by rewrite set_eq, Hph|by rewrite set_ne].
  - intros j k1 y. destruct (decide (j = k)) as [->|Hjk].
    + rewrite Eph, decide_True by done. assert (Decr k1 y ∈ todo_of (if zero then Ready else phase_of s k) ↔ Decr k1 y ∈ todo_of (phase_of s k)) as ->.
      { destruct zero eqn:Ez; [|done]. by rewrite (Hzero eq_refl). }
      rewrite <- (iv_granted P s H). rewrite Epl, move_at. destruct (decide (k1 ∈ [k] ∧ y = v)) as [[->%list_elem_of_singleton ->]|]; [|done].
      rewrite Hg. split; [done|]. by intros [= ->].
    + rewrite Eph, decide_False by done. rewrite Epl, move_at. destruct (decide (k1 ∈ [k] ∧ y = v)) as [[->%list_elem_of_singleton ->]|Hne].
      * split; [done|]. destruct (decide (j = i)) as [->|Hji].
        -- rewrite set_eq. cbn [todo_of]. rewrite Hl', elem_of_app, decr_in_decrs. intros [?|?%decr_in_rest]; done.
        -- rewrite set_ne by done. rewrite <- (iv_granted P s H), Hg. by intros [= ->].
      * rewrite (iv_granted P s H). destruct (decide (j = i)) as [->|Hji]; [|by rewrite set_ne]. rewrite set_eq, Hph. cbn [todo_of]. rewrite elem_of_cons.
        split; [|by right]. intros [[= -> ->]|?]; [|done]. destruct Hne. by rewrite list_elem_of_singleton.
  - intros y. destruct (iv_var P s H y) as (q & hs & Hc & Hx). destruct (decide (y = v)) as [->|Hy].
    + exists q, hs. rewrite Ev. split; [apply (column_told _ _ (fun j => place_of s j v) _ _ _ k i); [done|done|]; intros j; rewrite Epl; apply move_one|].
      destruct (var_of s v) as [x|]; [|destruct Hx as (j & Hj & Hjr); exists j; split; [done|]; rewrite Epl, move_one; by destruct (decide (j = k)) as [->|]; [rewrite Hg in Hjr|]].
      destruct Hx as [Hrep Hd]. split; [done|]. intros E. destruct (Hd E) as (j & Hj & Hjr). exists j. split; [done|]. rewrite Epl, move_one. by case_decide.
    + apply (var_ok_frame P s s' y); [intros j; rewrite Epl; by apply move_other|by rewrite Ev|by exists q, hs].
  - rewrite Ep, (iv_pending P s H). f_equal. symmetry. apply unfinished_same; [done|]. intros j. rewrite Eph.
    destruct (decide (j = k)) as [->|]; [destruct zero eqn:Ez; [by rewrite (Hzero eq_refl)|done]|].
    destruct (decide (j = i)) as [->|]; [by rewrite set_eq, Hph|by rewrite set_ne].
Qed.

(** ** All steps together *)
Lemma inv_work s i : inv s → (∃ s', work P i s = Ok s' ∧ inv s') ∨ (∃ w, work P i s = Err (Blocked w)).
Proof.
  intros H. unfold work. destruct (P !! i) as [o|] eqn:Ho; [|right; by eexists].
  assert (phase_of s i ≠ NotPushed → phase_ok P s i o) as Hok by (intros Hp; apply (iv_phase P s H); [done|by apply phase_pushed]). unfold phase_ok in Hok.
  destruct (phase_of s i) as [|l| | |cs ms failed|failed l|] eqn:Hph; [right; by eexists| |right; by eexists|left|left| |right; by eexists].
  - left. destruct l as [|t l]; [|by apply (inv_push_step s i o)]. destruct Hok as (_ & cs & ms & Hl & _); [done|]. by destruct cs, ms.
  - eexists. split; [done|]. by apply inv_start.
  - eexists. split; [done|]. by apply inv_execute.
  - left. destruct Hok as (ds & cs & ms & Hl & _); [done|]. destruct l as [|t l]; [by destruct ds, cs, ms|].
    destruct (complete_items t l ds cs ms Hl) as [(k & v & ds' & -> & _)|[(v & cs' & -> & _)|[(v & ms' & -> & _)|(-> & _)]]].
    + by apply (inv_decr s i o).
    + by apply (inv_complete_read s i o).
    + by apply (inv_complete_write s i o).
    + by apply (inv_finish s i o).
Qed.

Lemma inv_engine_step s c :
  inv s → (∃ s', engine_step P false s c = Ok s' ∧ inv s') ∨ (∃ w, engine_step P false s c = Err (Blocked w)).
Proof.
  intros H. destruct c as [|i]; [|by apply inv_work]. cbn [engine_step]. destruct (Push P false s) as [s'|e] eqn:E.
  - left. exists s'. split; [done|]. by apply (inv_push s).
  - right. unfold Push in E. destruct (negb false && _); [injection E as <-; by eexists|]. destruct (P !! next_ s); [done|]. injection E as <-. by eexists.
Qed.

Lemma inv_step_Ok s c s' : inv s → engine_step P false s c = Ok s' → inv s'.
Proof. intros H E. destruct (inv_engine_step s c H) as [(s1 & E1 & H1)|(w & E1)]; rewrite E in E1; [by injection E1 as <-|done]. Qed.

Lemma inv_run s sched s' : inv s → engine_run P false s sched = Ok s' → inv s'.
Proof.
  unfold engine_run. revert s. induction sched as [|c sched IH]; intros s H E; cbn in E; [by injection E as <-|].
  apply bind_Ok_inv in E as (s1 & E1 & E). apply (IH s1); [by apply (inv_step_Ok s c)|done].
Qed.

(** A later operation that has got a variable shows that an earlier one is done with it. *)
Lemma order_kept s : inv s → ∀ i k v, (i < k)%nat → uses v i → uses v k → writes v i ∨ writes v k →
  match phase_of s k with Ready | Running _ _ _ | Completing _ _ | Done => True | _ => False end →
  match phase_of s i with Ready | Running _ _ _ | Completing _ _ | Done => True | _ => False end ∧
  ¬ match phase_of s i with Ready | Running _ _ _ => True | _ => False end.
Proof.
  intros H i k v Hlt Hui Huk Hw Hk.
  assert (k < next_ s)%nat as Hkn by (apply phase_pushed; [done|by destruct (phase_of s k)]).
  destruct (lookup_lt_is_Some_2 P k) as [ok Hok]; [pose proof (iv_next P s H); lia|]. destruct (lookup_lt_is_Some_2 P i) as [oi Hoi]; [pose proof (iv_next P s H); lia|].
  pose proof (iv_phase P s H k ok Hok Hkn) as Hpk. pose proof (iv_phase P s H i oi Hoi ltac:(lia)) as Hpi. unfold phase_ok in Hpk, Hpi.
  assert (past (place_of s k v)) as Hpast.
  { destruct (phase_of s k) as [|l| | | |failed l|]; try done; [left; by rewrite Hpk|left; by rewrite Hpk| |right; by rewrite Hpk].
    destruct Hpk as (ds & cs & ms & _ & _ & _ & _ & Hat). rewrite Hat by done. case_decide; [by left|by right]. }
  destruct (iv_var P s H v) as (q & hs & Hc & _). pose proof (co_conflict _ _ _ _ _ Hc i k Hlt Hui Hw Hpast) as Hrel. cbn in Hrel.
  destruct (phase_of s i) as [|l| | | |failed l|]; try done.
  - destruct Hpi as (_ & cs & ms & _ & _ & _ & Hat). by destruct (Hat v Hui).
  - destruct Hpi as [_ Hat]. by destruct (Hat v Hui).
  - by rewrite Hpi in Hrel.
  - by rewrite Hpi in Hrel.
  - split; [done|by intros []].
  - split; [done|by intros []].
Qed.

Lemma reachable_inv m sched s : engine_run P false (engine_init m) sched = Ok s → inv s.
Proof. apply inv_run, inv_init. Qed.
End Steps.

(** ** Safety *)

(** Two threads may not run, and one of them change, what both use. *)
Definition conflict {Val} (P : list (Opr Val)) (i k : nat) : Prop := ∃ v, uses P v i ∧ uses P v k ∧ (writes P v i ∨ writes P v k).

Definition executing {Val V} (s : Engine Val V) (i : nat) : Prop := match phase_of s i with Ready | Running _ _ _ => True | _ => False end.

(** Whether a thread has begun to run an operation. *)
Definition dispatched {Val V} (s : Engine Val V) (i : nat) : Prop :=
  match phase_of s i with Ready | Running _ _ _ | Completing _ _ | Done => True | _ => False end.

(** C3: the engine never fails and never runs conflicting operations together or out of
    order.  For every program whose operations name a variable once and do not use a deleted
    one, under every schedule of the pushing thread and the worker threads: whichever thread
    moves next, no check or assertion fails and no deleted variable is touched; an operation
    that conflicts with an operation pushed before it is not given to a worker until the
    earlier one has run, so two conflicting operations never run at the same time. *)
Theorem engine_safe {Val V} `{!VarQueue V} (P : list (Opr Val)) (m : Z → Val) sched (s : Engine Val V) :
  wf_program P → engine_run P false (engine_init m) sched = Ok s →
  (∀ c, (∃ s', engine_step P false s c = Ok s') ∨ (∃ w, engine_step P false s c = Err (Blocked w))) ∧
  (∀ i k, (i < k)%nat → conflict P i k → dispatched s k → dispatched s i ∧ ¬ executing s i).
Proof.
  intros Hwf Hrun. pose proof (reachable_inv P Hwf m sched s Hrun) as H. split.
  - intros c. destruct (inv_engine_step P Hwf s c H) as [(s' & E & _)|?]; [left; by exists s'|by right].
  - intros i k Hlt (v & Hui & Huk & Hw) Hk. by apply (order_kept P s H i k v).
Qed.

(** Two writers of variable 1 with a reader between them; the first is running. *)
Definition w_write (v : Z) (y : Z) : Opr Z :=
  {| const_vars := []; mutable_vars := [v]; fn := fun _ _ => ([y], false); opr_wait := false; deletes := false |}.
Definition w_copy (v w : Z) : Opr Z :=
  {| const_vars := [v]; mutable_vars := [w]; fn := fun cs _ => (cs, false); opr_wait := false; deletes := false |}.
Definition w_program : list (Opr Z) := [w_write 1 5; w_copy 1 2; w_write 1 7].
Definition w_push (i deps : nat) : list choice := ChoosePush :: replicate (S deps) (Choose i).
Definition w_sched : list choice := w_push 0 1 ++ w_push 1 2 ++ w_push 2 1 ++ [Choose 0].
Definition w_start : Engine Z ThreadedVar := engine_init (fun _ => 0).
Definition w_state : Engine Z ThreadedVar := match engine_run w_program false w_start w_sched with Ok s => s | Err _ => w_start end.

Lemma w_program_wf : wf_program w_program.
Proof.
  intros i o Ho. assert (o ∈ w_program) as Hin by (by apply list_elem_of_lookup_2 with i). split; [|].
  - revert o Ho Hin. intros o _ Hin. unfold w_program in Hin. rewrite !elem_of_cons in Hin. destruct Hin as [->|[->|[->|Hin]]]; [by_decision..|by apply not_elem_of_nil in Hin].
  - unfold w_program in Hin. rewrite !elem_of_cons in Hin. destruct Hin as [->|[->|[->|Hin]]]; [done..|by apply not_elem_of_nil in Hin].
Qed.

Lemma engine_safe_witness : executing w_state 0 ∧ ¬ dispatched w_state 2.
Proof.
  split; [exact I|]. intros Hd.
  destruct (engine_safe w_program (fun _ => 0) w_sched w_state) as [_ H]; [apply w_program_wf|vm_compute; reflexivity|].
  destruct (H 0%nat 2%nat) as [_ Hn]; [lia|exists 1; split_and!; [by_decision|by_decision|left; by left]|exact Hd|]. apply Hn. exact I.
Defined.
