(* ===== verification/EngineSerial.v ===== *)
(** * The dependency engine: results and progress

    Whatever the schedule, the arrays and the exceptions of their variables end up as if
    the operations had run one after the other in the order in which they were pushed; and
    every schedule that always moves when it can ends with all operations done. *)

From Stdlib Require Import String.
From S2P Require Import Prelude EngineVar Engine EngineInv EngineSteps.
Local Open Scope Z_scope.

(** ** The reference *)
Lemma existsb_ext {A} (f g : A → bool) l : (∀ x, List.In x l → f x = g x) → existsb f l = existsb g l.
Proof. induction l as [|x l IH]; [done|]. intros H. cbn. rewrite H by (by left). f_equal. apply IH. intros y Hy. apply H. by right. Qed.

Section Reference.
Context {Val : Type} (P : list (Opr Val)) (m0 : Z → Val).
Local Abbreviation ref n := (seq_run P n m0).

Lemma write_vals_same (m m' : Z → Val) vs : ∀ ys v, m v = m' v → write_vals m vs ys v = write_vals m' vs ys v.
Proof.
  revert m m'. induction vs as [|w vs IH]; intros m m' [|y ys] v Hv; try done. cbn. apply IH. unfold set. by case_decide.
Qed.

Lemma write_vals_other (m : Z → Val) vs : ∀ ys v, v ∉ vs → write_vals m vs ys v = m v.
Proof.
  revert m. induction vs as [|w vs IH]; intros m [|y ys] v Hv; try done. apply not_elem_of_cons in Hv as [Hw Hv]. cbn. rewrite IH by done. by rewrite set_ne.
Qed.

Lemma seq_step_other (o : Opr Val) st v : v ∉ mutable_vars o → (seq_step o st).1 v = st.1 v ∧ (seq_step o st).2 v = st.2 v.
Proof.
  intros Hv. destruct st as [m x]. unfold seq_step. assert (bool_decide (v ∈ mutable_vars o) || x v = x v) as E by (by rewrite bool_decide_false).
  destruct (OnStart o x && negb (opr_wait o)); [by cbn; rewrite E|]. destruct (fn o _ _) as [out threw]. cbn. rewrite write_vals_other by done.
  by destruct (OnStart o x || threw); cbn; rewrite ?E.
Qed.

(** A variable keeps its value while nobody writes it. *)
Lemma seq_frame v n n' : (n ≤ n')%nat → (∀ i, (n ≤ i < n')%nat → ¬ writes P v i) → (ref n').1 v = (ref n).1 v ∧ (ref n').2 v = (ref n).2 v.
Proof.
  intros Hle. induction Hle as [|n' Hle IH]; intros Hw; [done|]. destruct IH as [IH1 IH2]; [intros i Hi; apply Hw; lia|]. cbn [seq_run].
  specialize (Hw n' ltac:(lia)). unfold writes in Hw. destruct (P !! n') as [o|]; [|done]. destruct (seq_step_other o (ref n') v Hw) as [-> ->]. done.
Qed.

(** What an operation leaves in the variables it may change. *)
Definition outcome (o : Opr Val) (cs ms : list Val) (failed : bool) : bool :=
  if failed && negb (opr_wait o) then true else failed || (fn o cs ms).2.

Lemma seq_step_exn (o : Opr Val) st v : v ∈ mutable_vars o →
  (seq_step o st).2 v = outcome o (st.1 <$> const_vars o) (st.1 <$> mutable_vars o) (OnStart o st.2) || st.2 v.
Proof.
  intros Hv. destruct st as [m x]. unfold seq_step, outcome. cbn [fst snd].
  destruct (OnStart o x && negb (opr_wait o)); [by cbn; rewrite bool_decide_true|]. destruct (fn o _ _) as [out threw]. cbn [fst snd].
  destruct (OnStart o x || threw); [by cbn; rewrite bool_decide_true|done].
Qed.
End Reference.

Section Serial.
Context {Val V : Type} `{!VarQueue V}.
Context (P : list (Opr Val)) (Hwf : wf_program P) (m0 : Z → Val).
Local Abbreviation Engine := (Engine Val V).
Local Abbreviation ref n := (seq_run P n m0).

Definition completing (s : Engine) (i : nat) : Prop := match phase_of s i with Completing _ _ => True | _ => False end.

(** Exactly the first [n] operations that write [v] are past it. *)
Definition written (s : Engine) (v : Z) (n : nat) : Prop := ∀ i, writes P v i → (place_of s i v = Released ↔ (i < n)%nat).

Record minv (s : Engine) : Prop := {
  mv_mem : ∀ v n, written s v n → (∀ i, writes P v i → place_of s i v = Held → ¬ completing s i) → mem s v = (ref n).1 v;
  mv_exn : ∀ v n, written s v n → var_exception s v = (ref n).2 v;
  mv_running : ∀ i o cs ms f, P !! i = Some o → phase_of s i = Running cs ms f →
    cs = (ref i).1 <$> const_vars o ∧ ms = (ref i).1 <$> mutable_vars o ∧ f = OnStart o (ref i).2;
  mv_completing : ∀ i o f l, P !! i = Some o → phase_of s i = Completing f l → ∀ v, v ∈ mutable_vars o →
    f || (ref i).2 v = (ref (S i)).2 v ∧ (place_of s i v = Held → mem s v = (ref (S i)).1 v)
}.

Lemma minv_init : minv (engine_init m0).
Proof.
  split; cbn; try done.
  - intros v n Hw _. destruct (seq_frame P m0 v 0 n) as [-> _]; [lia| |done]. intros i Hi Hwi. by apply Hw in Hwi as [_ Hwi]; specialize (Hwi ltac:(lia)).
  - intros v n Hw. destruct (seq_frame P m0 v 0 n) as [_ ->]; [lia| |done]. intros i Hi Hwi. by apply Hw in Hwi as [_ Hwi]; specialize (Hwi ltac:(lia)).
Qed.

(** An operation that holds a variable sees all earlier writes and no later one. *)
Lemma held_written s i v : inv P s → uses P v i → place_of s i v = Held → written s v i.
Proof.
  intros H Hu Hheld k Hw. destruct (iv_var P s H v) as (q & hs & Hc & _). split.
  - intros Hrel. destruct (Nat.lt_trichotomy k i) as [?|[->|Hlt]]; [done|by rewrite Hheld in Hrel|].
    pose proof (co_conflict _ _ _ _ _ Hc i k Hlt Hu (or_intror Hw)) as E. cbn in E. rewrite Hheld in E. by discriminate (E (or_intror Hrel)).
  - intros Hlt. apply (co_conflict _ _ _ _ _ Hc k i Hlt); [|by left|left; by rewrite Hheld]. unfold uses, vars_of, writes in *.
    destruct (P !! k); [|done]. apply elem_of_app. by right.
Qed.

Lemma writes_uses v i : writes P v i → uses P v i.
Proof. unfold uses, vars_of, writes. destruct (P !! i); [|done]. intros. apply elem_of_app. by right. Qed.

Lemma held_exclusive s i k v : inv P s → uses P v i → place_of s i v = Held → place_of s k v = Held → writes P v k → k = i.
Proof.
  intros H Hu Hi Hk Hw. destruct (iv_var P s H v) as (q & hs & Hc & _).
  apply (column_exclusive _ _ _ _ _ _ _ Hc); [by apply writes_uses|done|by rewrite Hk|by rewrite Hi|done].
Qed.

Lemma held_values s i v : inv P s → minv s → uses P v i → place_of s i v = Held → ¬ completing s i →
  mem s v = (ref i).1 v ∧ var_exception s v = (ref i).2 v.
Proof.
  intros H HM Hu Hheld Hnc. pose proof (held_written s i v H Hu Hheld) as Hw. split; [|by apply (mv_exn s HM)].
  apply (mv_mem s HM); [done|]. intros k Hk Hkh. by rewrite (held_exclusive s i k v).
Qed.

(** Steps that do not touch the arrays, the exceptions or who has written what. *)
Lemma minv_frame s (s' : Engine) :
  minv s → (∀ v, mem s' v = mem s v) → (∀ v, var_exception s' v = var_exception s v) →
  (∀ i v, writes P v i → (place_of s' i v = Released ↔ place_of s i v = Released)) →
  (∀ i v, writes P v i → completing s i → place_of s i v = Held → completing s' i ∧ place_of s' i v = Held) →
  (∀ i o cs ms f, P !! i = Some o → phase_of s' i = Running cs ms f → phase_of s i = Running cs ms f ∨
     (cs = (ref i).1 <$> const_vars o ∧ ms = (ref i).1 <$> mutable_vars o ∧ f = OnStart o (ref i).2)) →
  (∀ i f l, phase_of s' i = Completing f l → ∃ l', phase_of s i = Completing f l' ∧ ∀ v, writes P v i → place_of s' i v = Held → place_of s i v = Held) →
  minv s'.
Proof.
  intros HM Hm Hx Hrel Hheld Hrun Hcomp.
  assert (∀ v n, written s' v n → written s v n) as Hw by (intros v n Hw i Hi; rewrite <- Hrel by done; by apply Hw).
  split.
  - intros v n Hwr Hnc. rewrite Hm. apply (mv_mem s HM); [auto|]. intros i Hi Hp Hc. destruct (Hheld i v Hi Hc Hp) as [Hc' Hp']. by apply (Hnc i).
  - intros v n Hwr. rewrite Hx. by apply (mv_exn s HM), Hw.
  - intros i o cs ms f Ho E. destruct (Hrun i o cs ms f Ho E) as [E'|?]; [by apply (mv_running s HM i o)|done].
  - intros i o f l Ho E v Hv. destruct (Hcomp i f l E) as (l' & E' & Hp). destruct (mv_completing s HM i o f l' Ho E' v Hv) as [H1 H2]. split; [done|].
    intros Hh. rewrite Hm. apply H2, Hp; [|done]. by apply (writes_opr P i o).
Qed.

(** Steps of an operation that has not started. *)
Lemma minv_local s (s' : Engine) i :
  minv s → (∀ v, mem s' v = mem s v) → (∀ v, var_exception s' v = var_exception s v) →
  (∀ k, k ≠ i → phase_of s' k = phase_of s k ∧ ∀ v, place_of s' k v = place_of s k v) →
  (∀ v, writes P v i → (place_of s' i v = Released ↔ place_of s i v = Released)) → ¬ completing s i →
  match phase_of s' i with Completing _ _ | Running _ _ _ => False | _ => True end → minv s'.
Proof.
  intros HM Hm Hx Hother Hrel Hnc Hph. apply (minv_frame s); try done.
  - intros k v Hw. destruct (decide (k = i)) as [->|Hk]; [auto|]. destruct (Hother k Hk) as [_ Hp]. by rewrite Hp.
  - intros k v Hw Hc Hh. destruct (decide (k = i)) as [->|Hk]; [done|]. unfold completing in *. destruct (Hother k Hk) as [Hp Hp']. by rewrite Hp, Hp'.
  - intros k o cs ms f Ho E. destruct (decide (k = i)) as [->|Hk]; [by rewrite E in Hph|]. left. destruct (Hother k Hk) as [Hp _]. by rewrite <- Hp.
  - intros k f l E. destruct (decide (k = i)) as [->|Hk]; [by rewrite E in Hph|]. destruct (Hother k Hk) as [Hp Hp']. exists l. rewrite <- Hp. split; [done|]. intros v _. by rewrite Hp'.
Qed.

Lemma minv_push s s' : minv s → inv P s → Push P false s = Ok s' → minv s'.
Proof.
  intros HM H. unfold Push. destruct (negb false && _); [done|]. destruct (P !! next_ s) as [o|]; [|done]. intros [= <-].
  destruct (iv_fresh P s H (next_ s)) as [Hph _]; [lia|]. apply (minv_local s _ (next_ s)); try done; cbn.
  - intros k Hk. split; [by rewrite set_ne|done].
  - unfold completing. rewrite Hph. tauto.
  - by rewrite set_eq.
Qed.

(** What a successful step of [Push] does. *)
Lemma append_inv i v r l (s s' : Engine) : append i v r l s = Ok s' →
  ∃ x (b : bool), r = Ok (x, b) ∧ s' = {| next_ := next_ s; phase_of := set (phase_of s) i (Pushing l);
    wait_of := if b then set (wait_of s) i (wait_of s i - 1) else wait_of s; var_of := set (var_of s) v (Some x); mem := mem s;
    var_exception := var_exception s; pending_ := pending_ s; place_of := move (place_of s) [i] v (if b then Held else Queued) |}.
Proof.
  unfold append. intros E. apply bind_Ok_inv in E as ([x b] & -> & E). cbn [fst snd] in E. exists x, b. destruct b.
  - apply bind_Ok_inv in E as ([s1 r1] & E1 & E). unfold decr_wait in E1. apply check_inv in E1 as [_ E1]. injection E1 as <- <-. by injection E as <-.
  - by injection E as <-.
Qed.

Lemma minv_push_step s s' i o t l : minv s → inv P s → P !! i = Some o → phase_of s i = Pushing (t :: l) → push_step i t l s = Ok s' → minv s'.
Proof.
  intros HM H Ho Hph E. assert (i < next_ s)%nat as Hi by (apply (phase_pushed P); [done|by rewrite Hph]).
  pose proof (iv_phase P s H i o Ho Hi) as Hok. unfold phase_ok in Hok. rewrite Hph in Hok. destruct Hok as (_ & cs & ms & Hl & _ & _ & Hat).
  assert (∀ r v, append i v r l s = Ok s' → minv s') as Happ.
  { intros r v E'. apply append_inv in E' as (x & b & _ & ->). apply (minv_local s _ i); try done; cbn.
    - intros k Hk. split; [by rewrite set_ne|]. intros y. apply move_row. by rewrite list_elem_of_singleton.
    - intros y Hy. apply writes_uses in Hy. destruct (Hat y Hy) as [_ Hr]. rewrite move_at. case_decide; [|done]. by destruct b.
    - unfold completing. rewrite Hph. tauto.
    - by rewrite set_eq. }
  destruct (push_items t l cs ms Hl) as [(v & cs' & -> & _)|[(v & ms' & -> & _)|(-> & _)]]; cbn in E.
  - apply bind_Ok_inv in E as (x & _ & E). by eapply Happ.
  - apply bind_Ok_inv in E as (x & _ & E). by eapply Happ.
  - apply bind_Ok_inv in E as ([s1 r1] & E1 & E). unfold decr_wait in E1. apply check_inv in E1 as [_ E1]. injection E1 as <- <-. injection E as <-.
    apply (minv_local s _ i); try done; cbn; [intros k Hk; split; [by rewrite set_ne|done]|unfold completing; rewrite Hph; tauto|]. rewrite set_eq. by case_match.
Qed.

Lemma minv_start s i o : minv s → inv P s → P !! i = Some o → phase_of s i = Ready → minv (start i o s).
Proof.
  intros HM H Ho Hph. assert (i < next_ s)%nat as Hi by (apply (phase_pushed P); [done|by rewrite Hph]).
  pose proof (iv_phase P s H i o Ho Hi) as Hok. unfold phase_ok in Hok. rewrite Hph in Hok.
  assert (∀ v, v ∈ const_vars o ++ mutable_vars o → mem s v = (ref i).1 v ∧ var_exception s v = (ref i).2 v) as Hval.
  { intros v Hv. assert (uses P v i) as Hu by (by apply (uses_opr P i o)). apply held_values; auto. unfold completing. rewrite Hph. tauto. }
  apply (minv_frame s); try done; cbn.
  - intros k v Hw Hc Hh. split; [|done]. unfold completing in *. cbn. destruct (decide (k = i)) as [->|]; [by rewrite Hph in Hc|by rewrite set_ne].
  - intros k ok cs ms f Hok' E. destruct (decide (k = i)) as [->|]; [|left; by rewrite set_ne in E]. rewrite Ho in Hok'. injection Hok' as <-.
    right. rewrite set_eq in E. injection E as <- <- <-. split_and!.
    + apply list_fmap_ext. intros _ v Hv%list_elem_of_lookup_2. apply Hval, elem_of_app. by left.
    + apply list_fmap_ext. intros _ v Hv%list_elem_of_lookup_2. apply Hval, elem_of_app. by right.
    + unfold OnStart. f_equal; apply existsb_ext; intros v Hv%list_elem_of_In; apply Hval, elem_of_app; auto.
  - intros k f l E. destruct (decide (k = i)) as [->|]; [by rewrite set_eq in E|]. rewrite set_ne in E by done. by exists l.
Qed.

(** The arrays after an operation are those of the reference. *)
Lemma minv_execute s i o cs ms f : minv s → inv P s → P !! i = Some o → phase_of s i = Running cs ms f → minv (execute i o cs ms f s).
Proof.
  intros HM H Ho Hph. assert (i < next_ s)%nat as Hi by (apply (phase_pushed P); [done|by rewrite Hph]).
  pose proof (iv_phase P s H i o Ho Hi) as Hheld. unfold phase_ok in Hheld. rewrite Hph in Hheld.
  destruct (mv_running s HM i o cs ms f Ho Hph) as (-> & -> & ->).
  assert (∀ v, v ∈ mutable_vars o → place_of s i v = Held ∧ uses P v i ∧ writes P v i ∧ mem s v = (ref i).1 v) as Hmine.
  { intros v Hv. assert (writes P v i) as Hw by (by apply (writes_opr P i o)). pose proof (writes_uses v i Hw) as Hu. split_and!; auto.
    apply held_values; auto. unfold completing. rewrite Hph. tauto. }
  set (f' := outcome o ((ref i).1 <$> const_vars o) ((ref i).1 <$> mutable_vars o) (OnStart o (ref i).2)).
  match goal with |- minv ?x => set (s' := x) end.
  assert (place_of s' = place_of s ∧ var_exception s' = var_exception s ∧ (∀ k, phase_of s' k = set (phase_of s) i (Completing f' (completion o)) k) ∧
    (∀ v, v ∉ mutable_vars o → mem s' v = mem s v) ∧ (∀ v, v ∈ mutable_vars o → mem s' v = (ref (S i)).1 v)) as (Epl & Ex & Eph & Emo & Emm).
  { subst s' f'. unfold execute, outcome. cbn [seq_run]. rewrite Ho. unfold seq_step. destruct (ref i) as [m x] eqn:Er. cbn [fst snd] in *.
    destruct (OnStart o x && negb (opr_wait o)).
    - split_and!; try done. intros v Hv. by apply Hmine.
    - destruct (fn o _ _) as [out threw]. split_and!; try done; cbn [mem set_phase].
      + intros v Hv. by apply write_vals_other.
      + intros v Hv. cbn [fst]. apply write_vals_same. by apply Hmine. }
  clearbody s'.
  assert (∀ k v, writes P v k → k ≠ i → place_of s k v = Held → v ∉ mutable_vars o) as Hexcl.
  { intros k v Hw Hk Hh Hv. destruct (Hmine v Hv) as (Hhi & Hu & _). destruct Hk. by apply (held_exclusive s i k v). }
  split.
  - intros v n Hwr Hnc. unfold written in Hwr. rewrite Epl in Hwr, Hnc. destruct (decide (v ∈ mutable_vars o)) as [Hv|Hv].
    + destruct (Hmine v Hv) as (Hh & _ & Hw & _). destruct (Hnc i Hw Hh). unfold completing. by rewrite Eph, set_eq.
    + rewrite Emo by done. apply (mv_mem s HM); [done|]. intros k Hk Hh Hc. apply (Hnc k Hk Hh). unfold completing in *. rewrite Eph. destruct (decide (k = i)) as [->|]; [by rewrite set_eq|by rewrite set_ne].
  - intros v n Hwr. unfold written in Hwr. rewrite Epl in Hwr. rewrite Ex. by apply (mv_exn s HM).
  - intros k ok cs ms f Hok E. rewrite Eph in E. destruct (decide (k = i)) as [->|]; [by rewrite set_eq in E|]. rewrite set_ne in E by done. by apply (mv_running s HM).
  - intros k ok f l Hok E v Hv. rewrite Eph in E. rewrite Epl. destruct (decide (k = i)) as [->|Hk].
    + rewrite Ho in Hok. injection Hok as <-. rewrite set_eq in E. injection E as <- _. split; [|intros _; by apply Emm].
      cbn [seq_run]. rewrite Ho. by rewrite (seq_step_exn o (ref i) v Hv).
    + rewrite set_ne in E by done. destruct (mv_completing s HM k ok f l Hok E v Hv) as [H1 H2]. split; [done|]. intros Hh. rewrite Emo; [auto|].
      apply (Hexcl k v); [by apply (writes_opr P k ok)|done|done].
Qed.

(** ** Completion *)
Lemma minv_complete_read s s' i o f v l :
  minv s → inv P s → P !! i = Some o → phase_of s i = Completing f (CompleteRead v :: l) → complete_step i f (CompleteRead v) l s = Ok s' → minv s'.
Proof.
  intros HM H Ho Hph E. destruct (completing_holds P s i o f v l H Ho (or_introl Hph)) as (Hu & Hheld & Hc & _). specialize (Hc Hph).
  pose proof (reads_not_writes P Hwf i o v Ho Hc) as Hnw.
  destruct (alive P Hwf s i v H Hu) as (x & q & hs & Hx & Hcol & Hrep & _); [by rewrite Hheld|]. cbn in E. unfold get_var in E. rewrite Hx in E. cbn [of_option] in E. cbn [mbind result_bind] in E.
  destruct (column_release_read _ _ (fun k => place_of s k v) (fun k => move (move (place_of s) [i] v Released) (option_list (spec_complete_read q).2) v (Granted i) k v) q hs i Hcol)
    as (Hpos & _ & Hts & _); [by rewrite Hheld|done|intros k; apply handed_move|].
  destruct (vq_complete_read_rep x q Hrep Hpos) as (x' & Ex & _). rewrite Ex in E. cbn [mbind result_bind snd fst] in E. set (ts := option_list (spec_complete_read q).2) in *.
  injection E as <-. apply (minv_frame s); try done; cbn.
  - intros k y Hw. destruct (decide (y = v)) as [->|Hy]; [|by rewrite !move_other]. rewrite handed_move.
    destruct (decide (k ∈ ts)) as [Hk|]; [rewrite (Hts k Hk); done|]. by destruct (decide (k = i)) as [->|].
  - intros k y Hw Hcm Hh. split.
    + unfold completing in *. cbn. destruct (decide (k = i)) as [->|]; [by rewrite set_eq|by rewrite set_ne].
    + destruct (decide (y = v)) as [->|Hy]; [|by rewrite !move_other]. rewrite handed_move.
      destruct (decide (k ∈ ts)) as [Hk|]; [by rewrite (Hts k Hk) in Hh|]. by destruct (decide (k = i)) as [->|].
  - intros k ok cs ms g Hok E. left. destruct (decide (k = i)) as [->|]; [by rewrite set_eq in E|by rewrite set_ne in E].
  - intros k g l' E. destruct (decide (k = i)) as [->|Hk].
    + rewrite set_eq in E. injection E as <- _. exists (CompleteRead v :: l). split; [done|]. intros y Hw. destruct (decide (y = v)) as [->|Hy]; [done|]. by rewrite !move_other.
    + rewrite set_ne in E by done. exists l'. split; [done|]. intros y Hw. destruct (decide (y = v)) as [->|Hy]; [|by rewrite !move_other]. rewrite handed_move.
      destruct (decide (k ∈ ts)); [done|]. by rewrite decide_False.
Qed.

Lemma minv_complete_write s s' i o f v l :
  minv s → inv P s → P !! i = Some o → phase_of s i = Completing f (CompleteWrite v :: l) → complete_step i f (CompleteWrite v) l s = Ok s' → minv s'.
Proof.
  intros HM H Ho Hph E. destruct (completing_holds P s i o f v l H Ho (or_intror Hph)) as (Hu & Hheld & _ & Hv). specialize (Hv Hph).
  assert (writes P v i) as Hw by (by apply (writes_opr P i o)).
  destruct (complete_write_facts P Hwf s i o f v l H Ho Hph) as (x & x' & del & ts & Hx & Ex & Hts & Hnd & _).
  cbn in E. unfold get_var in E. rewrite Hx in E. cbn [of_option mbind result_bind] in E. rewrite Ex in E. cbn [mbind result_bind] in E. injection E as <-.
  destruct (iv_var P s H v) as (q & hs & Hcol & _). destruct (mv_completing s HM i o f _ Ho Hph v Hv) as [Hexn Hmem].
  pose proof (mv_exn s HM v i (held_written s i v H Hu Hheld)) as Hx0.
  match goal with |- minv ?y => set (s' := y) end.
  assert (∀ k y, y ≠ v → place_of s' k y = place_of s k y) as Hother by (intros k y Hy; subst s'; cbn; by rewrite !move_other).
  assert (∀ k, place_of s' k v = if decide (k ∈ ts) then Granted i else if decide (k = i) then Released else place_of s k v) as Hpl by (intros k; apply handed_move).
  assert (∀ n, written s' v n → (i < n)%nat ∧ (ref n).1 v = (ref (S i)).1 v ∧ (ref n).2 v = (ref (S i)).2 v) as Hafter.
  { intros n Hn. assert (i < n)%nat as Hin.
    { apply (Hn i Hw). rewrite Hpl, decide_False, decide_True; [done|done|]. intros Hk. by rewrite (Hts i Hk) in Hheld. }
    split; [done|]. apply seq_frame; [lia|]. intros k Hk Hwk. assert (place_of s' k v = Released) as Hr by (apply (Hn k Hwk); lia).
    rewrite Hpl in Hr. destruct (decide (k ∈ ts)); [done|]. rewrite decide_False in Hr by lia.
    pose proof (co_conflict _ _ _ _ _ Hcol i k ltac:(lia) Hu (or_introl Hw) (or_intror Hr)) as E. cbn in E. congruence. }
  assert (∀ k, phase_of s' k = set (phase_of s) i (Completing f (((fun o => Decr o v) <$> ts) ++ l)) k) as Eph by done.
  assert (∀ y, mem s' y = mem s y) as Em by done.
  assert (∀ y, y ≠ v → var_exception s' y = var_exception s y) as Ey by (intros y Hy; subst s'; cbn; destruct f; [by rewrite set_ne|done]).
  assert (var_exception s' v = f || var_exception s v) as Ev by (subst s'; cbn; destruct f; [by rewrite set_eq|done]).
  assert (∀ k, completing s' k ↔ completing s k) as Ec.
  { intros k. unfold completing. rewrite Eph. destruct (decide (k = i)) as [->|]; [by rewrite set_eq, Hph|by rewrite set_ne]. }
  clearbody s'. split.
  - intros y n Hn Hnc. rewrite Em. destruct (decide (y = v)) as [->|Hy].
    + destruct (Hafter n Hn) as (_ & -> & _). by apply Hmem.
    + apply (mv_mem s HM); [intros k Hk; rewrite <- (Hother k y Hy); by apply Hn|]. intros k Hk Hh. rewrite <- Ec. apply Hnc; [done|]. by rewrite Hother.
  - intros y n Hn. destruct (decide (y = v)) as [->|Hy].
    + destruct (Hafter n Hn) as (_ & _ & ->). by rewrite Ev, Hx0, Hexn.
    + rewrite Ey by done. apply (mv_exn s HM). intros k Hk. rewrite <- (Hother k y Hy). by apply Hn.
  - intros k ok cs ms g Hok E. rewrite Eph in E. destruct (decide (k = i)) as [->|]; [by rewrite set_eq in E|]. rewrite set_ne in E by done. by apply (mv_running s HM).
  - intros k ok g l' Hok E y Hy. assert (∃ l0, phase_of s k = Completing g l0) as [l0 E0].
    { rewrite Eph in E. destruct (decide (k = i)) as [->|]; [rewrite set_eq in E; injection E as <- _; by eexists|rewrite set_ne in E by done; by eexists]. }
    destruct (mv_completing s HM k ok g l0 Hok E0 y Hy) as [H1 H2]. split; [done|]. rewrite Em. intros Hh. apply H2. destruct (decide (y = v)) as [->|]; [|by rewrite <- Hother].
    rewrite Hpl in Hh. destruct (decide (k ∈ ts)); [done|]. by destruct (decide (k = i)).
Qed.

Lemma minv_decr s s' i o f k v l :
  minv s → inv P s → P !! i = Some o → phase_of s i = Completing f (Decr k v :: l) → complete_step i f (Decr k v) l s = Ok s' → minv s'.
Proof.
  intros HM H Ho Hph E. assert (place_of s k v = Granted i) as Hg by (apply (iv_granted P s H); rewrite Hph; by left).
  destruct (granted_waits P s i k v H Hg) as (Hu & Hk & Hkp & _).
  assert (k ≠ i) as Hki by (intros ->; rewrite Hph in Hkp; by destruct Hkp).
  assert (¬ completing s k ∧ ∀ cs ms g, phase_of s k ≠ Running cs ms g) as [Hkc Hkr] by (unfold completing; destruct Hkp as [Hkp|Hkp]; destruct (phase_of s k); try done; split; done || tauto).
  cbn in E. apply bind_Ok_inv in E as ([s1 r1] & E1 & E). unfold decr_wait in E1. apply check_inv in E1 as [_ E1]. injection E1 as <- <-. injection E as <-.
  match goal with |- minv ?y => set (s' := y) end. cbn [fst snd] in s'.
  assert (mem s' = mem s ∧ var_exception s' = var_exception s ∧ place_of s' = move (place_of s) [k] v Held) as (Em & Ex & Epl) by (subst s'; by case_match).
  assert (∀ j, j ≠ k → phase_of s' j = set (phase_of s) i (Completing f l) j) as Eph by (intros j Hj; subst s'; case_match; cbn; [by rewrite set_ne|done]).
  assert (phase_of s' k = Ready ∨ phase_of s' k = phase_of s k) as Ek.
  { subst s'; case_match; cbn; [left; by rewrite set_eq|right; by rewrite set_ne]. }
  clearbody s'. apply (minv_frame s); [done|by rewrite Em|by rewrite Ex| | | |].
  - intros j y _. rewrite Epl, move_at. destruct (decide (j ∈ [k] ∧ y = v)) as [[->%list_elem_of_singleton ->]|]; [by rewrite Hg|done].
  - intros j y _ Hc Hh. destruct (decide (j = k)) as [->|Hj]; [done|]. split; [|rewrite Epl, move_row; [done|by rewrite list_elem_of_singleton]].
    unfold completing in *. rewrite Eph by done. destruct (decide (j = i)) as [->|]; [by rewrite set_eq|by rewrite set_ne].
  - intros j oj cs ms g _ E. left. destruct (decide (j = k)) as [->|Hj]; [destruct Ek as [Ek|Ek]; rewrite Ek in E; done|].
    rewrite Eph in E by done. destruct (decide (j = i)) as [->|]; [by rewrite set_eq in E|by rewrite set_ne in E].
  - intros j g l' E. destruct (decide (j = k)) as [->|Hj].
    { destruct Ek as [Ek|Ek]; rewrite Ek in E; [done|]. destruct Hkc. unfold completing. by rewrite E. }
    rewrite Eph in E by done. assert (∀ y, place_of s' j y = place_of s j y) as Hrow by (intros y; rewrite Epl; apply move_row; by rewrite list_elem_of_singleton).
    destruct (decide (j = i)) as [->|]; [rewrite set_eq in E; injection E as <- _|rewrite set_ne in E by done]; eexists; (split; [done|]); intros y _; by rewrite Hrow.
Qed.

Lemma minv_finish s s' i o f l : minv s → inv P s → P !! i = Some o → phase_of s i = Completing f (Finish :: l) → complete_step i f Finish l s = Ok s' → minv s'.
Proof.
  intros HM H Ho Hph E. assert (i < next_ s)%nat as Hi by (apply (phase_pushed P); [done|by rewrite Hph]).
  pose proof (iv_phase P s H i o Ho Hi) as Hok. unfold phase_ok in Hok. rewrite Hph in Hok. destruct Hok as (ds & cs & ms & Hl & _ & _ & _ & Hat).
  destruct (complete_items _ _ ds cs ms Hl) as [(? & ? & ? & ? & _)|[(v' & cs' & E' & _)|[(v' & ms' & E' & _)|(_ & -> & -> & -> & ->)]]]; try done.
  cbn in E. apply check_inv in E as [_ E]. injection E as <-. apply (minv_frame s); try done; cbn.
  - intros k v Hw Hc Hh. split; [|done]. destruct (decide (k = i)) as [->|]; [|unfold completing in *; cbn; by rewrite set_ne].
    rewrite (Hat v) in Hh by (by apply writes_uses). by rewrite decide_False in Hh by (apply not_elem_of_nil).
  - intros k ok cs ms g Hok E. left. destruct (decide (k = i)) as [->|]; [by rewrite set_eq in E|by rewrite set_ne in E].
  - intros k g l' E. destruct (decide (k = i)) as [->|]; [by rewrite set_eq in E|]. rewrite set_ne in E by done. by exists l'.
Qed.

Lemma minv_step s c s' : minv s → inv P s → engine_step P false s c = Ok s' → minv s'.
Proof.
  intros HM H E. destruct c as [|i]; [by apply (minv_push s)|]. cbn in E. unfold work in E. destruct (P !! i) as [o|] eqn:Ho; [|done].
  destruct (phase_of s i) as [|[|t l]| | |cs ms f|f [|t l]|] eqn:Hph; try done.
  - by apply (minv_push_step s s' i o t l).
  - injection E as <-. by apply minv_start.
  - injection E as <-. by apply minv_execute.
  - assert (i < next_ s)%nat as Hi by (apply (phase_pushed P); [done|by rewrite Hph]).
    pose proof (iv_phase P s H i o Ho Hi) as Hok. unfold phase_ok in Hok. rewrite Hph in Hok. destruct Hok as (ds & cs & ms & Hl & _).
    destruct (complete_items t l ds cs ms Hl) as [(k & v & ds' & -> & _)|[(v & cs' & -> & _)|[(v & ms' & -> & _)|(-> & _)]]].
    + by apply (minv_decr s s' i o f k v l).
    + by apply (minv_complete_read s s' i o f v l).
    + by apply (minv_complete_write s s' i o f v l).
    + by apply (minv_finish s s' i o f l).
Qed.

Lemma minv_run sched : ∀ s s', inv P s → minv s → engine_run P false s sched = Ok s' → minv s'.
Proof.
  unfold engine_run. induction sched as [|c sched IH]; intros s s' H HM E; cbn in E; [by injection E as <-|].
  apply bind_Ok_inv in E as (s1 & E1 & E). apply (IH s1); [by apply (inv_step_Ok P Hwf s c)|by apply (minv_step s c)|done].
Qed.
End Serial.

(** ** Results *)
Lemma seq_run_app {Val} (P Q : list (Opr Val)) m n : (n ≤ length P)%nat → seq_run (P ++ Q) n m = seq_run P n m.
Proof. induction n as [|n IH]; intros Hn; [done|]. cbn. rewrite IH by lia. by rewrite lookup_app_l by lia. Qed.

Lemma naive_ref {Val} (P : list (Opr Val)) m : ∀ m', naive_run P m = Ok m' → ∀ v, (seq_run P (length P) m).1 v = m' v ∧ (seq_run P (length P) m).2 v = false.
Proof.
  induction P as [|o P IH] using rev_ind; intros m' E v; [by injection E as <-|]. unfold naive_run in E. rewrite foldM_app in E. apply bind_Ok_inv in E as (m1 & E1 & E).
  specialize (IH m1 E1). cbn in E. apply bind_Ok_inv in E as (m2 & E & [= <-]). unfold naive_push in E.
  rewrite length_app, Nat.add_comm. cbn [length Nat.add seq_run]. rewrite seq_run_app, lookup_app_r, Nat.sub_diag by lia. cbn [lookup list_lookup].
  destruct (seq_run P (length P) m) as [mr x] eqn:Er. cbn [fst snd] in IH. unfold seq_step.
  assert (OnStart o x = false) as ->. { unfold OnStart. rewrite (existsb_ext x (fun _ => false)), (existsb_ext x (fun _ => false)) by (intros; by apply IH). clear. by induction (const_vars o); induction (mutable_vars o). }
  cbn [andb orb]. assert (∀ l, mr <$> l = m1 <$> l) as Hl by (intros l; apply list_fmap_ext; intros _ y _; apply IH). rewrite !Hl.
  destruct (fn o (m1 <$> const_vars o) (m1 <$> mutable_vars o)) as [out threw]. destruct threw; [done|]. injection E as <-. cbn. split; [|by apply IH].
  apply write_vals_same, IH.
Qed.

Lemma finished_written {Val V} `{!VarQueue V} (P : list (Opr Val)) (s : Engine Val V) v : inv P s → finished P s → written P s v (length P).
Proof.
  intros H [Hn Hd] i Hw. assert (uses P v i) as Hu by (by apply writes_uses). unfold writes in Hw. destruct (P !! i) as [o|] eqn:Ho; [|done]. apply lookup_lt_Some in Ho as Hi.
  split; [done|]. intros _. pose proof (iv_phase P s H i o Ho ltac:(lia)) as Hok. unfold phase_ok in Hok. rewrite Hd in Hok by done. by apply Hok.
Qed.

(** C2: the engine is equivalent to running the operations one after the other.  Under
    every schedule of the threads, when all operations of a well-formed program have
    completed, every array holds the value, and every variable the exception, that it has
    after running the operations in the order of the pushes; an operation whose input
    carries an exception is skipped and passes it on to its outputs.  If no operation
    throws, this is the result of the sequential [NaiveEngine]. *)
Theorem engine_serializable {Val V} `{!VarQueue V} (P : list (Opr Val)) (m : Z → Val) sched (s : Engine Val V) :
  wf_program P → engine_run P false (engine_init m) sched = Ok s → finished P s →
  (∀ v, mem s v = (seq_run P (length P) m).1 v ∧ var_exception s v = (seq_run P (length P) m).2 v) ∧
  (∀ m', naive_run P m = Ok m' → ∀ v, mem s v = m' v ∧ var_exception s v = false).
Proof.
  intros Hwf Hrun Hf. pose proof (reachable_inv P Hwf m sched s Hrun) as H.
  pose proof (minv_run P Hwf m sched (engine_init m) s (inv_init P m) (minv_init P m) Hrun) as HM.
  assert (∀ v, mem s v = (seq_run P (length P) m).1 v ∧ var_exception s v = (seq_run P (length P) m).2 v) as Hall.
  { intros v. pose proof (finished_written P s v H Hf) as Hw. split; [|by apply (mv_exn P m s HM)]. apply (mv_mem P m s HM); [done|].
    intros i Hi _. unfold completing. destruct Hf as [Hn Hd]. unfold writes in Hi. destruct (P !! i) eqn:E; [|done]. rewrite Hd; [tauto|]. by apply lookup_lt_Some in E. }
  split; [done|]. intros m' Hm v. destruct (Hall v) as [-> ->]. by apply (naive_ref P m m' Hm).
Qed.

(** All threads of the three operations run to the end. *)
Definition w_whole : list choice :=
  w_push 0 1 ++ w_push 1 2 ++ w_push 2 1 ++ replicate 5 (Choose 0) ++ replicate 6 (Choose 1) ++ replicate 4 (Choose 2).
Definition w_end : Engine Z ThreadedVar := match engine_run w_program false w_start w_whole with Ok s => s | Err _ => w_start end.

Lemma w_end_run : engine_run w_program false w_start w_whole = Ok w_end.
Proof. vm_compute. reflexivity. Qed.

Lemma engine_serializable_witness : mem w_end 1 = 7 ∧ mem w_end 2 = 5.
Proof.
  destruct (engine_serializable w_program (fun _ => 0) w_whole w_end) as [H _]; [apply w_program_wf|apply w_end_run| |].
  - split; [reflexivity|]. intros i Hi. cbn in Hi. destruct i as [|[|[|i]]]; [reflexivity|reflexivity|reflexivity|lia].
  - split; [apply (H 1)|apply (H 2)].
Defined.

(** ** Progress *)
Section Progress.
Context {Val V : Type} `{!VarQueue V}.
Context (P : list (Opr Val)) (Hwf : wf_program P).
Local Abbreviation Engine := (Engine Val V).

(** Operations a thread is working on. *)
Definition busy (s : Engine) (i : nat) : bool := match phase_of s i with Pushing _ | Ready | Running _ _ _ | Completing _ _ => true | _ => false end.

Lemma busy_moves s i : inv P s → busy s i = true → ∃ s', work P i s = Ok s'.
Proof.
  intros H Hb. destruct (inv_work P Hwf s i H) as [(s' & E & _)|(w & E)]; [by exists s'|]. exfalso. unfold work in E.
  assert (i < next_ s)%nat as Hi by (apply (phase_pushed P); [done|]; unfold busy in Hb; by destruct (phase_of s i)).
  destruct (lookup_lt_is_Some_2 P i) as [o Ho]; [pose proof (iv_next P s H); lia|]. rewrite Ho in E. unfold busy in Hb.
  destruct (phase_of s i) as [|[|t l]| | |cs ms f|f [|t l]|] eqn:Hph; try done.
  - destruct (inv_push_step P Hwf s i o t l H Ho Hph) as (s' & E' & _). by rewrite E in E'.
  - pose proof (iv_phase P s H i o Ho Hi) as Hok. unfold phase_ok in Hok. rewrite Hph in Hok. destruct Hok as (ds & cs & ms & Hl & _).
    destruct (complete_items t l ds cs ms Hl) as [(k & v & ds' & -> & _)|[(v & cs' & -> & _)|[(v & ms' & -> & _)|(-> & _)]]].
    + destruct (inv_decr P Hwf s i o f k v l H Ho Hph) as (s' & E' & _). by rewrite E in E'.
    + destruct (inv_complete_read P Hwf s i o f v l H Ho Hph) as (s' & E' & _). by rewrite E in E'.
    + destruct (inv_complete_write P Hwf s i o f v l H Ho Hph) as (s' & E' & _). by rewrite E in E'.
    + destruct (inv_finish P s i o f l H Ho Hph) as (s' & E' & _). by rewrite E in E'.
Qed.

(** Without a busy thread nobody waits. *)
Lemma idle_done s : inv P s → (∀ i, busy s i = false) → ∀ i, (i < next_ s)%nat → phase_of s i = Done.
Proof.
  intros H Hidle i. induction (lt_wf i) as [i _ IH]. intros Hi. destruct (lookup_lt_is_Some_2 P i) as [o Ho]; [pose proof (iv_next P s H); lia|].
  pose proof (iv_phase P s H i o Ho Hi) as Hok. pose proof (Hidle i) as Hb. unfold busy in Hb. unfold phase_ok in Hok.
  destruct (phase_of s i) eqn:Hph; try done. exfalso. destruct Hok as [Hw Hat]. pose proof (iv_wait P s H i Hi) as Hwi. rewrite Hph in Hwi. cbn in Hwi.
  assert (∀ k v, uses P v k → active (place_of s k v) → (k < i)%nat → False) as Hno.
  { intros k v Huk Ha Hk. destruct (lookup_lt_is_Some_2 P k) as [ok Hok]; [pose proof (iv_next P s H); lia|]. pose proof (iv_phase P s H k ok Hok ltac:(lia)) as Hp.
    unfold phase_ok in Hp. rewrite (IH k Hk ltac:(lia)) in Hp. by rewrite Hp in Ha. }
  destruct (count_some (fun v => negb (unready (place_of s i v))) (vars_of P i)) as (v & Hv & Hun).
  { unfold unready_count in Hwi. pose proof (List.filter_length (fun v => unready (place_of s i v)) (vars_of P i)) as Hlen. cbn in Hlen. lia. }
  apply negb_false_iff in Hun. destruct (Hat v Hv) as [Hnf Hnr]. destruct (place_of s i v) as [| |j| |] eqn:Epl; try done.
  - destruct (iv_var P s H v) as (q & hs & Hc & _).
    assert (∃ k, active (place_of s k v)) as (k & Hk).
    { destruct (co_occupied _ _ _ _ _ Hc) as [(_ & k & rest & _ & -> & _)|(_ & _ & Hqd & Hm)].
      - exists k. apply (co_holds _ _ _ _ _ Hc). by left.
      - apply Hqd in Epl. destruct (vs_queue q) as [|[k w] l]; [by apply not_elem_of_nil in Epl|]. destruct hs as [|h hs]; [by destruct Hm|].
        exists h. apply (co_holds _ _ _ _ _ Hc). by left. }
    assert (place_of s k v ≠ Fresh) as Hkf by (intros E; by rewrite E in Hk). destruct (pushed P s k v H Hkf) as [_ Huk].
    apply (Hno k v Huk Hk). apply (co_order _ _ _ _ _ Hc k i); [by left|done].
  - apply (iv_granted P s H) in Epl. specialize (Hidle j). unfold busy in Hidle. destruct (phase_of s j); cbn in Epl; try done; by apply not_elem_of_nil in Epl.
Qed.

Lemma progress s : inv P s → finished P s ∨ ∃ c s', engine_step P false s c = Ok s'.
Proof.
  intros H. destruct (existsb (busy s) (seq 0 (next_ s))) eqn:Eb.
  - right. apply existsb_exists in Eb as (i & _ & Hb). destruct (busy_moves s i H Hb) as [s' E]. by exists (Choose i), s'.
  - assert (∀ i, busy s i = false) as Hidle.
    { intros i. destruct (decide (i < next_ s)%nat) as [Hi|Hi].
      - destruct (busy s i) eqn:E; [|done]. assert (existsb (busy s) (seq 0 (next_ s)) = true) as Ht by (apply existsb_exists; exists i; split; [apply List.in_seq; lia|done]).
        by rewrite Eb in Ht.
      - unfold busy. destruct (iv_fresh P s H i) as [-> _]; [lia|done]. }
    pose proof (idle_done s H Hidle) as Hdone. destruct (decide (next_ s = length P)) as [Hn|Hn].
    + left. split; [done|]. by rewrite <- Hn.
    + right. exists ChoosePush. cbn. unfold Push. destruct (lookup_lt_is_Some_2 P (next_ s)) as [o ->]; [pose proof (iv_next P s H); lia|].
      replace (match next_ s with O => false | S i => is_pushing (phase_of s i) end) with false; [by eexists|].
      destruct (next_ s) as [|i] eqn:En; [done|]. rewrite Hdone by lia. done.
Qed.

(** ** Every schedule ends *)
Definition deps (i : nat) : nat := length (vars_of P i).
Definition is_decr (t : todo) : bool := match t with Decr _ _ => true | _ => false end.

(** Steps left for an operation, with a decrement counted where it happens. *)
Definition cost (s : Engine) (i : nat) : nat :=
  match phase_of s i with
  | NotPushed => 3 * deps i + 6
  | Pushing l => length l + deps i + 3 + Z.to_nat (wait_of s i)
  | Waiting | Ready => deps i + 3 + Z.to_nat (wait_of s i)
  | Running _ _ _ => deps i + 2 + Z.to_nat (wait_of s i)
  | Completing _ l => length (List.filter (fun t => negb (is_decr t)) l) + Z.to_nat (wait_of s i)
  | Done => Z.to_nat (wait_of s i)
  end.

Definition total (s : Engine) : nat := sum_list_with (cost s) (seq 0 (length P)).

Lemma sum_less (f g : nat → nat) i l :
  NoDup l → i ∈ l → (f i < g i)%nat → (∀ j, j ≠ i → f j = g j) → (sum_list_with f l < sum_list_with g l)%nat.
Proof.
  intros Hnd Hi Hlt Heq. assert (∀ l, i ∉ l → sum_list_with f l = sum_list_with g l) as Hsame.
  { clear -Heq. induction l as [|x l IH]; intros Hl; [done|]. apply not_elem_of_cons in Hl as [? ?]. cbn. rewrite (Heq x), IH by done. done. }
  induction Hnd as [|x l Hx _ IH]; [by apply not_elem_of_nil in Hi|]. cbn. apply elem_of_cons in Hi as [->|Hi]; [rewrite Hsame by done; lia|].
  specialize (IH Hi). rewrite (Heq x) by (by intros ->). lia.
Qed.

Lemma deps_opr i o : P !! i = Some o → deps i = (length (const_vars o) + length (mutable_vars o))%nat.
Proof. intros Ho. unfold deps, vars_of. by rewrite Ho, length_app. Qed.

(** One operation gets closer to its end, the others stay where they are. *)
Definition closer (s s' : Engine) : Prop := ∃ i, (i < length P)%nat ∧ (cost s' i < cost s i)%nat ∧ ∀ j, j ≠ i → cost s' j = cost s j.

Lemma closer_one s (s' : Engine) i : (i < length P)%nat → (cost s' i < cost s i)%nat →
  (∀ j, j ≠ i → phase_of s' j = phase_of s j ∧ wait_of s' j = wait_of s j) → closer s s'.
Proof. intros Hi Hc Hj. exists i. split_and!; try done. intros j Hne. unfold cost. by destruct (Hj j Hne) as [-> ->]. Qed.

Lemma push_step_closer s s' i o t l : inv P s → P !! i = Some o → phase_of s i = Pushing (t :: l) → push_step i t l s = Ok s' → closer s s'.
Proof.
  intros H Ho Hph E. apply lookup_lt_Some in Ho as Hi. assert (∀ r v, append i v r l s = Ok s' → closer s s') as Happ.
  { intros r v E'. apply append_inv in E' as (x & b & _ & ->). apply (closer_one s _ i Hi); cbn.
    - unfold cost. cbn. rewrite set_eq, Hph. cbn. destruct b; rewrite ?set_eq; lia.
    - intros j Hj. rewrite set_ne by done. split; [done|]. destruct b; [by rewrite set_ne|done]. }
  destruct t; cbn in E; try done.
  - apply bind_Ok_inv in E as (x & _ & E). by eapply Happ.
  - apply bind_Ok_inv in E as (x & _ & E). by eapply Happ.
  - apply bind_Ok_inv in E as ([s1 r1] & E1 & E). unfold decr_wait in E1. apply check_inv in E1 as [_ E1]. injection E1 as <- <-. injection E as <-.
    apply (closer_one s _ i Hi); cbn.
    + unfold cost. cbn. rewrite !set_eq, Hph. cbn. case_match; lia.
    + intros j Hj. by rewrite !set_ne.
Qed.

Lemma complete_step_closer s s' i o f t l : inv P s → P !! i = Some o → phase_of s i = Completing f (t :: l) → complete_step i f t l s = Ok s' → closer s s'.
Proof.
  intros H Ho Hph E. apply lookup_lt_Some in Ho as Hi.
  assert (∀ (ts : list nat) v l', List.filter (fun t => negb (is_decr t)) (((fun o => Decr o v) <$> ts) ++ l') = List.filter (fun t => negb (is_decr t)) l') as Hdec.
  { intros ts v l'. induction ts as [|x ts IH]; [done|]. cbn. apply IH. }
  destruct t as [| | |k v|v|v|]; cbn in E; try done.
  - assert (place_of s k v = Granted i) as Hg by (apply (iv_granted P s H); rewrite Hph; by left).
    destruct (granted_waits P s i k v H Hg) as (Hu & Hk & Hkp & Hcnt). assert (k ≠ i) as Hki by (intros ->; rewrite Hph in Hkp; by destruct Hkp).
    pose proof (iv_wait P s H k Hk) as Hw. pose proof (iv_next P s H) as Hn.
    assert (0 < wait_of s k) as Hpos by (destruct (is_pushing (phase_of s k)); lia).
    apply bind_Ok_inv in E as ([s1 r1] & E1 & E). unfold decr_wait in E1. apply check_inv in E1 as [_ E1]. injection E1 as <- <-. injection E as <-. cbn [fst snd].
    exists k. split; [lia|]. split.
    + unfold cost. destruct (Z.eqb_spec (wait_of s k - 1) 0) as [Ez|Ez]; cbn.
      * rewrite !set_eq. assert (phase_of s k = Waiting) as ->; [|lia]. destruct Hkp as [Hkp|]; [|done]. rewrite Hkp in Hw. lia.
      * rewrite (set_ne (phase_of s)), set_eq by done. destruct Hkp as [Hkp| ->]; [|lia]. destruct (phase_of s k); try done. lia.
    + intros j Hj. unfold cost. destruct (Z.eqb_spec (wait_of s k - 1) 0) as [Ez|Ez]; cbn.
      * rewrite (set_ne _ k), (set_ne (wait_of s)) by done. destruct (decide (j = i)) as [->|]; [by rewrite set_eq, Hph|by rewrite set_ne].
      * rewrite (set_ne (wait_of s)) by done. destruct (decide (j = i)) as [->|]; [by rewrite set_eq, Hph|by rewrite set_ne].
  - apply bind_Ok_inv in E as (x & _ & E). apply bind_Ok_inv in E as ([x' t] & _ & E). injection E as <-. apply (closer_one s _ i Hi); cbn.
    + unfold cost. cbn. rewrite set_eq, Hph, Hdec. cbn. lia.
    + intros j Hj. by rewrite set_ne.
  - apply bind_Ok_inv in E as (x & _ & E). apply bind_Ok_inv in E as ([[x' d] t] & _ & E). injection E as <-. apply (closer_one s _ i Hi); cbn.
    + unfold cost. cbn. rewrite set_eq, Hph, Hdec. cbn. lia.
    + intros j Hj. by rewrite set_ne.
  - apply check_inv in E as [_ E]. injection E as <-. apply (closer_one s _ i Hi); cbn.
    + unfold cost. cbn. rewrite set_eq, Hph. cbn. lia.
    + intros j Hj. by rewrite set_ne.
Qed.

Lemma step_closer s c s' : inv P s → engine_step P false s c = Ok s' → closer s s'.
Proof.
  intros H E. destruct c as [|i]; cbn in E.
  - unfold Push in E. destruct (negb false && _); [done|]. destruct (P !! next_ s) as [o|] eqn:Ho; [|done]. injection E as <-. apply lookup_lt_Some in Ho as Hi.
    destruct (iv_fresh P s H (next_ s)) as [Hph _]; [lia|]. apply (closer_one s _ (next_ s) Hi); cbn.
    + unfold cost. cbn. rewrite !set_eq, Hph, (deps_opr _ o Ho), !length_app, !length_fmap. cbn. lia.
    + intros j Hj. by rewrite !set_ne.
  - unfold work in E. destruct (P !! i) as [o|] eqn:Ho; [|done]. apply lookup_lt_Some in Ho as Hi.
    destruct (phase_of s i) as [|[|t l]| | |cs ms f|f [|t l]|] eqn:Hph; try done.
    + by apply (push_step_closer s s' i o t l).
    + injection E as <-. apply (closer_one s _ i Hi); cbn; [unfold cost; cbn; rewrite set_eq, Hph; lia|intros j Hj; by rewrite set_ne].
    + injection E as <-. assert (length (List.filter (fun t => negb (is_decr t)) (completion o)) = (deps i + 1)%nat) as Hlen.
      { rewrite (deps_opr _ o Ho). unfold completion. rewrite !List.filter_app, !length_app.
        assert (∀ (g : Z → todo) l, (∀ v, is_decr (g v) = false) → length (List.filter (fun t => negb (is_decr t)) (g <$> l)) = length l) as Hg.
        { intros g l Hg. induction l as [|x l IH]; [done|]. cbn. rewrite Hg. cbn. by rewrite IH. }
        rewrite !Hg by done. cbn. lia. }
      unfold execute. destruct (f && negb (opr_wait o)); [|destruct (fn o cs ms) as [out threw]];
        (apply (closer_one s _ i Hi); cbn; [unfold cost; cbn; rewrite set_eq, Hph, Hlen; lia|intros j Hj; by rewrite set_ne]).
    + by apply (complete_step_closer s s' i o f t l).
Qed.

Lemma run_bounded sched : ∀ s s', inv P s → engine_run P false s sched = Ok s' → (length sched + total s' ≤ total s)%nat.
Proof.
  unfold engine_run. induction sched as [|c sched IH]; intros s s' H E; cbn in E; [injection E as <-; cbn; lia|].
  apply bind_Ok_inv in E as (s1 & E1 & E). specialize (IH s1 s' (inv_step_Ok P Hwf s c s1 H E1) E). destruct (step_closer s c s1 H E1) as (i & Hi & Hlt & Heq).
  assert (total s1 < total s)%nat by (apply (sum_less _ _ i); [apply NoDup_seq|apply elem_of_seq; lia|done|done]). cbn. lia.
Qed.
End Progress.

Lemma pending_done {Val V} `{!VarQueue V} (P : list (Opr Val)) (s : Engine Val V) :
  inv P s → (all_done s = true ↔ ∀ i, (i < next_ s)%nat → phase_of s i = Done).
Proof.
  intros H. unfold all_done. rewrite Z.eqb_eq, (iv_pending P s H). unfold unfinished. split.
  - intros Hz%(Nat2Z.inj _ 0) i Hi. pose proof (count_none_inv _ _ Hz i ltac:(apply elem_of_seq; lia)) as Hc. cbn in Hc. by destruct (phase_of s i).
  - intros Hd. rewrite count_none; [done|]. intros i Hi%elem_of_seq. by rewrite Hd by lia.
Qed.

(** Number of steps of a program: six for an operation and three for each of its variables. *)
Definition steps_bound {Val} (P : list (Opr Val)) : nat := sum_list_with (fun i => 3 * deps P i + 6)%nat (seq 0 (length P)).

(** C12: the engine makes progress until everything is done, and always gets there.  For
    every well-formed program, no schedule of the threads is longer than six steps for every
    operation and three for every variable it names; and as long as an operation has not
    completed, some thread can move: nothing deadlocks.  [WaitForAll] returns exactly when
    all operations pushed so far are done. *)
Theorem engine_completes {Val V} `{!VarQueue V} (P : list (Opr Val)) (m : Z → Val) sched (s : Engine Val V) :
  wf_program P → engine_run P false (engine_init m) sched = Ok s →
  (length sched ≤ steps_bound P)%nat ∧ (finished P s ∨ ∃ c s', engine_step P false s c = Ok s') ∧
  (all_done s = true ↔ ∀ i, (i < next_ s)%nat → phase_of s i = Done).
Proof.
  intros Hwf Hrun. pose proof (reachable_inv P Hwf m sched s Hrun) as H. split_and!.
  - pose proof (run_bounded P Hwf sched (engine_init m) s (inv_init P m) Hrun) as Hb. change (total P (engine_init m)) with (steps_bound P) in Hb. lia.
  - by apply progress.
  - by apply (pending_done P).
Qed.

Lemma engine_completes_witness : (length w_whole ≤ 30)%nat ∧ all_done w_end = true.
Proof.
  destruct (engine_completes w_program (fun _ => 0) w_whole w_end) as (H1 & _ & H2); [apply w_program_wf|apply w_end_run|].
  split; [etransitivity; [apply H1|vm_compute; lia]|]. apply H2. intros i Hi. change (i < 3)%nat in Hi. destruct i as [|[|[|i]]]; [reflexivity|reflexivity|reflexivity|lia].
Defined.

(** ** Waiting for a variable *)

(** A variable without a waiting or running write has seen all writes. *)
Lemma ready_written {Val V} `{!VarQueue V} (P : list (Opr Val)) (Hwf : wf_program P) (s : Engine Val V) v x :
  inv P s → var_of s v = Some x → (∀ i, is_pushing (phase_of s i) = false) → vq_ready_to_read x = true →
  written P s v (next_ s) ∧ (∀ i, writes P v i → place_of s i v = Held → ¬ completing s i).
Proof.
  intros H Hx Hnp Hready. destruct (iv_var P s H v) as (q & hs & Hc & Hv). rewrite Hx in Hv. destruct Hv as [Hrep _].
  rewrite (vq_ready_rep x q Hrep) in Hready. apply bool_decide_eq_true in Hready as Hq.
  destruct (co_occupied _ _ _ _ _ Hc) as [(_ & i & rest & Hq' & _)|(_ & Hrd & Hqd & _)]; [by rewrite Hq in Hq'|]. rewrite Hq in Hqd.
  assert (∀ i, writes P v i → ¬ active (place_of s i v)) as Hna by (intros i Hw Ha; apply (co_holds _ _ _ _ _ Hc) in Ha; by destruct (Hrd i Ha)).
  split; [|intros i Hw Hh; by destruct (Hna i Hw); rewrite Hh]. intros i Hw. split.
  - intros Hr. apply (pushed P s i v H). by rewrite Hr.
  - intros Hi. destruct (place_cases (place_of s i v)) as [E|[E|[E|E]]]; [|apply Hqd in E; by apply not_elem_of_nil in E|by destruct (Hna i Hw)|done].
    destruct (not_fresh P s i v H Hi (Hnp i)); [by apply writes_uses|done].
Qed.

(** C23: [WaitForVar] returns the value after all pushed writes.  When no push is under way
    and the variable is ready to read, [WaitForVar] returns at once, and the array then
    holds the value, and the variable the exception, that all operations pushed so far leave
    there in the order of the pushes.  Otherwise it waits for an operation that reads the
    variable, and when this operation runs, it finds the value and the exception that all
    operations pushed before it leave. *)
Theorem wait_for_var {Val V} `{!VarQueue V} (P : list (Opr Val)) (m : Z → Val) sched (s : Engine Val V) v :
  wf_program P → engine_run P false (engine_init m) sched = Ok s →
  (∀ x, var_of s v = Some x → (∀ i, is_pushing (phase_of s i) = false) → vq_ready_to_read x = true →
     mem s v = (seq_run P (next_ s) m).1 v ∧ var_exception s v = (seq_run P (next_ s) m).2 v) ∧
  (∀ i cs ms failed, P !! i = Some (WaitForVar v) → phase_of s i = Running cs ms failed →
     cs = [(seq_run P i m).1 v] ∧ failed = (seq_run P i m).2 v).
Proof.
  intros Hwf Hrun. pose proof (reachable_inv P Hwf m sched s Hrun) as H.
  pose proof (minv_run P Hwf m sched (engine_init m) s (inv_init P m) (minv_init P m) Hrun) as HM. split.
  - intros x Hx Hnp Hready. destruct (ready_written P Hwf s v x H Hx Hnp Hready) as [Hw Hnc].
    split; [by apply (mv_mem P m s HM)|by apply (mv_exn P m s HM)].
  - intros i cs ms failed Ho Hph. destruct (mv_running P m s HM i _ _ _ _ Ho Hph) as (E & _ & Ef). split; [done|]. rewrite Ef. unfold OnStart. cbn [WaitForVar const_vars mutable_vars existsb]. by rewrite !orb_false_r.
Qed.

Lemma wait_for_var_witness : mem w_end 1 = 7 ∧ var_exception w_end 1 = false.
Proof.
  destruct (wait_for_var w_program (fun _ => 0) w_whole w_end 1) as [H _]; [apply w_program_wf|apply w_end_run|].
  destruct (var_of w_end 1) as [x|] eqn:E; [|vm_compute in E; discriminate].
  destruct (H x) as [H1 H2]; [reflexivity| | |split; [exact H1|exact H2]].
  - intros i. destruct i as [|[|[|i]]]; reflexivity.
  - vm_compute in E. injection E as <-. reflexivity.
Defined.

(** ** Several pushing threads *)

(** Two operations on the same two variables, named in opposite orders. *)
Definition crossed : list (Opr Z) :=
  [{| const_vars := []; mutable_vars := [1; 2]; fn := fun _ ms => (ms, false); opr_wait := false; deletes := false |};
   {| const_vars := []; mutable_vars := [2; 1]; fn := fun _ ms => (ms, false); opr_wait := false; deletes := false |}].
Definition crossing : list choice := [ChoosePush; ChoosePush; Choose 0; Choose 1; Choose 0; Choose 1; Choose 0; Choose 1].

Lemma stuck_blocked (s : Engine Z ThreadedVar) c :
  next_ s = 2%nat → (∀ i, (i < 2)%nat → phase_of s i = Waiting) → ∃ w, engine_step crossed true s c = Err (Blocked w).
Proof.
  intros Hn Hw. destruct c as [|i]; cbn [engine_step].
  - unfold Push. cbn [negb andb]. rewrite Hn. cbn. by eexists.
  - unfold work. destruct i as [|[|i]]; cbn [crossed lookup list_lookup]; [rewrite Hw by lia; by eexists|rewrite Hw by lia; by eexists|by eexists].
Qed.

(** C40: pushes from two threads can deadlock.  The engine is documented as thread safe; but
    when two threads push operations that name two variables in opposite orders, and the
    pushes interleave, each operation waits for the variable the other one holds: neither
    ever runs, and [WaitForAll] never returns. *)
Theorem concurrent_push_deadlock :
  wf_program crossed ∧
  ∃ s : Engine Z ThreadedVar, engine_run crossed true (engine_init (fun _ => 0)) crossing = Ok s ∧ all_done s = false ∧
    ∀ c, ∃ w, engine_step crossed true s c = Err (Blocked w).
Proof.
  split.
  - intros i o Ho. assert (o ∈ crossed) as Hin by (by apply list_elem_of_lookup_2 with i). unfold crossed in Hin. rewrite !elem_of_cons in Hin.
    destruct Hin as [->|[->|Hin]]; [split; [by_decision|done]..|by apply not_elem_of_nil in Hin].
  - eexists. split; [vm_compute; reflexivity|]. split; [reflexivity|]. intros c. apply stuck_blocked; [reflexivity|].
    intros i Hi. destruct i as [|[|i]]; [reflexivity|reflexivity|lia].
Qed.
