(* ===== verification/EngineBulk.v ===== *)
(** * The dependency engine: variable lists and bulk pushes

    Small operations of one device are collected and pushed as one; the lists of variables
    of such a bulk are merged, sorted and freed of duplicates.
    Sources: [DeduplicateVarHandle] of src/include/mxnet/engine.h; [CheckDuplicate],
    [PushSync], [BulkAppend], [BulkFlush] and [set_bulk_size] of
    src/src/engine/threaded_engine.h and src/src/engine/threaded_engine.cc.

    Variables are ordered by their address; here they are numbers. *)

From Stdlib Require Import String.
From stdpp Require Import sorting.
From S2P Require Import Prelude StdAlgo.
Local Open Scope Z_scope.

(** ** Lists of variables *)
(** [while (it != end && *it < x) ++it] *)
Fixpoint skip_less (x : Z) (l : list Z) : list Z :=
  match l with y :: l' => if y <? x then skip_less x l' else l | [] => [] end.

(** The loop of [DeduplicateVarHandle] over the sorted reads. *)
Fixpoint remove_written (reads writes : list Z) : list Z :=
  match reads with
  | [] => []
  | x :: reads =>
      let writes := skip_less x writes in
      match writes with
      | y :: _ => if y =? x then remove_written reads writes else x :: remove_written reads writes
      | [] => x :: remove_written reads writes
      end
  end.

(** The new [read_vars] and [write_vars]. *)
Definition DeduplicateVarHandle (read_vars write_vars : list Z) : list Z * list Z :=
  let write_vars := std_unique (std_sort write_vars) in
  let read_vars := std_unique (std_sort read_vars) in
  (remove_written read_vars write_vars, write_vars).

(** [use.at(i) == use.at(i - 1)] for some [i] *)
Fixpoint has_adjacent (l : list Z) : bool :=
  match l with
  | x :: (y :: _) as l' => (y =? x) || has_adjacent l'
  | _ => false
  end.

(** The last loop of [CheckDuplicate]; [j] only moves forward. *)
Fixpoint has_common (use mutate : list Z) : bool :=
  match use with
  | [] => false
  | x :: use =>
      match skip_less x mutate with
      | [] => false
      | (y :: _) as mutate => if y =? x then true else has_common use mutate
      end
  end.

Definition CheckDuplicate (const_vars mutable_vars : list Z) : result unit :=
  let use := std_sort const_vars in
  let mutate := std_sort mutable_vars in
  check (negb (has_adjacent use)) "duplicate items found in `const_vars`";;
  check (negb (has_adjacent mutate)) "duplicate items found in `mutable_vars`";;
  check (negb (has_common use mutate)) "duplicate items found between `const_vars` and `mutable_vars`".

(** ** Bulks *)
Inductive FnProperty := kNormal | kCopyFromGPU | kCopyToGPU | kCPUPrioritized | kAsync | kDeleteVar | kGPUPrioritized.

#[export] Instance FnProperty_eq_dec : EqDecision FnProperty.
Proof. solve_decision. Defined.

(** A call of [PushSync]; functions change the memory [M]. *)
Record SyncCall (M : Type) := {
  exec_fn : M → M; exec_ctx : Z; call_const : list Z; call_mutable : list Z; prop : FnProperty; priority : Z
}.
Arguments exec_fn {M} _ _.
Arguments exec_ctx {M} _.
Arguments call_const {M} _.
Arguments call_mutable {M} _.
Arguments prop {M} _.
Arguments priority {M} _.

(** An operation given to [PushAsync]. *)
Record Pushed (M : Type) := { p_fn : M → M; p_ctx : Z; p_const : list Z; p_mutable : list Z; p_prop : FnProperty; p_priority : Z }.
Arguments p_fn {M} _ _.
Arguments p_ctx {M} _.
Arguments p_const {M} _.
Arguments p_mutable {M} _.
Arguments p_prop {M} _.
Arguments p_priority {M} _.

(** [BulkStatus] of the calling thread, and what it has pushed so far. *)
Record Bulk (M : Type) := {
  bulk_size : Z; count : Z; b_ctx : Z; b_fn : M → M; b_const : list Z; b_mutable : list Z; pushed_ : list (Pushed M)
}.
Arguments bulk_size {M} _.
Arguments count {M} _.
Arguments b_ctx {M} _.
Arguments b_fn {M} _ _.
Arguments b_const {M} _.
Arguments b_mutable {M} _.
Arguments pushed_ {M} _.

Section Bulks.
Context {M : Type}.
Local Abbreviation Bulk := (Bulk M).

Definition BulkFlush (b : Bulk) : Bulk :=
  if count b =? 0 then b
  else
    let '(c, w) := DeduplicateVarHandle (b_const b) (b_mutable b) in
    {| bulk_size := bulk_size b; count := 0; b_ctx := b_ctx b; b_fn := b_fn b; b_const := []; b_mutable := [];
       pushed_ := pushed_ b ++ [{| p_fn := b_fn b; p_ctx := b_ctx b; p_const := c; p_mutable := w; p_prop := kNormal; p_priority := 0 |}] |}.

(** [PushAsync] flushes the bulk in [Push], then pushes its own operation. *)
Definition PushAsync (p : Pushed M) (b : Bulk) : Bulk :=
  let b := BulkFlush b in
  {| bulk_size := bulk_size b; count := count b; b_ctx := b_ctx b; b_fn := b_fn b; b_const := b_const b; b_mutable := b_mutable b;
     pushed_ := pushed_ b ++ [p] |}.

Definition BulkAppend (c : SyncCall M) (b : Bulk) : Bulk :=
  let fresh := count b =? 0 in
  let b := {| bulk_size := bulk_size b; count := count b + 1; b_ctx := if fresh then exec_ctx c else b_ctx b;
              b_fn := if fresh then exec_fn c else fun m => exec_fn c (b_fn b m);
              b_const := b_const b ++ call_const c; b_mutable := b_mutable b ++ call_mutable c; pushed_ := pushed_ b |} in
  if bulk_size b <=? count b then BulkFlush b else b.

(** [bulk_size()] is 0 while the profiler aggregates. *)
Definition PushSync (aggregating : bool) (c : SyncCall M) (b : Bulk) : Bulk :=
  let size := if aggregating then 0 else bulk_size b in
  if (size =? 0) || negb (bool_decide (prop c = kNormal)) || negb (priority c =? 0) then
    PushAsync {| p_fn := exec_fn c; p_ctx := exec_ctx c; p_const := call_const c; p_mutable := call_mutable c; p_prop := prop c; p_priority := priority c |} b
  else
    let b := if negb (count b =? 0) && negb (exec_ctx c =? b_ctx b) then BulkFlush b else b in
    BulkAppend c b.

Definition set_bulk_size (n : Z) (b : Bulk) : Bulk * Z :=
  let old := bulk_size b in
  let b := {| bulk_size := n; count := count b; b_ctx := b_ctx b; b_fn := b_fn b; b_const := b_const b; b_mutable := b_mutable b; pushed_ := pushed_ b |} in
  (if n <=? count b then BulkFlush b else b, old).

Definition bulk_init (n : Z) : Bulk :=
  {| bulk_size := n; count := 0; b_ctx := 0; b_fn := fun m => m; b_const := []; b_mutable := []; pushed_ := [] |}.

(** The thread's calls: a push, or a change of the bulk size. *)
Inductive call := Sync (aggregating : bool) (c : SyncCall M) | SetSize (n : Z).

Definition bulk_step (b : Bulk) (c : call) : Bulk := match c with Sync a c => PushSync a c b | SetSize n => (set_bulk_size n b).1 end.
Definition bulk_run (n : Z) (cs : list call) : Bulk := BulkFlush (foldl bulk_step (bulk_init n) cs).
End Bulks.

(** ** Correctness of the list functions *)
Lemma skip_less_elem x l : StronglySorted Z.le l → ∀ y, y ∈ skip_less x l ↔ y ∈ l ∧ x ≤ y.
Proof.
  induction 1 as [|a l _ IH Ha]; intros y; cbn [skip_less]; [rewrite elem_of_nil; tauto|]. rewrite Forall_forall in Ha.
  destruct (Z.ltb_spec a x) as [Hlt|Hge].
  - rewrite IH, elem_of_cons. split; [naive_solver|]. intros [[->|?] ?]; [lia|done].
  - rewrite elem_of_cons. split; [|tauto]. intros [->|Hy]; [split; [by left|lia]|]. specialize (Ha y Hy). split; [by right|lia].
Qed.

Lemma skip_less_sorted x l : StronglySorted Z.le l → StronglySorted Z.le (skip_less x l).
Proof.
  intros H. induction H as [|a l Hs IH Ha]; cbn [skip_less]; [constructor|]. destruct (a <? x); [done|]. by constructor.
Qed.

(** The first element that is not skipped shows whether [x] is in the list. *)
Lemma skip_less_head x l : StronglySorted Z.le l → (x ∈ l ↔ ∃ l', skip_less x l = x :: l').
Proof.
  intros Hs. pose proof (skip_less_elem x l Hs) as He. pose proof (skip_less_sorted x l Hs) as Hs'. split.
  - intros Hx. assert (x ∈ skip_less x l) as Hin by (apply He; split; [done|lia]). destruct (skip_less x l) as [|y l']; [by apply not_elem_of_nil in Hin|].
    assert (x ≤ y) by (apply (He y); by left). apply elem_of_cons in Hin as [->|Hin]; [by exists l'|].
    apply StronglySorted_inv in Hs' as [_ Hy]. rewrite Forall_forall in Hy. specialize (Hy x Hin). assert (y = x) as -> by lia. by exists l'.
  - intros [l' E]. apply (He x). rewrite E. by left.
Qed.

Lemma remove_written_elem reads : ∀ writes, StronglySorted Z.lt reads → StronglySorted Z.le writes →
  ∀ x, x ∈ remove_written reads writes ↔ x ∈ reads ∧ x ∉ writes.
Proof.
  induction reads as [|a reads IH]; intros writes Hr Hw x; cbn [remove_written]; [rewrite elem_of_nil; tauto|].
  apply StronglySorted_inv in Hr as [Hr Ha]. rewrite Forall_forall in Ha. pose proof (skip_less_head a writes Hw) as Hh. pose proof (skip_less_sorted a writes Hw) as Hs.
  assert (x ∈ reads → (x ∈ skip_less a writes ↔ x ∈ writes)) as Hsame by (intros Hx; rewrite skip_less_elem by done; specialize (Ha x Hx); split; [by intros [? _]|intros ?; split; [done|lia]]).
  specialize (IH (skip_less a writes) Hr Hs x).
  destruct (skip_less a writes) as [|y l'] eqn:E; [|destruct (Z.eqb_spec y a) as [->|Hya]].
  - assert (a ∉ writes) by (rewrite Hh; intros [l' ?]; done). rewrite !elem_of_cons, IH. split.
    + intros [->|[H1 H2]]; [split; [by left|done]|]. split; [by right|by rewrite <- Hsame].
    + intros [[->|H1] H2]; [by left|]. right. split; [done|by rewrite Hsame].
  - assert (a ∈ writes) by (apply Hh; by exists l'). rewrite IH, (elem_of_cons reads). split.
    + intros [H1 H2]. split; [by right|by rewrite <- Hsame].
    + intros [[->|H1] H2]; [done|]. split; [done|by rewrite Hsame].
  - assert (a ∉ writes) by (rewrite Hh; intros [l'' [=]]; done). rewrite !elem_of_cons, IH. split.
    + intros [->|[H1 H2]]; [split; [by left|done]|]. split; [by right|by rewrite <- Hsame].
    + intros [[->|H1] H2]; [by left|]. right. split; [done|by rewrite Hsame].
Qed.

Lemma remove_written_sub reads : ∀ writes x, x ∈ remove_written reads writes → x ∈ reads.
Proof.
  induction reads as [|a reads IH]; intros writes x Hx; cbn [remove_written] in Hx; [done|]. apply elem_of_cons.
  destruct (skip_less a writes) as [|y l']; [|destruct (y =? a)]; [apply elem_of_cons in Hx as [?|?]; eauto|eauto|apply elem_of_cons in Hx as [?|?]; eauto].
Qed.

Lemma remove_written_nodup reads : ∀ writes, NoDup reads → NoDup (remove_written reads writes).
Proof.
  induction reads as [|a reads IH]; intros writes Hn; cbn [remove_written]; [constructor|]. apply NoDup_cons in Hn as [Ha Hn].
  assert (∀ w, a ∉ remove_written reads w) as Hna by (intros w Hin; by apply Ha, (remove_written_sub reads w)).
  destruct (skip_less a writes) as [|y l']; [|destruct (y =? a)]; [constructor; auto|auto|constructor; auto].
Qed.

Lemma dedup_facts reads writes :
  let '(r, w) := DeduplicateVarHandle reads writes in
  NoDup (r ++ w) ∧ (∀ x, x ∈ w ↔ x ∈ writes) ∧ (∀ x, x ∈ r ↔ x ∈ reads ∧ x ∉ writes).
Proof.
  unfold DeduplicateVarHandle. pose proof (std_unique_sorted _ (std_sort_sorted reads)) as Hr. pose proof (std_unique_sorted _ (std_sort_sorted writes)) as Hw.
  assert (∀ x l, x ∈ std_unique (std_sort l) ↔ x ∈ l) as He by (intros x l; by rewrite std_unique_elem, std_sort_elem).
  pose proof (remove_written_elem _ _ Hr (sorted_lt_le _ Hw)) as Hrem. split_and!.
  - apply NoDup_app. split_and!; [apply remove_written_nodup, sorted_lt_nodup, Hr| |by apply sorted_lt_nodup]. intros x Hx. by apply Hrem.
  - intros x. apply He.
  - intros x. by rewrite Hrem, !He.
Qed.

Lemma has_adjacent_nodup l : StronglySorted Z.le l → (has_adjacent l = false ↔ NoDup l).
Proof.
  induction l as [|a [|b l] IH]; intros Hs; [split; [constructor|done]|split; [intros _; apply NoDup_singleton|done]|]. cbn [has_adjacent].
  apply StronglySorted_inv in Hs as [Hs Ha]. rewrite orb_false_iff, Z.eqb_neq. rewrite IH, (NoDup_cons a (b :: l)) by done.
  split; [intros [Hne Hn]; split; [|done]|intros [Hn Hn']; split; [|done]; intros ->; apply Hn; by left].
  intros [->|Hin]%elem_of_cons; [done|]. rewrite Forall_forall in Ha. assert (a ≤ b) by (apply Ha; by left).
  apply StronglySorted_inv in Hs as [_ Hb]. rewrite Forall_forall in Hb. specialize (Hb a Hin). lia.
Qed.

Lemma has_common_spec use : ∀ mutate, StronglySorted Z.le use → StronglySorted Z.le mutate → (has_common use mutate = false ↔ ∀ x, x ∈ use → x ∉ mutate).
Proof.
  induction use as [|a use IH]; intros mutate Hu Hm; cbn [has_common]; [split; [by intros _ x ?%not_elem_of_nil|done]|].
  apply StronglySorted_inv in Hu as [Hu Ha]. rewrite Forall_forall in Ha. pose proof (skip_less_head a mutate Hm) as Hh. pose proof (skip_less_sorted a mutate Hm) as Hs.
  pose proof (skip_less_elem a mutate Hm) as He. specialize (IH (skip_less a mutate) Hu Hs).
  assert ((∀ x, x ∈ a :: use → x ∉ mutate) ↔ a ∉ mutate ∧ ∀ x, x ∈ use → x ∉ skip_less a mutate) as ->.
  { split.
    - intros H. split; [apply H; by left|]. intros x Hx Hin. apply He in Hin as [Hin _]. apply (H x); [by right|done].
    - intros [H1 H2] x [->|Hx]%elem_of_cons; [done|]. intros Hin. apply (H2 x Hx), He. split; [done|by apply Ha]. }
  destruct (skip_less a mutate) as [|y l'] eqn:E; [|destruct (Z.eqb_spec y a) as [->|Hya]].
  - split; [|done]. intros _. split; [rewrite Hh; by intros [l' ?]|by intros x _ ?%not_elem_of_nil].
  - split; [done|]. intros [H1 _]. destruct H1. apply Hh. by exists l'.
  - rewrite IH. split; [|by intros [_ ?]]. intros H. split; [|done]. rewrite Hh. intros [l'' [=]]. done.
Qed.

(** The debug check for duplicates accepts exactly the operations the engine can run:
    those that name no variable twice, neither in one list nor across the two. *)
Theorem CheckDuplicate_spec const_vars mutable_vars : CheckDuplicate const_vars mutable_vars = Ok tt ↔ NoDup (const_vars ++ mutable_vars).
Proof.
  unfold CheckDuplicate. pose proof (std_sort_sorted const_vars) as Hc. pose proof (std_sort_sorted mutable_vars) as Hm.
  assert (NoDup (const_vars ++ mutable_vars) ↔ has_adjacent (std_sort const_vars) = false ∧ has_adjacent (std_sort mutable_vars) = false ∧
    has_common (std_sort const_vars) (std_sort mutable_vars) = false) as ->.
  { rewrite NoDup_app, !has_adjacent_nodup, !std_sort_nodup, has_common_spec by done. setoid_rewrite std_sort_elem. tauto. }
  destruct (has_adjacent (std_sort const_vars)); [split; [done|by intros (? & ? & ?)]|]. destruct (has_adjacent (std_sort mutable_vars)); [split; [done|by intros (? & ? & ?)]|].
  destruct (has_common (std_sort const_vars) (std_sort mutable_vars)); [split; [done|by intros (? & ? & ?)]|]. done.
Qed.

(** ** Correctness of bulks *)
Section BulkProof.
Context {M : Type}.

Definition syncs (cs : list (call (M := M))) : list (SyncCall M) := omap (fun c => match c with Sync _ c => Some c | SetSize _ => None end) cs.
Definition in_order (fs : list (M → M)) (m : M) : M := foldl (fun m f => f m) m fs.

(** An operation stands for a group of calls. *)
Record covers (g : list (SyncCall M)) (p : Pushed M) : Prop := {
  cv_fn : ∀ m, p_fn p m = in_order (exec_fn <$> g) m;
  cv_ctx : ∀ c, c ∈ g → exec_ctx c = p_ctx p;
  cv_mutable : ∀ v, v ∈ p_mutable p ↔ ∃ c, c ∈ g ∧ v ∈ call_mutable c;
  cv_const : ∀ v, v ∈ p_const p ∨ v ∈ p_mutable p ↔ ∃ c, c ∈ g ∧ (v ∈ call_const c ∨ v ∈ call_mutable c);
  cv_nodup : (∃ c, g = [c] ∧ p_const p = call_const c ∧ p_mutable p = call_mutable c) ∨ NoDup (p_const p ++ p_mutable p)
}.

(** The groups pushed so far and the calls of the open bulk. *)
Record bulk_inv (b : Bulk M) (groups : list (list (SyncCall M))) (open : list (SyncCall M)) : Prop := {
  bi_groups : Forall2 covers groups (pushed_ b);
  bi_count : count b = Z.of_nat (length open);
  bi_fn : open ≠ [] → ∀ m, b_fn b m = in_order (exec_fn <$> open) m;
  bi_ctx : ∀ c, c ∈ open → exec_ctx c = b_ctx b;
  bi_const : b_const b = mjoin (call_const <$> open);
  bi_mutable : b_mutable b = mjoin (call_mutable <$> open)
}.

Lemma elem_of_fields (f : SyncCall M → list Z) l v : v ∈ mjoin (f <$> l) ↔ ∃ c, c ∈ l ∧ v ∈ f c.
Proof. rewrite list_elem_of_join. setoid_rewrite list_elem_of_fmap. naive_solver. Qed.

Lemma flush_inv b groups open : bulk_inv b groups open →
  ∃ groups', bulk_inv (BulkFlush b) groups' [] ∧ mjoin groups' = mjoin groups ++ open.
Proof.
  intros H. unfold BulkFlush. destruct (Z.eqb_spec (count b) 0) as [Hz|Hz].
  - rewrite (bi_count _ _ _ H) in Hz. destruct open; [|done]. exists groups. by rewrite app_nil_r.
  - assert (open ≠ []) as Hne by (intros ->; by rewrite (bi_count _ _ _ H) in Hz). pose proof (dedup_facts (b_const b) (b_mutable b)) as Hd.
    destruct (DeduplicateVarHandle (b_const b) (b_mutable b)) as [r w]. destruct Hd as (Hnd & Hw & Hr).
    exists (groups ++ [open]). split; [|by rewrite join_app; cbn; rewrite app_nil_r]. split; cbn; try done; [|by intros ? ?%not_elem_of_nil].
    apply Forall2_app; [apply H|]. constructor; [|constructor]. split; cbn.
    + by apply H.
    + by apply H.
    + intros v. rewrite Hw, (bi_mutable _ _ _ H). apply elem_of_fields.
    + intros v. rewrite Hr, Hw, (bi_mutable _ _ _ H), (bi_const _ _ _ H), !elem_of_fields. split; [naive_solver|].
      intros (c & Hc & Hv). destruct (decide (v ∈ mjoin (call_mutable <$> open))) as [Hin|Hin]; rewrite elem_of_fields in Hin; [by right|left]. split; [|done].
      destruct Hv; [by exists c|]. destruct Hin. by exists c.
    + by right.
Qed.

Lemma append_call_inv c b groups open :
  bulk_inv b groups open → (open = [] ∨ exec_ctx c = b_ctx b) →
  ∃ groups' open', bulk_inv (BulkAppend c b) groups' open' ∧ mjoin groups' ++ open' = (mjoin groups ++ open) ++ [c].
Proof.
  intros H Hctx. unfold BulkAppend. cbn [bulk_size count].
  match goal with |- context [if _ then BulkFlush ?x else _] => set (b1 := x) end.
  assert (bulk_inv b1 groups (open ++ [c])) as H1.
  { destruct H as [Hg Hc Hf Hx Hco Hmu]. subst b1. split; cbn.
    - done.
    - rewrite length_app. cbn. lia.
    - intros _ m. unfold in_order. rewrite fmap_app, foldl_app. cbn. destruct open as [|o l]; [by rewrite Hc|].
      rewrite (proj2 (Z.eqb_neq _ _)) by (rewrite Hc; cbn; lia). by rewrite Hf.
    - intros c' [Hin|Hin]%elem_of_app.
      + rewrite (proj2 (Z.eqb_neq _ _)) by (rewrite Hc; destruct open; [by apply not_elem_of_nil in Hin|cbn; lia]). by apply Hx.
      + apply list_elem_of_singleton in Hin as ->. destruct (count b =? 0) eqn:E; [done|]. destruct Hctx as [->|]; [|done]. by rewrite Hc in E.
    - by rewrite fmap_app, join_app, Hco; cbn; rewrite app_nil_r.
    - by rewrite fmap_app, join_app, Hmu; cbn; rewrite app_nil_r. }
  destruct (bulk_size b <=? count b + 1).
  - destruct (flush_inv b1 _ _ H1) as (g' & H2 & E). exists g', []. split; [done|]. by rewrite app_nil_r, E, (assoc_L (++)).
  - exists groups, (open ++ [c]). split; [done|]. by rewrite (assoc_L (++)).
Qed.

Lemma push_async_inv c b groups open :
  bulk_inv b groups open →
  ∃ groups', bulk_inv (PushAsync {| p_fn := exec_fn c; p_ctx := exec_ctx c; p_const := call_const c; p_mutable := call_mutable c; p_prop := prop c; p_priority := priority c |} b) groups' [] ∧
    mjoin groups' = (mjoin groups ++ open) ++ [c].
Proof.
  intros H. unfold PushAsync. destruct (flush_inv b _ _ H) as (g' & [Hg Hc Hf Hx Hco Hmu] & E). exists (g' ++ [[c]]). split; [|by rewrite join_app, E].
  split; cbn; try done. apply Forall2_app; [done|]. constructor; [|constructor]. split; cbn; try done.
  - intros c' ->%list_elem_of_singleton. done.
  - intros v. setoid_rewrite list_elem_of_singleton. naive_solver.
  - intros v. setoid_rewrite list_elem_of_singleton. naive_solver.
  - left. by exists c.
Qed.

Lemma bulk_step_inv b c groups open : bulk_inv b groups open →
  ∃ groups' open', bulk_inv (bulk_step b c) groups' open' ∧ mjoin groups' ++ open' = (mjoin groups ++ open) ++ syncs [c].
Proof.
  intros H. destruct c as [agg c|n]; cbn [bulk_step syncs omap list_omap].
  - unfold PushSync. destruct (_ || _ || _).
    + destruct (push_async_inv c b groups open H) as (g' & H' & E). exists g', []. split; [done|]. by rewrite app_nil_r.
    + destruct (negb (count b =? 0) && negb (exec_ctx c =? b_ctx b)) eqn:E.
      * destruct (flush_inv b _ _ H) as (g' & H' & E'). rewrite <- E', <- (app_nil_r (mjoin g')). apply append_call_inv; [done|by left].
      * apply append_call_inv; [done|]. apply andb_false_iff in E as [E|E]; apply negb_false_iff, Z.eqb_eq in E; [left|by right].
        rewrite (bi_count _ _ _ H) in E. by destruct open.
  - unfold set_bulk_size. cbn [fst count]. rewrite app_nil_r.
    assert (∀ b', b' = {| bulk_size := n; count := count b; b_ctx := b_ctx b; b_fn := b_fn b; b_const := b_const b; b_mutable := b_mutable b; pushed_ := pushed_ b |} → bulk_inv b' groups open) as Hb.
    { intros b' ->. destruct H. by split. }
    destruct (n <=? count b); [|exists groups, open; split; [by apply Hb|done]]. destruct (flush_inv _ _ _ (Hb _ eq_refl)) as (g' & H' & E). exists g', []. by rewrite app_nil_r.
Qed.
End BulkProof.

(** C20: collecting operations in bulks changes nothing but their number.  Whatever calls of
    [PushSync] and changes of the bulk size a thread makes, when the last bulk is flushed
    the operations it has pushed stand, in order and without a gap, for the calls: each runs
    the functions of its calls one after the other on their common device, and names exactly
    the variables they name, those one of them changes as changed, each once. *)
Theorem bulk_equivalent {M} (n : Z) (cs : list (call (M := M))) :
  ∃ groups, mjoin groups = syncs cs ∧ Forall2 covers groups (pushed_ (bulk_run n cs)).
Proof.
  assert (∃ groups open, bulk_inv (foldl bulk_step (bulk_init n) cs) groups open ∧ mjoin groups ++ open = syncs cs) as (groups & open & H & E).
  { induction cs as [|c cs IH] using rev_ind; [exists [], []; split; [split; try done; by intros ? ?%not_elem_of_nil|done]|]. destruct IH as (g & o & H & E). rewrite foldl_app. cbn [foldl].
    destruct (bulk_step_inv _ c g o H) as (g' & o' & H' & E'). exists g', o'. split; [done|]. rewrite E', E. unfold syncs. by rewrite omap_app. }
  destruct (flush_inv _ _ _ H) as (g' & H' & E'). exists g'. split; [by rewrite E', E|]. apply H'.
Qed.
